(* ===== verification/_CoqProject ===== *)
-Q . S2P
Prelude.v
Json.v
GoTime.v
GoStrings.v
Flags.v
Bolt.v
EventStore.v
EventHub.v
Fsm.v
Monitor.v
Config.v
Slm.v
Agent.v
Exec.v
Manager.v
Registry.v
Revive.v
Live.v
Spool.v
Puller.v
EndToEnd.v
Lifecycle.v
Wait.v
Pi.v
DaemonHttp.v
DaemonLink.v
DaemonMain.v
Policy.v
Gateway.v
Proxy.v
ProxyServer.v
Tasks.v
TaskHttp.v
TaskApi.v
ServerConfig.v
ControllerMain.v
FakeGateway.v
OperatorRender.v
OperatorWriter.v
OperatorApply.v
OperatorReconcile.v
OperatorMain.v
Handlers.v
Runtime.v
HandlerRender.v
Watches.v
Repositories.v
DeepCopy.v
Memory.v
Graph.v
ControllerHttp.v
McpServer.v
Adapters.v
Dashboard.v
