(* ===== verification/Prelude.v ===== *)
(** * KAPE: a verification development

    KAPE runs coding agents and event handlers on Kubernetes.  This library models
    the programs of the repository as executable definitions, each with the
    function it translates named in its file, and proves what makes them correct,
    one by one and where they meet.

    ** The programs and how they interact

    Coding agents.  A controller (src/controller) creates sandboxes through a
    gateway, keeps one durable event log per agent and serves it; a daemon inside
    each sandbox (src/daemon) owns the coding agent's process ("pi").  The daemon
    appends each line of pi's output to a spool file under a consecutive id.  The
    controller's puller asks for the records past its cursor and publishes each
    through the agent's event hub, which numbers it, stores it together with the new
    cursor in one transaction of the event store, and sends it to live subscribers.
    Session state, agent status, provisioning data, assessments and the revive budget
    are projections of the stored log, and a restarted controller rebuilds its agents
    from it.  Prompts, steers and aborts go the other way, gated by the session, to
    the daemon's command endpoint and from there to pi's input.  When a daemon dies
    the session is paused and revived under a budget; a monitor has a language model
    assess running turns; waiting clients are woken by the log.

    The operator (src/operator) reconciles two families of resources.  An agent
    server becomes a controller: its credentials are read from secrets, pushed to the
    gateway, and rendered with the rest into the environment the controller reads.  A
    handler becomes a pod: its schema, tools and skills are resolved, and settings,
    prompt, skills and proxy configuration are rendered for it.

    Handlers.  The adapters (src/adapters) turn webhooks into events on a stream.
    The runtime (src/runtime) of a handler consumes them: it creates a task, runs the
    agent graph with the tools the proxy (src/kapeproxy) exposes, writes the outcome
    and runs the actions.  The task service (src/task-service) keeps the tasks and
    streams their changes; the dashboard (src/dashboard) shows them.

    ** Files

    Support.
    - [Prelude]: results, 64-bit integers, tactics, generic lemmas.
    - [Json]: documents as parse trees and the decoder of encoding/json.
    - [GoTime]: instants, calendar and RFC 3339 text; reading back what was written.
    - [GoStrings]: what is used of strings, strconv, fmt and regexp; the matcher is
      related to the language of the expression.
    - [Flags]: the flag package of the processes: what a list of arguments sets.
    - [Bolt]: the interface the store uses of the bbolt database, its documented
      laws, and an in-memory instance with failures.

    The controller (src/controller).
    - [EventStore] (eventstore.go): the store interface with its laws over an
      abstract log and cursor per agent, and the bolt implementation that
      discharges them.
    - [EventHub] (events.go): [PublishPulled], [Publish], [PublishLifecycle],
      [Subscribe], [ReadFiltered], [ReadLast] over any store that has the laws;
      [accepting] says when a store keeps taking appends.
    - [Fsm] (fsm.go): [sessionTransitions], [ReplaySession], [Transition].
    - [Monitor] (monitor.go): the timer table and its heap of entries, ticks,
      [SettleAssess], [assessmentFromEvents], [currentTurnWindow].
    - [Config], [ServerConfig] (config.go): profiles, [ResolveProfile]; the
      environment and the start-up checks.
    - [Slm] (slm.go): the requests to the language model and the reading of its
      answers.
    - [Agent], [Exec], [Manager] (agent.go): the operations on one agent; the pumps of
      the exec transport; create, lineage and delete over the record [World].
    - [Registry] (registry.go): [ReplayAgentStatus], [replayProvisionInfo], views,
      [RebuildFromLog].
    - [Revive] (revive.go): the attempt ledger, [consumeReviveAttempt],
      [waitForReplacementDaemon], [completeRevive], [Resume].
    - [Live]: shared lemmas on agents whose store accepts.
    - [Puller] (puller.go): [puller_step], [drainSpool].
    - [Wait] (wait.go): [parseWaitTimeout], [wakeOf], [Wait].
    - [Policy] (credentials.go, policy.go): bindings, their merge into a sandbox
      policy and its application with retries.
    - [Gateway] (gateway.go, policy.go, daemonproxy.go, sandboxresolver.go): requests
      to the gateway, paging, exposure of daemons, launch lines.
    - [ControllerMain] (main.go, config.go): flags over the environment, credentials,
      and the controller that is started from them.
    - [FakeGateway] (fake.go): the gateway in memory and its scripted stream, against
      the calls of [Manager].
    - [ControllerHttp] (http.go, mcpapi.go): every endpoint and every tool, and the
      event stream with its resume cursor.
    - [McpServer] (mcpapi.go): the table of tools and calls by name.

    The daemon (src/daemon).
    - [Spool] (spool.go): [NewSpool], [Append], [Read], with torn lines and failed
      writes and syncs.
    - [Pi] (pi.go): [Start], the two parts of [awaitExit], the relays, the queue
      tracker, [SendCommand], [Kill], [Shutdown].
    - [DaemonHttp] (http.go): the command queue, the endpoints, the bearer check.
    - [DaemonMain] (main.go, pi.go): configuration and start; the built-in pi.
    - [DaemonLink]: the controller's client (daemonclient.go) against that surface,
      from request text to decoded answer.

    Handlers and tasks.
    - [Proxy], [ProxyServer] (src/kapeproxy): routing, listing, redaction, one tool
      call; the requests and the upstreams of the process.
    - [Tasks], [TaskHttp] (src/task-service): the table with its trigger and
      partitions, the repository and the commands; the stream and the API.
    - [TaskApi] (interfaces/http/gen): the generated controller with its checks and
      routes, compared with the handlers the service mounts.
    - [Runtime], [Graph] (src/runtime): the consumer with its actions; the agent graph,
      its retries and the memory tool.
    - [Adapters] (src/adapters): both webhooks and the publisher over a stream with
      a deduplication window.
    - [Dashboard] (src/dashboard): the task feed, its requests and its stream.

    The operator (src/operator).
    - [OperatorRender], [OperatorWriter], [OperatorApply], [OperatorReconcile]: an
      agent server rendered, its credentials pushed, its objects converged, one pass.
    - [Handlers]: the passes over handlers, tools, skills, schemas and proxy status.
    - [HandlerRender]: what a handler is rendered to, and what runtime and proxy make
      of it.
    - [Memory]: the vector databases of memory tools.
    - [Watches]: which change wakes which reconciler.
    - [Repositories] (infra/k8s/*_repo.go): status updates, finalizers and labels
      against a server with versions and a cache that may be behind.
    - [OperatorMain] (cmd): settings from flags and environment, and the set-up.
    - [DeepCopy] (infra/api/v1alpha1): the resource types and their generated copies
      as programs over a heap.

    Across components.
    - [EndToEnd]: spool, puller, hub and store as one step relation.
    - [Lifecycle]: the operations on one agent as atomic steps, from creation on
      and across restarts.

    ** Conventions

    An operation is a function that takes the state it works on and returns it
    changed; errors and exceptions are values of [res], [option] or an error type.
    What comes from outside (clock, gateway, API server, database troubles, model,
    file system) is an argument, and what goes outside is returned as a list of calls
    or effects.  A mutex makes a call atomic, so concurrency is a sequence of calls;
    where the code holds a read lock only, or releases a lock in the middle, the
    operation is split there ([publish_send] of [Hub_Publish],
    [settle_begin] and [settle_end], [exit_account] and [exit_finish], the rounds of
    [consumeReviveAttempt], the worlds of [Wait], the interference arguments of
    [UpdateStatus_Execute], [arrive] and [commit] of the task page).  Outside components
    that are relied on are type classes with their documented laws and an instance
    ([Bolt], [Postgres], the gateway of [OperatorWriter], the stream of [Adapters],
    [KubeAPI] and [ClientRetry] of [Repositories], [LangGraph] of [Graph]).
    Unsigned 64-bit integers are [N] with their wrap-around ([u64_succ]), durations
    and other signed ones [Z] with [i64_wrap] or [i32_wrap].  JSON text is its parse
    tree, or the text when it does not parse.

    ** What is shown

    - Delivery.  [exactly_once]: through crashes of either side at any point the
      pulled records in the log are the spool's up to the cursor, in order and once,
      but for those the bounded window dropped before they were pulled.  [spool_durable],
      [read_exact], [drain_delivers], [outage_backs_off], [records_over_http]: the
      steps of it, the wire included.
    - The log.  [bolt_store_refines], [hub_history]: gap-free, append-only,
      recoverable.  [subscribe_no_gap], [polls_tile], [sse_reattach_exact]: every
      reader sees each event once and in order, across reconnects too.
    - Projections.  [live_state_is_replay], [provision_roundtrip],
      [assessment_is_latest], [create_projects], [restart_transparent]: what is in
      memory is what the log says, at any time.
    - Turns.  [prompt_policy], [steer_abort_policy], [settle_appends_verdict_first],
      [no_late_tick], [assessments_closed], [truncate_whole_runes],
      [stdout_chunks_irrelevant], [stdin_in_order].
    - Lineage and revival.  [create_all_or_nothing], [create_checks_first],
      [depth_counts_ancestors], [delete_cascades], [child_profile_resolution],
      [consume_paced], [resume_once], [revive_completes].
    - Waiting.  [wait_no_lost_wake], [wait_quiet_times_out].
    - The sandbox side.  [single_pi], [crash_loop_backs_off], [abort_pair],
      [queue_first_wins], [auth_gate], [command_over_http], [status_over_http],
      [flags_win], [tracker_follows], [abort_reports_queue].
    - Transports.  [commands_are_twins], [reads_are_twins], [prompt_status],
      [tools_are_verbs], [tool_calls_are_rest_calls], [reading_tools_change_nothing]:
      HTTP and MCP do the same.
    - Policy and gateway.  [bindings_reach_all], [stamping_idempotent],
      [apply_success_applied], [bound_providers_attached], [list_sandboxes_whole],
      [allowed_ips_exact]; [selector_roundtrip], [create_on_fake],
      [created_agent_listed], [stream_fifo].
    - Start-up.  [controller_flags_win], [started_controller]; [operator_settings],
      [running_operator], [operator_env_reaches_controller], [kubeconfig_resolves].
    - The proxy.  [route_iff_listed], [redaction_complete],
      [calls_are_exposed_and_redacted], [listed_is_callable],
      [closed_upstreams_unreached].
    - Tasks.  [terminal_rows_final], [update_publishes_what_it_wrote],
      [concurrent_updates_one_wins], [update_status_spec], [bulk_all_or_nothing],
      [list_pages_tile], [lineage_of_family], [startup_covers_two_months],
      [handlers_account_for_all], [decisions_exact], [stream_delivers_in_order],
      [outcome_roundtrip]; [gen_always_answers], [recurse_is_preorder],
      [routes_agree], [listing_agrees].
    - The operator.  [rendered_controller_starts], [rendered_bindings_are_held],
      [credentials_reported], [environment_carries_no_secret], [apply_converges],
      [apply_touches_only_owned]; [dependencies_resolved], [references_protect],
      [pass_restores], [pod_gets_its_files], [tools_confine_proxy];
      [references_requeue], [secret_change_requeues]; [address_means_ready],
      [qdrant_objects_converge]; [deep_copy_shares_nothing], [fresh_read_settles],
      [stale_cache_gives_up], [finalizer_roundtrip], [labels_synced].
    - Handlers at run time.  [message_settles], [run_actions_reports_all],
      [react_loop], [react_raises], [retry_outcome], [audit_batch_stored],
      [audit_repost_adds_nothing].
    - The dashboard.  [list_request_read_back], [offered_timeout_accepted],
      [offered_statuses_accepted], [feed_shows_latest], [pause_transparent],
      [older_page_merged].
    - Termination.  [waitReady_terminates], [hold_terminates], [consume_terminates],
      [delete_cascades], [depth_counts_ancestors], [findRoot_terminates],
      [list_pages_tile].
    - Where the code falls short of what it means to do, on concrete and general
      inputs.  Controller and daemon: [forged_record_terminates_replay],
      [settle_fail_race], [lost_settle_wedges], [failed_create_resurrects],
      [half_settled_revive_sticks], [sync_failure_reuses_id],
      [short_write_bricks_restart], [list_order_cyclic], [parseWaitTimeout_overflows],
      [wait_misses_dropped_settle], [late_reset_loses_steer],
      [failed_launch_forgets_crash], [zero_profile_parent_refuses], [cut_record_is_lost],
      [stale_retry_fails], [listed_ports_are_not_bound], [list_sandboxes_unbounded],
      [signed_port_unexposed],
      [quoting_is_not_for_the_shell], [slow_reader_loses_event],
      [bad_default_model_refuses_creates], [bad_flag_hides_rest],
      [bad_cap_serves_nothing], [no_children_flag_refuses_spawns],
      [failed_stream_takes_input], [exit_event_may_be_missed].  Tasks and handlers:
      [duplicate_id_wedges], [self_retry_never_answers], [lineage_misses_deep_retry],
      [cursor_skips_tasks], [month_end_start_skips], [overlapping_names_depend_on_order],
      [slice_rule_takes_first], [initialize_refused], [actions_stop_consumer],
      [naive_time_stops_consumer],
      [iterations_fixed], [memory_needs_a_file], [alert_repost_duplicates],
      [stages_collapse], [live_runs_refused], [updates_need_an_error],
      [own_handler_takes_more].  Operator: [unsplittable_host_stops_controller],
      [provider_names_collide], [lost_update_goes_stale], [observed_proxy_never_ready],
      [gated_handler_sticks], [stale_reference_blocks], [invalid_schema_undeletable],
      [denied_tools_not_rendered], [scale_to_zero_undone], [blocked_deletion_waits],
      [unlabelling_unseen], [external_collection_deleted], [config_flag_refused],
      [status_is_replaced], [added_finalizer_replaces],
      [unversioned_field_is_patched_again].  Dashboard:
      [live_stream_unheard], [offered_ranges_ignored], [reload_shown_late],
      [coalesced_text_lost], [pause_is_brittle].

    ** Bounds and fuel

    Loops that are not structural take fuel, and a theorem shows that it is enough.
    [waitReady] gets 302 polls: a ten-minute budget with polls two seconds apart.
    [waitForReplacementDaemon] gets [wait / 0.5s + 2].  [Delete] and the depth walk
    get one more than the number of registered agents, since neither visits one twice.
    A drain needs two requests.  [findRoot] gets one more than the rank of the task in
    any order that its retry links descend; where there is none it never answers,
    which is a theorem.  Paging through the task list takes one page more than there
    are rows, through the gateway's sandboxes one request per page.  The glob matcher
    takes the length of its pattern, the duration parser that of its text.  The number
    of nodes the agent graph runs is bounded by LangGraph's limit, a parameter.
    Theorems about histories assume that the log stays below 2^64 events.

    ** Not modelled

    Generated protobuf and gRPC code.  Of the generated task API, which the service
    does not mount, uploads, floating-point parameters and the checks that never fail.
    The start-up of the task service, the adapters and the proxy beyond what their
    files name, and of every process signals, listeners, TLS and connection handling,
    metrics, tracing and probes: they are I/O, and what is left of them is assignment.
    The transport of MCP between proxy and upstreams. LangGraph, its tool node, the
    model clients, the template and JSONPath engines and the printers of TOML and YAML
    are arguments. The expansion of references between the variables of a container,
    which the kubelet does before the process sees them: values are taken literally.
    Of the dashboard, rendering, text formatting of floating-point durations, and the handler pages, which show mock data. The example services. *)

From stdpp Require Import base tactics list strings numbers sorting relations gmap.

(** ** Results *)

(** Go's [(T, error)] pair as a sum: a value or the error that replaced it. *)
Inductive res (E A : Type) : Type :=
| Ok (a : A)
| Err (e : E).
Arguments Ok {E A} a.
Arguments Err {E A} e.

Declare Scope go_scope.
Delimit Scope go_scope with go.

Notation "'let?' x := c 'in' k" :=
  (match c with Ok x => k | Err e => Err e end)
  (at level 10, x name, c at level 100, k at level 200) : go_scope.

Definition is_ok {E A} (r : res E A) : bool :=
  match r with Ok _ => true | Err _ => false end.

(** ** Machine integers *)

(** [uint64]: a natural number below [2^64]; addition wraps around. *)
Definition u64_bound : N := 18446744073709551616%N.
Definition u64_wrap (n : N) : N := (n mod u64_bound)%N.
Definition u64_succ (n : N) : N := u64_wrap (n + 1)%N.

(** [int64] (and [int] and [time.Duration]): the signed residue modulo [2^64]. *)
Definition i64_min : Z := (-9223372036854775808)%Z.
Definition i64_max : Z := 9223372036854775807%Z.
Definition i64_wrap (z : Z) : Z :=
  ((z + 9223372036854775808) mod 18446744073709551616 - 9223372036854775808)%Z.

(** ** The development's tactics *)

(** Split every conjunction and existential in the context. *)
Ltac deconj :=
  repeat match goal with
  | H : _ ∧ _ |- _ => destruct H
  | H : ∃ _, _ |- _ => destruct H
  end.

(** Open every [match] in the goal and hypotheses, discarding impossible branches. *)
Ltac crush_match :=
  repeat (case_match; simplify_eq/=; try done).

(** [lia] on goals with division and remainder. *)
Ltac dlia := Z.to_euclidean_division_equations; lia.

Create HintDb kape.

(** ** Integers *)

Lemma u64_succ_small n : (n + 1 < u64_bound)%N → u64_succ n = (n + 1)%N.
Proof. intros. unfold u64_succ, u64_wrap. by apply N.mod_small. Qed.

Lemma u64_wrap_bound n : (u64_wrap n < u64_bound)%N.
Proof. unfold u64_wrap. by apply N.mod_lt. Qed.

Lemma i64_wrap_small z : (i64_min ≤ z ≤ i64_max)%Z → i64_wrap z = z.
Proof.
  unfold i64_wrap, i64_min, i64_max. intros.
  rewrite Z.mod_small by lia. lia.
Qed.

Lemma i64_wrap_range z : (i64_min ≤ i64_wrap z ≤ i64_max)%Z.
Proof.
  unfold i64_wrap, i64_min, i64_max.
  pose proof (Z.mod_pos_bound (z + 9223372036854775808) 18446744073709551616). lia.
Qed.

#[export] Hint Resolve u64_wrap_bound i64_wrap_range : kape.

(** ** Lists *)

Lemma filter_id {A} (P : A → Prop) `{∀ x, Decision (P x)} (l : list A) :
  Forall P l → filter P l = l.
Proof. induction 1 as [|x l Hx _ IH]; [done|]. rewrite filter_cons_True by done. by rewrite IH. Qed.

Lemma filter_none {A} (P : A → Prop) `{∀ x, Decision (P x)} (l : list A) :
  Forall (λ x, ¬ P x) l → filter P l = [].
Proof. induction 1 as [|x l Hx _ IH]; [done|]. by rewrite filter_cons_False. Qed.

Lemma filter_agree {A} (P Q : A → Prop) `{∀ x, Decision (P x), ∀ x, Decision (Q x)} (l : list A) :
  Forall (λ x, P x ↔ Q x) l → filter P l = filter Q l.
Proof.
  induction 1 as [|x l Hx _ IH]; [done|]. rewrite !filter_cons, IH. by repeat case_decide; tauto.
Qed.

Lemma StronglySorted_filter {A} (R : relation A) (P : A → Prop) `{∀ x, Decision (P x)} l :
  StronglySorted R l → StronglySorted R (filter P l).
Proof.
  induction 1 as [|x l Hs IH Hf]; [constructor|]. rewrite filter_cons.
  case_decide; [|done]. constructor; [done|]. rewrite Forall_forall in Hf |- *.
  intros y [_ Hy]%list_elem_of_filter. by apply Hf.
Qed.
