(* ===== verification/Json.v ===== *)
(** * JSON documents, as [encoding/json] reads and writes them

    The controller and the daemon exchange and persist JSON text.  A text is
    represented here by its parse tree: an object keeps its members in text
    order, duplicates included, because the decoder of [encoding/json] visits
    them one by one.  Decoding into a struct follows that decoder: a member is
    stored in the field whose name it equals up to case folding, [null] leaves
    the field alone, a member of the wrong type makes the whole call fail but
    does not stop it, and a later member overwrites an earlier one. *)

From Stdlib Require Import Ascii String ZArith.
From S2P Require Import Prelude.
From stdpp Require Import base list strings numbers.
Local Open Scope string_scope.
Local Open Scope list_scope.

Inductive json : Type :=
| JNull
| JBool (b : bool)
| JInt (z : Z)              (* a number literal without fraction or exponent *)
| JNum (literal : string)   (* any other number literal *)
| JStr (s : string)
| JArr (l : list json)
| JObj (members : list (string * json)).

#[global] Instance json_eq_dec : EqDecision json.
Proof.
  refine (fix go (a b : json) : Decision (a = b) :=
    let _ : EqDecision json := @go in
    match a, b with
    | JNull, JNull => left _
    | JBool x, JBool y => cast_if (decide (x = y))
    | JInt x, JInt y => cast_if (decide (x = y))
    | JNum x, JNum y => cast_if (decide (x = y))
    | JStr x, JStr y => cast_if (decide (x = y))
    | JArr x, JArr y => cast_if (decide (x = y))
    | JObj x, JObj y => cast_if (decide (x = y))
    | _, _ => right _
    end); congruence.
Defined.

(** A [json.RawMessage]: nil, a valid document, or bytes that are not JSON. *)
Inductive RawMessage : Type :=
| RNil
| RJson (j : json)
| RBad (text : string).

(** [json.Marshal] of a [RawMessage]: nil prints as [null], anything that is
    not JSON is an error. *)
Definition marshal_raw (r : RawMessage) : option json :=
  match r with
  | RNil => Some JNull
  | RJson j => Some j
  | RBad _ => None
  end.

(** ** Struct decoding *)

(** [foldName]: ASCII letters to upper case; the Kelvin sign and the long s,
    the two other characters that fold to an ASCII letter, to K and S. *)
Definition upper_ascii (c : ascii) : ascii :=
  let n := nat_of_ascii c in
  if ((97 <=? n) && (n <=? 122))%nat then ascii_of_nat (n - 32) else c.

Fixpoint fold_name (s : string) : string :=
  match s with
  | EmptyString => EmptyString
  | String a r =>
      match r with
      | String b r' =>
          if ((nat_of_ascii a =? 197) && (nat_of_ascii b =? 191))%nat
          then String "S" (fold_name r')
          else match r' with
               | String c r'' =>
                   if ((nat_of_ascii a =? 226) && (nat_of_ascii b =? 132)
                       && (nat_of_ascii c =? 170))%nat
                   then String "K" (fold_name r'')
                   else String (upper_ascii a) (fold_name r)
               | EmptyString => String (upper_ascii a) (fold_name r)
               end
      | EmptyString => String (upper_ascii a) EmptyString
      end
  end.

Definition key_matches (field key : string) : bool :=
  String.eqb (fold_name field) (fold_name key).

(** The members a struct destination is filled from: those of an object, none
    for [null]; any other document, or invalid text, fails. *)
Definition unmarshal_struct (r : RawMessage) : option (list (string * json)) :=
  match r with
  | RJson (JObj ms) => Some ms
  | RJson JNull => Some []
  | _ => None
  end.

(** One struct field of a Go type, decoded from the members in order: the
    field's final value and whether some member had the wrong type. *)
Definition decode_field {A} (conv : json → option A) (field : string) (zero : A)
    (ms : list (string * json)) : A * bool :=
  fold_left (λ (st : A * bool) kv,
    if key_matches field (fst kv) then
      match snd kv with
      | JNull => st
      | v => match conv v with Some a => (a, snd st) | None => (fst st, true) end
      end
    else st) ms (zero, false).

(** A field of slice type, which [null] unsets. *)
Definition decode_nilable {A} (conv : json → option A) (field : string) (zero : A)
    (ms : list (string * json)) : A * bool :=
  fold_left (λ (st : A * bool) kv,
    if key_matches field (fst kv) then
      match snd kv with
      | JNull => (zero, snd st)
      | v => match conv v with Some a => (a, snd st) | None => (fst st, true) end
      end
    else st) ms (zero, false).

Definition conv_string (j : json) : option string :=
  match j with JStr s => Some s | _ => None end.

Definition conv_bool (j : json) : option bool :=
  match j with JBool b => Some b | _ => None end.

Definition conv_uint64 (j : json) : option N :=
  match j with
  | JInt z => if ((0 <=? z)%Z && (z <? Z.of_N u64_bound)%Z) then Some (Z.to_N z) else None
  | _ => None
  end.

Definition string_field (field : string) (ms : list (string * json)) : string * bool :=
  decode_field conv_string field "" ms.

(** A [json.RawMessage] field takes any value, [null] included. *)
Definition raw_field (field : string) (ms : list (string * json)) : RawMessage :=
  fold_left (λ r kv, if key_matches field (fst kv) then RJson (snd kv) else r) ms RNil.

(** ** Maps *)

(** A [map[string]interface{}] is kept as its members in key order, which is
    the order [json.Marshal] prints them in; [fput] is the map assignment. *)
Definition fields := list (string * json).

Fixpoint fput (k : string) (v : json) (m : fields) : fields :=
  match m with
  | [] => [(k, v)]
  | (k', v') :: m' =>
      match String.compare k k' with
      | Lt => (k, v) :: m
      | Eq => (k, v) :: m'
      | Gt => (k', v') :: fput k v m'
      end
  end.

Fixpoint fget (k : string) (m : fields) : option json :=
  match m with
  | [] => None
  | (k', v) :: m' => if String.eqb k k' then Some v else fget k m'
  end.

Definition fields_of (l : list (string * json)) : fields :=
  fold_left (λ m kv, fput (fst kv) (snd kv) m) l [].

(** ** Lemmas *)

Lemma fget_fput_eq k v m : fget k (fput k v m) = Some v.
Proof.
  induction m as [|[k' v'] m IH]; simpl; [by rewrite String.eqb_refl|].
  destruct (String.compare k k') eqn:E; simpl; rewrite ?String.eqb_refl; try done.
  destruct (String.eqb k k') eqn:Ek; [|done].
  apply String.eqb_eq in Ek as <-.
  pose proof (String.compare_antisym k k) as A. by rewrite E in A.
Qed.

Lemma fget_fput_ne k k' v m : k ≠ k' → fget k' (fput k v m) = fget k' m.
Proof.
  intros Hne. assert (Hb : String.eqb k' k = false).
  { apply String.eqb_neq. congruence. }
  induction m as [|[k1 v1] m IH]; simpl; [by rewrite Hb|].
  destruct (String.compare k k1) eqn:E; simpl; rewrite ?Hb.
  - by apply String.compare_eq_iff in E as <-; rewrite Hb.
  - done.
  - by rewrite IH.
Qed.

Lemma key_matches_refl k : key_matches k k = true.
Proof. apply String.eqb_refl. Qed.

Lemma decode_field_skip {A} (conv : json → option A) field zero ms1 ms2 :
  Forall (λ kv, key_matches field (fst kv) = false) ms2 →
  decode_field conv field zero (ms1 ++ ms2) = decode_field conv field zero ms1.
Proof.
  unfold decode_field. rewrite fold_left_app.
  generalize (fold_left (λ (st : A * bool) kv,
    if key_matches field (fst kv) then
      match snd kv with
      | JNull => st
      | v => match conv v with Some a => (a, snd st) | None => (fst st, true) end
      end
    else st) ms1 (zero, false)).
  induction 1 as [|kv l Hk _ IH] using Forall_ind; simpl in *; [done|].
  by rewrite Hk.
Qed.
