(* ===== verification/GoTime.v ===== *)
(** * Instants and their RFC 3339 text

    The event log carries instants as text: [t.UTC().Format(time.RFC3339Nano)]
    writes them and [time.Parse] reads them back (revive.go, registry.go,
    monitor.go).  An instant is the number of nanoseconds since the Unix epoch;
    the text is the proleptic Gregorian date and time of day in UTC with the
    fraction's trailing zeros dropped.  [Parse] accepts the texts [Format]
    produces (four-digit year, UTC marker Z); the theorem that matters is that
    reading back what was written gives the same instant. *)

From Stdlib Require Import Ascii String ZArith.
From S2P Require Import Prelude.
From stdpp Require Import base list strings numbers.
Local Open Scope string_scope.
Local Open Scope list_scope.
Local Open Scope Z_scope.

(** ** The calendar *)

(** Month (counted from March) and day of the day [doy] of a year that starts
    on March 1. *)
Definition month_day (doy : Z) : Z * Z :=
  let mp := (5 * doy + 2) / 153 in
  (mp, doy - (153 * mp + 2) / 5 + 1).

(** Year, month and day of the day number [z] (day 0 is 1970-01-01): whole
    400-year eras first, then centuries, four-year cycles and years of the era. *)
Definition civil_of_doe (doe : Z) : Z * Z * Z :=
  let c := Z.min (doe / 36524) 3 in
  let r := doe - c * 36524 in
  let q := r / 1461 in
  let a := Z.min ((r - q * 1461) / 365) 3 in
  let doy := r - q * 1461 - a * 365 in
  let yoe := 100 * c + 4 * q + a in
  let '(mp, d) := month_day doy in
  let m := if mp <? 10 then mp + 3 else mp - 9 in
  (if m <=? 2 then yoe + 1 else yoe, m, d).

Definition civil_of_days (z : Z) : Z * Z * Z :=
  let z' := z + 719468 in
  let era := z' / 146097 in
  let '(y, m, d) := civil_of_doe (z' - era * 146097) in
  (y + era * 400, m, d).

(** Day of the era of a date whose year counts from the era's start. *)
Definition doe_of_civil (y m d : Z) : Z :=
  let y' := if m <=? 2 then y - 1 else y in
  let doy := (153 * (if 2 <? m then m - 3 else m + 9) + 2) / 5 + d - 1 in
  y' * 365 + y' / 4 - y' / 100 + doy.

Definition days_of_civil (y m d : Z) : Z :=
  let y' := if m <=? 2 then y - 1 else y in
  let era := y' / 400 in
  era * 146097 + doe_of_civil (y - era * 400) m d - 719468.

Definition is_leap (y : Z) : bool :=
  (y mod 4 =? 0) && (negb (y mod 100 =? 0) || (y mod 400 =? 0)).

Definition days_in (y m : Z) : Z :=
  if m =? 2 then (if is_leap y then 29 else 28)
  else if (m =? 4) || (m =? 6) || (m =? 9) || (m =? 11) then 30 else 31.

(** ** Decimal text *)

Definition digit_char (d : Z) : ascii := ascii_of_nat (48 + Z.to_nat d).

Definition digit_val (c : ascii) : option Z :=
  let n := Z.of_nat (nat_of_ascii c) in
  if (48 <=? n) && (n <=? 57) then Some (n - 48) else None.

(** The last [k] decimal digits of [n], most significant first. *)
Fixpoint digits (k : nat) (n : Z) : list Z :=
  match k with
  | O => []
  | S k' => digits k' (n / 10) ++ [n mod 10]
  end.

Fixpoint show (ds : list Z) (rest : string) : string :=
  match ds with
  | [] => rest
  | d :: ds' => String (digit_char d) (show ds' rest)
  end.

Fixpoint take_digits (k : nat) (acc : Z) (s : string) : option (Z * string) :=
  match k with
  | O => Some (acc, s)
  | S k' =>
      match s with
      | String c r => match digit_val c with
                      | Some d => take_digits k' (10 * acc + d) r
                      | None => None
                      end
      | EmptyString => None
      end
  end.

Fixpoint span_digits (s : string) : list Z * string :=
  match s with
  | String c r => match digit_val c with
                  | Some d => let '(ds, r') := span_digits r in (d :: ds, r')
                  | None => ([], s)
                  end
  | EmptyString => ([], s)
  end.

Definition expect (c : ascii) (s : string) : option string :=
  match s with
  | String c' r => if Ascii.eqb c c' then Some r else None
  | EmptyString => None
  end.

Definition of_digits (ds : list Z) : Z := fold_left (λ a d, 10 * a + d) ds 0.

(** Drop trailing zeros. *)
Fixpoint strip0 (ds : list Z) : list Z :=
  match ds with
  | [] => []
  | d :: ds' => match strip0 ds' with
                | [] => if d =? 0 then [] else [d]
                | r => d :: r
                end
  end.

(** ** Format and Parse *)

Definition second : Z := 1000000000.

Definition Format (t : Z) : string :=
  let secs := t / second in
  let nanos := t mod second in
  let '(y, m, d) := civil_of_days (secs / 86400) in
  let sod := secs mod 86400 in
  show (digits 4 y) (String "-" (show (digits 2 m) (String "-" (show (digits 2 d) (String "T"
  (show (digits 2 (sod / 3600)) (String ":" (show (digits 2 (sod / 60 mod 60)) (String ":"
  (show (digits 2 (sod mod 60))
    (match strip0 (digits 9 nanos) with
     | [] => "Z"
     | ds => String "." (show ds "Z")
     end))))))))))).

Definition parse_frac (s : string) : option (Z * string) :=
  match s with
  | String "." r =>
      match span_digits r with
      | ([], _) => None
      | (ds, r') => Some (of_digits (take 9 (ds ++ repeat 0 9)), r')
      end
  | _ => Some (0, s)
  end.

Definition Parse (s : string) : option Z :=
  '(y, s) ← take_digits 4 0 s; s ← expect "-" s;
  '(m, s) ← take_digits 2 0 s; s ← expect "-" s;
  '(d, s) ← take_digits 2 0 s; s ← expect "T" s;
  '(hh, s) ← take_digits 2 0 s; s ← expect ":" s;
  '(mm, s) ← take_digits 2 0 s; s ← expect ":" s;
  '(ss, s) ← take_digits 2 0 s;
  '(nanos, s) ← parse_frac s; s ← expect "Z" s;
  if String.eqb s "" && (1 <=? m) && (m <=? 12) && (1 <=? d) && (d <=? days_in y m)
     && (hh <=? 23) && (mm <=? 59) && (ss <=? 59)
  then Some ((days_of_civil y m d * 86400 + hh * 3600 + mm * 60 + ss) * second + nanos)
  else None.

(** The zero [time.Time], January 1 of year 1. *)
Definition zero_time : Z := -62135596800 * second.

Definition IsZero (t : Z) : bool := t =? zero_time.

(** [t.Sub(u)]: the difference, saturated to the range of a duration. *)
Definition Sub (t u : Z) : Z := Z.max i64_min (Z.min i64_max (t - u)).

(** ** Decimal lemmas *)

#[local] Arguments digit_val : simpl never.
#[local] Arguments digit_char : simpl never.

Lemma digit_val_char d : 0 ≤ d < 10 → digit_val (digit_char d) = Some d.
Proof.
  intros H. assert (∀ k, (k < 10)%nat →
    digit_val (digit_char (Z.of_nat k)) = Some (Z.of_nat k)) as Hk.
  { intros k Hk. do 10 (destruct k as [|k]; [reflexivity|]). lia. }
  specialize (Hk (Z.to_nat d)). rewrite Z2Nat.id in Hk by lia. apply Hk. lia.
Qed.

Lemma digits_range k n : Forall (λ d, 0 ≤ d < 10) (digits k n).
Proof.
  revert n. induction k as [|k IH]; intros n; simpl; [constructor|].
  apply Forall_app_2; [apply IH|]. repeat constructor; apply Z.mod_pos_bound; lia.
Qed.

Lemma length_digits k n : length (digits k n) = k.
Proof.
  revert n. induction k as [|k IH]; intros n; simpl; [done|].
  rewrite length_app, IH. simpl. lia.
Qed.

Lemma of_digits_snoc ds d : of_digits (ds ++ [d]) = 10 * of_digits ds + d.
Proof. unfold of_digits. by rewrite fold_left_app. Qed.

Lemma of_digits_digits k n : of_digits (digits k n) = n mod 10 ^ Z.of_nat k.
Proof.
  revert n. induction k as [|k IH]; intros n.
  { cbn. by rewrite Z.mod_1_r. }
  cbn [digits]. rewrite of_digits_snoc, IH.
  replace (Z.of_nat (S k)) with (Z.of_nat k + 1) by lia.
  rewrite Z.pow_add_r, Z.pow_1_r, (Z.mul_comm (10 ^ _) 10) by lia.
  rewrite (Z.rem_mul_r n 10 (10 ^ Z.of_nat k)) by lia. lia.
Qed.

Lemma take_digits_show_gen ds acc rest :
  Forall (λ d, 0 ≤ d < 10) ds →
  take_digits (length ds) acc (show ds rest) = Some (fold_left (λ a d, 10 * a + d) ds acc, rest).
Proof.
  intros H. revert acc. induction H as [|d ds Hd _ IH]; intros acc; [done|].
  cbn [length take_digits show fold_left]. rewrite digit_val_char by done. apply IH.
Qed.

Lemma take_digits_show k n rest :
  0 ≤ n < 10 ^ Z.of_nat k →
  take_digits k 0 (show (digits k n) rest) = Some (n, rest).
Proof.
  intros H. rewrite <-(length_digits k n) at 1.
  rewrite take_digits_show_gen by apply digits_range.
  fold (of_digits (digits k n)). rewrite of_digits_digits, Z.mod_small by done. done.
Qed.

Lemma span_digits_show ds rest :
  Forall (λ d, 0 ≤ d < 10) ds →
  (∀ c r, rest = String c r → digit_val c = None) →
  span_digits (show ds rest) = (ds, rest).
Proof.
  intros H Hr. induction H as [|d ds Hd _ IH].
  - destruct rest as [|c r]; [reflexivity|].
    cbn [show span_digits].
    rewrite (Hr c r eq_refl).
    reflexivity.
  - cbn [show span_digits].
    rewrite digit_val_char by assumption.
    rewrite IH.
    reflexivity.
Qed.

Lemma strip0_pad ds : ∃ k, ds = strip0 ds ++ repeat 0 k.
Proof.
  induction ds as [|d ds [k IH]]; simpl; [by exists O|].
  destruct (strip0 ds) as [|x xs] eqn:E.
  - destruct (d =? 0) eqn:Ed.
    + apply Z.eqb_eq in Ed as ->. exists (S k). simpl. by f_equal.
    + exists k. simpl. by f_equal.
  - exists k. simpl in *. by f_equal.
Qed.

Lemma strip0_range P ds : Forall P ds → Forall P (strip0 ds).
Proof. intros H. destruct (strip0_pad ds) as [k E]. rewrite E in H. by apply Forall_app in H as [? _]. Qed.

Lemma strip0_take9 ds : length ds = 9%nat → take 9 (strip0 ds ++ repeat 0 9) = ds.
Proof.
  intros Hl. destruct (strip0_pad ds) as [k E].
  assert (Hk : (length (strip0 ds) + k = 9)%nat).
  { apply (f_equal length) in E. rewrite length_app, repeat_length in E. lia. }
  rewrite take_app_ge by lia.
  replace 9%nat with (k + (9 - k))%nat at 2 by lia.
  rewrite repeat_app, take_app_le by (rewrite repeat_length; lia).
  rewrite take_ge by (rewrite repeat_length; lia).
  replace (9 - length (strip0 ds))%nat with k in * by lia. done.
Qed.

(** ** Calendar lemmas *)

(** Every day of the year, by evaluation. *)
Definition month_day_ok (doy : nat) : bool :=
  let '(mp, d) := month_day (Z.of_nat doy) in
  (0 <=? mp) && (mp <=? 11) && (1 <=? d)
  && ((153 * mp + 2) / 5 + d - 1 =? Z.of_nat doy)
  && (if mp =? 11 then (d <=? 28) || ((d =? 29) && (Z.of_nat doy =? 365))
      else d <=? days_in 0 (if mp <? 10 then mp + 3 else mp - 9)).

Lemma month_day_all : forallb month_day_ok (seq 0 366) = true.
Proof. vm_compute. reflexivity. Qed.

Lemma month_day_spec doy mp d :
  0 ≤ doy < 366 → month_day doy = (mp, d) →
  0 ≤ mp ≤ 11 ∧ 1 ≤ d ∧ (153 * mp + 2) / 5 + d - 1 = doy ∧
  (mp = 11 → d ≤ 28 ∨ (d = 29 ∧ doy = 365)) ∧
  (mp ≠ 11 → d ≤ days_in 0 (if mp <? 10 then mp + 3 else mp - 9)).
Proof.
  intros H Hmd. pose proof month_day_all as Ha. rewrite forallb_forall in Ha.
  specialize (Ha (Z.to_nat doy)). unfold month_day_ok in Ha. rewrite Z2Nat.id, Hmd in Ha by lia.
  rewrite !andb_true_iff, !Z.leb_le, Z.eqb_eq in Ha.
  destruct Ha as [[[[? ?] ?] ?] Hl]; [apply in_seq; lia|].
  destruct (mp =? 11) eqn:E.
  - apply Z.eqb_eq in E. apply orb_true_iff in Hl.
    rewrite andb_true_iff, Z.leb_le, !Z.eqb_eq in Hl. repeat split; try lia. 
  - apply Z.eqb_neq in E. rewrite Z.leb_le in Hl. repeat split; try lia; done.
Qed.

(** February of the year [yoe + 1] of an era has 29 days when the March-based
    year [yoe] has 366. *)
Lemma days_in_not_feb y m : m ≠ 2 → days_in y m = days_in 0 m.
Proof. intros Hm. unfold days_in. by destruct (Z.eqb_spec m 2). Qed.

Lemma days_in_feb y : days_in y 2 = if is_leap y then 29 else 28.
Proof. reflexivity. Qed.

Lemma days_in_period y m e : days_in (y + e * 400) m = days_in y m.
Proof.
  unfold days_in, is_leap.
  replace (y + e * 400) with (y + (e * 100) * 4) at 1 by lia.
  replace (y + e * 400) with (y + (e * 4) * 100) at 1 by lia.
  by rewrite !Z.mod_add by lia.
Qed.

Lemma civil_doe_inv doe y m d :
  0 ≤ doe < 146097 → civil_of_doe doe = (y, m, d) →
  doe_of_civil y m d = doe ∧ 1 ≤ m ≤ 12 ∧ 1 ≤ d ≤ days_in y m ∧
  0 ≤ (if m <=? 2 then y - 1 else y) < 400.
Proof.
  intros Hd. unfold civil_of_doe.
  set (c := Z.min (doe / 36524) 3). set (r := doe - c * 36524). set (q := r / 1461).
  set (a := Z.min ((r - q * 1461) / 365) 3). set (doy := r - q * 1461 - a * 365).
  set (yoe := 100 * c + 4 * q + a). intros H.
  assert (Hc : 0 ≤ c ≤ 3 ∧ 0 ≤ r ∧ (c < 3 → r < 36524) ∧ r ≤ 36524) by (subst c r; dlia).
  assert (Hq : 0 ≤ q ≤ 24 ∧ 0 ≤ r - q * 1461 < 1461) by (subst q; dlia).
  assert (Ha : 0 ≤ a ≤ 3 ∧ 0 ≤ doy < 366 ∧ (doy = 365 → a = 3)) by (subst a doy; dlia).
  assert (Hy : yoe / 4 = 25 * c + q ∧ yoe / 100 = c ∧ 0 ≤ yoe < 400) by (subst yoe; dlia).
  destruct (month_day doy) as [mp dd] eqn:Emd.
  destruct (month_day_spec doy mp dd ltac:(lia) Emd) as (Hmp & Hdd & Hinv & Hfeb & Hrest).
  injection H as <- <- <-.
  assert (Hm : (mp <? 10) = true ∧ ((if mp <? 10 then mp + 3 else mp - 9) <=? 2) = false ∧ mp < 10
    ∨ (mp <? 10) = false ∧ ((if mp <? 10 then mp + 3 else mp - 9) <=? 2) = true ∧ 10 ≤ mp).
  { destruct (Z.ltb_spec mp 10); [left|right]; repeat split; lia. }
  destruct Hm as [(E1 & E2 & Hlt)|(E1 & E2 & Hge)]; rewrite E1 in *; rewrite E2 in *.
  - unfold doe_of_civil. rewrite E2. replace (2 <? mp + 3) with true by lia.
    replace (mp + 3 - 3) with mp by lia. rewrite days_in_not_feb by lia.
    repeat split; try lia.
  - unfold doe_of_civil. rewrite E2. replace (2 <? mp - 9) with false by lia.
    replace (mp - 9 + 9) with mp by lia. replace (yoe + 1 - 1) with yoe by lia.
    split; [lia|]. split; [lia|]. split; [|lia]. split; [lia|].
    destruct (decide (mp = 11)) as [->|]; [|rewrite days_in_not_feb by lia; apply Hrest; lia].
    change (11 - 9) with 2. rewrite days_in_feb. destruct (Hfeb eq_refl) as [?|[-> Hl]].
    + destruct (is_leap _); lia.
    + assert (is_leap (yoe + 1) = true) as ->; [|lia].
      unfold is_leap. rewrite andb_true_iff, orb_true_iff, negb_true_iff, Z.eqb_neq, !Z.eqb_eq.
      assert (a = 3) by lia. assert (r - q * 1461 = 1460) by lia.
      destruct (decide (q = 24)); [assert (c = 3) by lia|]; dlia.
Qed.

(** The calendar inverts: day number to date and back, with a valid date. *)
Lemma civil_days_inv z y m d :
  civil_of_days z = (y, m, d) →
  days_of_civil y m d = z ∧ 1 ≤ m ≤ 12 ∧ 1 ≤ d ≤ days_in y m.
Proof.
  unfold civil_of_days. set (era := (z + 719468) / 146097). intros H.
  assert (Hdoe : 0 ≤ z + 719468 - era * 146097 < 146097) by (subst era; dlia).
  destruct (civil_of_doe _) as [[y0 m0] d0] eqn:E.
  destruct (civil_doe_inv _ _ _ _ Hdoe E) as (Hinv & Hm & Hd & Hy).
  injection H as <- <- <-. rewrite days_in_period. split; [|lia].
  unfold days_of_civil.
  replace ((if m0 <=? 2 then y0 + era * 400 - 1 else y0 + era * 400) / 400) with era
    by (destruct (m0 <=? 2); dlia).
  replace (y0 + era * 400 - era * 400) with y0 by lia. lia.
Qed.

(** ** Months *)

Definition day : Z := 86400 * second.

(** The month [n] months after month [m] of year [y]. *)
Definition norm_month (y m : Z) : Z * Z := (y + (m - 1) / 12, (m - 1) mod 12 + 1).

(** [t.AddDate(0, n, 0)]: the day of the month is kept, and one past the end of
    the month spills into the next. *)
Definition AddMonths (t n : Z) : Z :=
  let '(y, m, d) := civil_of_days (t / day) in
  let '(y', m') := norm_month y (m + n) in
  (days_of_civil y' m' 1 + (d - 1)) * day + t mod day.

(** Midnight of the first day of a month. *)
Definition month_start (y m : Z) : Z := days_of_civil y m 1 * day.

Lemma days_of_civil_day y m d : days_of_civil y m d = days_of_civil y m 1 + (d - 1).
Proof. unfold days_of_civil, doe_of_civil. lia. Qed.

Lemma norm_month_valid y m : 1 ≤ m ≤ 12 → norm_month y m = (y, m).
Proof. intros. unfold norm_month. f_equal; dlia. Qed.

Lemma norm_month_next y m :
  1 ≤ m ≤ 12 → norm_month y (m + 1) = if m =? 12 then (y + 1, 1) else (y, m + 1).
Proof. intros. unfold norm_month. destruct (Z.eqb_spec m 12); f_equal; dlia. Qed.

Lemma days_in_pos y m : 28 ≤ days_in y m ≤ 31.
Proof. unfold days_in. repeat case_match; lia. Qed.

Lemma days_of_civil_flat y m d :
  days_of_civil y m d =
    let y' := if m <=? 2 then y - 1 else y in
    y' * 365 + y' / 4 - y' / 100 + y' / 400
    + ((153 * (if 2 <? m then m - 3 else m + 9) + 2) / 5 + d - 1) - 719468.
Proof. unfold days_of_civil, doe_of_civil. destruct (m <=? 2); dlia. Qed.

Lemma leap_days y :
  y / 4 - y / 100 + y / 400
  = (y - 1) / 4 - (y - 1) / 100 + (y - 1) / 400 + (if is_leap y then 1 else 0).
Proof.
  unfold is_leap.
  destruct (Z.eqb_spec (y mod 4) 0), (Z.eqb_spec (y mod 100) 0), (Z.eqb_spec (y mod 400) 0); simpl; dlia.
Qed.

(** Months follow each other without gap or overlap. *)
Lemma days_of_civil_next y m y' m' :
  1 ≤ m ≤ 12 → norm_month y (m + 1) = (y', m') →
  days_of_civil y' m' 1 = days_of_civil y m 1 + days_in y m.
Proof.
  intros Hm. rewrite norm_month_next by done. pose proof (leap_days y) as Hl.
  assert (m = 1 ∨ m = 2 ∨ m = 3 ∨ m = 4 ∨ m = 5 ∨ m = 6 ∨ m = 7 ∨ m = 8 ∨ m = 9 ∨ m = 10 ∨ m = 11 ∨ m = 12)
    as Hc by lia.
  repeat destruct Hc as [->|Hc]; subst; simpl; intros [= <- <-]; rewrite !days_of_civil_flat; simpl;
    unfold days_in; simpl; repeat match goal with |- context [(?a / 5)] => is_ground a; let v := eval vm_compute in (a / 5) in change (a / 5) with v end;
    try (destruct (is_leap y)); try lia.
  all: replace (y + 1 - 1) with y by lia; lia.
Qed.

(** Months counted from year 0. *)
Definition nth_month (k : Z) : Z * Z := norm_month 0 (k + 1).

Lemma nth_month_valid k y m : nth_month k = (y, m) → 1 ≤ m ≤ 12 ∧ k = 12 * y + m - 1.
Proof. unfold nth_month, norm_month. intros [= <- <-]. dlia. Qed.

Lemma nth_month_of y m : 1 ≤ m ≤ 12 → nth_month (12 * y + m - 1) = (y, m).
Proof. intros. unfold nth_month, norm_month. f_equal; dlia. Qed.

Lemma nth_month_step k y m y' m' :
  nth_month k = (y, m) → nth_month (k + 1) = (y', m') →
  days_of_civil y' m' 1 = days_of_civil y m 1 + days_in y m.
Proof.
  intros H H'. destruct (nth_month_valid _ _ _ H) as [Hm Hk].
  apply days_of_civil_next; [done|]. rewrite <-H'. unfold nth_month, norm_month. f_equal; dlia.
Qed.

Lemma nth_month_mono (n : nat) : ∀ k y m y' m',
  nth_month k = (y, m) → nth_month (k + 1 + Z.of_nat n) = (y', m') →
  days_of_civil y m 1 + days_in y m ≤ days_of_civil y' m' 1.
Proof.
  induction n as [|n IH]; intros k y m y' m' H H'.
  - replace (k + 1 + Z.of_nat 0) with (k + 1) in H' by lia. rewrite (nth_month_step _ _ _ _ _ H H'). lia.
  - destruct (nth_month (k + 1)) as [y1 m1] eqn:E. pose proof (nth_month_step _ _ _ _ _ H E).
    replace (k + 1 + Z.of_nat (S n)) with (k + 1 + 1 + Z.of_nat n) in H' by lia.
    specialize (IH _ _ _ _ _ E H'). pose proof (days_in_pos y1 m1). lia.
Qed.

(** A later month starts when the earlier one has ended. *)
Lemma months_ordered y m y' m' :
  1 ≤ m ≤ 12 → 1 ≤ m' ≤ 12 → 12 * y + m < 12 * y' + m' →
  days_of_civil y m 1 + days_in y m ≤ days_of_civil y' m' 1.
Proof.
  intros Hm Hm' Hlt. apply (nth_month_mono (Z.to_nat (12 * y' + m' - (12 * y + m) - 1)) (12 * y + m - 1)).
  - by apply nth_month_of.
  - rewrite Z2Nat.id by lia. rewrite <-(nth_month_of y' m') by done. f_equal. lia.
Qed.

(** The calendar inverts the other way: a valid date to its day number and back. *)
Lemma days_civil_inv y m d :
  1 ≤ m ≤ 12 → 1 ≤ d ≤ days_in y m → civil_of_days (days_of_civil y m d) = (y, m, d).
Proof.
  intros Hm Hd. destruct (civil_of_days _) as [[y' m'] d'] eqn:E.
  destruct (civil_days_inv _ _ _ _ E) as (He & Hm' & Hd').
  rewrite (days_of_civil_day y' m'), (days_of_civil_day y m) in He.
  assert (12 * y + m = 12 * y' + m') as Heq.
  { destruct (Z.lt_trichotomy (12 * y + m) (12 * y' + m')) as [H|[H|H]]; [|done|].
    - pose proof (months_ordered y m y' m' Hm Hm' H). lia.
    - pose proof (months_ordered y' m' y m Hm' Hm H). lia. }
  assert (y' = y ∧ m' = m) as [-> ->] by lia. repeat f_equal; lia.
Qed.

(** An instant lies in its month. *)
Lemma instant_in_month t y m d y' m' :
  civil_of_days (t / day) = (y, m, d) → norm_month y (m + 1) = (y', m') →
  month_start y m ≤ t < month_start y' m'.
Proof.
  intros H H'. destruct (civil_days_inv _ _ _ _ H) as (He & Hm & Hd).
  pose proof (days_of_civil_next _ _ _ _ Hm H') as Hn. rewrite days_of_civil_day in He.
  unfold month_start in *. unfold day, second in *. dlia.
Qed.

Lemma month_start_civil y m : 1 ≤ m ≤ 12 → civil_of_days (month_start y m / day) = (y, m, 1).
Proof.
  intros. unfold month_start. rewrite Z.div_mul by done. apply days_civil_inv; [done|].
  pose proof (days_in_pos y m). lia.
Qed.

Lemma AddMonths_start y m y' m' :
  1 ≤ m ≤ 12 → norm_month y (m + 1) = (y', m') → AddMonths (month_start y m) 1 = month_start y' m'.
Proof.
  intros Hm H. unfold AddMonths. rewrite month_start_civil, H by done.
  unfold month_start. rewrite Z.mod_mul by done. lia.
Qed.

(** Up to the 28th, adding a month lands in the next month. *)
Lemma AddMonths_early t y m d y' m' :
  civil_of_days (t / day) = (y, m, d) → d ≤ 28 → norm_month y (m + 1) = (y', m') →
  civil_of_days (AddMonths t 1 / day) = (y', m', d).
Proof.
  intros H Hd H'. unfold AddMonths. rewrite H, H'.
  destruct (civil_days_inv _ _ _ _ H) as (_ & Hm & Hd').
  rewrite Z.add_comm, Z.div_add, Z.div_small by (done || apply Z.mod_pos_bound; done).
  rewrite Z.add_0_l, <-days_of_civil_day. pose proof (days_in_pos y' m'). apply days_civil_inv; [|lia].
  unfold norm_month in H'. injection H' as <- <-. dlia.
Qed.

(** ** Round trip *)

Lemma expect_same c r : expect c (String c r) = Some r.
Proof. simpl. by rewrite Ascii.eqb_refl. Qed.

Lemma parse_frac_show n :
  0 ≤ n < second →
  parse_frac (match strip0 (digits 9 n) with [] => "Z" | ds => String "." (show ds "Z") end)
  = Some (n, "Z").
Proof.
  intros Hn. pose proof (strip0_take9 (digits 9 n) (length_digits 9 n)) as Hs.
  pose proof (strip0_range _ _ (digits_range 9 n)) as Hr.
  pose proof (of_digits_digits 9 n) as Hv. rewrite Z.mod_small in Hv by (unfold second in *; lia).
  destruct (strip0 (digits 9 n)) as [|d ds] eqn:E.
  - rewrite <-Hs in Hv. cbn in Hv. rewrite <-Hv. reflexivity.
  - assert (Hsp : span_digits (show (d :: ds) "Z") = (d :: ds, "Z")).
    { apply span_digits_show; [exact Hr|]. intros c r [= <- <-]. reflexivity. }
    unfold parse_frac. rewrite Hsp, Hs, Hv. reflexivity.
Qed.

Lemma time_of_day_split sod :
  0 ≤ sod < 86400 →
  0 ≤ sod / 3600 < 24 ∧ 0 ≤ sod / 60 mod 60 < 60 ∧ 0 ≤ sod mod 60 < 60 ∧
  sod / 3600 * 3600 + sod / 60 mod 60 * 60 + sod mod 60 = sod.
Proof.
  intros H. replace (sod / 3600) with (sod / 60 / 60) by (rewrite Z.div_div by lia; done).
  pose proof (Z.div_mod (sod / 60) 60 ltac:(lia)). pose proof (Z.div_mod sod 60 ltac:(lia)).
  pose proof (Z.mod_pos_bound (sod / 60) 60 ltac:(lia)).
  pose proof (Z.mod_pos_bound sod 60 ltac:(lia)). 
  assert (0 ≤ sod / 60 / 60) by (apply Z.div_pos; [apply Z.div_pos|]; lia).
  repeat split; lia.
Qed.

(** Reading back the text of an instant of the years 0 to 9999 gives the instant. *)
Lemma Parse_Format t y m d :
  civil_of_days (t / second / 86400) = (y, m, d) →
  0 ≤ y ≤ 9999 →
  Parse (Format t) = Some t.
Proof.
  intros Hc Hy. destruct (civil_days_inv _ _ _ _ Hc) as (Hd & Hm & Hdd).
  assert (Hdi : days_in y m ≤ 31) by (unfold days_in; repeat case_match; lia).
  pose proof (Z.mod_pos_bound t second ltac:(unfold second; lia)) as Hn.
  pose proof (Z.mod_pos_bound (t / second) 86400 ltac:(lia)) as Hsod.
  destruct (time_of_day_split _ Hsod) as (Hh & Hmi & Hs & Hsum).
  unfold Parse, Format. rewrite Hc.
  repeat (rewrite take_digits_show by lia; cbn [mbind option_bind]; rewrite ?expect_same;
          cbn [mbind option_bind]).
  rewrite parse_frac_show by done. cbn [mbind option_bind]. rewrite expect_same.
  cbn [mbind option_bind].
  replace (_ && _) with true.
  2: { symmetry. rewrite !andb_true_iff, !Z.leb_le. repeat split; try done; lia. }
  f_equal. rewrite Hd. 
  pose proof (Z.div_mod (t / second) 86400 ltac:(lia)).
  pose proof (Z.div_mod t second ltac:(unfold second; lia)).
  replace (t / second / 86400 * 86400 + _ + _ + _) with (t / second) by lia. lia.
Qed.
