(* ===== verification/GoStrings.v ===== *)
(** * Strings, numbers and regular expressions

    What the sources use of Go's [strings], [strconv] and [regexp] packages.
    Regular expressions are matched by derivatives; [re_matches_lang] relates
    the matcher to the language of the expression. *)

From Stdlib Require Import Ascii String ZArith.
From S2P Require Import Prelude GoTime.
From stdpp Require Import base list strings numbers pretty.
Local Open Scope Z_scope.

(** ** strings *)

Definition HasPrefix (s p : string) : bool := String.prefix p s.

Definition drop_str (n : nat) (s : string) : string :=
  String.substring n (String.length s - n) s.

Definition TrimPrefix (s p : string) : string :=
  if HasPrefix s p then drop_str (String.length p) s else s.

Definition HasSuffix (s p : string) : bool :=
  (String.length p <=? String.length s)%nat &&
  String.eqb (drop_str (String.length s - String.length p) s) p.

Definition TrimSuffix (s p : string) : string :=
  if HasSuffix s p then String.substring 0 (String.length s - String.length p) s else s.

Definition chars (s : string) : list ascii := list_ascii_of_string s.

Definition ContainsAny (s cs : string) : bool :=
  existsb (λ c, existsb (Ascii.eqb c) (chars cs)) (chars s).

(** [strings.Split] at one character; [cur] is the piece being read. *)
Fixpoint split_at (c : ascii) (cs cur : list ascii) : list (list ascii) :=
  match cs with
  | [] => [cur]
  | x :: r => if Ascii.eqb x c then cur :: split_at c r [] else split_at c r (cur ++ [x])
  end.

Definition is_space (c : ascii) : bool :=
  let n := nat_of_ascii c in ((9 <=? n) && (n <=? 13))%nat || (n =? 32)%nat.

Fixpoint trim_left (cs : list ascii) : list ascii :=
  match cs with c :: r => if is_space c then trim_left r else cs | [] => [] end.

(** [strings.TrimSpace], for ASCII text. *)
Definition TrimSpace (s : string) : string :=
  string_of_list_ascii (reverse (trim_left (reverse (trim_left (chars s))))).

Fixpoint Contains (s sub : string) : bool :=
  HasPrefix s sub || match s with EmptyString => false | String _ r => Contains r sub end.

(** The order of [sort.Strings]. *)
Definition string_le (x y : string) : Prop := String.leb x y = true.

#[global] Instance string_le_dec x y : Decision (string_le x y).
Proof. unfold string_le. apply _. Defined.

(** ** strconv *)

Fixpoint decimal (acc : Z) (cs : list ascii) : option Z :=
  match cs with
  | [] => Some acc
  | c :: cs' => match digit_val c with Some d => decimal (10 * acc + d) cs' | None => None end
  end.

(** [Atoi]: an optional sign, at least one digit, in the range of [int]. *)
Definition Atoi (s : string) : option Z :=
  let '(sign, body) :=
    match chars s with
    | "-"%char :: r => (-1, r)
    | "+"%char :: r => (1, r)
    | r => (1, r)
    end in
  match body with
  | [] => None
  | _ =>
      match decimal 0 body with
      | None => None
      | Some n =>
          let z := sign * n in
          if (i64_min <=? z) && (z <=? i64_max) then Some z else None
      end
  end.

(** [ParseUint(s, 10, 64)]: digits only, below 2^64. *)
Definition ParseUint (s : string) : option N :=
  match chars s with
  | [] => None
  | cs =>
      match decimal 0 cs with
      | None => None
      | Some n => if n <? Z.of_N u64_bound then Some (Z.to_N n) else None
      end
  end.

(** ** regexp *)

(** Expressions over characters, anchored at both ends as all of the sources'
    are. *)
Inductive re : Type :=
| RNone
| REmpty
| RClass (p : ascii → bool)
| RSeq (a b : re)
| RAlt (a b : re)
| RStar (a : re).

Fixpoint nullable (r : re) : bool :=
  match r with
  | RNone | RClass _ => false
  | REmpty | RStar _ => true
  | RSeq a b => nullable a && nullable b
  | RAlt a b => nullable a || nullable b
  end.

(** Constructors that drop dead branches, so that derivatives stay small. *)
Definition seq_ (a b : re) : re :=
  match a, b with
  | RNone, _ | _, RNone => RNone
  | REmpty, b => b
  | a, b => RSeq a b
  end.

Definition alt_ (a b : re) : re :=
  match a, b with
  | RNone, b => b
  | a, RNone => a
  | a, b => RAlt a b
  end.

Fixpoint deriv (c : ascii) (r : re) : re :=
  match r with
  | RNone | REmpty => RNone
  | RClass p => if p c then REmpty else RNone
  | RSeq a b =>
      if nullable a then alt_ (seq_ (deriv c a) b) (deriv c b) else seq_ (deriv c a) b
  | RAlt a b => alt_ (deriv c a) (deriv c b)
  | RStar a => seq_ (deriv c a) (RStar a)
  end.

Fixpoint re_match_list (r : re) (cs : list ascii) : bool :=
  match cs with
  | [] => nullable r
  | c :: cs' => re_match_list (deriv c r) cs'
  end.

Definition MatchString (r : re) (s : string) : bool := re_match_list r (chars s).

Definition in_range (lo hi c : ascii) : bool :=
  (nat_of_ascii lo <=? nat_of_ascii c)%nat && (nat_of_ascii c <=? nat_of_ascii hi)%nat.

Definition lit (c : ascii) : re := RClass (Ascii.eqb c).
Definition lit_str (s : string) : re := foldr (λ c r, RSeq (lit c) r) REmpty (chars s).
Definition opt (r : re) : re := RAlt r REmpty.
Definition many1 (r : re) : re := RSeq r (RStar r).

(** Exactly [n] times, and at most [n] times. *)
Fixpoint times (n : nat) (r : re) : re :=
  match n with O => REmpty | S n' => RSeq r (times n' r) end.
Fixpoint upto (n : nat) (r : re) : re :=
  match n with O => REmpty | S n' => opt (RSeq r (upto n' r)) end.

(** ** The matcher decides the language *)

Inductive lang : re → list ascii → Prop :=
| LEmpty : lang REmpty []
| LClass p c : p c = true → lang (RClass p) [c]
| LSeq a b u v : lang a u → lang b v → lang (RSeq a b) (u ++ v)
| LAltL a b u : lang a u → lang (RAlt a b) u
| LAltR a b u : lang b u → lang (RAlt a b) u
| LStarNil a : lang (RStar a) []
| LStarCons a u v : lang a u → lang (RStar a) v → lang (RStar a) (u ++ v).

Lemma lang_seq_ a b w : lang (seq_ a b) w ↔ lang (RSeq a b) w.
Proof.
  assert (Hn : ∀ b w, lang (RSeq RNone b) w → False).
  { intros b' w' Hl. inversion Hl as [| |? ? ? ? Hb ?| | | |]; subst. inversion Hb. }
  assert (Hn2 : ∀ a w, lang (RSeq a RNone) w → False).
  { intros a' w' Hl. inversion Hl as [| |? ? ? ? ? Hb| | | |]; subst. inversion Hb. }
  assert (He : ∀ b w, lang (RSeq REmpty b) w ↔ lang b w).
  { intros b' w'. split.
    - intros Hl. inversion Hl as [| |? ? ? ? Ha Hb| | | |]; subst. by inversion Ha; subst.
    - intros Hl. apply (LSeq _ _ [] w'); [constructor|done]. }
  unfold seq_. destruct a, b; try done; try (symmetry; apply He);
    split; intros Hl; try (by inversion Hl); exfalso; eauto.
Qed.

Lemma lang_alt_ a b w : lang (alt_ a b) w ↔ lang a w ∨ lang b w.
Proof.
  assert (H : lang (RAlt a b) w ↔ lang a w ∨ lang b w).
  { split; [intros Hl; inversion Hl; auto|]. intros [|]; by constructor. }
  unfold alt_. destruct a, b; try done; split; auto; intros [Hl|Hl]; try done; inversion Hl.
Qed.

Lemma lang_nullable r : lang r [] ↔ nullable r = true.
Proof.
  split.
  - intros Hl. remember [] as w eqn:Hw. induction Hl; simpl; try done.
    + apply app_eq_nil in Hw as [-> ->]. by rewrite IHHl1, IHHl2.
    + by rewrite IHHl.
    + rewrite IHHl by done. apply orb_true_r.
  - induction r as [| |p|a IHa b IHb|a IHa b IHb|a IHa]; simpl; try done.
    + constructor.
    + intros [Ha Hb]%andb_true_iff. apply (LSeq _ _ [] []); auto.
    + intros [Ha|Hb]%orb_true_iff; [apply LAltL|apply LAltR]; auto.
    + constructor.
Qed.

Lemma lang_deriv c r w : lang (deriv c r) w ↔ lang r (c :: w).
Proof.
  revert w. induction r as [| |p|a IHa b IHb|a IHa b IHb|a IHa]; intros w; simpl.
  - split; intros Hl; inversion Hl.
  - split; intros Hl; inversion Hl.
  - destruct (p c) eqn:E; split; intros Hl; inversion Hl; subst; try congruence; by constructor.
  - assert (Hs : lang (RSeq (deriv c a) b) w ↔ ∃ u v, w = u ++ v ∧ lang a (c :: u) ∧ lang b v).
    { split.
      - intros Hl. inversion Hl; subst. eexists _, _. split; [done|]. by rewrite <-IHa.
      - intros (u & v & -> & Ha%IHa & Hb). by constructor. }
    assert (Hc : lang (RSeq a b) (c :: w) ↔
      (∃ u v, w = u ++ v ∧ lang a (c :: u) ∧ lang b v) ∨ (lang a [] ∧ lang b (c :: w))).
    { split.
      - intros Hl. inversion Hl as [| |? ? u v Ha Hb He| | | |]; subst.
        destruct u as [|c' u]; simpl in *; simplify_eq; [by right|]. left. eauto.
      - intros [(u & v & -> & Ha & Hb)|[Ha Hb]].
        + by apply (LSeq _ _ (c :: u) v).
        + by apply (LSeq _ _ [] (c :: w)). }
    rewrite Hc. destruct (nullable a) eqn:En.
    + rewrite lang_alt_, lang_seq_, Hs, IHb, lang_nullable, En. naive_solver.
    + rewrite lang_seq_, Hs, lang_nullable, En. naive_solver.
  - rewrite lang_alt_, IHa, IHb. split.
    + intros [|]; by constructor.
    + intros Hl. inversion Hl; subst; auto.
  - rewrite lang_seq_. split.
    + intros Hl. inversion Hl as [| |? ? u v Ha Hb| | | |]; subst.
      apply IHa in Ha. by apply (LStarCons _ (c :: u) v).
    + intros Hl. remember (RStar a) as s eqn:Hs. remember (c :: w) as cw eqn:Hw.
      induction Hl as [| | | | | |a' u v Ha _ Hv IHv]; simplify_eq.
      destruct u as [|c' u]; simpl in *; [by apply IHv|]. simplify_eq.
      apply LSeq; [by apply IHa|done].
Qed.

Lemma re_matches_lang r s : MatchString r s = true ↔ lang r (chars s).
Proof.
  unfold MatchString. generalize (chars s) as w. intros w. revert r.
  induction w as [|c w IH]; intros r; simpl; [by rewrite lang_nullable|].
  by rewrite IH, lang_deriv.
Qed.

(** ** Scanning numbers *)

(** [Sscanf(s, "%d")]: leading blanks, a sign, at least one digit, anything after. *)
Fixpoint skip_blanks (cs : list ascii) : list ascii :=
  match cs with " "%char :: r => skip_blanks r | _ => cs end.

Fixpoint lead_digits (acc : Z) (cs : list ascii) : Z :=
  match cs with
  | [] => acc
  | c :: r => match digit_val c with Some d => lead_digits (10 * acc + d) r | None => acc end
  end.

Definition scan_int (s : string) : option Z :=
  let '(sign, body) :=
    match skip_blanks (chars s) with
    | "-"%char :: r => (-1, r)
    | "+"%char :: r => (1, r)
    | r => (1, r)
    end in
  match body with
  | c :: _ =>
      match digit_val c with
      | None => None
      | Some _ => let z := sign * lead_digits 0 body in
                  if (i64_min <=? z) && (z <=? i64_max) then Some z else None
      end
  | [] => None
  end.

(** ** Concatenation and prefixes *)

Lemma str_app_cons c a b : String c a +:+ b = String c (a +:+ b).
Proof. reflexivity. Qed.

Lemma str_app_length a b : String.length (a +:+ b) = (String.length a + String.length b)%nat.
Proof. induction a as [|c a IH]; [done|]. rewrite str_app_cons. simpl. by rewrite IH. Qed.

Lemma str_app_assoc a b c : (a +:+ b) +:+ c = a +:+ b +:+ c.
Proof. induction a as [|x a IH]; [done|]. by rewrite !str_app_cons, IH. Qed.

Lemma chars_app a b : chars (a +:+ b) = chars a ++ chars b.
Proof. induction a as [|c a IH]; [done|]. rewrite str_app_cons. simpl. by rewrite IH. Qed.

Lemma HasPrefix_app n p : HasPrefix n p = true ↔ ∃ r, n = p +:+ r.
Proof.
  revert n. induction p as [|c p IH]; intros n.
  - split; [by exists n|by destruct n].
  - destruct n as [|c' n]; [split; [done|by intros [r Hr]]|].
    unfold HasPrefix in *. cbn [String.prefix]. destruct (ascii_dec c c') as [->|Hne].
    + rewrite IH. split; intros [r Hr]; exists r; [by rewrite str_app_cons, Hr|].
      rewrite str_app_cons in Hr. by injection Hr.
    + split; [done|]. intros [r Hr]. rewrite str_app_cons in Hr. congruence.
Qed.

Lemma substring_all s : String.substring 0 (String.length s) s = s.
Proof. induction s as [|c s IH]; [done|]. simpl. by rewrite IH. Qed.

Lemma drop_str_app p r : drop_str (String.length p) (p +:+ r) = r.
Proof.
  unfold drop_str. rewrite str_app_length.
  replace (String.length p + String.length r - String.length p)%nat with (String.length r) by lia.
  induction p as [|c p IH]; [apply substring_all|]. rewrite str_app_cons. exact IH.
Qed.

(** Two prefixes of one name: one is a prefix of the other. *)
Lemma prefixes_comparable p q r s : p +:+ r = q +:+ s → HasPrefix p q = true ∨ HasPrefix q p = true.
Proof.
  revert q. induction p as [|c p IH]; intros q Heq.
  - right. apply HasPrefix_app. by exists q.
  - destruct q as [|c' q]; [left; apply HasPrefix_app; by exists (String c p)|].
    rewrite !str_app_cons in Heq. injection Heq as <- Heq.
    destruct (IH q Heq) as [Hp|Hp]; [left|right]; apply HasPrefix_app in Hp as [x Hx];
      apply HasPrefix_app; exists x; by rewrite Hx.
Qed.

Lemma TrimPrefix_cases s p : s = p +:+ TrimPrefix s p ∨ TrimPrefix s p = s.
Proof.
  unfold TrimPrefix. destruct (HasPrefix s p) eqn:E; [left|by right].
  apply HasPrefix_app in E as [r ->]. by rewrite drop_str_app.
Qed.

(** ** Numbers as text *)

Lemma decimal_pretty_go x s : decimal 0 (chars (pretty_N_go x s)) = decimal (Z.of_N x) (chars s).
Proof.
  revert s. induction (N.lt_wf_0 x) as [x _ IH]. intros s.
  destruct (decide (x = 0)%N) as [->|Hx]; [by rewrite pretty_N_go_0|].
  rewrite pretty_N_go_step by lia. rewrite IH by (apply N.div_lt; lia).
  change (chars (String ?c s)) with (c :: chars s). cbn [decimal].
  assert (Hd : (x `mod` 10 < 10)%N) by (apply N.mod_lt; lia).
  assert (digit_val (pretty_N_char (x `mod` 10)) = Some (Z.of_N (x `mod` 10))) as ->.
  { set (d := (x `mod` 10)%N) in *. clearbody d. clear - Hd.
    assert (d ∈ [0;1;2;3;4;5;6;7;8;9]%N) as Hin by (rewrite !elem_of_cons; lia).
    repeat (apply elem_of_cons in Hin as [->|Hin]; [reflexivity|]). by apply elem_of_nil in Hin. }
  f_equal. rewrite N2Z.inj_div, N2Z.inj_mod. pose proof (Z.div_mod (Z.of_N x) (Z.of_N 10)). lia.
Qed.

Lemma decimal_pretty (n : N) : decimal 0 (chars (pretty n)) = Some (Z.of_N n).
Proof. unfold pretty, pretty_N. case_decide; [by subst|]. by rewrite decimal_pretty_go. Qed.

Lemma pretty_ne (n : N) : chars (pretty n) ≠ [].
Proof.
  unfold pretty, pretty_N. case_decide; [done|]. intros E.
  pose proof (decimal_pretty_go n "") as Hd. rewrite E in Hd. simpl in Hd. injection Hd. lia.
Qed.

Lemma ParseUint_pretty (n : N) : (n < u64_bound)%N → ParseUint (pretty n) = Some n.
Proof.
  intros Hn. unfold ParseUint. pose proof (pretty_ne n). destruct (chars (pretty n)) as [|c cs] eqn:E; [done|].
  rewrite <-E, decimal_pretty.
  destruct (Z.ltb_spec (Z.of_N n) (Z.of_N u64_bound)); [by rewrite N2Z.id|lia].
Qed.

(** ** Suffixes and pieces *)

Lemma length_append (a b : string) : String.length (a +:+ b) = (String.length a + String.length b)%nat.
Proof. induction a as [|c a IH]; [done|]. simpl. by rewrite IH. Qed.

Lemma drop_tail (s p q : string) : String.length p = String.length q →
  drop_str (String.length (s +:+ p) - String.length q) (s +:+ p) = p.
Proof.
  intros Hl. rewrite length_append, Hl. replace (String.length s + String.length q - String.length q)%nat with (String.length s) by lia.
  apply drop_str_app.
Qed.

Lemma substring_0_app (s p : string) : String.substring 0 (String.length s) (s +:+ p) = s.
Proof. induction s as [|c s IH]; [by destruct p|]. simpl. by rewrite IH. Qed.

Lemma TrimSuffix_app s p : TrimSuffix (s +:+ p) p = s.
Proof.
  unfold TrimSuffix, HasSuffix. rewrite drop_tail, String.eqb_refl by done.
  rewrite (proj2 (Nat.leb_le _ _)) by (rewrite length_append; lia). cbn [andb].
  rewrite length_append. replace (String.length s + String.length p - String.length p)%nat with (String.length s) by lia.
  apply substring_0_app.
Qed.

Lemma TrimSuffix_other s p q : String.length p = String.length q → p ≠ q → TrimSuffix (s +:+ p) q = s +:+ p.
Proof.
  intros Hl Hne. unfold TrimSuffix, HasSuffix. rewrite drop_tail by done.
  rewrite (proj2 (String.eqb_neq _ _) Hne). by rewrite andb_false_r.
Qed.

Lemma split_at_none c a cur : c ∉ a → split_at c a cur = [cur ++ a].
Proof.
  revert cur. induction a as [|x a IH]; intros cur Hn; simpl; [by rewrite app_nil_r|].
  apply not_elem_of_cons in Hn as [Hx Hn]. destruct (Ascii.eqb_spec x c) as [->|]; [done|].
  by rewrite IH, <-app_assoc.
Qed.

Lemma split_at_first c a r cur : c ∉ a → split_at c (a ++ c :: r) cur = (cur ++ a) :: split_at c r [].
Proof.
  revert cur. induction a as [|x a IH]; intros cur Hn; simpl; [by rewrite Ascii.eqb_refl, app_nil_r|].
  apply not_elem_of_cons in Hn as [Hx Hn]. destruct (Ascii.eqb_spec x c) as [->|]; [done|].
  by rewrite IH, <-app_assoc.
Qed.

Lemma string_of_chars s : string_of_list_ascii (chars s) = s.
Proof. apply string_of_list_ascii_of_string. Qed.
