(* ===== verification/Flags.v ===== *)
(** * The flag package

    What the programs use of Go's [flag]: a set of named flags over a configuration,
    each of them text, a number, a boolean or a function, and the reading of an
    argument list.  [parse_flags] is [FlagSet.Parse]: it stops at the first argument
    that is not a flag and at the first error, and keeps what was set before.  The
    lemmas say what a list of well-spelled settings does, in whatever spelling. *)

From Stdlib Require Import Ascii String ZArith.
From S2P Require Import Prelude GoTime GoStrings.
From stdpp Require Import base list strings numbers gmap.
Local Open Scope Z_scope.

(** ** Flags *)

(** [fd_set] is the [Set] of the flag's value: the configuration it leaves and
    whether the text was accepted. *)
Record flag_def (C : Type) : Type := mkFlag {
  fd_name : string;
  fd_bool : bool;
  fd_set : string → C → C * bool
}.
Arguments mkFlag {C}.
Arguments fd_name {C}.
Arguments fd_bool {C}.
Arguments fd_set {C}.

Section Values.
Context {C : Type}.
(** Integers with a base prefix, a leading zero or underscores: the value that is
    stored, and whether the text is accepted. *)
Context (other_int : string → Z * bool).

(** [strconv.ParseInt(s, 0, 64)] as [flag] uses it: the value is stored even when it
    is an error. *)
Definition int_value (s : string) : Z * bool :=
  let '(sign, body) :=
    match chars s with
    | "-"%char :: r => (-1, r)
    | "+"%char :: r => (1, r)
    | r => (1, r)
    end in
  match body, decimal 0 body with
  | [], _ => (0, false)
  | ["0"%char], _ => (0, true)
  | "0"%char :: _, _ => other_int s
  | _, Some n =>
      let z := sign * n in
      if z <? i64_min then (i64_min, false) else if i64_max <? z then (i64_max, false) else (z, true)
  | _, None => if existsb (Ascii.eqb "_") body then other_int s else (0, false)
  end.

(** [strconv.ParseBool]. *)
Definition ParseBool (s : string) : option bool :=
  if existsb (String.eqb s) ["1"; "t"; "T"; "true"; "TRUE"; "True"]%string then Some true
  else if existsb (String.eqb s) ["0"; "f"; "F"; "false"; "FALSE"; "False"]%string then Some false
  else None.

Definition StringVar (name : string) (set : string → C → C) : flag_def C :=
  mkFlag name false (λ v c, (set v c, true)).

Definition IntVar (name : string) (set : Z → C → C) : flag_def C :=
  mkFlag name false (λ v c, let '(n, ok) := int_value v in (set n c, ok)).

(** A boolean that does not parse is stored as false. *)
Definition BoolVar (name : string) (set : bool → C → C) : flag_def C :=
  mkFlag name true (λ v c, match ParseBool v with Some b => (set b c, true) | None => (set false c, false) end).

Definition Func (name : string) (f : string → C → option C) : flag_def C :=
  mkFlag name false (λ v c, match f v c with Some c' => (c', true) | None => (c, false) end).
End Values.

(** ** Reading arguments *)

(** One argument, as [FlagSet.parseOne] takes it apart. *)
Inductive flag_arg : Type :=
| NoFlag
| BadFlag
| FlagArg (name : string) (value : option string).

Fixpoint cut_value (cs : list ascii) : list ascii * option (list ascii) :=
  match cs with
  | [] => ([], None)
  | c :: r => if Ascii.eqb c "=" then ([], Some r) else let '(a, b) := cut_value r in (c :: a, b)
  end.

Definition named_flag (cs : list ascii) : flag_arg :=
  match cs with
  | [] | "-"%char :: _ | "="%char :: _ => BadFlag
  | _ => let '(n, v) := cut_value cs in FlagArg (string_of_list_ascii n) (string_of_list_ascii <$> v)
  end.

Definition read_arg (s : string) : flag_arg :=
  match chars s with
  | ["-"%char] => NoFlag
  | ["-"%char; "-"%char] => NoFlag
  | "-"%char :: "-"%char :: r => named_flag r
  | "-"%char :: r => named_flag r
  | _ => NoFlag
  end.

Inductive flag_outcome : Type := FlagsDone | FlagsHelp | FlagsFailed.

Section Parse.
Context {C : Type}.
Implicit Types (fs : list (flag_def C)) (c : C).

Fixpoint lookup_flag fs (name : string) : option (flag_def C) :=
  match fs with
  | [] => None
  | f :: fs' => if String.eqb (fd_name f) name then Some f else lookup_flag fs' name
  end.

(** A name that is not defined. *)
Definition undefined_flag (name : string) : flag_outcome :=
  if String.eqb name "help" || String.eqb name "h" then FlagsHelp else FlagsFailed.

Fixpoint parse_flags fs (args : list string) c : C * flag_outcome :=
  match args with
  | [] => (c, FlagsDone)
  | s :: rest =>
      match read_arg s with
      | NoFlag => (c, FlagsDone)
      | BadFlag => (c, FlagsFailed)
      | FlagArg name value =>
          match lookup_flag fs name with
          | None => (c, undefined_flag name)
          | Some f =>
              match value with
              | Some v => let '(c', ok) := fd_set f v c in if ok then parse_flags fs rest c' else (c', FlagsFailed)
              | None =>
                  if fd_bool f then
                    let '(c', ok) := fd_set f "true" c in if ok then parse_flags fs rest c' else (c', FlagsFailed)
                  else match rest with
                  | [] => (c, FlagsFailed)
                  | v :: rest' =>
                      let '(c', ok) := fd_set f v c in if ok then parse_flags fs rest' c' else (c', FlagsFailed)
                  end
              end
          end
      end
  end.

(** ** Spellings *)

(** A name that can be spelled: not empty, without a leading dash and without an
    equals sign. *)
Definition flag_name (n : string) : Prop :=
  ∃ ch r, chars n = ch :: r ∧ ch ≠ "-"%char ∧ "="%char ∉ chars n.

(** A setting, joined to its flag or as an argument of its own. *)
Definition spelled (s : bool * string * string) : list string :=
  let '(joined, n, v) := s in
  if joined then [("-" +:+ n) +:+ "=" +:+ v] else ["-" +:+ n; v].

Lemma cut_value_name n v : "="%char ∉ n → cut_value (n ++ "="%char :: v) = (n, Some v).
Proof.
  induction n as [|ch n IH]; intros Hn; [done|]. cbn. apply not_elem_of_cons in Hn as [Hc Hn].
  destruct (Ascii.eqb_spec ch "="); [congruence|]. by rewrite IH.
Qed.

Lemma cut_value_none n : "="%char ∉ n → cut_value n = (n, None).
Proof.
  induction n as [|ch n IH]; intros Hn; [done|]. cbn. apply not_elem_of_cons in Hn as [Hc Hn].
  destruct (Ascii.eqb_spec ch "="); [congruence|]. by rewrite IH.
Qed.

Lemma named_flag_plain cs ch r n v :
  cs = ch :: r → ch ≠ "-"%char → ch ≠ "="%char → cut_value cs = (n, v) →
  named_flag cs = FlagArg (string_of_list_ascii n) (string_of_list_ascii <$> v).
Proof.
  intros -> H1 H2 Hc. unfold named_flag. rewrite Hc.
  destruct ch as [[] [] [] [] [] [] [] []]; try done; by congruence.
Qed.

Lemma read_dash cs ch r s : cs = ch :: r → ch ≠ "-"%char → chars s = "-"%char :: cs → read_arg s = named_flag cs.
Proof.
  intros -> Hc Hs. unfold read_arg. rewrite Hs.
  destruct ch as [[] [] [] [] [] [] [] []]; try done; by congruence.
Qed.

Lemma read_joined n v : flag_name n → read_arg (("-" +:+ n) +:+ "=" +:+ v) = FlagArg n (Some v).
Proof.
  intros (ch & r & Hn & Hc & He).
  assert (ch ≠ "="%char) by (intros ->; apply He; rewrite Hn; left).
  rewrite (read_dash (chars n ++ "="%char :: chars v) ch (r ++ "="%char :: chars v)); [|by rewrite Hn|done|].
  - rewrite (named_flag_plain _ ch (r ++ "="%char :: chars v) (chars n) (Some (chars v)));
      [|by rewrite Hn|done..|by apply cut_value_name].
    cbn. by rewrite !string_of_chars.
  - by rewrite !chars_app.
Qed.

Lemma read_alone n : flag_name n → read_arg ("-" +:+ n) = FlagArg n None.
Proof.
  intros (ch & r & Hn & Hc & He).
  assert (ch ≠ "="%char) by (intros ->; apply He; rewrite Hn; left).
  rewrite (read_dash (chars n) ch r) by (done || by rewrite chars_app).
  rewrite (named_flag_plain _ ch r (chars n) None) by (done || by apply cut_value_none).
  cbn. by rewrite string_of_chars.
Qed.

(** A setting that [fs] takes: the flag exists, is spelled as its kind allows, and
    accepts the value whatever the configuration. *)
Definition accepted fs (s : bool * string * string) : Prop :=
  let '(joined, n, v) := s in
  flag_name n ∧ ∃ f, lookup_flag fs n = Some f ∧ (joined = true ∨ fd_bool f = false) ∧ ∀ c, snd (fd_set f v c) = true.

Definition set_one fs c (s : bool * string * string) : C :=
  let '(_, n, v) := s in match lookup_flag fs n with Some f => fst (fd_set f v c) | None => c end.

Definition apply_settings fs (ss : list (bool * string * string)) c : C := foldl (set_one fs) c ss.

Lemma parse_one fs s rest c :
  accepted fs s → parse_flags fs (spelled s ++ rest) c = parse_flags fs rest (set_one fs c s).
Proof.
  destruct s as [[j n] v]. intros (Hn & f & Hf & Hj & Hok). specialize (Hok c). unfold set_one. rewrite Hf.
  destruct j; cbn [spelled app parse_flags].
  - rewrite read_joined, Hf by done. destruct (fd_set f v c); cbn in *. by rewrite Hok.
  - destruct Hj as [|Hj]; [done|]. rewrite read_alone, Hf, Hj by done.
    destruct (fd_set f v c); cbn in *. by rewrite Hok.
Qed.

Lemma parse_settings fs ss rest c :
  Forall (accepted fs) ss → parse_flags fs ((ss ≫= spelled) ++ rest) c = parse_flags fs rest (apply_settings fs ss c).
Proof.
  revert c. induction ss as [|s ss IH]; intros c Hs; [done|]. apply Forall_cons_1 in Hs as [H1 Hs].
  change ((s :: ss) ≫= spelled) with (spelled s ++ (ss ≫= spelled)).
  rewrite <- app_assoc, parse_one by done. by apply IH.
Qed.

Lemma parse_all fs ss c :
  Forall (accepted fs) ss → parse_flags fs (ss ≫= spelled) c = (apply_settings fs ss c, FlagsDone).
Proof. intros Hs. pose proof (parse_settings fs ss [] c Hs) as H. by rewrite app_nil_r in H. Qed.

Lemma parse_undefined fs n v rest c :
  flag_name n → lookup_flag fs n = None →
  parse_flags fs (spelled (true, n, v) ++ rest) c = (c, undefined_flag n).
Proof. intros Hn Hl. cbn [spelled app parse_flags]. by rewrite read_joined, Hl. Qed.

(** The value of the last setting of a name. *)
Definition last_of (n : string) (ss : list (bool * string * string)) : option string :=
  last (snd <$> filter (λ s, s.1.2 = n) ss).

(** A field that only the flag [n] touches, and which it sets to a reading of its
    text, ends as the last setting of [n] says. *)
Lemma settings_field {A} fs (get : C → A) (read : string → A) n ss c :
  (∀ s c, get (set_one fs c s) = if String.eqb s.1.2 n then read s.2 else get c) →
  get (apply_settings fs ss c) = match last_of n ss with Some v => read v | None => get c end.
Proof.
  intros Hf. induction ss as [|s ss IH] using rev_ind; [done|].
  unfold apply_settings, last_of in *. rewrite foldl_app, filter_app, fmap_app. cbn [foldl]. rewrite Hf.
  rewrite filter_cons, filter_nil. destruct (String.eqb_spec s.1.2 n).
  - rewrite decide_True by done. cbn. by rewrite last_snoc.
  - rewrite decide_False by done. cbn. by rewrite app_nil_r.
Qed.

Lemma lookup_flag_Some fs name f : lookup_flag fs name = Some f → f ∈ fs ∧ fd_name f = name.
Proof.
  induction fs as [|g fs IH]; cbn; [done|]. destruct (String.eqb_spec (fd_name g) name); [intros [= ->]; split; [left|done]|].
  intros [? ?]%IH. split; [by right|done].
Qed.

Lemma lookup_flag_None fs name : lookup_flag fs name = None → name ∉ fd_name <$> fs.
Proof.
  induction fs as [|g fs IH]; cbn; [intros _; apply not_elem_of_nil|].
  destruct (String.eqb_spec (fd_name g) name); [done|]. intros ?%IH. apply not_elem_of_cons. by split.
Qed.

(** The condition of [settings_field], flag by flag. *)
Lemma field_of_flag {A} fs (get : C → A) (read : string → A) n :
  Forall (λ f, ∀ v c, get (fst (fd_set f v c)) = if String.eqb (fd_name f) n then read v else get c) fs →
  existsb (String.eqb n) (fd_name <$> fs) = true →
  ∀ s c, get (set_one fs c s) = if String.eqb s.1.2 n then read s.2 else get c.
Proof.
  intros Hf [m [Hm ->%String.eqb_eq]]%existsb_exists [[j k] v] c. apply list_elem_of_In in Hm. cbn.
  destruct (lookup_flag fs k) as [f|] eqn:E.
  - apply lookup_flag_Some in E as [E <-]. by rewrite (proj1 (Forall_forall _ _) Hf f E).
  - apply lookup_flag_None in E. destruct (String.eqb_spec k m); [by subst|done].
Qed.
End Parse.

(** A concrete name is spellable. *)
Lemma flag_name_ok n ch r : chars n = ch :: r → ch ≠ "-"%char → bool_decide ("="%char ∉ chars n) = true → flag_name n.
Proof. intros H1 H2 H3%bool_decide_eq_true_1. by exists ch, r. Qed.

(** One flag leaves a field alone, or sets it. *)
Ltac flag_one :=
  let v := fresh "v" in let c := fresh "conf" in
  intros v c; cbn [StringVar IntVar BoolVar Func fd_set fd_name fst snd];
  lazymatch goal with
  | |- context [int_value ?o v] => destruct (int_value o v)
  | |- context [match ParseBool v with _ => _ end] => destruct (ParseBool v)
  | |- context [match ?x with Some _ => _ | None => _ end] => let E := fresh in destruct x eqn:E; [apply bind_Some in E as (? & ? & E); repeat case_match; simplify_eq|]
  | |- _ => idtac
  end; reflexivity.

(** Splits a field lemma over a concrete set of flags. *)
Ltac flag_cases :=
  apply field_of_flag; cbn [app]; [repeat (apply Forall_cons; split; [flag_one|]); apply Forall_nil_2|by vm_compute].
