(* ===== verification/Bolt.v ===== *)
(** * The key/value database under the event store

    The controller's event log lives in a bbolt file (go.etcd.io/bbolt), which
    is not part of the repository.  [Bolt] is the interface the controller uses
    of it, [BoltLaws] what its documentation promises: a read transaction sees
    the committed state, an update transaction commits everything or nothing
    and may fail for its own reasons, a bucket is a map from byte strings to
    values iterated in byte order.  [MemBolt] is an in-memory database with a
    schedule of failures that satisfies the laws; it shows the interface can be
    implemented and runs the examples. *)

From Stdlib Require Import String.
From S2P Require Import Prelude Json.
From stdpp Require Import base list strings numbers sorting gmap.

(** ** Byte strings *)

Definition bytes : Type := list N.

(** A stored value: plain bytes, or bytes that are the text of a JSON document. *)
Inductive blob : Type :=
| BBytes (b : bytes)
| BDoc (j : json).

(** [bytes.Compare]. *)
Fixpoint bytes_cmp (a b : bytes) : comparison :=
  match a, b with
  | [], [] => Eq
  | [], _ :: _ => Lt
  | _ :: _, [] => Gt
  | x :: a', y :: b' =>
      match N.compare x y with Eq => bytes_cmp a' b' | c => c end
  end.

Definition bytes_lt (a b : bytes) : Prop := bytes_cmp a b = Lt.

(** The errors of the store; [EBolt] is any error of the database itself. *)
Inductive StoreErr : Type :=
| EBolt
| EMalformedKey
| ESeqNotNext
| EMarshal
| EUnmarshal
| EPanic.

(** ** The interface *)

Class Bolt (DB TX : Type) : Type := {
  bolt_view : DB → option TX;
  bolt_update : DB → (TX → res StoreErr TX) → option StoreErr * DB;
  tx_has : TX → string → bool;
  tx_create : TX → string → res StoreErr TX;
  tx_get : TX → string → bytes → option blob;
  tx_put : TX → string → bytes → blob → res StoreErr TX;
  tx_foreach : TX → string → list (bytes * blob);
  tx_names : TX → list string
}.

Class BoltLaws (DB TX : Type) `{Bolt DB TX} : Type := {
  (** the committed state, and whether the file can currently be used *)
  db_state : DB → TX;
  db_up : DB → Prop;
  (** bbolt bounds names and keys by 32768 bytes and values by about 2 GiB *)
  val_fits : blob → Prop;
  fits_bytes b : (N.of_nat (List.length b) ≤ 32768)%N → val_fits (BBytes b);
  view_state db tx : bolt_view db = Some tx → tx = db_state db;
  view_up db : db_up db → bolt_view db = Some (db_state db);
  update_commit db f db' :
    bolt_update db f = (None, db') → f (db_state db) = Ok (db_state db');
  update_rollback db f e db' :
    bolt_update db f = (Some e, db') → db_state db' = db_state db;
  update_up db f tx' :
    db_up db → f (db_state db) = Ok tx' → ∃ db', bolt_update db f = (None, db');
  create_up tx b :
    b ≠ ""%string → (N.of_nat (String.length b) ≤ 32768)%N → ∃ tx', tx_create tx b = Ok tx';
  create_spec tx b tx' :
    tx_create tx b = Ok tx' →
    (∀ b', tx_has tx' b' = bool_decide (b' = b) || tx_has tx b') ∧
    (∀ b', tx_foreach tx' b' = tx_foreach tx b');
  put_up tx b k v :
    tx_has tx b = true → k ≠ [] → (N.of_nat (List.length k) ≤ 32768)%N → val_fits v →
    ∃ tx', tx_put tx b k v = Ok tx';
  put_spec tx b k v tx' :
    tx_put tx b k v = Ok tx' →
    (∀ b', tx_has tx' b' = tx_has tx b') ∧
    (∀ b', b' ≠ b → tx_foreach tx' b' = tx_foreach tx b') ∧
    (∀ k' v', (k', v') ∈ tx_foreach tx' b ↔
       (k' = k ∧ v' = v) ∨ (k' ≠ k ∧ (k', v') ∈ tx_foreach tx b));
  get_spec tx b k v : tx_get tx b k = Some v ↔ (k, v) ∈ tx_foreach tx b;
  foreach_sorted tx b :
    StronglySorted (λ p q : bytes * blob, bytes_lt p.1 q.1) (tx_foreach tx b);
  foreach_none tx b : tx_has tx b = false → tx_foreach tx b = [];
  names_spec tx b : b ∈ tx_names tx ↔ tx_has tx b = true
}.

(** ** An in-memory instance *)

Notation MemTX := (gmap string (gmap bytes blob)).

(** [mem_faults] holds one entry per coming update: [true] makes it fail. *)
Record MemDB : Type := mkMemDB {
  mem_state : MemTX;
  mem_faults : list bool;
  mem_down : bool
}.

Fixpoint kv_put (k : bytes) (v : blob) (l : list (bytes * blob)) : list (bytes * blob) :=
  match l with
  | [] => [(k, v)]
  | (k', v') :: l' =>
      match bytes_cmp k k' with
      | Lt => (k, v) :: l
      | Eq => (k, v) :: l'
      | Gt => (k', v') :: kv_put k v l'
      end
  end.

(** The entries of a bucket in byte order. *)
Definition kv_sort (l : list (bytes * blob)) : list (bytes * blob) :=
  foldr (λ p acc, kv_put p.1 p.2 acc) [] l.

Definition mem_update (db : MemDB) (f : MemTX → res StoreErr MemTX)
    : option StoreErr * MemDB :=
  if mem_down db || default false (head (mem_faults db))
  then (Some EBolt, mkMemDB (mem_state db) (tail (mem_faults db)) (mem_down db))
  else match f (mem_state db) with
       | Ok tx => (None, mkMemDB tx (tail (mem_faults db)) (mem_down db))
       | Err e => (Some e, mkMemDB (mem_state db) (tail (mem_faults db)) (mem_down db))
       end.

#[global] Instance MemBolt : Bolt MemDB MemTX := {
  bolt_view db := if mem_down db then None else Some (mem_state db);
  bolt_update := mem_update;
  tx_has tx b := bool_decide (is_Some (tx !! b));
  tx_create tx b :=
    if bool_decide (b = ""%string) then Err EBolt
    else Ok (match tx !! b with Some _ => tx | None => <[b := ∅]> tx end);
  tx_get tx b k := match tx !! b with Some m => m !! k | None => None end;
  tx_put tx b k v :=
    match tx !! b, k with
    | Some m, _ :: _ => Ok (<[b := <[k := v]> m]> tx)
    | _, _ => Err EBolt
    end;
  tx_foreach tx b :=
    match tx !! b with Some m => kv_sort (map_to_list m) | None => [] end;
  tx_names tx := (map_to_list tx).*1
}.

Definition mem_empty : MemDB := mkMemDB ∅ [] false.

(** ** Byte order *)

Lemma bytes_cmp_eq a b : bytes_cmp a b = Eq ↔ a = b.
Proof.
  revert b. induction a as [|x a IH]; intros [|y b]; simpl; try done.
  destruct (N.compare_spec x y) as [->|?|?].
  - rewrite IH. split; congruence.
  - split; [done|]. intros [= -> ->]. lia.
  - split; [done|]. intros [= -> ->]. lia.
Qed.

Lemma bytes_cmp_antisym a b : bytes_cmp b a = CompOpp (bytes_cmp a b).
Proof.
  revert b. induction a as [|x a IH]; intros [|y b]; simpl; try done.
  rewrite (N.compare_antisym x y). by destruct (N.compare x y); simpl.
Qed.

Lemma bytes_cmp_gt a b : bytes_cmp a b = Gt ↔ bytes_lt b a.
Proof. unfold bytes_lt. rewrite (bytes_cmp_antisym a b). by destruct (bytes_cmp a b). Qed.

#[global] Instance bytes_lt_trans : Transitive bytes_lt.
Proof.
  unfold bytes_lt. intros a. induction a as [|x a IH]; intros [|y b] [|z c]; simpl; try done.
  destruct (N.compare_spec x y), (N.compare_spec y z), (N.compare_spec x z); subst;
    try done; try lia. apply IH.
Qed.

Lemma bytes_lt_irrefl a : ¬ bytes_lt a a.
Proof. unfold bytes_lt. by rewrite (proj2 (bytes_cmp_eq a a) eq_refl). Qed.

(** A strictly sorted list of pairs is determined by its elements. *)
Lemma kv_sorted_unique (l1 l2 : list (bytes * blob)) :
  StronglySorted (λ p q, bytes_lt p.1 q.1) l1 →
  StronglySorted (λ p q, bytes_lt p.1 q.1) l2 →
  (∀ k v, (k, v) ∈ l1 ↔ (k, v) ∈ l2) → l1 = l2.
Proof.
  intros H1. revert l2. induction H1 as [|[k v] l1 Hs IH Hf]; intros l2 H2 Heq.
  { destruct l2 as [|[k v] l2]; [done|]. exfalso.
    apply (not_elem_of_nil (k, v)), Heq. left. }
  destruct H2 as [|[k' v'] l2 Hs2 Hf2].
  { exfalso. apply (not_elem_of_nil (k, v)), Heq. left. }
  rewrite Forall_forall in Hf, Hf2.
  assert (Hkv : (k, v) = (k', v')).
  { destruct (proj1 (elem_of_cons l2 (k, v) (k', v'))) as [->|Hin]; [by apply Heq; left|done|].
    destruct (proj1 (elem_of_cons l1 (k', v') (k, v))) as [E|Hin']; [by apply Heq; left|done|].
    specialize (Hf _ Hin'). specialize (Hf2 _ Hin). simpl in *.
    destruct (bytes_lt_irrefl k). by transitivity k'. }
  simplify_eq. f_equal. apply IH; [done|]. intros k v. specialize (Heq k v).
  rewrite !elem_of_cons in Heq. split; intros Hin.
  - destruct (proj1 Heq (or_intror Hin)) as [E|]; [|done]. simplify_eq.
    by destruct (bytes_lt_irrefl k'); apply (Hf (k', v')).
  - destruct (proj2 Heq (or_intror Hin)) as [E|]; [|done]. simplify_eq.
    by destruct (bytes_lt_irrefl k'); apply (Hf2 (k', v')).
Qed.

Lemma kv_sorted_snoc l (k : bytes) (v : blob) :
  StronglySorted (λ p q : bytes * blob, bytes_lt p.1 q.1) l →
  (∀ p, p ∈ l → bytes_lt p.1 k) →
  StronglySorted (λ p q, bytes_lt p.1 q.1) (l ++ [(k, v)]).
Proof.
  induction 1 as [|p l Hs IH Hf]; intros Hk; simpl.
  { repeat constructor. }
  constructor.
  - apply IH. intros q Hq. apply Hk. by right.
  - apply Forall_app_2; [done|]. repeat constructor. apply Hk. left.
Qed.

(** ** The in-memory instance satisfies the laws *)

Lemma kv_put_elem k v l k' v' :
  StronglySorted (λ p q : bytes * blob, bytes_lt p.1 q.1) l →
  (k', v') ∈ kv_put k v l ↔ (k' = k ∧ v' = v) ∨ (k' ≠ k ∧ (k', v') ∈ l).
Proof.
  induction 1 as [|[k1 v1] l Hs IH Hf]; simpl.
  { rewrite list_elem_of_singleton. set_solver. }
  rewrite Forall_forall in Hf.
  destruct (bytes_cmp k k1) eqn:E.
  - apply bytes_cmp_eq in E as ->. rewrite !elem_of_cons.
    assert (∀ v, (k1, v) ∉ l).
    { intros v2 Hin. destruct (bytes_lt_irrefl k1). by apply (Hf (k1, v2)). }
    set_solver.
  - rewrite !elem_of_cons. assert (∀ v, (k, v) ∉ (k1, v1) :: l).
    { intros v2 Hin. apply elem_of_cons in Hin as [?|Hin]; simplify_eq.
      - by apply (bytes_lt_irrefl k1).
      - apply (bytes_lt_irrefl k). transitivity k1; [done|]. by apply (Hf (k, v2)). }
    set_solver.
  - rewrite !elem_of_cons, IH. apply bytes_cmp_gt in E.
    assert (k ≠ k1) by (intros ->; by apply (bytes_lt_irrefl k1)). set_solver.
Qed.

Lemma kv_put_sorted k v l :
  StronglySorted (λ p q : bytes * blob, bytes_lt p.1 q.1) l →
  StronglySorted (λ p q : bytes * blob, bytes_lt p.1 q.1) (kv_put k v l).
Proof.
  induction 1 as [|[k1 v1] l Hs IH Hf]; simpl; [repeat constructor|].
  destruct (bytes_cmp k k1) eqn:E.
  - apply bytes_cmp_eq in E as ->. by constructor.
  - constructor; [by constructor|]. constructor; [done|].
    rewrite Forall_forall in Hf |- *. intros p Hp. simpl.
    transitivity k1; [done|]. by apply (Hf p).
  - apply bytes_cmp_gt in E. constructor; [done|]. rewrite Forall_forall in Hf |- *.
    intros [k2 v2] Hp. apply kv_put_elem in Hp as [[-> ->]|[_ Hp]]; [done| |done].
    by apply (Hf _ Hp).
Qed.

Lemma kv_sort_spec l :
  NoDup l.*1 →
  StronglySorted (λ p q : bytes * blob, bytes_lt p.1 q.1) (kv_sort l) ∧
  ∀ k v, (k, v) ∈ kv_sort l ↔ (k, v) ∈ l.
Proof.
  induction l as [|[k v] l IH]; simpl; [split; [constructor|done]|].
  intros [Hk Hnd]%NoDup_cons. destruct (IH Hnd) as [Hs He].
  split; [by apply kv_put_sorted|]. intros k' v'.
  rewrite kv_put_elem, He, elem_of_cons by done. split; [|intros [?|Hin]].
  - intros [[-> ->]|[_ ?]]; [by left|by right].
  - simplify_eq. by left.
  - right. split; [|done]. intros ->. apply Hk. apply list_elem_of_fmap.
    by exists (k, v').
Qed.

Lemma mem_foreach_elem (m : gmap bytes blob) k v :
  (k, v) ∈ kv_sort (map_to_list m) ↔ m !! k = Some v.
Proof.
  destruct (kv_sort_spec (map_to_list m)) as [_ ->]; [apply NoDup_fst_map_to_list|].
  apply elem_of_map_to_list.
Qed.

#[global] Instance MemBoltLaws : BoltLaws MemDB MemTX.
Proof.
  refine {| db_state := mem_state; val_fits _ := True;
            db_up db := mem_down db = false ∧ default false (head (mem_faults db)) = false |};
    unfold bolt_view, bolt_update, tx_has, tx_create, tx_get, tx_put, tx_foreach, tx_names,
      MemBolt.
  - done.
  - intros db tx. destruct (mem_down db); congruence.
  - intros db [-> _]. done.
  - intros db f db'. unfold mem_update. destruct (_ || _); [done|].
    destruct (f _); [|done]. by intros [= <-].
  - intros db f e db'. unfold mem_update. destruct (_ || _); [by intros [= _ <-]|].
    destruct (f _); [done|]. by intros [= _ <-].
  - intros db f tx' [Hd Hf] Ef. unfold mem_update. rewrite Hd, Hf, Ef. simpl. eauto.
  - intros tx b Hb _. rewrite bool_decide_false by done. eauto.
  - intros tx b tx'. case_bool_decide as Hb; [done|]. intros [= <-].
    destruct (tx !! b) as [m|] eqn:E; split; intros b'.
    + destruct (decide (b' = b)) as [->|]; [|by rewrite (bool_decide_false (b' = b))].
      by rewrite E, !bool_decide_true by eauto.
    + done.
    + destruct (decide (b' = b)) as [->|].
      * by rewrite lookup_insert_eq, !bool_decide_true by eauto.
      * by rewrite lookup_insert_ne, (bool_decide_false (b' = b)) by done.
    + destruct (decide (b' = b)) as [->|]; [|by rewrite lookup_insert_ne by done].
      by rewrite lookup_insert_eq, E.
  - intros tx b k v Hh Hk _ _. apply bool_decide_eq_true_1 in Hh as [m ->].
    destruct k; [done|]. eauto.
  - intros tx b k v tx'. destruct (tx !! b) as [m|] eqn:E; [|done].
    destruct k as [|x k]; [done|]. intros [= <-]. split_and!.
    + intros b'. apply bool_decide_ext. destruct (decide (b' = b)) as [->|].
      * rewrite lookup_insert_eq, E. split; eauto.
      * by rewrite lookup_insert_ne by done.
    + intros b' Hb. by rewrite lookup_insert_ne by done.
    + intros k' v'. rewrite lookup_insert_eq, !mem_foreach_elem, lookup_insert_Some.
      naive_solver.
  - intros tx b k v. destruct (tx !! b) as [m|]; [by rewrite mem_foreach_elem|].
    split; [done|]. by intros ?%not_elem_of_nil.
  - intros tx b. destruct (tx !! b) as [m|]; [|constructor].
    apply kv_sort_spec, NoDup_fst_map_to_list.
  - intros tx b Hh. apply bool_decide_eq_false_1 in Hh. destruct (tx !! b); [|done].
    destruct Hh. eauto.
  - intros tx b. rewrite bool_decide_eq_true, list_elem_of_fmap. split.
    + intros ([b' m] & -> & Hin%elem_of_map_to_list). eauto.
    + intros [m Hm]. exists (b, m). by rewrite elem_of_map_to_list.
Defined.
