(* ===== verification/EventStore.v ===== *)
(** * The durable event log (src/controller/eventstore.go)

    [EventStore] is the Go interface of the same name; [EventStoreLaws] is what
    the hub relies on, stated against an abstract state: for each agent its
    list of events and its origin watermark.  [BoltEventStore] is the
    implementation on top of [Bolt], and [BoltEventStoreLaws] proves that it
    refines the abstract state: keys are the big-endian sequence numbers, so the
    byte order of the bucket is the order of the log. *)

From Stdlib Require Import Ascii String ZArith.
From S2P Require Import Prelude Json Bolt.
From stdpp Require Import base list strings numbers sorting.
Local Open Scope N_scope.

(** ** Events (src/controller/events.go) *)

Record Event : Type := mkEvent {
  Seq : N;
  Typ : string;
  Data : RawMessage
}.

(** [json.Marshal] of an [Event]: [type] is omitted when empty. *)
Definition marshal_event (ev : Event) : option json :=
  match marshal_raw (Data ev) with
  | None => None
  | Some d =>
      Some (JObj ((("seq"%string, JInt (Z.of_N (Seq ev)))
        :: (if String.eqb (Typ ev) "" then [] else [("type"%string, JStr (Typ ev))]))
        ++ [("data"%string, d)]))
  end.

Definition unmarshal_event (j : json) : option Event :=
  match unmarshal_struct (RJson j) with
  | None => None
  | Some ms =>
      let '(seq, bad1) := decode_field conv_uint64 "seq" 0 ms in
      let '(typ, bad2) := string_field "type" ms in
      if bad1 || bad2 then None else Some (mkEvent seq typ (raw_field "data" ms))
  end.

(** ** The interface *)

(** What the log keeps of an event: its data as the printed document. *)
Definition stored (ev : Event) : option Event :=
  match marshal_raw (Data ev) with
  | None => None
  | Some d => Some (mkEvent (Seq ev) (Typ ev) (RJson d))
  end.

Definition LogState : Type := string → list Event * N.

Definition abs_append (a : LogState) (id : string) (ev : Event) (wm : N) : LogState :=
  λ id', if decide (id' = id) then ((a id).1 ++ [ev], wm) else a id'.

(** The sequence numbers of a log without gaps: 1, 2, ..., n. *)
Definition seqs (n : nat) : list N := N.of_nat <$> seq 1 n.

Definition gap_free (l : list Event) : Prop := Seq <$> l = seqs (length l).

Definition log_len (l : list Event) : N := N.of_nat (length l).

Class EventStore (S : Type) : Type := {
  NextSeq : S → string → res StoreErr N;
  Append : S → string → Event → option StoreErr * S;
  AppendWithOrigin : S → string → Event → N → option StoreErr * S;
  OriginWatermark : S → string → res StoreErr N;
  Replay : S → string → N → res StoreErr (list Event);
  Agents : S → res StoreErr (list string)
}.

(** [es_up] says the file can be used, [es_fits] that an event is not too
    large for it, [es_valid] which names are agent ids; [log_len + 1] staying
    below 2^64 is the room an append needs. *)
Class EventStoreLaws (S : Type) `{EventStore S} : Type := {
  es_abs : S → LogState;
  es_inv : S → Prop;
  es_up : S → Prop;
  es_fits : Event → Prop;
  es_valid : string → Prop;
  es_log_wf s id : es_inv s → es_valid id →
    gap_free (es_abs s id).1 ∧ log_len (es_abs s id).1 < u64_bound ∧
    Forall (λ ev, ∃ d, Data ev = RJson d) (es_abs s id).1;
  es_nextseq s id n : es_inv s → es_valid id →
    NextSeq s id = Ok n → n = log_len (es_abs s id).1;
  es_watermark s id n : es_inv s → es_valid id →
    OriginWatermark s id = Ok n → n = (es_abs s id).2;
  es_replay s id after l : es_inv s → es_valid id →
    Replay s id after = Ok l → l = filter (λ ev, after < Seq ev) (es_abs s id).1;
  es_agents s l id : es_inv s → es_valid id →
    Agents s = Ok l → (es_abs s id).1 ≠ [] → id ∈ l;
  es_append s id ev s' : es_inv s → es_valid id →
    log_len (es_abs s id).1 + 1 < u64_bound →
    Append s id ev = (None, s') →
    ∃ ev', stored ev = Some ev' ∧ Seq ev = log_len (es_abs s id).1 + 1 ∧ es_inv s' ∧
      ∀ id', es_valid id' →
        es_abs s' id' = abs_append (es_abs s) id ev' (es_abs s id).2 id';
  es_append_origin s id ev o s' : es_inv s → es_valid id →
    log_len (es_abs s id).1 + 1 < u64_bound → o < u64_bound →
    AppendWithOrigin s id ev o = (None, s') →
    ∃ ev', stored ev = Some ev' ∧ Seq ev = log_len (es_abs s id).1 + 1 ∧ es_inv s' ∧
      ∀ id', es_valid id' →
        es_abs s' id' = abs_append (es_abs s) id ev' (N.max (es_abs s id).2 o) id';
  es_append_err s id ev e s' : es_inv s →
    Append s id ev = (Some e, s') → es_inv s' ∧ es_abs s' = es_abs s;
  es_append_origin_err s id ev o e s' : es_inv s →
    AppendWithOrigin s id ev o = (Some e, s') → es_inv s' ∧ es_abs s' = es_abs s;
  es_reads_up s id after : es_up s → es_inv s → es_valid id →
    is_ok (NextSeq s id) ∧ is_ok (OriginWatermark s id) ∧ is_ok (Replay s id after) ∧
    is_ok (Agents s);
  es_append_up s id ev ev' : es_up s → es_inv s → es_valid id →
    log_len (es_abs s id).1 + 1 < u64_bound →
    Seq ev = log_len (es_abs s id).1 + 1 → stored ev = Some ev' → es_fits ev' →
    (∃ s', Append s id ev = (None, s')) ∧
    (∀ o, ∃ s', AppendWithOrigin s id ev o = (None, s'))
}.

(** ** Keys *)

(** [binary.BigEndian.AppendUint64] and [binary.BigEndian.Uint64]. *)
Fixpoint big_endian (width : nat) (n : N) : bytes :=
  match width with
  | O => []
  | S w => big_endian w (n / 256) ++ [n mod 256]
  end.

Definition be_value (b : bytes) : N := fold_left (λ acc x, acc * 256 + x) b 0.

(** [Uint64] reads the first eight bytes and panics on a shorter slice. *)
Definition be_uint64 (b : bytes) : option N :=
  if (length b <? 8)%nat then None else Some (be_value (take 8 b)).

Definition seqKey (seq : N) : bytes := big_endian 8 seq.

#[global] Arguments seqKey : simpl never.

Definition bytes_of_string (s : string) : bytes := N_of_ascii <$> list_ascii_of_string s.

Definition agentBucketSeqWidth : nat := 8.

Definition originBucket : string := "origin-wm".

(** ** The implementation *)

Section bolt_event_store.
  Context {DB TX : Type} `{Bolt DB TX}.

Definition bolt_NextSeq (db : DB) (agentID : string) : res StoreErr N :=
  match bolt_view db with
  | None => Err EBolt
  | Some tx =>
      if tx_has tx agentID then
        match last (tx_foreach tx agentID) with
        | None => Ok 0
        | Some (k, _) =>
            if negb (length k =? agentBucketSeqWidth)%nat then Err EMalformedKey
            else match be_uint64 k with Some n => Ok n | None => Err EPanic end
        end
      else Ok 0
  end.

Definition appendInTx (tx : TX) (agentID : string) (ev : Event) : res StoreErr TX :=
  match tx_create tx agentID with
  | Err e => Err e
  | Ok tx =>
      let lastSeq :=
        match last (tx_foreach tx agentID) with
        | None => Some 0
        | Some (k, _) => be_uint64 k
        end in
      match lastSeq with
      | None => Err EPanic
      | Some last =>
          if negb (Seq ev =? u64_succ last) then Err ESeqNotNext
          else match marshal_event ev with
               | None => Err EMarshal
               | Some v => tx_put tx agentID (seqKey (Seq ev)) (BDoc v)
               end
      end
  end.

Definition bolt_Append (db : DB) (agentID : string) (ev : Event) : option StoreErr * DB :=
  bolt_update db (λ tx, appendInTx tx agentID ev).

(** A stored watermark: a value of eight bytes. *)
Definition stored_wm (tx : TX) (agentID : string) : option N :=
  match tx_get tx originBucket (bytes_of_string agentID) with
  | Some (BBytes b) => if (length b =? 8)%nat then be_uint64 b else None
  | _ => None
  end.

Definition bolt_AppendWithOrigin (db : DB) (agentID : string) (ev : Event)
    (originSpoolID : N) : option StoreErr * DB :=
  bolt_update db (λ tx,
    match appendInTx tx agentID ev with
    | Err e => Err e
    | Ok tx =>
        match tx_create tx originBucket with
        | Err e => Err e
        | Ok tx =>
            if (match stored_wm tx agentID with
                | Some cur => originSpoolID <? cur
                | None => false
                end)
            then Ok tx
            else tx_put tx originBucket (bytes_of_string agentID) (BBytes (seqKey originSpoolID))
        end
    end).

Definition bolt_OriginWatermark (db : DB) (agentID : string) : res StoreErr N :=
  match bolt_view db with
  | None => Err EBolt
  | Some tx =>
      if tx_has tx originBucket then Ok (default 0 (stored_wm tx agentID)) else Ok 0
  end.

(** The body of [ForEach], which stops at the first error. *)
Fixpoint replay_entries (after : N) (kvs : list (bytes * blob)) : res StoreErr (list Event) :=
  match kvs with
  | [] => Ok []
  | (k, v) :: rest =>
      if negb (length k =? agentBucketSeqWidth)%nat then Err EMalformedKey
      else match be_uint64 k with
           | None => Err EPanic
           | Some seq =>
               if after <? seq then
                 match match v with BDoc j => unmarshal_event j | BBytes _ => None end with
                 | None => Err EUnmarshal
                 | Some ev =>
                     match replay_entries after rest with
                     | Ok l => Ok (ev :: l)
                     | Err e => Err e
                     end
                 end
               else replay_entries after rest
           end
  end.

Definition bolt_Replay (db : DB) (agentID : string) (after : N) : res StoreErr (list Event) :=
  match bolt_view db with
  | None => Err EBolt
  | Some tx =>
      if tx_has tx agentID then replay_entries after (tx_foreach tx agentID) else Ok []
  end.

Definition bolt_Agents (db : DB) : res StoreErr (list string) :=
  match bolt_view db with
  | None => Err EBolt
  | Some tx => Ok (filter (λ name, name ≠ originBucket) (tx_names tx))
  end.

#[global] Instance BoltEventStore : EventStore DB := {
  NextSeq := bolt_NextSeq;
  Append := bolt_Append;
  AppendWithOrigin := bolt_AppendWithOrigin;
  OriginWatermark := bolt_OriginWatermark;
  Replay := bolt_Replay;
  Agents := bolt_Agents
}.

End bolt_event_store.

(** ** Key lemmas *)

Lemma big_endian_length w n : length (big_endian w n) = w.
Proof.
  revert n. induction w as [|w IH]; intros n; simpl; [done|].
  rewrite length_app, IH. simpl. lia.
Qed.

Lemma be_value_snoc b x : be_value (b ++ [x]) = be_value b * 256 + x.
Proof. unfold be_value. by rewrite fold_left_app. Qed.

Lemma be_value_big_endian w n : be_value (big_endian w n) = n mod 256 ^ N.of_nat w.
Proof.
  revert n. induction w as [|w IH]; intros n.
  { simpl. by rewrite N.mod_1_r. }
  cbn [big_endian]. rewrite be_value_snoc, IH, Nat2N.inj_succ, N.pow_succ_r'.
  rewrite (N.Div0.mod_mul_r n 256). lia.
Qed.

Lemma bytes_cmp_snoc l1 l2 x y :
  length l1 = length l2 →
  bytes_cmp (l1 ++ [x]) (l2 ++ [y]) =
    match bytes_cmp l1 l2 with Eq => N.compare x y | c => c end.
Proof.
  revert l2. induction l1 as [|a l1 IH]; intros [|b l2] Hl; simpl in *; try done.
  - by destruct (N.compare x y).
  - destruct (N.compare a b); [|done..]. apply IH. lia.
Qed.

Lemma compare_div_mod a b :
  N.compare a b =
    match N.compare (a / 256) (b / 256) with
    | Eq => N.compare (a mod 256) (b mod 256)
    | c => c
    end.
Proof.
  pose proof (N.div_mod a 256 ltac:(lia)). pose proof (N.div_mod b 256 ltac:(lia)).
  pose proof (N.mod_lt a 256 ltac:(lia)). pose proof (N.mod_lt b 256 ltac:(lia)).
  set (x := a / 256) in *. set (y := b / 256) in *.
  set (u := a mod 256) in *. set (v := b mod 256) in *. clearbody x y u v.
  destruct (N.compare_spec x y);
    [destruct (N.compare_spec u v)|..];
    destruct (N.compare_spec a b); try done; exfalso; lia.
Qed.

Lemma big_endian_cmp w a b :
  a < 256 ^ N.of_nat w → b < 256 ^ N.of_nat w →
  bytes_cmp (big_endian w a) (big_endian w b) = N.compare a b.
Proof.
  revert a b. induction w as [|w IH]; intros a b Ha Hb.
  { simpl in *. assert (a = 0) as -> by lia. by assert (b = 0) as -> by lia. }
  rewrite Nat2N.inj_succ, N.pow_succ_r' in Ha, Hb.
  cbn [big_endian]. rewrite bytes_cmp_snoc by by rewrite !big_endian_length.
  rewrite IH by (apply N.Div0.div_lt_upper_bound; lia).
  symmetry. apply compare_div_mod.
Qed.

(** The byte order of the keys is the order of the sequence numbers. *)
Lemma seqKey_cmp a b :
  a < u64_bound → b < u64_bound → bytes_cmp (seqKey a) (seqKey b) = N.compare a b.
Proof. apply (big_endian_cmp 8). Qed.

Lemma seqKey_lt a b :
  a < u64_bound → b < u64_bound → bytes_lt (seqKey a) (seqKey b) ↔ a < b.
Proof. intros Ha Hb. unfold bytes_lt. by rewrite seqKey_cmp. Qed.

Lemma seqKey_length n : length (seqKey n) = 8%nat.
Proof. apply big_endian_length. Qed.

Lemma be_uint64_seqKey n : n < u64_bound → be_uint64 (seqKey n) = Some n.
Proof.
  intros Hn. unfold be_uint64. rewrite seqKey_length. simpl (_ <? _)%nat. cbn match.
  rewrite take_ge by by rewrite seqKey_length. f_equal. unfold seqKey.
  rewrite be_value_big_endian. by apply N.mod_small.
Qed.

Lemma bytes_of_string_inj a b : bytes_of_string a = bytes_of_string b → a = b.
Proof.
  unfold bytes_of_string. intros E.
  rewrite <-(string_of_list_ascii_of_string a), <-(string_of_list_ascii_of_string b).
  f_equal. revert E. apply list_fmap_eq_inj.
  intros x y E. rewrite <-(ascii_N_embedding x), <-(ascii_N_embedding y). by f_equal.
Qed.

Lemma bytes_of_string_nil a : bytes_of_string a = [] → a = ""%string.
Proof. intros E. by apply (bytes_of_string_inj a ""). Qed.

Lemma bytes_of_string_length a : length (bytes_of_string a) = String.length a.
Proof. unfold bytes_of_string. rewrite length_fmap. induction a; simpl; congruence. Qed.

(** ** Printing and parsing an event *)

(** The document of an event that can be printed. *)
Definition event_doc (ev : Event) : json := default JNull (marshal_event ev).

Lemma unmarshal_event_doc ev d :
  Data ev = RJson d → Seq ev < u64_bound → unmarshal_event (event_doc ev) = Some ev.
Proof.
  destruct ev as [n t dat]; simpl. intros -> Hn.
  unfold unmarshal_event, event_doc, marshal_event. simpl.
  assert (Hc : conv_uint64 (JInt (Z.of_N n)) = Some n).
  { unfold conv_uint64. rewrite (proj2 (Z.leb_le _ _)), (proj2 (Z.ltb_lt _ _)) by lia.
    simpl. by rewrite N2Z.id. }
  destruct (String.eqb t "") eqn:Et;
    [apply String.eqb_eq in Et as ->|];
    unfold decode_field, string_field, decode_field, raw_field, key_matches;
    cbn -[conv_uint64 u64_bound]; rewrite Hc; done.
Qed.

Lemma stored_doc ev ev' : stored ev = Some ev' → marshal_event ev = Some (event_doc ev').
Proof.
  unfold stored, event_doc, marshal_event. destruct (marshal_raw _); [|done].
  by intros [= <-].
Qed.

Lemma stored_props ev ev' :
  stored ev = Some ev' → Seq ev' = Seq ev ∧ Typ ev' = Typ ev ∧ ∃ d, Data ev' = RJson d.
Proof. unfold stored. destruct (marshal_raw _); [|done]. intros [= <-]. eauto. Qed.

Lemma marshal_event_stored ev v :
  marshal_event ev = Some v → ∃ ev', stored ev = Some ev' ∧ v = event_doc ev'.
Proof.
  unfold marshal_event, stored, event_doc, marshal_event.
  destruct (marshal_raw _); [|done]. intros [= <-]. eauto.
Qed.

(** ** Lists of sequence numbers *)

Lemma seqs_snoc n : seqs (S n) = seqs n ++ [N.of_nat (S n)].
Proof. unfold seqs. by rewrite seq_S, fmap_app. Qed.

Lemma gap_free_snoc l ev :
  gap_free (l ++ [ev]) ↔ gap_free l ∧ Seq ev = log_len l + 1.
Proof.
  unfold gap_free, log_len. rewrite fmap_app, length_app. simpl.
  rewrite Nat.add_1_r, seqs_snoc. split.
  - intros E. apply app_inj_tail in E as [-> E]. split; [done|lia].
  - intros [-> ->]. do 2 f_equal. lia.
Qed.

Lemma gap_free_lookup l i ev :
  gap_free l → l !! i = Some ev → Seq ev = N.of_nat (S i).
Proof.
  unfold gap_free, seqs. intros Hg Hi.
  assert (Hs : (Seq <$> l) !! i = Some (Seq ev)) by by rewrite list_lookup_fmap, Hi.
  rewrite Hg, list_lookup_fmap in Hs.
  apply lookup_lt_Some in Hi. by rewrite lookup_seq_lt in Hs by done; injection Hs as <-.
Qed.

Lemma gap_free_elem l ev : gap_free l → ev ∈ l → 1 ≤ Seq ev ≤ log_len l.
Proof.
  intros Hg [i Hi]%list_elem_of_lookup. rewrite (gap_free_lookup _ _ _ Hg Hi).
  apply lookup_lt_Some in Hi. unfold log_len. lia.
Qed.

Lemma gap_free_suffix l1 l2 ev : gap_free (l1 ++ l2) → ev ∈ l2 → log_len l1 < Seq ev.
Proof.
  intros Hg [i Hi]%list_elem_of_lookup.
  rewrite (gap_free_lookup _ (length l1 + i) ev Hg); [unfold log_len; lia|].
  rewrite lookup_app_r by lia. by replace (length l1 + i - length l1)%nat with i by lia.
Qed.

Lemma gap_free_app_l l1 l2 : gap_free (l1 ++ l2) → gap_free l1.
Proof.
  induction l2 as [|ev l2 IH] using rev_ind; [by rewrite app_nil_r|].
  rewrite app_assoc, gap_free_snoc. intros [? _]. by apply IH.
Qed.

Lemma gap_free_sorted l : gap_free l → StronglySorted (λ x y, Seq x < Seq y) l.
Proof.
  induction l as [|ev l IH] using rev_ind; [constructor|].
  intros Hg. apply StronglySorted_app. split_and!.
  - intros x y Hx ->%list_elem_of_singleton.
    apply gap_free_snoc in Hg as [Hg ->]. pose proof (gap_free_elem _ _ Hg Hx). lia.
  - apply IH. by apply gap_free_app_l in Hg.
  - repeat constructor.
Qed.

Lemma gap_free_last l ev : gap_free l → last l = Some ev → Seq ev = log_len l.
Proof.
  intros Hg Hl. rewrite last_lookup in Hl. rewrite (gap_free_lookup _ _ _ Hg Hl).
  apply lookup_lt_Some in Hl. unfold log_len. lia.
Qed.

(** ** The implementation refines the abstract log *)

Section bolt_refinement.
  Context {DB TX : Type} `{BoltLaws DB TX}.

Definition entry_of (ev : Event) : bytes * blob := (seqKey (Seq ev), BDoc (event_doc ev)).

Definition event_of (kv : bytes * blob) : option Event :=
  match kv.2 with BDoc j => unmarshal_event j | BBytes _ => None end.

Definition tx_log (tx : TX) (id : string) : list Event := omap event_of (tx_foreach tx id).

Definition tx_wm (tx : TX) (id : string) : N := default 0 (stored_wm tx id).

Definition log_wf (l : list Event) : Prop :=
  gap_free l ∧ log_len l < u64_bound ∧ Forall (λ ev, ∃ d, Data ev = RJson d) l.

(** A bucket that holds exactly the entries of a log. *)
Definition bucket_wf (tx : TX) (id : string) : Prop :=
  ∃ l, log_wf l ∧ tx_foreach tx id = entry_of <$> l.

Definition agent_id (id : string) : Prop :=
  id ≠ ""%string ∧ id ≠ originBucket ∧ N.of_nat (String.length id) ≤ 32768.

Lemma event_of_entry l :
  log_wf l → omap event_of (entry_of <$> l) = l.
Proof.
  intros (Hg & Hb & Hd). assert (Hall : Forall (λ ev, unmarshal_event (event_doc ev) = Some ev) l).
  { rewrite Forall_forall in Hd |- *. intros ev Hin. destruct (Hd ev Hin) as [d Hev].
    apply (unmarshal_event_doc ev d Hev). pose proof (gap_free_elem _ _ Hg Hin). lia. }
  clear -Hall. induction Hall as [|ev l Hev _ IH]; [done|].
  change (omap event_of (entry_of <$> (ev :: l))) with
    (match unmarshal_event (event_doc ev) with
     | Some e => e :: omap event_of (entry_of <$> l)
     | None => omap event_of (entry_of <$> l)
     end). by rewrite Hev, IH.
Qed.

Lemma bucket_log tx id :
  bucket_wf tx id → log_wf (tx_log tx id) ∧ tx_foreach tx id = entry_of <$> tx_log tx id.
Proof.
  intros (l & Hl & He). unfold tx_log. rewrite He. by rewrite (event_of_entry l Hl).
Qed.

(** The last key of a well-formed bucket is the length of its log. *)
Lemma bucket_last tx id :
  bucket_wf tx id →
  match last (tx_foreach tx id) with
  | None => tx_log tx id = []
  | Some (k, _) => length k = 8%nat ∧ be_uint64 k = Some (log_len (tx_log tx id))
  end.
Proof.
  intros [(Hg & Hb & _) He]%bucket_log. rewrite He, fmap_last.
  destruct (last (tx_log tx id)) as [ev|] eqn:El; cbn [fmap option_fmap option_map entry_of].
  - split; [exact (seqKey_length _)|]. rewrite (gap_free_last _ _ Hg El).
    by apply be_uint64_seqKey.
  - by apply last_None.
Qed.

Lemma replay_entries_spec after l :
  log_wf l →
  replay_entries after (entry_of <$> l) = Ok (filter (λ ev, after < Seq ev) l).
Proof.
  intros (Hg & Hb & Hd).
  assert (Hall : Forall (λ ev, Seq ev < u64_bound ∧ unmarshal_event (event_doc ev) = Some ev) l).
  { rewrite Forall_forall in Hd |- *. intros ev Hin. destruct (Hd ev Hin) as [d Hev].
    pose proof (gap_free_elem _ _ Hg Hin). split; [lia|].
    apply (unmarshal_event_doc ev d Hev). lia. }
  clear -Hall. induction Hall as [|ev l [Hs Hev] _ IH]; [done|].
  rewrite fmap_cons. cbn [replay_entries]. unfold entry_of at 1.
  rewrite seqKey_length. simpl negb. cbn match. rewrite (be_uint64_seqKey _ Hs), Hev.
  rewrite filter_cons. destruct (N.ltb_spec after (Seq ev)).
  - rewrite decide_True by done. by rewrite IH.
  - rewrite decide_False by lia. apply IH.
Qed.

(** What a transaction of [appendInTx] does to the buckets. *)
Lemma appendInTx_spec tx id ev tx' :
  bucket_wf tx id → log_len (tx_log tx id) + 1 < u64_bound →
  appendInTx tx id ev = Ok tx' →
  ∃ ev', stored ev = Some ev' ∧ Seq ev = log_len (tx_log tx id) + 1 ∧
    tx_foreach tx' id = entry_of <$> (tx_log tx id ++ [ev']) ∧
    (∀ b, b ≠ id → tx_foreach tx' b = tx_foreach tx b) ∧
    (∀ b, tx_has tx' b = bool_decide (b = id) || tx_has tx b).
Proof.
  intros Hwf Hroom. unfold appendInTx.
  destruct (tx_create tx id) as [tx1|] eqn:Ec; [|done].
  apply create_spec in Ec as [Hhas1 Heach1].
  pose proof (bucket_last tx id Hwf) as Hlast. rewrite Heach1.
  assert (Hl : match last (tx_foreach tx id) with None => Some 0 | Some (k, _) => be_uint64 k end
               = Some (log_len (tx_log tx id))).
  { destruct (last _) as [[k v]|]; [by destruct Hlast|by rewrite Hlast]. }
  rewrite Hl. rewrite u64_succ_small by lia.
  destruct (N.eqb_spec (Seq ev) (log_len (tx_log tx id) + 1)) as [Hseq|]; [|done]. simpl.
  destruct (marshal_event ev) as [v|] eqn:Em; [|done]. intros Hp.
  apply marshal_event_stored in Em as (ev' & Hst & ->).
  apply put_spec in Hp as (Hhas2 & Hother & Hput).
  destruct (stored_props _ _ Hst) as (Hs' & _ & _).
  exists ev'. split_and!; [done|done| | |].
  - destruct (bucket_log _ _ Hwf) as [(Hg & _) He].
    apply kv_sorted_unique; [apply foreach_sorted| |].
    + rewrite fmap_app, <-He. apply kv_sorted_snoc; [apply foreach_sorted|].
      intros p. rewrite He. intros (e & -> & Hin)%list_elem_of_fmap. simpl.
      pose proof (gap_free_elem _ _ Hg Hin). apply seqKey_lt; lia.
    + intros k v. rewrite Hput, Heach1, He, fmap_app, elem_of_app. simpl.
      rewrite list_elem_of_singleton. unfold entry_of at 3. rewrite Hs'. split.
      * intros [[-> ->]|[_ ?]]; [by right|by left].
      * intros [Hin|[= -> ->]]; [right|by left]. split; [|done].
        apply list_elem_of_fmap in Hin as (e & [= -> ->] & Hin).
        pose proof (gap_free_elem _ _ Hg Hin). intros E.
        assert (Hlt : bytes_lt (seqKey (Seq e)) (seqKey (Seq ev))) by (apply seqKey_lt; lia).
        rewrite E in Hlt. by apply bytes_lt_irrefl in Hlt.
  - intros b Hb. rewrite Hother by done. apply Heach1.
  - intros b. rewrite Hhas2. apply Hhas1.
Qed.

Lemma log_wf_snoc l ev ev' :
  log_wf l → log_len l + 1 < u64_bound → stored ev = Some ev' → Seq ev = log_len l + 1 →
  log_wf (l ++ [ev']).
Proof.
  intros (Hg & Hb & Hd) Hroom (Hs & _ & Hd')%stored_props Hseq. split_and!.
  - apply gap_free_snoc. split; [done|lia].
  - unfold log_len in *. rewrite length_app. simpl. lia.
  - apply Forall_app_2; [done|]. by constructor.
Qed.

(** Two states with the same entries give the same log and watermark. *)
Lemma tx_log_foreach tx tx' id :
  tx_foreach tx' id = tx_foreach tx id → tx_log tx' id = tx_log tx id.
Proof. unfold tx_log. by intros ->. Qed.

Lemma tx_get_foreach tx tx' b k :
  tx_foreach tx' b = tx_foreach tx b → tx_get tx' b k = tx_get tx b k.
Proof.
  intros E. apply option_eq. intros v. by rewrite !get_spec, E.
Qed.

Lemma stored_wm_foreach tx tx' id :
  tx_foreach tx' originBucket = tx_foreach tx originBucket →
  stored_wm tx' id = stored_wm tx id.
Proof. intros E. unfold stored_wm. by rewrite (tx_get_foreach _ _ _ _ E). Qed.

Definition tx_abs (tx : TX) : LogState := λ id, (tx_log tx id, tx_wm tx id).

Definition tx_inv (tx : TX) : Prop := ∀ id, agent_id id → bucket_wf tx id.

(** An append keeps every bucket well formed and extends one log. *)
Lemma appendInTx_abs tx id ev tx' :
  tx_inv tx → agent_id id → log_len (tx_log tx id) + 1 < u64_bound →
  appendInTx tx id ev = Ok tx' →
  ∃ ev', stored ev = Some ev' ∧ Seq ev = log_len (tx_log tx id) + 1 ∧ tx_inv tx' ∧
    tx_foreach tx' originBucket = tx_foreach tx originBucket ∧
    ∀ id', tx_log tx' id' = if decide (id' = id) then tx_log tx id ++ [ev'] else tx_log tx id'.
Proof.
  intros Hinv Hid Hroom Ha. pose proof (Hinv id Hid) as Hwf.
  apply appendInTx_spec in Ha as (ev' & Hst & Hseq & He & Ho & _); [|done..].
  pose proof (log_wf_snoc _ _ _ (proj1 (bucket_log _ _ Hwf)) Hroom Hst Hseq) as Hwf'.
  exists ev'. split_and!; [done|done| | |].
  - intros id' Hid'. destruct (decide (id' = id)) as [->|Hne].
    + eexists. split; [exact Hwf'|done].
    + destruct (Hinv id' Hid') as (l & Hl & Hel). exists l. by rewrite Ho.
  - apply Ho. destruct Hid as (_ & ? & _). congruence.
  - intros id'. case_decide as Hd; [subst|by apply tx_log_foreach, Ho].
    unfold tx_log at 1. rewrite He. by apply event_of_entry.
Qed.

(** Writing a watermark changes that agent's and no other. *)
Lemma stored_wm_put tx tx' id o :
  o < u64_bound →
  tx_put tx originBucket (bytes_of_string id) (BBytes (seqKey o)) = Ok tx' →
  (∀ b, b ≠ originBucket → tx_foreach tx' b = tx_foreach tx b) ∧
  ∀ id', stored_wm tx' id' = if decide (id' = id) then Some o else stored_wm tx id'.
Proof.
  intros Ho (_ & Hother & Hput)%put_spec. split; [done|]. intros id'. unfold stored_wm.
  case_decide as Hd.
  - subst. replace (tx_get tx' originBucket (bytes_of_string id)) with (Some (BBytes (seqKey o))).
    + rewrite seqKey_length. simpl. by apply be_uint64_seqKey.
    + symmetry. rewrite get_spec, Hput. by left.
  - replace (tx_get tx' originBucket (bytes_of_string id'))
      with (tx_get tx originBucket (bytes_of_string id')); [done|].
    apply option_eq. intros v. rewrite !get_spec, Hput.
    assert (bytes_of_string id' ≠ bytes_of_string id) by (by intros ?%bytes_of_string_inj).
    naive_solver.
Qed.

Lemma tx_inv_foreach tx tx' :
  tx_inv tx → (∀ b, b ≠ originBucket → tx_foreach tx' b = tx_foreach tx b) → tx_inv tx'.
Proof.
  intros Hinv Hb id Hid. destruct (Hinv id Hid) as (l & Hl & He). exists l.
  destruct Hid as (_ & ? & _). by rewrite Hb.
Qed.

Lemma bolt_NextSeq_eq db tx id :
  tx_inv tx → agent_id id → bolt_view db = Some tx →
  bolt_NextSeq db id = Ok (log_len (tx_log tx id)).
Proof.
  intros Hinv Hid Hv. unfold bolt_NextSeq. rewrite Hv.
  pose proof (bucket_last tx id (Hinv id Hid)) as Hl.
  destruct (tx_has tx id) eqn:Eh.
  - destruct (last _) as [[k v]|]; [|by rewrite Hl]. destruct Hl as [Hk ->]. by rewrite Hk.
  - unfold tx_log. by rewrite (foreach_none tx id Eh).
Qed.

Lemma bolt_OriginWatermark_eq db tx id :
  bolt_view db = Some tx → bolt_OriginWatermark db id = Ok (tx_wm tx id).
Proof.
  intros Hv. unfold bolt_OriginWatermark, tx_wm. rewrite Hv.
  destruct (tx_has tx originBucket) eqn:Eh; [done|]. unfold stored_wm.
  destruct (tx_get _ _ _) as [v|] eqn:Eg; [|done].
  apply get_spec in Eg. rewrite foreach_none in Eg by done. by apply not_elem_of_nil in Eg.
Qed.

Lemma bolt_Replay_eq db tx id after :
  tx_inv tx → agent_id id → bolt_view db = Some tx →
  bolt_Replay db id after = Ok (filter (λ ev, after < Seq ev) (tx_log tx id)).
Proof.
  intros Hinv Hid Hv. unfold bolt_Replay. rewrite Hv.
  destruct (bucket_log _ _ (Hinv id Hid)) as [Hwf He].
  destruct (tx_has tx id) eqn:Eh.
  - rewrite He. by apply replay_entries_spec.
  - unfold tx_log. by rewrite (foreach_none tx id Eh).
Qed.

Lemma bolt_Agents_elem db tx l id :
  agent_id id → bolt_view db = Some tx → bolt_Agents db = Ok l →
  tx_log tx id ≠ [] → id ∈ l.
Proof.
  intros (_ & Hne & _) Hv. unfold bolt_Agents. rewrite Hv. intros [= <-] Hl.
  apply list_elem_of_filter. split; [done|]. apply names_spec.
  destruct (tx_has tx id) eqn:Eh; [done|]. destruct Hl. unfold tx_log.
  by rewrite foreach_none.
Qed.

(** A transaction that appends the next event goes through. *)
Lemma appendInTx_up tx id ev ev' :
  tx_inv tx → agent_id id → log_len (tx_log tx id) + 1 < u64_bound →
  Seq ev = log_len (tx_log tx id) + 1 → stored ev = Some ev' →
  val_fits (BDoc (event_doc ev')) → ∃ tx', appendInTx tx id ev = Ok tx'.
Proof.
  intros Hinv Hid Hroom Hseq Hst Hfit. unfold appendInTx.
  pose proof (bucket_last tx id (Hinv id Hid)) as Hlast.
  destruct Hid as (Hne & _ & Hlen). destruct (create_up tx id Hne Hlen) as [tx1 Ec].
  rewrite Ec. destruct (create_spec _ _ _ Ec) as [Hhas Heach]. rewrite Heach.
  assert (Hl : match last (tx_foreach tx id) with None => Some 0 | Some (k, _) => be_uint64 k end
               = Some (log_len (tx_log tx id))).
  { destruct (last _) as [[k v]|]; [by destruct Hlast|by rewrite Hlast]. }
  rewrite Hl, u64_succ_small, Hseq, N.eqb_refl by done. simpl.
  rewrite (stored_doc _ _ Hst). apply put_up; [|done|by rewrite seqKey_length|done].
  by rewrite Hhas, bool_decide_true.
Qed.

Lemma originBucket_ok : originBucket ≠ ""%string ∧ N.of_nat (String.length originBucket) ≤ 32768.
Proof. by split. Qed.

(** The whole transaction of [AppendWithOrigin] goes through as well. *)
Lemma append_origin_up tx id ev tx' o :
  agent_id id → appendInTx tx id ev = Ok tx' →
  ∃ tx'', match tx_create tx' originBucket with
          | Err e => Err e
          | Ok tx =>
              if (match stored_wm tx id with Some cur => o <? cur | None => false end)
              then Ok tx
              else tx_put tx originBucket (bytes_of_string id) (BBytes (seqKey o))
          end = Ok tx''.
Proof.
  intros (Hne & _ & Hlen) _. destruct originBucket_ok as [Ho1 Ho2].
  destruct (create_up tx' _ Ho1 Ho2) as [tx1 Ec]. rewrite Ec.
  destruct (create_spec _ _ _ Ec) as [Hhas _].
  destruct (match stored_wm tx1 id with Some cur => o <? cur | None => false end); [eauto|].
  apply put_up.
  - by rewrite Hhas, bool_decide_true.
  - by intros ?%bytes_of_string_nil.
  - by rewrite bytes_of_string_length.
  - apply fits_bytes. by rewrite seqKey_length.
Qed.

(** The effect of a committed [AppendWithOrigin]. *)
Lemma append_origin_abs tx id ev o tx1 tx2 tx' :
  tx_inv tx → agent_id id → log_len (tx_log tx id) + 1 < u64_bound → o < u64_bound →
  appendInTx tx id ev = Ok tx1 → tx_create tx1 originBucket = Ok tx2 →
  (if (match stored_wm tx2 id with Some cur => o <? cur | None => false end)
   then Ok tx2
   else tx_put tx2 originBucket (bytes_of_string id) (BBytes (seqKey o))) = Ok tx' →
  ∃ ev', stored ev = Some ev' ∧ Seq ev = log_len (tx_log tx id) + 1 ∧ tx_inv tx' ∧
    ∀ id', agent_id id' →
      tx_abs tx' id' = abs_append (tx_abs tx) id ev' (N.max (tx_wm tx id) o) id'.
Proof.
  intros Hinv Hid Hroom Ho Ha [_ Hc]%create_spec.
  apply appendInTx_abs in Ha as (ev' & Hst & Hseq & Hinv1 & Hob & Hlog); [|done..].
  assert (Hw : ∀ i, stored_wm tx2 i = stored_wm tx i).
  { intros i. apply stored_wm_foreach. by rewrite Hc. }
  intros Hend. exists ev'. split; [done|]. split; [done|]. rewrite Hw in Hend.
  assert (Hres : (∀ b, b ≠ originBucket → tx_foreach tx' b = tx_foreach tx1 b) ∧
    ∀ i, tx_wm tx' i = if decide (i = id) then N.max (tx_wm tx id) o else tx_wm tx i).
  { unfold tx_wm. destruct (match stored_wm tx id with Some _ => _ | None => _ end) eqn:Eb.
    - injection Hend as <-. split; [by intros b _; apply Hc|]. intros i. rewrite Hw.
      case_decide; [subst|done]. destruct (stored_wm tx id); [|done]. simpl.
      apply N.ltb_lt in Eb. lia.
    - apply stored_wm_put in Hend as [Hb Hs]; [|done].
      split; [intros b Hn; by rewrite Hb, Hc|]. intros i. rewrite Hs.
      case_decide; [subst|by rewrite Hw]. simpl. destruct (stored_wm tx id); simpl; [|lia].
      apply N.ltb_ge in Eb. lia. }
  destruct Hres as [Hb Hs]. split; [by apply (tx_inv_foreach tx1)|].
  intros id' Hid'. unfold tx_abs, abs_append. simpl. rewrite Hs.
  rewrite (tx_log_foreach tx1 tx' id') by (apply Hb; by destruct Hid' as (_ & ? & _)).
  rewrite Hlog. by case_decide.
Qed.

#[global] Instance BoltEventStoreLaws : EventStoreLaws DB.
Proof.
  refine {| es_abs db := tx_abs (db_state db); es_inv db := tx_inv (db_state db);
            es_up := db_up; es_fits ev := val_fits (BDoc (event_doc ev));
            es_valid := agent_id |};
    cbn [NextSeq Append AppendWithOrigin OriginWatermark Replay Agents BoltEventStore].
  - intros s id Hinv Hid. by destruct (bucket_log _ _ (Hinv id Hid)).
  - intros s id n Hinv Hid Hn. destruct (bolt_view s) as [tx|] eqn:Ev.
    + pose proof (view_state _ _ Ev) as ->. rewrite (bolt_NextSeq_eq _ _ _ Hinv Hid Ev) in Hn.
      by injection Hn as <-.
    + unfold bolt_NextSeq in Hn. by rewrite Ev in Hn.
  - intros s id n Hinv Hid Hn. destruct (bolt_view s) as [tx|] eqn:Ev.
    + pose proof (view_state _ _ Ev) as ->. rewrite (bolt_OriginWatermark_eq _ _ _ Ev) in Hn.
      by injection Hn as <-.
    + unfold bolt_OriginWatermark in Hn. by rewrite Ev in Hn.
  - intros s id after l Hinv Hid Hn. destruct (bolt_view s) as [tx|] eqn:Ev.
    + pose proof (view_state _ _ Ev) as ->. rewrite (bolt_Replay_eq _ _ _ _ Hinv Hid Ev) in Hn.
      by injection Hn as <-.
    + unfold bolt_Replay in Hn. by rewrite Ev in Hn.
  - intros s l id Hinv Hid Hn. destruct (bolt_view s) as [tx|] eqn:Ev.
    + pose proof (view_state _ _ Ev) as ->. by eapply bolt_Agents_elem.
    + unfold bolt_Agents in Hn. by rewrite Ev in Hn.
  - intros s id ev s' Hinv Hid Hroom Ha. apply update_commit in Ha.
    apply appendInTx_abs in Ha as (ev' & Hst & Hseq & Hinv' & Hob & Hlog); [|done..].
    exists ev'. split_and!; [done..|]. intros id' _. unfold tx_abs, abs_append, tx_wm. simpl.
    rewrite (stored_wm_foreach _ _ id' Hob), Hlog. case_decide; [by subst|done].
  - intros s id ev o s' Hinv Hid Hroom Ho Ha. apply update_commit in Ha.
    destruct (appendInTx _ _ _) as [tx1|] eqn:E1; [|done].
    destruct (tx_create tx1 originBucket) as [tx2|] eqn:E2; [|done].
    by eapply append_origin_abs.
  - intros s id ev e s' Hinv ->%update_rollback. done.
  - intros s id ev o e s' Hinv ->%update_rollback. done.
  - intros s id after Hup Hinv Hid. apply view_up in Hup.
    rewrite (bolt_NextSeq_eq _ _ _ Hinv Hid Hup), (bolt_OriginWatermark_eq _ _ _ Hup),
      (bolt_Replay_eq _ _ _ _ Hinv Hid Hup). unfold bolt_Agents. by rewrite Hup.
  - intros s id ev ev' Hup Hinv Hid Hroom Hseq Hst Hfit.
    destruct (appendInTx_up _ _ _ _ Hinv Hid Hroom Hseq Hst Hfit) as [tx' Ha]. split.
    + by eapply update_up.
    + intros o. destruct (append_origin_up _ _ _ _ o Hid Ha) as [tx'' Hb].
      eapply update_up; [done|]. simpl. by rewrite Ha, Hb.
Defined.

(** An empty file is a well-formed store. *)
Lemma empty_store_inv db : (∀ b, tx_foreach (db_state db) b = []) → tx_inv (db_state db).
Proof.
  intros He id _. exists []. split; [|by rewrite He].
  split_and!; [done|by vm_compute|constructor].
Qed.

(** ** Write histories *)

(** One write: [Append], or [AppendWithOrigin] with its spool id. *)
Definition store_op : Type := string * Event * option N.

Definition store_step (db : DB) (op : store_op) : option StoreErr * DB :=
  match op with
  | (id, ev, None) => bolt_Append db id ev
  | (id, ev, Some o) => bolt_AppendWithOrigin db id ev o
  end.

Definition abs_step (a : LogState) (op : store_op) : LogState :=
  let '(id, ev, origin) := op in
  abs_append a id (default ev (stored ev))
    (match origin with None => (a id).2 | Some o => N.max (a id).2 o end).

(** The database after the writes, and the abstract state after those of them
    that reported success. *)
Fixpoint store_run (db : DB) (a : LogState) (ops : list store_op) : DB * LogState :=
  match ops with
  | [] => (db, a)
  | op :: rest =>
      match store_step db op with
      | (None, db') => store_run db' (abs_step a op) rest
      | (Some _, db') => store_run db' a rest
      end
  end.

Definition store_op_ok (op : store_op) : Prop :=
  agent_id op.1.1 ∧ match op.2 with Some o => o < u64_bound | None => True end.

Definition abs_agrees (db : DB) (a : LogState) : Prop :=
  tx_inv (db_state db) ∧ ∀ id, agent_id id → tx_abs (db_state db) id = a id.

Lemma store_step_abs db a op e db' :
  abs_agrees db a → store_op_ok op → log_len (a op.1.1).1 + 1 < u64_bound →
  store_step db op = (e, db') →
  abs_agrees db' (match e with None => abs_step a op | Some _ => a end).
Proof.
  intros [Hinv Ha] [Hid Ho] Hroom. destruct op as [[id ev] origin]; simpl in *.
  rewrite <-(Ha id Hid) in Hroom.
  assert (Hadd : ∀ ev' w, stored ev = Some ev' → tx_inv (db_state db') →
    (∀ id', agent_id id' → tx_abs (db_state db') id' =
      abs_append (tx_abs (db_state db)) id ev' w id') →
    abs_agrees db' (abs_append a id (default ev (stored ev)) w)).
  { intros ev' w Hst Hinv' Habs. split; [done|]. intros id' Hid'. rewrite (Habs id' Hid'), Hst.
    unfold abs_append. case_decide; [by rewrite (Ha id Hid)|by apply Ha]. }
  destruct e as [e|]; intros Hs.
  - assert (Heq : db_state db' = db_state db)
      by (destruct origin; by apply update_rollback in Hs).
    split; by rewrite Heq.
  - destruct origin as [o|]; rewrite <-(Ha id Hid).
    + destruct (@es_append_origin DB _ BoltEventStoreLaws db id ev o db' Hinv Hid Hroom Ho Hs)
        as (ev' & Hst & _ & Hinv' & Habs). eauto.
    + destruct (@es_append DB _ BoltEventStoreLaws db id ev db' Hinv Hid Hroom Hs)
        as (ev' & Hst & _ & Hinv' & Habs). eauto.
Qed.

Lemma abs_step_length a op id :
  log_len (a id).1 ≤ log_len (abs_step a op id).1 ≤ log_len (a id).1 + 1.
Proof.
  destruct op as [[id0 ev] origin]. unfold abs_step, abs_append, log_len.
  case_decide; [subst; cbn [fst]; rewrite length_app; simpl|]; lia.
Qed.

(** C4. The bolt store refines the abstract log.  After any sequence of writes,
    some of which the database may have refused, every agent's stored log and
    watermark are those obtained by applying the successful writes to the
    abstract state, and reads return them: replay after a cursor gives the
    events beyond it in order, the next sequence number and the watermark are
    the abstract ones. *)
Theorem bolt_store_refines db a ops db' a' :
  abs_agrees db a → Forall store_op_ok ops →
  (∀ id, log_len (a id).1 + N.of_nat (length ops) < u64_bound) →
  store_run db a ops = (db', a') →
  abs_agrees db' a' ∧
  ∀ id, agent_id id →
    (∀ after l, bolt_Replay db' id after = Ok l → l = filter (λ ev, after < Seq ev) (a' id).1) ∧
    (∀ n, bolt_NextSeq db' id = Ok n → n = log_len (a' id).1) ∧
    (∀ n, bolt_OriginWatermark db' id = Ok n → n = (a' id).2).
Proof.
  intros Ha Hok Hroom Hrun. assert (Hfin : abs_agrees db' a').
  { revert db a Ha Hroom Hrun. induction Hok as [|op ops Hop _ IH]; intros db a Ha Hroom; simpl.
    { by intros [= <- <-]. }
    destruct (store_step db op) as [e db1] eqn:Es.
    apply (store_step_abs _ a) in Es; [|done..|specialize (Hroom op.1.1); simpl in Hroom; lia].
    destruct e; apply IH; try done; intros id; specialize (Hroom id); simpl in Hroom;
      [lia|]. pose proof (abs_step_length a op id). lia. }
  split; [done|]. intros id Hid. destruct Hfin as [Hinv Habs].
  rewrite <-(Habs id Hid). split_and!.
  - exact (λ after l, @es_replay DB _ BoltEventStoreLaws db' id after l Hinv Hid).
  - exact (λ n, @es_nextseq DB _ BoltEventStoreLaws db' id n Hinv Hid).
  - exact (λ n, @es_watermark DB _ BoltEventStoreLaws db' id n Hinv Hid).
Qed.

End bolt_refinement.

(** Byte order is sequence order: on 64-bit sequence numbers, comparing
    the stored keys byte by byte is comparing the numbers, and a key reads back
    as the number it was made from.  So the bucket's order is the log's. *)
Theorem seqKey_order a b :
  a < u64_bound → b < u64_bound →
  bytes_cmp (seqKey a) (seqKey b) = N.compare a b ∧ be_uint64 (seqKey a) = Some a ∧
  length (seqKey a) = agentBucketSeqWidth.
Proof.
  intros Ha Hb. split_and!;
    [by apply seqKey_cmp|by apply be_uint64_seqKey|apply seqKey_length].
Qed.

Lemma seqKey_order_witness : bytes_cmp (seqKey 255) (seqKey 256) = Lt.
Proof. apply (seqKey_order 255 256); vm_compute; reflexivity. Defined.

(** Two agents, one refused write. *)
Definition ex_writes : list store_op :=
  [("agent-a"%string, mkEvent 1 "x" (RJson (JBool true)), Some 4);
   ("agent-b"%string, mkEvent 1 "y" RNil, None);
   ("agent-a"%string, mkEvent 1 "z" (RJson JNull), None);
   ("agent-a"%string, mkEvent 2 "z" (RJson JNull), Some 3)].

Lemma bolt_store_refines_witness :
  let '(db, a) := store_run mem_empty (λ _, ([], 0)) ex_writes in
  bolt_Replay db "agent-a" 1 = Ok [mkEvent 2 "z" (RJson JNull)] ∧
  (a "agent-a"%string).2 = 4 ∧ abs_agrees db a.
Proof.
  destruct (store_run mem_empty (λ _, ([], 0)) ex_writes) as [db a] eqn:E.
  destruct (bolt_store_refines mem_empty (λ _, ([], 0)) ex_writes db a) as [Hag _].
  - split; [by apply empty_store_inv|]. intros id _. vm_compute. reflexivity.
  - repeat constructor; vm_compute; congruence.
  - intros id. vm_compute. reflexivity.
  - exact E.
  - split; [|split; [|exact Hag]]; vm_compute in E; injection E as <- <-;
      vm_compute; reflexivity.
Defined.
