(* ===== verification/EventHub.v ===== *)
(** * The event hub (src/controller/events.go)

    One hub per agent assigns the sequence numbers, writes to the store before
    anything else sees the event, and fans out to live subscribers through
    bounded channels.  The store is the state [s] the operations pass along; its
    theorems use only the interface [EventStoreLaws]. *)

From Stdlib Require Import String ZArith.
From S2P Require Import Prelude Json Bolt EventStore.
From stdpp Require Import base list strings numbers sorting gmap.
Local Open Scope N_scope.

(** A subscriber's channel is the queue of events sent and not yet received. *)
Record EventHub : Type := mkHub {
  h_agentID : string;
  h_nextSeq : N;
  h_origin : N;
  h_subscribers : gmap nat (list Event);
  h_nextSub : nat;
  h_closed : bool
}.

(** [make(chan *Event, 256)] *)
Definition chan_cap : nat := 256.

(** [eventTypeOf]: the [type] member of the record, empty when the record does
    not decode. *)
Definition eventTypeOf (raw : RawMessage) : string :=
  match unmarshal_struct raw with
  | None => ""
  | Some ms => let '(t, bad) := string_field "type" ms in if bad then "" else t
  end.

(** A send that would block is dropped. *)
Definition send (ev : Event) (ch : list Event) : list Event :=
  if (length ch <? chan_cap)%nat then ch ++ [ev] else ch.

Definition fanout (ev : Event) (h : EventHub) : EventHub :=
  mkHub (h_agentID h) (h_nextSeq h) (h_origin h)
    (send ev <$> h_subscribers h) (h_nextSub h) (h_closed h).

Definition set_seq (h : EventHub) (next origin : N) : EventHub :=
  mkHub (h_agentID h) next origin (h_subscribers h) (h_nextSub h) (h_closed h).

Definition Close (h : EventHub) : EventHub :=
  mkHub (h_agentID h) (h_nextSeq h) (h_origin h) (h_subscribers h) (h_nextSub h) true.

Definition Origin (h : EventHub) : N := h_origin h.

Section hub.
  Context {S : Type} `{EventStore S}.

Definition NewEventHub (s : S) (agentID : string) : res StoreErr EventHub :=
  match NextSeq s agentID with
  | Err e => Err e
  | Ok next =>
      match OriginWatermark s agentID with
      | Err e => Err e
      | Ok origin => Ok (mkHub agentID next origin ∅ 0 false)
      end
  end.

Definition PublishPulled (s : S) (h : EventHub) (raw : RawMessage) (spoolID : N)
    : res StoreErr N * S * EventHub :=
  if h_closed h then (Ok 0, s, h)
  else if spoolID <=? h_origin h then (Ok 0, s, h)
  else
    let ev := mkEvent (u64_succ (h_nextSeq h)) (eventTypeOf raw) raw in
    match AppendWithOrigin s (h_agentID h) ev spoolID with
    | (Some e, s') => (Err e, s', h)
    | (None, s') => (Ok (Seq ev), s', fanout ev (set_seq h (u64_succ (h_nextSeq h)) spoolID))
    end.

Definition Publish (s : S) (h : EventHub) (raw : RawMessage) : N * S * EventHub :=
  if h_closed h then (0, s, h)
  else
    let ev := mkEvent (u64_succ (h_nextSeq h)) (eventTypeOf raw) raw in
    match Append s (h_agentID h) ev with
    | (Some e, s') => (0, s', h)
    | (None, s') => (Seq ev, s', fanout ev (set_seq h (u64_succ (h_nextSeq h)) (h_origin h)))
    end.

Definition PublishLifecycle (s : S) (h : EventHub) (eventType : string) (fs : fields)
    : option Event * S * EventHub :=
  if h_closed h then (None, s, h)
  else
    let seq := u64_succ (h_nextSeq h) in
    let fs := fput "seq" (JInt (Z.of_N seq)) (fput "type" (JStr eventType) fs) in
    let ev := mkEvent seq eventType (RJson (JObj fs)) in
    match Append s (h_agentID h) ev with
    | (Some e, s') => (None, s', h)
    | (None, s') => (Some ev, s', fanout ev (set_seq h seq (h_origin h)))
    end.

(** [Subscribe] returns the replay and the key of the new channel; the closure
    it returns is [unsubscribe] of that key. *)
Definition Subscribe (s : S) (h : EventHub) (after : N)
    : res StoreErr (list Event * nat) * EventHub :=
  match Replay s (h_agentID h) after with
  | Err e => (Err e, h)
  | Ok replay =>
      (Ok (replay, h_nextSub h),
       mkHub (h_agentID h) (h_nextSeq h) (h_origin h)
         (<[h_nextSub h := []]> (h_subscribers h)) (h_nextSub h + 1) (h_closed h))
  end.

Definition unsubscribe (h : EventHub) (id : nat) : EventHub :=
  mkHub (h_agentID h) (h_nextSeq h) (h_origin h)
    (delete id (h_subscribers h)) (h_nextSub h) (h_closed h).

(** The consumer of a channel receives its oldest event. *)
Definition receive (h : EventHub) (id : nat) : option Event * EventHub :=
  match h_subscribers h !! id with
  | Some (ev :: ch) =>
      (Some ev, mkHub (h_agentID h) (h_nextSeq h) (h_origin h)
         (<[id := ch]> (h_subscribers h)) (h_nextSub h) (h_closed h))
  | _ => (None, h)
  end.

(** The loop of [filterEventsExcluding]; [n] is [len(out)] so far.  The sets
    [wanted] and [excluded] are the lists they are built from. *)
Fixpoint filter_loop (after : N) (limit : Z) (types exclude : list string) (n : Z)
    (buffer : list Event) : list Event :=
  match buffer with
  | [] => []
  | ev :: rest =>
      if (Seq ev <=? after) || bool_decide (Typ ev ∈ exclude) then
        filter_loop after limit types exclude n rest
      else if negb (bool_decide (types = [])) && negb (bool_decide (Typ ev ∈ types)) then
        filter_loop after limit types exclude n rest
      else if ((0 <? limit) && (n + 1 =? limit))%Z then [ev]
      else ev :: filter_loop after limit types exclude (n + 1) rest
  end.

Definition filterEventsExcluding (buffer : list Event) (after : N) (limit : Z)
    (types exclude : list string) : list Event :=
  filter_loop after limit types exclude 0 buffer.

Definition filterEvents (buffer : list Event) (after : N) (limit : Z) (types : list string)
    : list Event :=
  filterEventsExcluding buffer after limit types [].

(** A [ReadResult]: [Truncated] is always false, so the batch or the error. *)
Definition ReadFiltered (s : S) (h : EventHub) (after : N) (limit : Z)
    (types exclude : list string) : res StoreErr (list Event) :=
  match Replay s (h_agentID h) after with
  | Err e => Err e
  | Ok all => Ok (filterEventsExcluding all after limit types exclude)
  end.

Definition Read (s : S) (h : EventHub) (after : N) (limit : Z) (types : list string)
    : res StoreErr (list Event) :=
  ReadFiltered s h after limit types [].

(** [evs[len(evs)-n:]] panics for a negative [n]. *)
Definition ReadLast (s : S) (h : EventHub) (n : Z) (types : list string)
    : res StoreErr (list Event) :=
  match Replay s (h_agentID h) 0 with
  | Err e => Err e
  | Ok all =>
      let evs := filterEvents all 0 0 types in
      if (n <? Z.of_nat (length evs))%Z then
        if (n <? 0)%Z then Err EPanic
        else Ok (drop (length evs - Z.to_nat n) evs)
      else Ok evs
  end.

Definition SubscribeSnapshot (s : S) (h : EventHub) : res StoreErr (list Event) :=
  Replay s (h_agentID h) 0.

(** ** Operation sequences *)

(** One call on the hub; [OpRestart] is the controller dying and a new process
    opening the hub of the same agent, [OpRecv] a subscriber taking an event.
    Every call happens under the hub's lock, so a history is a list of calls. *)
Inductive hub_op : Type :=
| OpPublish (raw : RawMessage)
| OpPulled (raw : RawMessage) (spoolID : N)
| OpLifecycle (eventType : string) (fs : fields)
| OpSubscribe (after : N)
| OpUnsubscribe (id : nat)
| OpRecv (id : nat)
| OpClose
| OpRestart.

Definition hub_step (st : S * EventHub) (op : hub_op) : S * EventHub :=
  let '(s, h) := st in
  match op with
  | OpPublish raw => let '(_, s', h') := Publish s h raw in (s', h')
  | OpPulled raw id => let '(_, s', h') := PublishPulled s h raw id in (s', h')
  | OpLifecycle t fs => let '(_, s', h') := PublishLifecycle s h t fs in (s', h')
  | OpSubscribe after => (s, (Subscribe s h after).2)
  | OpUnsubscribe id => (s, unsubscribe h id)
  | OpRecv id => (s, (receive h id).2)
  | OpClose => (s, Close h)
  | OpRestart =>
      match NewEventHub s (h_agentID h) with Ok h' => (s, h') | Err _ => (s, h) end
  end.

Definition hub_run (st : S * EventHub) (ops : list hub_op) : S * EventHub :=
  fold_left hub_step ops st.

End hub.

(** ** The hub and the store stay in step *)

Section hub_laws.
  Context {S : Type} `{EventStoreLaws S}.

Definition log_of (s : S) (h : EventHub) : list Event := (es_abs s (h_agentID h)).1.

(** The hub's counters are the ones the store would recover. *)
Definition hub_sync (s : S) (h : EventHub) : Prop :=
  es_inv s ∧ es_valid (h_agentID h) ∧ h_nextSeq h = log_len (log_of s h) ∧
  h_origin h = (es_abs s (h_agentID h)).2.

Definition op_ok (op : hub_op) : Prop :=
  match op with OpPulled _ id => id < u64_bound | _ => True end.

(** The event a publisher makes for a given sequence number. *)
Definition record_event (raw : RawMessage) (n : N) : Event := mkEvent n (eventTypeOf raw) raw.

Definition lifecycle_event (t : string) (fs : fields) (n : N) : Event :=
  mkEvent n t (RJson (JObj (fput "seq" (JInt (Z.of_N n)) (fput "type" (JStr t) fs)))).

(** A publish either leaves everything alone or stores one event, and sends
    exactly that event to every channel. *)
Definition pub_effect (mk : N → Event) (s : S) (h : EventHub) (s' : S) (h' : EventHub) : Prop :=
  (es_inv s' ∧ es_abs s' = es_abs s ∧ h' = h) ∨
  (∃ ev ev' o, ev = mk (log_len (log_of s h) + 1) ∧ stored ev = Some ev' ∧ Seq ev = log_len (log_of s h) + 1 ∧ es_inv s' ∧
     h_closed h = false ∧
     (∀ id, es_valid id → es_abs s' id = abs_append (es_abs s) (h_agentID h) ev' o id) ∧
     h' = fanout ev (set_seq h (Seq ev) o)).

Definition room (s : S) (h : EventHub) : Prop := log_len (log_of s h) + 1 < u64_bound.

(** What [PublishPulled] does on each branch. *)
Lemma PublishPulled_spec s h raw id r s' h' :
  hub_sync s h → room s h → id < u64_bound →
  PublishPulled s h raw id = (r, s', h') →
  (h_closed h = true ∧ r = Ok 0 ∧ s' = s ∧ h' = h) ∨
  (h_closed h = false ∧ id ≤ h_origin h ∧ r = Ok 0 ∧ s' = s ∧ h' = h) ∨
  (h_closed h = false ∧ h_origin h < id ∧ is_ok r = false ∧ h' = h ∧
     es_inv s' ∧ es_abs s' = es_abs s) ∨
  (∃ ev ev', h_closed h = false ∧ h_origin h < id ∧
     ev = mkEvent (log_len (log_of s h) + 1) (eventTypeOf raw) raw ∧
     r = Ok (Seq ev) ∧ stored ev = Some ev' ∧ es_inv s' ∧
     (∀ i, es_valid i → es_abs s' i = abs_append (es_abs s) (h_agentID h) ev' id i) ∧
     h' = fanout ev (set_seq h (Seq ev) id)).
Proof.
  intros (Hinv & Hv & Hn & Ho) Hroom Hid. unfold PublishPulled.
  destruct (h_closed h); [intros [= <- <- <-]; eauto|].
  destruct (N.leb_spec id (h_origin h)); [intros [= <- <- <-]; right; left; done|].
  rewrite Hn, u64_succ_small by done.
  destruct (AppendWithOrigin _ _ _ _) as [[e|] s1] eqn:E; intros [= <- <- <-].
  - apply es_append_origin_err in E as [? ?]; [|done]. right; right; left. done.
  - apply es_append_origin in E as (ev' & Hst & _ & Hinv' & Habs); [|done..].
    right; right; right. eexists _, ev'. split_and!; try done. intros i Hi.
    rewrite (Habs i Hi), N.max_r by lia. done.
Qed.

Lemma PublishPulled_effect s h raw id r s' h' :
  hub_sync s h → room s h → id < u64_bound →
  PublishPulled s h raw id = (r, s', h') → pub_effect (record_event raw) s h s' h'.
Proof.
  intros Hs Hr Hid Hp. pose proof (proj1 Hs).
  destruct (PublishPulled_spec _ _ _ _ _ _ _ Hs Hr Hid Hp)
    as [(?&?&->&->)|[(?&?&?&->&->)|[(?&?&?&->&?&?)|(ev&ev'&?&?&->&?&?&?&?&->)]]];
    [left; auto..|right]. eexists _, ev', id. done.
Qed.

Lemma append_effect mk s h ev s' :
  hub_sync s h → room s h → h_closed h = false →
  ev = mk (log_len (log_of s h) + 1) → Seq ev = log_len (log_of s h) + 1 →
  Append s (h_agentID h) ev = (None, s') →
  pub_effect mk s h s' (fanout ev (set_seq h (Seq ev) (h_origin h))).
Proof.
  intros (Hinv & Hv & Hn & Ho) Hroom Hc Hmk Hseq E.
  apply es_append in E as (ev' & Hst & _ & Hinv' & Habs); [|done..].
  right. exists ev, ev', (h_origin h). rewrite Ho. done.
Qed.

Lemma Publish_effect s h raw n s' h' :
  hub_sync s h → room s h → Publish s h raw = (n, s', h') → pub_effect (record_event raw) s h s' h'.
Proof.
  intros Hs Hroom. pose proof Hs as (Hinv & Hv & Hn & Ho). unfold Publish.
  destruct (h_closed h) eqn:Hc; [intros [= <- <- <-]; left; auto|].
  rewrite Hn, u64_succ_small by done.
  destruct (Append _ _ _) as [[e|] s1] eqn:E; intros [= <- <- <-].
  - apply es_append_err in E as [? ?]; [|done]. left. auto.
  - by eapply append_effect in E.
Qed.

Lemma PublishLifecycle_effect s h t fs r s' h' :
  hub_sync s h → room s h → PublishLifecycle s h t fs = (r, s', h') →
  pub_effect (lifecycle_event t fs) s h s' h'.
Proof.
  intros Hs Hroom. pose proof Hs as (Hinv & Hv & Hn & Ho). unfold PublishLifecycle.
  destruct (h_closed h) eqn:Hc; [intros [= <- <- <-]; left; auto|].
  rewrite Hn, u64_succ_small by done.
  destruct (Append _ _ _) as [[e|] s1] eqn:E; intros [= <- <- <-].
  - apply es_append_err in E as [? ?]; [|done]. left. auto.
  - by eapply append_effect in E.
Qed.

Lemma pub_effect_sync mk s h s' h' :
  hub_sync s h → pub_effect mk s h s' h' → hub_sync s' h' ∧ h_agentID h' = h_agentID h.
Proof.
  intros (Hinv & Hv & Hn & Ho) [(Hi & Ha & ->)|(ev & ev' & o & Hmk & Hst & Hseq & Hi & _ & Habs & ->)].
  - unfold hub_sync, log_of. by rewrite Ha.
  - split; [|done]. unfold hub_sync, log_of. simpl. rewrite (Habs _ Hv).
    unfold abs_append. rewrite decide_True by done. split_and!; [done..| |done].
    cbn [fst]. rewrite Hseq. unfold log_len, log_of. rewrite length_app. simpl. lia.
Qed.

Lemma pub_effect_log mk s h s' h' :
  hub_sync s h → pub_effect mk s h s' h' →
  log_of s' h' = log_of s h ∨
  ∃ ev ev', ev = mk (log_len (log_of s h) + 1) ∧ stored ev = Some ev' ∧ log_of s' h' = log_of s h ++ [ev'] ∧
    Seq ev = log_len (log_of s h) + 1 ∧ h_subscribers h' = send ev <$> h_subscribers h.
Proof.
  intros (Hinv & Hv & Hn & Ho) [(Hi & Ha & ->)|(ev & ev' & o & Hmk & Hst & Hseq & Hi & _ & Habs & ->)].
  - left. unfold log_of. by rewrite Ha.
  - right. exists ev, ev'. split_and!; try done. unfold log_of. simpl.
    rewrite (Habs _ Hv). unfold abs_append. by rewrite decide_True.
Qed.

(** A hub opened on a store that has the agent's log is in step with it. *)
Lemma NewEventHub_sync s id h :
  es_inv s → es_valid id → NewEventHub s id = Ok h → hub_sync s h ∧ h_agentID h = id.
Proof.
  intros Hinv Hv. unfold NewEventHub.
  destruct (NextSeq s id) eqn:E1; [|done]. destruct (OriginWatermark s id) eqn:E2; [|done].
  intros [= <-]. apply es_nextseq in E1; [|done..]. apply es_watermark in E2; [|done..].
  done.
Qed.

(** One call keeps hub and store in step, and the log only grows at its end. *)
Lemma hub_step_sync s h op s' h' :
  hub_sync s h → room s h → op_ok op → hub_step (s, h) op = (s', h') →
  hub_sync s' h' ∧ h_agentID h' = h_agentID h ∧
  ∃ evs, log_of s' h' = log_of s h ++ evs ∧ (length evs ≤ 1)%nat.
Proof.
  intros Hs Hr Hop.
  assert (Hpub : ∀ mk, pub_effect mk s h s' h' →
    hub_sync s' h' ∧ h_agentID h' = h_agentID h ∧
    ∃ evs, log_of s' h' = log_of s h ++ evs ∧ (length evs ≤ 1)%nat).
  { intros mk Hp. destruct (pub_effect_sync _ _ _ _ _ Hs Hp) as [Hs' Hid].
    split_and!; [done..|].
    destruct (pub_effect_log _ _ _ _ _ Hs Hp) as [->|(ev & ev' & _ & _ & -> & _)];
      [exists []; rewrite app_nil_r; simpl; auto with lia|exists [ev']; simpl; eauto]. }
  assert (Hsame : ∀ h1, h_agentID h1 = h_agentID h → h_nextSeq h1 = h_nextSeq h →
    h_origin h1 = h_origin h → hub_sync s h1 ∧ h_agentID h1 = h_agentID h ∧
    ∃ evs, log_of s h1 = log_of s h ++ evs ∧ (length evs ≤ 1)%nat).
  { intros h1 Hi Hn Ho. unfold hub_sync, log_of in *. rewrite Hi, Hn, Ho. split_and!; try tauto.
    exists []. rewrite app_nil_r. simpl. split; [done|lia]. }
  destruct op as [raw|raw id|t fs|after|id|id| |]; simpl.
  - destruct (Publish s h raw) as [[n s1] h1] eqn:E. intros [= <- <-].
    by eapply Hpub, (Publish_effect _ _ _ _ _ _ Hs Hr E).
  - destruct (PublishPulled s h raw id) as [[n s1] h1] eqn:E. intros [= <- <-].
    by eapply Hpub, (PublishPulled_effect _ _ _ _ _ _ _ Hs Hr Hop E).
  - destruct (PublishLifecycle s h t fs) as [[n s1] h1] eqn:E. intros [= <- <-].
    by eapply Hpub, (PublishLifecycle_effect _ _ _ _ _ _ _ Hs Hr E).
  - intros [= <- <-]. unfold Subscribe. by destruct (Replay _ _ _); apply Hsame.
  - intros [= <- <-]. by apply Hsame.
  - intros [= <- <-]. unfold receive. by destruct (h_subscribers h !! id) as [[|]|]; apply Hsame.
  - intros [= <- <-]. by apply Hsame.
  - destruct (NewEventHub s (h_agentID h)) as [h1|] eqn:E; intros [= <- <-]; [|by apply Hsame].
    destruct Hs as (Hinv & Hv & Hn & Ho).
    destruct (NewEventHub_sync _ _ _ Hinv Hv E) as [Hs' Hid].
    destruct Hs' as (_ & _ & Hn' & Ho'). apply Hsame; [done..| |].
    + rewrite Hn, Hn'. unfold log_of. by rewrite Hid.
    + rewrite Ho, Ho', Hid. done.
Qed.

Lemma hub_run_log s h ops :
  hub_sync s h → Forall op_ok ops →
  log_len (log_of s h) + N.of_nat (length ops) < u64_bound →
  let '(s', h') := hub_run (s, h) ops in
  hub_sync s' h' ∧ h_agentID h' = h_agentID h ∧
  ∃ evs, log_of s' h' = log_of s h ++ evs ∧ (length evs ≤ length ops)%nat.
Proof.
  revert s h. induction ops as [|op ops IH]; intros s h Hs Hops Hroom.
  { split_and!; [done..|]. exists []. by rewrite app_nil_r. }
  change (hub_run (s, h) (op :: ops)) with (hub_run (hub_step (s, h) op) ops).
  inversion Hops as [|? ? Hop Hops']; subst. simpl in Hroom.
  destruct (hub_step (s, h) op) as [s1 h1] eqn:E.
  destruct (hub_step_sync _ _ _ _ _ Hs ltac:(unfold room; lia) Hop E) as (Hs1 & Hid & evs & Hl & Hlen).
  specialize (IH s1 h1 Hs1 Hops'). destruct (hub_run (s1, h1) ops) as [s2 h2].
  destruct IH as (Hs2 & Hid2 & evs2 & Hl2 & Hlen2).
  { rewrite Hl. unfold log_len in *. rewrite length_app. lia. }
  split_and!; [done|congruence|]. exists (evs ++ evs2). rewrite Hl2, Hl, app_assoc.
  split; [done|]. rewrite length_app. simpl. lia.
Qed.

(** ** Live subscribers *)

(** Run a history and watch channel [k]: what its consumer received, and
    whether the channel had room before every call. *)
Fixpoint observe (k : nat) (st : S * EventHub) (ops : list hub_op)
    : list Event * bool * (S * EventHub) :=
  match ops with
  | [] => ([], true, st)
  | op :: rest =>
      let got := match op with
                 | OpRecv id => if decide (id = k) then option_list (receive st.2 id).1 else []
                 | _ => []
                 end in
      let free := match h_subscribers st.2 !! k with
                  | Some ch => (length ch <? chan_cap)%nat
                  | None => false
                  end in
      let '(recv, ok, st') := observe k (hub_step st op) rest in
      (got ++ recv, free && ok, st')
  end.

Definition keeps_channel (k : nat) (op : hub_op) : Prop :=
  match op with
  | OpUnsubscribe id => id ≠ k
  | OpRestart => False
  | _ => True
  end.

(** [k] is a channel of the hub and no later [Subscribe] can reuse its key. *)
Definition channel (h : EventHub) (k : nat) (ch : list Event) : Prop :=
  h_subscribers h !! k = Some ch ∧ (k < h_nextSub h)%nat.

Lemma pub_effect_channel mk s h s' h' k ch :
  hub_sync s h → pub_effect mk s h s' h' → channel h k ch → (length ch < chan_cap)%nat →
  ∃ evs, channel h' k (ch ++ evs) ∧ log_of s' h' = log_of s h ++ omap stored evs.
Proof.
  intros Hs Hp [Hk Hn] Hlen.
  destruct Hp as [(Hi & Ha & ->)|(ev & ev' & o & Hmk & Hst & Hseq & Hi & _ & Habs & ->)].
  { exists []. unfold channel, log_of. by rewrite Ha, !app_nil_r. }
  exists [ev]. split.
  - split; [|done]. simpl. rewrite lookup_fmap, Hk. simpl. unfold send.
    by rewrite (proj2 (Nat.ltb_lt _ _) Hlen).
  - unfold log_of. simpl. rewrite (Habs _ (proj1 (proj2 Hs))), Hst.
    unfold abs_append. by rewrite decide_True.
Qed.

(** One call on a hub whose channel [k] has room: what the channel's consumer
    takes plus what stays queued is the old queue plus what the log gained. *)
Lemma hub_step_channel s h op k ch :
  hub_sync s h → room s h → op_ok op → keeps_channel k op →
  channel h k ch → (length ch < chan_cap)%nat →
  let '(s', h') := hub_step (s, h) op in
  ∃ got ch' evs,
    match op with
    | OpRecv id => if decide (id = k) then option_list (receive h id).1 else []
    | _ => []
    end = got ∧
    channel h' k ch' ∧ got ++ ch' = ch ++ evs ∧
    log_of s' h' = log_of s h ++ omap stored evs.
Proof.
  intros Hs Hr Hop Hkeep Hch Hlen.
  assert (Hpub : ∀ mk s' h', pub_effect mk s h s' h' → ∃ got ch' evs, [] = got ∧ channel h' k ch' ∧
    got ++ ch' = ch ++ evs ∧ log_of s' h' = log_of s h ++ omap stored evs).
  { intros mk s' h' Hp. destruct (pub_effect_channel _ _ _ _ _ _ _ Hs Hp Hch Hlen) as (evs & ? & ?).
    by exists [], (ch ++ evs), evs. }
  destruct op as [raw|raw id|t fs|after|id|id| |]; simpl in *.
  - destruct (Publish s h raw) as [[n s1] h1] eqn:E.
    by eapply Hpub, (Publish_effect _ _ _ _ _ _ Hs Hr E).
  - destruct (PublishPulled s h raw id) as [[n s1] h1] eqn:E.
    by eapply Hpub, (PublishPulled_effect _ _ _ _ _ _ _ Hs Hr Hop E).
  - destruct (PublishLifecycle s h t fs) as [[n s1] h1] eqn:E.
    by eapply Hpub, (PublishLifecycle_effect _ _ _ _ _ _ _ Hs Hr E).
  - exists [], ch, []. rewrite !app_nil_r. unfold Subscribe. destruct Hch as [Hk Hn].
    destruct (Replay _ _ _); split_and!; try done. split; simpl; [|lia].
    by rewrite lookup_insert_ne by lia.
  - exists [], ch, []. rewrite !app_nil_r. split_and!; try done. destruct Hch as [Hk Hn].
    split; simpl; [|done]. by rewrite lookup_delete_ne.
  - destruct Hch as [Hk Hn]. unfold receive. case_decide as Hd.
    + subst. rewrite Hk. destruct ch as [|ev ch]; simpl.
      * exists [], [], []. by rewrite !app_nil_r.
      * exists [ev], ch, []. rewrite !app_nil_r. split_and!; try done.
        split; simpl; [by rewrite lookup_insert_eq|done].
    + exists [], ch, []. rewrite !app_nil_r.
      destruct (h_subscribers h !! id) as [[|ev ch']|]; split_and!; try done.
      split; simpl; [by rewrite lookup_insert_ne|done].
  - exists [], ch, []. rewrite !app_nil_r. by split_and!.
  - done.
Qed.

Lemma observe_channel k ops s h ch recv s' h' :
  hub_sync s h → Forall op_ok ops → Forall (keeps_channel k) ops →
  log_len (log_of s h) + N.of_nat (length ops) < u64_bound →
  channel h k ch → observe k (s, h) ops = (recv, true, (s', h')) →
  hub_sync s' h' ∧ ∃ pending evs, channel h' k pending ∧ recv ++ pending = ch ++ evs ∧
    log_of s' h' = log_of s h ++ omap stored evs.
Proof.
  revert s h ch recv. induction ops as [|op ops IH];
    intros s h ch recv Hs Hok Hkeep Hroom Hch; cbn [observe].
  { intros [= <- <- <-]. split; [done|]. exists ch, []. by rewrite !app_nil_r. }
  inversion Hok as [|? ? Hok1 Hok2]; inversion Hkeep as [|? ? Hk1 Hk2]; subst.
  cbn [length] in Hroom. cbn [snd]. rewrite (proj1 Hch).
  destruct (hub_step (s, h) op) as [s1 h1] eqn:E.
  destruct (observe k (s1, h1) ops) as [[recv1 ok1] st1] eqn:Eo.
  intros [= Hrecv Hfree ->]. apply andb_true_iff in Hfree as [Hfree ->].
  apply Nat.ltb_lt in Hfree.
  assert (Hr : room s h) by (unfold room; lia).
  pose proof (hub_step_channel _ _ _ _ _ Hs Hr Hok1 Hk1 Hch Hfree) as Hstep.
  rewrite E in Hstep. destruct Hstep as (got & ch' & evs & Hgot & Hch' & Heq & Hlog).
  rewrite Hgot in Hrecv.
  destruct (hub_step_sync _ _ _ _ _ Hs Hr Hok1 E) as (Hs1 & _ & evs0 & Hl & Hlen).
  destruct (IH s1 h1 ch' recv1 Hs1 Hok2 Hk2) as (Hs' & pend & evs' & Hc & He & Hl'); [|done..|].
  { rewrite Hl. unfold log_len in *. rewrite length_app. lia. }
  split; [done|]. exists pend, (evs ++ evs'). split_and!; [done| |].
  - by rewrite <-Hrecv, <-app_assoc, He, app_assoc, Heq, app_assoc.
  - by rewrite Hl', Hlog, omap_app, app_assoc.
Qed.

(** A subscription misses nothing and repeats nothing.  A client attaches
    with a cursor that is at most the tail; whatever calls are interleaved
    afterwards, as long as its channel has room before each call, the replay
    followed by what it received and what is still queued is exactly the part of
    the log beyond the cursor, in order. *)
Theorem subscribe_no_gap s h after replay k h1 ops recv s' h' :
  hub_sync s h → after ≤ log_len (log_of s h) →
  Subscribe s h after = (Ok (replay, k), h1) →
  Forall op_ok ops → Forall (keeps_channel k) ops →
  log_len (log_of s h) + N.of_nat (length ops) < u64_bound →
  observe k (s, h1) ops = (recv, true, (s', h')) →
  ∃ pending, h_subscribers h' !! k = Some pending ∧
    replay ++ omap stored (recv ++ pending) = filter (λ ev, after < Seq ev) (log_of s' h').
Proof.
  intros Hs Hafter Hsub Hok Hkeep Hroom Hobs. unfold Subscribe in Hsub.
  destruct (Replay s (h_agentID h) after) as [l|] eqn:Er; [|done].
  injection Hsub as <- <- Hh1.
  apply es_replay in Er; [|apply Hs..]. subst l.
  assert (Hch : channel h1 (h_nextSub h) []).
  { subst h1. split; simpl; [by rewrite lookup_insert_eq|lia]. }
  assert (Hlog1 : log_of s h1 = log_of s h) by by subst h1.
  assert (Hs1 : hub_sync s h1) by by subst h1. rewrite <-Hlog1 in Hroom.
  destruct (observe_channel _ _ s _ _ _ _ _ Hs1 Hok Hkeep Hroom Hch Hobs)
    as (Hs' & pend & evs & [Hk _] & Heq & Hlog).
  exists pend. split; [done|]. rewrite Heq, Hlog, Hlog1, filter_app. f_equal. symmetry.
  apply filter_id. rewrite Forall_forall. intros ev Hin.
  pose proof (proj1 (es_log_wf _ _ (proj1 Hs') (proj1 (proj2 Hs')))) as Hgf.
  fold (log_of s' h') in Hgf. rewrite Hlog, Hlog1 in Hgf.
  pose proof (gap_free_suffix _ _ _ Hgf Hin). lia.
Qed.

(** ** Cursor reads *)

Definition selects (types exclude : list string) (ev : Event) : Prop :=
  Typ ev ∉ exclude ∧ (types = [] ∨ Typ ev ∈ types).

#[global] Instance selects_dec types exclude ev : Decision (selects types exclude ev).
Proof. unfold selects. apply _. Defined.

(** The loop keeps the first [limit] matching events, or all for a limit that
    is not positive. *)
Lemma filter_loop_spec after limit types exclude n buffer :
  (0 ≤ n)%Z → (limit ≤ 0 ∨ n < limit)%Z →
  filter_loop after limit types exclude n buffer =
    let l := filter (λ ev, after < Seq ev ∧ selects types exclude ev) buffer in
    if (0 <? limit)%Z then take (Z.to_nat (limit - n)) l else l.
Proof.
  revert n. induction buffer as [|ev buffer IH]; intros n Hn Hlim.
  { cbn. by destruct (0 <? limit)%Z; rewrite ?take_nil. }
  cbn [filter_loop]. cbv zeta. rewrite filter_cons.
  destruct (N.leb_spec (Seq ev) after) as [Hle|Hlt]; cbn [orb].
  { rewrite decide_False by (intros [? _]; lia). by apply IH. }
  case_bool_decide as Hex.
  { rewrite decide_False by (intros (_ & ? & _); done). by apply IH. }
  destruct (negb (bool_decide (types = [])) && negb (bool_decide (Typ ev ∈ types))) eqn:Ew.
  { apply andb_true_iff in Ew as [H1%negb_true_iff%bool_decide_eq_false_1
      H2%negb_true_iff%bool_decide_eq_false_1].
    rewrite decide_False by (intros (_ & _ & [?|?]); done). by apply IH. }
  rewrite decide_True; cycle 1.
  { split; [done|]. split; [done|]. apply andb_false_iff in Ew as [E|E];
      apply negb_false_iff, bool_decide_eq_true_1 in E; auto. }
  destruct (Z.ltb_spec 0 limit) as [Hpos|Hneg]; cbn [andb].
  - destruct (Z.eqb_spec (n + 1) limit) as [He|He].
    + by replace (Z.to_nat (limit - n)) with 1%nat by lia.
    + rewrite IH by lia. cbv zeta.
      by replace (Z.to_nat (limit - n)) with (Datatypes.S (Z.to_nat (limit - (n + 1)))) by lia.
  - by rewrite IH by lia.
Qed.

(** The cursor a client carries on with: the sequence number of the last event
    it was given. *)
Definition next_cursor (after : N) (batch : list Event) : N :=
  match last batch with Some ev => Seq ev | None => after end.

(** A batch is the matching events between the old and the new cursor. *)
Lemma batch_between (l : list Event) after (P : Event → Prop) `{∀ ev, Decision (P ev)} b rest :
  gap_free l →
  filter (λ ev, after < Seq ev ∧ P ev) l = b ++ rest →
  b = filter (λ ev, after < Seq ev ∧ Seq ev ≤ next_cursor after b ∧ P ev) l ∧
  after ≤ next_cursor after b ∧ (next_cursor after b = after ∨ next_cursor after b ≤ log_len l).
Proof.
  intros Hg Hf. set (c := next_cursor after b).
  pose proof (StronglySorted_filter _ (λ ev, after < Seq ev ∧ P ev) _ (gap_free_sorted _ Hg)) as Hs.
  rewrite Hf in Hs.
  assert (Hin : ∀ ev, ev ∈ b ++ rest → after < Seq ev ∧ ev ∈ l).
  { intros ev. rewrite <-Hf. intros [[? _] ?]%list_elem_of_filter. done. }
  assert (Heq : filter (λ ev, after < Seq ev ∧ Seq ev ≤ c ∧ P ev) l
                = filter (λ ev, Seq ev ≤ c) (b ++ rest)).
  { rewrite <-Hf, list_filter_filter. apply list_filter_iff. naive_solver. }
  destruct b as [|e b0 _] using rev_ind.
  { subst c. cbn in *. rewrite Heq. split; [|lia]. symmetry. apply filter_none.
    rewrite Forall_forall. intros ev Hev. destruct (Hin ev Hev). lia. }
  assert (Hc : c = Seq e) by (unfold c, next_cursor; by rewrite last_snoc).
  destruct (Hin e) as [Ha He]; [set_solver|]. pose proof (gap_free_elem _ _ Hg He).
  split; [|rewrite Hc; lia]. rewrite Heq, filter_app. symmetry.
  rewrite (filter_none _ rest), (filter_id _ (b0 ++ [e])), app_nil_r; [done|..].
  - rewrite Forall_forall. intros x [Hx| ->%list_elem_of_singleton]%elem_of_app; [|lia].
    apply StronglySorted_app_1_l in Hs.
    pose proof (StronglySorted_app_1_elem_of _ _ _ x e Hs Hx ltac:(set_solver)). simpl in *. lia.
  - rewrite Forall_forall. intros x Hx.
    pose proof (StronglySorted_app_1_elem_of _ _ _ e x Hs ltac:(set_solver) Hx). simpl in *. lia.
Qed.

Lemma ReadFiltered_prefix s h after limit types exclude b :
  es_inv s → es_valid (h_agentID h) →
  ReadFiltered s h after limit types exclude = Ok b →
  ∃ rest, filter (λ ev, after < Seq ev ∧ selects types exclude ev) (log_of s h) = b ++ rest ∧
    ((0 < limit)%Z → b = [] → rest = []) ∧ ((limit ≤ 0)%Z → rest = []).
Proof.
  intros Hinv Hv. unfold ReadFiltered.
  destruct (Replay s (h_agentID h) after) as [all|] eqn:Er; [|done]. intros [= <-].
  apply es_replay in Er; [|done..]. subst all. unfold filterEventsExcluding.
  rewrite filter_loop_spec by lia. cbv zeta. rewrite list_filter_filter. fold (log_of s h).
  rewrite (list_filter_iff (λ x, (after < Seq x ∧ selects types exclude x) ∧ after < Seq x)
    (λ ev, after < Seq ev ∧ selects types exclude ev)) by naive_solver.
  set (f := filter _ _). rewrite Z.sub_0_r.
  destruct (Z.ltb_spec 0 limit) as [Hl|Hl].
  - exists (drop (Z.to_nat limit) f). rewrite take_drop. split_and!; [done| |lia].
    intros _ Hnil. assert (Z.to_nat limit ≠ 0%nat) by lia.
    destruct f as [|e f]; [by rewrite drop_nil|]. by destruct (Z.to_nat limit).
  - exists []. by rewrite app_nil_r.
Qed.

(** A client polling with a cursor against a store other goroutines append to:
    [ss] are the store states at its successive polls; a failed poll is
    repeated with the same cursor. *)
Fixpoint polls (h : EventHub) (limit : Z) (types exclude : list string) (after : N)
    (ss : list S) : list Event * N :=
  match ss with
  | [] => ([], after)
  | s :: ss' =>
      match ReadFiltered s h after limit types exclude with
      | Err _ => polls h limit types exclude after ss'
      | Ok b =>
          let '(r, c) := polls h limit types exclude (next_cursor after b) ss' in
          (b ++ r, c)
      end
  end.

(** Each store's log is a prefix of the next one's and of [final]. *)
Fixpoint grows (h : EventHub) (ss : list S) (final : list Event) : Prop :=
  match ss with
  | [] => True
  | s :: ss' => (∃ ext, final = log_of s h ++ ext) ∧ es_inv s ∧ grows h ss' final
  end.

Lemma filter_split_cursor (l : list Event) (P : Event → Prop) `{∀ ev, Decision (P ev)} a c c' :
  gap_free l → a ≤ c ≤ c' →
  filter (λ ev, a < Seq ev ∧ Seq ev ≤ c' ∧ P ev) l =
    filter (λ ev, a < Seq ev ∧ Seq ev ≤ c ∧ P ev) l ++
    filter (λ ev, c < Seq ev ∧ Seq ev ≤ c' ∧ P ev) l.
Proof.
  intros Hg Hc. pose proof (gap_free_sorted l Hg) as Hs. clear Hg.
  induction Hs as [|x l Hs IH Hx]; [done|]. rewrite !filter_cons, IH.
  rewrite Forall_forall in Hx.
  destruct (N.le_gt_cases (Seq x) c) as [Hxc|Hxc].
  - rewrite (decide_False (P := c < Seq x ∧ _)) by (intros [? _]; lia).
    destruct (decide (a < Seq x ∧ Seq x ≤ c ∧ P x)) as [D|D].
    + by rewrite decide_True by (destruct D as (? & ? & ?); split_and!; [done|lia|done]).
    + rewrite decide_False; [done|]. intros (? & ? & ?). by destruct D.
  - rewrite (decide_False (P := a < Seq x ∧ Seq x ≤ c ∧ _)) by (intros (_ & ? & _); lia).
    rewrite (filter_none (λ ev, a < Seq ev ∧ Seq ev ≤ c ∧ P ev)); cycle 1.
    { rewrite Forall_forall. intros y Hy ?. specialize (Hx y Hy). simpl in Hx. lia. }
    destruct (decide (c < Seq x ∧ Seq x ≤ c' ∧ P x)) as [D|D].
    + by rewrite decide_True by (destruct D as (? & ? & ?); split_and!; [lia|done|done]).
    + rewrite decide_False; [done|]. intros (? & ? & ?). by destruct D.
Qed.

(** Cursor reads tile the log.  A client that polls with the sequence
    number of the last event it saw, while the log grows between polls and some
    polls fail, has received exactly the matching events between its first and
    its last cursor, each once and in order. *)
Theorem polls_tile h limit types exclude after ss final evs cursor :
  es_valid (h_agentID h) → gap_free final → grows h ss final →
  polls h limit types exclude after ss = (evs, cursor) →
  after ≤ cursor ∧
  evs = filter (λ ev, after < Seq ev ∧ Seq ev ≤ cursor ∧ selects types exclude ev) final.
Proof.
  intros Hv Hg. revert after evs cursor.
  induction ss as [|s ss IH]; intros after evs cursor; cbn [polls grows].
  { intros _ [= <- <-]. split; [done|]. symmetry. apply filter_none.
    rewrite Forall_forall. intros. lia. }
  intros ((ext & Hext) & Hinv & Hgrow).
  destruct (ReadFiltered s h after limit types exclude) as [b|] eqn:Er; [|by apply IH].
  destruct (polls _ _ _ _ _ ss) as [r c] eqn:Ep. intros [= <- <-].
  destruct (IH _ _ _ Hgrow Ep) as [Hc ->].
  destruct (ReadFiltered_prefix _ _ _ _ _ _ _ Hinv Hv Er) as (rest & Hf & _).
  assert (Hgs : gap_free (log_of s h)) by (rewrite Hext in Hg; by apply gap_free_app_l in Hg).
  destruct (batch_between _ _ _ _ _ Hgs Hf) as (Hb & Hle & Hor).
  split; [lia|].
  rewrite (filter_split_cursor final _ after (next_cursor after b)) by done. f_equal.
  rewrite Hext, filter_app, (filter_none _ ext), app_nil_r; [done|].
  rewrite Forall_forall. intros ev Hev ?. rewrite Hext in Hg.
  pose proof (gap_free_suffix _ _ _ Hg Hev). lia.
Qed.

(** C3. The log and the hub survive every history.  Whatever calls are made on
    a hub that is in step with its store, store failures and controller
    restarts included, the log stays gap-free (1, 2, ..., n), only grows at its
    end, and the hub's counters are those of the log; a hub opened afterwards
    carries on with the same next sequence number and the same watermark. *)
Theorem hub_history s h ops s' h' :
  hub_sync s h → Forall op_ok ops →
  log_len (log_of s h) + N.of_nat (length ops) < u64_bound →
  hub_run (s, h) ops = (s', h') →
  gap_free (log_of s' h') ∧ (∃ evs, log_of s' h' = log_of s h ++ evs) ∧
  h_nextSeq h' = log_len (log_of s' h') ∧
  ∀ h2, NewEventHub s' (h_agentID h) = Ok h2 →
    h_nextSeq h2 = h_nextSeq h' ∧ h_origin h2 = h_origin h'.
Proof.
  intros Hs Hok Hroom Hrun. pose proof (hub_run_log _ _ _ Hs Hok Hroom) as Hr.
  rewrite Hrun in Hr. destruct Hr as ((Hinv & Hv & Hn & Ho) & Hid & evs & Hl & _).
  split_and!; [by apply es_log_wf|eauto|done|]. intros h2 Hnew. rewrite <-Hid in Hnew.
  destruct (NewEventHub_sync _ _ _ Hinv Hv Hnew) as [(_ & _ & Hn2 & Ho2) Hid2].
  rewrite Hn, Ho, Hn2, Ho2. unfold log_of. by rewrite Hid2.
Qed.

(** A failed append costs nothing: when the store refuses a record, the
    publisher reports it (zero, nil or the error), no sequence number is used,
    the watermark does not move, nobody is sent anything and every log is as
    before. *)
Theorem failed_append_changes_nothing s h raw id t fs :
  hub_sync s h → room s h → id < u64_bound →
  (∀ e s' h', PublishPulled s h raw id = (Err e, s', h') → h' = h ∧ es_abs s' = es_abs s) ∧
  (∀ s' h', Publish s h raw = (0, s', h') → h' = h ∧ es_abs s' = es_abs s) ∧
  (∀ s' h', PublishLifecycle s h t fs = (None, s', h') → h' = h ∧ es_abs s' = es_abs s).
Proof.
  intros Hs Hr Hid. pose proof Hs as (Hinv & Hv & Hn & Ho). split_and!.
  - intros e s' h' Hp. destruct (PublishPulled_spec _ _ _ _ _ _ _ Hs Hr Hid Hp)
      as [(?&?&->&->)|[(?&?&?&->&->)|[(?&?&?&->&?&?)|(ev&ev'&?&?&->&?&?)]]]; done.
  - unfold Publish. intros s' h'. destruct (h_closed h); [by intros [= <- <-]|].
    rewrite Hn, u64_succ_small by done.
    destruct (Append _ _ _) as [[e|] s1] eqn:E.
    + intros [= <- <-]. by apply es_append_err in E as [_ ->].
    + cbn [Seq]. intros [= ? ? ?]. lia.
  - unfold PublishLifecycle. intros s' h'. destruct (h_closed h); [by intros [= <- <-]|].
    destruct (Append _ _ _) as [[e|] s1] eqn:E; [|done].
    intros [= <- <-]. by apply es_append_err in E as [_ ->].
Qed.

(** An empty batch means there is nothing to read: with a usable store and
    a positive limit, a poll that returns no event proves that no matching event
    lies beyond the cursor, and a poll before a matching event makes progress. *)
Theorem read_progress s h after limit types exclude :
  es_up s → es_inv s → es_valid (h_agentID h) → (0 < limit)%Z →
  ∃ b, ReadFiltered s h after limit types exclude = Ok b ∧
    (Z.of_nat (length b) ≤ limit)%Z ∧
    (b = [] ↔ ∀ ev, ev ∈ log_of s h → after < Seq ev → ¬ selects types exclude ev).
Proof.
  intros Hup Hinv Hv Hl.
  destruct (es_reads_up s (h_agentID h) after Hup Hinv Hv) as (_ & _ & Hr & _).
  destruct (ReadFiltered s h after limit types exclude) as [b|] eqn:Er; cycle 1.
  { unfold ReadFiltered in Er. by destruct (Replay _ _ _). }
  exists b. split; [done|].
  destruct (ReadFiltered_prefix _ _ _ _ _ _ _ Hinv Hv Er) as (rest & Hf & Hrest & _).
  split.
  - unfold ReadFiltered in Er. destruct (Replay _ _ _); [|done]. injection Er as <-.
    unfold filterEventsExcluding. rewrite filter_loop_spec by lia. cbv zeta.
    rewrite (proj2 (Z.ltb_lt 0 limit) Hl), length_take. lia.
  - split.
    + intros ->. rewrite (Hrest Hl eq_refl) in Hf. intros ev Hin Ha Hsel.
      apply (not_elem_of_nil ev). rewrite <-(app_nil_l []), <-Hf.
      apply list_elem_of_filter. done.
    + intros Hno. destruct b as [|ev b]; [done|]. exfalso.
      assert (Hin : ev ∈ filter (λ ev, after < Seq ev ∧ selects types exclude ev) (log_of s h)).
      { rewrite Hf. left. }
      apply list_elem_of_filter in Hin as [[Ha Hsel] Hin]. by apply (Hno ev).
Qed.

(** ** A store that keeps accepting *)

(** [alive] is kept by appends, which succeed, and reads succeed: the disk does
    not fill up and the file stays readable. *)
Record accepting (alive : S → Prop) : Prop := mkAccepting {
  acc_append s id ev ev' : alive s → es_inv s → es_valid id →
    log_len (es_abs s id).1 + 1 < u64_bound → Seq ev = log_len (es_abs s id).1 + 1 →
    stored ev = Some ev' → ∃ s', Append s id ev = (None, s') ∧ alive s';
  acc_origin s id ev ev' o : alive s → es_inv s → es_valid id →
    log_len (es_abs s id).1 + 1 < u64_bound → Seq ev = log_len (es_abs s id).1 + 1 →
    stored ev = Some ev' → ∃ s', AppendWithOrigin s id ev o = (None, s') ∧ alive s';
  acc_reads s id after : alive s → es_inv s → es_valid id →
    is_ok (NextSeq s id) ∧ is_ok (OriginWatermark s id) ∧ is_ok (Replay s id after) ∧
    is_ok (Agents s)
}.

Lemma PublishLifecycle_alive alive s h t fs :
  accepting alive → alive s → hub_sync s h → room s h → h_closed h = false →
  ∃ ev s' h', PublishLifecycle s h t fs = (Some ev, s', h') ∧ alive s'.
Proof.
  intros Hacc Ha (Hinv & Hv & Hn & Ho) Hroom Hc. unfold PublishLifecycle. rewrite Hc.
  rewrite Hn, u64_succ_small by done.
  match goal with |- context [Append s _ ?e] => set (ev := e) end.
  destruct (acc_append _ Hacc s (h_agentID h) ev ev Ha Hinv Hv Hroom eq_refl eq_refl)
    as (s' & -> & Ha').
  eauto.
Qed.

Lemma SubscribeSnapshot_alive alive s h :
  accepting alive → alive s → hub_sync s h → ∃ evs, SubscribeSnapshot s h = Ok evs.
Proof.
  intros Hacc Ha (Hinv & Hv & _). unfold SubscribeSnapshot.
  destruct (acc_reads _ Hacc s (h_agentID h) 0 Ha Hinv Hv) as (_ & _ & Hr & _).
  destruct (Replay _ _ _); [eauto|done].
Qed.

Lemma NewEventHub_alive alive s id :
  accepting alive → alive s → es_inv s → es_valid id → ∃ h, NewEventHub s id = Ok h.
Proof.
  intros Hacc Ha Hinv Hv. unfold NewEventHub.
  destruct (acc_reads _ Hacc s id 0 Ha Hinv Hv) as (H1 & H2 & _).
  destruct (NextSeq s id); [|done]. destruct (OriginWatermark s id); [eauto|done].
Qed.

End hub_laws.

(** ** Concrete histories *)

Definition ex_id : string := "agent-1".

Lemma ex_id_valid : agent_id ex_id.
Proof. by split_and!. Qed.

Lemma ex_store_inv faults down :
  tx_inv (DB := MemDB) (db_state (mkMemDB ∅ faults down)).
Proof. by apply empty_store_inv. Qed.

(** A hub on an empty store. *)
Definition ex_hub : EventHub := mkHub ex_id 0 0 ∅ 0 false.

Lemma ex_hub_sync faults down : hub_sync (mkMemDB ∅ faults down) ex_hub.
Proof.
  split; [exact (ex_store_inv faults down)|]. split; [exact ex_id_valid|].
  split; vm_compute; reflexivity.
Qed.

Definition ex_record (t : string) : RawMessage := RJson (JObj [("type"%string, JStr t)]).

Definition mem_alive (db : MemDB) : Prop := mem_down db = false ∧ mem_faults db = [].

Lemma mem_update_alive db f db' :
  mem_alive db → mem_update db f = (None, db') → mem_alive db'.
Proof.
  intros [Hd Hf]. unfold mem_update. rewrite Hd, Hf. simpl.
  destruct (f (mem_state db)); [|done]. intros [= <-]. done.
Qed.

Lemma mem_alive_up db : mem_alive db → es_up db.
Proof. intros [Hd Hf]. split; [done|]. by rewrite Hf. Qed.

(** The in-memory store without scheduled faults is one. *)
Lemma mem_accepting : accepting mem_alive.
Proof.
  split.
  - intros s id ev ev' Ha Hinv Hv Hroom Hseq Hst.
    pose proof (mem_alive_up _ Ha) as Hup.
    destruct (es_append_up s id ev ev' Hup Hinv Hv Hroom Hseq Hst I) as [(s' & Hs') _].
    exists s'. split; [done|]. eapply (mem_update_alive s _ _ Ha). exact Hs'.
  - intros s id ev ev' o Ha Hinv Hv Hroom Hseq Hst.
    pose proof (mem_alive_up _ Ha) as Hup.
    destruct (es_append_up s id ev ev' Hup Hinv Hv Hroom Hseq Hst I) as [_ Ho].
    destruct (Ho o) as (s' & Hs'). exists s'. split; [done|]. eapply (mem_update_alive s _ _ Ha). exact Hs'.
  - intros s id after Ha%mem_alive_up Hinv Hv. by apply es_reads_up.
Qed.

(** Two records, the second refused by the store, a restart, a retry and a
    duplicate. *)
Definition ex_ops : list hub_op :=
  [OpPulled (ex_record "agent_start") 1; OpPulled (ex_record "turn_start") 2; OpRestart;
   OpPulled (ex_record "turn_start") 2; OpPulled (ex_record "turn_start") 2;
   OpLifecycle "agent.busy" []].

Definition ex_db : MemDB := mkMemDB ∅ [false; true] false.

Lemma hub_history_witness :
  let st := hub_run (ex_db, ex_hub) ex_ops in
  h_nextSeq st.2 = 3 ∧ h_origin st.2 = 2 ∧ gap_free (log_of st.1 st.2).
Proof.
  split_and!; [vm_compute; reflexivity..|].
  apply (hub_history ex_db ex_hub ex_ops _ _ (ex_hub_sync _ _)).
  - repeat constructor.
  - vm_compute. reflexivity.
  - vm_compute. reflexivity.
Defined.

Lemma failed_append_changes_nothing_witness :
  let db := mkMemDB ∅ [true] false in
  ∃ s', PublishPulled db ex_hub (ex_record "x") 1 = (Err EBolt, s', ex_hub) ∧
    es_abs s' = es_abs db.
Proof.
  eexists. split; [vm_compute; reflexivity|].
  apply (failed_append_changes_nothing (mkMemDB ∅ [true] false) ex_hub (ex_record "x") 1 "" []
    (ex_hub_sync _ _) ltac:(vm_compute; reflexivity) ltac:(vm_compute; reflexivity))
    with (e := EBolt) (h' := ex_hub).
  vm_compute. reflexivity.
Defined.

Definition ex_watch : list hub_op :=
  [OpPulled (ex_record "a") 1; OpRecv 0; OpLifecycle "agent.busy" []; OpSubscribe 0].

Lemma subscribe_no_gap_witness :
  let obs := observe 0 (mem_empty, (Subscribe mem_empty ex_hub 0).2) ex_watch in
  ∃ pending, h_subscribers obs.2.2 !! 0%nat = Some pending ∧
    [] ++ omap stored (obs.1.1 ++ pending) =
      filter (λ ev, 0 < Seq ev) (log_of obs.2.1 obs.2.2).
Proof.
  intros obs. subst obs.
  eapply (subscribe_no_gap mem_empty ex_hub 0 [] 0 (Subscribe mem_empty ex_hub 0).2 ex_watch).
  - apply ex_hub_sync.
  - vm_compute. discriminate.
  - vm_compute. reflexivity.
  - repeat constructor.
  - repeat constructor.
  - vm_compute. reflexivity.
  - vm_compute. reflexivity.
Defined.

(** The store after one and after three records. *)
Definition ex_s1 : MemDB := (hub_run (mem_empty, ex_hub) [OpPulled (ex_record "a") 1]).1.
Definition ex_s3 : MemDB :=
  (hub_run (mem_empty, ex_hub)
     [OpPulled (ex_record "a") 1; OpPulled (ex_record "b") 2; OpPulled (ex_record "a") 3]).1.

Lemma ex_run_inv ops :
  Forall op_ok ops → N.of_nat (length ops) < u64_bound →
  es_inv (hub_run (mem_empty, ex_hub) ops).1.
Proof.
  intros Hok Hlen. pose proof (hub_run_log mem_empty ex_hub ops (ex_hub_sync _ _) Hok) as Hr.
  change (log_len (log_of mem_empty ex_hub)) with 0 in Hr. rewrite N.add_0_l in Hr.
  specialize (Hr Hlen).
  destruct (hub_run (mem_empty, ex_hub) ops) as [s h]. by destruct Hr as [(? & _) _].
Qed.

Lemma polls_tile_witness :
  (polls ex_hub 1 ["a"%string] [] 0 [ex_s1; ex_s1; ex_s3]).1 =
    filter (λ ev, 0 < Seq ev ∧ Seq ev ≤ 3 ∧ selects ["a"%string] [] ev) (log_of ex_s3 ex_hub).
Proof.
  eapply (polls_tile (S := MemDB) ex_hub 1 ["a"%string] [] 0 [ex_s1; ex_s1; ex_s3]).
  - exact ex_id_valid.
  - vm_compute. reflexivity.
  - repeat split; try (apply ex_run_inv; [repeat constructor|vm_compute; reflexivity]);
      eexists; vm_compute; reflexivity.
  - vm_compute. reflexivity.
Defined.

Lemma read_progress_witness :
  ∃ b, ReadFiltered ex_s3 ex_hub 1 1 [] ["b"%string] = Ok b ∧ (Z.of_nat (length b) ≤ 1)%Z ∧
    (b = [] ↔ ∀ ev, ev ∈ log_of ex_s3 ex_hub → 1 < Seq ev → ¬ selects [] ["b"%string] ev).
Proof.
  apply (read_progress ex_s3 ex_hub 1 1 [] ["b"%string]).
  - split; vm_compute; reflexivity.
  - apply ex_run_inv; [repeat constructor|vm_compute; reflexivity].
  - exact ex_id_valid.
  - lia.
Defined.
