(* ===== verification/Fsm.v ===== *)
(** * The session state machine (src/controller/fsm.go)

    The session state is a projection of the event log: [ReplaySession] folds
    the lifecycle events, and the live [SessionFSM] appends a lifecycle event
    before it takes a transition.  The theorems relate the two. *)

From Stdlib Require Import String ZArith.
From S2P Require Import Prelude Json Bolt EventStore EventHub.
From stdpp Require Import base list strings numbers gmap.
Local Open Scope N_scope.

Inductive SessionState : Type :=
| SessionProvision
| SessionReady
| SessionRunning
| SessionIdle
| SessionPaused
| SessionReviving
| SessionTerminated.

#[global] Instance SessionState_eq_dec : EqDecision SessionState.
Proof. solve_decision. Defined.

Definition session_name (st : SessionState) : string :=
  match st with
  | SessionProvision => "provision"
  | SessionReady => "ready"
  | SessionRunning => "running"
  | SessionIdle => "idle"
  | SessionPaused => "paused"
  | SessionReviving => "reviving"
  | SessionTerminated => "terminated"
  end.

Definition lifecyclePaused : string := "agent.paused".
Definition lifecycleRevived : string := "agent.revived".

Definition sessionEventType (t : string) : option SessionState :=
  if String.eqb t "agent.provisioned" then Some SessionProvision
  else if String.eqb t "agent.started" then Some SessionReady
  else if String.eqb t "agent.turn_started" then Some SessionRunning
  else if String.eqb t "agent.settled" then Some SessionIdle
  else if String.eqb t lifecyclePaused then Some SessionPaused
  else if String.eqb t lifecycleRevived then Some SessionRunning
  else if String.eqb t "agent.reviving" then Some SessionReviving
  else if String.eqb t "agent.terminated" then Some SessionTerminated
  else None.

Definition sessionTransitions (from to : SessionState) : bool :=
  match from, to with
  | SessionProvision, (SessionReady | SessionTerminated) => true
  | SessionReady, (SessionRunning | SessionTerminated) => true
  | SessionRunning, (SessionIdle | SessionPaused | SessionTerminated) => true
  | SessionIdle, (SessionRunning | SessionTerminated) => true
  | SessionPaused, (SessionRunning | SessionTerminated) => true
  | SessionReviving, (SessionReady | SessionTerminated) => true
  | _, _ => false
  end.

(** The loop body of [ReplaySession]. *)
Definition replay_step (state : SessionState) (ev : Event) : SessionState :=
  match sessionEventType (Typ ev) with
  | Some next => if sessionTransitions state next then next else state
  | None => state
  end.

Definition ReplaySession (evs : list Event) : SessionState :=
  fold_left replay_step evs SessionProvision.

Record SessionFSM : Type := mkFSM {
  f_agentID : string;
  f_state : SessionState
}.

Inductive FsmErr : Type :=
| EIllegalTransition (from to : SessionState)
| EAppendFailed
| ESessionReplayFailed.

Definition NewSessionFSM (agentID : string) (initial : SessionState) : SessionFSM :=
  mkFSM agentID initial.

Section fsm.
  Context {S : Type} `{EventStore S}.

Definition ReplaySessionFSM (s : S) (h : EventHub) (agentID : string)
    : res FsmErr SessionFSM :=
  match SubscribeSnapshot s h with
  | Err _ => Err ESessionReplayFailed
  | Ok evs => Ok (NewSessionFSM agentID (ReplaySession evs))
  end.

Definition Transition (s : S) (h : EventHub) (f : SessionFSM) (next : SessionState)
    (eventType : string) (fs : fields) : option FsmErr * S * EventHub * SessionFSM :=
  if negb (sessionTransitions (f_state f) next) then
    (Some (EIllegalTransition (f_state f) next), s, h, f)
  else
    let fs := fput "status" (JStr (session_name next)) (fput "agent_id" (JStr (f_agentID f)) fs) in
    match PublishLifecycle s h eventType fs with
    | (None, s', h') => (Some EAppendFailed, s', h', f)
    | (Some _, s', h') => (None, s', h', mkFSM (f_agentID f) next)
    end.

(** ** Histories *)

(** A session's history: transitions, other calls on its hub, and controller
    restarts, which rebuild hub and state machine from the store. *)
Inductive sess_op : Type :=
| SHub (op : hub_op)
| STransition (next : SessionState) (eventType : string) (fs : fields)
| SRestart.

Definition sess_step (st : S * EventHub * SessionFSM) (op : sess_op)
    : S * EventHub * SessionFSM :=
  let '(s, h, f) := st in
  match op with
  | SHub op => (hub_step (s, h) op, f)
  | STransition next t fs => let '(_, s', h', f') := Transition s h f next t fs in (s', h', f')
  | SRestart =>
      match NewEventHub s (h_agentID h) with
      | Err _ => st
      | Ok h' =>
          match ReplaySessionFSM s h' (f_agentID f) with
          | Err _ => st
          | Ok f' => (s, h', f')
          end
      end
  end.

Definition sess_run (st : S * EventHub * SessionFSM) (ops : list sess_op)
    : S * EventHub * SessionFSM :=
  fold_left sess_step ops st.

End fsm.

(** ** Projection lemmas *)

Lemma ReplaySession_snoc evs ev :
  ReplaySession (evs ++ [ev]) = replay_step (ReplaySession evs) ev.
Proof. unfold ReplaySession. by rewrite fold_left_app. Qed.

Lemma replay_step_other state ev :
  sessionEventType (Typ ev) = None → replay_step state ev = state.
Proof. unfold replay_step. by intros ->. Qed.

Lemma replay_step_terminated ev : replay_step SessionTerminated ev = SessionTerminated.
Proof. unfold replay_step. by destruct (sessionEventType (Typ ev)) as [[]|]. Qed.

Lemma ReplaySession_terminated evs1 evs2 :
  ReplaySession evs1 = SessionTerminated → ReplaySession (evs1 ++ evs2) = SessionTerminated.
Proof.
  intros H1. induction evs2 as [|ev evs2 IH] using rev_ind; [by rewrite app_nil_r|].
  by rewrite app_assoc, ReplaySession_snoc, IH, replay_step_terminated.
Qed.

Lemma stored_typ ev ev' : stored ev = Some ev' → Typ ev' = Typ ev.
Proof. by intros (_ & ? & _)%stored_props. Qed.

(** ** The live machine is the projection of its log *)

Section fsm_laws.
  Context {S : Type} `{EventStoreLaws S}.

Definition fsm_sync (s : S) (h : EventHub) (f : SessionFSM) : Prop :=
  hub_sync s h ∧ f_state f = ReplaySession (log_of s h).

(** A transition is labelled with an event type that projects onto its target;
    nothing else is published under a lifecycle type. *)
Definition honest (op : sess_op) : Prop :=
  match op with
  | SHub (OpPublish raw) | SHub (OpPulled raw _) => sessionEventType (eventTypeOf raw) = None
  | SHub (OpLifecycle t _) => sessionEventType t = None
  | SHub _ | SRestart => True
  | STransition next t _ => sessionEventType t = Some next
  end.

Definition sess_op_ok (op : sess_op) : Prop :=
  match op with SHub op => op_ok op | _ => True end.

Lemma PublishLifecycle_some s h t fs ev s' h' :
  hub_sync s h → room s h → PublishLifecycle s h t fs = (Some ev, s', h') →
  hub_sync s' h' ∧ h_agentID h' = h_agentID h ∧ ev = lifecycle_event t fs (Seq ev) ∧
  log_of s' h' = log_of s h ++ [ev].
Proof.
  intros Hs Hroom Hp. pose proof Hs as (Hinv & Hv & Hn & Ho).
  pose proof (PublishLifecycle_effect _ _ _ _ _ _ _ Hs Hroom Hp) as Heff.
  destruct (pub_effect_sync _ _ _ _ _ Hs Heff) as [Hs' Hid].
  unfold PublishLifecycle in Hp. destruct (h_closed h); [done|].
  rewrite Hn, u64_succ_small in Hp by done.
  destruct (Append _ _ _) as [[e|] s1] eqn:E; [done|]. injection Hp as <- <- <-.
  apply es_append in E as (ev' & Hst & _ & _ & Habs); [|done..].
  split_and!; [done..|]. unfold stored in Hst. simpl in Hst. injection Hst as <-.
  unfold log_of. simpl. rewrite (Habs _ Hv). unfold abs_append. by rewrite decide_True.
Qed.

Lemma Transition_ok s h f next t fs s' h' f' :
  hub_sync s h → room s h → Transition s h f next t fs = (None, s', h', f') →
  sessionTransitions (f_state f) next = true ∧ hub_sync s' h' ∧ h_agentID h' = h_agentID h ∧
  f' = mkFSM (f_agentID f) next ∧
  ∃ ev, Typ ev = t ∧ log_of s' h' = log_of s h ++ [ev].
Proof.
  intros Hs Hroom. unfold Transition.
  destruct (sessionTransitions (f_state f) next); [simpl|done].
  destruct (PublishLifecycle _ _ _ _) as [[[ev|] s1] h1] eqn:E; [|done].
  intros [= <- <- <-].
  destruct (PublishLifecycle_some _ _ _ _ _ _ _ Hs Hroom E) as (Hs' & Hid & Hev & Hlog).
  split_and!; [done..|]. exists ev. by rewrite Hev at 1.
Qed.

Lemma Transition_err s h f next t fs e s' h' f' :
  hub_sync s h → room s h → Transition s h f next t fs = (Some e, s', h', f') →
  f' = f ∧ h' = h ∧ es_inv s' ∧ es_abs s' = es_abs s.
Proof.
  intros Hs Hroom. pose proof (proj1 Hs) as Hinv. unfold Transition.
  destruct (sessionTransitions (f_state f) next); simpl; [|by intros [= <- <- <- <-]].
  destruct (PublishLifecycle _ _ _ _) as [[[ev|] s1] h1] eqn:E; [done|].
  intros [= <- <- <- <-]. unfold PublishLifecycle in E.
  destruct (h_closed h); [by injection E as <- <-|].
  destruct (Append _ _ _) as [[e1|] s2] eqn:Ea; [|done]. injection E as <- <-.
  by apply es_append_err in Ea.
Qed.

(** A history step that publishes nothing of lifecycle type leaves the
    projection of the log alone. *)
Lemma hub_step_replay s h op s' h' :
  hub_sync s h → room s h → op_ok op → honest (SHub op) → hub_step (s, h) op = (s', h') →
  ReplaySession (log_of s' h') = ReplaySession (log_of s h).
Proof.
  intros Hs Hr Hop Hh Hst.
  assert (Hpub : ∀ mk, pub_effect mk s h s' h' → (∀ n, sessionEventType (Typ (mk n)) = None) →
    ReplaySession (log_of s' h') = ReplaySession (log_of s h)).
  { intros mk Hp Hmk. destruct (pub_effect_log _ _ _ _ _ Hs Hp)
      as [->|(ev & ev' & -> & Hs1 & -> & _)]; [done|].
    rewrite ReplaySession_snoc. apply replay_step_other. by rewrite (stored_typ _ _ Hs1). }
  assert (Hsame : ∀ h1, h_agentID h1 = h_agentID h → log_of s h1 = log_of s h).
  { unfold log_of. by intros h1 ->. }
  destruct op as [raw|raw id|t fs|after|id|id| |]; simpl in Hst, Hh.
  - destruct (Publish s h raw) as [[n s1] h1] eqn:E. injection Hst as <- <-.
    by eapply Hpub; [apply (Publish_effect _ _ _ _ _ _ Hs Hr E)|].
  - destruct (PublishPulled s h raw id) as [[n s1] h1] eqn:E. injection Hst as <- <-.
    by eapply Hpub; [apply (PublishPulled_effect _ _ _ _ _ _ _ Hs Hr Hop E)|].
  - destruct (PublishLifecycle s h t fs) as [[n s1] h1] eqn:E. injection Hst as <- <-.
    by eapply Hpub; [apply (PublishLifecycle_effect _ _ _ _ _ _ _ Hs Hr E)|].
  - injection Hst as <- <-. f_equal. apply Hsame. unfold Subscribe. by destruct (Replay _ _ _).
  - injection Hst as <- <-. done.
  - injection Hst as <- <-. f_equal. apply Hsame. unfold receive.
    by destruct (h_subscribers h !! id) as [[|]|].
  - by injection Hst as <- <-.
  - destruct (NewEventHub s (h_agentID h)) as [h1|] eqn:E; injection Hst as <- <-; [|done].
    destruct (NewEventHub_sync _ _ _ (proj1 Hs) (proj1 (proj2 Hs)) E) as [_ Hid].
    by rewrite Hsame.
Qed.

Lemma SubscribeSnapshot_log s h evs :
  hub_sync s h → SubscribeSnapshot s h = Ok evs → evs = log_of s h.
Proof.
  intros (Hinv & Hv & _). unfold SubscribeSnapshot. intros ->%es_replay; [|done..].
  apply filter_id. rewrite Forall_forall. intros ev Hin.
  pose proof (gap_free_elem _ _ (proj1 (es_log_wf _ _ Hinv Hv)) Hin). lia.
Qed.

Lemma sess_step_sync s h f op s' h' f' :
  fsm_sync s h f → room s h → sess_op_ok op → honest op →
  sess_step (s, h, f) op = (s', h', f') →
  fsm_sync s' h' f' ∧ log_len (log_of s' h') ≤ log_len (log_of s h) + 1.
Proof.
  intros [Hs Hf] Hr Hok Hh. destruct op as [op|next t fs|]; cbn [sess_step].
  - destruct (hub_step (s, h) op) as [s1 h1] eqn:E. intros [= <- <- <-].
    pose proof (hub_step_replay _ _ _ _ _ Hs Hr Hok Hh E) as Hrep.
    destruct (hub_step_sync _ _ _ _ _ Hs Hr Hok E) as (Hs' & _ & evs & Hl & Hlen).
    split; [by split; [|rewrite Hrep]|]. rewrite Hl. unfold log_len. rewrite length_app. lia.
  - destruct (Transition s h f next t fs) as [[[[e|] s1] h1] f1] eqn:E; intros [= <- <- <-].
    + apply Transition_err in E as (-> & -> & Hinv & Ha); [|done..].
      unfold fsm_sync, hub_sync, log_of in *. rewrite Ha. split; [tauto|lia].
    + apply Transition_ok in E as (Hedge & Hs' & _ & -> & ev & Ht & Hl); [|done..].
      split; [split; [done|]|].
      * rewrite Hl, ReplaySession_snoc, <-Hf. unfold replay_step. simpl in Hh.
        by rewrite Ht, Hh, Hedge.
      * rewrite Hl. unfold log_len. rewrite length_app. simpl. lia.
  - destruct (NewEventHub s (h_agentID h)) as [h1|] eqn:E1; [|intros [= <- <- <-]; split; [done|lia]].
    destruct (NewEventHub_sync _ _ _ (proj1 Hs) (proj1 (proj2 Hs)) E1) as [Hs1 Hid].
    assert (Hl : log_of s h1 = log_of s h) by (unfold log_of; by rewrite Hid).
    destruct (ReplaySessionFSM s h1 (f_agentID f)) as [f1|] eqn:E2;
      intros [= <- <- <-]; [|split; [done|lia]].
    unfold ReplaySessionFSM in E2. destruct (SubscribeSnapshot s h1) eqn:E3; [|done].
    injection E2 as <-. apply SubscribeSnapshot_log in E3 as ->; [|done].
    rewrite Hl. split; [|lia]. split; [done|]. by rewrite Hl.
Qed.

Lemma sess_run_sync s h f ops s' h' f' :
  fsm_sync s h f → Forall sess_op_ok ops → Forall honest ops →
  log_len (log_of s h) + N.of_nat (length ops) < u64_bound →
  sess_run (s, h, f) ops = (s', h', f') →
  fsm_sync s' h' f' ∧ log_len (log_of s' h') ≤ log_len (log_of s h) + N.of_nat (length ops).
Proof.
  revert s h f. induction ops as [|op ops IH]; intros s h f Hs Hok Hh Hroom Hrun.
  { injection Hrun as <- <- <-. split; [done|lia]. }
  inversion Hok as [|? ? Hok1 Hok2]; inversion Hh as [|? ? Hh1 Hh2]; subst.
  change (sess_run (s, h, f) (op :: ops)) with (sess_run (sess_step (s, h, f) op) ops) in Hrun.
  destruct (sess_step (s, h, f) op) as [[s1 h1] f1] eqn:E. cbn [length] in *.
  destruct (sess_step_sync _ _ _ _ _ _ _ Hs ltac:(unfold room; lia) Hok1 Hh1 E) as [Hs1 Hl].
  destruct (IH s1 h1 f1 Hs1 Hok2 Hh2) as [Hs2 Hl2]; [lia|done|]. split; [done|lia].
Qed.

(** C5. The live session state is the projection of the log.  Through any
    history of transitions (legal, illegal, refused by the store), other
    publishes, subscriptions, store failures and controller restarts, in which
    transitions are labelled with the event type of their target and no other
    record carries a lifecycle type, the in-memory state equals the replay of
    the stored log, so a restart lands on the identical state. *)
Theorem live_state_is_replay s h f ops s' h' f' :
  fsm_sync s h f → Forall sess_op_ok ops → Forall honest ops →
  log_len (log_of s h) + N.of_nat (length ops) < u64_bound →
  sess_run (s, h, f) ops = (s', h', f') →
  f_state f' = ReplaySession (log_of s' h') ∧
  ∀ f2, ReplaySessionFSM s' h' (f_agentID f') = Ok f2 → f2 = f'.
Proof.
  intros Hs Hok Hh Hroom Hrun.
  destruct (sess_run_sync _ _ _ _ _ _ _ Hs Hok Hh Hroom Hrun) as [Hfin _].
  split; [apply Hfin|]. intros f2. unfold ReplaySessionFSM.
  destruct (SubscribeSnapshot s' h') eqn:E; [|done]. intros [= <-].
  apply SubscribeSnapshot_log in E as ->; [|apply Hfin].
  destruct Hfin as [_ <-]. by destruct f'.
Qed.

(** A transition that reports an error changes nothing, and one that
    succeeds was legal and has its event at the end of the log: the state is
    never ahead of the durable log. *)
Theorem Transition_durable_first s h f next t fs r s' h' f' :
  hub_sync s h → room s h → Transition s h f next t fs = (r, s', h', f') →
  match r with
  | Some _ => f' = f ∧ h' = h ∧ es_abs s' = es_abs s
  | None => sessionTransitions (f_state f) next = true ∧ f_state f' = next ∧
            ∃ ev, Typ ev = t ∧ log_of s' h' = log_of s h ++ [ev]
  end.
Proof.
  intros Hs Hr. destruct r as [e|]; intros E.
  - by apply Transition_err in E as (-> & -> & _ & ->).
  - by apply Transition_ok in E as (? & _ & _ & -> & ?).
Qed.

(** A record whose [type] member is the terminating lifecycle type. *)
Definition forged_record : RawMessage :=
  RJson (JObj [("type"%string, JStr "agent.terminated")]).

(** Records from the sandbox can move the projection.  Pulled records enter
    the log under their own [type] member, so one record that says
    [agent.terminated] makes every later replay terminated although the live
    session is not: the hypothesis on record types of the previous theorem is
    not enforced by the code. *)
Theorem forged_record_terminates_replay s h f id :
  fsm_sync s h f → room s h → es_up s → h_closed h = false →
  es_fits (record_event forged_record (log_len (log_of s h) + 1)) →
  h_origin h < id < u64_bound →
  ∃ s' h', sess_step (s, h, f) (SHub (OpPulled forged_record id)) = (s', h', f) ∧
    ReplaySession (log_of s' h') = SessionTerminated.
Proof.
  intros [Hs Hf] Hr Hup Hc Hfit [Ho Hid]. pose proof Hs as (Hinv & Hv & Hn & Hw).
  destruct (es_append_up s (h_agentID h) (record_event forged_record (log_len (log_of s h) + 1))
    (record_event forged_record (log_len (log_of s h) + 1)) Hup Hinv Hv Hr eq_refl eq_refl Hfit)
    as [_ Hup']. destruct (Hup' id) as [s' Happ].
  cbn [sess_step hub_step]. destruct (PublishPulled s h forged_record id) as [[r s1] h1] eqn:Ep.
  exists s1, h1. split; [done|].
  destruct (PublishPulled_spec _ _ _ _ _ _ _ Hs Hr Hid Ep)
    as [(?&?&_)|[(?&?&_)|[(_&_&Hbad&_)|(ev&ev'&_&_&->&_&Hst&_&Habs&->)]]]; [congruence|lia| |].
  - exfalso. unfold PublishPulled in Ep. rewrite Hc, (proj2 (N.leb_gt _ _) Ho), Hn in Ep.
    rewrite u64_succ_small in Ep by done.
    change (mkEvent (log_len (log_of s h) + 1) (eventTypeOf forged_record) forged_record)
      with (record_event forged_record (log_len (log_of s h) + 1)) in Ep.
    rewrite Happ in Ep. by injection Ep as <- _ _.
  - unfold log_of. simpl h_agentID. rewrite (Habs _ Hv). unfold abs_append.
    rewrite decide_True by done. cbn [fst]. rewrite ReplaySession_snoc. injection Hst as <-.
    unfold replay_step. vm_compute (sessionEventType _).
    by destruct (ReplaySession _).
Qed.

End fsm_laws.

(** ** The shape of a session *)

(** Between two states the projection only moves along an edge of the table. *)
Lemma replay_step_edge state ev :
  replay_step state ev = state ∨ sessionTransitions state (replay_step state ev) = true.
Proof.
  unfold replay_step. destruct (sessionEventType (Typ ev)) as [next|]; [|by left].
  destruct (sessionTransitions state next) eqn:E; [by right|by left].
Qed.

(** The shape of every session's life, whatever the log holds: the
    [reviving] state is never reached, a terminated session stays terminated,
    and a paused session was running when an [agent.paused] event arrived, with
    nothing after it that moved the session. *)
Theorem session_shape evs :
  ReplaySession evs ≠ SessionReviving ∧
  (ReplaySession evs = SessionTerminated →
     ∀ more, ReplaySession (evs ++ more) = SessionTerminated) ∧
  (ReplaySession evs = SessionPaused →
     ∃ before ev after, evs = before ++ ev :: after ∧ Typ ev = lifecyclePaused ∧
       ReplaySession before = SessionRunning ∧
       ∀ k, ReplaySession (before ++ ev :: take k after) = SessionPaused).
Proof.
  split_and!; [|by intros ? ?; apply ReplaySession_terminated|].
  - induction evs as [|ev evs IH] using rev_ind; [done|]. rewrite ReplaySession_snoc.
    destruct (replay_step_edge (ReplaySession evs) ev) as [->|He]; [done|].
    intros E. rewrite E in He. by destruct (ReplaySession evs).
  - induction evs as [|ev evs IH] using rev_ind; [done|]. rewrite ReplaySession_snoc. intros Hp.
    destruct (replay_step_edge (ReplaySession evs) ev) as [He|He].
    + rewrite He in Hp. destruct (IH Hp) as (b & e & a & -> & Ht & Hb & Hk).
      exists b, e, (a ++ [ev]). split_and!; [by rewrite <-app_assoc|done..|]. intros k.
      destruct (decide (k ≤ length a)%nat).
      * rewrite take_app_le by done. apply Hk.
      * rewrite take_ge by (rewrite length_app; simpl; lia). 
        change (b ++ e :: a ++ [ev]) with (b ++ (e :: a) ++ [ev]).
        by rewrite app_assoc, ReplaySession_snoc, He.
    + rewrite Hp in He. exists evs, ev, []. split_and!; [done| | |].
      * unfold replay_step, sessionEventType in Hp.
        destruct (String.eqb_spec (Typ ev) lifecyclePaused) as [|_]; [done|].
        by destruct (ReplaySession evs); crush_match.
      * by destruct (ReplaySession evs).
      * intros k. by rewrite take_nil, ReplaySession_snoc.
Qed.

(** ** Concrete sessions *)

Definition ex_fsm : SessionFSM := mkFSM ex_id SessionProvision.

Lemma ex_fsm_sync faults down : fsm_sync (mkMemDB ∅ faults down) ex_hub ex_fsm.
Proof. split; [apply ex_hub_sync|vm_compute; reflexivity]. Qed.

(** A turn, an illegal pause of a settled session, and a restart. *)
Definition ex_session : list sess_op :=
  [STransition SessionReady "agent.started" []; STransition SessionRunning "agent.turn_started" [];
   SHub (OpPulled (ex_record "turn_end") 1); STransition SessionIdle "agent.settled" [];
   STransition SessionPaused lifecyclePaused []; SRestart].

Lemma live_state_is_replay_witness :
  let '(s, h, f) := sess_run (mem_empty, ex_hub, ex_fsm) ex_session in
  f_state f = SessionIdle ∧ f_state f = ReplaySession (log_of s h).
Proof.
  destruct (sess_run (mem_empty, ex_hub, ex_fsm) ex_session) as [[s h] f] eqn:E. split.
  - vm_compute in E. injection E as <- <- <-. reflexivity.
  - apply (live_state_is_replay mem_empty ex_hub ex_fsm ex_session s h f (ex_fsm_sync _ _));
      [repeat constructor|repeat constructor|vm_compute; reflexivity|exact E].
Defined.

Lemma Transition_durable_first_witness :
  let '(r, s, h, f) := Transition mem_empty ex_hub ex_fsm SessionReady "agent.started" [] in
  r = None ∧ ∃ ev, Typ ev = "agent.started"%string ∧ log_of s h = log_of mem_empty ex_hub ++ [ev].
Proof.
  destruct (Transition mem_empty ex_hub ex_fsm SessionReady "agent.started" [])
    as [[[r s] h] f] eqn:E.
  assert (r = None) as -> by (vm_compute in E; by injection E as <- _ _ _).
  split; [done|].
  apply (Transition_durable_first mem_empty ex_hub ex_fsm SessionReady "agent.started" []
    None s h f (ex_hub_sync _ _) ltac:(vm_compute; reflexivity) E).
Defined.

Lemma forged_record_terminates_replay_witness :
  ∃ s h, sess_step (mem_empty, ex_hub, ex_fsm) (SHub (OpPulled forged_record 1)) = (s, h, ex_fsm) ∧
    ReplaySession (log_of s h) = SessionTerminated.
Proof.
  apply (forged_record_terminates_replay mem_empty ex_hub ex_fsm 1 (ex_fsm_sync _ _)).
  - vm_compute. reflexivity.
  - split; vm_compute; reflexivity.
  - reflexivity.
  - exact I.
  - split; vm_compute; reflexivity.
Defined.
