(* ===== verification/Monitor.v ===== *)
(** * The turn monitor (src/controller/monitor.go)

    One timer per running agent assesses the current turn with two calls to a
    small language model and appends an [agent.assessed] event.  The model
    client is a parameter ([SLMPipeline]).  Timer entries are heap objects that
    a tick in flight still refers to after the timer is gone, so they live in a
    heap and the table of armed agents holds their addresses; the generation
    counter of an entry is what keeps a late tick from appending. *)

From Stdlib Require Import String ZArith.
From S2P Require Import Prelude Json GoTime Bolt EventStore EventHub Fsm.
From stdpp Require Import base list strings numbers gmap.
Local Open Scope N_scope.

(** ** Event names (src/controller/registry.go, monitor.go) *)

Definition lifecycleProvisioned : string := "agent.provisioned".
Definition lifecycleStarted : string := "agent.started".
Definition lifecycleTurnStarted : string := "agent.turn_started".
Definition lifecycleSettled : string := "agent.settled".
Definition lifecycleFailed : string := "agent.failed".
Definition lifecycleTerminated : string := "agent.terminated".
Definition EventTypeAssessed : string := "agent.assessed".

(** ** Assessments *)

(** Durations stand for the float seconds computed from them. *)
Record TurnTelemetry : Type := mkTelemetry {
  tt_Summary : string;
  tt_Elapsed : Z;
  tt_SinceLastRecord : Z;
  tt_LastRecordType : string;
  tt_RecordCount : Z;
  tt_TurnPrompt : string
}.

Record Verdict : Type := mkVerdict {
  v_Verdict : string;
  v_Confidence : string;
  v_Reason : string
}.

Record AssessmentPayload : Type := mkPayload {
  p_Verdict : string;
  p_Summary : string;
  p_Confidence : string;
  p_Reason : string;
  p_AssessedAt : string
}.

Record AssessmentView : Type := mkView {
  av_Verdict : string;
  av_Summary : string;
  av_AssessedAt : string;
  av_Seq : N
}.

(** [json.Unmarshal] into an [AssessmentPayload]. *)
Definition decode_payload (r : RawMessage) : option AssessmentPayload :=
  match unmarshal_struct r with
  | None => None
  | Some ms =>
      let '(v, b1) := string_field "verdict" ms in
      let '(s, b2) := string_field "summary" ms in
      let '(c, b3) := string_field "confidence" ms in
      let '(re, b4) := string_field "reason" ms in
      let '(a, b5) := string_field "assessed_at" ms in
      if b1 || b2 || b3 || b4 || b5 then None else Some (mkPayload v s c re a)
  end.

(** The loop of [assessmentFromEvents]: (turnStart, latest, payload). *)
Definition assess_scan (st : N * N * AssessmentPayload) (ev : Event) : N * N * AssessmentPayload :=
  let '(turnStart, latest, payload) := st in
  if String.eqb (Typ ev) lifecycleTurnStarted then (Seq ev, latest, payload)
  else if String.eqb (Typ ev) EventTypeAssessed then
    match decode_payload (Data ev) with
    | None => st
    | Some p => if latest <? Seq ev then (turnStart, Seq ev, p) else st
    end
  else st.

Definition assessmentFromEvents (evs : list Event) : option AssessmentView :=
  let '(turnStart, latest, p) := fold_left assess_scan evs (0, 0, mkPayload "" "" "" "" "") in
  if (latest =? 0) || (latest <=? turnStart) then None
  else Some (mkView (p_Verdict p) (p_Summary p) (p_AssessedAt p) latest).

(** ** The window of a turn *)

Record turnWindow : Type := mkWindow {
  w_turnStartSeq : N;
  w_prompt : string;
  w_events : list Event
}.

(** The decoded [prompt] member; the error of [Unmarshal] is ignored, so the
    field holds whatever was decoded before it. *)
Definition prompt_of (r : RawMessage) : string :=
  match unmarshal_struct r with
  | None => ""
  | Some ms => (string_field "prompt" ms).1
  end.

(** The scan from the end: [after] is what lies behind the events still to be
    looked at, most recent first. *)
Fixpoint window_scan (rev_evs : list Event) (after : list Event) : option turnWindow :=
  match rev_evs with
  | [] => None
  | ev :: rest =>
      if String.eqb (Typ ev) lifecycleTurnStarted then
        Some (mkWindow (Seq ev) (prompt_of (Data ev))
          (filter (λ e, Typ e ≠ EventTypeAssessed) (ev :: after)))
      else window_scan rest (ev :: after)
  end.

Definition currentTurnWindow (evs : list Event) : option turnWindow :=
  window_scan (rev evs) [].

(** The transcript: one line per event, the type and the record. *)
Definition transcriptOf (w : turnWindow) : list (string * RawMessage) :=
  (λ ev, (Typ ev, Data ev)) <$> w_events w.

(** ** The monitor *)

(** The language-model client; [None] is any failure, timeouts included. *)
Record SLMPipeline : Type := mkSLM {
  Summarize : list (string * RawMessage) → option string;
  SummarizeTerminal : list (string * RawMessage) → option string;
  Classify : TurnTelemetry → option Verdict
}.

Record monitorEntry : Type := mkEntry {
  e_gen : N;
  e_armTime : Z;
  e_lastRecAt : Z;
  e_lastRecTy : string
}.

Record Monitor : Type := mkMonitor {
  mo_heap : list monitorEntry;
  mo_agents : gmap string nat
}.

Section monitor.
  Context {S : Type} `{EventStore S}.

Definition Arm (mo : Monitor) (s : S) (h : EventHub) (id : string) (now : Z) : Monitor :=
  match mo_agents mo !! id with
  | Some _ => mo
  | None =>
      let lastTy :=
        match SubscribeSnapshot s h with
        | Err _ => ""
        | Ok evs =>
            match currentTurnWindow evs with
            | None => ""
            | Some w => match last (w_events w) with Some ev => Typ ev | None => "" end
            end
        end%string in
      mkMonitor (mo_heap mo ++ [mkEntry 0 now now lastTy])
        (<[id := length (mo_heap mo)]> (mo_agents mo))
  end.

Definition bump_gen (e : monitorEntry) : monitorEntry :=
  mkEntry (u64_succ (e_gen e)) (e_armTime e) (e_lastRecAt e) (e_lastRecTy e).

(** [disarm]: the entry's address, if the agent was armed. *)
Definition disarm (mo : Monitor) (id : string) : option nat * Monitor :=
  match mo_agents mo !! id with
  | None => (None, mo)
  | Some a => (Some a, mkMonitor (alter bump_gen a (mo_heap mo)) (delete id (mo_agents mo)))
  end.

Definition Disarm (mo : Monitor) (id : string) : Monitor := (disarm mo id).2.

Definition NoteRecord (mo : Monitor) (id recType : string) (now : Z) : Monitor :=
  match mo_agents mo !! id with
  | None => mo
  | Some a =>
      mkMonitor
        (alter (λ e, mkEntry (e_gen e) (e_armTime e) now recType) a (mo_heap mo))
        (mo_agents mo)
  end.

Definition assessed_fields (id summary : string) (v : Verdict) (now : Z) : fields :=
  fields_of [("agent_id", JStr id); ("verdict", JStr (v_Verdict v)); ("summary", JStr summary);
    ("confidence", JStr (v_Confidence v)); ("reason", JStr (v_Reason v));
    ("assessed_at", JStr (Format now))]%string.

(** The two model calls of [assess]. *)
Definition run_pipeline (slm : SLMPipeline) (w : turnWindow) (tel : TurnTelemetry)
    (terminal : bool) : option (string * Verdict) :=
  match (if terminal then SummarizeTerminal slm else Summarize slm) (transcriptOf w) with
  | None => None
  | Some summary =>
      match Classify slm (mkTelemetry summary (tt_Elapsed tel) (tt_SinceLastRecord tel)
                            (tt_LastRecordType tel) (tt_RecordCount tel) (tt_TurnPrompt tel)) with
      | None => None
      | Some v => Some (summary, v)
      end
  end.

(** The rest of [assess], after the model answered at time [now]: a tick whose
    entry [e] has been disarmed in the meantime is dropped. *)
Definition publish_assessment (s : S) (h : EventHub) (e : monitorEntry) (id : string)
    (result : option (string * Verdict)) (terminal : bool) (now : Z) : S * EventHub :=
  match result with
  | None => (s, h)
  | Some (summary, v) =>
      if negb terminal && negb (e_gen e =? 0) then (s, h)
      else
        let '(_, s', h') := PublishLifecycle s h EventTypeAssessed
                              (assessed_fields id summary v now) in
        (s', h')
  end.

Definition telemetry (e : monitorEntry) (w : turnWindow) (now1 now2 : Z) : TurnTelemetry :=
  mkTelemetry "" (Sub now1 (e_armTime e)) (Sub now2 (e_lastRecAt e)) (e_lastRecTy e)
    (Z.of_nat (length (w_events w))) (w_prompt w).

(** The first half of [tick]: read the log, call the model.  The second half is
    [publish_assessment], on the entry as it is by then. *)
Definition tick_start (slm : SLMPipeline) (s : S) (h : EventHub) (e : monitorEntry) (now1 now2 : Z)
    : option (string * Verdict) :=
  match SubscribeSnapshot s h with
  | Err _ => None
  | Ok evs =>
      match currentTurnWindow evs with
      | None => None
      | Some w => run_pipeline slm w (telemetry e w now1 now2) false
      end
  end.

Definition SettleAssess (slm : SLMPipeline) (mo : Monitor) (s : S) (h : EventHub) (id : string)
    (now published : Z) : Monitor * S * EventHub :=
  let '(a, mo') := disarm mo id in
  match a with
  | None => (mo', s, h)
  | Some a =>
      match mo_heap mo' !! a, SubscribeSnapshot s h with
      | Some e, Ok evs =>
          match currentTurnWindow evs with
          | None => (mo', s, h)
          | Some w =>
              let '(s', h') := publish_assessment s h e id
                (run_pipeline slm w (telemetry e w now now) true) true published in
              (mo', s', h')
          end
      | _, _ => (mo', s, h)
      end
  end.

End monitor.

(** ** The assessment projection *)

Lemma assess_scan_bounds evs ts l p :
  gap_free evs → fold_left assess_scan evs (0, 0, mkPayload "" "" "" "" "") = (ts, l, p) →
  ts ≤ log_len evs ∧ l ≤ log_len evs.
Proof.
  revert ts l p. induction evs as [|ev evs IH] using rev_ind; intros ts l p Hg.
  { by intros [= <- <- _]. }
  rewrite fold_left_app. apply gap_free_snoc in Hg as [Hg Hseq].
  destruct (fold_left assess_scan evs _) as [[ts0 l0] p0] eqn:E.
  destruct (IH _ _ _ Hg eq_refl) as [Hts Hl]. simpl.
  assert (Hlen : log_len (evs ++ [ev]) = log_len evs + 1).
  { unfold log_len. rewrite length_app. simpl. lia. }
  rewrite Hlen. destruct (String.eqb _ _); [intros [= <- <- <-]; lia|].
  destruct (String.eqb _ _); [|intros [= <- <- <-]; lia].
  destruct (decode_payload _); [|intros [= <- <- <-]; lia].
  destruct (_ <? _); intros [= <- <- <-]; lia.
Qed.

(** An event that starts a turn or carries a readable assessment. *)
Definition turn_or_verdict (ev : Event) : Prop :=
  Typ ev = lifecycleTurnStarted ∨ (Typ ev = EventTypeAssessed ∧ is_Some (decode_payload (Data ev))).

Definition view_of (ev : Event) (p : AssessmentPayload) : AssessmentView :=
  mkView (p_Verdict p) (p_Summary p) (p_AssessedAt p) (Seq ev).

Definition latest_verdict (evs : list Event) (v : AssessmentView) : Prop :=
  ∃ before ev after p, evs = before ++ ev :: after ∧ Typ ev = EventTypeAssessed ∧
    decode_payload (Data ev) = Some p ∧ v = view_of ev p ∧
    Forall (λ e, ¬ turn_or_verdict e) after.

Lemma latest_verdict_snoc evs ev v :
  latest_verdict (evs ++ [ev]) v ↔
    (latest_verdict evs v ∧ ¬ turn_or_verdict ev) ∨
    (∃ p, Typ ev = EventTypeAssessed ∧ decode_payload (Data ev) = Some p ∧ v = view_of ev p).
Proof.
  split.
  - intros (b & e & a & p & Heq & Ht & Hd & Hv & Ha).
    destruct a as [|e' a _] using rev_ind.
    + apply app_inj_tail in Heq as [_ <-]. right. eauto.
    + rewrite app_comm_cons, app_assoc in Heq. apply app_inj_tail in Heq as [-> <-].
      apply Forall_app in Ha as [Ha He]. left. split.
      * by exists b, e, a, p.
      * by inversion He.
  - intros [[(b & e & a & p & -> & Ht & Hd & Hv & Ha) Hn]|(p & Ht & Hd & Hv)].
    + exists b, e, (a ++ [ev]), p. split_and!; [by rewrite <-app_assoc|done..|].
      apply Forall_app. auto.
    + by exists evs, ev, [], p.
Qed.

(** The projected assessment is the latest one of the current turn: on a
    gap-free log the view is [v] exactly when [v] is taken from the last event
    that carries a readable verdict and no turn was started after it. *)
Theorem assessment_is_latest evs v :
  gap_free evs → assessmentFromEvents evs = Some v ↔ latest_verdict evs v.
Proof.
  unfold assessmentFromEvents.
  induction evs as [|ev evs IH] using rev_ind; intros Hg.
  { split; [done|]. intros (b & e & a & p & Heq & _). by destruct b. }
  apply gap_free_snoc in Hg as [Hg Hseq]. specialize (IH Hg).
  rewrite latest_verdict_snoc, <-IH, fold_left_app. clear IH.
  destruct (fold_left assess_scan evs _) as [[ts l] p] eqn:E.
  destruct (assess_scan_bounds _ _ _ _ Hg E) as [Hts Hl]. cbn [fold_left assess_scan].
  unfold turn_or_verdict.
  destruct (String.eqb_spec (Typ ev) lifecycleTurnStarted) as [Ht|Ht].
  { rewrite (proj2 (N.leb_le l (Seq ev))), orb_true_r by lia. split; [done|].
    intros [[_ []]|(p' & Ha & _)]; [by left|]. rewrite Ht in Ha. done. }
  destruct (String.eqb_spec (Typ ev) EventTypeAssessed) as [Ha|Ha].
  - destruct (decode_payload (Data ev)) as [p'|] eqn:Ed.
    + rewrite (proj2 (N.ltb_lt l (Seq ev))) by lia.
      rewrite (proj2 (N.eqb_neq (Seq ev) 0)), (proj2 (N.leb_gt (Seq ev) ts)) by lia. simpl.
      unfold view_of. split; [intros [= <-]; right; eauto|].
      intros [[_ []]|(p1 & _ & [= <-] & ->)]; [by right|done].
    + split; [intros Hv; left; split; [done|]|by intros [[? _]|(? & _ & ? & _)]].
      intros [?|[_ [? ?]]]; done.
  - split; [intros Hv; left; split; [done|]|by intros [[? _]|(? & ? & _)]].
    intros [?|[? _]]; done.
Qed.

(** The assessed window is the current turn: from the last turn start on,
    the monitor's own events left out; there is none exactly when no turn was
    ever started. *)
Theorem window_is_current_turn evs :
  match currentTurnWindow evs with
  | None => Forall (λ e, Typ e ≠ lifecycleTurnStarted) evs
  | Some w => ∃ before start after, evs = before ++ start :: after ∧
      Typ start = lifecycleTurnStarted ∧
      Forall (λ e, Typ e ≠ lifecycleTurnStarted) after ∧
      w = mkWindow (Seq start) (prompt_of (Data start))
            (start :: filter (λ e, Typ e ≠ EventTypeAssessed) after)
  end.
Proof.
  unfold currentTurnWindow.
  assert (Hgen : ∀ revs after, Forall (λ e, Typ e ≠ lifecycleTurnStarted) after →
    match window_scan revs after with
    | None => Forall (λ e, Typ e ≠ lifecycleTurnStarted) (rev revs ++ after)
    | Some w => ∃ before start after', rev revs ++ after = before ++ start :: after' ∧
        Typ start = lifecycleTurnStarted ∧
        Forall (λ e, Typ e ≠ lifecycleTurnStarted) after' ∧
        w = mkWindow (Seq start) (prompt_of (Data start))
              (start :: filter (λ e, Typ e ≠ EventTypeAssessed) after')
    end).
  { intros revs. induction revs as [|ev revs IH]; intros after Ha; [done|].
    cbn [window_scan rev]. rewrite <-app_assoc.
    destruct (String.eqb_spec (Typ ev) lifecycleTurnStarted) as [Ht|Ht].
    - exists (rev revs), ev, after. split_and!; [done..|]. f_equal.
      rewrite filter_cons_True; [done|]. by rewrite Ht.
    - apply IH. by constructor. }
  specialize (Hgen (rev evs) [] (Forall_nil_2 _)). by rewrite rev_involutive, app_nil_r in Hgen.
Qed.

(** ** No late ticks *)

Section gate.
  Context {S : Type} `{EventStore S}.

(** The calls that touch the timer table, from whichever goroutine. *)
Inductive mon_op : Type :=
| MArm (s : S) (h : EventHub) (id : string) (now : Z)
| MDisarm (id : string)
| MNote (id recType : string) (now : Z).

Definition mon_step (mo : Monitor) (op : mon_op) : Monitor :=
  match op with
  | MArm s h id now => Arm mo s h id now
  | MDisarm id => Disarm mo id
  | MNote id ty now => NoteRecord mo id ty now
  end.

Definition mon_run (mo : Monitor) (ops : list mon_op) : Monitor := fold_left mon_step ops mo.

(** The table points at live entries of generation 0, one per agent; every
    entry out of the table has been disarmed once. *)
Definition mon_wf (mo : Monitor) : Prop :=
  (∀ id a, mo_agents mo !! id = Some a → ∃ e, mo_heap mo !! a = Some e ∧ e_gen e = 0) ∧
  (∀ id id' a, mo_agents mo !! id = Some a → mo_agents mo !! id' = Some a → id = id') ∧
  (∀ a e, mo_heap mo !! a = Some e → (∀ id, mo_agents mo !! id ≠ Some a) → e_gen e = 1).

Definition retired (mo : Monitor) (a : nat) : Prop :=
  (∃ e, mo_heap mo !! a = Some e) ∧ ∀ id, mo_agents mo !! id ≠ Some a.

Lemma Arm_wf mo s h id now a :
  mon_wf mo → mon_wf (Arm mo s h id now) ∧ (retired mo a → retired (Arm mo s h id now) a).
Proof.
  intros (W1 & W2 & W3). unfold Arm. destruct (mo_agents mo !! id) as [a0|] eqn:E; [done|].
  set (ty := match SubscribeSnapshot s h with Ok _ => _ | Err _ => _ end). clearbody ty.
  assert (Hlt : ∀ id' a', mo_agents mo !! id' = Some a' → (a' < length (mo_heap mo))%nat).
  { intros id' a' Hid. destruct (W1 _ _ Hid) as (e & He & _). by apply lookup_lt_Some in He. }
  split; [split_and!|]; cbn [mo_agents mo_heap].
  - intros id' a' [[<- <-]|[_ Hid]]%lookup_insert_Some.
    + eexists. by rewrite list_lookup_middle.
    + rewrite lookup_app_l by eauto. eauto.
  - intros id1 id2 a' [[<- <-]|[Hn1 H1]]%lookup_insert_Some [[<- H2]|[Hn2 H2]]%lookup_insert_Some;
      [done|apply Hlt in H2; lia|subst; apply Hlt in H1; lia|eauto].
  - intros a' e He Hno. destruct (decide (a' = length (mo_heap mo))) as [->|Hne].
    { destruct (Hno id). by rewrite lookup_insert_eq. }
    rewrite lookup_app_l in He.
    + apply (W3 a'); [done|]. intros id' Hid'. apply (Hno id').
      rewrite lookup_insert_ne; [done|]. intros ->. congruence.
    + apply lookup_lt_Some in He. rewrite length_app in He. simpl in He. lia.
  - intros [[e He] Hno]. split; cbn [mo_agents mo_heap].
    + exists e. rewrite lookup_app_l; [done|]. by apply lookup_lt_Some in He.
    + intros id'. rewrite lookup_insert_Some. intros [[<- <-]|[_ ?]]; [|by apply (Hno id')].
      apply lookup_lt_Some in He. lia.
Qed.

Lemma Disarm_wf mo id a :
  mon_wf mo → mon_wf (Disarm mo id) ∧ (retired mo a → retired (Disarm mo id) a) ∧
  (mo_agents mo !! id = Some a → retired (Disarm mo id) a).
Proof.
  intros (W1 & W2 & W3). unfold Disarm, disarm.
  destruct (mo_agents mo !! id) as [a0|] eqn:E; cbn [snd]; [|done].
  destruct (W1 _ _ E) as (e0 & He0 & Hg0).
  assert (Hother : ∀ id' a', delete id (mo_agents mo) !! id' = Some a' → a' ≠ a0 ∧
            mo_agents mo !! id' = Some a').
  { intros id' a' [Hn Hid]%lookup_delete_Some. split; [|done]. intros ->.
    by apply Hn, (W2 _ _ a0). }
  assert (Hret : retired (mkMonitor (alter bump_gen a0 (mo_heap mo))
                   (delete id (mo_agents mo))) a0).
  { split; cbn [mo_agents mo_heap].
    - rewrite list_lookup_alter_eq, He0. simpl. eauto.
    - intros id' Hid'. by apply Hother in Hid' as [? _]. }
  split_and!; [split_and!|..]; cbn [mo_agents mo_heap].
  - intros id' a' [Hne Hid]%Hother. rewrite list_lookup_alter_ne by done. eauto.
  - intros id1 id2 a' [_ H1]%Hother [_ H2]%Hother. eauto.
  - intros a' e He Hno. destruct (decide (a' = a0)) as [->|Hne].
    + rewrite list_lookup_alter_eq, He0 in He. injection He as <-. simpl. by rewrite Hg0.
    + rewrite list_lookup_alter_ne in He by done. apply (W3 a'); [done|].
      intros id' Hid'. apply (Hno id'). rewrite lookup_delete_ne; [done|]. intros ->. congruence.
  - intros [[e He] Hno]. split; cbn [mo_agents mo_heap].
    + destruct (decide (a = a0)) as [->|Hne]; [by destruct (Hno id)|].
      exists e. by rewrite list_lookup_alter_ne.
    + intros id' [_ Hid']%Hother. by apply (Hno id').
  - by intros [= <-].
Qed.

Lemma NoteRecord_wf mo id ty now a :
  mon_wf mo → mon_wf (NoteRecord mo id ty now) ∧
  (retired mo a → retired (NoteRecord mo id ty now) a).
Proof.
  intros (W1 & W2 & W3). unfold NoteRecord.
  destruct (mo_agents mo !! id) as [a0|] eqn:E; [|done].
  set (f := λ e, mkEntry (e_gen e) (e_armTime e) now ty).
  assert (Hf : ∀ a' e', alter f a0 (mo_heap mo) !! a' = Some e' →
            ∃ e, mo_heap mo !! a' = Some e ∧ e_gen e' = e_gen e).
  { intros a' e'. destruct (decide (a' = a0)) as [->|].
    - rewrite list_lookup_alter_eq. destruct (mo_heap mo !! a0); [|done].
      simpl. intros [= <-]. eauto.
    - rewrite list_lookup_alter_ne by done. eauto. }
  assert (Hf' : ∀ a' e, mo_heap mo !! a' = Some e →
            ∃ e', alter f a0 (mo_heap mo) !! a' = Some e' ∧ e_gen e' = e_gen e).
  { intros a' e He. destruct (decide (a' = a0)) as [->|].
    - rewrite list_lookup_alter_eq, He. simpl. eauto.
    - rewrite list_lookup_alter_ne by done. eauto. }
  split; [split_and!|]; cbn [mo_agents mo_heap]; [|done|..].
  - intros id' a' Hid. destruct (W1 _ _ Hid) as (e & He & Hg).
    destruct (Hf' _ _ He) as (e' & He' & Hg'). exists e'. by rewrite Hg'.
  - intros a' e' He' Hno. destruct (Hf _ _ He') as (e & He & ->). eauto.
  - intros [[e He] Hno]. destruct (Hf' _ _ He) as (e' & He' & _). split; eauto.
Qed.

Lemma mon_run_retired ops mo a :
  mon_wf mo → mon_wf (mon_run mo ops) ∧ (retired mo a → retired (mon_run mo ops) a).
Proof.
  revert mo. induction ops as [|op ops IH]; intros mo W; [done|].
  change (mon_run mo (op :: ops)) with (mon_run (mon_step mo op) ops).
  assert (Hstep : mon_wf (mon_step mo op) ∧ (retired mo a → retired (mon_step mo op) a)).
  { destruct op; simpl;
      [by apply Arm_wf|by destruct (Disarm_wf mo id a W) as (? & ? & _)|by apply NoteRecord_wf]. }
  destruct Hstep as [W' Hr]. destruct (IH _ W') as [W'' Hr']. split; [done|]. auto.
Qed.

(** No tick appends after its timer is disarmed.  From an empty monitor,
    through any calls on the timer table, disarming an agent retires its entry
    for good: whatever happens later, re-arming included, a tick still in
    flight on that entry leaves log and hub alone when it completes. *)
Theorem no_late_tick ops1 id a ops2 :
  let mo := mon_run (mkMonitor [] ∅) ops1 in
  mo_agents mo !! id = Some a →
  ∃ e, mo_heap (mon_run (Disarm mo id) ops2) !! a = Some e ∧
    ∀ (s : S) h id' result now, publish_assessment s h e id' result false now = (s, h).
Proof.
  intros mo Ha.
  assert (W0 : mon_wf (mkMonitor [] ∅)) by (split_and!; cbn; by intros).
  destruct (mon_run_retired ops1 _ a W0) as [W _]. fold mo in W.
  destruct (Disarm_wf mo id a W) as (W1 & _ & Hr). specialize (Hr Ha).
  destruct (mon_run_retired ops2 _ a W1) as [W2 Hr2].
  destruct (Hr2 Hr) as [[e He] Hno]. exists e. split; [done|].
  intros s h id' [[summary v]|] now; [|done]. unfold publish_assessment.
  destruct W2 as (_ & _ & W3). by rewrite (W3 a e He Hno).
Qed.

End gate.

(** ** Concrete monitors *)

Definition ex_turn : list Event :=
  [mkEvent 1 lifecycleTurnStarted (RJson (JObj [("prompt"%string, JStr "go")]));
   mkEvent 2 "text_delta" (RJson (JObj []));
   mkEvent 3 EventTypeAssessed (RJson (JObj [("verdict"%string, JStr "healthy")]));
   mkEvent 4 "text_delta" (RJson (JObj []))].

Lemma assessment_is_latest_witness : latest_verdict ex_turn (mkView "healthy" "" "" 3).
Proof. apply assessment_is_latest; [vm_compute; reflexivity|vm_compute; reflexivity]. Defined.

Lemma no_late_tick_witness :
  let mo := mon_run (S := MemDB) (mkMonitor [] ∅) [MArm mem_empty ex_hub ex_id 0%Z] in
  ∃ e, mo_heap (mon_run (Disarm mo ex_id) [MArm mem_empty ex_hub ex_id 5%Z]) !! 0%nat = Some e ∧
    ∀ (s : MemDB) h id' result now, publish_assessment s h e id' result false now = (s, h).
Proof.
  apply (no_late_tick (S := MemDB) [MArm mem_empty ex_hub ex_id 0%Z] ex_id 0
    [MArm mem_empty ex_hub ex_id 5%Z]). vm_compute. reflexivity.
Defined.
