(* ===== verification/Config.v ===== *)
(** * Create profiles and the controller configuration (src/controller/config.go)

    The create-time overrides, their validation, and their resolution against
    the configured defaults.  Validation errors carry the name of the offending
    field, as the code's [FieldError] does. *)

From Stdlib Require Import Ascii String ZArith.
From S2P Require Import Prelude Json GoTime GoStrings.
From stdpp Require Import base list strings numbers.
Local Open Scope Z_scope.
Local Open Scope string_scope.
Local Open Scope list_scope.

(** A [FieldError]: the field; the message text is left out. *)
Definition FieldError : Type := string.

Record Resources : Type := mkResources {
  CPU : string;
  Memory : string
}.

Record CreateProfile : Type := mkProfile {
  cp_Name : string;
  cp_Image : string;
  cp_Resources : option Resources;
  cp_Model : string;
  cp_ParentID : string
}.

Record ResolvedProfile : Type := mkResolved {
  rp_Name : string;
  rp_Image : string;
  rp_Resources : Resources;
  rp_Provider : string;
  rp_Model : string
}.

(** The zero value, which a replayed agent without a recorded profile has. *)
Definition zero_resolved : ResolvedProfile := mkResolved "" "" (mkResources "" "") "" "".

(** One entry of the credential binding table (src/controller/credentials.go). *)
Record Binding : Type := mkBinding {
  b_Provider : string;
  b_Hosts : list string
}.

Inductive TransportKind : Type := TransportPull | TransportExec | TransportOther (name : string).

#[global] Instance TransportKind_eq_dec : EqDecision TransportKind.
Proof. solve_decision. Defined.

(** The part of [Config] the controller's logic reads. *)
Record Config : Type := mkConfig {
  DefaultProvider : string;
  DefaultImage : string;
  DefaultModel : string;
  DefaultResources : Resources;
  Transport : TransportKind;
  SpawnMaxDepth : Z;
  SpawnMaxChildren : Z;
  ReviveMax : Z;
  ReviveCooldown : Z;
  ControllerServiceHost : string;
  ControllerServicePort : Z
}.

(** ** The patterns *)

Definition digit : re := RClass (in_range "0" "9").

Definition is_lower (c : ascii) : bool := in_range "a" "z" c.
Definition is_upper (c : ascii) : bool := in_range "A" "Z" c.
Definition is_digit (c : ascii) : bool := in_range "0" "9" c.
Definition one_of (s : string) (c : ascii) : bool := existsb (Ascii.eqb c) (chars s).
Definition alnum (c : ascii) : bool := is_lower c || is_upper c || is_digit c.

(** [^[0-9]+(?:\.[0-9]+)?m?$] *)
Definition cpuQuantityRe : re :=
  RSeq (many1 digit) (RSeq (opt (RSeq (lit ".") (many1 digit))) (opt (lit "m"))).

(** [^[0-9]+(?:\.[0-9]+)?(?:E|P|T|G|M|K|Ei|Pi|Ti|Gi|Mi|Ki)?$] *)
Definition memoryQuantityRe : re :=
  RSeq (many1 digit) (RSeq (opt (RSeq (lit ".") (many1 digit)))
    (opt (RSeq (RClass (one_of "EPTGMK")) (opt (lit "i"))))).

(** [^[a-z0-9]([-a-z0-9]{0,61}[a-z0-9])?$] *)
Definition agentNameRe : re :=
  let ln := RClass (λ c, is_lower c || is_digit c) in
  RSeq ln (opt (RSeq (upto 61 (RClass (λ c, is_lower c || is_digit c || Ascii.eqb c "-"))) ln)).

(** The OCI reference pattern: host, port, path, tag, digest. *)
Definition imageRefRe : re :=
  RSeq (RClass alnum)
  (RSeq (RStar (RClass (λ c, alnum c || one_of "._-" c)))
  (RSeq (opt (RSeq (lit ":") (many1 digit)))
  (RSeq (RStar (RSeq (lit "/") (many1 (RClass (λ c, alnum c || one_of "._/-" c)))))
  (RSeq (opt (RSeq (lit ":") (many1 (RClass (λ c, alnum c || one_of "._-" c)))))
        (opt (RSeq (lit_str "@sha256:") (times 64 (RClass (λ c, in_range "a" "f" c || is_digit c))))))))).

(** [^[A-Za-z0-9._-]+$] *)
Definition providerRe : re := many1 (RClass (λ c, alnum c || one_of "._-" c)).

(** [^[A-Za-z0-9._:/-]+$] *)
Definition modelRe : re := many1 (RClass (λ c, alnum c || one_of "._:/-" c)).

(** ** Validation and resolution *)

Definition Resources_Validate (r : Resources) : option FieldError :=
  if negb (MatchString cpuQuantityRe (CPU r)) then Some "resources"
  else if negb (MatchString memoryQuantityRe (Memory r)) then Some "resources"
  else None.

(** The characters [" \t\n"]. *)
Definition blanks : string := String " " (String "009" (String "010" EmptyString)).

Definition non_empty (s : string) : bool := negb (String.eqb s "").

Definition CreateProfile_Validate (p : CreateProfile) : option FieldError :=
  if non_empty (cp_Name p) &&
     ((19 <? String.length (cp_Name p))%nat || negb (MatchString agentNameRe (cp_Name p)))
  then Some "name"
  else if non_empty (cp_Image p) &&
     (ContainsAny (cp_Image p) blanks || negb (MatchString imageRefRe (cp_Image p)))
  then Some "image"
  else match match cp_Resources p with Some r => Resources_Validate r | None => None end with
  | Some e => Some e
  | None =>
      if non_empty (cp_Model p) && negb (MatchString modelRe (cp_Model p)) then Some "model"
      else if non_empty (cp_ParentID p) && negb (MatchString providerRe (cp_ParentID p))
      then Some "parent_id"
      else None
  end.

Definition or_default (s d : string) : string := if String.eqb s "" then d else s.

Definition ResolveProfile (c : Config) (p : CreateProfile) : res FieldError ResolvedProfile :=
  match CreateProfile_Validate p with
  | Some e => Err e
  | None =>
      let r := mkResolved (cp_Name p) (or_default (cp_Image p) (DefaultImage c))
                 (default (DefaultResources c) (cp_Resources p))
                 (DefaultProvider c) (or_default (cp_Model p) (DefaultModel c)) in
      match CreateProfile_Validate
              (mkProfile (rp_Name r) (rp_Image r) (Some (rp_Resources r)) (rp_Model r) "") with
      | Some e => Err e
      | None => Ok r
      end
  end.

(** [inheritProfile] (src/controller/agent.go): omitted fields take the
    parent's value; the name is never inherited. *)
Definition inheritProfile (p : CreateProfile) (parent : ResolvedProfile) : CreateProfile :=
  mkProfile (cp_Name p) (or_default (cp_Image p) (rp_Image parent))
    (match cp_Resources p with Some r => Some r | None => Some (rp_Resources parent) end)
    (or_default (cp_Model p) (rp_Model parent)) (cp_ParentID p).

(** ** Theorems *)

(** A profile of plain values passes validation. *)
Definition valid_resolved (r : ResolvedProfile) : Prop :=
  CreateProfile_Validate
    (mkProfile (rp_Name r) (rp_Image r) (Some (rp_Resources r)) (rp_Model r) "") = None.

Lemma ResolveProfile_ok c p r :
  ResolveProfile c p = Ok r →
  valid_resolved r ∧ rp_Provider r = DefaultProvider c ∧ rp_Name r = cp_Name p ∧
  rp_Image r = or_default (cp_Image p) (DefaultImage c) ∧
  rp_Model r = or_default (cp_Model p) (DefaultModel c) ∧
  rp_Resources r = default (DefaultResources c) (cp_Resources p).
Proof.
  unfold ResolveProfile. destruct (CreateProfile_Validate p); [done|].
  destruct (CreateProfile_Validate _) eqn:E; [done|]. intros [= <-]. done.
Qed.

(** The shape the gateway accepts as a sandbox name: at most 19 characters of
    a lower-case DNS label. *)
Definition gateway_name (s : string) : Prop :=
  (String.length s ≤ 19)%nat ∧ lang agentNameRe (chars s).

(** Resolution is explicit-over-inherited-over-default, and only valid
    values come out.  When a child's create request resolves against its
    parent, each field is the request's if given, else the parent's, else the
    configured default; the provider is always the deployment's; the name is
    never inherited; and the result passes validation, so a given name is one
    the gateway accepts. *)
Theorem child_profile_resolution c p parent r :
  ResolveProfile c (inheritProfile p parent) = Ok r →
  rp_Provider r = DefaultProvider c ∧ rp_Name r = cp_Name p ∧
  rp_Image r = or_default (cp_Image p) (or_default (rp_Image parent) (DefaultImage c)) ∧
  rp_Model r = or_default (cp_Model p) (or_default (rp_Model parent) (DefaultModel c)) ∧
  rp_Resources r = default (rp_Resources parent) (cp_Resources p) ∧
  valid_resolved r ∧ (rp_Name r ≠ "" → gateway_name (rp_Name r)).
Proof.
  intros (Hv & Hp & Hn & Hi & Hm & Hr)%ResolveProfile_ok. simpl in *.
  assert (Hor : ∀ a b d, or_default (or_default a b) d = or_default a (or_default b d)).
  { intros a b d. unfold or_default.
    destruct (String.eqb a "") eqn:Ea; [done|by rewrite Ea]. }
  rewrite !Hor in Hi, Hm. split_and!; try done.
  - by rewrite Hr; destruct (cp_Resources p).
  - intros Hne. unfold valid_resolved, CreateProfile_Validate in Hv. cbn [cp_Name] in Hv.
    assert (Hnb : non_empty (rp_Name r) = true).
    { unfold non_empty. apply negb_true_iff, String.eqb_neq, Hne. }
    rewrite Hnb in Hv. cbn [andb] in Hv.
    destruct ((19 <? String.length (rp_Name r))%nat) eqn:El; [done|].
    destruct (MatchString agentNameRe (rp_Name r)) eqn:Em; [|done].
    split; [by apply Nat.ltb_ge|by apply re_matches_lang].
Qed.

Definition ex_config : Config :=
  mkConfig "openrouter-spike" "ghcr.io/dzungtr/pi-openshell:openrouter" "" (mkResources "1" "2Gi")
    TransportPull 2 8 3 (60 * second) "kape-controller.openshell.svc.cluster.local" 8081.

Definition ex_resolved : ResolvedProfile :=
  mkResolved "sbx-1" "ghcr.io/x/y:1" (mkResources "500m" "512Mi") "openrouter-spike" "z-ai/glm-5.2".

Lemma child_profile_resolution_witness :
  ∃ r, ResolveProfile ex_config (inheritProfile (mkProfile "child" "" None "m" "") ex_resolved) = Ok r ∧
    rp_Image r = "ghcr.io/x/y:1" ∧ gateway_name (rp_Name r).
Proof.
  eexists. split; [vm_compute; reflexivity|]. split; [reflexivity|].
  apply (child_profile_resolution ex_config (mkProfile "child" "" None "m" "") ex_resolved);
    [vm_compute; reflexivity|discriminate].
Defined.
