(* ===== verification/Slm.v ===== *)
(** * The language-model client (src/controller/slm.go)

    The two calls of the assessment pipeline: requests as the documents that are
    posted, answers decoded as [encoding/json] does, and the client as the
    [SLMPipeline] the monitor runs. *)

From Stdlib Require Import Ascii String ZArith QArith.
From S2P Require Import Prelude Json GoTime GoStrings Bolt EventStore EventHub Fsm Monitor Config.
From stdpp Require Import base list strings numbers gmap pretty.
Local Open Scope Z_scope.

Definition VerdictHealthy : string := "healthy".
Definition VerdictLooping : string := "looping".
Definition VerdictBlocked : string := "blocked".
Definition VerdictDegraded : string := "degraded".
Definition VerdictFinished : string := "finished".
Definition VerdictFailed : string := "failed".

Definition verdicts : list string :=
  [VerdictHealthy; VerdictLooping; VerdictBlocked; VerdictDegraded; VerdictFinished; VerdictFailed].

Definition validVerdicts (s : string) : bool := bool_decide (s ∈ verdicts).

Definition summarizeMaxTokens : Z := 400.
Definition turnPromptMaxChars : nat := 200.

Record SLMClient : Type := mkSLMClient {
  sc_baseURL : string;
  sc_decisionsURL : string;
  sc_apiKey : string;
  sc_summarizerModel : string;
  sc_classifierModel : string
}.

Definition NewSLMClient (BaseURL APIKey SummarizerModel ClassifierModel : string) : SLMClient :=
  mkSLMClient (TrimSuffix BaseURL "/") (TrimSuffix (TrimSuffix BaseURL "/") "/v1" +:+ "/alpha/decisions")
    APIKey SummarizerModel ClassifierModel.

(** ** The calls *)

Inductive slm_err : Type :=
| SCancelled
| SCall (url : string)
| SStatus (url : string) (code : Z)
| SUnparseable (url : string)
| SEmpty (model : string)
| SMissingAnswers
| SUnknownVerdict (choice : string).

(** The transport: the URL, the bearer token and the body, to the status and the
    body of the answer; [None] is a failed call, timeouts included. *)
Notation slm_transport := (string → string → json → option (Z * RawMessage)).

(** [post] up to the decoding, which depends on the type of [out]. *)
Definition post (c : SLMClient) (http : slm_transport) (url : string) (body : json) : res slm_err RawMessage :=
  match http url ("Bearer " +:+ sc_apiKey c) body with
  | None => Err (SCall url)
  | Some (code, b) => if (code <? 200) || (299 <? code) then Err (SStatus url code) else Ok b
  end.

Definition nl : string := String "010"%char EmptyString.

Definition summarizePrompt (transcript : string) (terminal : bool) : string :=
  "Summarize this software-agent turn transcript. Capture:" +:+ nl +:+
  "1. What the agent was asked to do." +:+ nl +:+
  "2. What it has done so far — key actions, tool calls, files/PRs/issues touched." +:+ nl +:+
  "3. Its current focus." +:+ nl +:+
  "4. Errors, retries, and repetition patterns." +:+ nl +:+
  (if terminal then
     "5. Final outcomes, with deliverable references (PR numbers, URLs, branch names, issue numbers) preserved verbatim." +:+ nl
   else "") +:+
  "Be concrete and factual; no speculation beyond the transcript. Max ~300 words." +:+ nl +:+ nl +:+
  "Transcript:" +:+ nl +:+ transcript.

Definition summarize_body (c : SLMClient) (transcript : string) (terminal : bool) : json :=
  JObj [("max_tokens", JInt summarizeMaxTokens);
        ("messages", JArr [JObj [("content", JStr (summarizePrompt transcript terminal)); ("role", JStr "user")]]);
        ("model", JStr (sc_summarizerModel c)); ("temperature", JInt 0)]%string.

(** The members of the structs a field of struct type is filled from: a repeated
    member goes on filling the same struct; with whether one is no object. *)
Definition struct_field (field : string) (ms : fields) : fields * bool :=
  fold_left (λ st kv,
    if key_matches field (fst kv) then
      match snd kv with
      | JObj ms' => (fst st ++ ms', snd st)
      | JNull => st
      | _ => (fst st, true)
      end
    else st) ms ([], false).

(** One choice: the content of its message, [None] on a type error. *)
Definition choice_content (j : json) : option string :=
  match unmarshal_struct (RJson j) with
  | None => None
  | Some ms =>
      let '(msg, bad1) := struct_field "message" ms in
      let '(content, bad2) := string_field "content" msg in
      if bad1 || bad2 then None else Some content
  end.

Definition conv_choices (j : json) : option (list string) :=
  match j with JArr l => mapM choice_content l | _ => None end.

Definition summarize (c : SLMClient) (http : slm_transport) (cancelled : bool) (transcript : string) (terminal : bool) :
    res slm_err string :=
  if cancelled then Err SCancelled
  else
    let url := sc_baseURL c +:+ "/chat/completions" in
    match post c http url (summarize_body c transcript terminal) with
    | Err e => Err e
    | Ok r =>
        match unmarshal_struct r with
        | None => Err (SUnparseable url)
        | Some ms =>
            let '(choices, bad) := decode_nilable conv_choices "choices" [] ms in
            if bad then Err (SUnparseable url)
            else match choices with
                 | content :: _ => if String.eqb content "" then Err (SEmpty (sc_summarizerModel c)) else Ok content
                 | [] => Err (SEmpty (sc_summarizerModel c))
                 end
        end
    end.

(** *** The classifier *)

Definition RuneStart (c : ascii) : bool := negb ((128 <=? nat_of_ascii c)%nat && (nat_of_ascii c <? 192)%nat).

(** The loop that backs off to the start of a rune. *)
Fixpoint back_off (s : list ascii) (n : nat) : nat :=
  match n with
  | O => O
  | S n' => match s !! n with Some c => if RuneStart c then n else back_off s n' | None => n end
  end.

Definition truncate (s : list ascii) (n : nat) : list ascii :=
  if (length s <=? n)%nat then s else take (back_off s n) s.

Definition verdictQuestions : json :=
  JObj [("confidence", JObj [("criteria", JArr [JStr "uncertain"; JStr "likely"; JStr "certain"]);
                             ("instructions", JStr "How confident is the verdict?"); ("type", JStr "score")]);
        ("verdict", JObj [("criteria", JObj
           [(VerdictBlocked, JStr "The agent correctly stopped on a missing environment prerequisite — credentials, config, tools, permissions, resources, or denied egress.");
            (VerdictDegraded, JStr "The LLM provider or platform infrastructure is failing — provider errors, timeouts, or no responses arriving.");
            (VerdictFailed, JStr "The agent errored out, hit context limits, or settled without completing the task.");
            (VerdictFinished, JStr "The agent has completed its task.");
            (VerdictHealthy, JStr "The agent is progressing toward its task, including slow-but-steady long-running work.");
            (VerdictLooping, JStr "The agent is repeating the same actions or drifting off task — model misbehavior.")]);
           ("instructions", JStr "Classify the state of this software agent turn."); ("type", JStr "choice")])]%string.

(** The 64-bit value of a number literal: [None] when it is out of range.  [float]
    reads the literals with a fraction or an exponent. *)
Definition float_value (float : string → option Q) (j : json) : option Q :=
  match j with
  | JInt z => if Z.abs z <? 2 ^ 1024 - 2 ^ 970 then Some (inject_Z z) else None
  | JNum l => float l
  | _ => None
  end.

(** Whether a document decodes into an [any]: every number is in range. *)
Fixpoint decodes_any (float : string → option Q) (j : json) : bool :=
  match j with
  | JInt _ | JNum _ => match float_value float j with Some _ => true | None => false end
  | JArr l => forallb (decodes_any float) l
  | JObj ms => forallb (λ kv, decodes_any float (snd kv)) ms
  | _ => true
  end.

(** The [answers] map: a repeated object goes on filling it, [null] unsets it. *)
Definition answers_of (float : string → option Q) (ms : fields) : option fields * bool :=
  fold_left (λ st kv,
    if key_matches "answers" (fst kv) then
      match snd kv with
      | JObj l => (Some (fold_left (λ m e, fput (fst e) (snd e) m) l (default [] (fst st))), snd st || negb (decodes_any float (snd kv)))
      | JNull => (None, snd st)
      | _ => (fst st, true)
      end
    else st) ms (None, false).

(** A value used as a [map[string]any]: the member of that key. *)
Definition any_get (k : string) (v : option json) : option json :=
  match v with Some (JObj ms) => fget k (fields_of ms) | _ => None end.

Definition confidenceLevel (float : string → option Q) (raw : option json) : string :=
  match raw with
  | Some (JObj _) =>
      match any_get "score" raw with
      | Some (JInt _ as j) | Some (JNum _ as j) =>
          match float_value float j with
          | Some f => if Qle_bool f (1 # 2) then "uncertain" else if Qle_bool f (3 # 2) then "likely" else "certain"
          | None => "uncertain"
          end
      | _ => "uncertain"
      end
  | _ => "uncertain"
  end.

Definition parseDecisionAnswers (float : string → option Q) (answers : option fields) : res slm_err Verdict :=
  match answers with
  | None => Err SMissingAnswers
  | Some a =>
      let choice := match any_get "choice" (fget "verdict" a) with Some (JStr s) => s | _ => ""%string end in
      if negb (validVerdicts choice) then Err (SUnknownVerdict choice)
      else Ok (mkVerdict choice (confidenceLevel float (fget "confidence" a)) "")
  end.

(** [fmt_g] prints the seconds of a duration with [%g]. *)
Definition classify_state (fmt_g : Z → string) (t : TurnTelemetry) : string :=
  "task: " +:+ string_of_list_ascii (truncate (chars (tt_TurnPrompt t)) turnPromptMaxChars) +:+ nl +:+
  "elapsed_seconds: " +:+ fmt_g (tt_Elapsed t) +:+ nl +:+
  "seconds_since_last_record: " +:+ fmt_g (tt_SinceLastRecord t) +:+ nl +:+
  "last_record_type: " +:+ tt_LastRecordType t +:+ nl +:+
  "record_count: " +:+ pretty (tt_RecordCount t) +:+ nl +:+
  "summary: " +:+ tt_Summary t.

Definition client_Classify (float : string → option Q) (fmt_g : Z → string) (c : SLMClient) (http : slm_transport)
    (cancelled : bool) (t : TurnTelemetry) : res slm_err Verdict :=
  if cancelled then Err SCancelled
  else
    match post c http (sc_decisionsURL c)
            (JObj [("model", JStr (sc_classifierModel c)); ("questions", verdictQuestions); ("state", JStr (classify_state fmt_g t))]%string) with
    | Err e => Err e
    | Ok r =>
        match unmarshal_struct r with
        | None => Err (SUnparseable (sc_decisionsURL c))
        | Some ms =>
            let '(answers, bad) := answers_of float ms in
            if bad then Err (SUnparseable (sc_decisionsURL c)) else parseDecisionAnswers float answers
        end
    end.

(** The client as the monitor's pipeline; [render] is the transcript's text. *)
Definition slm_pipeline (float : string → option Q) (fmt_g : Z → string) (render : list (string * RawMessage) → string)
    (c : SLMClient) (http : slm_transport) (cancelled : bool) : SLMPipeline :=
  let ok {A} (r : res slm_err A) := match r with Ok a => Some a | Err _ => None end in
  mkSLM (λ tr, ok (summarize c http cancelled (render tr) false))
        (λ tr, ok (summarize c http cancelled (render tr) true))
        (λ t, ok (client_Classify float fmt_g c http cancelled t)).

(** ** Theorems *)

Definition levels : list string := ["uncertain"; "likely"; "certain"]%string.

Lemma confidenceLevel_closed float raw : confidenceLevel float raw ∈ levels.
Proof.
  unfold confidenceLevel, levels. destruct raw as [[]|]; try set_solver.
  destruct (any_get _ _) as [[]|]; try set_solver; destruct (float_value _ _); try set_solver;
    repeat case_match; set_solver.
Qed.

Lemma client_Classify_closed float fmt_g c http cancelled t v : client_Classify float fmt_g c http cancelled t = Ok v →
  v_Verdict v ∈ verdicts ∧ v_Confidence v ∈ levels ∧ v_Reason v = ""%string.
Proof.
  unfold client_Classify. destruct cancelled; [done|]. destruct (post _ _ _ _) as [r|]; [|done].
  destruct (unmarshal_struct r); [|done]. destruct (answers_of _ _) as [a []]; [done|].
  unfold parseDecisionAnswers. destruct a as [a|]; [|done].
  match goal with |- context [validVerdicts ?x] => set (choice := x); unfold validVerdicts end.
  case_bool_decide as Hin; [|done]. intros [= <-]. split_and!; [done|apply confidenceLevel_closed|done].
Qed.

Lemma summarize_nonempty c http cancelled tr terminal s : summarize c http cancelled tr terminal = Ok s → s ≠ ""%string.
Proof.
  unfold summarize. destruct cancelled; [done|]. destruct (post _ _ _ _) as [r|]; [|done].
  destruct (unmarshal_struct r); [|done]. destruct (decode_nilable _ _ _ _) as [ch []]; [done|].
  destruct ch as [|x ch]; [done|]. destruct (String.eqb_spec x ""); [done|]. by intros [= <-].
Qed.

Section Assessed.
Context {S : Type} `{EventStore S}.

(** Every assessment in the log is one of the six.  Whatever the model endpoint
    answers, an assessment that the monitor appends with this client, on a tick or
    on settling, decodes back to a verdict of the closed set, a confidence of the
    three levels, an empty reason and a non-empty summary; anything else the
    endpoint says is an error, and then nothing is appended. *)
Theorem assessments_closed float fmt_g render c http cancelled w tel terminal (s s' : S) h h' id now summary v ev :
  run_pipeline (slm_pipeline float fmt_g render c http cancelled) w tel terminal = Some (summary, v) →
  PublishLifecycle s h EventTypeAssessed (assessed_fields id summary v now) = (Some ev, s', h') →
  ∃ p, decode_payload (Data ev) = Some p ∧ p_Verdict p ∈ verdicts ∧ p_Confidence p ∈ levels ∧
    p_Reason p = ""%string ∧ p_Summary p = summary ∧ summary ≠ ""%string ∧ p_AssessedAt p = Format now.
Proof.
  intros Hrun Hpub.
  assert (v_Verdict v ∈ verdicts ∧ v_Confidence v ∈ levels ∧ v_Reason v = ""%string ∧ summary ≠ ""%string) as (Hv & Hc & Hr & Hs).
  { unfold run_pipeline, slm_pipeline in Hrun. cbn [Summarize SummarizeTerminal Classify] in Hrun.
    assert (∃ tr, summarize c http cancelled tr terminal = Ok summary ∧ ∃ t, client_Classify float fmt_g c http cancelled t = Ok v)
      as (tr & Hsum & t & Hcl).
    { destruct terminal; (destruct (summarize _ _ _ _ _) as [sm|] eqn:Es; [|done]);
        (destruct (client_Classify _ _ _ _ _ _) as [v'|] eqn:Ec; [|done]); injection Hrun as <- <-; eauto. }
    destruct (client_Classify_closed _ _ _ _ _ _ _ Hcl) as (? & ? & ?). apply summarize_nonempty in Hsum. done. }
  unfold PublishLifecycle in Hpub. destruct (h_closed h); [done|].
  destruct (Append _ _ _) as [[e|] s1]; [done|]. injection Hpub as <- _ _. cbn [Data].
  unfold assessed_fields. generalize (Format now) as at_, (JInt (Z.of_N (u64_succ (h_nextSeq h)))) as z. intros at_ z.
  exists (mkPayload (v_Verdict v) summary (v_Confidence v) (v_Reason v) at_). by split; [vm_compute|].
Qed.

End Assessed.

(** ** Truncation *)

(** The encoding of one rune: a byte that starts one and at most three that go on. *)
Definition rune (r : list ascii) : Prop :=
  ∃ c cs, r = c :: cs ∧ RuneStart c = true ∧ Forall (λ x, RuneStart x = false) cs ∧ (length cs ≤ 3)%nat.

Lemma back_off_stop s n c : s !! n = Some c → RuneStart c = true → back_off s n = n.
Proof. destruct n as [|n]; [done|]. intros Hs Hc. cbn [back_off]. by rewrite Hs, Hc. Qed.

Lemma back_off_run a c cs r i : RuneStart c = true → Forall (λ x, RuneStart x = false) cs → (i ≤ length cs)%nat →
  back_off (a ++ c :: cs ++ r) (length a + i) = length a.
Proof.
  intros Hc Hcs. induction i as [|i IH]; intros Hi.
  - rewrite Nat.add_0_r. apply (back_off_stop _ _ c); [|done]. by rewrite list_lookup_middle.
  - replace (length a + S i)%nat with (S (length a + i)) by lia. cbn [back_off].
    destruct (lookup_lt_is_Some_2 cs i) as [x Hx]; [lia|].
    assert ((a ++ c :: cs ++ r) !! S (length a + i) = Some x) as ->.
    { rewrite lookup_app_r by lia. replace (S (length a + i) - length a)%nat with (S i) by lia. simpl.
      rewrite lookup_app_l by lia. done. }
    rewrite (proj1 (Forall_lookup _ _) Hcs _ _ Hx). apply IH. lia.
Qed.

(** The prompt in the classifier's state is cut between runes.  On text made of
    whole runes [truncate] keeps the longest run of whole runes that fits. *)
Theorem truncate_whole_runes rs n : Forall rune rs →
  ∃ k, truncate (concat rs) n = concat (take k rs) ∧ (length (concat (take k rs)) ≤ n)%nat ∧
    (k < length rs → n < length (concat (take (S k) rs)))%nat.
Proof.
  intros Hrs. unfold truncate. destruct (Nat.leb_spec (length (concat rs)) n) as [Hle|Hgt].
  { exists (length rs). rewrite take_ge by lia. split_and!; [done|done|lia]. }
  assert (∃ k, k < length rs ∧ length (concat (take k rs)) ≤ n ∧ n < length (concat (take (S k) rs)))%nat as (k & Hk & H1 & H2).
  { clear Hrs. induction rs as [|r rs IH] using rev_ind; [simpl in Hgt; lia|].
    rewrite concat_app, length_app in Hgt. simpl in Hgt. rewrite app_nil_r in Hgt.
    destruct (decide (n < length (concat rs)))%nat as [Hn|Hn].
    - destruct (IH Hn) as (k & Hk & H1 & H2). exists k. rewrite length_app. split; [lia|].
      by rewrite !take_app_le by lia.
    - exists (length rs). rewrite length_app, take_app_length. simpl. split_and!; [lia|lia|].
      rewrite take_ge by (rewrite length_app; simpl; lia). rewrite concat_app, length_app. simpl. rewrite app_nil_r. lia. }
  exists k. split_and!; [|done|done].
  destruct (lookup_lt_is_Some_2 rs k Hk) as [r Hr].
  destruct (proj1 (Forall_lookup _ _) Hrs _ _ Hr) as (c & cs & -> & Hc & Hcs & _).
  rewrite (take_S_r _ _ _ Hr), concat_app, length_app in H2. simpl in H2. rewrite app_nil_r in H2.
  rewrite <-(take_drop_middle _ _ _ Hr) at 1 2. rewrite concat_app. cbn [concat].
  set (a := concat (take k rs)) in *. replace n with (length a + (n - length a))%nat by lia.
  rewrite (back_off_run a c cs (concat (drop (S k) rs))) by (done || lia).
  by rewrite take_app_length.
Qed.

(** ** Endpoints *)

(** Both endpoints come from the configured base URL: with or without a trailing
    slash, a base that ends in [/v1] has the completions below it and the decisions
    beside it. *)
Theorem endpoints_derived root slash key m1 m2 :
  let c := NewSLMClient (root +:+ "/v1" +:+ (if slash : bool then "/" else "")) key m1 m2 in
  sc_baseURL c = root +:+ "/v1" ∧ sc_decisionsURL c = root +:+ "/alpha/decisions".
Proof.
  intros c. unfold c, NewSLMClient. cbn [sc_baseURL sc_decisionsURL].
  assert (Hb : TrimSuffix (root +:+ "/v1" +:+ (if slash then "/" else "")) "/" = root +:+ "/v1").
  { destruct slash; [by rewrite <-str_app_assoc, TrimSuffix_app|].
    change ("/v1" +:+ "") with ("/v" +:+ "1"). change "/v1"%string with ("/v" +:+ "1"). rewrite <-str_app_assoc. by apply TrimSuffix_other. }
  rewrite Hb, TrimSuffix_app. done.
Qed.

(** ** Examples *)

Module Samples.

Definition client : SLMClient := NewSLMClient "https://host/api/v1/" "key" "sum" "cls".

(** An endpoint that answers both calls. *)
Definition endpoint (url _ : string) (_ : json) : option (Z * RawMessage) :=
  if String.eqb url "https://host/api/v1/chat/completions" then
    Some (200, RJson (JObj [("choices", JArr [JObj [("message", JObj [("content", JStr "works")])]])]%string))
  else if String.eqb url "https://host/api/alpha/decisions" then
    Some (200, RJson (JObj [("answers", JObj [("verdict", JObj [("choice", JStr "looping")]); ("confidence", JObj [("score", JInt 2)])])]%string))
  else None.

Definition pipe : SLMPipeline := slm_pipeline (λ _, None) (λ _, ""%string) (λ _, "t"%string) client endpoint false.

Definition telem : TurnTelemetry := mkTelemetry "" 0 0 "" 1 "do it".

Lemma endpoint_used : run_pipeline pipe (mkWindow 1 "" []) telem false = Some ("works"%string, mkVerdict "looping" "certain" "").
Proof. by vm_compute. Qed.

Lemma assessments_closed_witness :
  let published := PublishLifecycle ex_db ex_hub EventTypeAssessed (assessed_fields ex_id "works" (mkVerdict "looping" "certain" "") 0) in
  ∃ ev p, published.1.1 = Some ev ∧ decode_payload (Data ev) = Some p ∧ p_Verdict p ∈ verdicts.
Proof.
  intros published. destruct published as [[[ev|] s'] h'] eqn:E.
  - destruct (assessments_closed (λ _, None) (λ _, ""%string) (λ _, "t"%string) client endpoint false (mkWindow 1 "" []) telem false
      ex_db s' ex_hub h' ex_id 0 "works" (mkVerdict "looping" "certain" "") ev) as (p & Hp & Hv & _);
      [vm_compute; reflexivity|exact E|]. by exists ev, p.
  - assert (published.1.1 ≠ None) as Hn by (vm_compute; discriminate). by rewrite E in Hn.
Defined.

Lemma truncate_whole_runes_witness :
  ∃ k, truncate (concat [["a"]; ["195"; "169"]; ["b"]]%char) 2 = concat (take k [["a"]; ["195"; "169"]; ["b"]]%char).
Proof.
  destruct (truncate_whole_runes [["a"]; ["195"; "169"]; ["b"]]%char 2) as (k & Hk & _); [|by exists k].
  repeat constructor; by (eexists _, _; split_and!; [reflexivity|done|repeat constructor|simpl; lia]).
Defined.

End Samples.
