(* ===== verification/Agent.v ===== *)
(** * One agent (src/controller/agent.go)

    The agent object and the operations that act on one agent under its lock:
    prompt, steer and abort on both data planes, the reaction to a record of
    the coding agent, and liveness failure.  Every operation takes the store,
    the monitor and the agent and returns them updated, together with the calls
    it made to the outside; the answers of those calls are arguments. *)

From Stdlib Require Import String ZArith.
From S2P Require Import Prelude Json GoTime Bolt EventStore EventHub Fsm Monitor Config.
From stdpp Require Import base list strings numbers gmap pretty.
Local Open Scope Z_scope.

(** ** State *)

Inductive AgentStatus : Type :=
| StatusCreating
| StatusReady
| StatusWorking
| StatusFailed
| StatusTerminated.

#[global] Instance AgentStatus_eq_dec : EqDecision AgentStatus.
Proof. solve_decision. Defined.

Definition status_name (st : AgentStatus) : string :=
  match st with
  | StatusCreating => "creating"
  | StatusReady => "ready"
  | StatusWorking => "working"
  | StatusFailed => "failed"
  | StatusTerminated => "terminated"
  end.

Definition piSettledEventType : string := "agent_settled".

(** The exec stdin channel: nil, open with its queue, or closed. *)
Inductive Stdin : Type :=
| StdinNil
| StdinOpen (queue : list json)
| StdinClosed.

(** [make(chan []byte, 16)] *)
Definition stdin_cap : nat := 16.

Record Agent : Type := mkAgent {
  a_ID : string;
  a_Sandbox : string;
  a_Created : Z;
  a_ParentID : string;
  a_resolved : ResolvedProfile;
  a_status : AgentStatus;
  a_piSeq : Z;
  a_replayedOnly : bool;
  a_bootID : string;
  a_degraded : bool;
  a_pendingRevive : bool;
  a_hub : EventHub;
  a_fsm : SessionFSM;
  a_stdin : Stdin;
  a_daemon : option string;
  a_pullTransport : bool;
  a_cmdSeq : Z;
  a_cancelled : bool
}.

(** Field updates. *)
Definition set_status (st : AgentStatus) (a : Agent) : Agent :=
  mkAgent (a_ID a) (a_Sandbox a) (a_Created a) (a_ParentID a) (a_resolved a) st (a_piSeq a)
    (a_replayedOnly a) (a_bootID a) (a_degraded a) (a_pendingRevive a) (a_hub a) (a_fsm a)
    (a_stdin a) (a_daemon a) (a_pullTransport a) (a_cmdSeq a) (a_cancelled a).
Definition set_piSeq (n : Z) (a : Agent) : Agent :=
  mkAgent (a_ID a) (a_Sandbox a) (a_Created a) (a_ParentID a) (a_resolved a) (a_status a) n
    (a_replayedOnly a) (a_bootID a) (a_degraded a) (a_pendingRevive a) (a_hub a) (a_fsm a)
    (a_stdin a) (a_daemon a) (a_pullTransport a) (a_cmdSeq a) (a_cancelled a).
Definition set_bootID (b : string) (a : Agent) : Agent :=
  mkAgent (a_ID a) (a_Sandbox a) (a_Created a) (a_ParentID a) (a_resolved a) (a_status a)
    (a_piSeq a) (a_replayedOnly a) b (a_degraded a) (a_pendingRevive a) (a_hub a) (a_fsm a)
    (a_stdin a) (a_daemon a) (a_pullTransport a) (a_cmdSeq a) (a_cancelled a).
Definition set_degraded (b : bool) (a : Agent) : Agent :=
  mkAgent (a_ID a) (a_Sandbox a) (a_Created a) (a_ParentID a) (a_resolved a) (a_status a)
    (a_piSeq a) (a_replayedOnly a) (a_bootID a) b (a_pendingRevive a) (a_hub a) (a_fsm a)
    (a_stdin a) (a_daemon a) (a_pullTransport a) (a_cmdSeq a) (a_cancelled a).
Definition set_pendingRevive (b : bool) (a : Agent) : Agent :=
  mkAgent (a_ID a) (a_Sandbox a) (a_Created a) (a_ParentID a) (a_resolved a) (a_status a)
    (a_piSeq a) (a_replayedOnly a) (a_bootID a) (a_degraded a) b (a_hub a) (a_fsm a)
    (a_stdin a) (a_daemon a) (a_pullTransport a) (a_cmdSeq a) (a_cancelled a).
Definition set_hub_fsm (h : EventHub) (f : SessionFSM) (a : Agent) : Agent :=
  mkAgent (a_ID a) (a_Sandbox a) (a_Created a) (a_ParentID a) (a_resolved a) (a_status a)
    (a_piSeq a) (a_replayedOnly a) (a_bootID a) (a_degraded a) (a_pendingRevive a) h f
    (a_stdin a) (a_daemon a) (a_pullTransport a) (a_cmdSeq a) (a_cancelled a).
Definition set_hub (h : EventHub) (a : Agent) : Agent := set_hub_fsm h (a_fsm a) a.
Definition set_stdin (s : Stdin) (a : Agent) : Agent :=
  mkAgent (a_ID a) (a_Sandbox a) (a_Created a) (a_ParentID a) (a_resolved a) (a_status a)
    (a_piSeq a) (a_replayedOnly a) (a_bootID a) (a_degraded a) (a_pendingRevive a) (a_hub a)
    (a_fsm a) s (a_daemon a) (a_pullTransport a) (a_cmdSeq a) (a_cancelled a).
Definition set_daemon (d : option string) (a : Agent) : Agent :=
  mkAgent (a_ID a) (a_Sandbox a) (a_Created a) (a_ParentID a) (a_resolved a) (a_status a)
    (a_piSeq a) (a_replayedOnly a) (a_bootID a) (a_degraded a) (a_pendingRevive a) (a_hub a)
    (a_fsm a) (a_stdin a) d (a_pullTransport a) (a_cmdSeq a) (a_cancelled a).
Definition set_pull (b : bool) (a : Agent) : Agent :=
  mkAgent (a_ID a) (a_Sandbox a) (a_Created a) (a_ParentID a) (a_resolved a) (a_status a)
    (a_piSeq a) (a_replayedOnly a) (a_bootID a) (a_degraded a) (a_pendingRevive a) (a_hub a)
    (a_fsm a) (a_stdin a) (a_daemon a) b (a_cmdSeq a) (a_cancelled a).
Definition set_cmdSeq (n : Z) (a : Agent) : Agent :=
  mkAgent (a_ID a) (a_Sandbox a) (a_Created a) (a_ParentID a) (a_resolved a) (a_status a)
    (a_piSeq a) (a_replayedOnly a) (a_bootID a) (a_degraded a) (a_pendingRevive a) (a_hub a)
    (a_fsm a) (a_stdin a) (a_daemon a) (a_pullTransport a) n (a_cancelled a).
Definition set_cancelled (b : bool) (a : Agent) : Agent :=
  mkAgent (a_ID a) (a_Sandbox a) (a_Created a) (a_ParentID a) (a_resolved a) (a_status a)
    (a_piSeq a) (a_replayedOnly a) (a_bootID a) (a_degraded a) (a_pendingRevive a) (a_hub a)
    (a_fsm a) (a_stdin a) (a_daemon a) (a_pullTransport a) (a_cmdSeq a) b.

(** ** Calls to the outside *)

Record DaemonStatus : Type := mkDaemonStatus {
  ds_BootID : string;
  ds_PiRunning : bool
}.

Record DaemonRecord : Type := mkDaemonRecord {
  dr_SpoolID : N;
  dr_Data : RawMessage
}.

Record DaemonCommand : Type := mkCommand {
  dc_ID : string;
  dc_Type : string;
  dc_Payload : RawMessage
}.

(** The arguments of [CreateSandbox] besides the name. *)
Record sandbox_spec : Type := mkSpec {
  sb_Image : string;
  sb_Provider : string;
  sb_Resources : Resources;
  sb_Labels : gmap string string;
  sb_Session : string
}.

(** The daemon's POST /commands, and the gateway's methods. *)
Inductive call : Type :=
| CCommand (agent base : string) (c : DaemonCommand)
| CCreateSandbox (name : string) (spec : sandbox_spec)
| CExposeDaemon (name : string)
| CApplyModelGatewayPolicy (name : string)
| CApplyControllerEgressDeny (name host : string) (port : Z)
| CStartPi (name model : string)
| CWithdrawDaemon (name : string)
| CDeleteSandbox (name : string).

Inductive AgentErr : Type :=
| ErrUnknownAgent (id : string)
| ErrTurnInFlight
| ErrNotReady (st : AgentStatus)
| ErrValidation (field : string)
| ErrSpawnDepthExceeded
| ErrSpawnChildrenExceeded
| EResolveDaemon
| EDaemonRejected
| EStdinFull
| ESendOnClosed
| EGateway
| EStoreFailed
| ERecordStarted.

(** What the outside answers during one command: the address the resolver
    finds, whether the daemon accepts, the random command id, the time. *)
Record cmd_env : Type := mkEnv {
  env_resolve : option string;
  env_accept : bool;
  env_cmdID : string;
  env_now : Z
}.

(** [daemonFor]: the cached client, else a newly resolved one, which is cached. *)
Definition daemonFor (a : Agent) (resolved : option string) : option string * Agent :=
  match a_daemon a with
  | Some base => (Some base, a)
  | None =>
      match resolved with
      | None => (None, a)
      | Some base => (Some base, set_daemon (Some base) a)
      end
  end.

Definition invalidateDaemon (a : Agent) : Agent := set_daemon None a.

(** A non-blocking send on the stdin channel; [None] is the panic of a send on
    a closed channel, [Some None] a full queue (a nil channel never accepts). *)
Definition stdin_send (c : json) (s : Stdin) : option (option Stdin) :=
  match s with
  | StdinNil => Some None
  | StdinClosed => None
  | StdinOpen q => Some (if (length q <? stdin_cap)%nat then Some (StdinOpen (q ++ [c])) else None)
  end.

Definition message_payload (message : string) : RawMessage :=
  RJson (JObj [("message"%string, JStr message)]).

(** The line of a prompt or steer on the exec stream. *)
Definition stdin_command (prefix : string) (n : Z) (typ message : string) : json :=
  JObj (fields_of [("id", JStr (prefix ++ pretty n)); ("type", JStr typ);
    ("message", JStr message)])%string.

Section agent.
  Context {S : Type} `{EventStore S}.

(** The nil-receiver hooks of the monitor. *)
Definition mon_arm (mo : option Monitor) (s : S) (h : EventHub) (id : string) (now : Z)
    : option Monitor := (λ m, Arm m s h id now) <$> mo.
Definition mon_disarm (mo : option Monitor) (id : string) : option Monitor :=
  (λ m, Disarm m id) <$> mo.
Definition mon_note (mo : option Monitor) (id ty : string) (now : Z) : option Monitor :=
  (λ m, NoteRecord m id ty now) <$> mo.

(** An FSM transition of the agent; its error is only logged by the callers. *)
Definition agent_transition (s : S) (a : Agent) (next : SessionState) (t : string) (fs : fields)
    : option FsmErr * S * Agent :=
  let '(e, s', h', f') := Transition s (a_hub a) (a_fsm a) next t fs in
  (e, s', set_hub_fsm h' f' a).

Definition agent_publish (s : S) (a : Agent) (t : string) (fs : fields)
    : option Event * S * Agent :=
  let '(e, s', h') := PublishLifecycle s (a_hub a) t fs in (e, s', set_hub h' a).

Definition outcome : Type := option AgentErr * list call * S * option Monitor * Agent.

(** The state gate of a prompt. *)
Definition prompt_gate (a : Agent) : option AgentErr :=
  match f_state (a_fsm a) with
  | SessionRunning => Some ErrTurnInFlight
  | SessionReady | SessionIdle =>
      if decide (a_status a = StatusReady) then None else Some (ErrNotReady (a_status a))
  | _ => Some (ErrNotReady (a_status a))
  end.

(** The end of an accepted prompt: record the turn, flip the status, arm. *)
Definition turn_started (s : S) (mo : option Monitor) (a : Agent) (message : string) (now : Z)
    : S * option Monitor * Agent :=
  let '(_, s', a') := agent_transition s a SessionRunning lifecycleTurnStarted
                        (fields_of [("prompt"%string, JStr message)]) in
  let a'' := set_status StatusWorking a' in
  (s', mon_arm mo s' (a_hub a'') (a_ID a'') now, a'').

Definition sendPrompt (s : S) (mo : option Monitor) (a : Agent) (message : string)
    (env : cmd_env) : outcome :=
  if a_pullTransport a then
    match prompt_gate a with
    | Some e => (Some e, [], s, mo, a)
    | None =>
        match daemonFor a (env_resolve env) with
        | (None, a1) => (Some EResolveDaemon, [], s, mo, a1)
        | (Some base, a1) =>
            let a2 := set_cmdSeq (i64_wrap (a_cmdSeq a1 + 1)) a1 in
            let c := CCommand (a_ID a2) base
                       (mkCommand (env_cmdID env) "prompt" (message_payload message)) in
            if env_accept env then
              let '(s', mo', a3) := turn_started s mo a2 message (env_now env) in
              (None, [c], s', mo', a3)
            else (Some EDaemonRejected, [c], s, mo, invalidateDaemon a2)
        end
    end
  else
    match a_stdin a with
    | StdinNil => (Some (ErrNotReady (a_status a)), [], s, mo, a)
    | _ =>
        match prompt_gate a with
        | Some e => (Some e, [], s, mo, a)
        | None =>
            let n := i64_wrap (a_piSeq a + 1) in
            let a1 := set_piSeq n a in
            match stdin_send (stdin_command "p" n "prompt" message) (a_stdin a1) with
            | None => (Some ESendOnClosed, [], s, mo, a1)
            | Some None => (Some EStdinFull, [], s, mo, a1)
            | Some (Some q) =>
                let '(s', mo', a2) :=
                  turn_started s mo (set_stdin q a1) message (env_now env) in
                (None, [], s', mo', a2)
            end
        end
    end.

(** The gate of a steer: a running session of a working agent. *)
Definition steer_gate (a : Agent) : option AgentErr :=
  if decide (f_state (a_fsm a) = SessionRunning ∧ a_status a = StatusWorking) then None
  else Some (ErrNotReady (a_status a)).

Definition sendSteer (s : S) (mo : option Monitor) (a : Agent) (message : string)
    (env : cmd_env) : outcome :=
  if a_pullTransport a then
    match steer_gate a with
    | Some e => (Some e, [], s, mo, a)
    | None =>
        match daemonFor a (env_resolve env) with
        | (None, a1) => (Some EResolveDaemon, [], s, mo, a1)
        | (Some base, a1) =>
            let a2 := set_cmdSeq (i64_wrap (a_cmdSeq a1 + 1)) a1 in
            let c := CCommand (a_ID a2) base
                       (mkCommand (env_cmdID env) "steer" (message_payload message)) in
            ((if env_accept env then None else Some EDaemonRejected), [c], s, mo, a2)
        end
    end
  else
    match a_stdin a with
    | StdinNil => (Some (ErrNotReady (a_status a)), [], s, mo, a)
    | _ =>
        match steer_gate a with
        | Some e => (Some e, [], s, mo, a)
        | None =>
            let n := i64_wrap (a_piSeq a + 1) in
            let a1 := set_piSeq n a in
            match stdin_send (stdin_command "s" n "steer" message) (a_stdin a1) with
            | None => (Some ESendOnClosed, [], s, mo, a1)
            | Some None => (Some EStdinFull, [], s, mo, a1)
            | Some (Some q) => (None, [], s, mo, set_stdin q a1)
            end
        end
    end.

(** [Abort] after the lookup; the status is checked again under the lock. *)
Definition sendAbort (s : S) (mo : option Monitor) (a : Agent) (env : cmd_env) : outcome :=
  if decide (a_status a ≠ StatusWorking) then (Some (ErrNotReady (a_status a)), [], s, mo, a)
  else if a_pullTransport a then
    let a1 := set_cmdSeq (i64_wrap (a_cmdSeq a + 1)) a in
    match daemonFor a1 (env_resolve env) with
    | (None, a2) => (Some EResolveDaemon, [], s, mo, a2)
    | (Some base, a2) =>
        let c := CCommand (a_ID a2) base (mkCommand (env_cmdID env) "abort" RNil) in
        if env_accept env then (None, [c], s, mo, a2)
        else (Some EDaemonRejected, [c], s, mo, invalidateDaemon a2)
    end
  else
    match a_stdin a with
    | StdinNil => (Some (ErrNotReady (a_status a)), [], s, mo, a)
    | _ =>
        match stdin_send (JObj [("type"%string, JStr "abort")]) (a_stdin a) with
        | None => (Some ESendOnClosed, [], s, mo, a)
        | Some None => (Some EStdinFull, [], s, mo, a)
        | Some (Some q) => (None, [], s, mo, set_stdin q a)
        end
    end.

(** ** Records and failures *)

(** The first critical section of [onPiRecord]: whether this record ends the
    turn, with the status already flipped.  [None] when the record does not
    decode. *)
Definition settle_begin (mo : option Monitor) (a : Agent) (raw : RawMessage) (now : Z)
    : bool * option Monitor * Agent :=
  match unmarshal_struct raw with
  | None => (false, mo, a)
  | Some ms =>
      let '(ty, bad) := string_field "type" ms in
      if bad then (false, mo, a)
      else
        let mo' := mon_note mo (a_ID a) ty now in
        if negb (String.eqb ty piSettledEventType) then (false, mo', a)
        else if decide (a_status a ≠ StatusWorking) then (false, mo', a)
        else (true, mo', set_status StatusReady a)
  end.

(** The rest of [onPiRecord] for a record that ends the turn, outside the
    lock: the terminal assessment, then the session transition. *)
Definition settle_end (slm : SLMPipeline) (s : S) (mo : option Monitor) (a : Agent)
    (now published : Z) : S * option Monitor * Agent :=
  let '(mo', s1, a1) :=
    match mo with
    | None => (None, s, a)
    | Some m =>
        let '(m', s', h') := SettleAssess slm m s (a_hub a) (a_ID a) now published in
        (Some m', s', set_hub h' a)
    end in
  let '(_, s2, a2) := agent_transition s1 a1 SessionIdle lifecycleSettled [] in
  (s2, mo', a2).

(** [onPiRecord] when nothing else runs in between. *)
Definition onPiRecord (slm : SLMPipeline) (s : S) (mo : option Monitor) (a : Agent)
    (raw : RawMessage) (now published : Z) : S * option Monitor * Agent :=
  let '(settles, mo', a') := settle_begin mo a raw now in
  if settles then settle_end slm s mo' a' now published else (s, mo', a').

Definition fail (s : S) (mo : option Monitor) (a : Agent) (reason : string)
    : S * option Monitor * Agent :=
  if decide (a_status a = StatusFailed ∨ a_status a = StatusTerminated) then (s, mo, a)
  else
    let a1 := set_status StatusFailed a in
    let '(_, s', a2) := agent_publish s a1 lifecycleFailed
      (fields_of [("agent_id", JStr (a_ID a)); ("status", JStr (status_name StatusFailed));
        ("reason", JStr reason)]%string) in
    (s', mon_disarm mo (a_ID a2), a2).

End agent.

(** ** Lemmas *)

(** The lock discipline of the exec path: a closed stdin means terminated. *)
Definition stdin_wf (a : Agent) : Prop := a_stdin a = StdinClosed → a_status a = StatusTerminated.

Lemma stdin_send_closed c st : stdin_send c st = None → st = StdinClosed.
Proof. by destruct st. Qed.

Lemma prompt_gate_none a :
  prompt_gate a = None ↔
  (f_state (a_fsm a) = SessionReady ∨ f_state (a_fsm a) = SessionIdle) ∧ a_status a = StatusReady.
Proof. unfold prompt_gate. destruct (f_state (a_fsm a)); try case_decide; naive_solver. Qed.

Lemma prompt_gate_some a e :
  prompt_gate a = Some e → e = ErrTurnInFlight ∨ e = ErrNotReady (a_status a).
Proof. unfold prompt_gate. destruct (f_state (a_fsm a)); try case_decide; naive_solver. Qed.

Lemma steer_gate_none a :
  steer_gate a = None ↔ f_state (a_fsm a) = SessionRunning ∧ a_status a = StatusWorking.
Proof. unfold steer_gate. case_decide; naive_solver. Qed.

Lemma daemonFor_spec a resolved r a' :
  daemonFor a resolved = (r, a') →
  a_status a' = a_status a ∧ a_fsm a' = a_fsm a ∧ a_hub a' = a_hub a ∧ a_stdin a' = a_stdin a ∧
  a_ID a' = a_ID a ∧ a_pullTransport a' = a_pullTransport a ∧ (r = None → a' = a).
Proof. unfold daemonFor. intros Hd. by repeat case_match; simplify_eq. Qed.

Lemma daemonFor_some a resolved base a' :
  daemonFor a resolved = (Some base, a') → ∃ d, a' = set_daemon d a.
Proof.
  unfold daemonFor. intros Hd. repeat case_match; simplify_eq; [|by eexists].
  exists (a_daemon a'). by destruct a'.
Qed.

Section agent_laws.
  Context {S : Type} `{EventStoreLaws S}.

Lemma turn_started_status (s : S) mo a msg now s' mo' a' :
  turn_started s mo a msg now = (s', mo', a') →
  a_status a' = StatusWorking ∧ a_pullTransport a' = a_pullTransport a ∧
  a_stdin a' = a_stdin a.
Proof.
  unfold turn_started. destruct (agent_transition _ _ _ _ _) as [[e s1] a1] eqn:E.
  intros [= <- <- <-]. unfold agent_transition in E.
  destruct (Transition _ _ _ _ _ _) as [[[e' s2] h2] f2]. by injection E as <- <- <-.
Qed.

(** A working agent takes no prompt, and refusing it has no effect. *)
Lemma sendPrompt_working (s : S) mo a msg env :
  a_status a = StatusWorking →
  ∃ e, (e = ErrTurnInFlight ∨ e = ErrNotReady StatusWorking) ∧
    sendPrompt s mo a msg env = (Some e, [], s, mo, a).
Proof.
  intros Hw.
  assert (Hg : ∃ e, prompt_gate a = Some e ∧ (e = ErrTurnInFlight ∨ e = ErrNotReady StatusWorking)).
  { unfold prompt_gate. rewrite Hw. destruct (f_state (a_fsm a)); eauto. }
  destruct Hg as (e & Hg & He). unfold sendPrompt. rewrite Hg, Hw.
  destruct (a_pullTransport a), (a_stdin a); eauto.
Qed.

(** The one command a prompt sends: a command to the daemon on the pull path, a line
    on the agent's standard input on the exec path. *)
Definition prompt_command (a : Agent) (base msg : string) (env : cmd_env) : call :=
  CCommand (a_ID a) base (mkCommand (env_cmdID env) "prompt" (message_payload msg)).

Definition prompt_sent (a : Agent) (msg : string) (env : cmd_env) (calls : list call) (a' : Agent)
    : Prop :=
  if a_pullTransport a then
    (∃ base, calls = [prompt_command a base msg env]) ∧ a_stdin a' = a_stdin a
  else
    calls = [] ∧ ∃ q, a_stdin a = StdinOpen q ∧ (length q < stdin_cap)%nat ∧
      a_stdin a' = StdinOpen (q ++ [stdin_command "p" (i64_wrap (a_piSeq a + 1)) "prompt" msg]).

(** C11. One turn at a time, for an agent whose standard input is closed only once it
    is terminated.  A prompt is accepted only by a ready or idle session of a ready
    agent, leaves the agent working, and sends exactly one command: to the daemon
    on the pull path, as one more line of the agent's standard input on the exec
    path.  After an accepted prompt, every further prompt is refused with nothing
    sent and nothing changed until the turn settles.  A prompt fails in no other
    ways than these: a turn in flight, an agent that is not ready and a daemon
    that is not found refuse it with nothing sent and nothing changed; a daemon
    that rejects the command has been sent it, once, and only the command counter
    and the cached connection change; a full standard input takes nothing, and only the
    line counter changes.  No prompt is ever sent on a closed channel. *)
Theorem prompt_policy (s : S) mo a msg env r calls s' mo' a' :
  stdin_wf a → sendPrompt s mo a msg env = (r, calls, s', mo', a') →
  match r with
  | None =>
      (f_state (a_fsm a) = SessionReady ∨ f_state (a_fsm a) = SessionIdle) ∧
      a_status a = StatusReady ∧ a_status a' = StatusWorking ∧
      prompt_sent a msg env calls a' ∧
      ∀ msg2 env2, ∃ e, (e = ErrTurnInFlight ∨ e = ErrNotReady StatusWorking) ∧
        sendPrompt s' mo' a' msg2 env2 = (Some e, [], s', mo', a')
  | Some (ErrTurnInFlight | ErrNotReady _ | EResolveDaemon) =>
      calls = [] ∧ s' = s ∧ mo' = mo ∧ a' = a
  | Some EDaemonRejected =>
      (∃ base, calls = [prompt_command a base msg env]) ∧ s' = s ∧ mo' = mo ∧
      a' = set_daemon None (set_cmdSeq (i64_wrap (a_cmdSeq a + 1)) a)
  | Some EStdinFull =>
      calls = [] ∧ s' = s ∧ mo' = mo ∧ a' = set_piSeq (i64_wrap (a_piSeq a + 1)) a
  | Some _ => False
  end.
Proof.
  intros Hwf. unfold sendPrompt, prompt_sent. destruct (a_pullTransport a) eqn:Ep.
  - destruct (prompt_gate a) as [e|] eqn:Eg.
    { intros [= <- <- <- <- <-]. by apply prompt_gate_some in Eg as [-> | ->]. }
    destruct (daemonFor a (env_resolve env)) as [[base|] a1] eqn:Ed.
    + destruct (daemonFor_some _ _ _ _ Ed) as [d ->]. destruct (env_accept env).
      * destruct (turn_started _ _ _ _ _) as [[s1 mo1] a2] eqn:Et. intros [= <- <- <- <- <-].
        apply turn_started_status in Et as (Hst & _ & Hin).
        apply prompt_gate_none in Eg as [Hf Hr]. split_and!; [done..|by exists base|done|].
        intros msg2 env2. by apply sendPrompt_working.
      * intros [= <- <- <- <- <-]. split_and!; [by exists base|done..].
    + apply daemonFor_spec in Ed as (_ & _ & _ & _ & _ & _ & Hsame).
      intros [= <- <- <- <- <-]. by rewrite Hsame.
  - destruct (a_stdin a) as [|q|] eqn:Es; [by intros [= <- <- <- <- <-]| |].
    + destruct (prompt_gate a) as [e|] eqn:Eg.
      { intros [= <- <- <- <- <-]. by apply prompt_gate_some in Eg as [-> | ->]. }
      cbn [a_stdin set_piSeq]. rewrite Es. unfold stdin_send.
      destruct (Nat.ltb_spec (length q) stdin_cap) as [Hq|]; [|by intros [= <- <- <- <- <-]].
      destruct (turn_started _ _ _ _ _) as [[s1 mo1] a2] eqn:Et. intros [= <- <- <- <- <-].
      apply turn_started_status in Et as (Hst & _ & Hin).
      apply prompt_gate_none in Eg as [Hf Hr]. split_and!; [done..|by exists q|].
      intros msg2 env2. by apply sendPrompt_working.
    + specialize (Hwf Es). unfold prompt_gate. rewrite Hwf.
      destruct (f_state (a_fsm a)); by intros [= <- <- <- <- <-].
Qed.

(** Steering and aborting need a turn.  A steer that reaches pi finds a
    running session of a working agent, an abort a working agent; otherwise both
    are refused with nothing sent and nothing changed.  Neither ever touches the
    log, the session or the agent's status, and neither is sent on a closed
    channel. *)
Theorem steer_abort_policy (s : S) mo a msg env (steer : bool) r calls s' mo' a' :
  stdin_wf a →
  (if steer then sendSteer s mo a msg env else sendAbort s mo a env) = (r, calls, s', mo', a') →
  s' = s ∧ mo' = mo ∧ a_hub a' = a_hub a ∧ a_fsm a' = a_fsm a ∧ a_status a' = a_status a ∧
  r ≠ Some ESendOnClosed ∧
  (∀ st, r = Some (ErrNotReady st) → calls = [] ∧ a' = a) ∧
  ((calls ≠ [] ∨ r = None) →
     a_status a = StatusWorking ∧ (steer = true → f_state (a_fsm a) = SessionRunning)).
Proof.
  intros Hwf. destruct steer.
  - unfold sendSteer. destruct (steer_gate a) as [e|] eqn:Eg.
    + assert (e = ErrNotReady (a_status a)) as ->.
      { unfold steer_gate in Eg. case_decide; by simplify_eq. }
      intros Hr. assert ((r, calls, s', mo', a') = (Some (ErrNotReady (a_status a)), [], s, mo, a))
        as [= -> -> -> -> ->] by (by destruct (a_pullTransport a), (a_stdin a)).
      split_and!; naive_solver.
    + apply steer_gate_none in Eg as [Hf Hw]. destruct (a_pullTransport a).
      * destruct (daemonFor a (env_resolve env)) as [[base|] a1] eqn:Ed;
          apply daemonFor_spec in Ed as (H1 & H2 & H3 & H4 & H5 & H6 & H7);
          [destruct (env_accept env)|]; intros [= <- <- <- <- <-]; split_and!; naive_solver.
      * assert (Hc : a_stdin a ≠ StdinClosed) by (intros Hc; apply Hwf in Hc; congruence).
        cbn [a_stdin set_piSeq]. unfold stdin_send.
        destruct (a_stdin a); [| |done];
          [|destruct (length queue <? stdin_cap)%nat];
          intros [= <- <- <- <- <-]; split_and!; naive_solver.
  - unfold sendAbort. case_decide as Hw; [intros [= <- <- <- <- <-]; split_and!; naive_solver|].
    destruct (a_pullTransport a).
    + destruct (daemonFor _ (env_resolve env)) as [[base|] a1] eqn:Ed;
        apply daemonFor_spec in Ed as (H1 & H2 & H3 & H4 & H5 & H6 & H7);
        [destruct (env_accept env)|]; intros [= <- <- <- <- <-]; split_and!; naive_solver.
    + assert (Hc : a_stdin a ≠ StdinClosed) by (intros Hc; apply Hwf in Hc; congruence).
      unfold stdin_send. destruct (a_stdin a); [| |done];
        [|destruct (length queue <? stdin_cap)%nat];
        intros [= <- <- <- <- <-]; split_and!; naive_solver.
Qed.

(** ** Settling *)

Definition agent_sync (s : S) (a : Agent) : Prop := fsm_sync s (a_hub a) (a_fsm a).

Definition agent_log (s : S) (a : Agent) : list Event := log_of s (a_hub a).

Lemma SettleAssess_log slm m s h id now pub m' s' h' :
  hub_sync s h → room s h → SettleAssess slm m s h id now pub = (m', s', h') →
  hub_sync s' h' ∧ h_agentID h' = h_agentID h ∧
  ∃ v, log_of s' h' = log_of s h ++ v ∧ (length v ≤ 1)%nat ∧
    Forall (λ ev, Typ ev = EventTypeAssessed) v.
Proof.
  intros Hs Hr. unfold SettleAssess. destruct (disarm m id) as [a mo1].
  assert (Hsame : hub_sync s h ∧ h_agentID h = h_agentID h ∧
    ∃ v, log_of s h = log_of s h ++ v ∧ (length v ≤ 1)%nat ∧
    Forall (λ ev, Typ ev = EventTypeAssessed) v).
  { split_and!; [done..|]. exists []. rewrite app_nil_r. split_and!; [done|simpl; lia|constructor]. }
  destruct a as [a|]; [|by intros [= <- <- <-]].
  destruct (mo_heap mo1 !! a) as [e|]; [|by intros [= <- <- <-]].
  destruct (SubscribeSnapshot s h) as [evs|]; [|by intros [= <- <- <-]].
  destruct (currentTurnWindow evs) as [w|]; [|by intros [= <- <- <-]].
  unfold publish_assessment.
  destruct (run_pipeline slm w _ true) as [[summary v]|]; cbn [andb negb];
    [|by intros [= <- <- <-]].
  destruct (PublishLifecycle _ _ _ _) as [[r s1] h1] eqn:Ep. intros [= <- <- <-].
  pose proof (PublishLifecycle_effect _ _ _ _ _ _ _ Hs Hr Ep) as Heff.
  destruct (pub_effect_sync _ _ _ _ _ Hs Heff) as [Hs' Hid]. split_and!; [done..|].
  destruct (pub_effect_log _ _ _ _ _ Hs Heff) as [->|(ev & ev' & -> & Hst & -> & _)].
  - exists []. rewrite app_nil_r. split_and!; [done|simpl; lia|constructor].
  - exists [ev']. split_and!; [done|simpl; lia|]. constructor; [|constructor].
    by rewrite (stored_typ _ _ Hst).
Qed.

Definition is_settle (raw : RawMessage) : Prop :=
  ∃ ms, unmarshal_struct raw = Some ms ∧ string_field "type" ms = (piSettledEventType, false).

Lemma settle_begin_spec mo a raw now b mo' a' :
  settle_begin mo a raw now = (b, mo', a') →
  (b = true ∧ is_settle raw ∧ a_status a = StatusWorking ∧ a' = set_status StatusReady a) ∨
  (b = false ∧ a' = a ∧ (¬ is_settle raw ∨ a_status a ≠ StatusWorking)).
Proof.
  unfold settle_begin, is_settle.
  destruct (unmarshal_struct raw) as [ms|]; cycle 1.
  { intros [= <- <- <-]. right. split_and!; [done..|]. left. by intros (? & ? & _). }
  destruct (string_field "type" ms) as [ty bad] eqn:Ef.
  assert (Hno : (ty, bad) ≠ (piSettledEventType, false) →
    ¬ ∃ ms0, Some ms = Some ms0 ∧ string_field "type" ms0 = (piSettledEventType, false)).
  { intros Hne (ms0 & [= <-] & E). congruence. }
  destruct bad; [intros [= <- <- <-]; right; split_and!; [done..|left; by apply Hno]|].
  destruct (String.eqb_spec ty piSettledEventType) as [->|Hne]; cbn [negb].
  2:{ intros [= <- <- <-]. right. split_and!; [done..|]. left. apply Hno. congruence. }
  case_decide as Hd; intros [= <- <- <-]; [right; auto|]. left. split_and!; eauto.
Qed.

(** What a record does, whether or not the appends succeed. *)
Lemma onPiRecord_log slm s mo a raw now pub s' mo' a' :
  hub_sync s (a_hub a) → (log_len (agent_log s a) + 2 < u64_bound)%N →
  onPiRecord slm s mo a raw now pub = (s', mo', a') →
  (¬ (is_settle raw ∧ a_status a = StatusWorking) ∧ s' = s ∧ a' = a) ∨
  (is_settle raw ∧ a_status a = StatusWorking ∧
   ∃ h' f' v t, a' = set_hub_fsm h' f' (set_status StatusReady a) ∧
     hub_sync s' h' ∧ h_agentID h' = h_agentID (a_hub a) ∧
     log_of s' h' = agent_log s a ++ v ++ t ∧ (length v ≤ 1)%nat ∧
     Forall (λ ev, Typ ev = EventTypeAssessed) v ∧
     ((t = [] ∧ f' = a_fsm a) ∨
      (f_state f' = SessionIdle ∧ ∃ ev, t = [ev] ∧ Typ ev = lifecycleSettled))).
Proof.
  intros Hs Hroom. unfold onPiRecord.
  destruct (settle_begin mo a raw now) as [[b mo1] a1] eqn:Eb.
  apply settle_begin_spec in Eb as [(-> & Hset & Hw & ->)|(-> & -> & Hno)].
  2:{ intros [= <- <- <-]. left. naive_solver. }
  unfold settle_end. cbn [a_hub a_ID set_status set_hub_fsm].
  assert (Hassess : ∃ mo2 s1 h1,
    match mo1 with
    | Some m => let '(m', s', h') := SettleAssess slm m s (a_hub a) (a_ID a) now pub in
                (Some m', s', set_hub h' (set_status StatusReady a))
    | None => (None, s, set_status StatusReady a)
    end = (mo2, s1, set_hub h1 (set_status StatusReady a)) ∧
    hub_sync s1 h1 ∧ h_agentID h1 = h_agentID (a_hub a) ∧
    ∃ v, log_of s1 h1 = log_of s (a_hub a) ++ v ∧ (length v ≤ 1)%nat ∧
      Forall (λ ev, Typ ev = EventTypeAssessed) v).
  { destruct mo1 as [m|].
    - destruct (SettleAssess slm m s (a_hub a) (a_ID a) now pub) as [[m' s1] h1] eqn:Es.
      apply SettleAssess_log in Es as (? & ? & ?); [|done|unfold room, agent_log in *; lia].
      by exists (Some m'), s1, h1.
    - exists None, s, (a_hub a). split_and!; [by destruct a|done..|]. exists [].
      rewrite app_nil_r. split_and!; [done|simpl; lia|constructor]. }
  destruct Hassess as (mo2 & s1 & h1 & -> & Hs1 & Hid & v & Hl & Hlen & Hv).
  destruct (agent_transition _ _ _ _ _) as [[e s2] a2] eqn:Et. intros [= <- <- <-].
  right. split; [done|]. split; [done|]. unfold agent_transition in Et.
  cbn [a_hub a_fsm set_hub set_hub_fsm set_status] in Et.
  assert (Hr1 : room s1 h1).
  { unfold room, agent_log, log_len in *. rewrite Hl, length_app. lia. }
  destruct (Transition _ _ _ _ _ _) as [[[[e'|] s3] h3] f3] eqn:Etr; injection Et as <- <- <-.
  - apply Transition_err in Etr as (-> & -> & Hinv & Habs); [|done..].
    exists h1, (a_fsm a), v, []. rewrite app_nil_r.
    split_and!; [done| |done| |done|done|by left].
    + destruct Hs1 as (_ & ? & ? & ?). unfold hub_sync, log_of in *. by rewrite Habs.
    + unfold agent_log, log_of in *. by rewrite Habs.
  - apply Transition_ok in Etr as (_ & Hs3 & Hid3 & -> & ev & Hev & Hl3); [|done..].
    exists h3, (mkFSM (f_agentID (a_fsm a)) SessionIdle), v, [ev].
    split_and!; [done|done|congruence| |done|done|right; eauto].
    unfold agent_log. by rewrite Hl3, Hl, app_assoc.
Qed.

(** Settling is verdict first.  Only an [agent_settled] record seen by a
    working agent does anything to the log: then at most one assessment is
    appended and after it, as the last event, the [agent.settled] of an
    accepted transition; the agent is ready and the session idle.  Any other
    record leaves log, session and status alone. *)
Theorem settle_appends_verdict_first slm s mo a raw now pub s' mo' a' :
  agent_sync s a → (log_len (agent_log s a) + 2 < u64_bound)%N →
  onPiRecord slm s mo a raw now pub = (s', mo', a') →
  (is_settle raw ∧ a_status a = StatusWorking →
     a_status a' = StatusReady ∧
     ∃ v t, agent_log s' a' = agent_log s a ++ v ++ t ∧ (length v ≤ 1)%nat ∧
       Forall (λ ev, Typ ev = EventTypeAssessed) v ∧
       ((t = [] ∧ a_fsm a' = a_fsm a) ∨
        (f_state (a_fsm a') = SessionIdle ∧ ∃ ev, t = [ev] ∧ Typ ev = lifecycleSettled))) ∧
  (¬ (is_settle raw ∧ a_status a = StatusWorking) → s' = s ∧ a' = a).
Proof.
  intros [Hs Hf] Hroom E. apply onPiRecord_log in E as
    [(Hno & -> & ->)|(Hset & Hw & h' & f' & v & t & -> & _ & _ & Hl & Hlen & Hv & Ht)]; [| |done..].
  - split; [|done]. by intros Hyes.
  - split; [|naive_solver]. intros _. split; [done|]. exists v, t.
    split_and!; [done..|]. destruct Ht as [[-> ->]|[? ?]]; [by left|by right].
Qed.

End agent_laws.

(** ** A concrete agent *)

Definition ex_agent (st : AgentStatus) (h : EventHub) (fs : SessionState) (pull : bool)
    (stdin : Stdin) : Agent :=
  mkAgent ex_id "sbx-1" 0 "" ex_resolved st 0 false "boot-1" false false h (mkFSM ex_id fs) stdin None
    pull 0 false.

Definition ex_env : cmd_env := mkEnv (Some "http://daemon"%string) true "cmd-1" 0.

Lemma prompt_policy_witness :
  let '(r, calls, _, _, a) :=
    sendPrompt mem_empty None (ex_agent StatusReady ex_hub SessionReady true StdinNil) "go" ex_env in
  r = None ∧ a_status a = StatusWorking ∧ length calls = 1%nat.
Proof.
  destruct (sendPrompt mem_empty None (ex_agent StatusReady ex_hub SessionReady true StdinNil)
    "go" ex_env) as [[[[r calls] s] mo] a] eqn:E.
  assert (r = None) as -> by (vm_compute in E; by injection E as <- _ _ _ _).
  destruct (prompt_policy mem_empty None (ex_agent StatusReady ex_hub SessionReady true StdinNil)
    "go" ex_env None calls s mo a ltac:(discriminate) E) as (_ & _ & Hw & Hc & _).
  split; [reflexivity|]. split; [exact Hw|]. destruct Hc as [[base ->] _]. reflexivity.
Defined.

Lemma steer_abort_policy_witness :
  let '(r, calls, _, _, a) :=
    sendSteer mem_empty None (ex_agent StatusWorking ex_hub SessionRunning false (StdinOpen [])) "left"
      ex_env in
  r = None ∧ a_status a = StatusWorking.
Proof.
  destruct (sendSteer mem_empty None
    (ex_agent StatusWorking ex_hub SessionRunning false (StdinOpen [])) "left" ex_env)
    as [[[[r calls] s] mo] a] eqn:E.
  destruct (steer_abort_policy mem_empty None
    (ex_agent StatusWorking ex_hub SessionRunning false (StdinOpen [])) "left" ex_env true
    r calls s mo a ltac:(discriminate) E) as (_ & _ & _ & _ & Hst & _).
  split; [vm_compute in E; by injection E as <- _ _ _ _|exact Hst].
Defined.

(** A session with a turn in flight. *)
Definition ex_running : MemDB * EventHub * SessionFSM :=
  sess_run (mem_empty, ex_hub, ex_fsm)
    [STransition SessionReady lifecycleStarted [];
     STransition SessionRunning lifecycleTurnStarted []].

Lemma ex_running_sync : fsm_sync ex_running.1.1 ex_running.1.2 ex_running.2.
Proof.
  apply (sess_run_sync mem_empty ex_hub ex_fsm
    [STransition SessionReady lifecycleStarted [];
     STransition SessionRunning lifecycleTurnStarted []]).
  - apply ex_fsm_sync.
  - repeat constructor.
  - repeat constructor.
  - vm_compute. reflexivity.
  - unfold ex_running. by destruct (sess_run _ _) as [[s h] f].
Qed.

Definition ex_working : Agent :=
  let '(_, h, f) := ex_running in
  set_hub_fsm h f (ex_agent StatusWorking ex_hub SessionRunning true StdinNil).

Definition ex_slm : SLMPipeline :=
  mkSLM (λ _, Some "working"%string) (λ _, Some "done"%string)
    (λ _, Some (mkVerdict "finished" "certain" "")).

Definition ex_monitor : Monitor :=
  Arm (mkMonitor [] ∅) ex_running.1.1 (a_hub ex_working) ex_id 0.

Lemma settle_appends_verdict_first_witness :
  let '(s, _, a) := onPiRecord ex_slm ex_running.1.1 (Some ex_monitor) ex_working
                      (ex_record piSettledEventType) 5 6 in
  a_status a = StatusReady ∧ (Typ <$> agent_log s a) =
    [lifecycleStarted; lifecycleTurnStarted; EventTypeAssessed; lifecycleSettled].
Proof.
  destruct (onPiRecord ex_slm ex_running.1.1 (Some ex_monitor) ex_working
              (ex_record piSettledEventType) 5 6) as [[s mo] a] eqn:E. split.
  - apply (settle_appends_verdict_first ex_slm ex_running.1.1 (Some ex_monitor) ex_working
      (ex_record piSettledEventType) 5 6 s mo a).
    + exact ex_running_sync.
    + vm_compute. reflexivity.
    + exact E.
    + split; [eexists; split; vm_compute; reflexivity|vm_compute; reflexivity].
  - vm_compute in E. injection E as <- <- <-. vm_compute. reflexivity.
Defined.
