(* ===== verification/Exec.v ===== *)
(** * The exec transport (src/controller/agent.go)

    The break-glass path runs the agent's process over an exec stream of the
    gateway.  Three goroutines serve it: [stdinPump] forwards the queued commands,
    [stdoutPump] turns what the process writes into events, [phasePoll] watches the
    sandbox.  A stream is the list of what it delivers; it always ends with an
    error, the end of the stream included. *)

From Stdlib Require Import Ascii String ZArith.
From S2P Require Import Prelude Json GoTime GoStrings Bolt EventStore EventHub Fsm Monitor Agent.
From stdpp Require Import base list strings numbers gmap pretty.
Local Open Scope Z_scope.

(** ** Lines *)

Definition LF : ascii := "010"%char.
Definition CR : ascii := "013"%char.

(** [bytes.ReplaceAll(data, CRLF, LF)]. *)
Fixpoint drop_cr (cs : list ascii) : list ascii :=
  match cs with
  | c :: r =>
      if Ascii.eqb c CR then match r with x :: _ => if Ascii.eqb x LF then drop_cr r else c :: drop_cr r | [] => [c] end
      else c :: drop_cr r
  | [] => []
  end.

Definition splitLines (data : list ascii) : list (list ascii) := split_at LF (drop_cr data) [].

Definition trim_bytes (line : list ascii) : list ascii := reverse (trim_left (reverse (trim_left line))).

(** ** Events of a stream *)

Inductive ExecSandboxEvent : Type :=
| ExecStdout (data : list ascii)
| ExecStderr (data : list ascii)
| ExecExit (code : Z).

Section Pumps.
Context {S : Type} `{EventStore S}.
(** [parse] is [encoding/json]'s reading of a document, [None] for bytes that are
    none; [times] the clock when a record is seen and when it is assessed. *)
Context (parse : list ascii → option json) (slm : SLMPipeline) (times : RawMessage → Z * Z).

(** A line as the record that is published. *)
Definition record_of (line : list ascii) : RawMessage :=
  let rec := trim_bytes line in
  match parse rec with
  | Some j => RJson j
  | None => RJson (JObj [("data", JStr (string_of_list_ascii rec)); ("type", JStr "raw")]%string)
  end.

Definition records_of (data : list ascii) : list RawMessage :=
  record_of <$> filter (λ line, trim_bytes line ≠ []) (splitLines data).

Definition pump_state : Type := S * option Monitor * Agent.

Definition publish (st : pump_state) (raw : RawMessage) : pump_state :=
  let '(s, mo, a) := st in
  let '(_, s', h) := Publish s (a_hub a) raw in (s', mo, set_hub h a).

Definition publish_record (st : pump_state) (raw : RawMessage) : pump_state :=
  let '(s, mo, a) := publish st raw in
  onPiRecord slm s mo a raw (times raw).1 (times raw).2.

(** One received event, and whether the pump goes on. *)
Definition stdout_step (st : pump_state) (ev : ExecSandboxEvent) : pump_state * bool :=
  match ev with
  | ExecStdout data => (fold_left publish_record (records_of data) st, true)
  | ExecStderr data =>
      (publish st (RJson (JObj [("data", JStr (string_of_list_ascii data)); ("type", JStr "stderr")]%string)), true)
  | ExecExit code =>
      let '(s, mo, a) := publish st (RJson (JObj [("exit_code", JInt code); ("type", JStr "exec_exit")]%string)) in
      if code =? 0 then ((s, mo, a), true)
      else (fail s mo (set_cancelled true a) ("pi exited with code " +:+ pretty code), false)
  end.

(** [err] is what ends the stream. *)
Fixpoint stdoutPump (evs : list ExecSandboxEvent) (err : string) (st : pump_state) : pump_state :=
  match evs with
  | [] => let '(s, mo, a) := st in fail s mo (set_cancelled true a) ("exec stream ended: " +:+ err)
  | ev :: rest =>
      match stdout_step st ev with
      | (st', true) => stdoutPump rest err st'
      | (st', false) => st'
      end
  end.

(** [sends] says which sends succeed; the result is what reached the sandbox. *)
Fixpoint stdinPump (queue : list json) (sends : list bool) : list json :=
  match queue, sends with
  | c :: q, true :: r => c :: stdinPump q r
  | _, _ => []
  end.

(** What a tick of the poll meets: the context ended, the call failed, a phase. *)
Inductive poll : Type := PollDone | PollFailed | PollPhase (error : bool).

Fixpoint phasePoll (ticks : list poll) (st : pump_state) : pump_state :=
  match ticks with
  | [] | PollDone :: _ => st
  | PollFailed :: rest | PollPhase false :: rest => phasePoll rest st
  | PollPhase true :: _ => let '(s, mo, a) := st in fail s mo a "sandbox phase ERROR"
  end.

(** [started] is the gateway's answer; the pumps run from here on. *)
Definition startPi (started : bool) (a : Agent) : option Agent :=
  if started then Some (set_stdin (StdinOpen []) (set_cancelled false a)) else None.
End Pumps.

(** ** Lines do not depend on how the stream is cut at their ends *)

Definition ends_line (data : list ascii) : Prop := last data = Some LF.

Lemma drop_cr_app l1 l2 : ends_line l1 → drop_cr (l1 ++ l2) = drop_cr l1 ++ drop_cr l2.
Proof.
  unfold ends_line. induction l1 as [|c l1 IH]; [done|]. intros Hl. destruct l1 as [|x l1].
  { injection Hl as ->. done. }
  rewrite last_cons_cons in Hl. specialize (IH Hl). cbn [app] in IH |- *.
  cbn [drop_cr] in IH |- *. destruct (Ascii.eqb c CR); [|by rewrite IH].
  destruct (Ascii.eqb x LF); [done|by rewrite IH].
Qed.

Lemma drop_cr_ends l : ends_line l → ends_line (drop_cr l).
Proof.
  unfold ends_line. induction l as [|c l IH]; [done|]. intros Hl. destruct l as [|x l].
  { injection Hl as ->. done. }
  rewrite last_cons_cons in Hl. specialize (IH Hl).
  assert (Hc : last (c :: drop_cr (x :: l)) = Some LF).
  { rewrite last_cons. by rewrite IH. }
  change (drop_cr (c :: x :: l)) with
    (if Ascii.eqb c CR then if Ascii.eqb x LF then drop_cr (x :: l) else c :: drop_cr (x :: l) else c :: drop_cr (x :: l)).
  by destruct (Ascii.eqb c CR), (Ascii.eqb x LF).
Qed.

Lemma split_at_app l1 l2 cur : ends_line l1 →
  ∃ ls, split_at LF l1 cur = ls ++ [[]] ∧ split_at LF (l1 ++ l2) cur = ls ++ split_at LF l2 [].
Proof.
  unfold ends_line. revert cur. induction l1 as [|c l1 IH]; intros cur; [done|]. intros Hl. cbn [split_at app].
  destruct l1 as [|x l1].
  { injection Hl as ->. exists [cur]. done. }
  rewrite last_cons_cons in Hl. destruct (Ascii.eqb c LF).
  - destruct (IH [] Hl) as (ls & -> & ->). by exists (cur :: ls).
  - apply (IH (cur ++ [c]) Hl).
Qed.

Lemma records_of_app parse l1 l2 : ends_line l1 → records_of parse (l1 ++ l2) = records_of parse l1 ++ records_of parse l2.
Proof.
  intros Hl. unfold records_of, splitLines. rewrite drop_cr_app by done.
  destruct (split_at_app (drop_cr l1) (drop_cr l2) [] (drop_cr_ends _ Hl)) as (ls & -> & ->).
  rewrite !filter_app, !fmap_app. f_equal. simpl. by rewrite app_nil_r.
Qed.

Lemma records_of_join parse chunks : Forall ends_line chunks →
  records_of parse (mjoin chunks) = chunks ≫= records_of parse.
Proof.
  induction 1 as [|c cs Hc _ IH]; [done|].
  change (mjoin (c :: cs)) with (c ++ mjoin cs). rewrite records_of_app by done.
  change ((c :: cs) ≫= records_of parse) with (records_of parse c ++ (cs ≫= records_of parse)). by rewrite IH.
Qed.

Section Chunks.
Context {S : Type} `{EventStore S} (parse : list ascii → option json) (slm : SLMPipeline) (times : RawMessage → Z * Z).

Lemma stdoutPump_chunks chunks rest err (st : pump_state) :
  stdoutPump parse slm times ((ExecStdout <$> chunks) ++ rest) err st =
  stdoutPump parse slm times rest err (fold_left (publish_record slm times) (chunks ≫= records_of parse) st).
Proof.
  revert st. induction chunks as [|c cs IH]; intros st; [done|].
  change ((c :: cs) ≫= records_of parse) with (records_of parse c ++ (cs ≫= records_of parse)).
  rewrite fold_left_app. apply IH.
Qed.

(** How the gateway cuts the output into messages does not matter as long as it
    cuts between lines: two sequences of chunks with the same bytes, each chunk
    ending a line, leave the store, the monitor and the agent in the same state,
    whatever follows on the stream. *)
Theorem stdout_chunks_irrelevant chunks1 chunks2 rest err (st : pump_state) :
  Forall ends_line chunks1 → Forall ends_line chunks2 → mjoin chunks1 = mjoin chunks2 →
  stdoutPump parse slm times ((ExecStdout <$> chunks1) ++ rest) err st =
  stdoutPump parse slm times ((ExecStdout <$> chunks2) ++ rest) err st.
Proof. intros H1 H2 He. by rewrite !stdoutPump_chunks, <-!records_of_join, He. Qed.
End Chunks.

(** ** Every stream ends *)

Section Ends.
Context {S : Type} `{EventStore S} (parse : list ascii → option json) (slm : SLMPipeline) (times : RawMessage → Z * Z).

Lemma fail_status (s : S) mo a reason s' mo' a' : fail s mo a reason = (s', mo', a') →
  a_status a' = StatusFailed ∨ a_status a' = StatusTerminated.
Proof.
  unfold fail. case_decide as Hd; [by intros [= _ _ <-]|]. unfold agent_publish.
  destruct (PublishLifecycle _ _ _ _) as [[e s1] h1]. intros [= _ _ <-]. by left.
Qed.

Lemma fail_cancelled (s : S) mo a reason s' mo' a' : fail s mo a reason = (s', mo', a') → a_cancelled a' = a_cancelled a.
Proof.
  unfold fail. case_decide as Hd; [by intros [= _ _ <-]|]. unfold agent_publish.
  destruct (PublishLifecycle _ _ _ _) as [[e s1] h1]. by intros [= _ _ <-].
Qed.

(** An agent does not outlive its stream: whatever the process wrote and however
    it ended, a clean exit included, the agent is failed, or was terminated, and
    its context is cancelled. *)
Theorem exec_end_fails_agent evs err (st : pump_state) :
  let '(_, _, a) := stdoutPump (S := S) parse slm times evs err st in
  (a_status a = StatusFailed ∨ a_status a = StatusTerminated) ∧ a_cancelled a = true.
Proof.
  assert (Hf : ∀ (s : S) mo a reason, let '(_, _, a') := fail s mo (set_cancelled true a) reason in
    (a_status a' = StatusFailed ∨ a_status a' = StatusTerminated) ∧ a_cancelled a' = true).
  { intros s mo a reason. destruct (fail s mo (set_cancelled true a) reason) as [[s' mo'] a'] eqn:E.
    split; [by eapply fail_status|]. by rewrite (fail_cancelled _ _ _ _ _ _ _ E). }
  revert st. induction evs as [|ev evs IH]; intros [[s mo] a]; cbn [stdoutPump]; [apply Hf|].
  destruct ev as [data|data|code]; cbn [stdout_step]; [apply IH|apply IH|].
  destruct (publish (s, mo, a) _) as [[s1 mo1] a1]. destruct (code =? 0); [apply IH|apply Hf].
Qed.

(** The commands reach the process in the order they were queued, up to the
    first failed send. *)
Theorem stdin_in_order queue sends : stdinPump queue sends `prefix_of` queue ∧
  (Forall (λ b, b = true) sends → (length queue ≤ length sends)%nat → stdinPump queue sends = queue).
Proof.
  split.
  - revert sends. induction queue as [|c q IH]; intros sends; [done|].
    destruct sends as [|[] r]; cbn [stdinPump]; [apply prefix_nil| |apply prefix_nil]. by apply prefix_cons.
  - revert sends. induction queue as [|c q IH]; intros sends Hs Hl; [done|].
    destruct sends as [|b r]; simpl in Hl; [lia|]. inversion Hs; subst. cbn [stdinPump]. f_equal. apply IH; [done|lia].
Qed.
End Ends.

(** ** A record cut in two *)

Module Samples.

Definition settled : list ascii := chars "{SETTLED}".

(** A reader that knows one document. *)
Definition parse (cs : list ascii) : option json :=
  if decide (cs = settled) then Some (JObj [("type"%string, JStr piSettledEventType)]) else None.

Definition times (_ : RawMessage) : Z * Z := (0, 0).

Definition status_after (evs : list ExecSandboxEvent) : AgentStatus :=
  let '(_, _, a) := fold_left (λ st ev, (stdout_step parse ex_slm times st ev).1) evs
      (ex_running.1.1, None, ex_agent StatusWorking ex_running.1.2 SessionRunning false (StdinOpen [])) in
  a_status a.

Lemma stdout_chunks_irrelevant_witness :
  stdoutPump parse ex_slm times [ExecStdout (settled ++ [LF] ++ settled ++ [LF])] "EOF"
    (mem_empty, None, ex_agent StatusWorking ex_hub SessionRunning false (StdinOpen [])) =
  stdoutPump parse ex_slm times [ExecStdout (settled ++ [LF]); ExecStdout (settled ++ [LF])] "EOF"
    (mem_empty, None, ex_agent StatusWorking ex_hub SessionRunning false (StdinOpen [])).
Proof.
  apply (stdout_chunks_irrelevant parse ex_slm times [settled ++ [LF] ++ settled ++ [LF]]
    [settled ++ [LF]; settled ++ [LF]] []); [by repeat constructor..|reflexivity].
Defined.

(** A record that arrives in two chunks is not seen: the turn it ends stays open,
    and its halves are published as raw output. *)
Theorem cut_record_is_lost :
  status_after [ExecStdout (settled ++ [LF])] = StatusReady ∧
  status_after [ExecStdout (take 4 settled); ExecStdout (drop 4 settled ++ [LF])] = StatusWorking ∧
  records_of parse (take 4 settled) ++ records_of parse (drop 4 settled ++ [LF]) =
    [RJson (JObj [("data", JStr "{SET"); ("type", JStr "raw")]%string);
     RJson (JObj [("data", JStr "TLED}"); ("type", JStr "raw")]%string)].
Proof. by vm_compute. Qed.
End Samples.
