(* ===== verification/Manager.v ===== *)
(** * The agent manager: create, spawn limits, delete (src/controller/agent.go)

    The registry of agents and the operations on it.  Agents are heap objects;
    the registry is the set of registered ids.  Answers of the gateway and the
    clock are arguments, the calls made are part of the result.  Goroutines
    started here (puller, phase poll, pumps) are separate operations of other
    files. *)

From Stdlib Require Import String ZArith.
From S2P Require Import Prelude Json GoTime GoStrings Bolt EventStore EventHub Fsm Monitor Config Agent.
From stdpp Require Import base list strings numbers gmap sorting.
Local Open Scope Z_scope.

(** ** Sandboxes as the gateway reports them *)

Inductive SandboxPhase : Type := PhaseReady | PhaseError | PhaseStopped | PhaseOther.

Record SandboxInfo : Type := mkInfo {
  si_Name : string;
  si_Phase : SandboxPhase;
  si_Labels : gmap string string
}.

Definition LabelManagedBy : string := "managed-by".
Definition LabelAgentID : string := "agent-id".
Definition LabelParentAgentID : string := "parent-agent-id".
Definition ManagedByValue : string := "kape-controller".

Definition label (info : SandboxInfo) (k : string) : string := default "" (si_Labels info !! k).

Definition owned (info : SandboxInfo) : bool :=
  String.eqb (label info LabelManagedBy) ManagedByValue && non_empty (label info LabelAgentID).

(** ** The manager *)

Record World {S : Type} : Type := mkWorld {
  w_store : S;
  w_objs : gmap string Agent;
  w_reg : gset string;
  w_mon : option Monitor
}.
Arguments World : clear implicits.
Arguments mkWorld {_} _ _ _ _.

(** Byte-wise string order, for [sort.Strings]. *)
Fixpoint insert_sorted (x : string) (l : list string) : list string :=
  match l with
  | [] => [x]
  | y :: l' => match String.compare x y with Gt => y :: insert_sorted x l' | _ => x :: l end
  end.

Definition sort_strings (l : list string) : list string := foldr insert_sorted [] l.

Definition PiSessionID (agentID : string) : string := "kape-" +:+ TrimPrefix agentID "agent-".

(** The answers of the outside during one create. *)
Record create_env : Type := mkCreateEnv {
  ce_id : string;
  ce_created : Z;
  ce_children : option (list SandboxInfo);
  ce_create_ok : bool;
  ce_phase : nat → option SandboxPhase;
  ce_start : Z;
  ce_clock : nat → Z;
  ce_expose_ok : bool;
  ce_policy_ok : bool;
  ce_deny_ok : bool;
  ce_resolve : option string;
  ce_status : option DaemonStatus;
  ce_startpi_ok : bool
}.

(** The deadline of [waitReady] and the pause between its polls. *)
Definition wait_ready_budget : Z := 600 * second.
Definition wait_ready_poll : Z := 2 * second.

(** [waitReady]: poll until ready, an error, or the deadline.  [None] is
    running out of the given number of polls. *)
Fixpoint waitReady (fuel : nat) (i : nat) (phase : nat → option SandboxPhase) (clock : nat → Z)
    (deadline : Z) : option bool :=
  match fuel with
  | O => None
  | Datatypes.S f =>
      match phase i with
      | None => Some false
      | Some PhaseReady => Some true
      | Some PhaseError => Some false
      | Some _ =>
          if deadline <? clock i then Some false
          else waitReady f (Datatypes.S i) phase clock deadline
      end
  end.

(** Polls are two seconds apart, so 302 of them reach past ten minutes. *)
Definition wait_ready_fuel : nat := 302.

Definition sandbox_ready (env : create_env) : bool :=
  default false (waitReady wait_ready_fuel 0 (ce_phase env) (ce_clock env)
                   (ce_start env + wait_ready_budget)).

Definition rollbackSandbox (name : string) : list call := [CWithdrawDaemon name; CDeleteSandbox name].

(** [preflight] and [noteBootID]: learn the boot identity if it is not known. *)
Definition preflight (a : Agent) (resolved : option string) (status : option DaemonStatus)
    : option DaemonStatus * Agent :=
  match daemonFor a resolved with
  | (None, a') => (None, a')
  | (Some _, a') => (status, a')
  end.

Definition noteBootID (a : Agent) (resolved : option string) (status : option DaemonStatus) : Agent :=
  match preflight a resolved status with
  | (None, a') => a'
  | (Some st, a') => if String.eqb (a_bootID a') "" then set_bootID (ds_BootID st) a' else a'
  end.

(** The payload of [agent.provisioned]. *)
Definition provisioned_fields (id sandbox : string) (created : Z) (r : ResolvedProfile)
    (parent : option string) : fields :=
  let base := fields_of
    [("agent_id", JStr id); ("status", JStr (status_name StatusCreating));
     ("sandbox", JStr sandbox); ("created", JStr (Format created));
     ("image", JStr (rp_Image r)); ("provider", JStr (rp_Provider r));
     ("model", JStr (rp_Model r)); ("cpu", JStr (CPU (rp_Resources r)));
     ("memory", JStr (Memory (rp_Resources r)))]%string in
  match parent with None => base | Some p => fput "parent" (JStr p) base end.

(** The labels stamped on the sandbox. *)
Definition sandbox_labels (id : string) (parent : option Agent) : gmap string string :=
  let base := <[LabelManagedBy := ManagedByValue]> (<[LabelAgentID := id]> ∅) in
  match parent with None => base | Some p => <[LabelParentAgentID := a_ID p]> base end.

Section manager.
  Context {S : Type} `{EventStore S}.

Definition Get (w : World S) (id : string) : option Agent :=
  if decide (id ∈ w_reg w) then w_objs w !! id else None.

Definition put_obj (w : World S) (s : S) (mo : option Monitor) (a : Agent) : World S :=
  mkWorld s (<[a_ID a := a]> (w_objs w)) (w_reg w) mo.

(** ** Spawn limits *)

Definition resolveParent (w : World S) (parentID : string) : res AgentErr (option Agent) :=
  if String.eqb parentID "" then Ok None
  else match Get w parentID with
       | None => Err (ErrValidation "parent_id")
       | Some p =>
           if decide (a_status p = StatusTerminated) then Err (ErrValidation "parent_id")
           else Ok (Some p)
       end.

(** The loop of [Depth]; [seen] holds the ids met so far. *)
Fixpoint depth_walk (fuel : nat) (w : World S) (seen : gset string) (cur : Agent) (depth : Z) : Z :=
  match fuel with
  | O => depth
  | Datatypes.S f =>
      if String.eqb (a_ParentID cur) "" then depth
      else if decide (a_ParentID cur ∈ seen) then depth
      else match Get w (a_ParentID cur) with
           | None => depth
           | Some parent => depth_walk f w ({[a_ParentID cur]} ∪ seen) parent (depth + 1)
           end
  end.

Definition Depth (w : World S) (a : Agent) : Z :=
  depth_walk (Datatypes.S (size (w_reg w))) w {[a_ID a]} a 0.

(** The registered agents whose parent is [id]. *)
Definition children_of (w : World S) (id : string) : list string :=
  sort_strings (filter (λ aid, a_ParentID <$> w_objs w !! aid = Some id) (elements (w_reg w))).

Definition childCount (w : World S) (parentID : string) (listed : option (list SandboxInfo)) : Z :=
  match listed with
  | Some infos => Z.of_nat (length (filter (λ i, owned i = true) infos))
  | None => Z.of_nat (length (children_of w parentID))
  end.

Definition checkSpawnCaps (cfg : Config) (w : World S) (parentID : string) (parent : option Agent)
    (listed : option (list SandboxInfo)) : option AgentErr :=
  match parent with
  | None => None
  | Some p =>
      if SpawnMaxDepth cfg <? Depth w p + 1 then Some ErrSpawnDepthExceeded
      else if SpawnMaxChildren cfg <=? childCount w parentID listed
           then Some ErrSpawnChildrenExceeded
           else None
  end.

(** ** Create *)

(** The part before any gateway call. *)
Definition create_check (cfg : Config) (w : World S) (p : CreateProfile) (env : create_env)
    : res AgentErr (option Agent * ResolvedProfile) :=
  match resolveParent w (cp_ParentID p) with
  | Err e => Err e
  | Ok parent =>
      match checkSpawnCaps cfg w (cp_ParentID p) parent (ce_children env) with
      | Some e => Err e
      | None =>
          let p' := match parent with
                    | Some pa => inheritProfile p (a_resolved pa)
                    | None => p
                    end in
          match ResolveProfile cfg p' with
          | Err f => Err (ErrValidation f)
          | Ok r => Ok (parent, r)
          end
      end
  end.

Definition new_agent (id name : string) (created : Z) (hub : EventHub) (parentID : string)
    (r : ResolvedProfile) : Agent :=
  mkAgent id name created parentID r StatusCreating 0 false "" false false hub
    (NewSessionFSM id SessionProvision) StdinNil None false 0 false.

(** From the registration on: record the start, or undo everything. *)
Definition create_finish (w : World S) (s : S) (a : Agent) (calls : list call)
    : option AgentErr * list call * World S :=
  match agent_transition s a SessionReady lifecycleStarted [] with
  | (None, s', a') => (None, calls, mkWorld s' (<[a_ID a := set_status StatusReady a']> (w_objs w))
                                      ({[a_ID a]} ∪ w_reg w) (w_mon w))
  | (Some _, s', a') =>
      let a1 := set_status StatusTerminated (set_cancelled true a') in
      let a2 := match a_stdin a1 with StdinNil => a1 | _ => set_stdin StdinClosed a1 end in
      let a3 := set_hub (Close (a_hub a2)) a2 in
      (Some ERecordStarted, calls ++ rollbackSandbox (a_Sandbox a),
       mkWorld s' (<[a_ID a := a3]> (w_objs w)) (w_reg w ∖ {[a_ID a]}) (w_mon w))
  end.

(** From the provisioned event on: the policies, then the data plane. *)
Definition create_provision (cfg : Config) (w : World S) (a : Agent) (parent : option Agent)
    (env : create_env) (calls : list call) : option AgentErr * list call * World S :=
  let name := a_Sandbox a in
  let '(_, s, a) := agent_publish (w_store w) a lifecycleProvisioned
    (provisioned_fields (a_ID a) name (ce_created env) (a_resolved a) (a_ID <$> parent)) in
  let w := mkWorld s (w_objs w) (w_reg w) (w_mon w) in
  if negb (ce_policy_ok env)
  then (Some EGateway, calls ++ CApplyModelGatewayPolicy name :: rollbackSandbox name, w)
  else if negb (ce_deny_ok env)
  then (Some EGateway,
        calls ++ CApplyModelGatewayPolicy name :: CApplyControllerEgressDeny name (ControllerServiceHost cfg) (ControllerServicePort cfg) ::
          rollbackSandbox name, w)
  else
    let deny := CApplyControllerEgressDeny name (ControllerServiceHost cfg)
                  (ControllerServicePort cfg) in
    let calls := calls ++ [CApplyModelGatewayPolicy name; deny] in
    if decide (Transport cfg = TransportPull) then
      create_finish w s (noteBootID (set_pull true a) (ce_resolve env) (ce_status env)) calls
    else if negb (ce_startpi_ok env)
    then (Some EGateway,
          calls ++ CStartPi name (rp_Model (a_resolved a)) :: rollbackSandbox name, w)
    else create_finish w s (set_stdin (StdinOpen []) a)
           (calls ++ [CStartPi name (rp_Model (a_resolved a))]).

(** From the first gateway call on. *)
Definition create_commit (cfg : Config) (w : World S) (parent : option Agent) (parentID : string)
    (r : ResolvedProfile) (env : create_env) : option AgentErr * list call * World S :=
  let id := ce_id env in
  let name := if String.eqb (rp_Name r) "" then "sbx-" +:+ drop_str 6 id else rp_Name r in
  let r := mkResolved name (rp_Image r) (rp_Resources r) (rp_Provider r) (rp_Model r) in
  match NewEventHub (w_store w) id with
  | Err _ => (Some EStoreFailed, [], w)
  | Ok hub =>
      let a := new_agent id name (ce_created env) hub parentID r in
      let spec := mkSpec (rp_Image r) (rp_Provider r) (rp_Resources r)
                    (sandbox_labels id parent) (PiSessionID id) in
      if ce_create_ok env then
        if sandbox_ready env then
          if decide (Transport cfg = TransportPull) then
            if ce_expose_ok env
            then create_provision cfg w a parent env [CCreateSandbox name spec; CExposeDaemon name]
            else (Some EGateway,
                  CCreateSandbox name spec :: CExposeDaemon name :: rollbackSandbox name, w)
          else create_provision cfg w a parent env [CCreateSandbox name spec]
        else (Some EGateway, CCreateSandbox name spec :: rollbackSandbox name, w)
      else (Some EGateway, [CCreateSandbox name spec], w)
  end.

Definition Create (cfg : Config) (w : World S) (p : CreateProfile) (env : create_env)
    : option AgentErr * list call * World S :=
  match create_check cfg w p env with
  | Err e => (Some e, [], w)
  | Ok (parent, r) => create_commit cfg w parent (cp_ParentID p) r env
  end.

(** ** Delete *)

Definition deleteOne (w : World S) (id : string) (delete_ok : string → bool)
    : option AgentErr * list call * World S :=
  match Get w id with
  | None => (Some (ErrUnknownAgent id), [],
             mkWorld (w_store w) (w_objs w) (w_reg w ∖ {[id]}) (w_mon w))
  | Some a =>
      let a1 := set_status StatusTerminated (set_cancelled true a) in
      let a2 := match a_stdin a1 with StdinNil => a1 | _ => set_stdin StdinClosed a1 end in
      let '(_, s', a3) := agent_transition (w_store w) a2 SessionTerminated lifecycleTerminated [] in
      let a4 := set_hub (Close (a_hub a3)) a3 in
      (if delete_ok (a_Sandbox a) then None else Some EGateway,
       [CWithdrawDaemon (a_Sandbox a); CDeleteSandbox (a_Sandbox a)],
       mkWorld s' (<[id := a4]> (w_objs w)) (w_reg w ∖ {[id]}) (mon_disarm (w_mon w) id))
  end.

(** The sandboxes of children that are not registered. *)
Definition orphan_deletes (w : World S) (listed : option (list SandboxInfo)) : list call :=
  match listed with
  | None => []
  | Some infos =>
      CDeleteSandbox ∘ si_Name <$>
        filter (λ i, owned i = true ∧ Get w (label i LabelAgentID) = None) infos
  end.

Definition first_err (e1 e2 : option AgentErr) : option AgentErr :=
  match e1 with Some _ => e1 | None => e2 end.

(** The state threaded through a cascade: first error, calls, world and the
    shared [visited] map. *)
Record cascade : Type := mkCascade {
  k_err : option AgentErr;
  k_calls : list call;
  k_world : World S;
  k_visited : gset string
}.

(** The loop over the children of one agent. *)
Fixpoint children_loop (rec : World S → gset string → string → option cascade)
    (cids : list string) (k : cascade) : option cascade :=
  match cids with
  | [] => Some k
  | cid :: rest =>
      match rec (k_world k) (k_visited k) cid with
      | None => None
      | Some k' =>
          children_loop rec rest
            (mkCascade (first_err (k_err k) (k_err k')) (k_calls k ++ k_calls k')
               (k_world k') (k_visited k'))
      end
  end.

Fixpoint deleteCascade (fuel : nat) (listed : string → option (list SandboxInfo))
    (delete_ok : string → bool) (w : World S) (visited : gset string) (id : string)
    : option cascade :=
  if decide (id ∈ visited) then Some (mkCascade None [] w visited)
  else match fuel with
  | O => None
  | Datatypes.S f =>
      match children_loop (deleteCascade f listed delete_ok) (children_of w id)
              (mkCascade None [] w ({[id]} ∪ visited)) with
      | None => None
      | Some k =>
          let orphans := orphan_deletes (k_world k) (listed id) in
          let '(e, calls, w') := deleteOne (k_world k) id delete_ok in
          Some (mkCascade (first_err (k_err k) e) (k_calls k ++ orphans ++ calls) w' (k_visited k))
      end
  end.

(** [Delete]; the number of registered agents bounds the recursion. *)
Definition Delete (listed : string → option (list SandboxInfo)) (delete_ok : string → bool)
    (w : World S) (id : string) : option cascade :=
  deleteCascade (Datatypes.S (size (w_reg w))) listed delete_ok w ∅ id.

End manager.

(** ** Lemmas *)

Lemma elem_of_insert_sorted x y l : x ∈ insert_sorted y l ↔ x = y ∨ x ∈ l.
Proof.
  induction l as [|z l IH]; simpl; [rewrite list_elem_of_singleton; set_solver|].
  destruct (String.compare y z); rewrite ?elem_of_cons, ?IH; set_solver.
Qed.

Lemma elem_of_sort_strings x l : x ∈ sort_strings l ↔ x ∈ l.
Proof.
  induction l as [|y l IH]; [done|]. simpl. rewrite elem_of_insert_sorted, IH, elem_of_cons.
  done.
Qed.

(** Waiting for the sandbox ends.  If consecutive polls are at least two
    seconds apart, [waitReady] returns within 302 polls whatever the gateway
    answers. *)
Theorem waitReady_terminates phase clock start :
  start ≤ clock 0%nat → (∀ i, clock i + wait_ready_poll ≤ clock (Datatypes.S i)) →
  waitReady wait_ready_fuel 0 phase clock (start + wait_ready_budget) ≠ None.
Proof.
  intros H0 Hstep.
  assert (Hclock : ∀ i, start + Z.of_nat i * wait_ready_poll ≤ clock i).
  { induction i as [|i IH]; [simpl; lia|]. specialize (Hstep i). unfold wait_ready_poll in *. lia. }
  assert (Hgen : ∀ fuel i, start + wait_ready_budget < start + Z.of_nat (i + fuel - 1) * wait_ready_poll →
    (0 < fuel)%nat → waitReady fuel i phase clock (start + wait_ready_budget) ≠ None).
  { induction fuel as [|fuel IH]; intros i Hlt Hpos; [lia|]. cbn [waitReady].
    destruct (phase i) as [[]|]; try done;
      (destruct (Z.ltb_spec (start + wait_ready_budget) (clock i)); [done|]);
      (destruct fuel as [|fuel];
       [specialize (Hclock i); replace (i + 1 - 1)%nat with i in Hlt by lia; lia|]);
      (apply IH; [|lia]);
      replace (Datatypes.S i + Datatypes.S fuel - 1)%nat
        with (i + Datatypes.S (Datatypes.S fuel) - 1)%nat by lia; done. }
  apply Hgen; [|unfold wait_ready_fuel; lia].
  unfold wait_ready_budget, wait_ready_poll, wait_ready_fuel, second. lia.
Qed.

Lemma waitReady_terminates_witness :
  waitReady wait_ready_fuel 0 (λ _, Some PhaseOther) (λ i, Z.of_nat i * wait_ready_poll)
    (0 + wait_ready_budget) ≠ None.
Proof.
  apply waitReady_terminates; [simpl; lia|]. intros i. unfold wait_ready_poll, second. lia.
Defined.

Section manager_laws.
  Context {S : Type} `{EventStore S}.

Implicit Type w : World S.

(** Registered ids have objects that carry them. *)
Definition world_wf w : Prop := ∀ id, id ∈ w_reg w → ∃ a, w_objs w !! id = Some a ∧ a_ID a = id.

Lemma Get_Some w id a : Get w id = Some a ↔ id ∈ w_reg w ∧ w_objs w !! id = Some a.
Proof. unfold Get. case_decide; naive_solver. Qed.

Lemma Get_wf w id a : world_wf w → Get w id = Some a → a_ID a = id.
Proof. intros Hw [Hr Ho]%Get_Some. destruct (Hw id Hr) as (a' & Ha' & <-). by simplify_eq. Qed.

Lemma difference_fresh (X : gset string) x : x ∉ X → X ∖ {[x]} = X.
Proof. intros Hx. set_solver. Qed.

(** ** Depth *)

(** The chain of registered ancestors of an agent. *)
Fixpoint ancestors w (a : Agent) (ps : list Agent) : Prop :=
  match ps with
  | [] => True
  | p :: ps' => a_ParentID a ≠ ""%string ∧ Get w (a_ParentID a) = Some p ∧ ancestors w p ps'
  end.

(** Where the walk stops: no parent, an unknown one, or one met before. *)
Definition stops w (seen : gset string) (a : Agent) : Prop :=
  a_ParentID a = ""%string ∨ a_ParentID a ∈ seen ∨ Get w (a_ParentID a) = None.

Lemma depth_walk_spec w fuel seen cur d :
  world_wf w → (size (w_reg w ∖ seen) < fuel)%nat →
  ∃ ps, depth_walk fuel w seen cur d = d + Z.of_nat (length ps) ∧ ancestors w cur ps ∧
    NoDup (a_ID <$> ps) ∧ (∀ p, p ∈ ps → a_ID p ∉ seen ∧ a_ID p ∈ w_reg w) ∧
    stops w (seen ∪ list_to_set (a_ID <$> ps)) (default cur (last ps)).
Proof.
  intros Hw. revert seen cur d. induction fuel as [|fuel IH]; intros seen cur d Hf; [lia|].
  cbn [depth_walk].
  destruct (String.eqb_spec (a_ParentID cur) "") as [He|He].
  { exists []. split_and!; simpl; [lia|done|constructor|set_solver|by left]. }
  case_decide as Hs.
  { exists []. split_and!; simpl; [lia|done|constructor|set_solver|]. right; left. set_solver. }
  destruct (Get w (a_ParentID cur)) as [p|] eqn:Eg.
  2:{ exists []. split_and!; simpl; [lia|done|constructor|set_solver|]. by right; right. }
  pose proof (Get_wf _ _ _ Hw Eg) as Hid. apply Get_Some in Eg as Hreg. destruct Hreg as [Hreg _].
  destruct (IH ({[a_ParentID cur]} ∪ seen) p (d + 1)) as (ps & Hd & Hc & Hnd & Hin & Hst).
  { assert (size (w_reg w ∖ ({[a_ParentID cur]} ∪ seen)) < size (w_reg w ∖ seen))%nat; [|lia].
    apply subset_size. set_solver. }
  exists (p :: ps). split_and!.
  - rewrite Hd. cbn [length]. lia.
  - by cbn [ancestors].
  - rewrite fmap_cons. constructor; [|done]. intros (q & Hq & Hq')%list_elem_of_fmap.
    destruct (Hin q Hq') as [Hns _]. rewrite <-Hq, Hid in Hns. set_solver.
  - intros q [->|Hq]%elem_of_cons; [by rewrite Hid|]. destruct (Hin q Hq). set_solver.
  - replace (default cur (last (p :: ps))) with (default p (last ps))
      by (rewrite last_cons; by destruct (last ps)).
    destruct Hst as [?|[Hst|?]]; [by left| |by right; right]. right; left. rewrite fmap_cons, Hid.
    cbn [list_to_set]. set_solver.
Qed.

(** The depth of an agent is its number of ancestors.  For any linkage,
    cyclic or dangling ones included, the walk terminates within the number of
    registered agents and counts the distinct registered ancestors met until the
    chain ends, dangles or closes. *)
Theorem depth_counts_ancestors w a :
  world_wf w →
  ∃ ps, Depth w a = Z.of_nat (length ps) ∧ ancestors w a ps ∧ NoDup (a_ID <$> a :: ps) ∧
    stops w (list_to_set (a_ID <$> a :: ps)) (default a (last ps)).
Proof.
  intros Hw.
  destruct (depth_walk_spec w (Datatypes.S (size (w_reg w))) {[a_ID a]} a 0 Hw)
    as (ps & Hd & Hc & Hnd & Hin & Hst).
  { apply Nat.lt_succ_r, subseteq_size. set_solver. }
  exists ps. split_and!; [done|done| |done].
  rewrite fmap_cons. constructor; [|done]. intros (q & Hq & Hq')%list_elem_of_fmap.
  destruct (Hin q Hq') as [Hns _]. set_solver.
Qed.

(** ** Create *)

(** Nothing is asked of the gateway for a refused create.  A create that
    is refused because of its parent, the spawn limits or an invalid field makes
    no gateway call and changes nothing; one that gets past the checks and has a
    parent had a registered, live parent, at most [SpawnMaxDepth - 1] deep and
    with fewer than [SpawnMaxChildren] children. *)
Theorem create_checks_first cfg w p env :
  match create_check cfg w p env with
  | Err e => Create cfg w p env = (Some e, [], w)
  | Ok (None, r) => cp_ParentID p = ""%string ∧ ResolveProfile cfg p = Ok r
  | Ok (Some pa, r) =>
      cp_ParentID p ≠ ""%string ∧ Get w (cp_ParentID p) = Some pa ∧
      a_status pa ≠ StatusTerminated ∧ Depth w pa + 1 ≤ SpawnMaxDepth cfg ∧
      childCount w (cp_ParentID p) (ce_children env) < SpawnMaxChildren cfg ∧
      ResolveProfile cfg (inheritProfile p (a_resolved pa)) = Ok r
  end.
Proof.
  unfold Create. destruct (create_check cfg w p env) as [[pa r]|e] eqn:E; [|done].
  unfold create_check, resolveParent in E.
  destruct (String.eqb_spec (cp_ParentID p) "") as [He|He].
  { simpl in E. destruct (ResolveProfile cfg p) eqn:Er; [|done]. by injection E as <- <-. }
  destruct (Get w (cp_ParentID p)) as [q|]; [|done]. case_decide as Hst; [done|].
  unfold checkSpawnCaps in E.
  destruct (Z.ltb_spec (SpawnMaxDepth cfg) (Depth w q + 1)); [done|].
  destruct (Z.leb_spec (SpawnMaxChildren cfg) (childCount w (cp_ParentID p) (ce_children env)));
    [done|].
  destruct (ResolveProfile cfg _) eqn:Er; [|done]. injection E as <- <-. done.
Qed.

(** The same request with the resources spelled out. *)
Definition with_resources (p : CreateProfile) (r : Resources) : CreateProfile :=
  mkProfile (cp_Name p) (cp_Image p) (Some r) (cp_Model p) (cp_ParentID p).

(** Children of a replayed parent without a recorded profile do not fall
    back to the configured defaults: an omitted [resources] is inherited as the
    zero value and the spawn is refused for that field, although the same request
    with the configured default resources spelled out passes every check. *)
Theorem zero_profile_parent_refuses cfg w p env pa x :
  Get w (cp_ParentID p) = Some pa → cp_ParentID p ≠ ""%string →
  a_resolved pa = zero_resolved → cp_Resources p = None →
  create_check cfg w (with_resources p (DefaultResources cfg)) env = Ok x →
  Create cfg w p env = (Some (ErrValidation "resources"), [], w).
Proof.
  intros Hg Hne Hz Hr Hok. unfold Create, create_check in *. revert Hok.
  cbn [with_resources cp_ParentID]. unfold resolveParent.
  rewrite (proj2 (String.eqb_neq _ _) Hne), Hg. case_decide; [done|].
  destruct (checkSpawnCaps _ _ _ _ _); [done|].
  unfold ResolveProfile, CreateProfile_Validate, inheritProfile. rewrite Hz.
  cbn [with_resources cp_Resources]. rewrite Hr.
  cbn [inheritProfile with_resources cp_Name cp_Image cp_Resources rp_Resources zero_resolved].
  destruct (non_empty (cp_Name p) && _); [done|].
  destruct (non_empty (or_default _ _) && _); [done|]. intros _.
  by vm_compute (Resources_Validate _).
Qed.

(** The calls of a create that failed after the sandbox existed end with the
    rollback of that sandbox. *)
Definition rolled_back (calls : list call) (name : string) : Prop :=
  ∃ spec pre, calls = CCreateSandbox name spec :: pre ++ rollbackSandbox name.

Lemma create_finish_spec w s a calls r c w' :
  create_finish w s a calls = (r, c, w') →
  (r = None ∧ c = calls ∧ w_reg w' = {[a_ID a]} ∪ w_reg w ∧
     ∃ a', w_objs w' !! a_ID a = Some a' ∧ a_status a' = StatusReady ∧
       f_state (a_fsm a') = SessionReady) ∨
  (r = Some ERecordStarted ∧ c = calls ++ rollbackSandbox (a_Sandbox a) ∧
     w_reg w' = w_reg w ∖ {[a_ID a]}).
Proof.
  unfold create_finish. destruct (agent_transition _ _ _ _ _) as [[[e|] s1] a1] eqn:E;
    intros [= <- <- <-]; [right; done|left].
  split_and!; [done..|]. eexists. cbn [w_objs]. rewrite lookup_insert_eq. split_and!; [done..|].
  unfold agent_transition, Transition in E.
  destruct (negb _); [done|]. destruct (PublishLifecycle _ _ _ _) as [[[ev|] s2] h2]; [|done].
  by injection E as <- <-.
Qed.

(** What a create that got as far as its first gateway call leaves. *)
Definition create_outcome (w : World S) (env : create_env) (res : option AgentErr)
    (calls : list call) (w' : World S) : Prop :=
  match res with
  | None => w_reg w' = {[ce_id env]} ∪ w_reg w ∧
      ∃ a, Get w' (ce_id env) = Some a ∧ a_status a = StatusReady ∧
        f_state (a_fsm a) = SessionReady
  | Some _ => w_reg w' = w_reg w ∧
      (calls = [] ∨ ∃ name, ((∃ spec, calls = [CCreateSandbox name spec]) ∧ ce_create_ok env = false) ∨
         rolled_back calls name)
  end.

Lemma create_outcome_rollback w env e name spec c1 w' :
  w_reg w' = w_reg w →
  create_outcome w env (Some e) (CCreateSandbox name spec :: c1 ++ rollbackSandbox name) w'.
Proof. intros Hr. split; [done|]. right. exists name. right. by exists spec, c1. Qed.

Lemma create_finish_outcome w env w1 s a spec c1 res calls w' :
  ce_id env ∉ w_reg w → a_ID a = ce_id env → w_reg w1 = w_reg w →
  create_finish w1 s a (CCreateSandbox (a_Sandbox a) spec :: c1) = (res, calls, w') →
  create_outcome w env res calls w'.
Proof.
  intros Hfresh Hid Hreg
    [(-> & -> & Hr & a' & Ho & Hs & Hf)|(-> & -> & Hr)]%create_finish_spec; rewrite Hid, Hreg in *.
  - split; [done|]. exists a'. split_and!; [|done..]. apply Get_Some. rewrite Hr.
    split; [by apply elem_of_union_l, elem_of_singleton|done].
  - apply create_outcome_rollback. by rewrite Hr, difference_fresh.
Qed.

Lemma noteBootID_same a resolved st :
  a_ID (noteBootID a resolved st) = a_ID a ∧ a_Sandbox (noteBootID a resolved st) = a_Sandbox a.
Proof. unfold noteBootID, preflight, daemonFor. by repeat case_match; simplify_eq. Qed.

Lemma create_provision_outcome cfg w a parent env spec c1 res calls w' :
  ce_id env ∉ w_reg w → a_ID a = ce_id env →
  create_provision cfg w a parent env (CCreateSandbox (a_Sandbox a) spec :: c1) = (res, calls, w') →
  create_outcome w env res calls w'.
Proof.
  intros Hfresh Hid. unfold create_provision.
  destruct (agent_publish _ _ _ _) as [[ev s] a1] eqn:Ep.
  assert (Ha : a_ID a1 = ce_id env ∧ a_Sandbox a1 = a_Sandbox a).
  { unfold agent_publish in Ep. destruct (PublishLifecycle _ _ _ _) as [[e1 s1] h1].
    by injection Ep as _ _ <-. }
  destruct Ha as [Hid1 Hsb1]. rewrite <-!app_comm_cons.
  destruct (negb (ce_policy_ok env)).
  { intros [= <- <- <-]. rewrite (cons_middle _ c1), app_assoc. by apply create_outcome_rollback. }
  destruct (negb (ce_deny_ok env)).
  { intros [= <- <- <-]. rewrite (cons_middle _ c1), app_assoc, (cons_middle _ (_ ++ _)), app_assoc.
    by apply create_outcome_rollback. }
  case_decide as Ht.
  - destruct (noteBootID_same (set_pull true a1) (ce_resolve env) (ce_status env)) as [Hi Hs].
    cbn [a_Sandbox set_pull] in Hs. rewrite <-Hsb1, <-Hs.
    by apply create_finish_outcome; [|rewrite Hi|].
  - destruct (negb (ce_startpi_ok env)).
    + intros [= <- <- <-]. rewrite (cons_middle _ (_ ++ _)), app_assoc.
      by apply create_outcome_rollback.
    + rewrite <-Hsb1. change (a_Sandbox a1) with (a_Sandbox (set_stdin (StdinOpen []) a1)).
      by apply create_finish_outcome.
Qed.

(** C10. A create registers a ready agent or leaves no sandbox behind.  Success
    means the new agent is registered, ready, with a ready session; a failure
    leaves the registry as it was and, once the gateway has created the sandbox,
    ends with withdrawing the daemon endpoint and deleting that sandbox. *)
Theorem create_all_or_nothing cfg w parent parentID r env res calls w' :
  create_commit cfg w parent parentID r env = (res, calls, w') → ce_id env ∉ w_reg w →
  create_outcome w env res calls w'.
Proof.
  intros E Hfresh. unfold create_commit in E.
  destruct (NewEventHub (w_store w) (ce_id env)) as [hub|]; [|injection E as <- <- <-; split; auto].
  destruct (ce_create_ok env) eqn:Ec.
  2:{ injection E as <- <- <-. split; [done|]. right. eexists. left. split; [by eexists|done]. }
  destruct (sandbox_ready env).
  2:{ injection E as <- <- <-. by apply (create_outcome_rollback _ _ _ _ _ []). }
  case_decide as Ht; [destruct (ce_expose_ok env)|].
  - by eapply create_provision_outcome in E.
  - injection E as <- <- <-. by apply (create_outcome_rollback _ _ _ _ _ [_]).
  - by eapply create_provision_outcome in E.
Qed.

(** ** Delete *)

(** The parts of an agent a deletion does not touch. *)
Definition links w (id : string) : option (string * string) :=
  (λ a, (a_ParentID a, a_Sandbox a)) <$> w_objs w !! id.

(** [x] is registered and below [id] in the spawn tree. *)
Inductive descends w (id : string) : string → Prop :=
| descends_child x sb : x ∈ w_reg w → links w x = Some (id, sb) → descends w id x
| descends_trans x y sb : x ∈ w_reg w → links w x = Some (y, sb) → descends w id y → descends w id x.

Definition deleted_call w (x : string) (calls : list call) : Prop :=
  ∃ p sb, links w x = Some (p, sb) ∧ CDeleteSandbox sb ∈ calls.

(** What a (partial) cascade from [w], [v] has done: deregistered exactly the
    newly visited, deleted the sandbox of each that was registered, and left no
    registered child of a visited agent unvisited. *)
Record cascaded w (v : gset string) (k : cascade) : Prop := mkCascaded {
  cd_links : ∀ x, links (k_world k) x = links w x;
  cd_sub : v ⊆ k_visited k;
  cd_reg : w_reg (k_world k) = w_reg w ∖ (k_visited k ∖ v);
  cd_calls : ∀ x, x ∈ w_reg w → x ∈ k_visited k ∖ v → deleted_call w x (k_calls k);
  cd_closed : ∀ x p sb, x ∈ w_reg w → links w x = Some (p, sb) → p ∈ k_visited k ∖ v →
    x ∈ k_visited k
}.

Lemma cascaded_refl w v e : cascaded w v (mkCascade e [] w v).
Proof. split; simpl; [done|done|set_solver|set_solver|set_solver]. Qed.

Lemma deleted_call_app w x c1 c2 :
  deleted_call w x c1 ∨ deleted_call w x c2 → deleted_call w x (c1 ++ c2).
Proof.
  intros [(p & sb & Hl & Hc)|(p & sb & Hl & Hc)]; exists p, sb; split; try done;
    apply elem_of_app; auto.
Qed.

Lemma cascaded_trans w v k1 k2 e :
  cascaded w v k1 → cascaded (k_world k1) (k_visited k1) k2 →
  cascaded w v (mkCascade e (k_calls k1 ++ k_calls k2) (k_world k2) (k_visited k2)).
Proof.
  intros [L1 S1 R1 C1 D1] [L2 S2 R2 C2 D2]. split; cbn [k_world k_visited k_calls].
  - intros x. by rewrite L2, L1.
  - set_solver.
  - rewrite R2, R1. clear -S1 S2. apply set_eq. intros x. rewrite !elem_of_difference.
    split; [|set_solver]. intros [[Hx Hn1] Hn2]. split; [done|]. intros [Hv2 Hnv].
    destruct (decide (x ∈ k_visited k1)); [by apply Hn1|by apply Hn2].
  - intros x Hx [Hv2 Hnv]%elem_of_difference. apply deleted_call_app.
    destruct (decide (x ∈ k_visited k1)) as [Hv1|Hv1].
    + left. apply C1; [done|]. by apply elem_of_difference.
    + right. destruct (C2 x) as (p & sb & Hl & Hc).
      * rewrite R1. apply elem_of_difference. split; [done|].
        intros [? _]%elem_of_difference. done.
      * by apply elem_of_difference.
      * exists p, sb. by rewrite <-L1.
  - intros x p sb Hx Hl [Hp Hnp]%elem_of_difference.
    destruct (decide (p ∈ k_visited k1)) as [Hv1|Hv1].
    + apply S2, (D1 x p sb); [done|done|]. by apply elem_of_difference.
    + destruct (decide (x ∈ k_visited k1)) as [Hx1|Hx1]; [by apply S2|].
      apply (D2 x p sb); [|by rewrite L1|by apply elem_of_difference].
      rewrite R1. apply elem_of_difference. split; [done|].
      intros [? _]%elem_of_difference. done.
Qed.

Lemma children_of_spec w id x :
  x ∈ children_of w id ↔ x ∈ w_reg w ∧ ∃ sb, links w x = Some (id, sb).
Proof.
  unfold children_of, links. rewrite elem_of_sort_strings, list_elem_of_filter, elem_of_elements.
  destruct (w_objs w !! x) as [a|]; simpl; [|naive_solver]. split.
  - intros [[= <-] ?]. eauto.
  - intros [? (sb & [= <- <-])]. done.
Qed.

Lemma deleteOne_links w id ok e calls w' :
  deleteOne w id ok = (e, calls, w') →
  (∀ x, links w' x = links w x) ∧ w_reg w' = w_reg w ∖ {[id]} ∧
  (∀ p sb, id ∈ w_reg w → links w id = Some (p, sb) →
     calls = [CWithdrawDaemon sb; CDeleteSandbox sb]).
Proof.
  unfold deleteOne. destruct (Get w id) as [a|] eqn:Eg.
  - apply Get_Some in Eg as [Hr Ho].
    destruct (agent_transition _ _ _ _ _) as [[e1 s1] a1] eqn:Et. intros [= <- <- <-].
    assert (Ha : a_ParentID a1 = a_ParentID a ∧ a_Sandbox a1 = a_Sandbox a).
    { unfold agent_transition in Et. destruct (Transition _ _ _ _ _ _) as [[[e2 s2] h2] f2].
      injection Et as _ _ <-. by destruct (a_stdin _). }
    destruct Ha as [Hp Hs]. split_and!; [|done|].
    + intros x. unfold links. cbn [w_objs]. destruct (decide (x = id)) as [->|];
        [|by rewrite lookup_insert_ne].
      rewrite lookup_insert_eq, Ho. simpl. by rewrite Hp, Hs.
    + intros p sb _. unfold links. rewrite Ho. by intros [= _ <-].
  - intros [= <- <- <-]. split_and!; [done..|]. intros p sb Hr Hl. unfold links in Hl.
    destruct (w_objs w !! id) as [a|] eqn:Eo; [|done].
    assert (Get w id = Some a) by by apply Get_Some. congruence.
Qed.

Lemma descends_mono w w' id x :
  w_reg w' ⊆ w_reg w → (∀ y, links w' y = links w y) → descends w' id x → descends w id x.
Proof.
  intros Hr Hl. induction 1 as [x sb Hx Hlx|x y sb Hx Hlx _ IH].
  - rewrite Hl in Hlx. eapply descends_child; [by apply Hr|done].
  - rewrite Hl in Hlx. eapply descends_trans; [by apply Hr|done|done].
Qed.

Lemma descends_below w id cid sb x :
  cid ∈ w_reg w → links w cid = Some (id, sb) → descends w cid x → descends w id x.
Proof.
  intros Hc Hl. induction 1 as [x sb' Hx Hlx|x y sb' Hx Hlx _ IH].
  - eapply descends_trans; [done|done|]. by eapply descends_child.
  - by eapply descends_trans.
Qed.

(** The loop over the children, given what the recursive calls do. *)
Lemma children_loop_spec (rec : World S → gset string → string → option cascade) w id cids k0 :
  (∀ w' v' cid, cid ∈ cids → k_visited k0 ⊆ v' → w_reg w' ⊆ w_reg (k_world k0) →
     (∀ x, links w' x = links (k_world k0) x) →
     ∃ k, rec w' v' cid = Some k ∧ cascaded w' v' k ∧ cid ∈ k_visited k ∧
       ∀ x, x ∈ k_visited k ∖ v' → x = cid ∨ descends w' cid x) →
  (∀ cid, cid ∈ cids → cid ∈ w_reg w ∧ ∃ sb, links w cid = Some (id, sb)) →
  w_reg (k_world k0) ⊆ w_reg w → (∀ x, links (k_world k0) x = links w x) →
  ∃ k, children_loop rec cids k0 = Some k ∧
    (∀ v, cascaded w v k0 → cascaded w v k) ∧ k_visited k0 ⊆ k_visited k ∧
    (∀ cid, cid ∈ cids → cid ∈ k_visited k) ∧
    ∀ x, x ∈ k_visited k ∖ k_visited k0 → descends w id x.
Proof.
  revert k0. induction cids as [|cid cids IH]; intros k0 Hrec Hkids Hreg Hlinks.
  { exists k0. split_and!; [done|done|done|set_solver|set_solver]. }
  cbn [children_loop].
  destruct (Hrec (k_world k0) (k_visited k0) cid) as (k1 & Hk1 & Hc1 & Hin1 & Hd1); [left|done..|].
  rewrite Hk1. destruct Hc1 as [L1 S1 R1 C1 D1] eqn:Hcd. clear Hcd.
  assert (Hsub : w_reg (k_world k1) ⊆ w_reg (k_world k0)) by (rewrite R1; set_solver).
  set (k0' := mkCascade (first_err (k_err k0) (k_err k1)) (k_calls k0 ++ k_calls k1)
                (k_world k1) (k_visited k1)).
  destruct (IH k0') as (k & Hk & Hcas & Hv & Hcids & Hdesc); cbn [k_world k_visited k0'].
  - intros w' v' c Hc Hv' Hr' Hl'. apply Hrec; [by right|set_solver|set_solver|].
    intros x. by rewrite Hl', L1.
  - intros c Hc. apply Hkids. by right.
  - set_solver.
  - intros x. by rewrite L1, Hlinks.
  - exists k. split_and!; [done| |set_solver| |].
    + intros v Hcv. apply Hcas. by apply cascaded_trans.
    + intros c [->|Hc]%elem_of_cons; [by apply Hv|by apply Hcids].
    + intros x [Hx Hn]%elem_of_difference.
      destruct (decide (x ∈ k_visited k1)) as [Hx1|Hx1].
      * destruct (Hkids cid) as [Hcr (sb & Hcl)]; [left|].
        destruct (Hd1 x) as [->|Hd]; [by apply elem_of_difference| |].
        -- by eapply descends_child.
        -- eapply descends_below; [done..|]. by eapply descends_mono.
      * apply Hdesc. by apply elem_of_difference.
Qed.

Lemma deleteCascade_step fuel listed ok w v id :
  (∀ w' v' cid, cid ∈ w_reg w → {[id]} ∪ v ⊆ v' → w_reg w' ⊆ w_reg w →
     (∀ x, links w' x = links w x) →
     ∃ k, deleteCascade fuel listed ok w' v' cid = Some k ∧ cascaded w' v' k ∧
       cid ∈ k_visited k ∧ ∀ x, x ∈ k_visited k ∖ v' → x = cid ∨ descends w' cid x) →
  (∀ x, x ∈ w_reg w → is_Some (links w x)) → id ∉ v →
  ∃ k pre tail, deleteCascade (Datatypes.S fuel) listed ok w v id = Some k ∧ cascaded w v k ∧
    id ∈ k_visited k ∧ (∀ x, x ∈ k_visited k ∖ v → x = id ∨ descends w id x) ∧
    k_calls k = pre ++ tail ∧
    (∀ p sb, id ∈ w_reg w → links w id = Some (p, sb) →
       tail = [CWithdrawDaemon sb; CDeleteSandbox sb]) ∧
    (∀ x, x ∈ w_reg w → x ∈ k_visited k ∖ v → x ≠ id → deleted_call w x pre).
Proof.
  intros Hrec Hwf Hv. cbn [deleteCascade]. rewrite decide_False by done.
  set (k0 := mkCascade None [] w ({[id]} ∪ v)).
  destruct (children_loop_spec (deleteCascade fuel listed ok) w id (children_of w id) k0)
    as (k & Hk & Hcas & Hsub & Hkids & Hdesc); [| |done|done|].
  { intros w' v' cid Hc. apply Hrec. by apply children_of_spec in Hc as [? _]. }
  { intros cid. by rewrite children_of_spec. }
  destruct (Hcas _ (cascaded_refl w ({[id]} ∪ v) None)) as [L1 S1 R1 C1 D1].
  rewrite Hk. destruct (deleteOne (k_world k) id ok) as [[e calls] w'] eqn:Ed.
  apply deleteOne_links in Ed as (L2 & R2 & Hcalls).
  assert (Hidr : id ∈ w_reg w → id ∈ w_reg (k_world k)).
  { intros Hr. rewrite R1. set_solver. }
  assert (Hidv : id ∈ k_visited k) by set_solver.
  eexists _, (k_calls k ++ orphan_deletes (k_world k) (listed id)), calls.
  split; [reflexivity|]. cbn [k_visited k_calls]. rewrite <-app_assoc.
  assert (Htail : ∀ p sb, id ∈ w_reg w → links w id = Some (p, sb) →
    calls = [CWithdrawDaemon sb; CDeleteSandbox sb]).
  { intros p sb Hr Hl. eapply Hcalls; [by apply Hidr|by rewrite L1]. }
  split_and!; [|done| |done|done|].
  - split; cbn [k_world k_visited k_calls].
    + intros x. by rewrite L2, L1.
    + set_solver.
    + rewrite R2, R1. apply set_eq. intros x. rewrite !elem_of_difference, elem_of_singleton,
        elem_of_union, elem_of_singleton. destruct (decide (x = id)) as [->|]; naive_solver.
    + intros x Hx [Hxv Hnv]%elem_of_difference. apply deleted_call_app.
      destruct (decide (x = id)) as [->|Hne].
      * right. apply deleted_call_app. right. unfold deleted_call.
        destruct (Hwf id Hx) as [[p sb] Hl]. exists p, sb. split; [done|].
        rewrite (Htail p sb Hx Hl). set_solver.
      * left. apply C1; [done|]. set_solver.
    + intros x p sb Hx Hl [Hp Hnp]%elem_of_difference.
      destruct (decide (p = id)) as [->|Hne].
      * apply Hkids, children_of_spec. eauto.
      * apply (D1 x p sb); [done|done|]. set_solver.
  - intros x [Hx Hnv]%elem_of_difference. destruct (decide (x = id)) as [->|Hne]; [by left|].
    right. apply Hdesc. cbn [k_visited k0]. set_solver.
  - intros x Hx [Hxv Hnv]%elem_of_difference Hne. apply deleted_call_app. left.
    apply C1; [done|]. set_solver.
Qed.

Lemma deleteCascade_spec fuel listed ok w v id :
  (∀ x, x ∈ w_reg w → is_Some (links w x)) →
  id ∈ v ∨ (size (w_reg w ∖ ({[id]} ∪ v)) < fuel)%nat →
  ∃ k, deleteCascade fuel listed ok w v id = Some k ∧ cascaded w v k ∧ id ∈ k_visited k ∧
    ∀ x, x ∈ k_visited k ∖ v → x = id ∨ descends w id x.
Proof.
  revert w v id. induction fuel as [|fuel IH]; intros w v id Hwf Hf.
  - destruct Hf as [Hv|]; [|lia]. exists (mkCascade None [] w v). cbn [deleteCascade].
    rewrite decide_True by done.
    split_and!; [done|apply cascaded_refl|done|cbn; set_solver].
  - destruct (decide (id ∈ v)) as [Hv|Hv].
    { exists (mkCascade None [] w v). cbn [deleteCascade]. rewrite decide_True by done.
      split_and!; [done|apply cascaded_refl|done|cbn; set_solver]. }
    destruct Hf as [|Hf]; [done|].
    destruct (deleteCascade_step fuel listed ok w v id) as (k & pre & tail & Hk & Hc & Hi & Hd & _);
      [|done|done|by exists k].
    intros w' v' cid Hcid Hv' Hr' Hl'. apply IH.
    { intros x Hx. rewrite Hl'. apply Hwf. by apply Hr'. }
    destruct (decide (cid ∈ v')) as [|Hn]; [by left|]. right.
    assert (size (w_reg w' ∖ ({[cid]} ∪ v')) < size (w_reg w ∖ ({[id]} ∪ v)))%nat; [|lia].
    apply subset_size. set_solver.
Qed.

(** C6. Deleting an agent takes its whole subtree with it, bottom up.  The
    cascade always terminates, whatever the linkage (cycles included) and
    whatever the gateway answers; afterwards exactly the agent and its
    descendants are no longer registered; and for a registered agent the calls
    end with withdrawing and deleting its own sandbox, after the sandbox of every
    descendant has been deleted. *)
Theorem delete_cascades listed ok w id :
  world_wf w →
  ∃ k, Delete listed ok w id = Some k ∧
    (∀ x, x ∈ w_reg (k_world k) ↔ x ∈ w_reg w ∧ x ≠ id ∧ ¬ descends w id x) ∧
    (∀ p sb, id ∈ w_reg w → links w id = Some (p, sb) →
       ∃ pre, k_calls k = pre ++ [CWithdrawDaemon sb; CDeleteSandbox sb] ∧
         ∀ x, descends w id x → x ≠ id → deleted_call w x pre).
Proof.
  intros Hw.
  assert (Hwf : ∀ x, x ∈ w_reg w → is_Some (links w x)).
  { intros x Hx. destruct (Hw x Hx) as (a & Ha & _). unfold links. rewrite Ha. simpl. eauto. }
  destruct (deleteCascade_step (size (w_reg w)) listed ok w ∅ id)
    as (k & pre & tail & Hk & Hc & Hi & Hd & Hcalls & Htail & Hpre); [|done|set_solver|].
  { intros w' v' cid Hcid Hv' Hr' Hl'. apply deleteCascade_spec.
    { intros x Hx. rewrite Hl'. apply Hwf. by apply Hr'. }
    destruct (decide (cid ∈ v')) as [|Hn]; [by left|]. right. apply subset_size. set_solver. }
  assert (Hclosed : ∀ x, descends w id x → x ∈ k_visited k).
  { induction 1 as [x sb Hx Hl|x y sb Hx Hl _ IH].
    - apply (cd_closed _ _ _ Hc x id sb); [done|done|set_solver].
    - apply (cd_closed _ _ _ Hc x y sb); [done|done|set_solver]. }
  exists k. split; [done|]. split.
  - intros x. rewrite (cd_reg _ _ _ Hc), elem_of_difference. split.
    + intros [Hx Hn]. split_and!; [done|intros ->; set_solver|]. intros Hdx.
      apply Hclosed in Hdx. set_solver.
    + intros (Hx & Hne & Hnd). split; [done|]. intros Hxv.
      by destruct (Hd x Hxv) as [->|].
  - intros p sb Hr Hl. exists pre. split; [by rewrite Hcalls, (Htail p sb Hr Hl)|].
    intros x Hdx Hne. apply Hpre; [|set_solver|done]. by destruct Hdx.
Qed.

End manager_laws.

(** ** A concrete registry *)

(** A root, its child and its grandchild; the child's profile was not recorded. *)
Definition ex_node (id parent : string) (r : ResolvedProfile) : Agent :=
  mkAgent id ("sbx-" +:+ id) 0 parent r StatusReady 0 false "" false false
    (mkHub id 0 0 ∅ 0 false) (mkFSM id SessionReady) StdinNil None true 0 false.

Definition ex_world : World MemDB :=
  mkWorld mem_empty
    (<["a" := ex_node "a" "" ex_resolved]> (<["b" := ex_node "b" "a" zero_resolved]>
      (<["c" := ex_node "c" "b" ex_resolved]> ∅)))%string
    ({["a"; "b"; "c"]})%string None.

Lemma ex_world_wf : world_wf ex_world.
Proof.
  intros id Hid. unfold ex_world in *. cbn [w_reg w_objs] in *.
  assert (id = "a" ∨ id = "b" ∨ id = "c")%string as [->|[->| ->]] by set_solver;
    eexists; split; vm_compute; reflexivity.
Qed.

Lemma depth_counts_ancestors_witness :
  Depth ex_world (ex_node "c" "b" ex_resolved) = 2 ∧
  ∃ ps, 2 = Z.of_nat (length ps) ∧ ancestors ex_world (ex_node "c" "b" ex_resolved) ps.
Proof.
  split; [vm_compute; reflexivity|].
  destruct (depth_counts_ancestors ex_world (ex_node "c" "b" ex_resolved) ex_world_wf)
    as (ps & Hd & Hc & _). exists ps. split; [|exact Hc]. rewrite <-Hd. vm_compute. reflexivity.
Defined.

Definition ex_create : create_env :=
  mkCreateEnv "agent-0a1b2c3d4e5f" 0 (Some []) true (λ _, Some PhaseReady) 0
    (λ i, Z.of_nat i * wait_ready_poll) true true true (Some "http://d"%string)
    (Some (mkDaemonStatus "boot-1" true)) true.

Lemma zero_profile_parent_refuses_witness :
  Create ex_config ex_world (mkProfile "" "" None "" "b") ex_create =
    (Some (ErrValidation "resources"), [], ex_world).
Proof.
  destruct (create_check ex_config ex_world
    (with_resources (mkProfile "" "" None "" "b") (DefaultResources ex_config)) ex_create)
    as [x|e] eqn:E; [|vm_compute in E; discriminate].
  apply (zero_profile_parent_refuses ex_config ex_world (mkProfile "" "" None "" "b") ex_create
    (ex_node "b" "a" zero_resolved) x);
    [vm_compute; reflexivity|discriminate|reflexivity|reflexivity|exact E].
Defined.

Lemma create_all_or_nothing_witness :
  let '(r, calls, w) := create_commit ex_config ex_world None "" ex_resolved ex_create in
  r = None ∧ create_outcome ex_world ex_create r calls w.
Proof.
  destruct (create_commit ex_config ex_world None "" ex_resolved ex_create) as [[r calls] w] eqn:E.
  split; [vm_compute in E; by injection E as <- _ _|].
  apply (create_all_or_nothing ex_config ex_world None "" ex_resolved ex_create r calls w E).
  vm_compute. discriminate.
Defined.

Lemma delete_cascades_witness :
  ∃ k, Delete (λ _, None) (λ _, true) ex_world "a" = Some k ∧ w_reg (k_world k) = ∅ ∧
    ∃ pre, k_calls k = pre ++ [CWithdrawDaemon "sbx-a"; CDeleteSandbox "sbx-a"]%string.
Proof.
  destruct (delete_cascades (λ _, None) (λ _, true) ex_world "a" ex_world_wf)
    as (k & Hk & Hreg & Hcalls).
  exists k. split; [exact Hk|]. split.
  - vm_compute in Hk. injection Hk as <-. vm_compute. reflexivity.
  - destruct (Hcalls ""%string "sbx-a"%string) as (pre & Hpre & _); [set_solver|reflexivity|].
    by exists pre.
Defined.
