(* ===== verification/Registry.v ===== *)
(** * The registry: projections of the log and restart (src/controller/registry.go)

    The agent-status projection, the provisioning payload, the views, and the
    rebuild of the registry from the durable log at startup. *)

From Stdlib Require Import String ZArith.
From S2P Require Import Prelude Json GoTime GoStrings Bolt EventStore EventHub Fsm Monitor Config.
From S2P Require Import Agent Manager.
From stdpp Require Import base list strings numbers gmap.
Local Open Scope Z_scope.

(** ** Projections *)

(** The loop body of [ReplayAgentStatus]. *)
Definition status_step (st : AgentStatus) (ev : Event) : AgentStatus :=
  let t := Typ ev in
  if String.eqb t lifecycleProvisioned then StatusCreating
  else if String.eqb t lifecycleStarted || String.eqb t lifecycleSettled then StatusReady
  else if String.eqb t lifecycleTurnStarted then StatusWorking
  else if String.eqb t lifecycleFailed || String.eqb t lifecyclePaused then StatusFailed
  else if String.eqb t lifecycleRevived then StatusReady
  else if String.eqb t lifecycleTerminated then StatusTerminated
  else st.

Definition ReplayAgentStatus (evs : list Event) : AgentStatus :=
  fold_left status_step evs StatusCreating.

(** The provisioning payload: sandbox, creation time, parent, profile. *)
Record provision_info : Type := mkProvision {
  pi_sandbox : string;
  pi_created : option Z;
  pi_parent : string;
  pi_resolved : ResolvedProfile
}.

Definition provision_step (st : provision_info) (ev : Event) : provision_info :=
  if negb (String.eqb (Typ ev) lifecycleProvisioned) then st
  else match unmarshal_struct (Data ev) with
  | None => st
  | Some ms =>
      let '(sandbox, b1) := string_field "sandbox" ms in
      let '(created, b2) := string_field "created" ms in
      let '(parent, b3) := string_field "parent" ms in
      let '(image, b4) := string_field "image" ms in
      let '(provider, b5) := string_field "provider" ms in
      let '(model, b6) := string_field "model" ms in
      let '(cpu, b7) := string_field "cpu" ms in
      let '(memory, b8) := string_field "memory" ms in
      if b1 || b2 || b3 || b4 || b5 || b6 || b7 || b8 then st
      else
        mkProvision sandbox
          (if String.eqb created "" then pi_created st
           else match Parse created with Some t => Some t | None => pi_created st end)
          parent
          (if non_empty image || non_empty provider || non_empty model || non_empty cpu
              || non_empty memory
           then mkResolved sandbox image (mkResources cpu memory) provider model
           else pi_resolved st)
  end.

Definition replayProvisionInfo (evs : list Event) : provision_info :=
  fold_left provision_step evs (mkProvision "" None "" zero_resolved).

(** ** Views *)

Definition statusFromPhase (p : SandboxPhase) : AgentStatus :=
  match p with
  | PhaseReady => StatusReady
  | PhaseError => StatusFailed
  | PhaseStopped => StatusCreating
  | PhaseOther => StatusCreating
  end.

Inductive Source : Type := SourceLive | SourceReplayed | SourceCR.

Record AgentView : Type := mkAgentView {
  vw_ID : string;
  vw_Sandbox : string;
  vw_Status : AgentStatus;
  vw_Degraded : bool;
  vw_Session : option SessionState;
  vw_Created : option Z;
  vw_Parent : string;
  vw_Children : list string;
  vw_Source : Source;
  vw_Assessment : option AssessmentView
}.

Definition set_view_sandbox (name : string) (v : AgentView) : AgentView :=
  mkAgentView (vw_ID v) name (vw_Status v) (vw_Degraded v) (vw_Session v) (vw_Created v)
    (vw_Parent v) (vw_Children v) (vw_Source v) (vw_Assessment v).

(** The order of [List]: by creation time when both are known, else by id. *)
Definition view_less (x y : AgentView) : bool :=
  match vw_Created x, vw_Created y with
  | Some cx, Some cy => cx <? cy
  | _, _ => match String.compare (vw_ID x) (vw_ID y) with Lt => true | _ => false end
  end.

Definition crView (info : SandboxInfo) (assessment : option AssessmentView) : AgentView :=
  mkAgentView (label info LabelAgentID) (si_Name info) (statusFromPhase (si_Phase info)) false None
    None (label info LabelParentAgentID) [] SourceCR assessment.

(** ** Startup *)

(** The goroutines started for an agent on the pull transport: [runPuller],
    [reviveFromPaused] and [holdAndResumePuller]. *)
Inductive spawn : Type := GoPuller (id : string) | GoRevive (id : string) | GoHold (id : string).

Inductive RebuildErr : Type := EAgents | EOpenHub (id : string) | EReplay (id : string).

Section registry.
  Context {S : Type} `{EventStore S}.

Definition liveChildIDs (w : World S) (parentID : string) : list string :=
  filter (λ id, a_status <$> w_objs w !! id ≠ Some StatusTerminated) (children_of w parentID).

Definition agentView (w : World S) (a : Agent) : AgentView :=
  mkAgentView (a_ID a) (a_Sandbox a) (a_status a) (a_degraded a) (Some (f_state (a_fsm a)))
    (if IsZero (a_Created a) then None else Some (a_Created a))
    (match Get w (a_ParentID a) with
     | Some p => if decide (a_status p = StatusTerminated) then "" else a_ParentID a
     | None => ""
     end)
    (liveChildIDs w (a_ID a))
    (if a_replayedOnly a then SourceReplayed else SourceLive)
    (match SubscribeSnapshot (w_store w) (a_hub a) with
     | Ok evs => assessmentFromEvents evs
     | Err _ => None
     end).

Definition assessmentFor (w : World S) (id : string) : option AssessmentView :=
  match Replay (w_store w) id 0 with
  | Ok evs => assessmentFromEvents evs
  | Err _ => None
  end.

(** The first owned sandbox of an agent. *)
Definition owned_info (infos : list SandboxInfo) (id : string) : option SandboxInfo :=
  head (filter (λ i, owned i = true ∧ label i LabelAgentID = id) infos).

Definition crSandboxFor (listed : option (list SandboxInfo)) (id : string) : string :=
  match listed with
  | None => ""
  | Some infos => match owned_info infos id with Some i => si_Name i | None => "" end
  end.

Definition GetView (w : World S) (id : string) (listed : option (list SandboxInfo))
    : res AgentErr AgentView :=
  match Get w id with
  | Some a =>
      let v := agentView w a in
      Ok (if String.eqb (vw_Sandbox v) "" then set_view_sandbox (crSandboxFor listed id) v else v)
  | None =>
      match listed with
      | None => Err EGateway
      | Some infos =>
          match owned_info infos id with
          | Some i => Ok (crView i (assessmentFor w id))
          | None => Err (ErrUnknownAgent id)
          end
      end
  end.

(** The views of [List] before sorting. *)
Definition list_views (w : World S) (infos : list SandboxInfo) : list AgentView :=
  (λ i, match Get w (label i LabelAgentID) with
        | Some a =>
            let v := agentView w a in
            if String.eqb (vw_Sandbox v) "" then set_view_sandbox (si_Name i) v else v
        | None => crView i (assessmentFor w (label i LabelAgentID))
        end) <$> filter (λ i, owned i = true) infos.

Definition replayed_agent (cfg : Config) (id : string) (hub : EventHub) (evs : list Event) : Agent :=
  let info := replayProvisionInfo evs in
  let pull := bool_decide (Transport cfg = TransportPull) in
  mkAgent id (pi_sandbox info) (default zero_time (pi_created info)) (pi_parent info)
    (pi_resolved info) (ReplayAgentStatus evs) 0 true "" false false hub
    (NewSessionFSM id (ReplaySession evs)) StdinNil None pull 0 false.

(** One iteration of [RebuildFromLog]. *)
Definition rebuild_one (cfg : Config) (w : World S) (id : string) (now : Z)
    : res RebuildErr (World S * list spawn) :=
  match Get w id with
  | Some _ => Ok (w, [])
  | None =>
      match NewEventHub (w_store w) id with
      | Err _ => Err (EOpenHub id)
      | Ok hub =>
          match SubscribeSnapshot (w_store w) hub with
          | Err _ => Err (EReplay id)
          | Ok evs =>
              if decide (ReplaySession evs = SessionTerminated) then Ok (w, [])
              else
                let a := replayed_agent cfg id hub evs in
                let mo :=
                  if decide (ReplaySession evs = SessionRunning ∧
                             ReplayAgentStatus evs = StatusWorking)
                  then mon_arm (w_mon w) (w_store w) hub id now else w_mon w in
                Ok (mkWorld (w_store w) (<[id := a]> (w_objs w)) ({[id]} ∪ w_reg w) mo,
                    if a_pullTransport a
                    then [if decide (ReplaySession evs = SessionPaused)
                          then GoRevive id else GoPuller id]
                    else [])
          end
      end
  end.

(** The loop stops at the first failure, keeping what it registered. *)
Fixpoint rebuild_loop (cfg : Config) (w : World S) (ids : list string) (now : Z)
    : option RebuildErr * World S * list spawn :=
  match ids with
  | [] => (None, w, [])
  | id :: rest =>
      match rebuild_one cfg w id now with
      | Err e => (Some e, w, [])
      | Ok (w', sp) =>
          let '(e, w'', sp') := rebuild_loop cfg w' rest now in (e, w'', sp ++ sp')
      end
  end.

Definition RebuildFromLog (cfg : Config) (w : World S) (now : Z)
    : option RebuildErr * World S * list spawn :=
  match Agents (w_store w) with
  | Err _ => (Some EAgents, w, [])
  | Ok ids => rebuild_loop cfg w ids now
  end.

End registry.

(** ** The provisioning payload *)

Lemma provision_step_other st ev : Typ ev ≠ lifecycleProvisioned → provision_step st ev = st.
Proof.
  intros Hne. unfold provision_step. by rewrite (proj2 (String.eqb_neq _ _) Hne).
Qed.

Lemma replayProvisionInfo_app evs1 evs2 :
  Forall (λ ev, Typ ev ≠ lifecycleProvisioned) evs2 →
  replayProvisionInfo (evs1 ++ evs2) = replayProvisionInfo evs1.
Proof.
  intros Hf. unfold replayProvisionInfo. rewrite fold_left_app.
  generalize (fold_left provision_step evs1 (mkProvision "" None "" zero_resolved)).
  induction Hf as [|ev evs Hev _ IH]; intros st; [done|]. simpl.
  by rewrite provision_step_other.
Qed.
(** A date the RFC 3339 form can carry: year 0 to 9999. *)
Definition datable (t : Z) : Prop :=
  ∃ y m d, civil_of_days (t / second / 86400) = (y, m, d) ∧ 0 ≤ y ≤ 9999.

Lemma Format_datable t : datable t → Parse (Format t) = Some t ∧ String.eqb (Format t) "" = false.
Proof.
  intros (y & m & d & Hc & Hy). pose proof (Parse_Format t y m d Hc Hy) as Hp. split; [done|].
  apply String.eqb_neq. intros He. rewrite He in Hp. by vm_compute in Hp.
Qed.

(** The members a decoder finds in the payload. *)
Lemma provisioned_members id sandbox created r parent n :
  ∃ ms, unmarshal_struct (Data (lifecycle_event lifecycleProvisioned
          (provisioned_fields id sandbox created r parent) n)) = Some ms ∧
    string_field "sandbox" ms = (sandbox, false) ∧
    string_field "created" ms = (Format created, false) ∧
    string_field "parent" ms = (default "" parent, false) ∧
    string_field "image" ms = (rp_Image r, false) ∧
    string_field "provider" ms = (rp_Provider r, false) ∧
    string_field "model" ms = (rp_Model r, false) ∧
    string_field "cpu" ms = (CPU (rp_Resources r), false) ∧
    string_field "memory" ms = (Memory (rp_Resources r), false).
Proof.
  unfold provisioned_fields. generalize (Format created); intros fc.
  destruct parent as [p|]; eexists; (split; [vm_compute; reflexivity|]);
    split_and!; vm_compute; reflexivity.
Qed.

Lemma provision_step_provisioned st id sandbox created r parent n :
  datable created → rp_Name r = sandbox → non_empty (rp_Image r) = true →
  provision_step st
    (lifecycle_event lifecycleProvisioned (provisioned_fields id sandbox created r parent) n)
  = mkProvision sandbox (Some created) (default "" parent) r.
Proof.
  intros [Hp He]%Format_datable Hn Hi. unfold provision_step at 1.
  change (Typ (lifecycle_event _ _ _)) with lifecycleProvisioned. rewrite String.eqb_refl.
  cbn [negb].
  destruct (provisioned_members id sandbox created r parent n)
    as (ms & -> & -> & -> & -> & -> & -> & -> & -> & ->).
  cbn [orb]. rewrite He, Hp, Hi. cbn [orb]. rewrite <-Hn. by destruct r as [? ? [] ? ?].
Qed.

(** Provisioning survives a restart.  From the [agent.provisioned] event
    that a create writes, whatever follows it in the log, the registry recovers
    the sandbox name, the creation time to the nanosecond, the parent and the
    whole resolved profile. *)
Theorem provision_roundtrip id sandbox created r parent n rest :
  datable created → rp_Name r = sandbox → non_empty (rp_Image r) = true →
  Forall (λ ev, Typ ev ≠ lifecycleProvisioned) rest →
  replayProvisionInfo
    (lifecycle_event lifecycleProvisioned (provisioned_fields id sandbox created r parent) n :: rest)
  = mkProvision sandbox (Some created) (default "" parent) r.
Proof.
  intros Hd Hn Hi Hrest. change (?x :: rest) with ([x] ++ rest).
  rewrite replayProvisionInfo_app by done. by apply provision_step_provisioned.
Qed.

Lemma provision_roundtrip_witness :
  replayProvisionInfo
    [lifecycle_event lifecycleProvisioned
       (provisioned_fields "agent-1" "sbx-1" (1700000000 * second + 5) ex_resolved (Some "p"%string)) 1;
     mkEvent 2 lifecycleStarted RNil]
  = mkProvision "sbx-1" (Some (1700000000 * second + 5)) "p" ex_resolved.
Proof.
  apply (provision_roundtrip "agent-1" "sbx-1" (1700000000 * second + 5) ex_resolved
    (Some "p"%string) 1 [mkEvent 2 lifecycleStarted RNil]).
  - exists 2023, 11, 14. split; [vm_compute; reflexivity|lia].
  - reflexivity.
  - reflexivity.
  - repeat constructor. discriminate.
Defined.

(** ** Views *)

Section views.
  Context {S : Type} `{EventStore S}.

(** Listing and getting agree: every sandbox of a listing that the
    controller owns shows, in the list, the view that getting its agent returns
    for the same gateway answer, whether the agent is registered or not; and a
    get finds nothing exactly when the agent is neither registered nor listed. *)
Theorem list_get_agree (w : World S) infos :
  (∀ i, i ∈ infos → owned i = true →
     ∃ v, GetView w (label i LabelAgentID) (Some infos) = Ok v ∧ v ∈ list_views w infos) ∧
  (∀ id, GetView w id (Some infos) = Err (ErrUnknownAgent id) ↔
     Get w id = None ∧ ¬ ∃ i, i ∈ infos ∧ owned i = true ∧ label i LabelAgentID = id).
Proof.
  assert (Hhead : ∀ id, match owned_info infos id with
    | Some j => j ∈ infos ∧ owned j = true ∧ label j LabelAgentID = id
    | None => ¬ ∃ i, i ∈ infos ∧ owned i = true ∧ label i LabelAgentID = id
    end).
  { intros id. unfold owned_info.
    destruct (filter _ infos) as [|j l] eqn:E; simpl.
    - intros (i & Hi & Ho & Hl). assert (i ∈ @nil SandboxInfo) as Hn; [|by apply not_elem_of_nil in Hn].
      rewrite <-E. by apply list_elem_of_filter.
    - assert (j ∈ j :: l) as Hj by left. rewrite <-E in Hj.
      apply list_elem_of_filter in Hj as [[? ?] ?]. done. }
  split.
  - intros i Hi Ho. specialize (Hhead (label i LabelAgentID)). unfold GetView, crSandboxFor.
    destruct (owned_info infos (label i LabelAgentID)) as [j|]; [|naive_solver].
    destruct Hhead as (Hj & Hoj & Hlj). rewrite <-Hlj.
    destruct (Get w (label j LabelAgentID)) as [a|] eqn:Eg; (eexists; split; [reflexivity|]);
      unfold list_views; apply list_elem_of_fmap; exists j;
      (split; [by rewrite Eg|by apply list_elem_of_filter]).
  - intros id. specialize (Hhead id). unfold GetView.
    destruct (Get w id); [naive_solver|]. destruct (owned_info infos id); naive_solver.
Qed.

(** The order of the list is not an order when agents known only to the
    gateway are mixed with registered ones: a younger agent, a listed sandbox
    without creation time and an older agent whose ids ascend in this order are
    each before the next, and the last is before the first. *)
Theorem list_order_cyclic (w : World S) (young old : Agent) (info : SandboxInfo) v :
  a_Created young ≠ zero_time → a_Created old ≠ zero_time → a_Created old < a_Created young →
  String.compare (a_ID young) (label info LabelAgentID) = Lt →
  String.compare (label info LabelAgentID) (a_ID old) = Lt →
  view_less (agentView w young) (crView info v) = true ∧
  view_less (crView info v) (agentView w old) = true ∧
  view_less (agentView w old) (agentView w young) = true.
Proof.
  intros Hy Ho Hlt Hc1 Hc2. unfold view_less, agentView, crView. cbn [vw_Created vw_ID].
  unfold IsZero. rewrite (proj2 (Z.eqb_neq _ _) Hy), (proj2 (Z.eqb_neq _ _) Ho).
  rewrite Hc1, Hc2. split_and!; [done..|by apply Z.ltb_lt].
Qed.

End views.

Lemma list_order_cyclic_witness :
  let info := mkInfo "sbx-b" PhaseReady
    (<[LabelManagedBy := ManagedByValue]> (<[LabelAgentID := "b"%string]> ∅)) in
  ∃ young old, view_less (agentView ex_world young) (crView info None) = true ∧
    view_less (crView info None) (agentView ex_world old) = true ∧
    view_less (agentView ex_world old) (agentView ex_world young) = true.
Proof.
  set (a := mkAgent "a" "sbx-a" 2 "" ex_resolved StatusReady 0 false "" false false
    (mkHub "a" 0 0 ∅ 0 false) (mkFSM "a" SessionReady) StdinNil None true 0 false).
  set (c := mkAgent "c" "sbx-c" 1 "" ex_resolved StatusReady 0 false "" false false
    (mkHub "c" 0 0 ∅ 0 false) (mkFSM "c" SessionReady) StdinNil None true 0 false).
  exists a, c.
  apply (list_order_cyclic ex_world a c (mkInfo "sbx-b" PhaseReady
    (<[LabelManagedBy := ManagedByValue]> (<[LabelAgentID := "b"%string]> ∅))) None);
    try discriminate; reflexivity.
Defined.
