(* ===== verification/Revive.v ===== *)
(** * Reviving a paused session (src/controller/revive.go)

    When the sandbox of an agent dies in the middle of a turn, the session is
    paused and brought back under a budget that is kept in the event log.  Here:
    the ledger projected from the log, the pause, the paced consumption of an
    attempt, the hold for the replacement daemon, the completion, and the front
    door [Resume]. *)

From Stdlib Require Import String ZArith.
From S2P Require Import Prelude Json GoTime GoStrings Bolt EventStore EventHub Fsm Monitor Config.
From S2P Require Import Agent Manager Registry.
From stdpp Require Import base list strings numbers gmap.
Local Open Scope Z_scope.

Definition reviveConsumedEventType : string := "agent.revive_consumed".
Definition agentResumedEventType : string := "agent.resumed".
Definition reviveAbandonedEventType : string := "agent.revive_abandoned".
Definition daemonBootEventType : string := "daemon.boot".

Definition defaultReviveWaitDeadline : Z := 600 * second.
Definition revivePollInterval : Z := 500 * 1000000.

(** ** The ledger *)

Record reviveLedger : Type := mkLedger {
  used : Z;
  lastAttempt : Z;
  openAttempt : bool
}.

Definition zero_ledger : reviveLedger := mkLedger 0 zero_time false.

(** The loop body of [reviveLedgerFromEvents]. *)
Definition ledger_step (l : reviveLedger) (ev : Event) : reviveLedger :=
  let t := Typ ev in
  if String.eqb t reviveConsumedEventType then
    let at_ :=
      match unmarshal_struct (Data ev) with
      | None => None
      | Some ms => let '(at_, bad) := string_field "at" ms in if bad then None else Parse at_
      end in
    mkLedger (used l + 1) (default (lastAttempt l) at_) true
  else if String.eqb t lifecycleRevived then mkLedger (used l) (lastAttempt l) false
  else if String.eqb t reviveAbandonedEventType then mkLedger (used l) (lastAttempt l) false
  else if String.eqb t agentResumedEventType then zero_ledger
  else l.

Definition reviveLedgerFromEvents (evs : list Event) : reviveLedger :=
  fold_left ledger_step evs zero_ledger.

Definition remaining (l : reviveLedger) (max : Z) : Z :=
  let r := max - used l in if r <? 0 then 0 else r.

(** Durations are 64-bit; [Sub] saturates, the subtraction wraps. *)
Definition cooldownRemaining (l : reviveLedger) (now cooldown : Z) : Z :=
  if IsZero (lastAttempt l) || (cooldown <=? 0) then 0
  else let d := i64_wrap (cooldown - Sub now (lastAttempt l)) in if d <? 0 then 0 else d.

Definition lastRecordedBootID (evs : list Event) : string :=
  fold_left (λ last ev,
    if negb (String.eqb (Typ ev) daemonBootEventType) then last
    else match unmarshal_struct (Data ev) with
         | None => last
         | Some ms => let '(b, bad) := string_field "boot_id" ms in if bad then last else b
         end) evs ""%string.

(** One turn of the wait for the cooldown: the clock at the check and at the
    record, what other threads do to the agent during the sleep, and whether the
    sleep ran to its end. *)
Record consume_round {S : Type} : Type := mkRound {
  cr_now : Z;
  cr_at : Z;
  cr_other : S * Agent → S * Agent;
  cr_awake : bool
}.
Arguments consume_round : clear implicits.
Arguments mkRound {_} _ _ _ _.

(** The answers during the hold, by poll. *)
Record hold_env : Type := mkHold {
  ho_resolve : nat → option string;
  ho_status : nat → option DaemonStatus;
  ho_clock : nat → Z;
  ho_awake : nat → bool
}.

(** [waitForReplacementDaemon]; [None] is running out of the given number of
    polls. *)
Fixpoint waitForReplacementDaemon (fuel i : nat) (env : hold_env) (deadline : Z) (a : Agent)
    : option (option DaemonStatus * Agent) :=
  match fuel with
  | O => None
  | Datatypes.S f =>
      match preflight a (ho_resolve env i) (ho_status env i) with
      | (Some st, a') => Some (Some st, a')
      | (None, a') =>
          let a'' := invalidateDaemon a' in
          if negb (ho_clock env i <? deadline) then Some (None, a'')
          else if ho_awake env i
               then waitForReplacementDaemon f (Datatypes.S i) env deadline a''
               else Some (None, a'')
      end
  end.

(** Polls are half a second apart. *)
Definition hold_fuel (wait : Z) : nat := Z.to_nat (wait / revivePollInterval) + 2.

Definition hold (wait start : Z) (env : hold_env) (a : Agent) : option DaemonStatus * Agent :=
  default (None, a) (waitForReplacementDaemon (hold_fuel wait) 0 env (start + wait) a).

Definition armPendingRevive (a : Agent) : Agent := set_pendingRevive true a.

Section revive.
  Context {S : Type} `{EventStore S}.

(** The ledger of a log that cannot be read counts as exhausted. *)
Definition reviveLedgerOf (s : S) (a : Agent) : reviveLedger * list Event :=
  match SubscribeSnapshot s (a_hub a) with
  | Err _ => (mkLedger (2 ^ 30) zero_time false, [])
  | Ok evs => (reviveLedgerFromEvents evs, evs)
  end.

Definition recordDaemonBoot (s : S) (a : Agent) (st : DaemonStatus) : S * Agent :=
  let '(_, s', a') := agent_publish s a daemonBootEventType
    (fields_of [("agent_id", JStr (a_ID a)); ("boot_id", JStr (ds_BootID st));
      ("pi_running", JBool (ds_PiRunning st))]%string) in (s', a').

Definition recordBootOnce (s : S) (a : Agent) (st : DaemonStatus) : S * Agent :=
  if String.eqb (ds_BootID st) "" then (s, a)
  else match SubscribeSnapshot s (a_hub a) with
       | Err _ => (s, a)
       | Ok evs =>
           if negb (String.eqb (ds_BootID st) (lastRecordedBootID evs))
           then recordDaemonBoot s a st else (s, a)
       end.

Definition recordReviveConsumed (s : S) (a : Agent) (attempt now : Z) : bool * S * Agent :=
  let '(ev, s', a') := agent_publish s a reviveConsumedEventType
    (fields_of [("agent_id", JStr (a_ID a)); ("attempt", JInt attempt);
      ("at", JStr (Format now))]%string) in
  (bool_decide (is_Some ev), s', a').

Definition recordReviveAbandoned (s : S) (a : Agent) (attempt : Z) (reason : string) : S * Agent :=
  let '(_, s', a') := agent_publish s a reviveAbandonedEventType
    (fields_of [("agent_id", JStr (a_ID a)); ("attempt", JInt attempt);
      ("reason", JStr reason)]%string) in (s', a').

Definition pauseSession (s : S) (mo : option Monitor) (a : Agent) (reason : string)
    : bool * S * option Monitor * Agent :=
  match agent_transition s a SessionPaused lifecyclePaused
          (fields_of [("reason"%string, JStr reason)]) with
  | (Some _, s', a') => (false, s', mo, a')
  | (None, s', a') =>
      let '(s'', mo', a'') := fail s' mo a' ("sandbox death: " +:+ reason) in
      (true, s'', mo', a'')
  end.

(** [consumeReviveAttempt]; [None] is running out of rounds. *)
Fixpoint consumeReviveAttempt (cfg : Config) (rounds : list (consume_round S)) (s : S) (a : Agent)
    : option (reviveLedger * bool * S * Agent) :=
  match rounds with
  | [] => None
  | r :: rest =>
      let led := (reviveLedgerOf s a).1 in
      if remaining led (ReviveMax cfg) <=? 0 then Some (led, false, s, a)
      else
        let d := cooldownRemaining led (cr_now r) (ReviveCooldown cfg) in
        if d <=? 0 then
          let '(ok, s', a') := recordReviveConsumed s a (used led + 1) (cr_at r) in
          Some (led, ok, s', a')
        else
          let '(s', a') := cr_other r (s, a) in
          if cr_awake r then consumeReviveAttempt cfg rest s' a' else Some (led, false, s', a')
  end.

(** [pauseAndRevive]: whether the puller must stop. *)
Definition pauseAndRevive (cfg : Config) (wait start : Z) (rounds : list (consume_round S))
    (env : hold_env) (s : S) (mo : option Monitor) (a : Agent)
    : option (bool * S * option Monitor * Agent) :=
  match pauseSession s mo a "sandbox death detected (new boot_id)" with
  | (false, s1, mo1, a1) => Some (true, s1, mo1, a1)
  | (true, s1, mo1, a1) =>
      match consumeReviveAttempt cfg rounds s1 a1 with
      | None => None
      | Some (led, false, s2, a2) => Some (true, s2, mo1, a2)
      | Some (led, true, s2, a2) =>
          match hold wait start env a2 with
          | (None, a3) =>
              let '(s4, a4) := recordReviveAbandoned s2 a3 (used led + 1)
                "replacement daemon not reachable within the hold deadline" in
              Some (true, s4, mo1, a4)
          | (Some st, a3) =>
              let '(s4, a4) := recordBootOnce s2 a3 st in
              Some (false, s4, mo1, armPendingRevive (set_bootID (ds_BootID st) a4))
          end
      end
  end.

Definition holdAndResumePuller (wait start : Z) (env : hold_env) (s : S) (a : Agent)
    : S * Agent * list spawn :=
  let led := (reviveLedgerOf s a).1 in
  match hold wait start env a with
  | (None, a1) =>
      let '(s2, a2) := recordReviveAbandoned s a1 (used led)
        "replacement daemon not reachable within the hold deadline" in (s2, a2, [])
  | (Some st, a1) =>
      let '(s2, a2) := recordBootOnce s a1 st in
      (s2, armPendingRevive (set_bootID (ds_BootID st) a2), [GoPuller (a_ID a)])
  end.

Definition reviveFromPaused (cfg : Config) (wait start : Z) (rounds : list (consume_round S))
    (env : hold_env) (s : S) (a : Agent) : option (S * Agent * list spawn) :=
  if openAttempt (reviveLedgerOf s a).1 then Some (holdAndResumePuller wait start env s a)
  else match consumeReviveAttempt cfg rounds s a with
       | None => None
       | Some (_, false, s', a') => Some (s', a', [])
       | Some (_, true, s', a') => Some (holdAndResumePuller wait start env s' a')
       end.

Definition completeRevive (s : S) (a : Agent) : S * Agent :=
  let pending := a_pendingRevive a in
  let a0 := set_pendingRevive false a in
  if pending && bool_decide (f_state (a_fsm a0) = SessionPaused) then
    match agent_transition s a0 SessionRunning lifecycleRevived [] with
    | (Some _, s1, a1) => (s1, a1)
    | (None, s1, a1) =>
        let '(_, s2, a2) := agent_transition s1 a1 SessionIdle lifecycleSettled
          (fields_of [("revive_settled"%string, JBool true)]) in
        (s2, set_status StatusReady a2)
    end
  else (s, a0).

(** [Resume] after the lookup.  On success with the pull transport the old
    context is cancelled and the hold started. *)
Definition sendResume (s : S) (a : Agent) (now : Z) : option AgentErr * S * Agent * list spawn :=
  if decide (f_state (a_fsm a) ≠ SessionPaused) then (Some (ErrNotReady (a_status a)), s, a, [])
  else
    let led := (reviveLedgerOf s a).1 in
    if openAttempt led then (Some (ErrNotReady (a_status a)), s, a, [])
    else match agent_publish s a agentResumedEventType
                 (fields_of [("agent_id"%string, JStr (a_ID a))]) with
         | (None, s1, a1) => (Some EStoreFailed, s1, a1, [])
         | (Some _, s1, a1) =>
             if a_pullTransport a1 then
               match recordReviveConsumed s1 a1 (used led + 1) now with
               | (false, s2, a2) => (Some EStoreFailed, s2, a2, [])
               | (true, s2, a2) => (None, s2, set_cancelled false a2, [GoHold (a_ID a)])
               end
             else (None, s1, a1, [])
         end.

Definition Resume (w : World S) (id : string) (now : Z)
    : option AgentErr * World S * list spawn :=
  match Get w id with
  | None => (Some (ErrUnknownAgent id), w, [])
  | Some a =>
      let '(e, s', a', sp) := sendResume (w_store w) a now in
      (e, mkWorld s' (<[id := a']> (w_objs w)) (w_reg w) (w_mon w), sp)
  end.

End revive.

(** ** Publishing on behalf of an agent *)

Section publishing.
  Context {S : Type} `{EventStoreLaws S}.

Lemma PublishLifecycle_closed (s : S) h t fs r s' h' :
  PublishLifecycle s h t fs = (r, s', h') → h_closed h' = h_closed h.
Proof.
  unfold PublishLifecycle. destruct (h_closed h) eqn:Ec; [by intros [= <- <- <-]|].
  destruct (Append _ _ _) as [[e|] s1]; by intros [= <- <- <-].
Qed.

Lemma agent_publish_some (s : S) a t fs ev s' a' :
  hub_sync s (a_hub a) → room s (a_hub a) → agent_publish s a t fs = (Some ev, s', a') →
  ∃ h', a' = set_hub h' a ∧ hub_sync s' h' ∧ h_agentID h' = h_agentID (a_hub a) ∧
    h_closed h' = h_closed (a_hub a) ∧ ev = lifecycle_event t fs (Seq ev) ∧
    log_of s' h' = agent_log s a ++ [ev].
Proof.
  intros Hs Hr. unfold agent_publish.
  destruct (PublishLifecycle _ _ _ _) as [[r s1] h1] eqn:E. intros [= -> <- <-].
  pose proof (PublishLifecycle_closed _ _ _ _ _ _ _ E).
  apply PublishLifecycle_some in E as (? & ? & ? & ?); [|done..]. eexists. by split_and!.
Qed.

Lemma agent_publish_none (s : S) a t fs s' a' :
  hub_sync s (a_hub a) → agent_publish s a t fs = (None, s', a') →
  a' = a ∧ hub_sync s' (a_hub a) ∧ agent_log s' a = agent_log s a.
Proof.
  intros (Hinv & Hv & Hn & Ho). unfold agent_publish, PublishLifecycle.
  destruct (h_closed (a_hub a)).
  { intros [= <- <-]. split_and!; [by destruct a|done..]. }
  destruct (Append _ _ _) as [[e|] s1] eqn:E; [|done]. intros [= <- <-].
  apply es_append_err in E as [Hinv' Habs]; [|done].
  split_and!; [by destruct a| |by unfold agent_log, log_of; rewrite Habs].
  unfold hub_sync, log_of in *. by rewrite Habs.
Qed.

Lemma agent_transition_ok (s : S) a next t fs s' a' :
  hub_sync s (a_hub a) → room s (a_hub a) → agent_transition s a next t fs = (None, s', a') →
  sessionTransitions (f_state (a_fsm a)) next = true ∧
  ∃ h' ev, a' = set_hub_fsm h' (mkFSM (f_agentID (a_fsm a)) next) a ∧ hub_sync s' h' ∧
    h_agentID h' = h_agentID (a_hub a) ∧ h_closed h' = h_closed (a_hub a) ∧ Typ ev = t ∧
    log_of s' h' = agent_log s a ++ [ev].
Proof.
  intros Hs Hr. unfold agent_transition.
  destruct (Transition _ _ _ _ _ _) as [[[e s1] h1] f1] eqn:E. intros [= -> <- <-].
  assert (Hc : h_closed h1 = h_closed (a_hub a)).
  { unfold Transition in E. destruct (negb _); [done|].
    destruct (PublishLifecycle _ _ _ _) as [[[ev|] s2] h2] eqn:Ep; [|done].
    injection E as <- <- <-. by eapply PublishLifecycle_closed. }
  apply Transition_ok in E as (? & ? & ? & -> & ev & ? & ?); [|done..].
  split; [done|]. exists h1, ev. by split_and!.
Qed.

Lemma agent_transition_err (s : S) a next t fs e s' a' :
  hub_sync s (a_hub a) → room s (a_hub a) → agent_transition s a next t fs = (Some e, s', a') →
  a' = a ∧ hub_sync s' (a_hub a) ∧ agent_log s' a = agent_log s a.
Proof.
  intros Hs Hr. unfold agent_transition.
  destruct (Transition _ _ _ _ _ _) as [[[e' s1] h1] f1] eqn:E. intros [= -> <- <-].
  apply Transition_err in E as (-> & -> & Hinv & Habs); [|done..].
  destruct Hs as (_ & Hv & Hn & Ho).
  split_and!; [by destruct a| |by unfold agent_log, log_of; rewrite Habs].
  unfold hub_sync, log_of in *. by rewrite Habs.
Qed.

Lemma agent_publish_alive alive (s : S) a t fs :
  accepting alive → alive s → hub_sync s (a_hub a) → room s (a_hub a) →
  h_closed (a_hub a) = false →
  ∃ ev s' a', agent_publish s a t fs = (Some ev, s', a') ∧ alive s'.
Proof.
  intros Hacc Ha Hs Hr Hc.
  destruct (PublishLifecycle_alive alive s (a_hub a) t fs) as (ev & s' & h' & E & Ha'); [done..|].
  exists ev, s', (set_hub h' a). unfold agent_publish. by rewrite E.
Qed.

Lemma agent_transition_alive alive (s : S) a next t fs :
  accepting alive → alive s → hub_sync s (a_hub a) → room s (a_hub a) →
  h_closed (a_hub a) = false → sessionTransitions (f_state (a_fsm a)) next = true →
  ∃ s' a', agent_transition s a next t fs = (None, s', a') ∧ alive s'.
Proof.
  intros Hacc Ha Hs Hr Hc Hlegal. unfold agent_transition, Transition. rewrite Hlegal. cbn [negb].
  edestruct (PublishLifecycle_alive alive s (a_hub a)) as (ev & s' & h' & -> & Ha'); eauto.
Qed.

Lemma reviveLedgerOf_ok (s : S) a evs :
  hub_sync s (a_hub a) → SubscribeSnapshot s (a_hub a) = Ok evs →
  (reviveLedgerOf s a).1 = reviveLedgerFromEvents (agent_log s a).
Proof.
  intros Hs Hsn. unfold reviveLedgerOf. rewrite Hsn. simpl.
  by apply SubscribeSnapshot_log in Hsn as ->.
Qed.

End publishing.

(** ** The ledger *)

Lemma ledger_snoc evs ev :
  reviveLedgerFromEvents (evs ++ [ev]) = ledger_step (reviveLedgerFromEvents evs) ev.
Proof. unfold reviveLedgerFromEvents. by rewrite fold_left_app. Qed.

(** The event of a consumption, as it is written. *)
Definition consumed_fields (id : string) (attempt at_ : Z) : fields :=
  fields_of [("agent_id", JStr id); ("attempt", JInt attempt); ("at", JStr (Format at_))]%string.

Lemma ledger_step_consumed l id attempt at_ n :
  datable at_ →
  ledger_step l (lifecycle_event reviveConsumedEventType (consumed_fields id attempt at_) n)
  = mkLedger (used l + 1) at_ true.
Proof.
  intros [Hp _]%Format_datable. unfold ledger_step.
  change (Typ (lifecycle_event _ _ _)) with reviveConsumedEventType. rewrite String.eqb_refl.
  assert (∃ ms, unmarshal_struct (Data (lifecycle_event reviveConsumedEventType
            (consumed_fields id attempt at_) n)) = Some ms ∧
            string_field "at" ms = (Format at_, false)) as (ms & -> & ->).
  { unfold consumed_fields. generalize (Format at_); intros f.
    eexists; split; vm_compute; reflexivity. }
  by rewrite Hp.
Qed.

(** The cooldown has passed when the check lets an attempt through; the wrap of
    the 64-bit difference needs a last attempt some 146 years ahead. *)
Lemma cooldown_passed l now cooldown :
  cooldownRemaining l now cooldown <= 0 → 0 < cooldown < 2 ^ 62 →
  lastAttempt l = zero_time ∨ now + 2 ^ 62 < lastAttempt l ∨ cooldown ≤ now - lastAttempt l.
Proof.
  unfold cooldownRemaining, IsZero. intros Hd Hc.
  destruct (Z.eqb_spec (lastAttempt l) zero_time) as [|Hz]; [by left|]. right.
  rewrite (proj2 (Z.leb_gt _ _)) in Hd by lia. cbn [orb] in Hd.
  destruct (Z.ltb_spec (now + 2 ^ 62) (lastAttempt l)) as [|Hl]; [by left|]. right.
  assert (Hs : i64_wrap (cooldown - Sub now (lastAttempt l)) = cooldown - Sub now (lastAttempt l)).
  { apply i64_wrap_small. unfold Sub, i64_min, i64_max. lia. }
  rewrite Hs in Hd. unfold Sub, i64_min, i64_max in Hd.
  destruct (Z.ltb_spec (cooldown - Z.max (-9223372036854775808)
    (Z.min 9223372036854775807 (now - lastAttempt l))) 0); lia.
Qed.

Section revive_laws.
  Context {S : Type} `{EventStoreLaws S}.

Lemma recordReviveConsumed_true (s : S) a n now s' a' :
  hub_sync s (a_hub a) → room s (a_hub a) → datable now →
  recordReviveConsumed s a n now = (true, s', a') →
  ∃ h', a' = set_hub h' a ∧ hub_sync s' h' ∧ h_agentID h' = h_agentID (a_hub a) ∧
    h_closed h' = h_closed (a_hub a) ∧
    ∃ ev, log_of s' h' = agent_log s a ++ [ev] ∧ Typ ev = reviveConsumedEventType ∧
      ∀ l, ledger_step l ev = mkLedger (used l + 1) now true.
Proof.
  intros Hs Hr Hd. unfold recordReviveConsumed.
  destruct (agent_publish _ _ _ _) as [[[ev|] s1] a1] eqn:E; [|done]. intros [= <- <-].
  apply agent_publish_some in E as (h' & -> & ? & ? & ? & Hev & Hl); [|done..].
  exists h'. split_and!; [done..|]. exists ev. split_and!; [done|by rewrite Hev|].
  intros l. rewrite Hev. by apply ledger_step_consumed.
Qed.

(** The interference allowed during the cooldown sleep: other operations keep
    hub and store in step. *)
Definition steady (P : S * Agent → Prop) (rounds : list (consume_round S)) : Prop :=
  Forall (λ r, ∀ st, P st → P (cr_other r st)) rounds.

Definition in_step (st : S * Agent) : Prop := hub_sync st.1 (a_hub st.2) ∧ room st.1 (a_hub st.2).

(** C13. An attempt is spent within the budget and the pace.  When
    [consumeReviveAttempt] succeeds, whatever ran during its sleeps, the log just
    before it had used fewer than [ReviveMax] attempts and its last attempt was at
    least the cooldown earlier (or there was none); the attempt is then in the
    log: one more used, at the recorded time, open. *)
Theorem consume_paced cfg rounds s a led s' a' :
  in_step (s, a) → steady in_step rounds → ReviveMax cfg ≤ 2 ^ 30 → 0 < ReviveCooldown cfg < 2 ^ 62 →
  Forall (λ r, cr_now r ≤ cr_at r ∧ datable (cr_at r)) rounds →
  consumeReviveAttempt cfg rounds s a = Some (led, true, s', a') →
  ∃ r s1 a1, r ∈ rounds ∧ in_step (s1, a1) ∧
    led = reviveLedgerFromEvents (agent_log s1 a1) ∧ used led < ReviveMax cfg ∧
    (lastAttempt led = zero_time ∨ cr_now r + 2 ^ 62 < lastAttempt led ∨
     ReviveCooldown cfg ≤ cr_at r - lastAttempt led) ∧
    reviveLedgerFromEvents (agent_log s' a') = mkLedger (used led + 1) (cr_at r) true ∧
    ∃ ev, agent_log s' a' = agent_log s1 a1 ++ [ev].
Proof.
  intros Hin Hst Hmax Hc Hr. revert s a Hin Hst. induction Hr as [|r rounds [Hnow Hd] _ IH];
    intros s a Hin Hst; [done|]. cbn [consumeReviveAttempt].
  destruct (Z.leb_spec (remaining (reviveLedgerOf s a).1 (ReviveMax cfg)) 0) as [|Hrem]; [done|].
  apply Forall_cons in Hst as [Hr Hst].
  destruct (Z.leb_spec (cooldownRemaining (reviveLedgerOf s a).1 (cr_now r) (ReviveCooldown cfg)) 0)
    as [Hcool|]; cycle 1.
  { destruct (cr_other r (s, a)) as [s1 a1] eqn:Eo. destruct (cr_awake r); [|done].
    intros (r' & s2 & a2 & ? & Hrest)%IH; [|by rewrite <-Eo; apply Hr|done].
    exists r', s2, a2. split; [by right|done]. }
  destruct (recordReviveConsumed _ _ _ _) as [[ok s1] a1] eqn:E. intros [= <- -> <- <-].
  destruct Hin as [Hs Hroom]. cbn [fst snd] in Hs, Hroom.
  apply recordReviveConsumed_true in E as (h' & -> & Hs' & _ & _ & ev & Hl & _ & Hled); [|done..].
  exists r, s, a. split; [left|]. split; [done|].
  assert (Hr1 : used (reviveLedgerOf s a).1 < ReviveMax cfg).
  { revert Hrem. unfold remaining. destruct (Z.ltb_spec (ReviveMax cfg - used (reviveLedgerOf s a).1) 0); lia. }
  apply cooldown_passed in Hcool; [|done].
  assert (Hl1 : (reviveLedgerOf s a).1 = reviveLedgerFromEvents (agent_log s a)).
  { destruct (SubscribeSnapshot s (a_hub a)) as [evs|] eqn:Es; [by eapply reviveLedgerOf_ok|].
    exfalso. revert Hr1. unfold reviveLedgerOf. rewrite Es. simpl. lia. }
  split_and!; [done|done| | |by exists ev].
  - destruct Hcool as [?|[?|?]]; [by left|by right; left|right; right; lia].
  - unfold agent_log. cbn [a_hub set_hub set_hub_fsm]. by rewrite Hl, ledger_snoc, Hled, Hl1.
Qed.

(** Re-arming.  [Resume] acts only on a paused session without an open
    attempt, and otherwise changes nothing; on success the log-derived budget
    starts over with this one attempt, which is open, so that a second [Resume]
    is refused until the attempt is completed or abandoned. *)
Theorem resume_once s a now r s' a' sp :
  hub_sync s (a_hub a) → (log_len (agent_log s a) + 2 < u64_bound)%N → datable now →
  sendResume s a now = (r, s', a', sp) →
  match r with
  | Some (ErrNotReady _) => s' = s ∧ a' = a ∧ sp = [] ∧
      (f_state (a_fsm a) ≠ SessionPaused ∨ openAttempt (reviveLedgerOf s a).1 = true)
  | Some _ => sp = [] ∧ a_fsm a' = a_fsm a ∧ a_status a' = a_status a
  | None =>
      f_state (a_fsm a) = SessionPaused ∧ openAttempt (reviveLedgerOf s a).1 = false ∧
      a_fsm a' = a_fsm a ∧ a_status a' = a_status a ∧
      (a_pullTransport a = true →
         reviveLedgerFromEvents (agent_log s' a') = mkLedger 1 now true ∧
         sp = [GoHold (a_ID a)] ∧
         (is_ok (SubscribeSnapshot s' (a_hub a')) → ∀ later,
            sendResume s' a' later = (Some (ErrNotReady (a_status a')), s', a', [])))
  end.
Proof.
  intros Hs Hroom Hd. unfold sendResume at 1. case_decide as Hp; [intros [= <- <- <- <-]; auto|].
  destruct (openAttempt (reviveLedgerOf s a).1) eqn:Eo; [intros [= <- <- <- <-]; auto|].
  destruct (agent_publish _ _ _ _) as [[[ev|] s1] a1] eqn:E; cycle 1.
  { intros [= <- <- <- <-]. by apply agent_publish_none in E as (-> & _). }
  apply agent_publish_some in E as (h1 & -> & Hs1 & Hid1 & _ & Hev & Hl1);
    [|done|unfold room, agent_log in *; lia].
  cbn [a_pullTransport set_hub set_hub_fsm]. destruct (a_pullTransport a) eqn:Epl; cycle 1.
  { intros [= <- <- <- <-]. by split_and!. }
  destruct (recordReviveConsumed _ _ _ _) as [[[] s2] a2] eqn:E; intros [= <- <- <- <-]; cycle 1.
  { unfold recordReviveConsumed in E. destruct (agent_publish _ _ _ _) as [[[ev2|] s3] a3] eqn:E3;
      [done|]. injection E as <- <-. by apply agent_publish_none in E3 as (-> & _). }
  assert (Hr1 : room s1 h1).
  { unfold room, agent_log, log_len in *. rewrite Hl1, length_app. simpl. lia. }
  apply recordReviveConsumed_true in E as (h2 & -> & Hs2 & Hid2 & _ & ev2 & Hl2 & _ & Hled);
    [|done..].
  unfold agent_log in Hl2. cbn [a_hub set_hub set_hub_fsm] in Hl2.
  assert (Hfin : reviveLedgerFromEvents (log_of s2 h2) = mkLedger 1 now true).
  { rewrite Hl2, Hl1, !ledger_snoc, Hled, Hev. reflexivity. }
  split_and!; [done..|]. intros _. split_and!; [done..|]. intros Hok later.
  unfold sendResume. rewrite decide_False by (intros Hn; by apply Hn).
  destruct (SubscribeSnapshot s2 (a_hub (set_cancelled false (set_hub h2 (set_hub h1 a)))))
    as [evs|] eqn:Es; [|done].
  erewrite reviveLedgerOf_ok by done. unfold agent_log.
  cbn [a_hub set_cancelled set_hub set_hub_fsm]. by rewrite Hfin.
Qed.

(** With a pending revive of a paused session and a store that accepts,
    [completeRevive] appends [agent.revived] and the closing [agent.settled], the
    session is idle, the agent ready and willing to take a prompt, and the attempt is
    closed without a refund; without a pending revive, or when the session is no
    longer paused, it only clears the mark. *)
Lemma completeRevive_spec alive s a s' a' :
  accepting alive → alive s → hub_sync s (a_hub a) → h_closed (a_hub a) = false →
  (log_len (agent_log s a) + 2 < u64_bound)%N → completeRevive s a = (s', a') →
  if decide (a_pendingRevive a = true ∧ f_state (a_fsm a) = SessionPaused) then
    (∃ ev1 ev2, agent_log s' a' = agent_log s a ++ [ev1; ev2] ∧
       Typ ev1 = lifecycleRevived ∧ Typ ev2 = lifecycleSettled) ∧
    f_state (a_fsm a') = SessionIdle ∧ a_status a' = StatusReady ∧ prompt_gate a' = None ∧
    a_pendingRevive a' = false ∧
    let l := reviveLedgerFromEvents (agent_log s a) in
    reviveLedgerFromEvents (agent_log s' a') = mkLedger (used l) (lastAttempt l) false
  else s' = s ∧ a' = set_pendingRevive false a.
Proof.
  intros Hacc Ha Hs Hc Hroom. unfold completeRevive. case_decide as Hd; cycle 1.
  { destruct (a_pendingRevive a); cbn [andb];
      [rewrite bool_decide_false by (intros ?; apply Hd; done)|]; by intros [= <- <-]. }
  destruct Hd as [-> Hp]. rewrite bool_decide_true by done. cbn [andb].
  set (a0 := set_pendingRevive false a).
  assert (Hr0 : room s (a_hub a0)) by (unfold room, agent_log in *; simpl; lia).
  destruct (agent_transition_alive alive s a0 SessionRunning lifecycleRevived [])
    as (s1 & a1 & E1 & Ha1); [done..|by cbn; rewrite Hp|]. rewrite E1.
  apply agent_transition_ok in E1 as (_ & h1 & ev1 & -> & Hs1 & _ & Hc1 & Ht1 & Hl1); [|done..].
  set (a1 := set_hub_fsm h1 _ a0).
  assert (Hr1 : room s1 (a_hub a1)).
  { unfold room, agent_log, log_len in *. cbn. rewrite Hl1, length_app. simpl. lia. }
  destruct (agent_transition_alive alive s1 a1 SessionIdle lifecycleSettled
    (fields_of [("revive_settled"%string, JBool true)])) as (s2 & a2 & E2 & Ha2);
    [done|done|done|done|by cbn; rewrite Hc1|done|]. rewrite E2.
  apply agent_transition_ok in E2 as (_ & h2 & ev2 & -> & Hs2 & _ & _ & Ht2 & Hl2); [|done..].
  intros [= <- <-].
  assert (Hl : log_of s2 h2 = agent_log s a ++ [ev1; ev2]).
  { rewrite Hl2. unfold agent_log in *. cbn [a_hub a1 set_hub_fsm]. rewrite Hl1.
    by rewrite <-app_assoc. }
  split_and!; [by exists ev1, ev2|done..|].
  unfold agent_log at 1. cbn [a_hub set_status set_hub_fsm]. rewrite Hl.
  change [ev1; ev2] with ([ev1] ++ [ev2]). rewrite app_assoc, !ledger_snoc. unfold ledger_step.
  by rewrite Ht1, Ht2.
Qed.

(** A revive whose closing settle cannot be appended leaves the agent
    stuck: the session is running, yet the agent is ready, so every prompt,
    steer and abort is refused and no record of the coding agent, not even
    [agent_settled], changes anything. *)
Theorem half_settled_revive_sticks s a s' a' :
  completeRevive s a = (s', a') → a_pendingRevive a = true →
  f_state (a_fsm a) = SessionPaused → f_state (a_fsm a') = SessionRunning →
  a_status a' = StatusReady ∧
  (∀ mo msg env, ∃ e, (e = ErrTurnInFlight ∨ e = ErrNotReady StatusReady) ∧
     sendPrompt s' mo a' msg env = (Some e, [], s', mo, a')) ∧
  (∀ mo msg env, sendSteer s' mo a' msg env = (Some (ErrNotReady StatusReady), [], s', mo, a')) ∧
  (∀ mo env, sendAbort s' mo a' env = (Some (ErrNotReady StatusReady), [], s', mo, a')) ∧
  (∀ slm mo raw now pub, ∃ mo', onPiRecord slm s' mo a' raw now pub = (s', mo', a')).
Proof.
  intros Hc Hp Hpa Hrun.
  assert (Hready : a_status a' = StatusReady).
  { revert Hc Hrun. unfold completeRevive. rewrite Hp. cbn [andb a_fsm set_pendingRevive].
    rewrite bool_decide_true by done.
    destruct (agent_transition _ _ _ _ _) as [[[e|] s1] a1] eqn:E.
    - intros [= <- <-]. unfold agent_transition, Transition in E. cbn [a_fsm set_pendingRevive] in E.
      rewrite Hpa in E. cbn [sessionTransitions negb] in E.
      destruct (PublishLifecycle _ _ _ _) as [[[ev|] s2] h2]; [done|]. injection E as <- <- <-.
      cbn [a_fsm set_hub_fsm]. by rewrite Hpa.
    - clear E. destruct (agent_transition _ _ _ _ _) as [[e2 s2] a2]. by intros [= <- <-]. }
  split_and!; [done|..].
  - intros mo msg env. unfold sendPrompt, prompt_gate. rewrite Hrun, Hready.
    destruct (a_pullTransport a'), (a_stdin a'); eauto.
  - intros mo msg env. unfold sendSteer, steer_gate. rewrite Hrun, Hready.
    by destruct (a_pullTransport a'), (a_stdin a').
  - intros mo env. unfold sendAbort. by rewrite Hready.
  - intros slm mo raw now pub. unfold onPiRecord.
    destruct (settle_begin mo a' raw now) as [[b mo1] a1] eqn:Eb.
    apply settle_begin_spec in Eb as [(_ & _ & Hw & _)|(-> & -> & _)]; [congruence|]. eauto.
Qed.

End revive_laws.

(** ** The waits end *)

(** The hold for a replacement daemon ends.  With polls at least half a
    second apart it returns within [wait / 0.5s + 2] polls, whatever the
    resolver, the daemon and the context do; and a status it returns is the
    answer of one of its polls. *)
Theorem hold_terminates wait start env a :
  0 ≤ wait → start ≤ ho_clock env 0%nat →
  (∀ i, ho_clock env i + revivePollInterval ≤ ho_clock env (Datatypes.S i)) →
  ∃ st a', waitForReplacementDaemon (hold_fuel wait) 0 env (start + wait) a = Some (st, a') ∧
    (∀ d, st = Some d → ∃ i, ho_status env i = Some d).
Proof.
  intros Hw H0 Hstep.
  assert (Hclock : ∀ i, start + Z.of_nat i * revivePollInterval ≤ ho_clock env i).
  { induction i as [|i IH]; [simpl; lia|]. specialize (Hstep i).
    unfold revivePollInterval in *. lia. }
  assert (Hgen : ∀ fuel i a, wait < Z.of_nat (i + fuel - 1) * revivePollInterval → (0 < fuel)%nat →
    ∃ st a', waitForReplacementDaemon fuel i env (start + wait) a = Some (st, a') ∧
      (∀ d, st = Some d → ∃ i, ho_status env i = Some d)).
  { induction fuel as [|fuel IH]; intros i b Hlt Hpos; [lia|]. cbn [waitForReplacementDaemon].
    destruct (preflight _ _ _) as [[st|] b1] eqn:Ep.
    { eexists _, _. split; [done|]. intros d [= <-]. exists i. unfold preflight in Ep.
      by destruct (daemonFor b (ho_resolve env i)) as [[base|] b2]; simplify_eq. }
    destruct (Z.ltb_spec (ho_clock env i) (start + wait)) as [Hlt'|]; cbn [negb];
      [|by eexists _, _].
    destruct (ho_awake env i); [|by eexists _, _].
    specialize (Hclock i). destruct fuel as [|fuel].
    { replace (i + 1 - 1)%nat with i in Hlt by lia. lia. }
    apply IH; [|lia].
    by replace (Datatypes.S i + Datatypes.S fuel - 1)%nat
      with (i + Datatypes.S (Datatypes.S fuel) - 1)%nat by lia. }
  apply Hgen; unfold hold_fuel; [|lia].
  pose proof (Z.mul_succ_div_gt wait revivePollInterval ltac:(done)).
  assert (0 ≤ wait / revivePollInterval) by (apply Z.div_pos; done).
  set (q := wait / revivePollInterval) in *. clearbody q. unfold revivePollInterval in *. lia.
Qed.

(** After the remaining cooldown nothing remains of it. *)
Lemma cooldown_elapses l now now' cooldown :
  cooldown < 2 ^ 62 → now + cooldownRemaining l now cooldown ≤ now' →
  0 < cooldownRemaining l now cooldown → cooldownRemaining l now' cooldown ≤ 0.
Proof.
  unfold cooldownRemaining. intros Hc. destruct (IsZero (lastAttempt l)); cbn [orb]; [lia|].
  destruct (Z.leb_spec cooldown 0); [lia|].
  set (x := now - lastAttempt l). set (y := now' - lastAttempt l). unfold Sub. fold x y.
  assert (Hw : ∀ v, v ≤ cooldown - i64_min → i64_min ≤ v →
    i64_wrap v = v ∨ (i64_wrap v < 0 ∧ i64_max < v)).
  { intros v Hv Hv'. destruct (Z.le_gt_cases v i64_max); [left; by apply i64_wrap_small|right].
    split; [|done]. unfold i64_wrap, i64_min, i64_max in *. dlia. }
  pose proof (Hw (cooldown - Z.max i64_min (Z.min i64_max x))) as Hx.
  pose proof (Hw (cooldown - Z.max i64_min (Z.min i64_max y))) as Hy. clear Hw.
  pose proof (i64_wrap_range (cooldown - Z.max i64_min (Z.min i64_max x))) as Hrange.
  assert (y = x + (now' - now)) by (unfold x, y; lia). clearbody x y.
  destruct (Z.ltb_spec (i64_wrap (cooldown - Z.max i64_min (Z.min i64_max x))) 0);
    [lia|]. destruct (Z.ltb_spec (i64_wrap (cooldown - Z.max i64_min (Z.min i64_max y))) 0); [lia|].
  unfold i64_min, i64_max in *. destruct Hx as [Hx|Hx]; [lia..| |lia].
  destruct Hy as [Hy|Hy]; [lia..| |lia]. rewrite Hx, Hy in *. lia.
Qed.

Section waits.
  Context {S : Type} `{EventStore S}.

(** The wait for the cooldown ends.  If nothing else happens during the
    sleep and the sleep lasts as long as it was asked to, the second check of
    [consumeReviveAttempt] does not sleep again: the call returns. *)
Theorem consume_terminates cfg (s : S) a r1 r2 rest :
  ReviveCooldown cfg < 2 ^ 62 → cr_other r1 (s, a) = (s, a) →
  cr_now r1 + cooldownRemaining (reviveLedgerOf s a).1 (cr_now r1) (ReviveCooldown cfg) ≤ cr_now r2 →
  ∃ out, consumeReviveAttempt cfg (r1 :: r2 :: rest) s a = Some out.
Proof.
  intros Hc Ho Hn. cbn [consumeReviveAttempt].
  destruct (remaining _ _ <=? 0); [eauto|].
  destruct (Z.leb_spec (cooldownRemaining (reviveLedgerOf s a).1 (cr_now r1) (ReviveCooldown cfg)) 0).
  { destruct (recordReviveConsumed _ _ _ _) as [[ok s'] a']. eauto. }
  rewrite Ho. destruct (cr_awake r1); [|eauto]. destruct (remaining _ _ <=? 0); [eauto|].
  destruct (Z.leb_spec (cooldownRemaining (reviveLedgerOf s a).1 (cr_now r2) (ReviveCooldown cfg)) 0)
    as [|Hle].
  { destruct (recordReviveConsumed _ _ _ _) as [[ok s'] a']. eauto. }
  exfalso. apply Z.lt_nge in Hle. apply Hle. by eapply cooldown_elapses.
Qed.

End waits.

(** ** A paused session *)

Definition ex_pause_ops : list sess_op :=
  [STransition SessionReady lifecycleStarted [];
   STransition SessionRunning lifecycleTurnStarted [];
   STransition SessionPaused lifecyclePaused []].

Definition ex_paused_at (faults : list bool) : MemDB * EventHub * SessionFSM :=
  sess_run (mkMemDB ∅ faults false, ex_hub, ex_fsm) ex_pause_ops.

Definition ex_paused_store : MemDB := (ex_paused_at []).1.1.

Definition ex_paused (faults : list bool) : Agent :=
  let '(_, h, f) := ex_paused_at faults in
  set_pendingRevive true
    (set_hub_fsm h f (ex_agent StatusFailed ex_hub SessionPaused true StdinNil)).

Lemma ex_paused_sync : hub_sync ex_paused_store (a_hub (ex_paused [])).
Proof.
  unfold ex_paused_store, ex_paused.
  destruct (ex_paused_at []) as [[s h] f] eqn:E. cbn.
  apply (sess_run_sync mem_empty ex_hub ex_fsm ex_pause_ops s h f).
  - apply ex_fsm_sync.
  - repeat constructor.
  - repeat constructor.
  - vm_compute. reflexivity.
  - exact E.
Qed.

Definition ex_now : Z := 1700000000 * second.

Lemma ex_now_datable : datable ex_now.
Proof. exists 2023, 11, 14. split; [vm_compute; reflexivity|lia]. Qed.

Lemma resume_once_witness :
  let '(r, s, a, sp) := sendResume ex_paused_store (ex_paused []) ex_now in
  r = None ∧ reviveLedgerFromEvents (agent_log s a) = mkLedger 1 ex_now true.
Proof.
  destruct (sendResume ex_paused_store (ex_paused []) ex_now) as [[[r s] a] sp] eqn:E.
  assert (r = None) as -> by (vm_compute in E; by injection E as <- _ _ _). split; [reflexivity|].
  destruct (resume_once ex_paused_store (ex_paused []) ex_now None s a sp)
    as (_ & _ & _ & _ & Hp).
  - exact ex_paused_sync.
  - vm_compute. reflexivity.
  - exact ex_now_datable.
  - exact E.
  - by apply Hp.
Defined.

Definition ex_round : consume_round MemDB := mkRound ex_now ex_now id true.

Lemma consume_paced_witness :
  ∃ led s a, consumeReviveAttempt ex_config [ex_round] ex_paused_store (ex_paused [])
    = Some (led, true, s, a) ∧ used led < 3.
Proof.
  destruct (consumeReviveAttempt ex_config [ex_round] ex_paused_store (ex_paused []))
    as [[[[led ok] s] a]|] eqn:E; [|vm_compute in E; discriminate].
  assert (ok = true) as -> by (vm_compute in E; by injection E as _ <- _ _).
  exists led, s, a. split; [reflexivity|].
  destruct (consume_paced ex_config [ex_round] ex_paused_store (ex_paused []) led s a)
    as (r & s1 & a1 & _ & _ & _ & Hu & _).
  - split; [exact ex_paused_sync|vm_compute; reflexivity].
  - constructor; [intros st Hst; exact Hst|constructor].
  - vm_compute. discriminate.
  - split; vm_compute; reflexivity.
  - constructor; [split; [vm_compute; discriminate|exact ex_now_datable]|constructor].
  - exact E.
  - exact Hu.
Defined.

(** The append of the settle fails. *)
Lemma half_settled_revive_sticks_witness :
  let faults := [false; false; false; false; true] in
  let '(s, a) := completeRevive (ex_paused_at faults).1.1 (ex_paused faults) in
  a_status a = StatusReady ∧ f_state (a_fsm a) = SessionRunning.
Proof.
  cbv zeta. destruct (completeRevive (ex_paused_at [false; false; false; false; true]).1.1
    (ex_paused [false; false; false; false; true])) as [s a] eqn:E.
  assert (Hr : f_state (a_fsm a) = SessionRunning) by (vm_compute in E; by injection E as _ <-).
  split; [|exact Hr].
  apply (half_settled_revive_sticks (ex_paused_at [false; false; false; false; true]).1.1
    (ex_paused [false; false; false; false; true]) s a E);
    [vm_compute; reflexivity|vm_compute; reflexivity|exact Hr].
Defined.

Definition ex_hold : hold_env :=
  mkHold (λ _, None) (λ _, None) (λ i, Z.of_nat i * revivePollInterval) (λ _, true).

Lemma hold_terminates_witness :
  ∃ st a', waitForReplacementDaemon (hold_fuel (10 * second)) 0 ex_hold (0 + 10 * second)
    (ex_paused []) = Some (st, a').
Proof.
  destruct (hold_terminates (10 * second) 0 ex_hold (ex_paused [])) as (st & a' & E & _).
  - vm_compute. discriminate.
  - simpl. lia.
  - intros i. cbn [ho_clock ex_hold]. unfold revivePollInterval. lia.
  - exists st, a'. exact E.
Defined.

Lemma consume_terminates_witness :
  ∃ out, consumeReviveAttempt ex_config [ex_round; ex_round] ex_paused_store (ex_paused []) = Some out.
Proof.
  apply (consume_terminates ex_config ex_paused_store (ex_paused []) ex_round ex_round []).
  - vm_compute. reflexivity.
  - reflexivity.
  - vm_compute. discriminate.
Defined.
