(* ===== verification/Live.v ===== *)
(** * Agents on a store that accepts

    Shared lemmas: what publishing, settling and failing do to the log of an
    agent whose hub is open and in step with a store that keeps accepting
    appends. *)

From Stdlib Require Import String ZArith.
From S2P Require Import Prelude Json GoTime GoStrings Bolt EventStore EventHub Fsm Monitor Config.
From S2P Require Import Agent Manager Registry Revive.
From stdpp Require Import base list strings numbers gmap.
Local Open Scope Z_scope.

(** ** What lifecycle events leave of a hub *)

Definition same_cursor (h h' : EventHub) : Prop :=
  h_agentID h' = h_agentID h ∧ h_origin h' = h_origin h ∧ h_closed h' = h_closed h.

Lemma same_cursor_trans h1 h2 h3 : same_cursor h1 h2 → same_cursor h2 h3 → same_cursor h1 h3.
Proof. unfold same_cursor. intuition congruence. Qed.

Section cursor.
  Context {S : Type} `{EventStore S}.

Lemma PublishLifecycle_cursor (s : S) h t fs r s' h' :
  PublishLifecycle s h t fs = (r, s', h') → same_cursor h h'.
Proof.
  unfold PublishLifecycle. destruct (h_closed h) eqn:Ec; [by intros [= <- <- <-]|].
  destruct (Append _ _ _) as [[e|] s1]; by intros [= <- <- <-].
Qed.

Lemma agent_publish_cursor (s : S) a t fs r s' a' :
  agent_publish s a t fs = (r, s', a') → same_cursor (a_hub a) (a_hub a').
Proof.
  unfold agent_publish. destruct (PublishLifecycle _ _ _ _) as [[r1 s1] h1] eqn:E.
  intros [= <- <- <-]. by apply PublishLifecycle_cursor in E.
Qed.

Lemma agent_transition_cursor (s : S) a next t fs r s' a' :
  agent_transition s a next t fs = (r, s', a') → same_cursor (a_hub a) (a_hub a').
Proof.
  unfold agent_transition, Transition. destruct (negb _); [by intros [= <- <- <-]|].
  destruct (PublishLifecycle _ _ _ _) as [[[ev|] s1] h1] eqn:E;
    intros [= <- <- <-]; by apply PublishLifecycle_cursor in E.
Qed.

Lemma SettleAssess_cursor slm m (s : S) h id now pub m' s' h' :
  SettleAssess slm m s h id now pub = (m', s', h') → same_cursor h h'.
Proof.
  unfold SettleAssess, publish_assessment. intros E.
  repeat case_match; simplify_eq; try done.
  all: match goal with E : PublishLifecycle _ _ _ _ = _ |- _ =>
         by apply PublishLifecycle_cursor in E end.
Qed.

Lemma onPiRecord_cursor slm (s : S) mo a raw now pub s' mo' a' :
  onPiRecord slm s mo a raw now pub = (s', mo', a') → same_cursor (a_hub a) (a_hub a').
Proof.
  unfold onPiRecord. destruct (settle_begin mo a raw now) as [[b mo1] a1] eqn:Eb.
  assert (Ha : a_hub a1 = a_hub a)
    by (apply settle_begin_spec in Eb as [(_ & _ & _ & ->)|(_ & -> & _)]; done).
  rewrite <-Ha. clear Eb Ha a. destruct b; [|by intros [= <- <- <-]]. unfold settle_end.
  assert (∃ mo2 s1 a2, match mo1 with
    | Some m => let '(m', s', h') := SettleAssess slm m s (a_hub a1) (a_ID a1) now pub in
                (Some m', s', set_hub h' a1)
    | None => (None, s, a1)
    end = (mo2, s1, a2) ∧ same_cursor (a_hub a1) (a_hub a2)) as (mo2 & s1 & a2 & -> & Hc).
  { destruct mo1 as [m|]; [|by eexists _, _, _].
    destruct (SettleAssess _ _ _ _ _ _ _) as [[m1 s1] h1] eqn:Es.
    apply SettleAssess_cursor in Es. by eexists _, _, _. }
  destruct (agent_transition _ _ _ _ _) as [[e s2] a3] eqn:Et. intros [= <- <- <-].
  apply agent_transition_cursor in Et. by eapply same_cursor_trans.
Qed.

End cursor.

(** ** A store that accepts *)

Section live.
  Context {S : Type} `{EventStoreLaws S}.
  Context (alive : S → Prop) (Hacc : accepting alive).

Definition live (s : S) (h : EventHub) : Prop :=
  alive s ∧ hub_sync s h ∧ h_closed h = false.

(** [h'] on [s'] continues [h] on [s]: the log is longer by [l]. *)
Definition extends (s : S) (h : EventHub) (s' : S) (h' : EventHub) (l : list Event) : Prop :=
  live s' h' ∧ h_agentID h' = h_agentID h ∧ log_of s' h' = log_of s h ++ l.

Definition room_for (n : N) (s : S) (h : EventHub) : Prop :=
  (log_len (log_of s h) + n < u64_bound)%N.

Lemma extends_refl s h : live s h → extends s h s h [].
Proof. intros Hl. split_and!; [done..|]. by rewrite app_nil_r. Qed.

Lemma extends_trans s h s1 h1 s2 h2 l1 l2 :
  extends s h s1 h1 l1 → extends s1 h1 s2 h2 l2 → extends s h s2 h2 (l1 ++ l2).
Proof.
  intros (_ & Hi1 & Hl1) (Hl & Hi2 & Hl2). split_and!; [done|congruence|].
  by rewrite Hl2, Hl1, app_assoc.
Qed.

Lemma extends_room n m s h s' h' l :
  extends s h s' h' l → room_for (n + m) s h → (N.of_nat (length l) ≤ m)%N → room_for n s' h'.
Proof.
  intros (_ & _ & Hl) Hr Hm. unfold room_for, log_len in *. rewrite Hl, length_app. lia.
Qed.

Lemma room_for_room s h : room_for 1 s h → room s h.
Proof. done. Qed.

Lemma PublishLifecycle_live s h t fs r s' h' :
  live s h → room_for 1 s h → PublishLifecycle s h t fs = (r, s', h') →
  ∃ ev, r = Some ev ∧ ev = lifecycle_event t fs (Seq ev) ∧ extends s h s' h' [ev].
Proof.
  intros (Ha & Hs & Hc) Hr E.
  destruct (PublishLifecycle_alive alive s h t fs Hacc Ha Hs Hr Hc) as (ev & s1 & h1 & E1 & Ha1).
  rewrite E in E1. injection E1 as -> -> ->.
  pose proof (PublishLifecycle_closed _ _ _ _ _ _ _ E) as Hc1.
  apply PublishLifecycle_some in E as (Hs1 & Hid & Hev & Hl); [|done..].
  exists ev. split; [done|]. split; [done|]. split; [|done]. split_and!; [done..|by rewrite Hc1].
Qed.

Lemma agent_publish_live s a t fs r s' a' :
  live s (a_hub a) → room_for 1 s (a_hub a) → agent_publish s a t fs = (r, s', a') →
  ∃ ev h', a' = set_hub h' a ∧ ev = lifecycle_event t fs (Seq ev) ∧
    extends s (a_hub a) s' h' [ev].
Proof.
  intros Hl Hr. unfold agent_publish.
  destruct (PublishLifecycle _ _ _ _) as [[r1 s1] h1] eqn:E. intros [= -> <- <-].
  apply PublishLifecycle_live in E as (ev & -> & Hev & Hex); [|done..]. by exists ev, h1.
Qed.

Lemma agent_transition_live s a next t fs r s' a' :
  live s (a_hub a) → room_for 1 s (a_hub a) →
  sessionTransitions (f_state (a_fsm a)) next = true →
  agent_transition s a next t fs = (r, s', a') →
  ∃ ev h', a' = set_hub_fsm h' (mkFSM (f_agentID (a_fsm a)) next) a ∧ Typ ev = t ∧
    r = None ∧ extends s (a_hub a) s' h' [ev].
Proof.
  intros Hl Hr Hlegal. unfold agent_transition, Transition. rewrite Hlegal. cbn [negb].
  destruct (PublishLifecycle _ _ _ _) as [[r1 s1] h1] eqn:E.
  apply PublishLifecycle_live in E as (ev & -> & Hev & Hex); [|done..].
  intros [= <- <- <-]. exists ev, h1. split_and!; [done|by rewrite Hev|done..].
Qed.

(** ** Records *)

(** What a reaction to a record adds to the log: nothing, or a verdict and the
    settling of the turn. *)
Definition reaction (l : list Event) : Prop :=
  Forall (λ ev, Typ ev = EventTypeAssessed ∨ Typ ev = lifecycleSettled) l ∧ (length l ≤ 2)%nat.

Lemma SettleAssess_live slm m s h id now pub m' s' h' :
  live s h → room_for 1 s h → SettleAssess slm m s h id now pub = (m', s', h') →
  ∃ l, extends s h s' h' l ∧ (length l ≤ 1)%nat ∧ Forall (λ ev, Typ ev = EventTypeAssessed) l.
Proof.
  intros Hl Hr. unfold SettleAssess. destruct (disarm m id) as [x mo1].
  assert (Hsame : ∃ l, extends s h s h l ∧ (length l ≤ 1)%nat ∧
    Forall (λ ev, Typ ev = EventTypeAssessed) l).
  { exists []. split_and!; [by apply extends_refl|simpl; lia|constructor]. }
  destruct x as [x|]; [|by intros [= <- <- <-]].
  destruct (mo_heap mo1 !! x) as [e|]; [|by intros [= <- <- <-]].
  destruct (SubscribeSnapshot s h) as [evs|]; [|by intros [= <- <- <-]].
  destruct (currentTurnWindow evs) as [w|]; [|by intros [= <- <- <-]].
  unfold publish_assessment.
  destruct (run_pipeline slm w _ true) as [[summary v]|]; cbn [andb negb]; [|by intros [= <- <- <-]].
  destruct (PublishLifecycle _ _ _ _) as [[r s1] h1] eqn:Ep. intros [= <- <- <-].
  apply PublishLifecycle_live in Ep as (ev & -> & Hev & Hex); [|done..].
  exists [ev]. split_and!; [done|simpl; lia|]. constructor; [by rewrite Hev|constructor].
Qed.

Lemma settle_end_live slm s mo a now pub s' mo' a' :
  live s (a_hub a) → room_for 2 s (a_hub a) → f_state (a_fsm a) = SessionRunning →
  settle_end slm s mo a now pub = (s', mo', a') →
  ∃ h' v ev, a' = set_hub_fsm h' (mkFSM (f_agentID (a_fsm a)) SessionIdle) a ∧
    extends s (a_hub a) s' h' (v ++ [ev]) ∧ Typ ev = lifecycleSettled ∧ (length v ≤ 1)%nat ∧
    Forall (λ ev, Typ ev = EventTypeAssessed) v.
Proof.
  intros Hl Hr Hf. unfold settle_end.
  assert (Hassess : ∃ mo2 s1 h1 v,
    match mo with
    | Some m => let '(m', s', h') := SettleAssess slm m s (a_hub a) (a_ID a) now pub in
                (Some m', s', set_hub h' a)
    | None => (None, s, a)
    end = (mo2, s1, set_hub h1 a) ∧ extends s (a_hub a) s1 h1 v ∧ (length v ≤ 1)%nat ∧
    Forall (λ ev, Typ ev = EventTypeAssessed) v).
  { destruct mo as [m|].
    - destruct (SettleAssess slm m s (a_hub a) (a_ID a) now pub) as [[m' s1] h1] eqn:Es.
      apply SettleAssess_live in Es as (v & ? & ? & ?); [|done|unfold room_for in *; lia].
      by exists (Some m'), s1, h1, v.
    - exists None, s, (a_hub a), []. split_and!; [by destruct a|by apply extends_refl|simpl; lia|constructor]. }
  destruct Hassess as (mo2 & s1 & h1 & v & -> & Hex & Hlen & Hv).
  destruct (agent_transition _ _ _ _ _) as [[e s2] a2] eqn:Et. intros [= <- <- <-].
  apply agent_transition_live in Et as (ev & h2 & -> & Ht & _ & Hex2).
  - exists h2, v, ev. split_and!; [done| |done..]. by eapply extends_trans.
  - apply Hex.
  - eapply (extends_room 1 1); [done..|]. lia.
  - cbn. by rewrite Hf.
Qed.

Lemma onPiRecord_live slm s mo a raw now pub s' mo' a' :
  live s (a_hub a) → room_for 2 s (a_hub a) →
  (a_status a = StatusWorking → f_state (a_fsm a) = SessionRunning) →
  onPiRecord slm s mo a raw now pub = (s', mo', a') →
  (is_settle raw ∧ a_status a = StatusWorking ∧ ∃ h' v ev,
     a' = set_hub_fsm h' (mkFSM (f_agentID (a_fsm a)) SessionIdle) (set_status StatusReady a) ∧
     extends s (a_hub a) s' h' (v ++ [ev]) ∧ Typ ev = lifecycleSettled ∧ (length v ≤ 1)%nat ∧
     Forall (λ ev, Typ ev = EventTypeAssessed) v) ∨
  (s' = s ∧ a' = a).
Proof.
  intros Hl Hr Hwr. unfold onPiRecord.
  destruct (settle_begin mo a raw now) as [[b mo1] a1] eqn:Eb.
  apply settle_begin_spec in Eb as [(-> & Hset & Hw & ->)|(-> & -> & _)].
  - intros E. left. split_and!; [done..|].
    apply settle_end_live in E as (h' & v & ev & -> & Hex & ?); [|done..|by apply Hwr].
    by exists h', v, ev.
  - intros [= <- <- <-]. by right.
Qed.

(** ** Pulled records *)

Lemma PublishPulled_live s h raw d id r s' h' :
  live s h → room_for 1 s h → (id < u64_bound)%N → marshal_raw raw = Some d →
  PublishPulled s h raw id = (r, s', h') →
  (∃ n, r = Ok n) ∧ h_origin h' = N.max (h_origin h) id ∧
  extends s h s' h' (if decide (h_origin h < id)%N
                     then [mkEvent (log_len (log_of s h) + 1) (eventTypeOf raw) (RJson d)] else []).
Proof.
  intros (Ha & Hs & Hc) Hr Hid Hd E. pose proof Hs as (Hinv & Hv & Hn & Ho).
  case_decide as Hlt; cycle 1.
  { unfold PublishPulled in E. rewrite Hc, (proj2 (N.leb_le _ _)) in E by lia.
    injection E as <- <- <-. split_and!; [eauto|lia|]. by apply extends_refl. }
  set (ev' := mkEvent (log_len (log_of s h) + 1) (eventTypeOf raw) (RJson d)).
  assert (Hst : stored (record_event raw (log_len (log_of s h) + 1)) = Some ev').
  { unfold stored. simpl. by rewrite Hd. }
  destruct (acc_origin _ Hacc s (h_agentID h) (record_event raw (log_len (log_of s h) + 1)) ev' id)
    as (s1 & E1 & Ha1); [done..|].
  unfold PublishPulled in E. rewrite Hc, (proj2 (N.leb_gt _ _)) in E by lia.
  rewrite Hn, u64_succ_small in E by done.
  unfold record_event in E1. rewrite E1 in E. injection E as <- <- <-.
  apply es_append_origin in E1 as (ev1 & Hst1 & _ & Hinv1 & Habs); [|done..].
  assert (ev1 = ev') as -> by (unfold record_event in Hst; congruence).
  split_and!; [eauto| |].
  - simpl. lia.
  - specialize (Habs _ Hv). unfold abs_append in Habs. rewrite decide_True in Habs by done.
    split_and!; [|done|unfold log_of; simpl; by rewrite Habs].
    split_and!; [done| |done]. unfold hub_sync, log_of. cbn. rewrite Habs. cbn.
    split_and!; [done|done| |lia]. unfold log_len. rewrite length_app. simpl. lia.
Qed.

End live.
