(* ===== verification/Spool.v ===== *)
(** * The daemon's spool (src/daemon/spool.go)

    The durable log of unacknowledged records inside the sandbox: an
    append-only file of JSON lines with a bounded window in memory.  A line is
    represented by what [json.Unmarshal] makes of it; the outcome of a write and
    of a sync is an argument. *)

From Stdlib Require Import String ZArith.
From S2P Require Import Prelude Json.
From stdpp Require Import base list strings numbers sorting.
Local Open Scope N_scope.

Record spoolEntry : Type := mkEntry {
  e_SpoolID : N;
  e_Data : RawMessage
}.

(** What [GET /records] serves. *)
Record Record_ : Type := mkRecord {
  r_SpoolID : N;
  r_Data : RawMessage
}.

(** A terminated line of the file. *)
Inductive line : Type :=
| LBlank
| LEntry (e : spoolEntry)
| LCorrupt (text : string).

(** The file: terminated lines, then possibly a fragment without newline. *)
Record spool_file : Type := mkFile {
  sf_lines : list line;
  sf_torn : option string
}.

(** The open spool; the channels of waiting readers are the readers' side of
    [Read]. *)
Record Spool : Type := mkSpool {
  sp_file : spool_file;
  sp_next : N;
  sp_maxRecs : Z;
  sp_recs : list spoolEntry
}.

(** ** Opening *)

(** The loop of [NewSpool]: recovered entries and next id, or the corrupt line. *)
Fixpoint recover (ls : list line) (recs : list spoolEntry) (next : N) : res string (list spoolEntry * N) :=
  match ls with
  | [] => Ok (recs, next)
  | LBlank :: rest => recover rest recs next
  | LCorrupt text :: _ => Err text
  | LEntry e :: rest =>
      recover rest (recs ++ [e])
        (if next <=? e_SpoolID e then u64_succ (e_SpoolID e) else next)
  end.

(** A torn final line is cut off the file, unless a corrupt line stops the scan
    before it is reached. *)
Definition NewSpool (f : spool_file) (maxRecords : Z) : res string Spool :=
  match recover (sf_lines f) [] 1 with
  | Err text => Err text
  | Ok (recs, next) => Ok (mkSpool (mkFile (sf_lines f) None) next maxRecords recs)
  end.

(** ** Appending *)

(** One write and sync: both succeed, the write fails after [landed] bytes
    (possibly none), or the sync fails after the whole line was written. *)
Inductive io : Type :=
| IoOk
| IoWriteFailed (landed : string)
| IoSyncFailed.

(** The bytes of a line land behind whatever the file ends with. *)
Definition file_write (f : spool_file) (e : spoolEntry) : spool_file :=
  match sf_torn f with
  | None => mkFile (sf_lines f ++ [LEntry e]) None
  | Some frag => mkFile (sf_lines f ++ [LCorrupt frag]) None
  end.

Definition file_tear (f : spool_file) (landed : string) : spool_file :=
  mkFile (sf_lines f)
    (match sf_torn f with
     | None => if String.eqb landed "" then None else Some landed
     | Some frag => Some (frag +:+ landed)
     end).

(** [appendLocked]: whether it succeeded. *)
Definition appendLocked (s : Spool) (e : spoolEntry) (o : io) : bool * Spool :=
  match o with
  | IoWriteFailed landed =>
      (false, mkSpool (file_tear (sp_file s) landed) (sp_next s) (sp_maxRecs s) (sp_recs s))
  | IoSyncFailed =>
      (false, mkSpool (file_write (sp_file s) e) (sp_next s) (sp_maxRecs s) (sp_recs s))
  | IoOk =>
      (true, mkSpool (file_write (sp_file s) e) (u64_succ (e_SpoolID e)) (sp_maxRecs s)
               (sp_recs s ++ [e]))
  end.

Definition spool_truncated : RawMessage := RJson (JObj [("type"%string, JStr "spool_truncated")]).

(** The trimming loop: whether it ran and what is left.  One pass leaves
    [maxRecs] records; [None] is the slice bound of a negative cap panicking. *)
Definition trim (recs : list spoolEntry) (maxRecs : Z) : option (bool * list spoolEntry) :=
  if (maxRecs <? Z.of_nat (length recs))%Z then
    if (maxRecs <? 0)%Z then None
    else Some (true, drop (length recs - Z.to_nat maxRecs) recs)
  else Some (false, recs).

(** [Append]: the record, or [None] inside when the first append fails; the
    outer [None] is the panic.  A failed notice is only logged. *)
Definition Append (s : Spool) (data : RawMessage) (o1 o2 : io) : option (option Record_ * Spool) :=
  let id := sp_next s in
  match appendLocked s (mkEntry id data) o1 with
  | (false, s1) => Some (None, s1)
  | (true, s1) =>
      match trim (sp_recs s1) (sp_maxRecs s1) with
      | None => None
      | Some (truncated, recs) =>
          let s2 := mkSpool (sp_file s1) (sp_next s1) (sp_maxRecs s1) recs in
          let s3 := if truncated
                    then (appendLocked s2 (mkEntry (sp_next s2) spool_truncated) o2).2
                    else s2 in
          Some (Some (mkRecord id data), s3)
      end
  end.

(** ** Reading *)

Fixpoint findAfter (recs : list spoolEntry) (after : N) : nat :=
  match recs with
  | [] => O
  | e :: rest => if after <? e_SpoolID e then O else Datatypes.S (findAfter rest after)
  end.

Definition toRecords (recs : list spoolEntry) : list Record_ :=
  (λ e, mkRecord (e_SpoolID e) (e_Data e)) <$> recs.

(** [Read]: at once if there is something after the cursor or no wait was asked
    for, else from [later], the spool when the wait ends. *)
Definition Read (s : Spool) (after : N) (wait : Z) (later : Spool) : list Record_ :=
  let idx := findAfter (sp_recs s) after in
  if (idx <? length (sp_recs s))%nat then toRecords (drop idx (sp_recs s))
  else if (wait <=? 0)%Z then []
  else toRecords (drop (findAfter (sp_recs later) after) (sp_recs later)).

Definition Depth (s : Spool) : nat := length (sp_recs s).

(** ** Histories *)

(** Appends with their outcomes, and daemon deaths that leave [torn] of an
    append in progress behind. *)
Inductive spool_op : Type :=
| SAppend (data : RawMessage) (o1 o2 : io)
| SCrash (torn : string).

(** [None] when the daemon cannot go on: a panic or a spool that does not open. *)
Definition spool_step (s : Spool) (op : spool_op) : option Spool :=
  match op with
  | SAppend data o1 o2 => snd <$> Append s data o1 o2
  | SCrash torn =>
      match NewSpool (file_tear (sp_file s) torn) (sp_maxRecs s) with
      | Ok s' => Some s'
      | Err _ => None
      end
  end.

Fixpoint spool_run (s : Spool) (ops : list spool_op) : option Spool :=
  match ops with
  | [] => Some s
  | op :: rest => match spool_step s op with Some s' => spool_run s' rest | None => None end
  end.

(** ** The invariant *)

Definition numbered (es : list spoolEntry) : Prop :=
  ∀ i e, es !! i = Some e → e_SpoolID e = N.of_nat i + 1.

(** The file holds [es], numbered from 1; the window is a suffix of it. *)
Record spool_inv (s : Spool) (es : list spoolEntry) : Prop := mkSpoolInv {
  si_file : sp_file s = mkFile (LEntry <$> es) None;
  si_numbered : numbered es;
  si_next : sp_next s = N.of_nat (length es) + 1;
  si_window : ∃ k, sp_recs s = drop k es;
  si_cap : (0 ≤ sp_maxRecs s)%Z;
  si_bound : N.of_nat (length es) + 1 < u64_bound
}.

(** The outcomes after which the file has no fragment and no unrecorded line. *)
Definition clean (o : io) : Prop := o = IoOk ∨ o = IoWriteFailed "".

Definition op_clean (op : spool_op) : Prop :=
  match op with SAppend _ o1 o2 => clean o1 ∧ clean o2 | SCrash _ => True end.

(** The data that successful appends put in, and the data that ends up in the
    file: the same, with truncation notices in between. *)
Definition op_data (op : spool_op) : list RawMessage :=
  match op with SAppend d IoOk _ => [d] | _ => [] end.

Inductive spooled : list RawMessage → list RawMessage → Prop :=
| spooled_nil : spooled [] []
| spooled_record d ds out : spooled ds out → spooled (d :: ds) (d :: out)
| spooled_notice ds out : spooled ds out → spooled ds (spool_truncated :: out).

Lemma spooled_app ds1 out1 ds2 out2 :
  spooled ds1 out1 → spooled ds2 out2 → spooled (ds1 ++ ds2) (out1 ++ out2).
Proof. intros H1 H2. induction H1; simpl; [done|by constructor..]. Qed.

Lemma numbered_snoc es d :
  numbered es → numbered (es ++ [mkEntry (N.of_nat (length es) + 1) d]).
Proof.
  intros Hn i e [Hi|[Hlen Hi]]%lookup_app_Some; [by apply Hn|].
  destruct (i - length es)%nat eqn:Ei; [|done]. simpl in Hi. injection Hi as <-. simpl. lia.
Qed.

Lemma recover_entries es recs next :
  (∀ i e, es !! i = Some e → e_SpoolID e = next + N.of_nat i) →
  next + N.of_nat (length es) < u64_bound →
  recover (LEntry <$> es) recs next = Ok (recs ++ es, next + N.of_nat (length es)).
Proof.
  revert recs next. induction es as [|e es IH]; intros recs next Hn Hb; cbn [fmap list_fmap recover].
  { rewrite app_nil_r. simpl. f_equal. f_equal. lia. }
  assert (He : e_SpoolID e = next) by (rewrite (Hn 0%nat e eq_refl); lia).
  rewrite He, (proj2 (N.leb_le _ _)) by lia. cbn [length] in Hb.
  rewrite u64_succ_small by lia. rewrite IH.
  - rewrite <-app_assoc. f_equal. f_equal. cbn [length]. lia.
  - intros i e' Hi. rewrite (Hn (Datatypes.S i) e' Hi). lia.
  - lia.
Qed.

Lemma recover_app ls1 ls2 recs next :
  recover (ls1 ++ ls2) recs next =
  match recover ls1 recs next with Ok (r, n) => recover ls2 r n | Err t => Err t end.
Proof.
  revert recs next. induction ls1 as [|l ls1 IH]; intros recs next; [done|].
  destruct l; cbn [recover app]; [by rewrite IH..|done].
Qed.

Lemma NewSpool_inv es torn max :
  numbered es → N.of_nat (length es) + 1 < u64_bound → (0 ≤ max)%Z →
  ∃ s, NewSpool (mkFile (LEntry <$> es) torn) max = Ok s ∧ spool_inv s es ∧ sp_recs s = es ∧
    sp_maxRecs s = max.
Proof.
  intros Hn Hb Hm. unfold NewSpool. cbn [sf_lines]. rewrite recover_entries; [|intros i e Hi; rewrite (Hn i e Hi); lia|lia].
  eexists. split; [done|]. split_and!; [|done|done]. split; simpl; try done; [lia|by exists 0%nat].
Qed.

(** One entry lands. *)
Lemma appendLocked_ok s es d :
  spool_inv s es → N.of_nat (length es) + 2 < u64_bound →
  ∃ s', appendLocked s (mkEntry (sp_next s) d) IoOk = (true, s') ∧
    spool_inv s' (es ++ [mkEntry (sp_next s) d]) ∧ sp_maxRecs s' = sp_maxRecs s ∧
    sp_recs s' = sp_recs s ++ [mkEntry (sp_next s) d].
Proof.
  intros [Hf Hn Hx [k Hk] Hm Hb] Hroom. eexists. split; [done|]. split_and!; [|done|done].
  split; cbn [sp_file sp_next sp_recs sp_maxRecs].
  - unfold file_write. rewrite Hf. simpl. by rewrite fmap_app.
  - rewrite Hx. by apply numbered_snoc.
  - cbn [e_SpoolID]. rewrite Hx, u64_succ_small, length_app by lia. simpl. lia.
  - exists (Nat.min k (length es)). rewrite Hk, drop_app_le by lia. f_equal.
    destruct (Nat.min_spec k (length es)) as [[_ ->]|[Hle ->]]; [done|].
    by rewrite !drop_ge.
  - done.
  - rewrite length_app. simpl. lia.
Qed.

Lemma spool_inv_recs s es k :
  spool_inv s es → spool_inv (mkSpool (sp_file s) (sp_next s) (sp_maxRecs s) (drop k es)) es.
Proof. intros [? ? ? ? ? ?]. split; try done. by exists k. Qed.

Lemma trim_spec s es :
  spool_inv s es →
  ∃ b recs, trim (sp_recs s) (sp_maxRecs s) = Some (b, recs) ∧
    (∃ k, recs = drop k es) ∧
    (if b then length recs = Z.to_nat (sp_maxRecs s)
     else recs = sp_recs s ∧ (Z.of_nat (length (sp_recs s)) ≤ sp_maxRecs s)%Z).
Proof.
  intros [_ _ _ [k Hk] Hm _]. unfold trim.
  destruct (Z.ltb_spec (sp_maxRecs s) (Z.of_nat (length (sp_recs s)))) as [Hlt|].
  - rewrite (proj2 (Z.ltb_ge _ _)) by done. eexists _, _. split; [done|]. split.
    + generalize (length (sp_recs s) - Z.to_nat (sp_maxRecs s))%nat. intros n.
      rewrite Hk, drop_drop. eauto.
    + rewrite length_drop. lia.
  - eexists _, _. split; [done|]. eauto.
Qed.

(** Whatever is missing from the window was announced by its last record, and
    the window is then one longer than the cap. *)
Definition announced (s : Spool) (es : list spoolEntry) : Prop :=
  sp_recs s = es ∨
  (length (sp_recs s) = Z.to_nat (sp_maxRecs s) + 1)%nat ∧
    e_Data <$> last (sp_recs s) = Some spool_truncated.

(** Or the notice of the last loss could not be appended, and the window is full: the next
    append announces it. *)
Definition accounted (s : Spool) (es : list spoolEntry) : Prop :=
  announced s es ∨ length (sp_recs s) = Z.to_nat (sp_maxRecs s).

Lemma tear_nothing s es :
  spool_inv s es →
  mkSpool (file_tear (sp_file s) "") (sp_next s) (sp_maxRecs s) (sp_recs s) = s.
Proof.
  intros Hinv. unfold file_tear. rewrite (si_file _ _ Hinv). simpl. rewrite <-(si_file _ _ Hinv).
  by destruct s.
Qed.

Lemma Append_clean s es d o1 o2 :
  spool_inv s es → N.of_nat (length es) + 3 < u64_bound → clean o1 → clean o2 →
  ∃ r s' new, Append s d o1 o2 = Some (r, s') ∧ spool_inv s' (es ++ new) ∧
    (length new ≤ 2)%nat ∧ sp_maxRecs s' = sp_maxRecs s ∧
    spooled (op_data (SAppend d o1 o2)) (e_Data <$> new) ∧
    (∀ rec, r = Some rec → rec = mkRecord (sp_next s) d ∧ head new = Some (mkEntry (sp_next s) d)) ∧
    (accounted s es → accounted s' (es ++ new) ∧ (o1 = IoOk → o2 = IoOk → announced s' (es ++ new))).
Proof.
  intros Hinv Hroom Ho1 Ho2. unfold Append. destruct Ho1 as [-> | ->]; cycle 1.
  { eexists _, _, []. split; [done|]. cbn [length]. rewrite app_nil_r.
    rewrite (tear_nothing _ _ Hinv). split_and!; [done|lia|done|constructor|done|by intros ?; split]. }
  destruct (appendLocked_ok s es d Hinv ltac:(lia)) as (s1 & -> & Hinv1 & Hm1 & Hr1).
  set (e := mkEntry (sp_next s) d) in *.
  destruct (trim_spec s1 (es ++ [e]) Hinv1) as (b & recs & -> & [k Hk] & Hb).
  set (s2 := mkSpool (sp_file s1) (sp_next s1) (sp_maxRecs s1) recs).
  assert (Hinv2 : spool_inv s2 (es ++ [e])) by (unfold s2; rewrite Hk; by apply spool_inv_recs).
  destruct b; cycle 1.
  { eexists _, s2, [e]. split; [done|]. split_and!; [done|simpl; lia|done|repeat constructor| |].
    - by intros rec [= <-].
    - destruct Hb as [-> Hle]. intros Han. rewrite Hr1, length_app, Hm1 in Hle. pose proof (si_cap _ _ Hinv). simpl in Hle.
      assert (sp_recs s = es) as Hes by (destruct Han as [[?|[Hlen _]]|Hlen]; [done|lia..]).
      assert (announced s2 (es ++ [e])) as Hann by (left; cbn [sp_recs s2]; by rewrite Hr1, Hes).
      split; [by left|done]. }
  destruct Ho2 as [-> | ->].
  - destruct (appendLocked_ok s2 (es ++ [e]) spool_truncated Hinv2) as (s3 & E3 & Hinv3 & Hm3 & Hr3).
    { rewrite length_app. simpl. lia. }
    rewrite E3. cbn [snd]. set (n := mkEntry (sp_next s2) spool_truncated) in *.
    eexists _, s3, [e; n]. split; [done|]. rewrite <-app_assoc in Hinv3.
    split_and!; [done|simpl; lia|by rewrite Hm3|repeat constructor|by intros rec [= <-]|].
    intros _. assert (announced s3 (es ++ [e; n])) as Hann; [|split; [by left|done]].
    right. rewrite Hm3, Hr3, last_snoc, length_app. cbn [sp_recs s2 sp_maxRecs]. rewrite Hb. done.
  - eexists _, _, [e]. split; [done|].
    unfold appendLocked. cbn [snd]. rewrite (tear_nothing _ _ Hinv2).
    split_and!; [done|simpl; lia|done|repeat constructor|by intros rec [= <-]|].
    intros _. split; [right; exact Hb|done].
Qed.

(** ** Theorems *)

(** The last thing that happened was an append that went through with its notice, or a
    restart. *)
Definition ends_noticed (ops : list spool_op) : Prop :=
  match last ops with Some (SAppend _ IoOk IoOk) | Some (SCrash _) => True | _ => False end.

(** C9. The spool is durable.  Over any history of appends and daemon deaths in
    which no write was half done and no sync failed (a write may fail as a whole),
    the daemon always comes back up; the file holds every record whose append
    succeeded, in order and with consecutive ids that no restart reuses, and nothing
    else but truncation notices.  Records that are missing from the window are
    announced: after an append that went through together with its notice the last
    record of the window is such a notice, or nothing is missing; as long as the
    notices fail to be appended the window stays full, so that the next append tries
    again. *)
Theorem spool_durable s es ops :
  spool_inv s es → Forall op_clean ops →
  N.of_nat (length es) + 2 * N.of_nat (length ops) + 2 < u64_bound →
  ∃ s' new, spool_run s ops = Some s' ∧ spool_inv s' (es ++ new) ∧
    spooled (concat (op_data <$> ops)) (e_Data <$> new) ∧
    (accounted s es → accounted s' (es ++ new) ∧ (ends_noticed ops → announced s' (es ++ new))).
Proof.
  intros Hinv Hcl. revert s es Hinv. induction Hcl as [|op ops Hop _ IH]; intros s es Hinv Hroom.
  { exists s, []. rewrite app_nil_r. split_and!; [done|done|constructor|]. intros ?. by split. }
  cbn [length] in Hroom.
  assert (Hstep : ∃ s1 new1, spool_step s op = Some s1 ∧ spool_inv s1 (es ++ new1) ∧
    (length new1 ≤ 2)%nat ∧ spooled (op_data op) (e_Data <$> new1) ∧
    (accounted s es → accounted s1 (es ++ new1) ∧ (ends_noticed [op] → announced s1 (es ++ new1)))).
  { destruct op as [d o1 o2|torn]; cbn [op_clean spool_step] in *.
    - destruct (Append_clean s es d o1 o2) as (r & s1 & new & -> & ? & ? & _ & ? & _ & Ha);
        [done|lia|apply Hop..|]. exists s1, new. split_and!; [done..|]. intros [? Hno]%Ha. split; [done|].
      cbn. by destruct o1, o2; try done; intros _; apply Hno.
    - destruct (NewSpool_inv es (if String.eqb torn "" then None else Some torn) (sp_maxRecs s))
        as (s1 & E & Hinv1 & Hr & Hm); [apply Hinv..|].
      exists s1, []. unfold file_tear. rewrite (si_file _ _ Hinv). cbn [sf_lines sf_torn].
      rewrite E, app_nil_r. split_and!; [done|done|simpl; lia|constructor|]. intros _. by split; left; [left|]. }
  destruct Hstep as (s1 & new1 & Es & Hinv1 & Hlen & Hsp & Han).
  destruct (IH s1 (es ++ new1) Hinv1) as (s' & new & Er & Hinv' & Hsp' & Han').
  { rewrite length_app. lia. }
  exists s', (new1 ++ new). cbn [spool_run]. rewrite Es. split; [done|].
  rewrite app_assoc, fmap_app, fmap_cons, concat_cons. split; [done|].
  split; [by apply spooled_app|].
  intros [Ha1 Hn1]%Han. destruct (Han' Ha1) as [Ha2 Hn2]. split; [done|]. unfold ends_noticed in *.
  destruct ops as [|op' ops]; [|by rewrite last_cons_cons]. cbn [spool_run] in Er. injection Er as <-.
  pose proof (si_file _ _ Hinv') as Hf. rewrite (si_file _ _ Hinv1) in Hf.
  injection Hf as Hf%(f_equal length). rewrite !length_fmap, !length_app in Hf.
  assert (new = []) as -> by (apply length_zero_iff_nil; lia). by rewrite app_nil_r.
Qed.

Lemma findAfter_window es k after :
  numbered es →
  drop (findAfter (drop k es) after) (drop k es) = drop (Nat.max k (N.to_nat after)) es.
Proof.
  intros Hn. remember (length es - k)%nat as n eqn:En. revert k En.
  induction n as [|n IH]; intros k En.
  { rewrite (drop_ge es k), (drop_ge es (Nat.max _ _)) by lia. done. }
  destruct (lookup_lt_is_Some_2 es k) as [e He]; [lia|].
  rewrite (drop_S es e k He). cbn [findAfter].
  rewrite (Hn k e He). destruct (N.ltb_spec after (N.of_nat k + 1)).
  - cbn [drop]. rewrite Nat.max_l by lia. by rewrite <-(drop_S es e k He).
  - cbn [drop]. rewrite IH by lia. f_equal. lia.
Qed.

(** The entries of the file after the cursor that the window still has. *)
Definition served (s : Spool) (es : list spoolEntry) (after : N) : list spoolEntry :=
  drop (Nat.max (length es - length (sp_recs s)) (N.to_nat after)) es.

Lemma window_after s es after :
  spool_inv s es → drop (findAfter (sp_recs s) after) (sp_recs s) = served s es after.
Proof.
  intros Hs. unfold served. destruct (si_window _ _ Hs) as [k Hk]. rewrite Hk.
  rewrite (findAfter_window _ _ _ (si_numbered _ _ Hs)), length_drop.
  destruct (le_lt_dec k (length es)); [f_equal; lia|]. rewrite !drop_ge; [done|lia..].
Qed.

Lemma Read_served s es later es' after wait :
  spool_inv s es → spool_inv later es' →
  Read s after wait later =
    toRecords (match served s es after with
               | [] => if (wait <=? 0)%Z then [] else served later es' after
               | l => l
               end).
Proof.
  intros Hs Hl. unfold Read. rewrite (window_after _ _ _ Hl), <-(window_after _ _ _ Hs).
  destruct (Nat.ltb_spec (findAfter (sp_recs s) after) (length (sp_recs s))) as [Hlt|].
  - destruct (drop _ (sp_recs s)) as [|e l] eqn:Ed; [|done].
    apply (f_equal length) in Ed. rewrite length_drop in Ed. simpl in Ed. lia.
  - rewrite (drop_ge (sp_recs s)) by done. by destruct (wait <=? 0)%Z.
Qed.

(** A read serves what is there.  After the cursor it returns, in order,
    exactly the entries of the file that are still in the window: at once when
    there are any, and otherwise, if a wait was asked for, those present when the
    wait ends; as long as the cursor has not fallen behind the window, none is
    skipped. *)
Theorem read_exact s es later es' after wait :
  spool_inv s es → spool_inv later es' →
  Read s after wait later =
    toRecords (match served s es after with
               | [] => if (wait <=? 0)%Z then [] else served later es' after
               | l => l
               end) ∧
  (N.of_nat (length es - length (sp_recs s)) ≤ after →
     served s es after = filter (λ e, after < e_SpoolID e) es).
Proof.
  intros Hs Hl. split; [by apply Read_served|]. intros Hcover. unfold served.
  rewrite Nat.max_r by lia. pose proof (si_numbered _ _ Hs) as Hn.
  rewrite <-(take_drop (N.to_nat after) es) at 2. rewrite filter_app, filter_none, filter_id; [done|..].
  - apply Forall_lookup. intros i e. rewrite lookup_drop. intros He%Hn. lia.
  - apply Forall_lookup. intros i e [He Hi]%lookup_take_Some. apply Hn in He. lia.
Qed.

(** A failed sync makes the spool hand out an id twice: the record of the
    failed append is in the file, the next successful append gets the same id,
    and after a restart both are served under that one id. *)
Theorem sync_failure_reuses_id s es d1 d2 o :
  spool_inv s es → N.of_nat (length es) + 2 < u64_bound →
  (Z.of_nat (length (sp_recs s)) < sp_maxRecs s)%Z →
  ∃ s1 s2 s3, Append s d1 IoSyncFailed o = Some (None, s1) ∧
    Append s1 d2 IoOk o = Some (Some (mkRecord (sp_next s) d2), s2) ∧
    NewSpool (sp_file s2) (sp_maxRecs s2) = Ok s3 ∧
    sp_recs s3 = es ++ [mkEntry (sp_next s) d1; mkEntry (sp_next s) d2].
Proof.
  intros Hinv Hb Hw. pose proof (si_next _ _ Hinv) as Hx.
  set (f1 := file_write (sp_file s) (mkEntry (sp_next s) d1)).
  set (f2 := file_write f1 (mkEntry (sp_next s) d2)).
  exists (mkSpool f1 (sp_next s) (sp_maxRecs s) (sp_recs s)).
  exists (mkSpool f2 (u64_succ (sp_next s)) (sp_maxRecs s) (sp_recs s ++ [mkEntry (sp_next s) d2])).
  eexists. split; [done|]. split.
  { unfold Append. cbn [sp_next appendLocked sp_recs sp_maxRecs sp_file]. unfold trim.
    rewrite length_app. cbn [length]. by rewrite (proj2 (Z.ltb_ge (sp_maxRecs s) _)) by lia. }
  cbn [sp_file sp_maxRecs].
  assert (Hf : sf_lines f2 = (LEntry <$> es) ++
    [LEntry (mkEntry (sp_next s) d1); LEntry (mkEntry (sp_next s) d2)]).
  { unfold f2, f1, file_write. rewrite (si_file _ _ Hinv). simpl. by rewrite <-app_assoc. }
  unfold NewSpool. rewrite Hf, recover_app, recover_entries;
    [|intros j e Hj; rewrite (si_numbered _ _ Hinv j e Hj); lia|lia].
  cbn [recover]. split; [reflexivity|]. cbn [sp_recs]. by rewrite <-app_assoc.
Qed.

(** A short write bricks the daemon at its next start: the bytes that
    landed and the next successful append share one line, the append reports
    success, and from then on the spool never opens again. *)
Theorem short_write_bricks_restart s es frag d1 d2 o :
  spool_inv s es → frag ≠ ""%string → (Z.of_nat (length (sp_recs s)) < sp_maxRecs s)%Z →
  ∃ s1 s2, Append s d1 (IoWriteFailed frag) o = Some (None, s1) ∧
    Append s1 d2 IoOk o = Some (Some (mkRecord (sp_next s) d2), s2) ∧
    ∀ torn, spool_step s2 (SCrash torn) = None.
Proof.
  intros Hinv Hfrag Hw.
  exists (mkSpool (file_tear (sp_file s) frag) (sp_next s) (sp_maxRecs s) (sp_recs s)).
  exists (mkSpool (file_write (file_tear (sp_file s) frag) (mkEntry (sp_next s) d2))
            (u64_succ (sp_next s)) (sp_maxRecs s) (sp_recs s ++ [mkEntry (sp_next s) d2])).
  split; [done|]. split.
  { unfold Append. cbn [sp_next appendLocked sp_recs sp_maxRecs sp_file]. unfold trim.
    rewrite length_app. cbn [length]. by rewrite (proj2 (Z.ltb_ge (sp_maxRecs s) _)) by lia. }
  intros torn. cbn [spool_step sp_file sp_maxRecs]. unfold NewSpool, file_tear at 1. cbn [sf_lines].
  unfold file_write, file_tear. rewrite (si_file _ _ Hinv). cbn [sf_torn sf_lines].
  rewrite (proj2 (String.eqb_neq _ _) Hfrag). cbn [sf_lines sf_torn].
  rewrite recover_app, recover_entries; [done| |].
  - intros j e Hj. rewrite (si_numbered _ _ Hinv j e Hj). lia.
  - pose proof (si_bound _ _ Hinv). lia.
Qed.

(** ** Concrete spools *)

Definition ex_spool (max : Z) : Spool := mkSpool (mkFile [] None) 1 max [].

Lemma ex_spool_inv max : (0 ≤ max)%Z → spool_inv (ex_spool max) [].
Proof. intros Hm. split; try done. by exists 0%nat. Qed.

Definition ex_data (t : string) : RawMessage := RJson (JObj [("type"%string, JStr t)]).

Definition ex_spool_ops : list spool_op :=
  [SAppend (ex_data "a") IoOk IoOk; SAppend (ex_data "b") IoOk IoOk; SCrash "half";
   SAppend (ex_data "c") IoOk IoOk].

Lemma ex_spool_clean : Forall op_clean ex_spool_ops.
Proof. repeat constructor. Qed.

Lemma spool_durable_witness :
  ∃ s' new, spool_run (ex_spool 1) ex_spool_ops = Some s' ∧ spool_inv s' new ∧
    spooled [ex_data "a"; ex_data "b"; ex_data "c"] (e_Data <$> new).
Proof.
  destruct (spool_durable (ex_spool 1) [] ex_spool_ops (ex_spool_inv 1 ltac:(lia)) ex_spool_clean)
    as (s' & new & Hr & Hinv & Hsp & _); [vm_compute; reflexivity|].
  exists s', new. split; [exact Hr|]. split; [exact Hinv|exact Hsp].
Defined.

Lemma read_exact_witness :
  Read (ex_spool 4) 0 25 (ex_spool 4) = [].
Proof.
  destruct (read_exact (ex_spool 4) [] (ex_spool 4) [] 0 25 (ex_spool_inv 4 ltac:(lia))
    (ex_spool_inv 4 ltac:(lia))) as [-> _]. reflexivity.
Defined.

Lemma sync_failure_reuses_id_witness :
  ∃ s1 s2 s3, Append (ex_spool 4) (ex_data "a") IoSyncFailed IoOk = Some (None, s1) ∧
    Append s1 (ex_data "b") IoOk IoOk = Some (Some (mkRecord 1 (ex_data "b")), s2) ∧
    NewSpool (sp_file s2) (sp_maxRecs s2) = Ok s3 ∧
    sp_recs s3 = [mkEntry 1 (ex_data "a"); mkEntry 1 (ex_data "b")].
Proof.
  apply (sync_failure_reuses_id (ex_spool 4) [] (ex_data "a") (ex_data "b") IoOk);
    [apply ex_spool_inv; lia|vm_compute; reflexivity|vm_compute; reflexivity].
Defined.

Lemma short_write_bricks_restart_witness :
  ∃ s1 s2, Append (ex_spool 4) (ex_data "a") (IoWriteFailed "{") IoOk = Some (None, s1) ∧
    Append s1 (ex_data "b") IoOk IoOk = Some (Some (mkRecord 1 (ex_data "b")), s2) ∧
    ∀ torn, spool_step s2 (SCrash torn) = None.
Proof.
  apply (short_write_bricks_restart (ex_spool 4) [] "{" (ex_data "a") (ex_data "b") IoOk);
    [apply ex_spool_inv; lia|discriminate|vm_compute; reflexivity].
Defined.
