(* ===== verification/Puller.v ===== *)
(** * The pull loop (src/controller/puller.go)

    One goroutine per agent moves the records of the daemon's spool into the
    event log, reacts to them, and watches for the death of the daemon.  One
    iteration of the loop is one step; everything the outside answers during it
    is an argument. *)

From Stdlib Require Import String ZArith.
From S2P Require Import Spool.
From S2P Require Import Prelude Json GoTime GoStrings Bolt EventStore EventHub Fsm Monitor Config.
From S2P Require Import Agent Manager Registry Revive Live.
From stdpp Require Import base list strings numbers gmap.
Local Open Scope Z_scope.

Definition pullBackoffBase : Z := 1 * second.
Definition pullBackoffCap : Z := 30 * second.
Definition degradedFailureThreshold : Z := 2.

(** [bootIDChanged]: remembers the id; an unknown one never counts as a change. *)
Definition bootIDChanged (a : Agent) (bootID : string) : bool * Agent :=
  (non_empty (a_bootID a) && non_empty bootID && negb (String.eqb bootID (a_bootID a)),
   set_bootID bootID a).

(** The variables of the loop. *)
Record Puller : Type := mkPuller {
  p_backoff : Z;
  p_failures : Z;
  p_pendingDeath : bool
}.

Definition puller_init : Puller := mkPuller pullBackoffBase 0 false.

Section puller.
  Context {S : Type} `{EventStore S}.

(** The summariser, and the clock readings while a record is handled. *)
Variable slm : SLMPipeline.
Variable times : DaemonRecord → Z * Z.

(** One record of a batch: append, then react. *)
Definition pull_record (s : S) (mo : option Monitor) (a : Agent) (rec : DaemonRecord)
    : bool * S * option Monitor * Agent :=
  match PublishPulled s (a_hub a) (dr_Data rec) (dr_SpoolID rec) with
  | (Err _, s', h') => (false, s', mo, set_hub h' a)
  | (Ok _, s', h') =>
      let '(now, published) := times rec in
      let '(s'', mo', a') := onPiRecord slm s' mo (set_hub h' a) (dr_Data rec) now published in
      (true, s'', mo', a')
  end.

(** A batch stops at the first record that cannot be appended. *)
Fixpoint pull_batch (s : S) (mo : option Monitor) (a : Agent) (recs : list DaemonRecord)
    : bool * S * option Monitor * Agent :=
  match recs with
  | [] => (true, s, mo, a)
  | rec :: rest =>
      match pull_record s mo a rec with
      | (false, s', mo', a') => (false, s', mo', a')
      | (true, s', mo', a') => pull_batch s' mo' a' rest
      end
  end.

(** The loop of [drainSpool]; [fetch i after] is the answer to the i-th request,
    [None] at the end running out of requests. *)
Fixpoint drain_loop (fuel i : nat) (fetch : nat → N → option (list DaemonRecord))
    (s : S) (mo : option Monitor) (a : Agent) : option (bool * S * option Monitor * Agent) :=
  match fuel with
  | O => None
  | Datatypes.S f =>
      match fetch i (Origin (a_hub a)) with
      | None => Some (false, s, mo, a)
      | Some [] => Some (true, s, mo, a)
      | Some recs =>
          match pull_batch s mo a recs with
          | (false, s', mo', a') => Some (false, s', mo', a')
          | (true, s', mo', a') => drain_loop f (Datatypes.S i) fetch s' mo' a'
          end
      end
  end.

Definition drainSpool (fuel : nat) (resolved : option string)
    (fetch : nat → N → option (list DaemonRecord)) (s : S) (mo : option Monitor) (a : Agent)
    : option (bool * S * option Monitor * Agent) :=
  match daemonFor a resolved with
  | (None, a') => Some (false, s, mo, a')
  | (Some _, a') => drain_loop fuel 0 fetch s mo a'
  end.

(** What the outside answers during one iteration: whether the sleep ran to its
    end, the resolver, the context after resolving, the poll, the context after it, the preflight (resolver and status), the requests of a drain, and
    the waits of a revive. *)
Record iter_env : Type := mkIter {
  ie_slept : bool;
  ie_resolve : option string;
  ie_cancelled : bool;
  ie_records : N → option (list DaemonRecord);
  ie_poll_cancelled : bool;
  ie_preflight : option string;
  ie_status : option DaemonStatus;
  ie_drain_fuel : nat;
  ie_fetch : nat → N → option (list DaemonRecord);
  ie_wait : Z;
  ie_start : Z;
  ie_rounds : list (consume_round S);
  ie_hold : hold_env
}.

(** The next state of the loop, or its end. *)
Definition iteration : Type := option Puller * S * option Monitor * Agent.

Definition count_failure (p : Puller) (a : Agent) : Z * Agent :=
  let failures := i64_wrap (p_failures p + 1) in
  (failures, if degradedFailureThreshold <=? failures then set_degraded true a else a).

(** The branch of a pending daemon death.  [None]: the drain or the cooldown
    needs more answers than were given. *)
Definition death_iteration (cfg : Config) (p : Puller) (env : iter_env) (s : S)
    (mo : option Monitor) (a : Agent) : option iteration :=
  if negb (ie_slept env) then Some (None, s, mo, a)
  else match preflight a (ie_preflight env) (ie_status env) with
  | (None, a1) => Some (Some p, s, mo, a1)
  | (Some st, a1) =>
      match drainSpool (ie_drain_fuel env) (ie_preflight env) (ie_fetch env) s mo a1 with
      | None => None
      | Some (false, s2, mo2, a2) => Some (Some p, s2, mo2, a2)
      | Some (true, s2, mo2, a2) =>
          if decide (f_state (a_fsm a2) = SessionRunning) then
            match pauseAndRevive cfg (ie_wait env) (ie_start env) (ie_rounds env) (ie_hold env)
                    s2 mo2 a2 with
            | None => None
            | Some (true, s3, mo3, a3) => Some (None, s3, mo3, a3)
            | Some (false, s3, mo3, a3) =>
                Some (Some (mkPuller pullBackoffBase (p_failures p) false), s3, mo3, a3)
            end
          else
            let '(s3, a3) := recordDaemonBoot s2 a2 st in
            let '(s4, mo4, a4) := fail s3 mo2 a3
              "daemon restarted (new boot_id) and pi not running" in
            Some (None, s4, mo4, a4)
      end
  end.

(** The branch of a poll. *)
Definition poll_iteration (p : Puller) (env : iter_env) (s : S) (mo : option Monitor) (a : Agent)
    : iteration :=
  let backoff' := Z.min (p_backoff p * 2) pullBackoffCap in
  match daemonFor a (ie_resolve env) with
  | (None, a1) =>
      if ie_cancelled env then (None, s, mo, a1)
      else
        let '(failures, a2) := count_failure p a1 in
        if ie_slept env then (Some (mkPuller backoff' failures false), s, mo, a2)
        else (None, s, mo, a2)
  | (Some _, a1) =>
      if ie_cancelled env || ie_poll_cancelled env then (None, s, mo, a1)
      else match ie_records env (Origin (a_hub a1)) with
      | None =>
          let '(failures, a2) := count_failure p (invalidateDaemon a1) in
          if negb (ie_slept env) then (None, s, mo, a2)
          else match preflight a2 (ie_preflight env) (ie_status env) with
          | (None, a3) => (Some (mkPuller backoff' failures false), s, mo, a3)
          | (Some st, a3) =>
              let '(changed, a4) := bootIDChanged a3 (ds_BootID st) in
              (Some (if changed && negb (ds_PiRunning st)
                     then mkPuller pullBackoffBase failures true
                     else mkPuller backoff' failures false), s, mo, a4)
          end
      | Some recs =>
          match pull_batch s mo (set_degraded false a1) recs with
          | (ok, s2, mo2, a2) =>
              if negb ok && negb (ie_slept env) then (None, s2, mo2, a2)
              else let '(s3, a3) := completeRevive s2 a2 in
                   (Some (mkPuller pullBackoffBase 0 false), s3, mo2, a3)
          end
      end
  end.

Definition puller_step (cfg : Config) (p : Puller) (env : iter_env) (s : S) (mo : option Monitor)
    (a : Agent) : option iteration :=
  if p_pendingDeath p then death_iteration cfg p env s mo a
  else Some (poll_iteration p env s mo a).

End puller.

(** ** The daemon's answers *)

(** What [GET /records] delivers for a spool: the encoder writes nothing that
    decodes when a record's data is not JSON. *)
Definition serve_records (recs : list Record_) : option (list DaemonRecord) :=
  mapM (λ r, match r_Data r with
             | RJson j => Some (mkDaemonRecord (r_SpoolID r) (RJson j))
             | _ => None
             end) recs.

(** The record as the controller decodes it. *)
Definition wire (e : spoolEntry) : DaemonRecord := mkDaemonRecord (e_SpoolID e) (e_Data e).

Definition json_entry (e : spoolEntry) : Prop := ∃ j, e_Data e = RJson j.

Lemma serve_records_json es :
  Forall json_entry es → serve_records (toRecords es) = Some (wire <$> es).
Proof.
  unfold serve_records, toRecords. induction 1 as [|e es [j Hj] _ IH]; [done|].
  rewrite fmap_cons. simpl in *. rewrite Hj. simpl. rewrite IH. simpl. unfold wire at 2. by rewrite Hj.
Qed.

(** ** Outages *)

Section outage.
  Context {S : Type} `{EventStore S} (slm : SLMPipeline) (times : DaemonRecord → Z * Z).

(** An iteration in which nothing can be reached. *)
Definition unreachable (env : @iter_env S) : Prop :=
  ie_slept env = true ∧ ie_cancelled env = false ∧ ie_poll_cancelled env = false ∧
  (∀ after, ie_records env after = None) ∧ ie_status env = None.

Fixpoint poll_run (p : Puller) (envs : list (@iter_env S)) (s : S) (mo : option Monitor) (a : Agent)
    : iteration :=
  match envs with
  | [] => (Some p, s, mo, a)
  | env :: rest =>
      match poll_iteration slm times p env s mo a with
      | (Some p', s', mo', a') => poll_run p' rest s' mo' a'
      | out => out
      end
  end.

(** The backoff after [k] failures in a row. *)
Definition backoff_after (k : nat) : Z := Z.min (2 ^ Z.of_nat k * second) pullBackoffCap.

(** What an outage leaves alone. *)
Definition untouched (a a' : Agent) : Prop :=
  a_hub a' = a_hub a ∧ a_fsm a' = a_fsm a ∧ a_status a' = a_status a ∧
  a_bootID a' = a_bootID a ∧ a_pendingRevive a' = a_pendingRevive a.

Lemma backoff_step k : Z.min (backoff_after k * 2) pullBackoffCap = backoff_after (Datatypes.S k).
Proof.
  unfold backoff_after. rewrite Nat2Z.inj_succ, Z.pow_succ_r by lia.
  unfold pullBackoffCap, second. lia.
Qed.

Lemma unreachable_step env k s mo a :
  unreachable env → Z.of_nat k + 1 ≤ i64_max →
  ∃ a', poll_iteration slm times (mkPuller (backoff_after k) (Z.of_nat k) false) env s mo a
    = (Some (mkPuller (backoff_after (Datatypes.S k)) (Z.of_nat (Datatypes.S k)) false), s, mo, a') ∧
    untouched a a' ∧ a_degraded a' = a_degraded a || (2 <=? Datatypes.S k)%nat.
Proof.
  intros (Hsl & Hc & Hpc & Hrec & Hst) Hk. unfold poll_iteration, count_failure.
  cbn [p_backoff p_failures]. rewrite backoff_step, i64_wrap_small by (unfold i64_min; lia).
  replace (Z.of_nat k + 1) with (Z.of_nat (Datatypes.S k)) by lia.
  assert (Hth : (degradedFailureThreshold <=? Z.of_nat (Datatypes.S k)) = (2 <=? Datatypes.S k)%nat).
  { unfold degradedFailureThreshold. destruct (Nat.leb_spec 2 (Datatypes.S k)),
      (Z.leb_spec 2 (Z.of_nat (Datatypes.S k))); try done; lia. }
  rewrite Hth, Hc, Hsl, Hpc. cbn [negb orb]. unfold preflight. rewrite Hst.
  destruct (daemonFor a (ie_resolve env)) as [[base|] a1] eqn:Ed; cycle 1.
  - unfold daemonFor in Ed. destruct (a_daemon a); [done|]. destruct (ie_resolve env); [done|].
    injection Ed as <-. eexists. split; [done|].
    destruct (2 <=? Datatypes.S k)%nat; (split; [done|]); simpl; by rewrite ?orb_true_r, ?orb_false_r.
  - rewrite Hrec.
    assert (Hu : untouched a a1 ∧ a_degraded a1 = a_degraded a)
      by (unfold daemonFor in Ed; repeat case_match; simplify_eq; done).
    destruct Hu as [Hu Hd]. set (b := (2 <=? Datatypes.S k)%nat).
    destruct (daemonFor (if b then _ else _) (ie_preflight env)) as [[base2|] a2] eqn:Ed2;
      (eexists; split; [done|]);
      (assert (untouched a a2 ∧ a_degraded a2 = a_degraded a || b) as [? ?];
       [unfold daemonFor in Ed2; destruct b; repeat case_match; simplify_eq;
        (split; [exact Hu|simpl; by rewrite ?orb_true_r, ?orb_false_r])|done]).
Qed.

Lemma unreachable_keeps env p s mo a :
  unreachable env →
  ∃ p' a', poll_iteration slm times p env s mo a = (Some p', s, mo, a') ∧
    untouched a a' ∧ p_pendingDeath p' = false.
Proof.
  intros (Hsl & Hc & Hpc & Hrec & Hst). unfold poll_iteration, count_failure.
  rewrite Hc, Hsl, Hpc. cbn [negb orb]. unfold preflight. rewrite Hst.
  destruct (daemonFor a (ie_resolve env)) as [[base|] a1] eqn:Ed; cycle 1.
  - unfold daemonFor in Ed. destruct (a_daemon a); [done|]. destruct (ie_resolve env); [done|].
    injection Ed as <-. by destruct (_ <=? _); eexists _, _.
  - rewrite Hrec. apply daemonFor_some in Ed as [d ->].
    destruct (daemonFor _ (ie_preflight env)) as [[base2|] a2] eqn:Ed2;
      (eexists _, a2; split; [done|]; split; [|done]);
      unfold daemonFor in Ed2; destruct (_ <=? _); repeat case_match; by simplify_eq.
Qed.

Lemma poll_run_unreachable p envs env s mo a :
  Forall unreachable envs → ∃ p' a',
    poll_run p (envs ++ [env]) s mo a = poll_iteration slm times p' env s mo a' ∧ untouched a a'.
Proof.
  intros Hun. revert p a. induction Hun as [|e envs He _ IH]; intros p a; cbn [app poll_run].
  - exists p, a. split; [|done].
    by destruct (poll_iteration slm times p env s mo a) as [[[[p'|] s'] mo'] a'].
  - destruct (unreachable_keeps e p s mo a He) as (p1 & a1 & -> & Hu1 & _).
    destruct (IH p1 a1) as (p2 & a2 & -> & Hu2). exists p2, a2. split; [done|].
    unfold untouched in *. intuition congruence.
Qed.

(** An outage backs off and shows.  When neither resolver nor daemon
    answers [k] times in a row, the pause has doubled from one second up to the
    thirty-second cap, the agent is degraded exactly from the second failure on,
    and log, session, status and boot identity are what they were. *)
Theorem outage_backs_off envs s mo a :
  Forall unreachable envs → Z.of_nat (length envs) ≤ i64_max →
  ∃ a', poll_run puller_init envs s mo a =
      (Some (mkPuller (backoff_after (length envs)) (Z.of_nat (length envs)) false), s, mo, a') ∧
    untouched a a' ∧ a_degraded a' = a_degraded a || (2 <=? length envs)%nat.
Proof.
  intros Hun Hlen.
  assert (Hgen : ∀ k a, Z.of_nat (k + length envs) ≤ i64_max →
    ∃ a', poll_run (mkPuller (backoff_after k) (Z.of_nat k) false) envs s mo a =
      (Some (mkPuller (backoff_after (k + length envs)) (Z.of_nat (k + length envs)) false), s, mo, a') ∧
    untouched a a' ∧
    a_degraded a' = a_degraded a || ((1 <=? length envs) && (2 <=? k + length envs))%nat).
  { clear Hlen a. induction Hun as [|env envs Henv _ IH]; intros k a Hk.
    - exists a. rewrite Nat.add_0_r. simpl. by rewrite orb_false_r.
    - cbn [poll_run length] in *.
      destruct (unreachable_step env k s mo a Henv) as (a1 & -> & Hu1 & Hd1); [lia|].
      destruct (IH (Datatypes.S k) a1) as (a2 & -> & Hu2 & Hd2); [lia|].
      replace (Datatypes.S k + length envs)%nat with (k + Datatypes.S (length envs))%nat by lia.
      exists a2. split; [done|]. split.
      + unfold untouched in *. intuition congruence.
      + rewrite Hd2, Hd1. destruct (a_degraded a); [done|]. cbn [orb].
        destruct (Nat.leb_spec 2 (Datatypes.S k)), (Nat.leb_spec 1 (length envs)),
          (Nat.leb_spec 2 (Datatypes.S k + length envs)),
          (Nat.leb_spec 1 (Datatypes.S (length envs))),
          (Nat.leb_spec 2 (k + Datatypes.S (length envs))); cbn; try done; lia. }
  destruct (Hgen 0%nat a ltac:(simpl; lia)) as (a' & Hr & Hu & Hd). exists a'.
  split; [exact Hr|]. split; [done|]. rewrite Hd. by destruct envs as [|? [|? ?]].
Qed.

End outage.

(** ** Delivery *)

(** A batch as it appears in the log: each record verbatim, possibly followed
    by the controller's reaction to it. *)
Inductive pulled : list DaemonRecord → list Event → Prop :=
| pulled_nil : pulled [] []
| pulled_cons rec d n recs react l :
    dr_Data rec = RJson d → reaction react → pulled recs l →
    pulled (rec :: recs) (mkEvent n (eventTypeOf (dr_Data rec)) (RJson d) :: react ++ l).

(** The records the daemon offers past a cursor: consecutive, all JSON. *)
Fixpoint offered (cursor : N) (recs : list DaemonRecord) : Prop :=
  match recs with
  | [] => True
  | rec :: rest =>
      dr_SpoolID rec = (cursor + 1)%N ∧ (cursor + 1 < u64_bound)%N ∧
      (∃ d, dr_Data rec = RJson d) ∧ offered (cursor + 1) rest
  end.

Lemma offered_drop es o :
  numbered es → Forall json_entry es → (N.of_nat (length es) + 1 < u64_bound)%N →
  offered (N.of_nat o) (wire <$> drop o es).
Proof.
  intros Hn Hj Hb. remember (length es - o)%nat as n eqn:En. revert o En.
  induction n as [|n IH]; intros o En; [rewrite drop_ge by lia; done|].
  destruct (lookup_lt_is_Some_2 es o) as [e He]; [lia|].
  rewrite (drop_S es e o He). cbn [fmap list_fmap offered wire dr_SpoolID dr_Data].
  rewrite (Hn o e He). split_and!; [done|lia|by eapply Forall_lookup_1 in Hj|].
  replace (N.of_nat o + 1)%N with (N.of_nat (Datatypes.S o)) by lia. apply IH. lia.
Qed.

Section delivery.
  Context {S : Type} `{EventStoreLaws S}.
  Context (alive : S → Prop) (Hacc : accepting alive).
  Context (slm : SLMPipeline) (times : DaemonRecord → Z * Z).

Implicit Types (s : S) (a : Agent).

Definition working_runs (a : Agent) : Prop :=
  a_status a = StatusWorking → f_state (a_fsm a) = SessionRunning.

Lemma pull_record_live s mo a rec d :
  live alive s (a_hub a) → room_for 3 s (a_hub a) → working_runs a →
  dr_Data rec = RJson d → (dr_SpoolID rec < u64_bound)%N → (Origin (a_hub a) < dr_SpoolID rec)%N →
  ∃ s' mo' a' n react, pull_record slm times s mo a rec = (true, s', mo', a') ∧
    extends alive s (a_hub a) s' (a_hub a')
      (mkEvent n (eventTypeOf (dr_Data rec)) (RJson d) :: react) ∧
    reaction react ∧ Origin (a_hub a') = dr_SpoolID rec ∧ working_runs a'.
Proof.
  intros Hl Hr Hw Hd Hid Ho. unfold pull_record. rewrite Hd.
  destruct (PublishPulled s (a_hub a) (RJson d) (dr_SpoolID rec)) as [[r s1] h1] eqn:Ep.
  apply (PublishPulled_live alive Hacc _ _ _ d) in Ep as ((n & ->) & Ho1 & Hex);
    [|done|unfold room_for in *; lia|done|done].
  rewrite decide_True in Hex by done.
  destruct (times rec) as [now pub].
  destruct (onPiRecord slm s1 mo (set_hub h1 a) (RJson d) now pub) as [[s2 mo2] a2] eqn:Er.
  pose proof (onPiRecord_cursor _ _ _ _ _ _ _ _ _ _ Er) as (_ & Ho2 & _).
  assert (Horg : Origin (a_hub a2) = dr_SpoolID rec).
  { unfold Origin in *. rewrite Ho2. cbn [a_hub set_hub set_hub_fsm]. lia. }
  apply (onPiRecord_live alive Hacc) in Er
    as [(_ & Hwk & h' & v & ev & -> & Hex2 & Ht & Hlen & Hv)|[-> ->]].
  - eexists _, _, _, _, (v ++ [ev]). split; [done|]. split_and!; [|..].
    + exact (extends_trans _ _ _ _ _ _ _ _ _ Hex Hex2).
    + split; [|rewrite length_app; simpl; lia]. apply Forall_app. split.
      * eapply Forall_impl; [exact Hv|]. by left.
      * constructor; [by right|constructor].
    + done.
    + unfold working_runs. done.
  - eexists _, _, _, _, []. split; [done|]. split_and!; [done| |done|done].
    split; [constructor|simpl; lia].
  - apply Hex.
  - eapply (extends_room _ 2 1); [exact Hex|done|simpl; lia].
  - exact Hw.
Qed.

Lemma pull_batch_live s mo a recs :
  live alive s (a_hub a) → room_for (3 * N.of_nat (length recs)) s (a_hub a) → working_runs a →
  offered (Origin (a_hub a)) recs →
  ∃ s' mo' a' l, pull_batch slm times s mo a recs = (true, s', mo', a') ∧
    extends alive s (a_hub a) s' (a_hub a') l ∧ pulled recs l ∧ working_runs a' ∧
    Origin (a_hub a') = (Origin (a_hub a) + N.of_nat (length recs))%N.
Proof.
  revert s mo a. induction recs as [|rec recs IH]; intros s mo a Hl Hr Hw Hoff.
  { eexists _, _, _, []. split; [done|].
    split_and!; [by apply extends_refl|constructor|done|simpl; lia]. }
  destruct Hoff as (Hid & Hb & (d & Hd) & Hrest). cbn [length] in Hr.
  destruct (pull_record_live s mo a rec d) as (s1 & mo1 & a1 & n & react & E & Hex & Hre & Ho & Hw1);
    [done|unfold room_for in *; lia|done|done|lia|lia|].
  destruct (IH s1 mo1 a1) as (s2 & mo2 & a2 & l & E2 & Hex2 & Hp & Hw2 & Ho2).
  - apply Hex.
  - eapply (extends_room _ _ 3); [exact Hex|unfold room_for in *; lia|].
    destruct Hre as [_ Hre]. simpl. lia.
  - done.
  - by rewrite Ho, Hid.
  - eexists _, _, _, _. cbn [pull_batch]. rewrite E. split; [exact E2|].
    split_and!; [exact (extends_trans _ _ _ _ _ _ _ _ _ Hex Hex2)|by constructor|done|].
    rewrite Ho2, Ho, Hid. cbn [length]. lia.
Qed.

(** The records as events, with nothing in between. *)
Definition verbatim (recs : list DaemonRecord) (l : list Event) : Prop :=
  Forall2 (λ rec ev, Typ ev = eventTypeOf (dr_Data rec) ∧ Data ev = dr_Data rec) recs l.

(** An agent that is not working only stores what is pulled. *)
Lemma pull_batch_dormant s mo a recs :
  live alive s (a_hub a) → room_for (3 * N.of_nat (length recs)) s (a_hub a) →
  a_status a ≠ StatusWorking → offered (Origin (a_hub a)) recs →
  ∃ s' mo' h' l, pull_batch slm times s mo a recs = (true, s', mo', set_hub h' a) ∧
    extends alive s (a_hub a) s' h' l ∧ verbatim recs l.
Proof.
  revert s mo a. induction recs as [|rec recs IH]; intros s mo a Hl Hr Hw Hoff.
  { eexists s, mo, (a_hub a), []. split; [by destruct a|]. split; [by apply extends_refl|constructor]. }
  destruct Hoff as (Hid & Hb & (d & Hd) & Hrest). cbn [length] in Hr.
  cbn [pull_batch]. unfold pull_record. rewrite Hd.
  destruct (PublishPulled s (a_hub a) (RJson d) (dr_SpoolID rec)) as [[r s1] h1] eqn:Ep.
  apply (PublishPulled_live alive Hacc _ _ _ d) in Ep as ((n & ->) & Ho1 & Hex);
    [|done|unfold room_for in *; lia|lia|done].
  rewrite decide_True in Hex by (unfold Origin in Hid; lia).
  destruct (times rec) as [now pub].
  destruct (onPiRecord slm s1 mo (set_hub h1 a) (RJson d) now pub) as [[s2 mo2] a2] eqn:Er.
  assert (room_for (3 * N.of_nat (length recs) + 2) s1 h1) as Hr1.
  { eapply (extends_room _ _ 1); [exact Hex|unfold room_for in *; lia|simpl; lia]. }
  apply (onPiRecord_live alive Hacc) in Er as [(_ & Hwk & _)|[-> ->]];
    [done| |apply Hex|unfold room_for in *; simpl; lia|by intros Hk; simpl in Hk].
  destruct (IH s1 mo2 (set_hub h1 a)) as (s3 & mo3 & h3 & l & E3 & Hex3 & Hv).
  - apply Hex.
  - unfold room_for in *. simpl. lia.
  - done.
  - replace (Origin (a_hub (set_hub h1 a))) with (Origin (a_hub a) + 1)%N; [done|].
    unfold Origin in *. simpl. lia.
  - eexists s3, mo3, h3, _. split; [exact E3|].
    split; [exact (extends_trans _ _ _ _ _ _ _ _ _ Hex Hex3)|]. constructor; [by rewrite Hd|done].
Qed.

(** A poll that reaches the daemon and is not interrupted. *)
Definition answered (cursor : N) (env : @iter_env S) (recs : list DaemonRecord) : Prop :=
  is_Some (ie_resolve env) ∧ ie_cancelled env = false ∧ ie_poll_cancelled env = false ∧
  ie_records env cursor = Some recs ∧ offered cursor recs.

(** C12. A revive is completed by the first successful poll.  On a store that accepts
    every append, let the agent, paused and not working, be marked by
    [armPendingRevive] and the puller run: after any number of polls in which nothing
    could be reached, the first poll that the daemon answers appends the records it
    delivers, [agent.revived] and the closing [agent.settled].  The session is then
    idle, the agent ready and willing to take a prompt, the mark is cleared, the
    attempt is closed in the ledger without a refund, and the puller goes on
    without backoff. *)
Theorem revive_completes p envs env recs s mo a :
  live alive s (a_hub a) → f_state (a_fsm a) = SessionPaused → a_status a ≠ StatusWorking →
  Forall unreachable envs → answered (Origin (a_hub a)) env recs →
  room_for (3 * N.of_nat (length recs) + 2) s (a_hub a) →
  ∃ s' mo' a' l ev1 ev2,
    poll_run slm times p (envs ++ [env]) s mo (armPendingRevive a) =
      (Some (mkPuller pullBackoffBase 0 false), s', mo', a') ∧
    agent_log s' a' = agent_log s a ++ l ++ [ev1; ev2] ∧ verbatim recs l ∧
    Typ ev1 = lifecycleRevived ∧ Typ ev2 = lifecycleSettled ∧
    f_state (a_fsm a') = SessionIdle ∧ a_status a' = StatusReady ∧ prompt_gate a' = None ∧
    a_pendingRevive a' = false ∧
    let led := reviveLedgerFromEvents (agent_log s a ++ l) in
    reviveLedgerFromEvents (agent_log s' a') = mkLedger (used led) (lastAttempt led) false.
Proof.
  intros Hl Hpa Hw Hun ((base & Hres) & Hc & Hpc & Hrec & Hoff) Hr.
  destruct (poll_run_unreachable slm times p envs env s mo (armPendingRevive a) Hun)
    as (p' & b & -> & Hh & Hf & Hst & _ & Hpr).
  unfold poll_iteration. rewrite Hc, Hpc, Hres. cbn [orb].
  assert (∃ base' d, daemonFor b (Some base) = (Some base', set_daemon d b)) as (base' & d & ->).
  { unfold daemonFor. destruct (a_daemon b) eqn:Ed; [|by eexists _, _].
    exists s0, (a_daemon b). by destruct b. }
  cbn [a_hub set_daemon]. rewrite Hh. cbn [a_hub armPendingRevive set_pendingRevive]. rewrite Hrec.
  destruct (pull_batch_dormant s mo (set_degraded false (set_daemon d b)) recs)
    as (s1 & mo1 & h1 & l & -> & Hex & Hv); cbn [a_hub a_status set_degraded set_daemon];
    rewrite ?Hh, ?Hst; [done|unfold room_for in *; simpl; lia|done..|].
  cbn [a_hub set_degraded set_daemon] in Hex. rewrite Hh in Hex.
  cbn [a_hub armPendingRevive set_pendingRevive negb andb] in *.
  set (a1 := set_hub h1 _). destruct (completeRevive s1 a1) as [s2 a2] eqn:Ec.
  destruct Hex as ((Ha1 & Hs1 & Hc1) & _ & Hlog).
  pose proof (Forall2_length _ _ _ Hv) as Hlen.
  pose proof (completeRevive_spec alive s1 a1 s2 a2 Hacc Ha1 Hs1 Hc1) as Hspec.
  rewrite decide_True in Hspec by (subst a1; simpl; by rewrite Hpr, Hf).
  destruct Hspec as ((ev1 & ev2 & Hlog2 & Ht1 & Ht2) & Hi & Hrd & Hg & Hpd & Hled); [|done|].
  { unfold room_for, agent_log, log_len in *. subst a1. simpl. rewrite Hlog, length_app. lia. }
  assert (Hl1 : agent_log s1 a1 = agent_log s a ++ l) by done.
  rewrite Hl1 in Hlog2, Hled. rewrite <-app_assoc in Hlog2.
  exists s2, mo1, a2, l, ev1, ev2. by split_and!.
Qed.

(** C7. A drain delivers everything, once, in order.  Against a daemon whose
    spool still has all records past the controller's cursor, and a store that
    accepts, [drainSpool] ends after at most two requests and succeeds; the log
    has grown by exactly the spool's records past the cursor, verbatim, in spool
    order, each once, with only the controller's reactions in between; and the
    cursor is at the end of the spool. *)
Theorem drain_delivers sp es s mo a :
  live alive s (a_hub a) → working_runs a → spool_inv sp es → Forall json_entry es →
  (length es - length (sp_recs sp) ≤ N.to_nat (Origin (a_hub a)) ≤ length es)%nat →
  room_for (3 * N.of_nat (length es)) s (a_hub a) →
  ∃ s' mo' a' l,
    drain_loop slm times 2 0 (λ _ after, serve_records (Spool.Read sp after 0 sp)) s mo a
      = Some (true, s', mo', a') ∧
    agent_log s' a' = agent_log s a ++ l ∧
    pulled (wire <$> drop (N.to_nat (Origin (a_hub a))) es) l ∧
    Origin (a_hub a') = N.of_nat (length es).
Proof.
  intros Hl Hw Hsp Hj Hc Hr.
  assert (Hfetch : ∀ after, (length es - length (sp_recs sp) ≤ N.to_nat after)%nat →
    serve_records (Spool.Read sp after 0 sp) = Some (wire <$> drop (N.to_nat after) es)).
  { intros after Ha. rewrite (Read_served _ _ _ _ _ _ Hsp Hsp). unfold served.
    rewrite Nat.max_r by done. cbn [Z.leb Z.compare].
    destruct (drop (N.to_nat after) es) eqn:Ed; [done|]. rewrite <-Ed.
    apply serve_records_json. by apply Forall_drop. }
  cbn [drain_loop]. rewrite Hfetch by lia. set (o := N.to_nat (Origin (a_hub a))) in *.
  destruct (wire <$> drop o es) as [|rec recs] eqn:Erecs.
  { eexists _, _, _, []. split; [done|]. rewrite app_nil_r. split_and!; [done|constructor|].
    apply (f_equal length) in Erecs. rewrite length_fmap, length_drop in Erecs. simpl in Erecs. lia. }
  rewrite <-Erecs.
  destruct (pull_batch_live s mo a (wire <$> drop o es)) as (s1 & mo1 & a1 & l & -> & Hex & Hp & Hw1 & Ho1).
  - done.
  - unfold room_for in *. rewrite length_fmap, length_drop. lia.
  - done.
  - replace (Origin (a_hub a)) with (N.of_nat o) by lia.
    apply offered_drop; [apply Hsp|done|apply Hsp].
  - rewrite length_fmap, length_drop in Ho1. rewrite Hfetch by lia.
    rewrite (drop_ge es) by lia. eexists _, _, _, l. split; [done|].
    split_and!; [apply Hex|done|lia].
Qed.

End delivery.

(** ** Concrete runs *)

Definition ex_dead_env : @iter_env MemDB :=
  mkIter true None false (λ _, None) false None None 0 (λ _ _, None) 0 0 [] ex_hold.

Lemma outage_backs_off_witness :
  ∃ a', poll_run ex_slm (λ _, (0, 0)) puller_init [ex_dead_env; ex_dead_env; ex_dead_env]
      mem_empty None ex_working = (Some (mkPuller (8 * second) 3 false), mem_empty, None, a') ∧
    a_degraded a' = true.
Proof.
  destruct (outage_backs_off ex_slm (λ _, (0, 0)) [ex_dead_env; ex_dead_env; ex_dead_env]
    mem_empty None ex_working) as (a' & Hr & _ & Hd).
  - repeat constructor.
  - vm_compute. discriminate.
  - exists a'. split; [exact Hr|]. rewrite Hd. reflexivity.
Defined.

(** After two failed polls the daemon delivers one record. *)
Definition ex_first_record : DaemonRecord :=
  mkDaemonRecord 1 (RJson (JObj [("type"%string, JStr "pi.started")])).

Definition ex_answer_env : @iter_env MemDB :=
  mkIter true (Some "http://daemon"%string) false (λ _, Some [ex_first_record]) false None None 0
    (λ _ _, None) 0 0 [] ex_hold.

Lemma revive_completes_witness :
  ∃ s' mo' a', poll_run ex_slm (λ _, (0, 0)) puller_init [ex_dead_env; ex_dead_env; ex_answer_env]
      ex_paused_store None (armPendingRevive (ex_paused [])) = (Some puller_init, s', mo', a') ∧
    f_state (a_fsm a') = SessionIdle ∧ prompt_gate a' = None.
Proof.
  destruct (revive_completes mem_alive mem_accepting ex_slm (λ _, (0, 0)) puller_init
    [ex_dead_env; ex_dead_env] ex_answer_env [ex_first_record] ex_paused_store None (ex_paused []))
    as (s' & mo' & a' & _ & _ & _ & Hr & _ & _ & _ & _ & Hi & _ & Hg & _).
  - split; [split; vm_compute; reflexivity|]. split; [exact ex_paused_sync|vm_compute; reflexivity].
  - vm_compute. reflexivity.
  - vm_compute. discriminate.
  - repeat constructor.
  - split; [by eexists|]. split; [reflexivity|]. split; [reflexivity|]. split; [reflexivity|].
    split; [vm_compute; reflexivity|]. split; [vm_compute; reflexivity|]. split; [by eexists|exact I].
  - vm_compute. reflexivity.
  - exists s', mo', a'. split; [exact Hr|]. split; [exact Hi|exact Hg].
Defined.

Definition ex_entries : list spoolEntry :=
  [Spool.mkEntry 1 (ex_record "message"); Spool.mkEntry 2 (ex_record piSettledEventType)].

Definition ex_full_spool : Spool :=
  mkSpool (mkFile (LEntry <$> ex_entries) None) 3 100 ex_entries.

Lemma ex_full_spool_inv : spool_inv ex_full_spool ex_entries.
Proof.
  split; [done| |done|by exists 0%nat|done|vm_compute; reflexivity].
  intros [|[|i]] e; simpl; intros [= <-]; done.
Qed.

Lemma ex_working_live : live mem_alive ex_running.1.1 (a_hub ex_working).
Proof.
  split; [split; vm_compute; reflexivity|]. split; [apply ex_running_sync|vm_compute; reflexivity].
Qed.

Lemma drain_delivers_witness :
  ∃ s' mo' a' l,
    drain_loop ex_slm (λ _, (0, 0)) 2 0 (λ _ after, serve_records (Spool.Read ex_full_spool after 0 ex_full_spool))
      ex_running.1.1 None ex_working = Some (true, s', mo', a') ∧
    pulled (wire <$> ex_entries) l ∧ Origin (a_hub a') = 2%N.
Proof.
  destruct (drain_delivers mem_alive mem_accepting ex_slm (λ _, (0, 0)) ex_full_spool ex_entries
    ex_running.1.1 None ex_working) as (s' & mo' & a' & l & E & _ & Hp & Ho).
  - exact ex_working_live.
  - intros _. vm_compute. reflexivity.
  - exact ex_full_spool_inv.
  - repeat constructor; eexists; reflexivity.
  - split; vm_compute; lia.
  - vm_compute. reflexivity.
  - exists s', mo', a', l. split; [exact E|]. split; [exact Hp|exact Ho].
Defined.
