(* ===== verification/EndToEnd.v ===== *)
(** * From the spool to the log

    The daemon's spool, the pull loop and the event log as one system: the
    daemon appends and dies, its window drops old records, the controller pulls,
    publishes events of its own, fails to append, crashes between any two steps
    and restarts.  A labelled step relation over the operations of the two
    programs, the label being the ids a pull passed over because the window had
    dropped them; and the invariant that every other record of the spool enters
    the log exactly once. *)

From Stdlib Require Import String ZArith.
From S2P Require Import Spool.
From S2P Require Import Prelude Json GoTime GoStrings Bolt EventStore EventHub Fsm Monitor Config.
From S2P Require Import Agent Manager Registry Revive Live Puller.
From stdpp Require Import base list strings numbers gmap relations.
Local Open Scope N_scope.

(** ** Merging two sequences *)

(** [out] consists of [l] and [r], each in its order. *)
Inductive interleaved {A : Type} : list A → list A → list A → Prop :=
| interleaved_nil : interleaved [] [] []
| interleaved_left l r out x : interleaved l r out → interleaved (l ++ [x]) r (out ++ [x])
| interleaved_right l r out x : interleaved l r out → interleaved l (r ++ [x]) (out ++ [x]).

Lemma interleaved_lefts {A} (l r out m : list A) : interleaved l r out → interleaved (l ++ m) r (out ++ m).
Proof.
  induction m as [|x m IH] using rev_ind; intros Hi; [by rewrite !app_nil_r|].
  rewrite !app_assoc. by apply interleaved_left, IH.
Qed.

(** ** The system *)

(** The event types the controller itself writes. *)
Definition own_types : list string :=
  [lifecycleProvisioned; lifecycleStarted; lifecycleTurnStarted; lifecycleSettled;
   lifecycleFailed; lifecyclePaused; lifecycleRevived; lifecycleTerminated; EventTypeAssessed;
   reviveConsumedEventType; agentResumedEventType; reviveAbandonedEventType;
   daemonBootEventType].

Record system {S : Type} : Type := mkSystem {
  sy_spool : Spool;
  sy_store : S;
  sy_mon : option Monitor;
  sy_agent : Agent
}.
Arguments system : clear implicits.
Arguments mkSystem {_} _ _ _ _.

(** The ids after [o] up to [o']. *)
Definition ids (o o' : N) : list N := (λ k, o + 1 + N.of_nat k) <$> seq 0 (N.to_nat (o' - o)).

(** How many records lie before the window. *)
Definition window_start (sp : Spool) : N := sp_next sp - 1 - N.of_nat (length (sp_recs sp)).

(** The ids a cursor that moves from [o] to [o'] passes over, since the window begins
    after them. *)
Definition passed_over (start o o' : N) : list N := filter (λ i, i ≤ start) (ids o o').

Section system.
  Context {S : Type} `{EventStoreLaws S}.
  Context (slm : SLMPipeline) (times : DaemonRecord → Z * Z).

(** The records the daemon serves at the controller's cursor. *)
Definition served_now (sp : Spool) (a : Agent) : option (list DaemonRecord) :=
  serve_records (Spool.Read sp (Origin (a_hub a)) 0 sp).

(** What the daemon spools is JSON. *)
Definition json_data (d : RawMessage) : Prop := ∃ j, d = RJson j.

Inductive sys_step : system S → list N → system S → Prop :=
| step_spool sp s mo a d o1 o2 r sp' :
    json_data d → clean o1 → clean o2 → sp_next sp + 2 < u64_bound →
    Spool.Append sp d o1 o2 = Some (r, sp') →
    sys_step (mkSystem sp s mo a) [] (mkSystem sp' s mo a)
| step_daemon_death sp s mo a torn sp' :
    spool_step sp (SCrash torn) = Some sp' →
    sys_step (mkSystem sp s mo a) [] (mkSystem sp' s mo a)
| step_pull sp s mo a recs k b s' mo' a' :
    served_now sp a = Some recs →
    log_len (agent_log s a) + 3 * N.of_nat (length recs) + 3 < u64_bound →
    pull_batch slm times s mo a (take k recs) = (b, s', mo', a') →
    sys_step (mkSystem sp s mo a) (passed_over (window_start sp) (Origin (a_hub a)) (Origin (a_hub a')))
      (mkSystem sp s' mo' a')
| step_append_only sp s mo a rec recs r s' h' :
    served_now sp a = Some (rec :: recs) → room s (a_hub a) →
    PublishPulled s (a_hub a) (dr_Data rec) (dr_SpoolID rec) = (r, s', h') →
    sys_step (mkSystem sp s mo a) (passed_over (window_start sp) (Origin (a_hub a)) (Origin h'))
      (mkSystem sp s' mo (set_hub h' a))
| step_publish sp s mo a t fs r s' a' :
    t ∈ own_types → room s (a_hub a) → agent_publish s a t fs = (r, s', a') →
    sys_step (mkSystem sp s mo a) [] (mkSystem sp s' mo a')
| step_transition sp s mo a next t fs r s' a' :
    t ∈ own_types → room s (a_hub a) → agent_transition s a next t fs = (r, s', a') →
    sys_step (mkSystem sp s mo a) [] (mkSystem sp s' mo a')
| step_memory sp s mo a mo' a' :
    a_hub a' = a_hub a → sys_step (mkSystem sp s mo a) [] (mkSystem sp s mo' a')
| step_close sp s mo a :
    sys_step (mkSystem sp s mo a) [] (mkSystem sp s mo (set_hub (Close (a_hub a)) a))
| step_restart sp s mo a h' mo' a' :
    NewEventHub s (h_agentID (a_hub a)) = Ok h' → a_hub a' = h' →
    sys_step (mkSystem sp s mo a) [] (mkSystem sp s mo' a').

(** A run, with everything its pulls passed over. *)
Inductive sys_run : system S → list N → system S → Prop :=
| run_done st : sys_run st [] st
| run_step st l st1 ls st' : sys_step st l st1 → sys_run st1 ls st' → sys_run st (l ++ ls) st'.

(** ** Exactly once *)

(** What of an event or an entry must agree. *)
Definition event_payload (ev : Event) : string * RawMessage := (Typ ev, Data ev).
Definition entry_payload (e : spoolEntry) : string * RawMessage := (eventTypeOf (e_Data e), e_Data e).

Definition kept (lost : list N) (es : list spoolEntry) : list spoolEntry := filter (λ e, e_SpoolID e ∉ lost) es.

(** The log is the controller's own events and the spool's file up to the cursor but
    for what was lost, each in its order. *)
Record delivered (lost : list N) (es : list spoolEntry) (s : S) (a : Agent) : Prop := mkDelivered {
  dl_sync : hub_sync s (a_hub a);
  dl_cursor : Origin (a_hub a) ≤ N.of_nat (length es);
  dl_lost : Forall (λ i, i ≤ Origin (a_hub a)) lost;
  dl_log : ∃ own, Forall (λ ev, Typ ev ∈ own_types) own ∧
    interleaved (event_payload <$> own) (entry_payload <$> kept lost (take (N.to_nat (Origin (a_hub a))) es))
      (event_payload <$> agent_log s a)
}.

Definition sys_inv (lost : list N) (st : system S) : Prop :=
  ∃ es, spool_inv (sy_spool st) es ∧ Forall (λ e, json_data (e_Data e)) es ∧
    delivered lost es (sy_store st) (sy_agent st).

(** *** Ids *)

Lemma ids_elem o o' i : i ∈ ids o o' ↔ o < i ≤ o'.
Proof.
  unfold ids. rewrite list_elem_of_fmap. split.
  - intros (k & -> & Hk%elem_of_seq). lia.
  - intros Hi. exists (N.to_nat (i - o - 1)). split; [lia|]. apply elem_of_seq. lia.
Qed.

Lemma ids_app o o1 o' : o ≤ o1 → o1 ≤ o' → ids o o1 ++ ids o1 o' = ids o o'.
Proof.
  intros H1 H2. unfold ids. replace (N.to_nat (o' - o)) with (N.to_nat (o1 - o) + N.to_nat (o' - o1))%nat by lia.
  rewrite seq_app, fmap_app. f_equal. rewrite Nat.add_comm, <-fmap_add_seq, <-list_fmap_compose.
  apply list_fmap_ext. intros i x _. cbn. lia.
Qed.

Lemma ids_same o : ids o o = [].
Proof. unfold ids. by rewrite N.sub_diag. Qed.

Lemma passed_over_elem start o o' i : i ∈ passed_over start o o' ↔ o < i ≤ o' ∧ i ≤ start.
Proof. unfold passed_over. rewrite list_elem_of_filter, ids_elem. tauto. Qed.

Lemma passed_over_same start o : passed_over start o o = [].
Proof. unfold passed_over. by rewrite ids_same. Qed.

Lemma passed_over_app start o o1 o' : o ≤ o1 → o1 ≤ o' →
  passed_over start o o1 ++ passed_over start o1 o' = passed_over start o o'.
Proof. intros H1 H2. unfold passed_over. by rewrite <-filter_app, ids_app. Qed.

(** A cursor that is not behind the window loses nothing. *)
Lemma covered_loses_nothing start o o' : start ≤ o → passed_over start o o' = [].
Proof.
  intros Hs. destruct (passed_over start o o') as [|i l] eqn:E; [done|].
  assert (i ∈ passed_over start o o') as Hi%passed_over_elem by (rewrite E; left). lia.
Qed.

(** *** Keeping the delivery *)

(** Appending events of the controller's own. *)
Lemma delivered_own lost es s a s' a' l :
  delivered lost es s a → hub_sync s' (a_hub a') → Origin (a_hub a') = Origin (a_hub a) →
  agent_log s' a' = agent_log s a ++ l → Forall (λ ev, Typ ev ∈ own_types) l → delivered lost es s' a'.
Proof.
  intros [Hs Hc Hlo (own & Ho & Hl)] Hs' Hor Hlog Hown. split; [done|by rewrite Hor|by rewrite Hor|].
  exists (own ++ l). split; [by apply Forall_app|]. rewrite Hlog, Hor, !fmap_app. by apply interleaved_lefts.
Qed.

(** What is kept when the cursor reaches the entry at [q], everything between having been
    passed over. *)
Lemma kept_next lost es start o q e :
  numbered es → Forall (λ i, i ≤ o) lost → es !! N.to_nat q = Some e → q = N.max start o →
  kept (lost ++ passed_over start o (q + 1)) (take (N.to_nat (q + 1)) es) =
  kept lost (take (N.to_nat o) es) ++ [e].
Proof.
  intros Hn Hlo He Hq. replace (N.to_nat (q + 1)) with (Datatypes.S (N.to_nat q)) by lia.
  pose proof (lookup_lt_Some _ _ _ He) as Hlen. rewrite (take_S_r _ _ _ He).
  assert (take (N.to_nat q) es = take (N.to_nat o) es ++ take (N.to_nat q - N.to_nat o) (drop (N.to_nat o) es)) as ->.
  { rewrite <-(take_drop (N.to_nat o) (take (N.to_nat q) es)), take_take, skipn_firstn_comm. f_equal. f_equal. lia. }
  unfold kept. rewrite !filter_app. f_equal; [|].
  - rewrite <-(app_nil_r (filter (λ e, e_SpoolID e ∉ lost) _)). f_equal.
    + apply filter_agree, Forall_lookup. intros i x [Hx Hi]%lookup_take_Some. apply Hn in Hx.
      rewrite not_elem_of_app, passed_over_elem. split; [tauto|]. split; [done|]. lia.
    + apply filter_none, Forall_lookup. intros i x [Hx Hi]%lookup_take_Some. rewrite lookup_drop in Hx. apply Hn in Hx.
      rewrite not_elem_of_app, passed_over_elem. intros [_ Hno]. apply Hno. lia.
  - rewrite filter_cons_True, filter_nil; [done|]. apply Hn in He.
    rewrite not_elem_of_app, passed_over_elem. split; [|lia]. intros Hin. rewrite Forall_forall in Hlo. apply Hlo in Hin. lia.
Qed.

(** A pull of the next entry the window has. *)
Lemma delivered_pulled lost es start s a e q r s' h' :
  delivered lost es s a → numbered es → room s (a_hub a) → es !! N.to_nat q = Some e →
  q = N.max start (Origin (a_hub a)) → q + 1 < u64_bound → json_data (e_Data e) →
  PublishPulled s (a_hub a) (e_Data e) (e_SpoolID e) = (r, s', h') →
  delivered (lost ++ passed_over start (Origin (a_hub a)) (Origin h')) es s' (set_hub h' a) ∧
  (Origin h' = q + 1 ∨ (Origin h' = Origin (a_hub a) ∧ (is_ok r = false ∨ h_closed h' = true))).
Proof.
  intros Hd Hn Hr He Hq Hb (j & Hj) E. destruct Hd as [Hs Hc Hlo (own & Hown & Hl)].
  assert (Hid : e_SpoolID e = q + 1) by (apply Hn in He; lia).
  assert (Hidb : e_SpoolID e < u64_bound) by (by rewrite Hid).
  pose proof (PublishPulled_effect _ _ _ _ _ _ _ Hs Hr Hidb E) as Heff.
  destruct (pub_effect_sync _ _ _ _ _ Hs Heff) as [Hs' Hid'].
  assert (Hsame : set_hub (a_hub a) a = a) by by destruct a.
  apply PublishPulled_spec in E as
    [(Hcl & -> & -> & ->)|[(_ & Hle & _)|[(_ & _ & Hr' & -> & Hi & Habs)|(ev & ev' & _ & _ & -> & -> & Hst & _ & Habs & Hh')]]];
    [| | | |done..].
  - rewrite Hsame, passed_over_same, app_nil_r. split; [|by right; auto]. split; eauto.
  - unfold Origin in *. lia.
  - rewrite Hsame, passed_over_same, app_nil_r. split; [|by right; auto].
    split; [done..|]. exists own. split; [done|]. unfold agent_log, log_of in *. by rewrite Habs.
  - assert (Ho : Origin h' = q + 1) by (rewrite Hh'; exact Hid).
    assert (Hid2 : h_agentID h' = h_agentID (a_hub a)) by done. clear Hh' Heff.
    split; [|by left].
    unfold stored in Hst. simpl in Hst. rewrite Hj in Hst. simpl in Hst. injection Hst as <-.
    assert (Hlog : agent_log s' (set_hub h' a) = agent_log s a ++
        [mkEvent (log_len (log_of s (a_hub a)) + 1) (eventTypeOf (RJson j)) (RJson j)]).
    { unfold agent_log, log_of. simpl. rewrite Hid2, (Habs _ (proj1 (proj2 Hs))). unfold abs_append.
      by rewrite decide_True. }
    split; cbn [a_hub set_hub set_hub_fsm]; [done| | |].
    + rewrite Ho. apply lookup_lt_Some in He. lia.
    + rewrite Ho. apply Forall_app. split.
      * eapply Forall_impl; [exact Hlo|]. cbn. lia.
      * apply Forall_forall. intros i Hi%passed_over_elem. lia.
    + exists own. split; [done|]. rewrite Hlog, Ho, (kept_next lost es start (Origin (a_hub a)) q e) by done.
      rewrite !fmap_app. cbn. unfold entry_payload at 2, event_payload at 3. rewrite Hj. cbn.
      by apply interleaved_right.
Qed.

Lemma own_settled ev : Typ ev = lifecycleSettled → Typ ev ∈ own_types.
Proof. intros ->. by apply (bool_decide_unpack _). Qed.

Lemma own_assessed ev : Typ ev = EventTypeAssessed → Typ ev ∈ own_types.
Proof. intros ->. by apply (bool_decide_unpack _). Qed.

(** The reaction to a record keeps the delivery. *)
Lemma delivered_reaction lost es s mo a raw now pub s' mo' a' :
  delivered lost es s a → log_len (agent_log s a) + 2 < u64_bound →
  onPiRecord slm s mo a raw now pub = (s', mo', a') →
  delivered lost es s' a' ∧ same_cursor (a_hub a) (a_hub a') ∧
  log_len (agent_log s' a') ≤ log_len (agent_log s a) + 2.
Proof.
  intros Hd Hr E. pose proof (onPiRecord_cursor _ _ _ _ _ _ _ _ _ _ E) as Hcur.
  apply onPiRecord_log in E as [(_ & -> & ->)|(_ & _ & h' & f' & v & t & -> & Hs' & _ & Hl & Hlen & Hv & Ht)];
    [| |apply Hd|done].
  { split_and!; [done..|lia]. }
  assert (Hown : Forall (λ ev, Typ ev ∈ own_types) (v ++ t) ∧ (length (v ++ t) ≤ 2)%nat).
  { rewrite Forall_app, length_app. destruct Ht as [[-> _]|(_ & ev & -> & Hev)]; simpl.
    - split_and!; [eapply Forall_impl; [exact Hv|apply own_assessed]|constructor|lia].
    - split_and!; [eapply Forall_impl; [exact Hv|apply own_assessed]| |lia].
      constructor; [by apply own_settled|constructor]. }
  destruct Hown as [Hown Hlen2]. split_and!; [|done|].
  - eapply delivered_own; [done|done|apply Hcur|exact Hl|done].
  - unfold agent_log at 1. cbn [a_hub set_hub_fsm set_status]. rewrite Hl. unfold log_len.
    rewrite length_app. lia.
Qed.

(** One record of a batch, at [q] in the file: appended and reacted to. *)
Lemma delivered_record lost es start s mo a e q b s' mo' a' :
  delivered lost es s a → numbered es → log_len (agent_log s a) + 3 < u64_bound →
  es !! N.to_nat q = Some e → q + 1 < u64_bound → json_data (e_Data e) →
  (q = N.max start (Origin (a_hub a)) ∨ h_closed (a_hub a) = true) →
  pull_record slm times s mo a (wire e) = (b, s', mo', a') →
  delivered (lost ++ passed_over start (Origin (a_hub a)) (Origin (a_hub a'))) es s' a' ∧
  log_len (agent_log s' a') ≤ log_len (agent_log s a) + 3 ∧
  Origin (a_hub a) ≤ Origin (a_hub a') ∧
  (b = true → (Origin (a_hub a') = q + 1 ∧ start ≤ q) ∨ h_closed (a_hub a') = true).
Proof.
  intros Hd Hn Hr He Hb Hj Hcase. unfold pull_record. cbn [wire dr_Data dr_SpoolID].
  destruct (PublishPulled s (a_hub a) (e_Data e) (e_SpoolID e)) as [[r s1] h1] eqn:Ep.
  assert (Hid : e_SpoolID e = q + 1) by (apply Hn in He; lia).
  assert (Hpub : delivered (lost ++ passed_over start (Origin (a_hub a)) (Origin h1)) es s1 (set_hub h1 a) ∧
    log_len (agent_log s1 (set_hub h1 a)) ≤ log_len (agent_log s a) + 1 ∧ Origin (a_hub a) ≤ Origin h1 ∧
    (is_ok r → (Origin h1 = q + 1 ∧ start ≤ q) ∨ h_closed h1 = true)).
  { assert (Hroom : room s (a_hub a)) by (unfold room, agent_log in *; lia).
    assert (Heff : pub_effect (record_event (e_Data e)) s (a_hub a) s1 h1)
      by (eapply PublishPulled_effect; [apply Hd|done| |exact Ep]; lia).
    assert (Hgrow : log_len (log_of s1 h1) ≤ log_len (agent_log s a) + 1).
    { apply pub_effect_log in Heff as [->|(ev & ev' & _ & _ & -> & _)]; [unfold agent_log; lia| |apply Hd].
      unfold agent_log, log_len. rewrite length_app. simpl. lia. }
    destruct Hcase as [Ho|Hcl].
    - eapply (delivered_pulled lost es start s a e q) in Ep as [Hd1 Hor]; [|done..].
      split_and!; [done|done|destruct Hor as [->|[-> _]]; lia|].
      intros Hok. destruct Hor as [->|(_ & [Hno|?])]; [left; lia| |by right]. by rewrite Hno in Hok.
    - unfold PublishPulled in Ep. rewrite Hcl in Ep. injection Ep as <- <- <-.
      assert (set_hub (a_hub a) a = a) as -> by by destruct a. rewrite passed_over_same, app_nil_r.
      split_and!; [done|lia|lia|by right]. }
  destruct Hpub as (Hd1 & Hg1 & Hle1 & Hor). destruct r as [n|err].
  - destruct (times (wire e)) as [now pub].
    destruct (onPiRecord _ _ _ _ _ _ _) as [[s2 mo2] a2] eqn:Er. intros [= <- <- <- <-].
    eapply (delivered_reaction (lost ++ passed_over start (Origin (a_hub a)) (Origin h1)) es) in Er
      as (Hd2 & (_ & Ho2 & Hc2) & Hg2); [|done|lia].
    cbn [a_hub set_hub set_hub_fsm] in *. change (h_origin h1) with (Origin h1) in Ho2.
    change (h_origin (a_hub a2)) with (Origin (a_hub a2)) in Ho2. rewrite Ho2.
    split_and!; [done|lia|done|]. intros _. destruct (Hor I) as [Hor1|Hor1]; [by left|right; congruence].
  - intros [= <- <- <- <-]. cbn [a_hub set_hub set_hub_fsm]. by split_and!; [|lia|..].
Qed.

(** A batch from the window on, cut anywhere. *)
Lemma delivered_batch lost es start s mo a q k b s' mo' a' :
  delivered lost es s a → numbered es → Forall (λ e, json_data (e_Data e)) es →
  N.of_nat (length es) + 1 < u64_bound →
  log_len (agent_log s a) + 3 * N.of_nat k + 3 < u64_bound →
  (q = N.max start (Origin (a_hub a)) ∨ h_closed (a_hub a) = true) →
  pull_batch slm times s mo a (wire <$> take k (drop (N.to_nat q) es)) = (b, s', mo', a') →
  delivered (lost ++ passed_over start (Origin (a_hub a)) (Origin (a_hub a'))) es s' a' ∧
  Origin (a_hub a) ≤ Origin (a_hub a').
Proof.
  intros Hd Hn Hh Hb. revert lost q s mo a Hd. induction k as [|k IH]; intros lost q s mo a Hd Hr Hcase.
  { rewrite take_0. cbn. intros [= <- <- <- <-]. rewrite passed_over_same, app_nil_r. by split; [|lia]. }
  destruct (es !! N.to_nat q) as [e|] eqn:He; cycle 1.
  { apply lookup_ge_None in He. rewrite drop_ge, take_nil by done. cbn. intros [= <- <- <- <-].
    rewrite passed_over_same, app_nil_r. by split; [|lia]. }
  rewrite (drop_S es e _ He). cbn [take fmap list_fmap pull_batch].
  destruct (pull_record _ _ _ _ _ _) as [[[b1 s1] mo1] a1] eqn:Er.
  apply (delivered_record lost es start _ _ _ e q) in Er as (Hd1 & Hg1 & Hle1 & Ho1);
    [|done|done|lia|done|apply lookup_lt_Some in He; lia|by eapply Forall_lookup_1 in Hh|done].
  destruct b1; [|by intros [= <- <- <- <-]]. intros E.
  replace (Datatypes.S (N.to_nat q)) with (N.to_nat (q + 1)) in E by lia.
  eapply IH in E as [Hd2 Hle2]; [|exact Hd1|lia|].
  - rewrite <-app_assoc, passed_over_app in Hd2 by done. split; [done|lia].
  - destruct (Ho1 eq_refl) as [[-> ?]|]; [left; lia|by right].
Qed.

Lemma spooled_json ds out : spooled ds out → Forall json_data ds → Forall json_data out.
Proof.
  induction 1 as [|d ds out _ IH|ds out _ IH]; intros Hds; [done| |].
  - apply Forall_cons in Hds as [? ?]. constructor; auto.
  - constructor; [by eexists|by apply IH].
Qed.

(** Only the hub of an agent matters here. *)
Lemma delivered_hub lost es s a a' : a_hub a' = a_hub a → delivered lost es s a → delivered lost es s a'.
Proof. intros Hh [Hs Hc Hlo Hl]. unfold agent_log in Hl. split; unfold agent_log; by rewrite Hh. Qed.

Lemma delivered_grow lost es new s a : delivered lost es s a → delivered lost (es ++ new) s a.
Proof.
  intros [Hs Hc Hlo Hl]. split; [done|rewrite length_app; lia|done|]. rewrite take_app_le by lia. done.
Qed.

(** What the daemon serves at the cursor is the rest of its file that the window has. *)
Lemma served_rest sp es a recs :
  spool_inv sp es → Forall (λ e, json_data (e_Data e)) es → served_now sp a = Some recs →
  recs = wire <$> drop (N.to_nat (N.max (window_start sp) (Origin (a_hub a)))) es.
Proof.
  intros Hsp Hj. unfold served_now. rewrite (Read_served _ _ _ _ _ _ Hsp Hsp).
  unfold served, window_start. rewrite (si_next _ _ Hsp).
  replace (N.to_nat (N.max (N.of_nat (length es) + 1 - 1 - N.of_nat (length (sp_recs sp))) (Origin (a_hub a))))
    with (Nat.max (length es - length (sp_recs sp)) (N.to_nat (Origin (a_hub a)))) by lia.
  cbn [Z.leb Z.compare]. destruct (drop _ es) eqn:Ed; [by intros [= <-]|]. rewrite <-Ed.
  rewrite serve_records_json by (by apply Forall_drop). by intros [= <-].
Qed.

Lemma delivered_next lost sp es s a rec recs r s' h' :
  spool_inv sp es → Forall (λ e, json_data (e_Data e)) es → delivered lost es s a →
  served_now sp a = Some (rec :: recs) → room s (a_hub a) →
  PublishPulled s (a_hub a) (dr_Data rec) (dr_SpoolID rec) = (r, s', h') →
  delivered (lost ++ passed_over (window_start sp) (Origin (a_hub a)) (Origin h')) es s' (set_hub h' a).
Proof.
  intros Hsp Hh Hd Hrecs Hr E. apply (served_rest sp es) in Hrecs; [|done..].
  set (q := N.max (window_start sp) (Origin (a_hub a))) in *.
  destruct (es !! N.to_nat q) as [e|] eqn:He; cycle 1.
  { apply lookup_ge_None in He. rewrite drop_ge in Hrecs by done. done. }
  rewrite (drop_S es e _ He) in Hrecs. injection Hrecs as -> _.
  pose proof (lookup_lt_Some _ _ _ He) as Hlt. pose proof (si_bound _ _ Hsp).
  eapply (delivered_pulled lost es (window_start sp)) in E as [? _];
    [done|done|apply Hsp|done|exact He|done|lia|by eapply Forall_lookup_1 in Hh].
Qed.

Lemma sys_step_inv lost st l st' : sys_step st l st' → sys_inv lost st → sys_inv (lost ++ l) st'.
Proof.
  intros Hst (es & Hsp & Hh & Hd).
  destruct Hst as [sp s mo a d o1 o2 r sp' Hhd Ho1 Ho2 Hroom E|sp s mo a torn sp' E
    |sp s mo a recs k b s' mo' a' Hrecs Hroom E|sp s mo a rec recs r s' h' Hrecs Hroom E
    |sp s mo a t fs r s' a' Ht Hroom E|sp s mo a next t fs r s' a' Ht Hroom E
    |sp s mo a mo' a' Hhub|sp s mo a|sp s mo a h' mo' a' E Hhub];
    cbn [sy_spool sy_store sy_agent] in *; rewrite ?app_nil_r.
  - destruct (Append_clean sp es d o1 o2) as (r1 & sp1 & new & E1 & Hinv & _ & _ & Hnew & _);
      [done|rewrite (si_next _ _ Hsp) in Hroom; lia|done|done|].
    simplify_eq. exists (es ++ new). split; [done|]. split; [|by apply delivered_grow].
    apply Forall_app. split; [done|]. rewrite <-(Forall_fmap e_Data json_data).
    eapply spooled_json; [exact Hnew|]. destruct o1; repeat constructor; apply Hhd.
  - exists es. split; [|done]. cbn [spool_step] in E.
    destruct (NewSpool_inv es (if String.eqb torn "" then None else Some torn) (sp_maxRecs sp))
      as (sp1 & E1 & Hinv & _); [apply Hsp..|].
    unfold file_tear in E. rewrite (si_file _ _ Hsp) in E. cbn [sf_lines sf_torn] in E.
    rewrite E1 in E. by simplify_eq.
  - exists es. split; [done|]. split; [done|].
    apply (served_rest sp es) in Hrecs as ->; [|done..]. rewrite length_fmap in Hroom.
    set (q := N.max (window_start sp) (Origin (a_hub a))) in *. set (l := drop (N.to_nat q) es) in *.
    assert (Hk : take k (wire <$> l) = wire <$> take (Nat.min k (length l)) l).
    { rewrite <-fmap_take. f_equal. destruct (Nat.min_spec k (length l)) as [[_ ->]|[Hle ->]]; [done|].
      by rewrite !take_ge. }
    rewrite Hk in E. eapply (delivered_batch lost es (window_start sp)) in E as [? _];
      [done|done|apply Hsp|done|apply Hsp|lia|by left].
  - exists es. split; [done|]. split; [done|]. by eapply delivered_next.
  - exists es. split; [done|]. split; [done|].
    pose proof (agent_publish_cursor _ _ _ _ _ _ _ E) as (_ & Ho & _). destruct r as [ev|].
    + apply agent_publish_some in E as (h1 & -> & Hs1 & _ & _ & Hev & Hl); [|apply Hd|done].
      eapply (delivered_own lost es s a); [done|done|done|exact Hl|].
      constructor; [by rewrite Hev|constructor].
    + apply agent_publish_none in E as (-> & Hs1 & Hl); [|apply Hd].
      eapply (delivered_own lost es s a _ _ []); [done|done|done|by rewrite app_nil_r|constructor].
  - exists es. split; [done|]. split; [done|].
    pose proof (agent_transition_cursor _ _ _ _ _ _ _ _ E) as (_ & Ho & _). destruct r as [err|].
    + apply agent_transition_err in E as (-> & Hs1 & Hl); [|apply Hd|done].
      eapply (delivered_own lost es s a _ _ []); [done|done|done|by rewrite app_nil_r|constructor].
    + apply agent_transition_ok in E as (_ & h1 & ev & -> & Hs1 & _ & _ & Hev & Hl); [|apply Hd|done].
      eapply (delivered_own lost es s a); [done|done|done|exact Hl|].
      constructor; [by rewrite Hev|constructor].
  - exists es. split; [done|]. split; [done|]. by eapply delivered_hub.
  - exists es. split; [done|]. split; [done|]. by destruct Hd.
  - exists es. split; [done|]. split; [done|]. destruct Hd as [(Hinv & Hv & Hn & Ho) Hc Hlo Hl].
    apply NewEventHub_sync in E as [Hs1 Hid]; [|done..].
    assert (Ho1 : h_origin h' = h_origin (a_hub a)).
    { destruct Hs1 as (_ & _ & _ & ->). by rewrite Hid, Ho. }
    apply (delivered_hub _ _ _ (set_hub h' a)); [done|].
    unfold Origin, agent_log, log_of in *.
    split; unfold Origin, agent_log, log_of; cbn [a_hub set_hub set_hub_fsm];
      [done|by rewrite Ho1|by rewrite Ho1|by rewrite Ho1, Hid].
Qed.

Lemma sys_run_inv lost st l st' : sys_run st l st' → sys_inv lost st → sys_inv (lost ++ l) st'.
Proof.
  intros Hr. revert lost. induction Hr as [st|st l st1 ls st' Hst _ IH]; intros lost Hi; [by rewrite app_nil_r|].
  rewrite app_assoc. by eapply IH, sys_step_inv.
Qed.

(** C1. Exactly once, in order, through every failure the spool survives.  From a state
    in which nothing was lost, any interleaving of daemon appends and deaths, pulls cut
    short at any record, failed appends, crashes between append and reaction, controller
    restarts, the controller's own events and deletion, in which no write to the spool was
    half done and no sync of it failed, leads to a log that consists of the controller's
    own events and of the spool's records up to the resume cursor: each of those records
    once, verbatim and in the order of the spool, except the ones whose ids were passed
    over by a pull because the bounded window no longer held them; and the cursor a
    restart resumes from is the same one.  Nothing is passed over by a pull whose cursor
    is not behind the window. *)
Theorem exactly_once st lost st' :
  sys_inv [] st → sys_run st lost st' →
  let cursor := Origin (a_hub (sy_agent st')) in
  ∃ es own, spool_inv (sy_spool st') es ∧ cursor ≤ N.of_nat (length es) ∧ Forall (λ i, i ≤ cursor) lost ∧
    Forall (λ ev, Typ ev ∈ own_types) own ∧
    interleaved (event_payload <$> own) (entry_payload <$> kept lost (take (N.to_nat cursor) es))
      (event_payload <$> agent_log (sy_store st') (sy_agent st')) ∧
    (∀ h, NewEventHub (sy_store st') (h_agentID (a_hub (sy_agent st'))) = Ok h → Origin h = cursor) ∧
    (∀ sp s mo a l s' mo' a', sys_step (mkSystem sp s mo a) l (mkSystem sp s' mo' a') →
       window_start sp ≤ Origin (a_hub a) → l = []).
Proof.
  intros Hinv Hr cursor. destruct (sys_run_inv [] _ _ _ Hr Hinv) as (es & Hsp & _ & [Hs Hc Hlo (own & Ho & Hl)]).
  exists es, own. split_and!; [done..| |].
  - intros h Hh. destruct Hs as (Hi & Hv & _ & Hor).
    apply NewEventHub_sync in Hh as [(_ & _ & _ & Ho') Hid]; [|done..].
    unfold cursor, Origin. by rewrite Ho', Hid, Hor.
  - intros sp s mo a l s' mo' a' Hst Hw. by inversion Hst; subst; try done; apply covered_loses_nothing.
Qed.

End system.

(** ** Records travel *)

Definition ex_sys (sp : Spool) (s : MemDB) (a : Agent) : system MemDB := mkSystem sp s None a.

Definition ex_ready : Agent := ex_agent StatusReady ex_hub SessionReady true StdinNil.

Lemma ex_sys_inv : sys_inv [] (ex_sys (ex_spool 1) mem_empty ex_ready).
Proof.
  exists []. split; [by apply ex_spool_inv|]. split; [constructor|].
  split; [apply ex_hub_sync|done|constructor|]. exists []. split; [constructor|].
  vm_compute. constructor.
Qed.

(** Two appends into a window of one: the first record is dropped before it is pulled. *)
Definition ex_append (sp : Spool) (t : string) : Spool :=
  default sp (snd <$> Spool.Append sp (ex_record t) IoOk IoOk).
Definition ex_appended : Spool := ex_append (ex_append (ex_spool 1) "message") "agent.settled".

Definition ex_pulled : bool * MemDB * option Monitor * Agent :=
  pull_batch ex_slm (λ _, (0%Z, 0%Z)) mem_empty None ex_ready
    [mkDaemonRecord 2 (ex_record "agent.settled"); mkDaemonRecord 3 spool_truncated].

Lemma ex_step_append sp t :
  sp_next sp + 2 < u64_bound → is_Some (Spool.Append sp (ex_record t) IoOk IoOk) →
  sys_step ex_slm (λ _, (0%Z, 0%Z)) (ex_sys sp mem_empty ex_ready) [] (ex_sys (ex_append sp t) mem_empty ex_ready).
Proof.
  intros Hb [[r sp'] E]. unfold ex_append. rewrite E. cbn.
  eapply step_spool; [by eexists|by left|by left|exact Hb|exact E].
Qed.

Lemma exactly_once_witness :
  sys_run ex_slm (λ _, (0%Z, 0%Z)) (ex_sys (ex_spool 1) mem_empty ex_ready) [1]
    (ex_sys ex_appended ex_pulled.1.1.2 ex_pulled.2) ∧
  Origin (a_hub ex_pulled.2) = 3 ∧
  ∃ es own, spool_inv ex_appended es ∧
    interleaved (event_payload <$> own) (entry_payload <$> kept [1] (take 3 es))
      (event_payload <$> agent_log ex_pulled.1.1.2 ex_pulled.2).
Proof.
  assert (Hr : sys_run ex_slm (λ _, (0%Z, 0%Z)) (ex_sys (ex_spool 1) mem_empty ex_ready) [1]
    (ex_sys ex_appended ex_pulled.1.1.2 ex_pulled.2)).
  { change [1] with ([] ++ [] ++ [1] ++ []). eapply run_step.
    { apply (ex_step_append (ex_spool 1) "message"); vm_compute; [reflexivity|by eexists]. }
    eapply run_step.
    { apply (ex_step_append _ "agent.settled"); vm_compute; [reflexivity|by eexists]. }
    eapply run_step; [|apply run_done].
    replace [1] with (passed_over (window_start ex_appended) (Origin (a_hub ex_ready)) (Origin (a_hub ex_pulled.2)))
      by (vm_compute; reflexivity).
    eapply (step_pull _ _ _ _ _ _ [mkDaemonRecord 2 (ex_record "agent.settled"); mkDaemonRecord 3 spool_truncated] 2 true
      ex_pulled.1.1.2 None ex_pulled.2); vm_compute; reflexivity. }
  split; [exact Hr|]. split; [vm_compute; reflexivity|].
  destruct (exactly_once ex_slm (λ _, (0%Z, 0%Z)) (ex_sys (ex_spool 1) mem_empty ex_ready) [1]
    (ex_sys ex_appended ex_pulled.1.1.2 ex_pulled.2) ex_sys_inv Hr) as (es & own & Hsp & _ & _ & _ & Hl & _).
  exists es, own. split; [exact Hsp|exact Hl].
Defined.
