(* ===== verification/Lifecycle.v ===== *)
(** * An agent's life, across restarts

    The operations of agent.go, puller.go and revive.go on one agent as one set
    of atomic steps; the invariant that everything the registry keeps about an
    agent is the projection of its log; creation establishes it, every operation
    keeps it, and a restart rebuilds the same agent from it.  Three places where
    the code is not atomic enough for that are shown as theorems too. *)

From Stdlib Require Import String ZArith.
From S2P Require Import Prelude Json GoTime GoStrings Bolt EventStore EventHub Fsm Monitor Config.
From S2P Require Import Agent Manager Registry Revive Live Puller.
From stdpp Require Import base list strings numbers gmap.
Local Open Scope Z_scope.

(** ** Operations *)

Inductive agent_op : Type :=
| APrompt (msg : string) (env : cmd_env)
| ASteer (msg : string) (env : cmd_env)
| AAbort (env : cmd_env)
| APull (rec : DaemonRecord)
| AFail (reason : string)
| ABoot (st : DaemonStatus)
| APause (reason : string)
| AConsume (now at_ : Z)
| AAbandon (attempt : Z) (reason : string)
| AResume (now : Z)
| AComplete
| ADaemon (d : option string)
| ADegraded (b : bool)
| ABootID (b : string)
| AArm.

Section operations.
  Context {S : Type} `{EventStore S}.
  Context (cfg : Config) (slm : SLMPipeline) (times : DaemonRecord → Z * Z).

Definition state : Type := S * option Monitor * Agent.

Definition agent_step (st : state) (op : agent_op) : state :=
  let '(s, mo, a) := st in
  match op with
  | APrompt msg env => let '(_, _, s', mo', a') := sendPrompt s mo a msg env in (s', mo', a')
  | ASteer msg env => let '(_, _, s', mo', a') := sendSteer s mo a msg env in (s', mo', a')
  | AAbort env => let '(_, _, s', mo', a') := sendAbort s mo a env in (s', mo', a')
  | APull rec => let '(_, s', mo', a') := pull_record slm times s mo a rec in (s', mo', a')
  | AFail reason => fail s mo a reason
  | ABoot st => let '(s', a') := recordDaemonBoot s a st in (s', mo, a')
  | APause reason => let '(_, s', mo', a') := pauseSession s mo a reason in (s', mo', a')
  | AConsume now at_ =>
      match consumeReviveAttempt cfg [mkRound now at_ id false] s a with
      | Some (_, _, s', a') => (s', mo, a')
      | None => st
      end
  | AAbandon n reason => let '(s', a') := recordReviveAbandoned s a n reason in (s', mo, a')
  | AResume now => let '(_, s', a', _) := sendResume s a now in (s', mo, a')
  | AComplete => let '(s', a') := completeRevive s a in (s', mo, a')
  | ADaemon d => (s, mo, set_daemon d a)
  | ADegraded b => (s, mo, set_degraded b a)
  | ABootID b => (s, mo, set_bootID b a)
  | AArm => (s, mo, armPendingRevive a)
  end.

Definition agent_run (st : state) (ops : list agent_op) : state := fold_left agent_step ops st.

End operations.

(** ** Inert events *)

(** The types the projections react to. *)
Definition projecting_types : list string :=
  [lifecycleProvisioned; lifecycleStarted; lifecycleTurnStarted; lifecycleSettled;
   lifecycleFailed; lifecyclePaused; lifecycleRevived; "agent.reviving"%string;
   lifecycleTerminated].

Definition inert (t : string) : Prop := t ∉ projecting_types.

Lemma inert_ne t x : inert t → x ∈ projecting_types → String.eqb t x = false.
Proof. intros Ht Hx. apply String.eqb_neq. intros ->. by apply Ht. Qed.

Ltac in_list := apply (bool_decide_unpack _); vm_compute; exact I.

Lemma inert_session ev st : inert (Typ ev) → replay_step st ev = st.
Proof.
  intros Hi. apply replay_step_other. unfold sessionEventType.
  assert (Hne : ∀ x, x ∈ projecting_types → String.eqb (Typ ev) x = false)
    by (intros x; by apply inert_ne).
  rewrite !Hne by in_list. done.
Qed.

Lemma inert_status ev st : inert (Typ ev) → status_step st ev = st.
Proof.
  intros Hi. unfold status_step.
  assert (Hne : ∀ x, x ∈ projecting_types → String.eqb (Typ ev) x = false)
    by (intros x; by apply inert_ne).
  rewrite !Hne by in_list. done.
Qed.

Lemma inert_provision ev : inert (Typ ev) → Typ ev ≠ lifecycleProvisioned.
Proof. intros Hi He. apply Hi. rewrite He. in_list. Qed.

(** ** The invariant *)

(** What the registry keeps about an agent across restarts. *)
Definition identity (a : Agent) : string * string * Z * string * ResolvedProfile :=
  (a_ID a, a_Sandbox a, a_Created a, a_ParentID a, a_resolved a).

Definition frame (a a' : Agent) : Prop :=
  identity a' = identity a ∧ a_hub a' = a_hub a ∧ a_fsm a' = a_fsm a ∧ a_status a' = a_status a.

Lemma sendSteer_frame {S} `{EventStore S} (s : S) mo a msg env r calls s' mo' a' :
  sendSteer s mo a msg env = (r, calls, s', mo', a') → s' = s ∧ mo' = mo ∧ frame a a'.
Proof.
  unfold sendSteer, daemonFor. intros E. repeat case_match; simplify_eq; split_and!; done.
Qed.

Lemma sendAbort_frame {S} `{EventStore S} (s : S) mo a env r calls s' mo' a' :
  sendAbort s mo a env = (r, calls, s', mo', a') → s' = s ∧ mo' = mo ∧ frame a a'.
Proof.
  unfold sendAbort, daemonFor. intros E. repeat case_match; simplify_eq; split_and!; done.
Qed.

Lemma sendPrompt_frame {S} `{EventStore S} (s : S) mo a msg env r calls s' mo' a' :
  sendPrompt s mo a msg env = (r, calls, s', mo', a') →
  (s' = s ∧ mo' = mo ∧ frame a a') ∨
  (prompt_gate a = None ∧ ∃ a1, frame a a1 ∧ turn_started s mo a1 msg (env_now env) = (s', mo', a')).
Proof.
  unfold sendPrompt, daemonFor. intros E.
  repeat case_match; simplify_eq; first [left; split_and!; done | right; split; [done|]];
    eexists; (split; [|eassumption]); split_and!; done.
Qed.

Section projection.
  Context {S : Type} `{EventStoreLaws S}.
  Context (alive : S → Prop) (Hacc : accepting alive).
  Context (cfg : Config) (slm : SLMPipeline) (times : DaemonRecord → Z * Z).

Implicit Types (s : S) (a : Agent).

(** The agent is what its log says: session, status, provisioning. *)
Record projected (s : S) (a : Agent) : Prop := mkProjected {
  pr_live : live alive s (a_hub a);
  pr_id : h_agentID (a_hub a) = a_ID a;
  pr_session : f_state (a_fsm a) = ReplaySession (agent_log s a);
  pr_status : a_status a = ReplayAgentStatus (agent_log s a);
  pr_working : working_runs a;
  pr_open : f_state (a_fsm a) ≠ SessionTerminated ∧ a_status a ≠ StatusTerminated;
  pr_provision : replayProvisionInfo (agent_log s a) =
    mkProvision (a_Sandbox a) (Some (a_Created a)) (a_ParentID a) (a_resolved a)
}.

(** An extension of the log that session and status follow. *)
Lemma projected_extend s a s' a' l :
  projected s a → identity a' = identity a → extends alive s (a_hub a) s' (a_hub a') l →
  f_state (a_fsm a') = fold_left replay_step l (f_state (a_fsm a)) →
  a_status a' = fold_left status_step l (a_status a) →
  Forall (λ ev, Typ ev ≠ lifecycleProvisioned) l → working_runs a' →
  f_state (a_fsm a') ≠ SessionTerminated → a_status a' ≠ StatusTerminated →
  projected s' a'.
Proof.
  intros [Hl Hid Hse Hst Hw Ho Hp] Hident (Hl' & Hid' & Hlog) Hse' Hst' Hnp Hw' Ho1 Ho2.
  unfold identity in Hident. simplify_eq.
  assert (Hlog' : agent_log s' a' = agent_log s a ++ l) by exact Hlog.
  split; try done.
  - congruence.
  - rewrite Hlog', Hse', Hse. unfold ReplaySession. by rewrite fold_left_app.
  - rewrite Hlog', Hst', Hst. unfold ReplayAgentStatus. by rewrite fold_left_app.
  - rewrite Hlog', replayProvisionInfo_app, Hp by done. congruence.
Qed.

Lemma projected_frame s a a' : projected s a → frame a a' → projected s a'.
Proof.
  intros Hp (Hi & Hh & Hf & Hs). eapply (projected_extend s a s a' []); try done.
  - rewrite Hh. apply extends_refl. apply Hp.
  - by rewrite Hf.
  - unfold working_runs. rewrite Hf, Hs. apply Hp.
  - rewrite Hf. apply Hp.
  - rewrite Hs. apply Hp.
Qed.

(** A publish that the projections ignore. *)
Lemma projected_inert s a s' a' l :
  projected s a → identity a' = identity a → extends alive s (a_hub a) s' (a_hub a') l →
  a_fsm a' = a_fsm a → a_status a' = a_status a → Forall (λ ev, inert (Typ ev)) l →
  projected s' a'.
Proof.
  intros Hp Hi Hex Hf Hs Hin.
  assert (Hfold : ∀ st st', fold_left replay_step l st = st ∧ fold_left status_step l st' = st').
  { clear -Hin. induction Hin as [|ev l Hev _ IH]; intros st st'; [done|]. simpl.
    rewrite inert_session, inert_status by done. apply IH. }
  eapply projected_extend; try done.
  - rewrite Hf. symmetry. by apply (Hfold _ StatusReady).
  - rewrite Hs. symmetry. by apply (Hfold SessionReady _).
  - eapply Forall_impl; [exact Hin|]. intros ev. apply inert_provision.
  - unfold working_runs. rewrite Hf, Hs. apply Hp.
  - rewrite Hf. apply Hp.
  - rewrite Hs. apply Hp.
Qed.

Lemma projected_publish s a t fs r s' a' :
  projected s a → room_for 1 s (a_hub a) → inert t → agent_publish s a t fs = (r, s', a') →
  projected s' a' ∧ (∃ ev h', a' = set_hub h' a ∧ extends alive s (a_hub a) s' h' [ev]).
Proof.
  intros Hp Hr Ht E. apply (agent_publish_live alive Hacc) in E as (ev & h' & -> & Hev & Hex);
    [|apply Hp|done]. split; [|eauto].
  eapply (projected_inert s a s' _ [ev]); try done. constructor; [by rewrite Hev|constructor].
Qed.

(** The room one operation needs. *)
Notation op_room := (room_for 3).

Lemma projected_prompt s mo a msg env r calls s' mo' a' :
  projected s a → op_room s (a_hub a) → sendPrompt s mo a msg env = (r, calls, s', mo', a') →
  projected s' a'.
Proof.
  intros Hp Hr [(-> & -> & Hf)|(Hg & a1 & Hf & E)]%sendPrompt_frame; [by eapply projected_frame|].
  pose proof (projected_frame _ _ _ Hp Hf) as Hp1. destruct Hf as (Hi & Hh & Hfs & Hst).
  apply prompt_gate_none in Hg as [Hg Hready]. unfold turn_started in E.
  destruct (agent_transition _ _ _ _ _) as [[e s1] a2] eqn:Et. injection E as <- <- <-.
  apply (agent_transition_live alive Hacc) in Et as (ev & h' & -> & Ht & _ & Hex).
  - eapply (projected_extend s a1 s1 _ [ev]); try done.
    + cbn. unfold replay_step. rewrite Ht, Hfs. by destruct Hg as [-> | ->].
    + cbn. unfold status_step. by rewrite Ht.
    + constructor; [by rewrite Ht|constructor].
  - apply Hp1.
  - rewrite Hh. unfold room_for in *. lia.
  - rewrite Hfs. by destruct Hg as [-> | ->].
Qed.

Lemma projected_fail s mo a reason s' mo' a' :
  projected s a → room_for 1 s (a_hub a) → fail s mo a reason = (s', mo', a') → projected s' a'.
Proof.
  intros Hp Hr. unfold fail. case_decide as Hd; [by intros [= <- <- <-]|].
  destruct (agent_publish _ _ _ _) as [[ev1 s1] a1] eqn:E. intros [= <- <- <-].
  apply (agent_publish_live alive Hacc) in E as (ev & h' & -> & Hev & Hex);
    [|apply Hp|done].
  eapply (projected_extend s a s1 _ [ev]); try done.
  - cbn. unfold replay_step. by rewrite Hev.
  - cbn. unfold status_step. by rewrite Hev.
  - constructor; [by rewrite Hev|constructor].
  - apply Hp.
Qed.

Lemma projected_pull s mo a rec d b s' mo' a' :
  projected s a → op_room s (a_hub a) → dr_Data rec = RJson d →
  inert (eventTypeOf (dr_Data rec)) → (dr_SpoolID rec < u64_bound)%N →
  pull_record slm times s mo a rec = (b, s', mo', a') → projected s' a'.
Proof.
  intros Hp Hr Hd Hin Hid. unfold pull_record.
  destruct (PublishPulled _ _ _ _) as [[r s1] h1] eqn:Ep.
  apply (PublishPulled_live alive Hacc _ _ _ d) in Ep as ((n & ->) & _ & Hex);
    [|apply Hp|unfold room_for in *; lia|done|by rewrite Hd].
  assert (Hp1 : projected s1 (set_hub h1 a)).
  { eapply (projected_inert s a); try done.
    case_decide; [constructor; [done|]|]; constructor. }
  destruct (times rec) as [now pub].
  destruct (onPiRecord _ _ _ _ _ _ _) as [[s2 mo2] a2] eqn:Er. intros [= <- <- <- <-].
  apply (onPiRecord_live alive Hacc) in Er
    as [(_ & Hw & h' & v & ev & -> & Hex2 & Ht & Hlen & Hv)|[-> ->]];
    [|done|apply Hp1| |apply Hp1].
  - pose proof (pr_working _ _ Hp1 Hw) as Hrun.
    assert (Hvi : ∀ st st', fold_left replay_step (v ++ [ev]) st = replay_step st ev ∧
      fold_left status_step (v ++ [ev]) st' = status_step st' ev).
    { clear -Hv. induction Hv as [|x v Hx _ IH]; intros st st'; [done|]. simpl.
      rewrite inert_session, inert_status by (rewrite Hx; in_list). apply IH. }
    eapply (projected_extend s1 (set_hub h1 a) _ _ (v ++ [ev])); try done.
    + rewrite (proj1 (Hvi _ StatusReady)), Hrun. unfold replay_step. by rewrite Ht.
    + rewrite (proj2 (Hvi SessionReady _)). unfold status_step. by rewrite Ht.
    + apply Forall_app. split; [|constructor; [by rewrite Ht|constructor]].
      eapply Forall_impl; [exact Hv|]. by intros x ->.
  - eapply (extends_room _ 2 1); [exact Hex|done|]. case_decide; simpl; lia.
Qed.

Lemma projected_pause s mo a reason b s' mo' a' :
  projected s a → op_room s (a_hub a) → pauseSession s mo a reason = (b, s', mo', a') →
  projected s' a'.
Proof.
  intros Hp Hr. unfold pauseSession.
  destruct (sessionTransitions (f_state (a_fsm a)) SessionPaused) eqn:Hl.
  - destruct (agent_transition _ _ _ _ _) as [[e s1] a1] eqn:Et.
    apply (agent_transition_live alive Hacc) in Et as (ev & h' & -> & Ht & -> & Hex);
      [|apply Hp|unfold room_for in *; lia|done].
    assert (Hrun : f_state (a_fsm a) = SessionRunning) by (by destruct (f_state (a_fsm a))).
    destruct (fail _ _ _ _) as [[s2 mo2] a2] eqn:Ef. intros [= <- <- <- <-]. revert Ef.
    unfold fail. case_decide as Hd.
    + intros [= <- <- <-]. cbn in Hd.
      eapply (projected_extend s a s1 _ [ev]); try done.
      * cbn. unfold replay_step. by rewrite Ht, Hrun.
      * cbn. unfold status_step. rewrite Ht. destruct Hd as [->|Hd]; [done|].
        by destruct (proj2 (pr_open _ _ Hp)).
      * constructor; [by rewrite Ht|constructor].
      * unfold working_runs. cbn. destruct Hd as [-> | ->]; done.
      * apply Hp.
    + destruct (agent_publish _ _ _ _) as [[ev1 s3] a3] eqn:E. intros [= <- <- <-].
      apply (agent_publish_live alive Hacc) in E as (ev2 & h2 & -> & Hev & Hex2);
        [|apply Hex|eapply (extends_room _ 1 2); [exact Hex|done|simpl; lia]].
      eapply (projected_extend s a _ _ ([ev] ++ [ev2])); try done.
      * exact (extends_trans _ _ _ _ _ _ _ _ _ Hex Hex2).
      * cbn. unfold replay_step. by rewrite Ht, Hrun, Hev.
      * cbn. unfold status_step. by rewrite Ht, Hev.
      * constructor; [by rewrite Ht|]. constructor; [by rewrite Hev|constructor].
  - unfold agent_transition, Transition. rewrite Hl. cbn [negb]. intros [= <- <- <- <-].
    eapply projected_frame; [done|]. by destruct a.
Qed.

Lemma projected_complete s a s' a' :
  projected s a → op_room s (a_hub a) → completeRevive s a = (s', a') → projected s' a'.
Proof.
  intros Hp Hr. unfold completeRevive.
  assert (Hp0 : projected s (set_pendingRevive false a)) by (eapply projected_frame; [done|]; done).
  destruct (a_pendingRevive a && _) eqn:Eb; [|by intros [= <- <-]].
  apply andb_true_iff in Eb as [_ Hpa%bool_decide_eq_true_1].
  set (a0 := set_pendingRevive false a) in *.
  destruct (agent_transition s a0 _ _ _) as [[e s1] a1] eqn:E1.
  apply (agent_transition_live alive Hacc) in E1 as (ev1 & h1 & -> & Ht1 & -> & Hex1);
    [|apply Hp0|unfold room_for in *; simpl; lia|by rewrite Hpa].
  destruct (agent_transition s1 _ _ _ _) as [[e2 s2] a2] eqn:E2. intros [= <- <-].
  apply (agent_transition_live alive Hacc) in E2 as (ev2 & h2 & -> & Ht2 & _ & Hex2);
    [|apply Hex1|eapply (extends_room _ 1 2); [exact Hex1|done|simpl; lia]|done].
  eapply (projected_extend s a0 _ _ ([ev1] ++ [ev2])); try done.
  - exact (extends_trans _ _ _ _ _ _ _ _ _ Hex1 Hex2).
  - cbn [fold_left app]. rewrite Hpa. unfold replay_step. by rewrite Ht1, Ht2.
  - cbn [fold_left app]. unfold status_step. by rewrite Ht1, Ht2.
  - constructor; [by rewrite Ht1|]. constructor; [by rewrite Ht2|constructor].
Qed.

Lemma projected_consumed s a n now b s' a' :
  projected s a → room_for 1 s (a_hub a) → recordReviveConsumed s a n now = (b, s', a') →
  projected s' a'.
Proof.
  intros Hp Hr. unfold recordReviveConsumed. destruct (agent_publish _ _ _ _) as [[r s1] a1] eqn:E.
  intros [= <- <- <-]. apply projected_publish in E as [? _]; [done..|in_list].
Qed.

Lemma projected_consume s a now at_ out :
  projected s a → room_for 1 s (a_hub a) →
  consumeReviveAttempt cfg [mkRound now at_ id false] s a = Some out → projected out.1.2 out.2.
Proof.
  intros Hp Hr. cbn [consumeReviveAttempt cr_now cr_at cr_other cr_awake id].
  destruct (_ <=? 0); [by intros [= <-]|]. destruct (_ <=? 0); [|by intros [= <-]].
  destruct (recordReviveConsumed _ _ _ _) as [[ok s1] a1] eqn:E. intros [= <-].
  by eapply projected_consumed in E.
Qed.

Lemma projected_resume s a now r s' a' sp :
  projected s a → op_room s (a_hub a) → sendResume s a now = (r, s', a', sp) → projected s' a'.
Proof.
  intros Hp Hr. unfold sendResume. case_decide; [by intros [= <- <- <- <-]|].
  destruct (openAttempt _); [by intros [= <- <- <- <-]|].
  destruct (agent_publish _ _ _ _) as [[r1 s1] a1] eqn:E.
  apply projected_publish in E as [Hp1 (ev & h1 & -> & Hex)];
    [|done|unfold room_for in *; lia|in_list].
  destruct r1; [|by intros [= <- <- <- <-]].
  destruct (a_pullTransport _); [|by intros [= <- <- <- <-]].
  destruct (recordReviveConsumed _ _ _ _) as [[ok s2] a2] eqn:E2.
  apply projected_consumed in E2; [|done|eapply (extends_room _ 1 2); [exact Hex|done|simpl; lia]].
  destruct ok; intros [= <- <- <- <-]; [|done]. by eapply projected_frame.
Qed.

(** What the environment must respect: the coding agent does not write the
    controller's lifecycle types, and spool ids are 64-bit. *)
Definition op_honest (op : agent_op) : Prop :=
  match op with
  | APull rec => (∃ d, dr_Data rec = RJson d) ∧ inert (eventTypeOf (dr_Data rec)) ∧
                 (dr_SpoolID rec < u64_bound)%N
  | _ => True
  end.

Lemma projected_step s mo a op s' mo' a' :
  projected s a → op_room s (a_hub a) → op_honest op →
  agent_step cfg slm times (s, mo, a) op = (s', mo', a') → projected s' a'.
Proof.
  intros Hp Hr Hh.
  assert (Hr1 : room_for 1 s (a_hub a)) by (unfold room_for in *; lia).
  destruct op as [msg env|msg env|env|rec|reason|st|reason|now at_|n reason|now| |d|b|b|];
    cbn [agent_step].
  - destruct (sendPrompt _ _ _ _ _) as [[[[r c] s1] mo1] a1] eqn:E. intros [= <- <- <-].
    by eapply projected_prompt in E.
  - destruct (sendSteer _ _ _ _ _) as [[[[r c] s1] mo1] a1] eqn:E. intros [= <- <- <-].
    apply sendSteer_frame in E as (-> & _ & Hf). by eapply projected_frame.
  - destruct (sendAbort _ _ _ _) as [[[[r c] s1] mo1] a1] eqn:E. intros [= <- <- <-].
    apply sendAbort_frame in E as (-> & _ & Hf). by eapply projected_frame.
  - destruct (pull_record _ _ _ _ _ _) as [[[b s1] mo1] a1] eqn:E. intros [= <- <- <-].
    destruct Hh as ((d & Hd) & Hin & Hid). by eapply projected_pull in E.
  - intros E. by eapply projected_fail in E.
  - unfold recordDaemonBoot. destruct (agent_publish _ _ _ _) as [[r s1] a1] eqn:E.
    intros [= <- <- <-]. apply projected_publish in E as [? _]; [done..|in_list].
  - destruct (pauseSession _ _ _ _) as [[[b s1] mo1] a1] eqn:E. intros [= <- <- <-].
    by eapply projected_pause in E.
  - destruct (consumeReviveAttempt _ _ _ _) as [[[[l b] s1] a1]|] eqn:E; [|by intros [= <- <- <-]].
    intros [= <- <- <-]. by eapply projected_consume in E.
  - unfold recordReviveAbandoned. destruct (agent_publish _ _ _ _) as [[r s1] a1] eqn:E.
    intros [= <- <- <-]. apply projected_publish in E as [? _]; [done..|in_list].
  - destruct (sendResume _ _ _) as [[[r s1] a1] sp] eqn:E. intros [= <- <- <-].
    by eapply projected_resume in E.
  - destruct (completeRevive _ _) as [s1 a1] eqn:E. intros [= <- <- <-].
    by eapply projected_complete in E.
  - intros [= <- <- <-]. by eapply projected_frame.
  - intros [= <- <- <-]. by eapply projected_frame.
  - intros [= <- <- <-]. by eapply projected_frame.
  - intros [= <- <- <-]. by eapply projected_frame.
Qed.

(** ** Restarts *)

Lemma rebuild_projected w a now :
  projected (w_store w) a → Get w (a_ID a) = None →
  ∃ w' sp a', rebuild_one cfg w (a_ID a) now = Ok (w', sp) ∧ w_store w' = w_store w ∧
    Get w' (a_ID a) = Some a' ∧ projected (w_store w) a' ∧ identity a' = identity a ∧
    a_status a' = a_status a ∧ f_state (a_fsm a') = f_state (a_fsm a) ∧
    sp = if decide (Transport cfg = TransportPull)
         then [if decide (f_state (a_fsm a) = SessionPaused) then GoRevive (a_ID a)
               else GoPuller (a_ID a)]
         else [].
Proof.
  intros Hp Hg. destruct (pr_live _ _ Hp) as (Ha & Hs & Hc). pose proof Hs as (Hinv & Hv & _).
  rewrite (pr_id _ _ Hp) in Hv. unfold rebuild_one. rewrite Hg.
  destruct (NewEventHub_alive alive (w_store w) (a_ID a) Hacc Ha Hinv Hv) as [hub Hh]. rewrite Hh.
  destruct (NewEventHub_sync _ _ _ Hinv Hv Hh) as [Hs' Hid].
  destruct (SubscribeSnapshot_alive alive (w_store w) hub Hacc Ha Hs') as [evs He]. rewrite He.
  assert (evs = agent_log (w_store w) a) as ->.
  { apply SubscribeSnapshot_log in He; [|done]. rewrite He. unfold agent_log, log_of.
    by rewrite Hid, (pr_id _ _ Hp). }
  assert (Hopen : h_closed hub = false).
  { unfold NewEventHub in Hh. destruct (NextSeq _ _); [|done]. destruct (OriginWatermark _ _); [|done].
    by injection Hh as <-. }
  rewrite <-(pr_session _ _ Hp), decide_False by apply Hp.
  set (b := replayed_agent cfg (a_ID a) hub (agent_log (w_store w) a)).
  assert (Hlog : agent_log (w_store w) b = agent_log (w_store w) a).
  { unfold agent_log, log_of. cbn. by rewrite Hid, (pr_id _ _ Hp). }
  assert (Hident : identity b = identity a).
  { unfold identity, b, replayed_agent. cbn. by rewrite (pr_provision _ _ Hp). }
  assert (Hst : a_status b = a_status a) by (cbn; by rewrite (pr_status _ _ Hp)).
  assert (Hse : f_state (a_fsm b) = f_state (a_fsm a)) by (cbn; by rewrite (pr_session _ _ Hp)).
  eexists _, _, b. split; [reflexivity|]. split_and!; try done.
  - apply Get_Some. cbn. rewrite lookup_insert_eq. set_solver.
  - split; [done| | | | | |].
    + exact Hid.
    + by rewrite Hlog, Hse, (pr_session _ _ Hp).
    + by rewrite Hlog, Hst, (pr_status _ _ Hp).
    + unfold working_runs. rewrite Hst, Hse. apply Hp.
    + rewrite Hst, Hse. apply Hp.
    + rewrite Hlog. unfold b, replayed_agent. cbn. by rewrite (pr_provision _ _ Hp).
  - change (a_pullTransport b) with (bool_decide (Transport cfg = TransportPull)).
    destruct (decide (Transport cfg = TransportPull));
      [by rewrite bool_decide_true|by rewrite bool_decide_false].
Qed.

(** Enough room in the log before every operation. *)
Definition run_room (st : S * option Monitor * Agent) (ops : list agent_op) : Prop :=
  ∀ k, let '(s, _, a) := agent_run cfg slm times st (take k ops) in op_room s (a_hub a).

Lemma projected_run s mo a ops s' mo' a' :
  projected s a → Forall op_honest ops → run_room (s, mo, a) ops →
  agent_run cfg slm times (s, mo, a) ops = (s', mo', a') → projected s' a'.
Proof.
  intros Hp Hh. revert s mo a Hp. induction Hh as [|op ops Hop _ IH]; intros s mo a Hp Hr.
  { by intros [= <- <- <-]. }
  unfold agent_run. cbn [fold_left]. fold (agent_run cfg slm times).
  destruct (agent_step cfg slm times (s, mo, a) op) as [[s1 mo1] a1] eqn:E.
  apply IH.
  - eapply projected_step; [done|exact (Hr 0%nat)|done|exact E].
  - intros k. specialize (Hr (Datatypes.S k)). unfold agent_run in *. cbn [take fold_left] in Hr.
    by rewrite E in Hr.
Qed.

(** Rebuilding one agent of a store that can be read leaves the others alone. *)
Lemma rebuild_one_other w id now :
  alive (w_store w) → es_inv (w_store w) → es_valid id →
  ∃ w' sp, rebuild_one cfg w id now = Ok (w', sp) ∧ w_store w' = w_store w ∧
    ∀ id', id' ≠ id ∨ is_Some (Get w id') → Get w' id' = Get w id'.
Proof.
  intros Ha Hinv Hv. unfold rebuild_one. destruct (Get w id) as [b|] eqn:Eg; [by eexists _, _|].
  destruct (NewEventHub_alive alive (w_store w) id Hacc Ha Hinv Hv) as [hub Hh]. rewrite Hh.
  destruct (NewEventHub_sync _ _ _ Hinv Hv Hh) as [Hs' Hid].
  destruct (SubscribeSnapshot_alive alive (w_store w) hub Hacc Ha Hs') as [evs He]. rewrite He.
  case_decide; [by eexists _, _|]. eexists _, _. split; [reflexivity|]. split; [done|].
  intros id' Hne. assert (id' ≠ id) by (intros ->; destruct Hne as [?|[? ?]]; congruence).
  unfold Get. cbn [w_reg w_objs]. rewrite lookup_insert_ne by done. by repeat case_decide; set_solver.
Qed.

Lemma rebuild_loop_others w ids now :
  alive (w_store w) → es_inv (w_store w) → Forall es_valid ids →
  ∃ w' sps, rebuild_loop cfg w ids now = (None, w', sps) ∧ w_store w' = w_store w ∧
    ∀ id', id' ∉ ids ∨ is_Some (Get w id') → Get w' id' = Get w id'.
Proof.
  intros Ha Hinv Hv. revert w Ha Hinv. induction Hv as [|id ids Hid _ IH]; intros w Ha Hinv; [by eexists _, _|].
  cbn [rebuild_loop]. destruct (rebuild_one_other w id now Ha Hinv Hid) as (w1 & sp & -> & Hst & Hg).
  destruct (IH w1) as (w2 & sps & -> & Hst2 & Hg2); [by rewrite Hst..|].
  eexists _, _. split; [reflexivity|]. split; [congruence|]. intros id' Hne.
  assert (Get w1 id' = Get w id') as E by (apply Hg; set_solver). rewrite <-E. apply Hg2. rewrite E. set_solver.
Qed.

Lemma rebuild_loop_app w ids1 ids2 now w1 sps1 :
  rebuild_loop cfg w ids1 now = (None, w1, sps1) →
  rebuild_loop cfg w (ids1 ++ ids2) now =
    let '(e, w2, sps2) := rebuild_loop cfg w1 ids2 now in (e, w2, sps1 ++ sps2).
Proof.
  revert w sps1. induction ids1 as [|id ids1 IH]; intros w sps1; cbn [rebuild_loop app].
  { intros [= <- <-]. by destruct (rebuild_loop _ _ _ _) as [[??]?]. }
  destruct (rebuild_one cfg w id now) as [[w' sp]|]; [|done].
  destruct (rebuild_loop cfg w' ids1 now) as [[e w''] sp'] eqn:E. intros [= -> -> <-].
  rewrite (IH _ _ E). destruct (rebuild_loop _ _ _ _) as [[??]?]. by rewrite app_assoc.
Qed.

Lemma projected_log s a : projected s a → (es_abs s (a_ID a)).1 ≠ [].
Proof.
  intros Hp E. pose proof (pr_provision _ _ Hp) as Hpr. unfold agent_log, log_of in Hpr.
  rewrite (pr_id _ _ Hp), E in Hpr. done.
Qed.

(** The whole rebuild finds a projected agent. *)
Lemma rebuild_all_projected w a now :
  projected (w_store w) a → Get w (a_ID a) = None →
  (∀ ids, Agents (w_store w) = Ok ids → Forall es_valid ids) →
  ∃ w' sps b, RebuildFromLog cfg w now = (None, w', sps) ∧ w_store w' = w_store w ∧
    Get w' (a_ID a) = Some b ∧ projected (w_store w) b ∧ identity b = identity a ∧
    a_status b = a_status a ∧ f_state (a_fsm b) = f_state (a_fsm a) ∧
    (Transport cfg = TransportPull →
       (if decide (f_state (a_fsm a) = SessionPaused) then GoRevive (a_ID a) else GoPuller (a_ID a)) ∈ sps).
Proof.
  intros Hp Hg Hids. destruct (pr_live _ _ Hp) as (Ha & (Hinv & Hv & _) & _). rewrite (pr_id _ _ Hp) in Hv.
  destruct (acc_reads _ Hacc _ _ 0%N Ha Hinv Hv) as (_ & _ & _ & Hok). unfold RebuildFromLog.
  destruct (Agents (w_store w)) as [ids|] eqn:Eids; [|done]. specialize (Hids _ eq_refl).
  pose proof (es_agents _ _ _ Hinv Hv Eids (projected_log _ _ Hp)) as (pre & post & -> & Hpre)%list_elem_of_split_l.
  apply Forall_app in Hids as [Hv1 [_ Hv2]%Forall_cons].
  destruct (rebuild_loop_others w pre now Ha Hinv Hv1) as (w1 & sps1 & E1 & Hst1 & Hg1).
  rewrite (rebuild_loop_app _ _ _ _ _ _ E1). cbn [rebuild_loop].
  assert (Hp1 : projected (w_store w1) a) by (by rewrite Hst1).
  destruct (rebuild_projected w1 a now Hp1) as (w2 & sp & b & -> & Hst2 & Hget & Hpb & Hib & Hsb & Hfb & ->);
    [rewrite Hg1; auto|].
  destruct (rebuild_loop_others w2 post now) as (w3 & sps3 & -> & Hst3 & Hg3); [by rewrite Hst2, Hst1..|done|].
  eexists _, _, b. split; [reflexivity|]. rewrite Hst1 in Hpb. split_and!; [congruence|rewrite Hg3; eauto|done..|].
  intros Hpull. rewrite (decide_True (P := Transport cfg = TransportPull)) by done. set_solver.
Qed.

(** C2. Restarts are invisible.  After any sequence of prompts, steers, aborts,
    pulled records, failures, pauses, revives and re-arms, on a store that
    accepts, where no pulled record carries one of the controller's lifecycle
    types, a controller that starts afresh and rebuilds all the agents the store
    lists, their ids being valid, ends without an error and with an agent of the
    same id, sandbox, creation time, parent, profile, status and session state,
    still in step with its log; on the pull transport it has started the goroutine
    that fits: the revive for a paused session, the puller for any other. *)
Theorem restart_transparent s mo a ops s' mo' a' w now :
  projected s a → Forall op_honest ops → run_room (s, mo, a) ops →
  agent_run cfg slm times (s, mo, a) ops = (s', mo', a') →
  w_store w = s' → Get w (a_ID a') = None →
  (∀ ids, Agents s' = Ok ids → Forall es_valid ids) →
  ∃ w' sps b, RebuildFromLog cfg w now = (None, w', sps) ∧ Get w' (a_ID a') = Some b ∧
    projected (w_store w') b ∧ identity b = identity a' ∧ a_status b = a_status a' ∧
    f_state (a_fsm b) = f_state (a_fsm a') ∧
    (Transport cfg = TransportPull →
       (if decide (f_state (a_fsm a') = SessionPaused) then GoRevive (a_ID a') else GoPuller (a_ID a')) ∈ sps).
Proof.
  intros Hp Hh Hr E Hw Hg Hids. eapply projected_run in E; [|done..]. subst s'.
  destruct (rebuild_all_projected w a' now E Hg Hids) as (w' & sps & b & Hb & Hst & Hget & Hpb & ?).
  exists w', sps, b. split_and!; try tauto. by rewrite Hst.
Qed.

(** ** Creation *)

Lemma noteBootID_frame a resolved st : frame a (noteBootID a resolved st).
Proof. unfold noteBootID, preflight, daemonFor. repeat case_match; simplify_eq; split_and!; done. Qed.

(** A freshly provisioned agent: its log is the one provisioning event. *)
Definition provisioned (s : S) (a : Agent) : Prop :=
  live alive s (a_hub a) ∧ h_agentID (a_hub a) = a_ID a ∧
  f_state (a_fsm a) = SessionProvision ∧ a_status a = StatusCreating ∧
  ∃ ev, agent_log s a = [ev] ∧ Typ ev = lifecycleProvisioned ∧
    replayProvisionInfo [ev] =
      mkProvision (a_Sandbox a) (Some (a_Created a)) (a_ParentID a) (a_resolved a).

Lemma provisioned_frame s a a' : provisioned s a → frame a a' → provisioned s a'.
Proof.
  intros (Hl & Hid & Hf & Hst & ev & Hlog & Ht & Hp) (Hi & Hh & Hfs & Hs).
  injection Hi as Hi1 Hi2 Hi3 Hi4 Hi5. unfold provisioned, agent_log in *. rewrite Hh, Hfs, Hs.
  split_and!; [done|congruence|done..|]. exists ev. by rewrite Hlog, Hi2, Hi3, Hi4, Hi5.
Qed.

Lemma create_finish_projected w s a calls r c w' :
  provisioned s a → create_finish w s a calls = (r, c, w') →
  r = None ∧ ∃ b, Get w' (a_ID a) = Some b ∧ projected (w_store w') b.
Proof.
  intros (Hl & Hid & Hf & Hst & ev & Hlog & Ht & Hp). unfold create_finish.
  destruct (agent_transition _ _ _ _ _) as [[e s1] a1] eqn:E.
  apply (agent_transition_live alive Hacc) in E as (ev2 & h' & -> & Ht2 & -> & Hex);
    [|done|unfold room_for; fold (agent_log s a); rewrite Hlog; vm_compute; done|by rewrite Hf].
  intros [= <- <- <-]. split; [done|]. eexists. split.
  { apply Get_Some. cbn [w_reg w_objs]. rewrite lookup_insert_eq.
    split; [by apply elem_of_union_l, elem_of_singleton|reflexivity]. }
  destruct Hex as (Hl' & Hid' & Hlog').
  set (b := set_status StatusReady _).
  assert (Hlogb : agent_log s1 b = [ev] ++ [ev2]).
  { unfold agent_log. cbn [b a_hub set_status set_hub_fsm]. rewrite Hlog'. by fold (agent_log s a); rewrite Hlog. }
  split; try done; cbn [w_store].
  - cbn. congruence.
  - rewrite Hlogb. cbn. unfold replay_step. by rewrite Ht, Ht2.
  - rewrite Hlogb. cbn. unfold status_step. by rewrite Ht, Ht2.
  - rewrite Hlogb, replayProvisionInfo_app; [done|]. constructor; [by rewrite Ht2|constructor].
Qed.

Lemma provisioned_projected s a : provisioned s a → projected s a.
Proof.
  intros (Hl & Hid & Hf & Hst & ev & Hlog & Ht & Hp). split; try done.
  - rewrite Hlog, Hf. cbn. unfold replay_step. by rewrite Ht.
  - rewrite Hlog, Hst. cbn. unfold status_step. by rewrite Ht.
  - intros Hw. congruence.
  - by rewrite Hf, Hst.
  - by rewrite Hlog.
Qed.

(** What a create starts from: a fresh id on a store that accepts, a date that
    can be written, a resolved profile with an image, and the parent it names. *)
Record creatable (w : World S) (parent : option Agent) (parentID : string) (r : ResolvedProfile)
    (env : create_env) : Prop := mkCreatable {
  cr_alive : alive (w_store w);
  cr_inv : es_inv (w_store w);
  cr_valid : es_valid (ce_id env);
  cr_fresh : (es_abs (w_store w) (ce_id env)).1 = [];
  cr_unregistered : ce_id env ∉ w_reg w;
  cr_date : datable (ce_created env);
  cr_image : non_empty (rp_Image r) = true;
  cr_parent : default "" (a_ID <$> parent) = parentID
}.

(** The agent right after its provisioning event. *)
Lemma create_provisioned w parent parentID r env hub name s a ev :
  creatable w parent parentID r env → NewEventHub (w_store w) (ce_id env) = Ok hub →
  let r' := mkResolved name (rp_Image r) (rp_Resources r) (rp_Provider r) (rp_Model r) in
  agent_publish (w_store w) (new_agent (ce_id env) name (ce_created env) hub parentID r')
    lifecycleProvisioned
    (provisioned_fields (ce_id env) name (ce_created env) r' (a_ID <$> parent)) = (ev, s, a) →
  provisioned s a ∧ a_ID a = ce_id env ∧ a_Sandbox a = name.
Proof.
  intros [Ha Hi Hv Hfr Hnew Hd Him Hpar] Hh r' E.
  destruct (NewEventHub_sync _ _ _ Hi Hv Hh) as [Hs Hid].
  assert (Hopen : h_closed hub = false).
  { unfold NewEventHub in Hh. destruct (NextSeq _ _); [|done]. destruct (OriginWatermark _ _); [|done].
    by injection Hh as <-. }
  assert (Hlog0 : log_of (w_store w) hub = []) by (unfold log_of; by rewrite Hid).
  apply (agent_publish_live alive Hacc) in E as (ev1 & h' & -> & Hev & Hl & Hid1 & Hlog);
    [|done|unfold room_for; cbn; rewrite Hlog0; vm_compute; done].
  cbn [a_hub new_agent] in *. rewrite Hlog0 in Hlog.
  split; [|done]. split_and!; [done|cbn; congruence|done|done|]. exists ev1.
  split_and!; [done|by rewrite Hev|]. unfold replayProvisionInfo. cbn [fold_left]. rewrite Hev.
  rewrite provision_step_provisioned by done. cbn. by rewrite Hpar.
Qed.

(** A created agent is what its log says.  On a store that accepts, a
    successful create leaves an agent whose session, status and provisioning are
    the projection of its two-event log, so that everything said about restarts
    applies from the start. *)
Theorem create_projects w parent parentID r env calls w' :
  creatable w parent parentID r env →
  create_commit cfg w parent parentID r env = (None, calls, w') →
  ∃ b, Get w' (ce_id env) = Some b ∧ projected (w_store w') b.
Proof.
  intros Hc. unfold create_commit.
  set (name := if String.eqb (rp_Name r) "" then _ else _). cbv zeta.
  destruct (NewEventHub (w_store w) (ce_id env)) as [hub|] eqn:Hh; [|done].
  destruct (ce_create_ok env); [|done]. destruct (sandbox_ready env); [|done].
  assert (Hprov : ∀ c, create_provision cfg w
      (new_agent (ce_id env) name (ce_created env) hub parentID
         (mkResolved name (rp_Image r) (rp_Resources r) (rp_Provider r) (rp_Model r))) parent env c
      = (None, calls, w') → ∃ b, Get w' (ce_id env) = Some b ∧ projected (w_store w') b).
  { intros c. unfold create_provision. cbn [a_ID a_Sandbox a_resolved new_agent].
    destruct (agent_publish _ _ _ _) as [[ev s] a] eqn:E.
    eapply create_provisioned in E as (Hp & Hid & _); [|done..].
    destruct (negb (ce_policy_ok env)); [done|]. destruct (negb (ce_deny_ok env)); [done|].
    case_decide.
    - set (a1 := noteBootID _ _ _).
      assert (Hf : frame a a1).
      { destruct (noteBootID_frame (set_pull true a) (ce_resolve env) (ce_status env)) as (? & ? & ? & ?).
        by split_and!. }
      pose proof (provisioned_frame _ _ _ Hp Hf) as Hp1. destruct Hf as [Hi _]. injection Hi as Hi1 _ _ _ _.
      intros [_ Hb]%create_finish_projected; [|done]. by rewrite <-Hid, <-Hi1.
    - destruct (negb (ce_startpi_ok env)); [done|].
      intros [_ Hb]%create_finish_projected; [by rewrite <-Hid|]. by eapply provisioned_frame. }
  case_decide; [destruct (ce_expose_ok env); [|done]|]; apply Hprov.
Qed.

(** A create that fails late comes back.  When the policy step fails, the
    caller gets an error, the sandbox is deleted and nothing is registered; but
    the provisioning event stays in the log, and the next start registers the
    agent as creating and starts pulling from its sandbox. *)
Theorem failed_create_resurrects w parent parentID r env hub w0 now :
  creatable w parent parentID r env → NewEventHub (w_store w) (ce_id env) = Ok hub →
  ce_create_ok env = true → sandbox_ready env = true → Transport cfg = TransportPull →
  ce_expose_ok env = true → ce_policy_ok env = false →
  ∃ calls w' name, create_commit cfg w parent parentID r env = (Some EGateway, calls, w') ∧
    rolled_back calls name ∧ w_reg w' = w_reg w ∧
    (w_store w0 = w_store w' → Get w0 (ce_id env) = None →
     ∃ w1 b, rebuild_one cfg w0 (ce_id env) now = Ok (w1, [GoPuller (ce_id env)]) ∧
       Get w1 (ce_id env) = Some b ∧ a_status b = StatusCreating ∧ a_Sandbox b = name).
Proof.
  intros Hc Hh Hcr Hrd Ht Hex Hpol. unfold create_commit.
  set (name := if String.eqb (rp_Name r) "" then _ else _). cbv zeta.
  rewrite Hh, Hcr, Hrd, decide_True, Hex by done.
  unfold create_provision. cbn [a_ID a_Sandbox a_resolved new_agent]. rewrite Hpol. cbn [negb].
  destruct (agent_publish _ _ _ _) as [[ev s] a] eqn:E.
  eapply create_provisioned in E as (Hp & Hid & Hsb); [|done..].
  eexists _, _, name. split; [reflexivity|].
  split; [by eexists _, [CExposeDaemon name; CApplyModelGatewayPolicy name]|]. split; [done|].
  cbn [w_store]. intros Hw0 Hg. rewrite <-Hid in Hg.
  pose proof (provisioned_projected _ _ Hp) as Hpr. rewrite <-Hw0 in Hpr.
  destruct (rebuild_projected w0 a now Hpr Hg) as (w1 & sp & b & Hb & _ & Hgb & _ & Hident & Hst & _ & ->).
  destruct Hp as (_ & _ & Hf & Hcre & _).
  exists w1, b. rewrite <-Hid, Hb, Hf, decide_True, decide_False by done.
  injection Hident as _ Hsb2 _ _ _. split_and!; [done|done|congruence|congruence].
Qed.

(** ** Where the steps are not atomic enough *)

(** A failure that lands while a settled turn is being assessed is lost at
    the next restart: the agent is failed, but its log ends with [agent.settled]
    and projects to ready. *)
Theorem settle_fail_race s mo a raw now pub reason mo1 a1 s2 mo2 a2 s3 mo3 a3 :
  projected s a → op_room s (a_hub a) →
  settle_begin mo a raw now = (true, mo1, a1) → fail s mo1 a1 reason = (s2, mo2, a2) →
  settle_end slm s2 mo2 a2 now pub = (s3, mo3, a3) →
  a_status a3 = StatusFailed ∧ ReplayAgentStatus (agent_log s3 a3) = StatusReady.
Proof.
  intros Hp Hr Eb Ef Ee.
  apply settle_begin_spec in Eb as [(_ & _ & Hw & ->)|(? & _)]; [|done].
  pose proof (pr_working _ _ Hp Hw) as Hrun. unfold fail in Ef.
  rewrite decide_False in Ef by (cbn; naive_solver).
  destruct (agent_publish _ _ _ _) as [[ev1 s4] a4] eqn:E. injection Ef as <- <- <-.
  apply (agent_publish_live alive Hacc) in E as (ev & h' & -> & Hev & Hex);
    [|apply Hp|unfold room_for in *; simpl; lia].
  apply (settle_end_live alive Hacc) in Ee as (h2 & v & ev2 & -> & Hex2 & Ht & _);
    [|apply Hex|eapply (extends_room _ 2 1); [exact Hex|done|simpl; lia]|done].
  split; [done|]. unfold agent_log. cbn [a_hub set_hub_fsm].
  rewrite (proj2 (proj2 Hex2)). unfold ReplayAgentStatus. rewrite app_assoc, fold_left_app.
  cbn [fold_left]. unfold status_step at 1. by rewrite Ht.
Qed.

(** A crash between appending the coding agent's [agent_settled] record and
    reacting to it wedges the session: the restarted controller finds a running
    turn, refuses prompts, and its cursor is already past the record, so that it
    is never seen again. *)
Theorem lost_settle_wedges s a d id r s1 h1 w now :
  projected s a → op_room s (a_hub a) → a_status a = StatusWorking →
  is_settle (RJson d) → inert (eventTypeOf (RJson d)) → (Origin (a_hub a) < id < u64_bound)%N →
  PublishPulled s (a_hub a) (RJson d) id = (r, s1, h1) →
  w_store w = s1 → Get w (a_ID a) = None →
  ∃ w' sp b, rebuild_one cfg w (a_ID a) now = Ok (w', sp) ∧ Get w' (a_ID a) = Some b ∧
    a_status b = StatusWorking ∧ f_state (a_fsm b) = SessionRunning ∧
    prompt_gate b = Some ErrTurnInFlight ∧ Origin (a_hub b) = id.
Proof.
  intros Hp Hr Hw Hset Hin Hid Ep Hst Hg. subst s1.
  apply (PublishPulled_live alive Hacc _ _ _ d) in Ep as (_ & Ho & Hex);
    [|apply Hp|unfold room_for in *; lia|lia|done].
  rewrite decide_True in Hex by apply Hid.
  assert (Hp1 : projected (w_store w) (set_hub h1 a)).
  { eapply (projected_inert s a); try done. constructor; [done|constructor]. }
  destruct (rebuild_projected w (set_hub h1 a) now Hp1 Hg)
    as (w' & sp & b & Hb & Hws & Hgb & Hpb & Hident & Hstb & Hseb & _).
  pose proof (pr_working _ _ Hp Hw) as Hrun. cbn in Hstb, Hseb.
  exists w', sp, b. split_and!; [done|done|congruence|congruence| |].
  - unfold prompt_gate. by rewrite Hseb, Hrun.
  - destruct (pr_live _ _ Hpb) as (_ & (_ & _ & _ & Hob) & _).
    destruct (pr_live _ _ Hp1) as (_ & (_ & _ & _ & Ho1) & _).
    injection Hident as Hident _ _ _ _.
    unfold Origin in *. rewrite Hob, (pr_id _ _ Hpb), Hident.
    pose proof (pr_id _ _ Hp1) as Hh. cbn in Ho1, Hh. cbn. rewrite <-Hh, <-Ho1. lia.
Qed.

End projection.

(** ** A concrete life *)

Definition ex_w0 : World MemDB := mkWorld mem_empty ∅ ∅ None.

Definition ex_birth (policy_ok : bool) : create_env :=
  mkCreateEnv ex_id ex_now (Some []) true (λ _, Some PhaseReady) 0
    (λ i, Z.of_nat i * wait_ready_poll) true policy_ok true (Some "http://d"%string)
    (Some (mkDaemonStatus "boot-1" true)) true.

Lemma ex_creatable b : creatable mem_alive ex_w0 None "" ex_resolved (ex_birth b).
Proof.
  split; [done|exact (proj1 (ex_hub_sync [] false))|exact ex_id_valid|vm_compute; reflexivity|
    apply not_elem_of_empty|exact ex_now_datable|reflexivity|reflexivity].
Qed.

Lemma create_projects_witness :
  ∃ b calls w', create_commit ex_config ex_w0 None "" ex_resolved (ex_birth true) = (None, calls, w') ∧
    Get w' ex_id = Some b ∧ projected mem_alive (w_store w') b.
Proof.
  destruct (create_commit ex_config ex_w0 None "" ex_resolved (ex_birth true))
    as [[r calls] w'] eqn:E.
  assert (r = None) as -> by (vm_compute in E; by injection E as <- _ _).
  destruct (create_projects mem_alive mem_accepting ex_config ex_w0 None "" ex_resolved
    (ex_birth true) calls w' (ex_creatable true) E) as (b & Hg & Hp).
  exists b, calls, w'. split; [reflexivity|]. split; [exact Hg|exact Hp].
Defined.

Lemma failed_create_resurrects_witness :
  ∃ calls w' name,
    create_commit ex_config ex_w0 None "" ex_resolved (ex_birth false) = (Some EGateway, calls, w') ∧
    rolled_back calls name ∧
    ∃ w1 b, rebuild_one ex_config (mkWorld (w_store w') ∅ ∅ None) ex_id 0 = Ok (w1, [GoPuller ex_id]) ∧
      Get w1 ex_id = Some b ∧ a_status b = StatusCreating.
Proof.
  destruct (create_commit ex_config ex_w0 None "" ex_resolved (ex_birth false))
    as [[r calls] w'] eqn:E.
  destruct (failed_create_resurrects mem_alive mem_accepting ex_config ex_w0 None "" ex_resolved
    (ex_birth false) ex_hub (mkWorld (w_store w') ∅ ∅ None) 0 (ex_creatable false))
    as (calls1 & w1 & name & E1 & Hrb & _ & Hre); [vm_compute; reflexivity..|].
  rewrite E in E1. injection E1 as -> -> ->. exists calls1, w1, name.
  split; [reflexivity|]. split; [exact Hrb|].
  destruct Hre as (w2 & b & Hb & Hg & Hs & _); [reflexivity|reflexivity|].
  exists w2, b. split; [exact Hb|]. split; [exact Hg|exact Hs].
Defined.

(** The agent after its provisioning, started and prompted. *)
Definition ex_prov : option Event * MemDB * Agent :=
  agent_publish mem_empty
    (new_agent ex_id "sbx-1" ex_now ex_hub ""
       (mkResolved "sbx-1" (rp_Image ex_resolved) (rp_Resources ex_resolved)
          (rp_Provider ex_resolved) (rp_Model ex_resolved)))
    lifecycleProvisioned
    (provisioned_fields ex_id "sbx-1" ex_now
       (mkResolved "sbx-1" (rp_Image ex_resolved) (rp_Resources ex_resolved)
          (rp_Provider ex_resolved) (rp_Model ex_resolved)) None).

Lemma ex_prov_provisioned : provisioned mem_alive ex_prov.1.2 (set_pull true ex_prov.2).
Proof.
  destruct ex_prov as [[ev s] a] eqn:E.
  destruct (create_provisioned mem_alive mem_accepting ex_w0 None "" ex_resolved (ex_birth true)
    ex_hub "sbx-1" s a ev (ex_creatable true)) as (Hp & _); [vm_compute; reflexivity|exact E|].
  by eapply provisioned_frame.
Qed.

Definition ex_born : option AgentErr * list call * World MemDB :=
  create_finish ex_w0 ex_prov.1.2 (set_pull true ex_prov.2) [].

Definition ex_born_agent : Agent := default (ex_prov.2) (Get ex_born.2 ex_id).

Lemma ex_born_projected : projected mem_alive (w_store ex_born.2) ex_born_agent.
Proof.
  unfold ex_born_agent. destruct ex_born as [[r c] w'] eqn:E.
  apply (create_finish_projected mem_alive mem_accepting) in E as (_ & b & Hg & Hp);
    [|apply ex_prov_provisioned].
  change (a_ID (set_pull true ex_prov.2)) with ex_id in Hg. cbn [snd]. by rewrite Hg.
Qed.

Definition ex_times (rec : DaemonRecord) : Z * Z := (ex_now, ex_now).

Definition ex_life : list agent_op :=
  [APrompt "go" ex_env; APull (mkDaemonRecord 1 (ex_record "message"));
   APull (mkDaemonRecord 2 (ex_record piSettledEventType))].

Lemma ex_life_honest : Forall op_honest ex_life.
Proof.
  repeat constructor; try (eexists; reflexivity); try (vm_compute; reflexivity); in_list.
Qed.

Lemma ex_life_room :
  run_room ex_config ex_slm ex_times (w_store ex_born.2, None, ex_born_agent) ex_life.
Proof. intros [|[|[|[|k]]]]; vm_compute; reflexivity. Qed.

Lemma Get_empty (s : MemDB) id : Get (mkWorld s ∅ ∅ None) id = None.
Proof. unfold Get. by rewrite decide_False by apply not_elem_of_empty. Qed.

Lemma restart_transparent_witness :
  let '(s, _, a) := agent_run ex_config ex_slm ex_times (w_store ex_born.2, None, ex_born_agent) ex_life in
  f_state (a_fsm a) = SessionIdle ∧
  ∃ w' sps b, RebuildFromLog ex_config (mkWorld s ∅ ∅ None) 0 = (None, w', sps) ∧
    Get w' (a_ID a) = Some b ∧ identity b = identity a ∧ f_state (a_fsm b) = SessionIdle.
Proof.
  destruct (agent_run ex_config ex_slm ex_times (w_store ex_born.2, None, ex_born_agent) ex_life)
    as [[s mo] a] eqn:E.
  assert (Hi : f_state (a_fsm a) = SessionIdle) by (vm_compute in E; by injection E as _ _ <-).
  assert (Hids : ∀ ids, Agents s = Ok ids → Forall es_valid ids).
  { vm_compute in E. injection E as <- _ _. intros ids. vm_compute. intros [= <-].
    constructor; [exact ex_id_valid|constructor]. }
  split; [exact Hi|].
  destruct (restart_transparent mem_alive mem_accepting ex_config ex_slm ex_times
    (w_store ex_born.2) None ex_born_agent ex_life s mo a (mkWorld s ∅ ∅ None) 0
    ex_born_projected ex_life_honest ex_life_room E eq_refl (Get_empty s (a_ID a)) Hids)
    as (w' & sps & b & Hb & Hg & _ & Hid & _ & Hse & _).
  exists w', sps, b. split; [exact Hb|]. split; [exact Hg|]. split; [exact Hid|].
  rewrite Hse. exact Hi.
Defined.

(** In the middle of the turn. *)
Definition ex_turn : MemDB * option Monitor * Agent :=
  agent_run ex_config ex_slm ex_times (w_store ex_born.2, None, ex_born_agent) [APrompt "go" ex_env].

Lemma ex_turn_projected : projected mem_alive ex_turn.1.1 ex_turn.2.
Proof.
  destruct ex_turn as [[s mo] a] eqn:E.
  apply (projected_run mem_alive mem_accepting ex_config ex_slm ex_times
    (w_store ex_born.2) None ex_born_agent [APrompt "go" ex_env] s mo a ex_born_projected).
  - repeat constructor.
  - intros [|[|k]]; vm_compute; reflexivity.
  - exact E.
Qed.

Lemma settle_fail_race_witness :
  ∃ s a, a_status a = StatusFailed ∧ ReplayAgentStatus (agent_log (S := MemDB) s a) = StatusReady.
Proof.
  destruct (settle_begin None ex_turn.2 (ex_record piSettledEventType) 0) as [[b mo1] a1] eqn:E1.
  assert (b = true) as -> by (vm_compute in E1; by injection E1 as <- _ _).
  destruct (fail ex_turn.1.1 mo1 a1 "lost") as [[s2 mo2] a2] eqn:E2.
  destruct (settle_end ex_slm s2 mo2 a2 0 0) as [[s3 mo3] a3] eqn:E3.
  exists s3, a3.
  apply (settle_fail_race mem_alive mem_accepting ex_slm ex_turn.1.1 None ex_turn.2
    (ex_record piSettledEventType) 0 0 "lost" mo1 a1 s2 mo2 a2 s3 mo3 a3
    ex_turn_projected); [vm_compute; reflexivity|exact E1|exact E2|exact E3].
Defined.

Lemma lost_settle_wedges_witness :
  ∃ s1 w' sp b, rebuild_one ex_config (mkWorld s1 ∅ ∅ None) ex_id 0 = Ok (w', sp) ∧
    Get w' ex_id = Some b ∧ prompt_gate b = Some ErrTurnInFlight.
Proof.
  destruct (PublishPulled ex_turn.1.1 (a_hub ex_turn.2) (ex_record piSettledEventType) 1)
    as [[r s1] h1] eqn:E.
  destruct (lost_settle_wedges mem_alive mem_accepting ex_config ex_turn.1.1 ex_turn.2
    (JObj [("type"%string, JStr piSettledEventType)]) 1 r s1 h1 (mkWorld s1 ∅ ∅ None) 0
    ex_turn_projected) as (w' & sp & b & Hb & Hg & _ & _ & Hp & _).
  - vm_compute. reflexivity.
  - vm_compute. reflexivity.
  - eexists. split; vm_compute; reflexivity.
  - in_list.
  - split; vm_compute; reflexivity.
  - exact E.
  - reflexivity.
  - reflexivity.
  - exists s1, w', sp, b. split; [exact Hb|]. split; [exact Hg|exact Hp].
Defined.
