(* ===== verification/Wait.v ===== *)
(** * Waiting for an agent (src/controller/wait.go)

    One held call that returns once, with the kinds of trigger that fired, the
    session state and the latest assessment.  The worlds at the points where the
    call looks at shared state, and what it observes on its channel, are
    arguments: everything may change in between. *)

From Stdlib Require Import String ZArith.
From S2P Require Import Prelude Json GoTime GoStrings Bolt EventStore EventHub Fsm Monitor Config.
From S2P Require Import Agent Manager.
From stdpp Require Import base list strings numbers gmap.
Local Open Scope Z_scope.

Definition waitDefaultTimeout : Z := 300 * second.
Definition waitMaxTimeout : Z := 600 * second.

Definition waitChangedState : string := "state".
Definition waitChangedAssessment : string := "assessment".
Definition waitChangedTimeout : string := "timeout".

Record WaitResult : Type := mkWaitResult {
  wr_AgentID : string;
  wr_Changed : list string;
  wr_State : SessionState;
  wr_Assessment : option AssessmentView
}.

(** [parseWaitTimeout]; the product of durations wraps at 64 bits. *)
Definition parseWaitTimeout (raw : string) : option Z :=
  if String.eqb raw "" then Some waitDefaultTimeout
  else match Atoi raw with
       | None => None
       | Some secs =>
           if secs <=? 0 then None
           else let d := i64_wrap (secs * second) in
                Some (if waitMaxTimeout <? d then waitMaxTimeout else d)
       end.

(** [wakeOf]: the kind of trigger and the verdict it carries. *)
Definition wakeOf (ev : Event) : string * string :=
  match sessionEventType (Typ ev) with
  | Some _ => (waitChangedState, ""%string)
  | None =>
      if String.eqb (Typ ev) "agent.failed" then (waitChangedState, ""%string)
      else if String.eqb (Typ ev) EventTypeAssessed then
        match decode_payload (Data ev) with
        | None => (""%string, ""%string)
        | Some p => (waitChangedAssessment, p_Verdict p)
        end
      else (""%string, ""%string)
  end.

(** The loop body shared by [Wait], [consumeWakeEvents] and [waitDrain]: whether
    this event wakes, the trigger kinds so far and the last verdict seen. *)
Definition wake_step (changed : gset string) (lastVerdict : string) (ev : Event)
    : bool * gset string * string :=
  let '(kind, verdict) := wakeOf ev in
  if String.eqb kind "" then (false, changed, lastVerdict)
  else if String.eqb kind waitChangedAssessment && String.eqb verdict lastVerdict
  then (false, changed, lastVerdict)
  else (true, {[kind]} ∪ changed,
        if String.eqb kind waitChangedAssessment then verdict else lastVerdict).

Fixpoint consumeWakeEvents (evs : list Event) (changed : gset string) (lastVerdict : string)
    : bool * gset string * string :=
  match evs with
  | [] => (false, changed, lastVerdict)
  | ev :: rest =>
      let '(woke, changed', last') := wake_step changed lastVerdict ev in
      let '(woke', changed'', last'') := consumeWakeEvents rest changed' last' in
      (woke || woke', changed'', last'')
  end.

(** [waitDrain] over what arrives during its window. *)
Definition waitDrain (arrived : list Event) (changed : gset string) (lastVerdict : string)
    : gset string * string :=
  let '(_, changed', last') := consumeWakeEvents arrived changed lastVerdict in (changed', last').

Definition finalizeChanged (changed : gset string) : list string :=
  filter (λ k, k ∈ changed) [waitChangedState; waitChangedAssessment; waitChangedTimeout].

(** What the select statement of [Wait] sees next. *)
Inductive wait_obs : Type :=
| OLive (ev : Event)
| OTimeout
| OCancelled
| OClosed.

Inductive wait_out : Type :=
| WDone (r : WaitResult)
| WErr (e : AgentErr)
| WCancelled.

Section wait.
  Context {S : Type} `{EventStore S}.

(** The worlds at the baseline snapshot, at the look at the state, at the
    subscription and at the final snapshot; the observations; and the events
    that arrive during the coalescing window. *)
Record wait_env : Type := mkWaitEnv {
  we_snap : World S;
  we_state : World S;
  we_sub : World S;
  we_obs : list wait_obs;
  we_drain : list Event;
  we_final : World S
}.

Definition waitSnapshot (w : World S) (id kind : string) (changed : gset string) : wait_out :=
  let changed := if String.eqb kind "" then changed else {[kind]} ∪ changed in
  match Get w id with
  | None => WDone (mkWaitResult id (finalizeChanged changed) SessionTerminated None)
  | Some a =>
      match SubscribeSnapshot (w_store w) (a_hub a) with
      | Err _ => WErr EStoreFailed
      | Ok evs => WDone (mkWaitResult id (finalizeChanged changed) (f_state (a_fsm a))
                           (assessmentFromEvents evs))
      end
  end.

(** The select loop; [None] is still waiting when the observations end. *)
Fixpoint wait_loop (id : string) (env : wait_env) (obs : list wait_obs) (changed : gset string)
    (lastVerdict : string) : option wait_out :=
  match obs with
  | [] => None
  | OCancelled :: _ => Some WCancelled
  | OTimeout :: _ => Some (waitSnapshot (we_final env) id waitChangedTimeout changed)
  | OClosed :: _ => Some (waitSnapshot (we_final env) id waitChangedState changed)
  | OLive ev :: rest =>
      let '(woke, changed', last') := wake_step changed lastVerdict ev in
      if woke then
        Some (waitSnapshot (we_final env) id "" (waitDrain (we_drain env) changed' last').1)
      else wait_loop id env rest changed' last'
  end.

Definition last_seq (evs : list Event) : N := default 0%N (Seq <$> last evs).

Definition Wait (id : string) (env : wait_env) : option wait_out :=
  match Get (we_snap env) id with
  | None => Some (WErr (ErrUnknownAgent id))
  | Some a =>
      match SubscribeSnapshot (w_store (we_snap env)) (a_hub a) with
      | Err _ => Some (WErr EStoreFailed)
      | Ok evs =>
          let base := assessmentFromEvents evs in
          let lastVerdict := match base with Some v => av_Verdict v | None => ""%string end in
          let a2 := default a (w_objs (we_state env) !! id) in
          if decide (f_state (a_fsm a2) = SessionIdle ∨ a_status a2 = StatusFailed) then
            Some (WDone (mkWaitResult id [waitChangedState] (f_state (a_fsm a2)) base))
          else
            let a3 := default a (w_objs (we_sub env) !! id) in
            match Subscribe (w_store (we_sub env)) (a_hub a3) (last_seq evs) with
            | (Err _, _) => Some (WErr EStoreFailed)
            | (Ok (replay, _), _) =>
                let '(woke, changed, last') := consumeWakeEvents replay ∅ lastVerdict in
                if woke then
                  Some (waitSnapshot (we_final env) id ""
                          (waitDrain (we_drain env) changed last').1)
                else wait_loop id env (we_obs env) changed last'
            end
      end
  end.

End wait.

(** ** What a wake is *)

Definition state_wake (ev : Event) : Prop := wakeOf ev = (waitChangedState, ""%string).

(** An event that does not wake a waiter whose last verdict is [v]. *)
Definition quiet (v : string) (ev : Event) : Prop :=
  (wakeOf ev).1 = ""%string ∨ wakeOf ev = (waitChangedAssessment, v).


Lemma wake_step_quiet c v ev : quiet v ev → wake_step c v ev = (false, c, v).
Proof.
  unfold wake_step. destruct (wakeOf ev) as [k u] eqn:E. intros [Hk|Hk]; rewrite E in Hk.
  - simpl in Hk. by subst k.
  - injection Hk as -> ->. simpl. by rewrite String.eqb_refl.
Qed.





Lemma consume_quiet evs c v : Forall (quiet v) evs → consumeWakeEvents evs c v = (false, c, v).
Proof.
  intros Hq. induction Hq as [|ev evs Hq _ IH]; simpl; [done|].
  by rewrite (wake_step_quiet _ _ _ Hq), IH.
Qed.




Section wait_theorems.
  Context {S : Type} `{EventStoreLaws S}.
  Implicit Types (env : @wait_env S) (id : string).

(** A snapshot answers, with the trigger set it was given. *)
Lemma waitSnapshot_changed (w : World S) id k c :
  ∃ out, waitSnapshot w id k c = out ∧ out ≠ WCancelled ∧
    ∀ r, out = WDone r → ∃ st v, r =
      mkWaitResult id (finalizeChanged (if String.eqb k "" then c else {[k]} ∪ c)) st v.
Proof.
  unfold waitSnapshot. destruct (Get w id) as [a|].
  - destruct (SubscribeSnapshot _ _); eexists; split_and!; try done. intros r [= <-]. by do 2 eexists.
  - eexists. split_and!; try done. intros r [= <-]. by do 2 eexists.
Qed.


(** The waited-for agent's log grows by [gap] between the baseline snapshot and
    the subscription. *)
Definition watching env id (a : Agent) (gap : list Event) : Prop :=
  Get (we_snap env) id = Some a ∧ hub_sync (w_store (we_snap env)) (a_hub a) ∧
  ∃ a3, w_objs (we_sub env) !! id = Some a3 ∧ hub_sync (w_store (we_sub env)) (a_hub a3) ∧
    log_of (w_store (we_sub env)) (a_hub a3) = log_of (w_store (we_snap env)) (a_hub a) ++ gap.

Definition base_verdict (evs : list Event) : string :=
  match assessmentFromEvents evs with Some v => av_Verdict v | None => ""%string end.

Definition settled env id (a : Agent) : Prop :=
  let a2 := default a (w_objs (we_state env) !! id) in
  f_state (a_fsm a2) = SessionIdle ∨ a_status a2 = StatusFailed.

Lemma last_seq_log l : gap_free l → last_seq l = log_len l.
Proof.
  intros Hg. unfold last_seq. destruct (last l) as [ev|] eqn:E; simpl.
  - by apply gap_free_last.
  - apply last_None in E. by subst.
Qed.

(** The replay of the subscription is exactly the gap. *)
Lemma replay_is_gap s h l gap after replay k h' :
  hub_sync s h → gap_free l → log_of s h = l ++ gap → after = log_len l →
  Subscribe s h after = (Ok (replay, k), h') → replay = gap.
Proof.
  intros (Hinv & Hv & _) Hg Hlog -> Hsub. unfold Subscribe in Hsub.
  destruct (Replay s (h_agentID h) (log_len l)) as [r|] eqn:E; [|done]. injection Hsub as <- _ _.
  apply es_replay in E; [|done..]. subst r. fold (log_of s h).
  pose proof (proj1 (es_log_wf _ _ Hinv Hv)) as Hgf. fold (log_of s h) in Hgf.
  rewrite Hlog in Hgf |- *. rewrite filter_app. rewrite (filter_none _ l), app_nil_l.
  - apply filter_id, Forall_forall. intros ev Hin. by apply (gap_free_suffix l gap).
  - apply Forall_forall. intros ev Hin. pose proof (gap_free_elem _ _ Hg Hin). lia.
Qed.

(** The three ways a call goes: at once, a failed read, or on to the gap. *)
Lemma Wait_cases env id a gap : watching env id a gap →
  let l := log_of (w_store (we_snap env)) (a_hub a) in
  Wait id env = Some (WErr EStoreFailed) ∨
  (settled env id a ∧ ∃ r, Wait id env = Some (WDone r) ∧ wr_Changed r = [waitChangedState]) ∨
  (¬ settled env id a ∧
   let '(woke, changed, last') := consumeWakeEvents gap ∅ (base_verdict l) in
   Wait id env =
     if woke then Some (waitSnapshot (we_final env) id "" (waitDrain (we_drain env) changed last').1)
     else wait_loop id env (we_obs env) changed last').
Proof.
  intros (Hg & Hs & a3 & Ha3 & Hs3 & Hlog) l. unfold Wait. rewrite Hg.
  destruct (SubscribeSnapshot _ _) as [evs|e] eqn:Esn; [|by left].
  apply SubscribeSnapshot_log in Esn; [|done]. fold l in Esn. subst evs. cbv zeta.
  destruct (decide _) as [Hd|Hd]; [right; left; split; [done|by eexists]|].
  rewrite Ha3. simpl. destruct (Subscribe _ _ _) as [[[replay k]|e] h'] eqn:Esub; [|by left].
  right; right. split; [done|].
  assert (Hgl : gap_free l) by apply (es_log_wf _ _ (proj1 Hs) (proj1 (proj2 Hs))).
  apply (replay_is_gap _ _ l gap) in Esub; [|done..|by apply last_seq_log]. subst replay.
  unfold base_verdict. by destruct (consumeWakeEvents _ _ _) as [[b c] v'].
Qed.


Lemma wait_loop_quiet id env seen rest v : Forall (quiet v) seen →
  wait_loop id env (map OLive seen ++ rest) ∅ v = wait_loop id env rest ∅ v.
Proof.
  induction 1 as [|ev seen Hq _ IH]; [done|]. simpl. by rewrite (wake_step_quiet _ _ _ Hq).
Qed.


(** Nothing else wakes.  Deltas, verbatim records, boots and assessments that
    repeat the verdict the caller already had leave the call waiting: it returns
    when its timeout fires, and says so with exactly [timeout]. *)
Theorem wait_quiet_times_out env id a gap seen rest :
  watching env id a gap → ¬ settled env id a → we_obs env = map OLive seen ++ OTimeout :: rest →
  Forall (quiet (base_verdict (log_of (w_store (we_snap env)) (a_hub a)))) (gap ++ seen) →
  ∃ out, Wait id env = Some out ∧ out ≠ WCancelled ∧
    ∀ r, out = WDone r → wr_Changed r = [waitChangedTimeout].
Proof.
  intros Hw Hns Hobs [Hq1 Hq2]%Forall_app.
  destruct (Wait_cases env id a gap Hw) as [->|[(Hst & _)|[_ Hc]]]; [by eexists|done|].
  rewrite (consume_quiet _ _ _ Hq1) in Hc. rewrite Hc, Hobs, (wait_loop_quiet _ _ _ _ _ Hq2). simpl.
  destruct (waitSnapshot_changed (we_final env) id waitChangedTimeout ∅) as (out & -> & Hn & Hr).
  exists out. split_and!; [done..|]. intros r Ho. by destruct (Hr r Ho) as (st & v & ->).
Qed.

(** A full channel loses the wake.  When the waiter's channel already holds its
    256 events and they are all quiet, the settle that ends the turn is stored but
    never reaches the waiter: it works through what it holds and is left waiting
    for its timeout, although the log says the session is over. *)
Theorem wait_misses_dropped_settle env id s h fs ev s' h' k ch v rest :
  PublishLifecycle s h lifecycleSettled fs = (Some ev, s', h') →
  h_subscribers h !! k = Some ch → length ch = chan_cap → Forall (quiet v) ch →
  state_wake ev ∧ h_subscribers h' !! k = Some ch ∧
  wait_loop id env (map OLive ch ++ OTimeout :: rest) ∅ v =
    Some (waitSnapshot (we_final env) id waitChangedTimeout ∅).
Proof.
  intros Hp Hk Hlen Hq. rewrite (wait_loop_quiet _ _ _ _ _ Hq). unfold PublishLifecycle in Hp.
  destruct (h_closed h); [done|]. destruct (Append _ _ _) as [[e|] s1]; [done|].
  injection Hp as <- _ <-. split_and!; [done| |done].
  unfold fanout, set_seq. simpl. rewrite lookup_fmap, Hk. simpl. unfold send. by rewrite Hlen.
Qed.

End wait_theorems.

(** ** The timeout parameter *)

(** A timeout below the overflow point of a 64-bit duration is honoured up to the
    ten-minute cap: the parameter is refused unless it is a positive integer, and
    the wait lasts the smaller of what was asked and the cap. *)
Theorem parseWaitTimeout_honoured raw secs :
  raw ≠ ""%string → Atoi raw = Some secs → secs ≤ 9223372036 →
  parseWaitTimeout raw =
    if decide (0 < secs) then Some (Z.min (secs * second) waitMaxTimeout) else None.
Proof.
  intros Hne Ha Hle. unfold parseWaitTimeout. rewrite (proj2 (String.eqb_neq _ _) Hne), Ha.
  destruct (Z.leb_spec secs 0); [by rewrite decide_False by lia|]. rewrite decide_True by lia.
  rewrite i64_wrap_small by (unfold i64_min, i64_max, second; lia).
  f_equal. destruct (Z.ltb_spec waitMaxTimeout (secs * second)); lia.
Qed.

(** Beyond it the product wraps before the cap is applied: a positive number of
    seconds, which should be clamped to ten minutes, gives a negative timeout. *)
Theorem parseWaitTimeout_overflows :
  ∃ raw secs d, Atoi raw = Some secs ∧ 600 < secs ∧ parseWaitTimeout raw = Some d ∧ d < 0.
Proof. by exists "9223372037"%string, 9223372037, (-9223372036709551616). Qed.

(** ** A concrete wait *)

Definition ex_waiter (h : EventHub) : Agent :=
  mkAgent ex_id "sbx" 0 "" ex_resolved StatusWorking 0 false "" false false h
    (mkFSM ex_id SessionRunning) StdinNil None true 0 false.

Definition ex_wworld (st : MemDB * EventHub) : World MemDB :=
  mkWorld st.1 {[ex_id := ex_waiter st.2]} {[ex_id]} None.

Definition ex_note (t : string) : RawMessage := RJson (JObj [("type"%string, JStr t)]).

(** The agent settles between the snapshot and the subscription. *)
Definition ex_wait (ops : list hub_op) (obs : list wait_obs) : wait_env :=
  let w0 := ex_wworld (mem_empty, ex_hub) in
  let w1 := ex_wworld (hub_run (mem_empty, ex_hub) ops) in
  mkWaitEnv w0 w0 w1 obs [] w1.

Lemma ex_watching ops obs gap :
  Forall op_ok ops → (N.of_nat (length ops) < u64_bound)%N →
  (let '(s, h) := hub_run (mem_empty, ex_hub) ops in log_of s h) = gap →
  watching (ex_wait ops obs) ex_id (ex_waiter ex_hub) gap.
Proof.
  intros Hok Hlen Hgap. split_and!; [vm_compute; reflexivity|exact (ex_hub_sync _ _)|].
  pose proof (hub_run_log mem_empty ex_hub ops (ex_hub_sync _ _) Hok) as Hr.
  change (log_len (log_of mem_empty ex_hub)) with 0%N in Hr. rewrite N.add_0_l in Hr.
  specialize (Hr Hlen). exists (ex_waiter (hub_run (mem_empty, ex_hub) ops).2).
  unfold ex_wait, ex_wworld. cbn [we_sub we_snap w_objs w_store].
  destruct (hub_run (mem_empty, ex_hub) ops) as [s h]. destruct Hr as (Hs & _ & evs & Hl & _).
  split_and!; [by rewrite lookup_singleton_eq|done|]. simpl. by rewrite Hgap.
Qed.


Definition ex_settled : Event :=
  mkEvent 2 lifecycleSettled (RJson (JObj [("seq", JInt 2); ("type", JStr lifecycleSettled)]))%string.

Definition ex_gap : list Event := [mkEvent 1 "text_delta" (ex_note "text_delta"); ex_settled].


Definition ex_delta : Event := mkEvent 2 "text_delta" (ex_note "text_delta").

Lemma wait_quiet_times_out_witness :
  ∃ out, Wait ex_id (ex_wait [OpPublish (ex_note "text_delta")] [OLive ex_delta; OTimeout]) = Some out ∧
    out ≠ WCancelled ∧ ∀ r, out = WDone r → wr_Changed r = [waitChangedTimeout].
Proof.
  apply (wait_quiet_times_out (ex_wait [OpPublish (ex_note "text_delta")] [OLive ex_delta; OTimeout])
    ex_id (ex_waiter ex_hub) (take 1 ex_gap) [ex_delta] []).
  - apply ex_watching; [repeat constructor|vm_compute; reflexivity..].
  - intros [?|?]; discriminate.
  - reflexivity.
  - repeat constructor.
Defined.

(** A subscriber that has fallen 256 deltas behind. *)
Definition ex_full : EventHub := mkHub ex_id 0 0 {[0%nat := replicate chan_cap ex_delta]} 1 false.

Lemma wait_misses_dropped_settle_witness :
  ∃ ev s' h', PublishLifecycle mem_empty ex_full lifecycleSettled [] = (Some ev, s', h') ∧
    state_wake ev ∧ h_subscribers h' !! 0%nat = Some (replicate chan_cap ex_delta) ∧
    wait_loop ex_id (ex_wait [] []) (map OLive (replicate chan_cap ex_delta) ++ [OTimeout]) ∅ "" =
      Some (waitSnapshot (ex_wworld (mem_empty, ex_hub)) ex_id waitChangedTimeout ∅).
Proof.
  destruct (PublishLifecycle mem_empty ex_full lifecycleSettled []) as [[[ev|] s'] h'] eqn:E.
  - exists ev, s', h'. split; [reflexivity|].
    apply (wait_misses_dropped_settle (ex_wait [] []) ex_id mem_empty ex_full [] ev s' h' 0%nat
      (replicate chan_cap ex_delta) "" [] E); [reflexivity..|].
    apply Forall_replicate. left. reflexivity.
  - vm_compute in E. discriminate.
Defined.

Lemma parseWaitTimeout_honoured_witness : parseWaitTimeout "900" = Some (600 * second).
Proof. apply (parseWaitTimeout_honoured "900" 900); [discriminate|reflexivity|lia]. Defined.
