(* ===== verification/Pi.v ===== *)
(** * The pi subprocess inside the sandbox (src/daemon/pi.go)

    Starting, respawning with backoff, the relays of its output, the commands
    written to its input, and the tracker of its queue.  What the operating
    system answers is an argument.  The operations return what they do to the
    outside, in order; the result of a spool append is only ever logged, so an
    append is one of those effects. *)

From Stdlib Require Import String ZArith.
From S2P Require Import Prelude Json GoTime GoStrings Spool.
From stdpp Require Import base list strings numbers gmap.
Local Open Scope Z_scope.

(** A command as [POST /commands] decodes it (src/daemon/http.go). *)
Record Command : Type := mkCommand {
  c_ID : string;
  c_Type : string;
  c_Payload : RawMessage;
  c_Status : string
}.

Definition CommandPrompt : string := "prompt".
Definition CommandSteer : string := "steer".
Definition CommandAbort : string := "abort".
Definition CommandClearQueue : string := "clear_queue".

Record pi_policy : Type := mkPolicy {
  rapidExitWindow : Z;
  backoffInitial : Z;
  backoffMax : Z;
  stableRunReset : Z
}.

Definition default_policy : pi_policy := mkPolicy (5 * second) second (30 * second) (60 * second).

(** A Go slice of texts; [None] is nil, which prints as [null]. *)
Definition texts := option (list string).

Definition elems (t : texts) : list string := default [] t.

Definition texts_json (t : texts) : json :=
  match t with None => JNull | Some l => JArr (JStr <$> l) end.

(** A process is known by its generation: [p_cmd] is the one the manager holds,
    [p_stdin] the one whose input pipe it holds. *)
Record Pi : Type := mkPi {
  p_command : list string;
  p_sessionID : string;
  p_sessionDir : string;
  p_policy : pi_policy;
  p_cmd : option nat;
  p_stdin : option nat;
  p_running : bool;
  p_queuedSteering : texts;
  p_queuedFollowUp : texts;
  p_generation : nat;
  p_lastStart : Z;
  p_lastExitCode : Z;
  p_lastExitUnexpected : bool;
  p_intentional : bool;
  p_restarts : nat;
  p_backoff : Z;
  p_rapidStreak : nat
}.

Definition NewPi (command : list string) (sessionID sessionDir : string) : Pi :=
  mkPi command sessionID sessionDir default_policy None None false None None 0 zero_time 0 false false 0 0 0.

Definition set_queue (steer follow : texts) (p : Pi) : Pi :=
  mkPi (p_command p) (p_sessionID p) (p_sessionDir p) (p_policy p) (p_cmd p) (p_stdin p)
    (p_running p) steer follow (p_generation p) (p_lastStart p) (p_lastExitCode p)
    (p_lastExitUnexpected p) (p_intentional p) (p_restarts p) (p_backoff p) (p_rapidStreak p).

Definition set_exit (unexpected intentional : bool) (p : Pi) : Pi :=
  mkPi (p_command p) (p_sessionID p) (p_sessionDir p) (p_policy p) (p_cmd p) (p_stdin p)
    (p_running p) (p_queuedSteering p) (p_queuedFollowUp p) (p_generation p) (p_lastStart p)
    (p_lastExitCode p) unexpected intentional (p_restarts p) (p_backoff p) (p_rapidStreak p).

(** What the daemon does to the outside. *)
Inductive effect : Type :=
| ESleep (d : Z)
| ELaunch (argv : list string)
| ESpool (data : RawMessage)
| EWrite (line : json)
| ETerm
| EKill.

(** ** Launching *)

Definition piFlags (sessionID sessionDir : string) : list string :=
  if String.eqb sessionID "" then []
  else ["--session-dir"; if String.eqb sessionDir "" then "/sandbox/kape/sessions" else sessionDir;
        "--session-id"; sessionID]%string.

Definition piArgv (command : list string) (sessionID sessionDir : string) : list string :=
  match command with [] => [] | _ => command ++ piFlags sessionID sessionDir end.

(** How far a launch gets: the clock after it, or the failing call. *)
Inductive launch : Type :=
| Launched (now : Z)
| LaunchFailed (what : string).

Definition notice (ms : list (string * json)) : effect := ESpool (RJson (JObj (fields_of ms))).

(** [Duration.Milliseconds] truncates towards zero. *)
Definition Milliseconds (d : Z) : Z := Z.quot d 1000000.

Definition pi_restart_notice (p : Pi) : effect :=
  notice [("type", JStr "pi_restart"); ("exit_code", JInt (p_lastExitCode p));
          ("backoff_ms", JInt (Milliseconds (p_backoff p)));
          ("restarts", JInt (Z.of_nat (p_restarts p)))]%string.

(** [Start] from the respawn decision on, under the lock. *)
Definition Start_launch (argv : list string) (l : launch) (p : Pi) : option string * list effect * Pi :=
  let respawnAfterUnexpected := p_lastExitUnexpected p in
  let p1 := set_exit false false p in
  match l with
  | LaunchFailed what => (Some what, [], p1)
  | Launched now =>
      let restarts := if (0 <? p_generation p)%nat then S (p_restarts p) else p_restarts p in
      let gen := S (p_generation p) in
      let p2 := mkPi (p_command p) (p_sessionID p) (p_sessionDir p) (p_policy p) (Some gen) (Some gen)
                  true (p_queuedSteering p) (p_queuedFollowUp p) gen now (p_lastExitCode p) false
                  false restarts (p_backoff p) (p_rapidStreak p) in
      (None, ELaunch argv :: (if (1 <? gen)%nat && respawnAfterUnexpected
                              then [pi_restart_notice p2] else []), p2)
  end.

(** The argv [Start] launches; [self] is what [os.Executable] answers. *)
Definition start_argv (self : option string) (p : Pi) : option (list string) :=
  match piArgv (p_command p) (p_sessionID p) (p_sessionDir p) with
  | [] => match self with
          | None => None
          | Some s => Some ([s; "fakepi"%string] ++ piFlags (p_sessionID p) (p_sessionDir p))
          end
  | argv => Some argv
  end.

(** [Start]; [others] is what other goroutines do while the lock is released for
    the backoff. *)
Definition Start (self : option string) (others : Pi → Pi) (l : launch) (p : Pi)
    : option string * list effect * Pi :=
  if p_running p then (None, [], p)
  else match start_argv self p with
  | None => (Some "resolve self for fake pi"%string, [], p)
  | Some argv =>
      if p_lastExitUnexpected p && (0 <? p_backoff p) then
        let p1 := others p in
        if p_running p1 then (None, [ESleep (p_backoff p)], p1)
        else let '(e, effs, p2) := Start_launch argv l p1 in (e, ESleep (p_backoff p) :: effs, p2)
      else Start_launch argv l p
  end.

(** ** The exit *)

(** [d << k] on a 64-bit duration. *)
Definition dur_shl (d : Z) (k : nat) : Z := i64_wrap (Z.shiftl d (Z.of_nat k)).

Definition backoff_after (pol : pi_policy) (streak : nat) : Z :=
  let d := dur_shl (backoffInitial pol) (streak - 1) in
  if (backoffMax pol <? d) || (d <=? 0) then backoffMax pol else d.

(** What [cmd.Wait] returns. *)
Inductive wait_status : Type :=
| WaitOk
| WaitExit (code : Z)
| WaitOther.

Definition exit_code (w : wait_status) : Z :=
  match w with WaitOk => 0 | WaitExit c => c | WaitOther => 1 end.

(** The locked part of [awaitExit] for the process of generation [gen]. *)
Definition exit_account (gen : nat) (w : wait_status) (now : Z) (p : Pi) : Pi :=
  let running := if bool_decide (p_cmd p = Some gen) then false else p_running p in
  let uptime := Sub now (p_lastStart p) in
  let '(streak, backoff) :=
    if p_intentional p then (p_rapidStreak p, p_backoff p)
    else if uptime <? rapidExitWindow (p_policy p) then
      (S (p_rapidStreak p), backoff_after (p_policy p) (S (p_rapidStreak p)))
    else if stableRunReset (p_policy p) <=? uptime then (O, 0)
    else (p_rapidStreak p, p_backoff p) in
  mkPi (p_command p) (p_sessionID p) (p_sessionDir p) (p_policy p) (p_cmd p) (p_stdin p) running
    (p_queuedSteering p) (p_queuedFollowUp p) (p_generation p) (p_lastStart p) (exit_code w)
    (if p_intentional p then p_lastExitUnexpected p else true) (p_intentional p) (p_restarts p)
    backoff streak.

(** The rest of [awaitExit], after the lock is released. *)
Definition exit_finish (w : wait_status) (p : Pi) : list effect * Pi :=
  ([notice [("type", JStr "pi_exit"); ("exit_code", JInt (exit_code w))]%string], set_queue None None p).

(** ** Teardown *)

Definition Kill (p : Pi) : list effect * Pi :=
  (match p_cmd p with None => [] | Some _ => [EKill] end,
   set_exit (p_lastExitUnexpected p) true p).

(** [Shutdown]; whether pi still runs when the grace is over. *)
Definition Shutdown (running_after_grace : bool) (p : Pi) : list effect * Pi :=
  (match p_cmd p with
   | None => []
   | Some _ => ETerm :: (if running_after_grace then [EKill] else [])
   end, set_exit (p_lastExitUnexpected p) true p).

(** ** Output relays and the queue tracker *)

(** A [[]json.RawMessage] field: an array gives its elements, [null] empties it,
    anything else is an error. *)
Definition slice_field (field : string) (ms : list (string * json)) : list json * bool :=
  fold_left (λ (st : list json * bool) kv,
    if key_matches field (fst kv) then
      match snd kv with
      | JNull => ([], snd st)
      | JArr l => (l, snd st)
      | _ => (fst st, true)
      end
    else st) ms ([], false).

Section relays.
(** [compact] is the text of a document without its white space, and [mentions]
    whether the text of a line contains the substring [queue_update] in quotes:
    both depend on the spelling of the text, which the parse tree leaves out. *)
  Context (compact : json → string) (mentions : json → bool).

Definition queueTexts (es : list json) : list string :=
  (λ e, match e with JStr s => s | JNull => ""%string | _ => compact e end) <$> es.

Definition trackQueueUpdate (line : json) (p : Pi) : Pi :=
  if negb (mentions line) then p
  else match unmarshal_struct (RJson line) with
  | None => p
  | Some ms =>
      let '(typ, bad1) := string_field "type" ms in
      let '(steering, bad2) := slice_field "steering" ms in
      let '(followUp, bad3) := slice_field "followUp" ms in
      if bad1 || bad2 || bad3 || negb (String.eqb typ "queue_update") then p
      else set_queue (Some (queueTexts steering)) (Some (queueTexts followUp)) p
  end.

(** [spoolStdoutLine]; an empty line is [RNil], a line that is not JSON [RBad]. *)
Definition spoolStdoutLine (line : RawMessage) (p : Pi) : list effect * Pi :=
  match line with
  | RNil => ([], p)
  | RBad text => ([ESpool (RJson (JStr text))], p)
  | RJson j => ([ESpool line], trackQueueUpdate j p)
  end.

Definition stderrNotice (text : string) : list effect :=
  if String.eqb text "" then []
  else [notice [("type", JStr "pi_stderr"); ("text", JStr text)]%string].

(** [relayStdout] over the lines it reads, the last one ended by the end of the
    stream or by the read error [err]. *)
Fixpoint relayStdout (lines : list RawMessage) (err : option string) (p : Pi) : list effect * Pi :=
  match lines with
  | [] => (match err with
           | None => []
           | Some e => stderrNotice ("pi stdout relay error: " +:+ e)
           end, p)
  | line :: rest =>
      let '(effs1, p1) := spoolStdoutLine line p in
      let '(effs2, p2) := relayStdout rest err p1 in (effs1 ++ effs2, p2)
  end.

Definition relayStderr (texts : list string) : list effect := texts ≫= stderrNotice.

Definition queue_drained (steer follow : texts) : effect :=
  notice [("type", JStr "queue_drained"); ("steering", texts_json steer);
          ("follow_up", texts_json follow)]%string.

Definition drainNotice (p : Pi) : list effect * Pi :=
  let steer := p_queuedSteering p in
  let follow := p_queuedFollowUp p in
  (if (length (elems steer) =? 0)%nat && (length (elems follow) =? 0)%nat then []
   else [queue_drained steer follow], set_queue None None p).

(** ** Commands *)

Definition steerText (payload : RawMessage) : string :=
  let fallback := match payload with RJson j => compact j | RNil => ""%string | RBad t => t end in
  match unmarshal_struct payload with
  | None => fallback
  | Some ms => match string_field "message" ms with
               | (m, false) => if String.eqb m "" then fallback else m
               | (_, true) => fallback
               end
  end.

Definition trackPendingSteer (payload : RawMessage) (p : Pi) : Pi :=
  let text := steerText payload in
  if String.eqb text "" then p
  else set_queue (Some (elems (p_queuedSteering p) ++ [text])) (p_queuedFollowUp p) p.

Definition clear_line (c : Command) : json :=
  JObj (fields_of [("type", JStr CommandClearQueue); ("command_id", JStr (c_ID c))])%string.

Definition abort_line : json := JObj [("type", JStr "abort")]%string.

Definition command_line (c : Command) : option json :=
  p ← marshal_raw (c_Payload c);
  Some (JObj (fields_of [("type", JStr (c_Type c)); ("command_id", JStr (c_ID c)); ("payload", p)]))%string.

(** The outside of one [SendCommand]: the answers of its [Start], what happens
    between that and taking the lock, and whether the writes succeed. *)
Record send_env : Type := mkSendEnv {
  se_self : option string;
  se_others : Pi → Pi;
  se_launch : launch;
  se_between : Pi → Pi;
  se_write1 : bool;
  se_write2 : bool
}.

(** The abort pair under the lock. *)
Definition send_abort (env : send_env) (c : Command) (p : Pi) : option string * list effect * Pi :=
  match p_stdin p with
  | None => (Some "pi stdin unavailable"%string, [], p)
  | Some _ =>
      if negb (se_write1 env) then (Some "send clear_queue (abort pair)"%string, [], p)
      else let '(effs, p1) := drainNotice p in
           if se_write2 env then (None, EWrite (clear_line c) :: effs ++ [EWrite abort_line], p1)
           else (Some "abort"%string, EWrite (clear_line c) :: effs, p1)
  end.

(** Any other command under the lock. *)
Definition send_line (env : send_env) (c : Command) (p : Pi) : option string * list effect * Pi :=
  match command_line c with
  | None => (Some "marshal"%string, [], p)
  | Some line =>
      match p_stdin p with
      | None => (Some "pi stdin unavailable"%string, [], p)
      | Some _ =>
          let p1 := if String.eqb (c_Type c) CommandSteer then trackPendingSteer (c_Payload c) p else p in
          if se_write1 env then (None, [EWrite line], p1) else (Some "write"%string, [], p1)
      end
  end.

Definition SendCommand (env : send_env) (c : Command) (p : Pi) : option string * list effect * Pi :=
  match Start (se_self env) (se_others env) (se_launch env) p with
  | (Some e, effs, p1) => (Some e, effs, p1)
  | (None, effs, p1) =>
      let '(e, effs', p2) :=
        (if String.eqb (c_Type c) CommandAbort then send_abort env c else send_line env c)
          (se_between env p1) in
      (e, effs ++ effs', p2)
  end.

End relays.

(** ** The respawn backoff *)

Lemma dur_shl_small k : (k ≤ 33)%nat → dur_shl second k = second * 2 ^ Z.of_nat k.
Proof.
  intros Hk. unfold dur_shl. rewrite Z.shiftl_mul_pow2 by lia. apply i64_wrap_small.
  assert (0 < 2 ^ Z.of_nat k ≤ 2 ^ 33).
  { split; [apply Z.pow_pos_nonneg; lia|apply Z.pow_le_mono_r; lia]. }
  change (2 ^ 33) with 8589934592 in *. unfold i64_min, i64_max, second. lia.
Qed.

(** Past the 64-bit range the product only has its high bits left. *)
Lemma dur_shl_large k : (34 ≤ k)%nat → ∃ q, dur_shl second k = 8796093022208 * q.
Proof.
  intros Hk. unfold dur_shl, i64_wrap. rewrite Z.shiftl_mul_pow2 by lia.
  replace (Z.of_nat k) with (34 + Z.of_nat (k - 34)) by lia. rewrite Z.pow_add_r by lia.
  set (m := 2 ^ Z.of_nat (k - 34)).
  replace (second * (2 ^ 34 * m)) with (8796093022208 * (1953125 * m))
    by (change (2 ^ 34) with 17179869184; unfold second; lia).
  eexists. rewrite Z.mod_eq by lia.
  instantiate (1 := 1953125 * m -
    2097152 * ((8796093022208 * (1953125 * m) + 9223372036854775808) / 18446744073709551616)).
  lia.
Qed.

(** The shift with its cap and overflow guard is the capped power of two. *)
Lemma backoff_after_spec pol n :
  backoffInitial pol = second → second ≤ backoffMax pol < 2 ^ 43 →
  backoff_after pol (S n) = Z.min (second * 2 ^ Z.of_nat n) (backoffMax pol).
Proof.
  intros Hi Hm. change (2 ^ 43) with 8796093022208 in Hm. unfold backoff_after. rewrite Hi.
  replace (S n - 1)%nat with n by lia. destruct (decide (n ≤ 33)%nat).
  - rewrite dur_shl_small by done. pose proof (Z.pow_pos_nonneg 2 (Z.of_nat n)). unfold second in *.
    destruct (Z.ltb_spec (backoffMax pol) (1000000000 * 2 ^ Z.of_nat n)); simpl; [lia|].
    destruct (Z.leb_spec (1000000000 * 2 ^ Z.of_nat n) 0); lia.
  - destruct (dur_shl_large n) as [q Hq]; [lia|].
    assert (2 ^ 34 ≤ 2 ^ Z.of_nat n) by (apply Z.pow_le_mono_r; lia).
    change (2 ^ 34) with 17179869184 in *. unfold second in *.
    destruct (Z.ltb_spec (backoffMax pol) (dur_shl 1000000000 n)); simpl; [lia|].
    destruct (Z.leb_spec (dur_shl 1000000000 n) 0); lia.
Qed.

(** A live, uninterrupted process. *)
Record alive (p : Pi) : Prop := mkAlive {
  al_running : p_running p = true;
  al_cmd : p_cmd p = Some (p_generation p);
  al_gen : (0 < p_generation p)%nat;
  al_willing : p_intentional p = false
}.

(** One crash and the respawn the next command causes: how pi ended, when, and
    when the new process started. *)
Record crash : Type := mkCrash { cr_how : wait_status; cr_exit : Z; cr_start : Z }.

Definition crash_step (self : option string) (c : crash) (p : Pi) : list effect * Pi :=
  let '(effs1, p1) := exit_finish (cr_how c) (exit_account (p_generation p) (cr_how c) (cr_exit c) p) in
  let '(_, effs2, p2) := Start self id (Launched (cr_start c)) p1 in (effs1 ++ effs2, p2).

Fixpoint crash_run (self : option string) (cs : list crash) (p : Pi) : list effect * Pi :=
  match cs with
  | [] => ([], p)
  | c :: rest => let '(effs1, p1) := crash_step self c p in
                 let '(effs2, p2) := crash_run self rest p1 in (effs1 ++ effs2, p2)
  end.

(** Every process of the run dies within the window after its own start. *)
Fixpoint all_rapid (window started : Z) (cs : list crash) : Prop :=
  match cs with
  | [] => True
  | c :: rest => Sub (cr_exit c) started < window ∧ all_rapid window (cr_start c) rest
  end.

Definition sleeps (effs : list effect) : list Z :=
  omap (λ e, match e with ESleep d => Some d | _ => None end) effs.

Definition launches (effs : list effect) : list (list string) :=
  omap (λ e, match e with ELaunch argv => Some argv | _ => None end) effs.

(** A rapid exit: the streak grows, the next start waits for the new backoff,
    launches, and announces the restart. *)
Lemma crash_step_rapid self argv c p :
  alive p → start_argv self p = Some argv →
  Sub (cr_exit c) (p_lastStart p) < rapidExitWindow (p_policy p) →
  0 < backoff_after (p_policy p) (S (p_rapidStreak p)) →
  ∃ effs p', crash_step self c p = (effs, p') ∧ alive p' ∧
    sleeps effs = [backoff_after (p_policy p) (S (p_rapidStreak p))] ∧ launches effs = [argv] ∧
    last effs = Some (pi_restart_notice p') ∧
    p_backoff p' = backoff_after (p_policy p) (S (p_rapidStreak p)) ∧
    p_rapidStreak p' = S (p_rapidStreak p) ∧ p_policy p' = p_policy p ∧
    p_restarts p' = S (p_restarts p) ∧ p_lastStart p' = cr_start c ∧ start_argv self p' = Some argv.
Proof.
  intros [Hr Hc Hg Hw] Ha Hrapid Hpos. unfold crash_step, exit_finish, exit_account.
  rewrite Hw, bool_decide_true by done. rewrite (proj2 (Z.ltb_lt _ _) Hrapid).
  unfold Start. cbn [set_queue p_running]. unfold start_argv in *. cbn [p_command p_sessionID p_sessionDir].
  destruct (match piArgv _ _ _ with [] => _ | _ => _ end) as [argv'|] eqn:E; [|done].
  injection Ha as ->. cbn. rewrite (proj2 (Z.ltb_lt _ _) Hpos).
  unfold Start_launch. cbn. destruct (p_generation p) as [|g] eqn:Eg; [lia|]. cbn.
  eexists _, _. split; [reflexivity|]. split_and!; try done. split; cbn; auto; lia.
Qed.

(** C37. Crash loops back off exponentially and never give up.  With the default
    first delay and any cap below about two hours, pi dying rapidly any number of
    times in a row is respawned every time; the respawns wait one second, two,
    four and so on up to the cap, at every streak length, although the delay is
    computed by a shift that leaves the 64-bit range. *)
Theorem crash_loop_backs_off self argv p cs :
  alive p → start_argv self p = Some argv → p_rapidStreak p = 0%nat →
  backoffInitial (p_policy p) = second → second ≤ backoffMax (p_policy p) < 2 ^ 43 →
  all_rapid (rapidExitWindow (p_policy p)) (p_lastStart p) cs →
  let '(effs, p') := crash_run self cs p in
  sleeps effs = (λ i, Z.min (second * 2 ^ Z.of_nat i) (backoffMax (p_policy p))) <$> seq 0 (length cs) ∧
  launches effs = replicate (length cs) argv ∧
  alive p' ∧ p_restarts p' = (p_restarts p + length cs)%nat.
Proof.
  intros Hal Ha Hs Hi Hm Hr.
  destruct (crash_run self cs p) as [effs p'] eqn:E. rewrite <-Hs. clear Hs.
  revert p effs p' Hal Ha Hi Hm Hr E. induction cs as [|c cs IH]; intros p effs p' Hal Ha Hi Hm Hr; simpl.
  { intros [= <- <-]. split_and!; [done..|lia]. }
  destruct Hr as [Hr1 Hr]. pose proof (backoff_after_spec _ (p_rapidStreak p) Hi Hm) as Hb.
  pose proof (Z.pow_pos_nonneg 2 (Z.of_nat (p_rapidStreak p))).
  destruct (crash_step_rapid self argv c p Hal Ha Hr1) as
    (effs1 & p1 & -> & Hal1 & Hsl & Hla & _ & _ & Hst & Hpo & Hre & Hls & Ha1);
    [rewrite Hb; unfold second in *; lia|].
  destruct (crash_run self cs p1) as [effs2 p2] eqn:E2. intros [= <- <-].
  rewrite <-Hpo in Hi, Hm. rewrite <-Hls, <-Hpo in Hr.
  destruct (IH p1 effs2 p2 Hal1 Ha1 Hi Hm Hr E2) as (H1 & H2 & H3 & H4).
  unfold sleeps, launches in *. rewrite !omap_app, Hsl, Hla, H1, H2, Hb, Hpo, Hst.
  split_and!; [done..|lia].
Qed.

(** ** One process at a time *)

(** The manager with its goroutines: the processes that run, the starters that
    sleep out a backoff, and the waiters between the two parts of [awaitExit]. *)
Record pi_sys : Type := mkSys {
  ps_pi : Pi;
  ps_procs : list nat;
  ps_sleeping : nat;
  ps_reaping : list wait_status
}.

Definition launch_procs (l : launch) (p : Pi) (procs : list nat) : list nat :=
  match l with Launched _ => S (p_generation p) :: procs | LaunchFailed _ => procs end.

Inductive pi_step : pi_sys → pi_sys → Prop :=
| pi_start self argv l p procs n ws :
    p_running p = false → start_argv self p = Some argv →
    p_lastExitUnexpected p && (0 <? p_backoff p) = false →
    pi_step (mkSys p procs n ws) (mkSys (Start_launch argv l p).2 (launch_procs l p procs) n ws)
| pi_sleep p procs n ws :
    p_running p = false → p_lastExitUnexpected p && (0 <? p_backoff p) = true →
    pi_step (mkSys p procs n ws) (mkSys p procs (S n) ws)
| pi_wake_lost p procs n ws :
    p_running p = true → pi_step (mkSys p procs (S n) ws) (mkSys p procs n ws)
| pi_wake argv l p procs n ws :
    p_running p = false →
    pi_step (mkSys p procs (S n) ws) (mkSys (Start_launch argv l p).2 (launch_procs l p procs) n ws)
| pi_exit g w now p procs1 procs2 n ws :
    pi_step (mkSys p (procs1 ++ g :: procs2) n ws)
            (mkSys (exit_account g w now p) (procs1 ++ procs2) n (w :: ws))
| pi_reap w p procs n ws1 ws2 :
    pi_step (mkSys p procs n (ws1 ++ w :: ws2)) (mkSys (exit_finish w p).2 procs n (ws1 ++ ws2))
| pi_kill p procs n ws : pi_step (mkSys p procs n ws) (mkSys (Kill p).2 procs n ws)
| pi_shutdown b p procs n ws : pi_step (mkSys p procs n ws) (mkSys (Shutdown b p).2 procs n ws)
| pi_queue steer follow p procs n ws :
    pi_step (mkSys p procs n ws) (mkSys (set_queue steer follow p) procs n ws).

(** A call of [Start] is a run of these steps, with those of the other goroutines
    in the middle of it. *)
Lemma Start_steps self others l p procs n ws procs1 n1 ws1 e effs p' :
  rtc pi_step (mkSys p procs (S n) ws) (mkSys (others p) procs1 (S n1) ws1) →
  Start self others l p = (e, effs, p') →
  ∃ procs' n' ws', rtc pi_step (mkSys p procs n ws) (mkSys p' procs' n' ws').
Proof.
  intros Hrun. unfold Start. destruct (p_running p) eqn:Hr.
  { intros [= _ _ <-]. do 3 eexists. reflexivity. }
  destruct (start_argv self p) as [argv|] eqn:Ha.
  2: { intros [= _ _ <-]. do 3 eexists. reflexivity. }
  destruct (p_lastExitUnexpected p && (0 <? p_backoff p)) eqn:Hb.
  - assert (Hs : rtc pi_step (mkSys p procs n ws) (mkSys (others p) procs1 (S n1) ws1)).
    { eapply rtc_l; [by apply pi_sleep|done]. }
    destruct (p_running (others p)) eqn:Hr1.
    + intros [= _ _ <-]. do 3 eexists. eapply rtc_r; [exact Hs|by apply pi_wake_lost].
    + destruct (Start_launch argv l (others p)) as [[e2 effs2] p2] eqn:El. intros [= _ _ <-].
      do 3 eexists. eapply rtc_r; [exact Hs|].
      replace p2 with (Start_launch argv l (others p)).2 by by rewrite El. by apply pi_wake.
  - intros El. do 3 eexists. apply rtc_once.
    replace p' with (Start_launch argv l p).2 by by rewrite El. by eapply pi_start.
Qed.

Definition proc_inv (s : pi_sys) : Prop :=
  let p := ps_pi s in
  ps_procs s = (if p_running p then [p_generation p] else []) ∧
  p_cmd p = (if (p_generation p =? 0)%nat then None else Some (p_generation p)) ∧
  p_stdin p = p_cmd p ∧ p_restarts p = pred (p_generation p) ∧
  (p_running p = true → (0 < p_generation p)%nat).

Lemma launch_inv argv l p n n' ws procs :
  p_running p = false → proc_inv (mkSys p procs n ws) →
  proc_inv (mkSys (Start_launch argv l p).2 (launch_procs l p procs) n' ws).
Proof.
  intros Hr (Hp & Hc & Hs & Hre & _). simpl in *. rewrite Hr in Hp. subst procs.
  destruct l as [now|what]; simpl.
  - split_and!; cbn; try done; [|lia]. rewrite Hre. destruct (p_generation p); cbn; lia.
  - unfold proc_inv. cbn. rewrite Hr. split_and!; done.
Qed.

Lemma pi_step_inv s s' : pi_step s s' → proc_inv s → proc_inv s'.
Proof.
  intros Hst Hinv. destruct Hst; try (by eapply launch_inv); try exact Hinv.
  destruct Hinv as (Hp & Hc & Hs & Hre & Hg). simpl in *.
  destruct (p_running p) eqn:Er; [|by destruct procs1].
  destruct procs1 as [|? procs1]; [|destruct procs1; discriminate Hp].
  injection Hp as -> ->. specialize (Hg eq_refl).
  unfold proc_inv, exit_account. cbn [ps_pi ps_procs].
  destruct (if p_intentional p then _ else _) as [streak backoff]. cbn.
  rewrite Hc in *. destruct (p_generation p) as [|g'] eqn:Eg; [lia|]. cbn in *.
  rewrite bool_decide_true by done. by split_and!.
Qed.

Lemma pi_run_inv s s' : rtc pi_step s s' → proc_inv s → proc_inv s'.
Proof. induction 1; eauto using pi_step_inv. Qed.

(** C14. There is never more than one pi.  Whatever the interleaving of starters,
    backoff sleeps, exits, kills and their late bookkeeping, at most one process
    runs; the daemon says it is running exactly when there is one, that process is
    the one it holds the input of, and the restart count it reports is the number
    of processes launched after the first. *)
Theorem single_pi command sid sdir procs p n ws :
  rtc pi_step (mkSys (NewPi command sid sdir) [] 0 []) (mkSys p procs n ws) →
  (length procs ≤ 1)%nat ∧ (p_running p = true ↔ procs ≠ []) ∧
  (∀ g, g ∈ procs → p_cmd p = Some g ∧ p_stdin p = Some g ∧ g = p_generation p) ∧
  p_restarts p = pred (p_generation p).
Proof.
  intros Hrun. assert (Hinv : proc_inv (mkSys p procs n ws)).
  { apply (pi_run_inv _ _ Hrun). by split_and!. }
  destruct Hinv as (Hp & Hc & Hs & Hre & Hg). simpl in *. subst procs.
  destruct (p_running p); (split; [simpl; lia|]); (split; [done|]); (split; [|done]).
  - intros g ->%list_elem_of_singleton. specialize (Hg eq_refl).
    rewrite Hs, Hc. destruct (p_generation p); [lia|]. by split_and!.
  - by intros g ?%elem_of_nil.
Qed.

(** ** Aborting *)

Section commands.
  Context (compact : json → string).

(** Abort is the pair, in order.  An abort that succeeds writes [clear_queue] and
    then [abort], with a notice of exactly the tracked texts spooled in between
    when there are any, and leaves the tracker empty.  If the first write fails,
    nothing is written, nothing is announced and the tracker is untouched. *)
Theorem abort_pair env c p :
  c_Type c = CommandAbort → p_running p = true → is_Some (p_stdin p) → se_between env = id →
  SendCommand compact env c p =
    if se_write1 env then
      (if se_write2 env then None else Some "abort"%string,
       [EWrite (clear_line c)] ++
       (if bool_decide (elems (p_queuedSteering p) = [] ∧ elems (p_queuedFollowUp p) = []) then []
        else [queue_drained (p_queuedSteering p) (p_queuedFollowUp p)]) ++
       (if se_write2 env then [EWrite abort_line] else []),
       set_queue None None p)
    else (Some "send clear_queue (abort pair)"%string, [], p).
Proof.
  intros Ht Hr [g Hg] Hb. unfold SendCommand, Start. rewrite Hr, Hb, Ht. simpl.
  unfold send_abort. rewrite Hg. destruct (se_write1 env); simpl; [|done].
  destruct (elems (p_queuedSteering p)), (elems (p_queuedFollowUp p)); simpl;
    rewrite ?bool_decide_true, ?bool_decide_false by naive_solver;
    by destruct (se_write2 env).
Qed.

(** A start of a stopped pi that is left alone launches it. *)
Lemma Start_alone self argv now p :
  p_running p = false → start_argv self p = Some argv →
  ∃ effs, Start self id (Launched now) p = (None, effs, (Start_launch argv (Launched now) p).2).
Proof.
  intros Hr Ha. unfold Start. rewrite Hr, Ha. unfold id. destruct (_ && _); [|by eexists].
  rewrite Hr. by eexists.
Qed.

(** The reset of a dead process can erase the queue of its successor.  The exit is
    accounted, which lets the next steer respawn pi and record its text; only then
    does the waiter of the old process clear the tracker.  A following abort
    empties pi's queue without the notice that lists the lost text. *)
Theorem late_reset_loses_steer self w now now' id1 id2 m p :
  alive p → is_Some (start_argv self p) → m ≠ ""%string →
  let env := mkSendEnv self id (Launched now') id true true in
  let steer := mkCommand id1 CommandSteer (RJson (JObj [("message", JStr m)])) "" in
  let abort := mkCommand id2 CommandAbort RNil "" in
  let p1 := exit_account (p_generation p) w now p in
  ∃ effs line p2 p3, SendCommand compact env steer p1 = (None, effs ++ [EWrite line], p2) ∧
    command_line steer = Some line ∧ m ∈ elems (p_queuedSteering p2) ∧
    SendCommand compact env abort (exit_finish w p2).2 =
      (None, [EWrite (clear_line abort); EWrite abort_line], p3).
Proof.
  intros [Hr Hc Hg Hw] [argv Ha] Hm env steer abort p1.
  assert (Hr1 : p_running p1 = false).
  { unfold p1, exit_account. destruct (if p_intentional p then _ else _). cbn.
    by rewrite bool_decide_true. }
  assert (Ha1 : start_argv self p1 = Some argv).
  { rewrite <-Ha. unfold p1, exit_account. by destruct (if p_intentional p then _ else _). }
  destruct (Start_alone self argv now' p1 Hr1 Ha1) as [effs Hst].
  unfold SendCommand at 1. cbn [se_self se_others se_launch se_between env]. rewrite Hst.
  destruct m as [|ch m]; [done|].
  do 4 eexists. split; [reflexivity|]. split; [reflexivity|]. split; [|reflexivity].
  simpl. set_solver.
Qed.

(** A failed launch forgets the crash.  After an unexpected exit the next start
    must wait out the backoff and announce the restart; if that start fails after
    the wait, the one after it launches at once and announces nothing. *)
Theorem failed_launch_forgets_crash self argv what now p :
  p_running p = false → (0 < p_generation p)%nat → start_argv self p = Some argv →
  p_lastExitUnexpected p = true → 0 < p_backoff p →
  ∃ p1, Start self id (LaunchFailed what) p = (Some what, [ESleep (p_backoff p)], p1) ∧
    p_backoff p1 = p_backoff p ∧
    (Start self id (Launched now) p).1.2 =
      [ESleep (p_backoff p); ELaunch argv;
       pi_restart_notice (Start self id (Launched now) p).2] ∧
    (Start self id (Launched now) p1).1 = (None, [ELaunch argv]).
Proof.
  intros Hr Hg Ha Hu Hb. exists (set_exit false false p).
  assert (Ha1 : start_argv self (set_exit false false p) = Some argv) by exact Ha.
  unfold Start. rewrite Ha1, Ha, Hr, Hu, (proj2 (Z.ltb_lt _ _) Hb). unfold id. rewrite Hr. simpl.
  rewrite Hr, Hu. destruct (p_generation p); [lia|]. by split_and!.
Qed.
End commands.

(** ** A concrete pi *)

Definition ex_pi : Pi :=
  (Start (Some "/daemon"%string) id (Launched 0) (NewPi ["pi"%string] "s1" "")).2.

Definition ex_argv : list string :=
  ["pi"; "--session-dir"; "/sandbox/kape/sessions"; "--session-id"; "s1"]%string.

Lemma ex_pi_alive : alive ex_pi.
Proof. split; cbn; auto; lia. Qed.

(** Six deaths, each a second after the start. *)
Definition ex_crashes : list crash :=
  (λ i, mkCrash (WaitExit 1) ((60 * Z.of_nat i + 1) * second) (60 * (Z.of_nat i + 1) * second)) <$> seq 0 6.

Lemma crash_loop_backs_off_witness :
  sleeps (crash_run None ex_crashes ex_pi).1 =
    [1 * second; 2 * second; 4 * second; 8 * second; 16 * second; 30 * second].
Proof.
  assert (Ha : all_rapid (rapidExitWindow (p_policy ex_pi)) (p_lastStart ex_pi) ex_crashes).
  { repeat split. }
  pose proof (crash_loop_backs_off None ex_argv
    ex_pi ex_crashes ex_pi_alive eq_refl eq_refl eq_refl ltac:(by split) Ha) as H.
  destruct (crash_run None ex_crashes ex_pi) as [effs p]. cbn [fst]. rewrite (proj1 H). reflexivity.
Defined.

Lemma single_pi_witness :
  (length [1%nat] ≤ 1)%nat ∧ (p_running ex_pi = true ↔ [1%nat] ≠ []) ∧
  (∀ g, g ∈ [1%nat] → p_cmd ex_pi = Some g ∧ p_stdin ex_pi = Some g ∧ g = p_generation ex_pi) ∧
  p_restarts ex_pi = pred (p_generation ex_pi).
Proof.
  apply (single_pi ["pi"%string] "s1" "" [1%nat] ex_pi 0 []). apply rtc_once.
  apply (pi_start (Some "/daemon"%string) ex_argv (Launched 0) (NewPi ["pi"%string] "s1" "")); reflexivity.
Defined.

(** A printer for the examples, which have no document to print. *)
Definition ex_compact (j : json) : string := ""%string.

Definition ex_queued : Pi := set_queue (Some ["hold"%string]) None ex_pi.

Definition ex_send (w : bool) : send_env := mkSendEnv None id (Launched 0) id w true.

Lemma abort_pair_witness :
  SendCommand ex_compact (ex_send true) (mkCommand "k" CommandAbort RNil "") ex_queued =
    (None, [EWrite (clear_line (mkCommand "k" CommandAbort RNil ""));
            queue_drained (Some ["hold"%string]) None; EWrite abort_line], ex_pi).
Proof.
  rewrite (abort_pair ex_compact (ex_send true) (mkCommand "k" CommandAbort RNil "") ex_queued);
    [reflexivity|reflexivity|reflexivity|by eexists|reflexivity].
Defined.

Lemma late_reset_loses_steer_witness :
  let env := mkSendEnv None id (Launched second) id true true in
  let steer := mkCommand "k1" CommandSteer (RJson (JObj [("message", JStr "stop")])) "" in
  let abort := mkCommand "k2" CommandAbort RNil "" in
  let p1 := exit_account 1 WaitOk 0 ex_pi in
  ∃ effs line p2 p3, SendCommand ex_compact env steer p1 = (None, effs ++ [EWrite line], p2) ∧
    command_line steer = Some line ∧ "stop"%string ∈ elems (p_queuedSteering p2) ∧
    SendCommand ex_compact env abort (exit_finish WaitOk p2).2 =
      (None, [EWrite (clear_line abort); EWrite abort_line], p3).
Proof.
  apply (late_reset_loses_steer ex_compact None WaitOk 0 second "k1" "k2" "stop" ex_pi ex_pi_alive);
    [by eexists|discriminate].
Defined.

Lemma failed_launch_forgets_crash_witness :
  let p := exit_account 1 WaitOk 0 ex_pi in
  ∃ p1, Start None id (LaunchFailed "start pi") p = (Some "start pi"%string, [ESleep second], p1) ∧
    p_backoff p1 = second ∧
    (Start None id (Launched 0) p).1.2 =
      [ESleep second; ELaunch ex_argv;
       pi_restart_notice (Start None id (Launched 0) p).2] ∧
    (Start None id (Launched 0) p1).1 =
      (None, [ELaunch ex_argv]).
Proof.
  apply (failed_launch_forgets_crash None ex_argv "start pi" 0 (exit_account 1 WaitOk 0 ex_pi));
    [reflexivity|apply (al_gen _ ex_pi_alive)|reflexivity|reflexivity|reflexivity].
Defined.
