(* ===== verification/DaemonHttp.v ===== *)
(** * The daemon's HTTP surface (src/daemon/http.go)

    The command queue, the bearer check and the five endpoints.  The request is
    what [net/http] hands to the handlers; a request that no pattern matches
    carries the status the multiplexer answers it with. *)

From Stdlib Require Import String ZArith.
From S2P Require Import Prelude Json GoTime GoStrings Spool Pi.
From stdpp Require Import base list strings numbers gmap.
Local Open Scope Z_scope.

(** ** The command queue *)

Definition commandTypes (t : string) : bool :=
  bool_decide (t ∈ [CommandPrompt; CommandSteer; CommandAbort; CommandClearQueue]).

Notation CommandQueue := (gmap string Command).

Record FieldError : Type := mkFieldError { fe_Field : string; fe_Reason : string }.

Definition set_cstatus (st : string) (c : Command) : Command :=
  mkCommand (c_ID c) (c_Type c) (c_Payload c) st.

Definition Accept (q : CommandQueue) (c : Command) : option FieldError * CommandQueue :=
  if String.eqb (c_ID c) "" then (Some (mkFieldError "command_id" "must be non-empty"), q)
  else if negb (commandTypes (c_Type c)) then
    (Some (mkFieldError "type" "must be one of prompt, steer, abort, clear_queue"), q)
  else match q !! c_ID c with
  | Some prev =>
      if negb (String.eqb (c_Type prev) (c_Type c)) then
        (Some (mkFieldError "command_id" "already accepted with a different type"), q)
      else (None, q)
  | None => (None, <[c_ID c := set_cstatus "queued" c]> q)
  end.

Definition GetCommand (q : CommandQueue) (id : string) : option Command := q !! id.

(** ** Requests and responses *)

(** The matched endpoint with the parts of the request it reads. *)
Inductive route : Type :=
| GetHealthz
| GetStatus
| GetRecords (after wait : string)
| PostCommands (body : RawMessage)
| GetCommandById (id : string)
| Unmatched (path : string) (code : Z).

Definition route_path (r : route) : string :=
  match r with
  | GetHealthz => "/healthz"
  | GetStatus => "/status"
  | GetRecords _ _ => "/records"
  | PostCommands _ => "/commands"
  | GetCommandById id => "/commands/" +:+ id
  | Unmatched path _ => path
  end.

Record Status : Type := mkStatus {
  st_AgentID : string;
  st_BootID : string;
  st_PiRunning : bool;
  st_SpoolDepth : nat;
  st_PiRestarts : nat;
  st_Backoff : Z
}.

Inductive body : Type :=
| BOk
| BStatus (s : Status)
| BRecords (rs : list Record_)
| BCommand (c : Command)
| BError (msg : string)
| BFieldError (e : FieldError)
| BMux.

Record response : Type := mkResponse {
  rs_code : Z;
  rs_location : option string;
  rs_body : body
}.

Record daemon : Type := mkDaemon {
  d_spool : Spool;
  d_pi : Pi;
  d_queue : CommandQueue
}.

(** The decoder with unknown fields disallowed. *)
Definition decode_command (body : RawMessage) : option Command :=
  match unmarshal_struct body with
  | None => None
  | Some ms =>
      let known kv := existsb (λ f, key_matches f (fst kv)) ["command_id"; "type"; "payload"; "status"]%string in
      let '(id, bad1) := string_field "command_id" ms in
      let '(typ, bad2) := string_field "type" ms in
      let '(st, bad3) := string_field "status" ms in
      if forallb known ms && negb (bad1 || bad2 || bad3)
      then Some (mkCommand id typ (raw_field "payload" ms) st) else None
  end.

Section router.
(** [ParseDuration] is [time.ParseDuration], whose fractions go through floating
    point; [compact] is the parameter of [SendCommand]. *)
  Context (ParseDuration : string → option Z) (compact : json → string).
  Context (agentID bootID token : string).

Definition field_error (f r : string) : response := mkResponse 400 None (BFieldError (mkFieldError f r)).

Definition handle_records (d : daemon) (after wait : string) (later : Spool) : response :=
  match ParseUint after with
  | None => field_error "after" "must be an unsigned integer"
  | Some a =>
      let parsed := if String.eqb wait "" then Some 0
                    else match ParseDuration wait with
                         | Some w => if w <? 0 then None else Some w
                         | None => None
                         end in
      match parsed with
      | None => field_error "wait" "must be a duration (e.g. 25s)"
      | Some w => mkResponse 200 None (BRecords (Read (d_spool d) a w later))
      end
  end.

Definition handle_post (env : send_env) (d : daemon) (b : RawMessage) : response * list effect * daemon :=
  match decode_command b with
  | None => (field_error "body" "must be an object {command_id, type, payload}", [], d)
  | Some c =>
      match Accept (d_queue d) c with
      | (Some e, _) => (mkResponse 400 None (BFieldError e), [], d)
      | (None, q) =>
          let '(err, effs, pi) := SendCommand compact env c (d_pi d) in
          let d' := mkDaemon (d_spool d) pi q in
          match err with
          | Some e => (mkResponse 500 None (BError ("deliver command to pi: " +:+ e)), effs, d')
          | None =>
              let stored := default (mkCommand "" "" RNil "") (GetCommand q (c_ID c)) in
              (mkResponse 202 (Some ("/commands/" +:+ c_ID stored)) (BCommand stored), effs, d')
          end
      end
  end.

(** The multiplexer: [later] is the spool when a long poll ends.  Appends to the
    spool are among the effects. *)
Definition mux (env : send_env) (later : Spool) (d : daemon) (r : route) : response * list effect * daemon :=
  match r with
  | GetHealthz => (mkResponse 200 None BOk, [], d)
  | GetStatus =>
      (mkResponse 200 None
         (BStatus (mkStatus agentID bootID (p_running (d_pi d)) (Depth (d_spool d))
                     (p_restarts (d_pi d)) (p_backoff (d_pi d)))), [], d)
  | GetRecords after wait => (handle_records d after wait later, [], d)
  | PostCommands b => handle_post env d b
  | GetCommandById id =>
      match GetCommand (d_queue d) id with
      | None => (mkResponse 404 None (BError "unknown command"), [], d)
      | Some c => (mkResponse 200 None (BCommand c), [], d)
      end
  | Unmatched _ code => (mkResponse code None BMux, [], d)
  end.

Definition authorized (header : string) : bool :=
  negb (String.eqb token "" || negb (String.eqb (TrimPrefix header "Bearer ") token)).

(** [NewRouter]: the multiplexer behind the bearer check. *)
Definition serve (env : send_env) (later : Spool) (d : daemon) (header : string) (r : route)
    : response * list effect * daemon :=
  if String.eqb (route_path r) "/healthz" then mux env later d r
  else if authorized header then mux env later d r
  else (mkResponse 401 None (BError "missing or invalid Authorization credential"), [], d).

End router.

(** ** The queue keeps the first command of an id *)

Definition valid_command (c : Command) : Prop := c_ID c ≠ ""%string ∧ commandTypes (c_Type c) = true.

Global Instance valid_command_dec c : Decision (valid_command c).
Proof. unfold valid_command. apply _. Defined.

Fixpoint accept_all (q : CommandQueue) (cs : list Command) : CommandQueue :=
  match cs with [] => q | c :: rest => accept_all (Accept q c).2 rest end.

(** The first acceptable command with this id. *)
Definition first_command (cs : list Command) (id : string) : option Command :=
  head (filter (λ c, valid_command c ∧ c_ID c = id) cs).

Lemma Accept_queue q c :
  (Accept q c).2 =
    if decide (valid_command c ∧ q !! c_ID c = None) then <[c_ID c := set_cstatus "queued" c]> q else q.
Proof.
  unfold Accept. destruct (String.eqb_spec (c_ID c) "") as [E|E]; simpl.
  { rewrite decide_False; [done|]. by intros [[? _] _]. }
  destruct (commandTypes (c_Type c)) eqn:Et; simpl.
  - destruct (q !! c_ID c) as [prev|] eqn:Eq.
    + rewrite decide_False by naive_solver. by destruct (String.eqb (c_Type prev) (c_Type c)).
    + by rewrite decide_True.
  - rewrite decide_False; [done|]. intros [[_ ?] _]. congruence.
Qed.

Lemma accept_all_lookup q cs id :
  accept_all q cs !! id =
    match q !! id with Some c => Some c | None => set_cstatus "queued" <$> first_command cs id end.
Proof.
  revert q. induction cs as [|c cs IH]; intros q; simpl.
  { by destruct (q !! id). }
  rewrite IH, Accept_queue. unfold first_command. rewrite filter_cons.
  destruct (decide (valid_command c ∧ q !! c_ID c = None)) as [[Hv Hn]|Hd].
  - destruct (decide (c_ID c = id)) as [<-|Hne].
    + by rewrite lookup_insert_eq, Hn, decide_True.
    + rewrite lookup_insert_ne by done. rewrite (decide_False (P := _ ∧ _)) by naive_solver. done.
  - destruct (q !! id) as [c'|] eqn:Eq; [done|].
    rewrite decide_False; [done|]. intros [Hv <-]. by apply Hd.
Qed.

(** A command id means one command.  However posts are repeated and interleaved,
    the queue holds for each id the first acceptable command posted under it,
    queued; and a further post is accepted exactly when it is well formed and has
    the type of the one already held, in which case it changes nothing. *)
Theorem queue_first_wins cs c :
  let q := accept_all ∅ cs in
  (∀ id, GetCommand q id = set_cstatus "queued" <$> first_command cs id) ∧
  ((Accept q c).1 = None ↔
     valid_command c ∧ ∀ c0, first_command cs (c_ID c) = Some c0 → c_Type c0 = c_Type c) ∧
  (first_command cs (c_ID c) ≠ None → (Accept q c).2 = q).
Proof.
  intros q. assert (Hq : ∀ id, q !! id = set_cstatus "queued" <$> first_command cs id).
  { intros id. unfold q. by rewrite accept_all_lookup, lookup_empty. }
  split; [exact Hq|]. split.
  - unfold Accept. rewrite Hq. unfold valid_command.
    destruct (String.eqb_spec (c_ID c) ""); [naive_solver|].
    destruct (commandTypes (c_Type c)); simpl; [|naive_solver].
    destruct (first_command cs (c_ID c)) as [c0|]; simpl; [|naive_solver].
    destruct (String.eqb_spec (c_Type c0) (c_Type c)); naive_solver.
  - intros Hf. rewrite Accept_queue, Hq. destruct (first_command cs (c_ID c)); [|done].
    rewrite decide_False; [done|]. by intros [_ ?].
Qed.

(** ** The credential *)

(** Without the credential nothing happens.  On any path but the liveness probe, a
    request is answered 401, with no effect on pi, the spool or the queue, unless
    its header is the configured token, with or without the [Bearer] prefix; with
    no token configured every such request is. *)
Theorem auth_gate pd compact agentID bootID token env later d header r :
  route_path r ≠ "/healthz"%string →
  (token = "" ∨ (header ≠ token ∧ header ≠ "Bearer " +:+ token))%string →
  serve pd compact agentID bootID token env later d header r =
    (mkResponse 401 None (BError "missing or invalid Authorization credential"), [], d).
Proof.
  intros Hp Ht. unfold serve. rewrite (proj2 (String.eqb_neq _ _) Hp).
  assert (authorized token header = false) as ->; [|done]. unfold authorized.
  destruct (String.eqb_spec token ""); [done|]. destruct Ht as [|[H1 H2]]; [done|].
  destruct (String.eqb_spec (TrimPrefix header "Bearer ") token) as [E|]; [|done].
  destruct (TrimPrefix_cases header "Bearer ") as [Hh|Hh]; congruence.
Qed.

Lemma auth_gate_witness :
  serve (λ _, None) (λ _, ""%string) "a" "b" "secret" (mkSendEnv None id (Launched 0) id true true)
    (mkSpool (mkFile [] None) 1 10 []) (mkDaemon (mkSpool (mkFile [] None) 1 10 []) ex_pi ∅)
    "Bearer wrong" (PostCommands RNil) =
    (mkResponse 401 None (BError "missing or invalid Authorization credential"), [],
     mkDaemon (mkSpool (mkFile [] None) 1 10 []) ex_pi ∅).
Proof. apply auth_gate; [discriminate|right; split; discriminate]. Defined.
