(* ===== verification/DaemonLink.v ===== *)
(** * The controller's client of the daemon (src/controller/daemonclient.go)

    The client's three calls, from the request text to the decoded answer, and the
    daemon's router of [DaemonHttp] at the other end: the requests are routed from
    their text, the answers are JSON documents. *)

From Stdlib Require Import Ascii String ZArith.
From S2P Require Import Prelude Json GoTime GoStrings Bolt EventStore EventHub Fsm Monitor Config Agent Spool Pi Puller DaemonHttp.
From stdpp Require Import base list strings numbers gmap pretty.
Local Open Scope Z_scope.

(** ** Durations *)

(** [d.String()] for a whole number of seconds. *)
Definition Duration_String (d : Z) : string :=
  let u := Z.to_N (d / second) in
  let s := pretty (u `mod` 60)%N +:+ "s" in
  let m := (u / 60)%N in
  if decide (m = 0)%N then s
  else
    let ms := pretty (m `mod` 60)%N +:+ "m" +:+ s in
    let h := (m / 60)%N in
    if decide (h = 0)%N then ms else pretty h +:+ "h" +:+ ms.

Definition is_digit (c : ascii) : bool := bool_decide (is_Some (digit_val c)).

Fixpoint span (p : ascii → bool) (cs : list ascii) : list ascii * list ascii :=
  match cs with
  | c :: r => if p c then let '(a, b) := span p r in (c :: a, b) else ([], cs)
  | [] => ([], [])
  end.

Definition unit_of (u : list ascii) : option Z :=
  if decide (u = chars "ns") then Some 1
  else if decide (u = chars "us") then Some 1000
  else if decide (u = chars "ms") then Some 1000000
  else if decide (u = chars "s") then Some second
  else if decide (u = chars "m") then Some (60 * second)
  else if decide (u = chars "h") then Some (3600 * second)
  else None.

(** The loop of [ParseDuration] on text without a fraction; [d] is the sum so far,
    [fuel] the length of the text. *)
Fixpoint duration_loop (fuel : nat) (cs : list ascii) (d : Z) : option Z :=
  match cs, fuel with
  | [], _ => Some d
  | _, O => None
  | _, S fuel =>
      let '(ds, r) := span is_digit cs in
      match ds with
      | [] => None
      | _ =>
          match decimal 0 ds with
          | None => None
          | Some v =>
              let '(u, r') := span (λ c, negb (is_digit c)) r in
              match unit_of u with
              | None => None
              | Some unit =>
                  if (2 ^ 63 <? v) || (2 ^ 63 / unit <? v) || (2 ^ 63 <? d + v * unit) then None
                  else duration_loop fuel r' (d + v * unit)
              end
          end
      end
  end.

(** [frac] reads the texts with a fraction or with the micro sign, which go through
    floating point or beyond ASCII. *)
Definition ParseDuration (frac : string → option Z) (s : string) : option Z :=
  if existsb (λ c, Ascii.eqb c "." || (127 <? nat_of_ascii c)%nat) (chars s) then frac s
  else
    let '(neg, cs) := match chars s with
                      | "-"%char :: r => (true, r)
                      | "+"%char :: r => (false, r)
                      | r => (false, r)
                      end in
    if decide (cs = chars "0") then Some 0
    else
      match cs with
      | [] => None
      | _ =>
          match duration_loop (length cs) cs 0 with
          | None => None
          | Some d => if neg then Some (- d) else if 2 ^ 63 - 1 <? d then None else Some d
          end
      end.

(** ** Requests *)

Record request : Type := mkRequest { rq_method : string; rq_target : string; rq_header : string; rq_body : option json }.

Fixpoint cut_at (c : ascii) (cs : list ascii) : list ascii * list ascii :=
  match cs with
  | x :: r => if Ascii.eqb x c then ([], r) else let '(a, b) := cut_at c r in (x :: a, b)
  | [] => ([], [])
  end.

(** [r.URL.Query().Get(k)] for a query without escapes. *)
Fixpoint query_get (k : list ascii) (parts : list (list ascii)) : list ascii :=
  match parts with
  | [] => []
  | p :: r => let '(n, v) := cut_at "=" p in if decide (n = k) then v else query_get k r
  end.

(** The multiplexer's choice; 405 for a known path with another method. *)
Definition route_of (rq : request) : route :=
  let '(path, query) := cut_at "?" (chars (rq_target rq)) in
  let path := string_of_list_ascii path in
  let get k := string_of_list_ascii (query_get (chars k) (split_at "&" query [])) in
  let is_get := String.eqb (rq_method rq) "GET" || String.eqb (rq_method rq) "HEAD" in
  if String.eqb path "/healthz" then if is_get then GetHealthz else Unmatched path 405
  else if String.eqb path "/status" then if is_get then GetStatus else Unmatched path 405
  else if String.eqb path "/records" then if is_get then GetRecords (get "after") (get "wait") else Unmatched path 405
  else if String.eqb path "/commands" then
    if String.eqb (rq_method rq) "POST" then PostCommands (match rq_body rq with Some j => RJson j | None => RNil end)
    else Unmatched path 405
  else if HasPrefix path "/commands/" then
    let id := TrimPrefix path "/commands/" in
    if String.eqb id "" || existsb (Ascii.eqb "/") (chars id) then Unmatched path 404
    else if is_get then GetCommandById id else Unmatched path 405
  else Unmatched path 404.

(** ** Answers *)

Definition encode_record (r : Record_) : option json :=
  match marshal_raw (r_Data r) with
  | Some d => Some (JObj [("spool_id", JInt (Z.of_N (r_SpoolID r))); ("data", d)]%string)
  | None => None
  end.

(** The daemon's [Command] always prints its four members. *)
Definition encode_stored (c : Command) : option json :=
  match marshal_raw (c_Payload c) with
  | Some p => Some (JObj [("command_id", JStr (c_ID c)); ("type", JStr (c_Type c)); ("payload", p); ("status", JStr (c_Status c))]%string)
  | None => None
  end.

(** What [writeJSON] sends: a document, or nothing when the value does not encode or
    the answer is the multiplexer's own text. *)
Definition encode_body (dur : Z → string) (b : body) : option json :=
  match b with
  | BOk => Some (JObj [("status", JStr "ok")]%string)
  | BStatus s =>
      Some (JObj [("agent_id", JStr (st_AgentID s)); ("boot_id", JStr (st_BootID s)); ("pi_running", JBool (st_PiRunning s));
                  ("spool_depth", JInt (Z.of_nat (st_SpoolDepth s))); ("pi_restarts", JInt (Z.of_nat (st_PiRestarts s)));
                  ("backoff", JStr (dur (st_Backoff s)))]%string)
  | BRecords rs => match mapM encode_record rs with Some l => Some (JObj [("records", JArr l)]%string) | None => None end
  | BCommand c => encode_stored c
  | BError msg => Some (JObj [("error", JStr msg)]%string)
  | BFieldError e => Some (JObj [("error", JStr (fe_Field e +:+ ": " +:+ fe_Reason e)); ("field", JStr (fe_Field e))]%string)
  | BMux => None
  end.

(** ** The client *)

Record HTTPDaemonClient : Type := mkClient { hc_token : string }.

Inductive client_err : Type :=
| EEncode
| ETransport
| EStatus (method path : string) (code : Z) (body : option json)
| EDecode.

(** The status and the body, or no answer. *)
Notation transport := (request → option (Z * option json)).

(** [do] up to the decoding, which depends on the type of [out].  The token is text
    that a header carries unchanged. *)
Definition do (c : HTTPDaemonClient) (hc : transport) (method path : string) (body : option json) : res client_err json :=
  let header := if String.eqb (hc_token c) "" then ""%string else "Bearer " +:+ hc_token c in
  match hc (mkRequest method path header body) with
  | None => Err ETransport
  | Some (code, b) =>
      if negb (code / 100 =? 2) then Err (EStatus method path code b)
      else match b with Some j => Ok j | None => Err EDecode end
  end.

Definition conv_record (j : json) : option DaemonRecord :=
  match unmarshal_struct (RJson j) with
  | None => None
  | Some ms =>
      let '(id, bad) := decode_field conv_uint64 "spool_id" 0%N ms in
      if bad then None else Some (mkDaemonRecord id (raw_field "data" ms))
  end.

Definition conv_records (j : json) : option (list DaemonRecord) :=
  match j with JArr l => mapM conv_record l | _ => None end.

Definition records_path (after : N) (wait : Z) : string :=
  "/records?after=" +:+ pretty after +:+ (if 0 <? wait then "&wait=" +:+ Duration_String wait else "").

Definition Records (c : HTTPDaemonClient) (hc : transport) (after : N) (wait : Z) : res client_err (list DaemonRecord) :=
  match do c hc "GET" (records_path after wait) None with
  | Err e => Err e
  | Ok j =>
      match unmarshal_struct (RJson j) with
      | None => Err EDecode
      | Some ms => let '(recs, bad) := decode_nilable conv_records "records" [] ms in if bad then Err EDecode else Ok recs
      end
  end.

Definition client_Status (c : HTTPDaemonClient) (hc : transport) : res client_err (string * DaemonStatus) :=
  match do c hc "GET" "/status" None with
  | Err e => Err e
  | Ok j =>
      match unmarshal_struct (RJson j) with
      | None => Err EDecode
      | Some ms =>
          let '(agent, bad1) := string_field "agent_id" ms in
          let '(boot, bad2) := string_field "boot_id" ms in
          let '(running, bad3) := decode_field conv_bool "pi_running" false ms in
          if bad1 || bad2 || bad3 then Err EDecode else Ok (agent, mkDaemonStatus boot running)
      end
  end.

(** The body of a command: an empty payload and the empty status are left out. *)
Definition encode_command (c : DaemonCommand) : option json :=
  let members := [("command_id", JStr (dc_ID c)); ("type", JStr (dc_Type c))]%string in
  match dc_Payload c with
  | RNil | RBad "" => Some (JObj members)
  | RJson j => Some (JObj (members ++ [("payload", j)]%string))
  | RBad _ => None
  end.

(** The answer: the command and its status. *)
Definition decode_answer (j : json) : option (DaemonCommand * string) :=
  match unmarshal_struct (RJson j) with
  | None => None
  | Some ms =>
      let '(id, bad1) := string_field "command_id" ms in
      let '(typ, bad2) := string_field "type" ms in
      let '(st, bad3) := string_field "status" ms in
      if bad1 || bad2 || bad3 then None else Some (Agent.mkCommand id typ (raw_field "payload" ms), st)
  end.

Definition client_Command (c : HTTPDaemonClient) (hc : transport) (cmd : DaemonCommand) : res client_err (DaemonCommand * string) :=
  match encode_command cmd with
  | None => Err EEncode
  | Some body =>
      match do c hc "POST" "/commands" (Some body) with
      | Err e => Err e
      | Ok j => match decode_answer j with Some out => Ok out | None => Err EDecode end
      end
  end.

(** ** The two ends together *)

Section Link.
Context (frac : string → option Z) (dur : Z → string) (compact : json → string) (agentID bootID token : string).

(** One request served: the answer as it travels, and what the daemon did. *)
Definition roundtrip (env : send_env) (later : Spool) (d : daemon) (rq : request) : (Z * option json) * list effect * daemon :=
  let '(r, effs, d') := serve (ParseDuration frac) compact agentID bootID token env later d (rq_header rq) (route_of rq) in
  ((rs_code r, encode_body dur (rs_body r)), effs, d').

Definition over (env : send_env) (later : Spool) (d : daemon) : transport := λ rq, Some (roundtrip env later d rq).1.1.

End Link.

(** ** Durations travel *)

Lemma decimal_digits a cs v : decimal a cs = Some v → Forall (λ c, is_digit c = true) cs.
Proof.
  revert a. induction cs as [|c cs IH]; intros a; simpl; [constructor|]. unfold is_digit.
  destruct (digit_val c) eqn:E; [|done]. intros H. constructor; [|by eapply IH]. rewrite E. by apply bool_decide_eq_true.
Qed.

Lemma pretty_digits (n : N) : Forall (λ c, is_digit c = true) (chars (pretty n)).
Proof. apply (decimal_digits 0 _ (Z.of_N n)), decimal_pretty. Qed.

Definition stops (p : ascii → bool) (cs : list ascii) : Prop := match cs with c :: _ => p c = false | [] => True end.

Lemma span_stop p a r : Forall (λ c, p c = true) a → stops p r → span p (a ++ r) = (a, r).
Proof.
  induction 1 as [|c a Hc _ IH]; intros Hr; simpl.
  - destruct r as [|c r]; [done|]. simpl in *. by rewrite Hr.
  - by rewrite Hc, (IH Hr).
Qed.

(** One number with its unit. *)
Lemma duration_step fuel (n : N) u r d unit :
  u ≠ [] → Forall (λ c, is_digit c = false) u → stops (λ c, negb (is_digit c)) r → unit_of u = Some unit → 0 < unit →
  0 ≤ d → d + Z.of_N n * unit ≤ 2 ^ 63 →
  duration_loop (S fuel) (chars (pretty n) ++ u ++ r) d = duration_loop fuel r (d + Z.of_N n * unit).
Proof.
  intros Hu Hud Hr Hunit Hpos Hd Hmax. pose proof (pretty_ne n). destruct (chars (pretty n)) as [|c0 cs] eqn:E; [done|].
  cbn [duration_loop app]. change (c0 :: cs ++ u ++ r) with ((c0 :: cs) ++ u ++ r). rewrite <-E.
  rewrite span_stop; [|apply pretty_digits|destruct u as [|c u]; [done|by inversion Hud]].
  rewrite E. rewrite <-E, decimal_pretty. rewrite (span_stop _ u r); [|by eapply Forall_impl; [done|]; intros ? ->|done].
  rewrite Hunit. assert (Z.of_N n ≤ 2 ^ 63 / unit) by (apply Z.div_le_lower_bound; lia).
  assert (2 ^ 63 / unit ≤ 2 ^ 63) by (apply Z.div_le_upper_bound; nia).
  destruct (Z.ltb_spec (2 ^ 63) (Z.of_N n)), (Z.ltb_spec (2 ^ 63 / unit) (Z.of_N n)), (Z.ltb_spec (2 ^ 63) (d + Z.of_N n * unit)); simpl; lia || done.
Qed.

Lemma duration_end fuel d : duration_loop fuel [] d = Some d.
Proof. by destruct fuel. Qed.

(** The pieces of a printed duration, largest unit first, and their reading. *)
Lemma Duration_pieces k : 0 ≤ k →
  ∃ ps : list (N * (string * Z)),
    chars (Duration_String (k * second)) = concat ((λ p, chars (pretty p.1) ++ chars p.2.1) <$> ps) ∧
    Forall (λ p, p.2 ∈ [("h", 3600 * second); ("m", 60 * second); ("s", second)]%string) ps ∧
    foldr (λ p acc, Z.of_N p.1 * p.2.2 + acc) 0 ps = k * second ∧ ps ≠ [].
Proof.
  intros Hk. unfold Duration_String. rewrite Z.div_mul by done. set (u := Z.to_N k).
  assert (Hu : Z.of_N u = k) by (unfold u; lia). clearbody u.
  pose proof (N.div_mod u 60 ltac:(done)) as H1. pose proof (N.div_mod (u / 60) 60 ltac:(done)) as H2.
  case_decide as Hm; [|case_decide as Hh].
  - exists [((u `mod` 60)%N, ("s"%string, second))]. rewrite chars_app. simpl. rewrite app_nil_r.
    split_and!; [done|rewrite !Forall_cons, Forall_nil; set_solver|unfold second; lia|done].
  - exists [(((u / 60) `mod` 60)%N, ("m"%string, 60 * second)); ((u `mod` 60)%N, ("s"%string, second))].
    rewrite !chars_app. simpl. rewrite app_nil_r, <-app_assoc.
    split_and!; [done|rewrite !Forall_cons, Forall_nil; set_solver|unfold second; lia|done].
  - exists [((u / 60 / 60)%N, ("h"%string, 3600 * second)); (((u / 60) `mod` 60)%N, ("m"%string, 60 * second)); ((u `mod` 60)%N, ("s"%string, second))].
    rewrite !chars_app. simpl. rewrite app_nil_r, <-!app_assoc.
    split_and!; [done|rewrite !Forall_cons, Forall_nil; set_solver|unfold second; lia|done].
Qed.

Lemma unit_ok u unit : (u, unit) ∈ [("h", 3600 * second); ("m", 60 * second); ("s", second)]%string →
  chars u ≠ [] ∧ Forall (λ c, is_digit c = false) (chars u) ∧ unit_of (chars u) = Some unit ∧ 0 < unit.
Proof.
  rewrite !elem_of_cons, elem_of_nil. intros [[= -> ->]|[[= -> ->]|[[= -> ->]|[]]]];
    (split_and!; [done|repeat constructor|done|done]).
Qed.

Lemma digits_stop (n : N) r : stops (λ c, negb (is_digit c)) (chars (pretty n) ++ r).
Proof.
  pose proof (pretty_ne n). pose proof (pretty_digits n) as Hd. destruct (chars (pretty n)) as [|c cs]; [done|].
  inversion Hd as [|? ? Hc]; subst. simpl. by rewrite Hc.
Qed.

Lemma duration_pieces_loop (ps : list (N * (string * Z))) : ∀ fuel d,
  Forall (λ p, p.2 ∈ [("h", 3600 * second); ("m", 60 * second); ("s", second)]%string) ps →
  (length ps ≤ fuel)%nat → 0 ≤ d → d + foldr (λ p acc, Z.of_N p.1 * p.2.2 + acc) 0 ps ≤ 2 ^ 63 →
  duration_loop fuel (concat ((λ p, chars (pretty p.1) ++ chars p.2.1) <$> ps)) d =
    Some (d + foldr (λ p acc, Z.of_N p.1 * p.2.2 + acc) 0 ps).
Proof.
  induction ps as [|[n [u unit]] ps IH]; intros fuel d Hps Hf Hd Hmax.
  { rewrite duration_end. simpl. f_equal. lia. }
  apply Forall_cons in Hps as [Hp Hps]. destruct (unit_ok _ _ Hp) as (Hne & Hnd & Hu & Hpos).
  assert (Hnn : 0 ≤ foldr (λ p acc, Z.of_N p.1 * p.2.2 + acc) 0 ps).
  { clear -Hps. induction Hps as [|[n [u unit]] ps Hp _ IH]; simpl; [lia|].
    destruct (unit_ok _ _ Hp) as (_ & _ & _ & ?). nia. }
  destruct fuel as [|fuel]; [simpl in Hf; lia|]. rewrite fmap_cons. cbn [concat fst snd foldr] in *.
  rewrite <-app_assoc. rewrite (duration_step _ _ _ _ _ unit); [|done|done| |done|done|done|nia].
  - rewrite IH; [f_equal; lia|done|simpl in Hf; lia|nia|lia].
  - destruct ps as [|[n' p'] ps']; [done|]. rewrite fmap_cons. cbn [concat fst]. rewrite <-app_assoc. apply digits_stop.
Qed.

Lemma pieces_text (ps : list (N * (string * Z))) :
  Forall (λ p, p.2 ∈ [("h", 3600 * second); ("m", 60 * second); ("s", second)]%string) ps →
  Forall (λ c, is_digit c = true ∨ c ∈ chars "hms") (concat ((λ p, chars (pretty p.1) ++ chars p.2.1) <$> ps)) ∧
  (2 * length ps ≤ length (concat ((λ p, chars (pretty p.1) ++ chars p.2.1) <$> ps)))%nat.
Proof.
  induction 1 as [|[n [u unit]] ps Hp _ [IH1 IH2]]; [by split; [constructor|simpl]|].
  rewrite fmap_cons. cbn [concat fst snd]. split.
  - rewrite !Forall_app. split_and!; [|..|done].
    + eapply Forall_impl; [apply pretty_digits|]. by left.
    + cbn [snd] in Hp. rewrite !elem_of_cons, elem_of_nil in Hp. destruct Hp as [[= -> _]|[[= -> _]|[[= -> _]|[]]]];
        (repeat constructor; right; cbn; set_solver).
  - rewrite !length_app. destruct (unit_ok _ _ Hp) as (Hne & _). pose proof (pretty_ne n).
    destruct (chars (pretty n)), (chars u); [done..|]. simpl. simpl in IH2. lia.
Qed.

(** A printed whole number of seconds is read back. *)
Lemma duration_roundtrip frac k : 0 ≤ k → k * second < 2 ^ 63 →
  ParseDuration frac (Duration_String (k * second)) = Some (k * second).
Proof.
  intros Hk Hmax. destruct (Duration_pieces k Hk) as (ps & Htext & Hps & Hsum & Hne).
  destruct (pieces_text ps Hps) as [Hc Hlen]. unfold ParseDuration. rewrite Htext.
  pose proof (duration_pieces_loop ps (length (concat ((λ p, chars (pretty p.1) ++ chars p.2.1) <$> ps))) 0 Hps) as Hloop.
  rewrite Hsum in Hloop. specialize (Hloop ltac:(lia) ltac:(lia) ltac:(unfold second in *; lia)).
  set (cs := concat _) in *. clearbody cs. destruct ps as [|p ps]; [done|]. simpl in Hlen.
  destruct cs as [|c cs]; [simpl in Hlen; lia|].
  assert (existsb (λ c, Ascii.eqb c "." || (127 <? nat_of_ascii c)%nat) (c :: cs) = false) as ->.
  { clear -Hc. induction Hc as [|x l Hx _ IH]; [done|]. cbn [existsb]. rewrite IH, orb_false_r. destruct Hx as [Hx|Hx].
    - destruct x as [[] [] [] [] [] [] [] []]; try done.
    - cbn in Hx. rewrite !elem_of_cons, elem_of_nil in Hx. by destruct Hx as [->|[->|[->|[]]]]. }
  apply Forall_cons in Hc as [Hc0 _].
  assert (c ≠ "-"%char ∧ c ≠ "+"%char) as [Hm Hp].
  { split; intros ->; destruct Hc0 as [|Hc0]; try done; cbn in Hc0; rewrite !elem_of_cons, elem_of_nil in Hc0; naive_solver. }
  assert (∀ A (f : bool → list ascii → A), (let '(neg, l) := match c :: cs with "-"%char :: r => (true, r) | "+"%char :: r => (false, r) | r => (false, r) end in f neg l)
    = f false (c :: cs)) as ->.
  { intros A f. destruct c as [[] [] [] [] [] [] [] []]; done. }
  rewrite decide_False by (intros [= -> ->]; simpl in Hlen; lia). rewrite Hloop.
  rewrite Z.add_0_l. destruct (Z.ltb_spec (2 ^ 63 - 1) (k * second)); [lia|done].
Qed.

(** ** Requests are routed *)

Lemma digits_no_amp (n : N) : "&"%char ∉ chars (pretty n).
Proof. intros Hin. by pose proof (proj1 (Forall_forall _ _) (pretty_digits n) _ Hin). Qed.

Lemma duration_no_amp k : 0 ≤ k → "&"%char ∉ chars (Duration_String (k * second)).
Proof.
  intros Hk Hin. destruct (Duration_pieces k Hk) as (ps & Htext & Hps & _). destruct (pieces_text ps Hps) as [Hc _].
  rewrite Htext in Hin. destruct (proj1 (Forall_forall _ _) Hc _ Hin) as [|Hx]; [done|].
  cbn in Hx. rewrite !elem_of_cons, elem_of_nil in Hx. naive_solver.
Qed.

Lemma query_after x r : query_get (chars "after") ((chars "after=" ++ x) :: r) = x.
Proof. reflexivity. Qed.

Lemma query_wait x y : query_get (chars "wait") [chars "after=" ++ x; chars "wait=" ++ y] = y.
Proof. reflexivity. Qed.

Lemma query_no_wait x : query_get (chars "wait") [chars "after=" ++ x] = [].
Proof. reflexivity. Qed.

Lemma route_records after k h : 0 ≤ k →
  route_of (mkRequest "GET" (records_path after (k * second)) h None) =
    GetRecords (pretty after) (if 0 <? k * second then Duration_String (k * second) else "").
Proof.
  intros Hk. unfold route_of. cbn [rq_target rq_method].
  assert (cut_at "?" (chars (records_path after (k * second))) =
    (chars "/records", chars "after=" ++ chars (pretty after) ++
       (if 0 <? k * second then "&"%char :: chars "wait=" ++ chars (Duration_String (k * second)) else []))) as ->.
  { unfold records_path. rewrite !chars_app. destruct (0 <? k * second); reflexivity. }
  rewrite string_of_chars. cbn [String.eqb Ascii.eqb Bool.eqb orb].
  destruct (0 <? k * second).
  - rewrite app_assoc, split_at_first by (rewrite not_elem_of_app; split; [by vm_compute; set_solver|apply digits_no_amp]).
    rewrite split_at_none by (rewrite not_elem_of_app; split; [by vm_compute; set_solver|by apply duration_no_amp]).
    rewrite !app_nil_l, query_after, query_wait. by rewrite !string_of_chars.
  - rewrite app_nil_r, split_at_none by (rewrite not_elem_of_app; split; [by vm_compute; set_solver|apply digits_no_amp]).
    rewrite app_nil_l, query_after, query_no_wait. by rewrite string_of_chars.
Qed.

(** ** What the client gets *)

Definition ok_of {E A} (r : res E A) : option A := match r with Ok a => Some a | Err _ => None end.

Lemma bearer token : token ≠ ""%string → authorized token ("Bearer " +:+ token) = true.
Proof.
  intros Ht. unfold authorized, TrimPrefix. rewrite (proj2 (HasPrefix_app _ _)) by eauto. rewrite drop_str_app.
  rewrite String.eqb_refl. by rewrite (proj2 (String.eqb_neq _ _) Ht).
Qed.

(** Records as the wire takes them: documents under 64-bit ids. *)
Definition sendable (r : Record_) : Prop := r_Data r ≠ RNil ∧ (r_SpoolID r < u64_bound)%N.

Lemma conv_uint64_N n : (n < u64_bound)%N → conv_uint64 (JInt (Z.of_N n)) = Some n.
Proof.
  intros Hb. cbn [conv_uint64]. rewrite (proj2 (Z.leb_le _ _)), (proj2 (Z.ltb_lt _ _)) by lia. cbn [andb]. by rewrite N2Z.id.
Qed.

Lemma decode_record r j : (r_SpoolID r < u64_bound)%N → r_Data r = RJson j →
  encode_record r = Some (JObj [("spool_id", JInt (Z.of_N (r_SpoolID r))); ("data", j)]%string) ∧
  conv_record (JObj [("spool_id", JInt (Z.of_N (r_SpoolID r))); ("data", j)]%string) = Some (mkDaemonRecord (r_SpoolID r) (RJson j)).
Proof.
  intros Hb Hj. unfold encode_record, conv_record. rewrite Hj. split; [done|].
  cbn [unmarshal_struct]. unfold decode_field. cbn [fold_left fst snd].
  change (key_matches "spool_id" "spool_id") with true. change (key_matches "spool_id" "data") with false.
  cbn [fst snd]. by rewrite conv_uint64_N.
Qed.

Lemma decode_records recs : Forall sendable recs →
  match mapM encode_record recs with Some l => mapM conv_record l | None => None end = serve_records recs.
Proof.
  unfold serve_records. induction 1 as [|r recs [Hn Hb] _ IH]; [done|]. simpl.
  destruct (r_Data r) as [|j|t] eqn:Ed; [done| |by unfold encode_record; rewrite Ed].
  destruct (decode_record r j Hb Ed) as [-> Hc]. simpl.
  destruct (mapM encode_record recs) as [l|]; simpl; [|by rewrite <-IH].
  rewrite Hc. simpl. by rewrite IH.
Qed.

Section Link_theorems.
Context (frac : string → option Z) (dur : Z → string) (compact : json → string) (agentID bootID token : string).
Context (env : send_env) (later : Spool) (d : daemon).
Notation link := (over frac dur compact agentID bootID token env later d).
Notation trip := (roundtrip frac dur compact agentID bootID token env later d).

(** The bearer token lets the client's requests through. *)
Lemma do_served method path body : token ≠ ""%string →
  do (mkClient token) link method path body =
    match (mux (ParseDuration frac) compact agentID bootID env later d
             (route_of (mkRequest method path ("Bearer " +:+ token) body))).1.1 with
    | r => if negb (rs_code r / 100 =? 2) then Err (EStatus method path (rs_code r) (encode_body dur (rs_body r)))
           else match encode_body dur (rs_body r) with Some j => Ok j | None => Err EDecode end
    end.
Proof.
  intros Ht. unfold do, over, roundtrip. cbn [hc_token]. rewrite (proj2 (String.eqb_neq _ _) Ht). cbn [rq_header].
  unfold serve. rewrite bearer by done. rewrite Tauto.if_same.
  by destruct (mux _ _ _ _ _ _ _ _) as [[r effs] d'].
Qed.

(** C39. The records the controller receives are the ones the daemon reads from its
    spool: a long poll with the daemon's token, a cursor of 64 bits and a wait of
    whole seconds is routed, parsed, answered and decoded to exactly the spool's
    records after the cursor, read with that wait. *)
Theorem records_over_http after k :
  token ≠ ""%string → (after < u64_bound)%N → 0 ≤ k → k * second < 2 ^ 63 →
  Forall sendable (Read (d_spool d) after (k * second) later) →
  ok_of (Records (mkClient token) link after (k * second)) = serve_records (Read (d_spool d) after (k * second) later).
Proof.
  intros Ht Ha Hk Hmax Hs. unfold Records. rewrite do_served by done. rewrite route_records by done. cbn [mux fst].
  unfold handle_records. rewrite ParseUint_pretty by done.
  assert ((if String.eqb (if 0 <? k * second then Duration_String (k * second) else "") "" then Some 0
    else match ParseDuration frac (if 0 <? k * second then Duration_String (k * second) else "") with
         | Some w => if w <? 0 then None else Some w | None => None end) = Some (k * second)) as ->.
  { destruct (Z.ltb_spec 0 (k * second)).
    - destruct (String.eqb_spec (Duration_String (k * second)) "") as [E|].
      + pose proof (duration_roundtrip (λ _, None) k Hk Hmax) as Hr. by rewrite E in Hr.
      + rewrite duration_roundtrip by done. by rewrite (proj2 (Z.ltb_ge _ _)) by lia.
    - simpl. f_equal. unfold second in *. lia. }
  cbn [rs_code rs_body encode_body]. change (negb (200 / 100 =? 2)) with false. cbv iota.
  rewrite <-decode_records by done. destruct (mapM encode_record _) as [l|]; [|done].
  cbn [unmarshal_struct]. unfold decode_nilable. cbn [fold_left fst snd].
  change (key_matches "records" "records") with true. cbv iota. cbn [conv_records fst snd]. by destruct (mapM conv_record l).
Qed.

(** The command as the daemon decodes it. *)
Definition sent (cmd : DaemonCommand) : Command := mkCommand (dc_ID cmd) (dc_Type cmd) (dc_Payload cmd) "".

Lemma encode_decode cmd : (∀ t, dc_Payload cmd ≠ RBad t) →
  ∃ body, encode_command cmd = Some body ∧ decode_command (RJson body) = Some (sent cmd).
Proof.
  intros Hp. unfold encode_command, sent. destruct cmd as [id typ [|j|t]]; cbn [dc_Payload dc_ID dc_Type] in *.
  - eexists. split; [done|]. by vm_compute.
  - eexists. split; [done|]. by vm_compute.
  - by destruct (Hp t).
Qed.

Lemma stored_decodes c : (∀ t, c_Payload c ≠ RBad t) →
  ∃ j, encode_stored c = Some j ∧
    ∃ p, decode_answer j = Some (Agent.mkCommand (c_ID c) (c_Type c) p, c_Status c).
Proof.
  intros Hp. unfold encode_stored. destruct c as [id typ [|j|t] st]; cbn [c_Payload c_ID c_Type c_Status marshal_raw] in *.
  - eexists. split; [done|]. eexists. by vm_compute.
  - eexists. split; [done|]. eexists. by vm_compute.
  - by destruct (Hp t).
Qed.

(** An accepted command is in the queue under its id, with its type. *)
Lemma Accept_stored q c : (Accept q c).1 = None →
  (∀ id c', q !! id = Some c' → c_ID c' = id ∧ ∀ t, c_Payload c' ≠ RBad t) → (∀ t, c_Payload c ≠ RBad t) →
  ∃ c', GetCommand (Accept q c).2 (c_ID c) = Some c' ∧ c_ID c' = c_ID c ∧ c_Type c' = c_Type c ∧ ∀ t, c_Payload c' ≠ RBad t.
Proof.
  intros Ha Hq Hp. unfold Accept, GetCommand in *. destruct (String.eqb (c_ID c) ""); [done|].
  destruct (negb (commandTypes (c_Type c))); [done|]. destruct (q !! c_ID c) as [prev|] eqn:Eq.
  - destruct (String.eqb_spec (c_Type prev) (c_Type c)); [|done]. cbn [negb snd] in *. exists prev.
    destruct (Hq _ _ Eq). done.
  - cbn [snd]. rewrite lookup_insert_eq. by eexists.
Qed.

(** A command the client reports accepted is the one pi got.  Posted with the
    daemon's token, a command whose payload is absent or a document reaches the
    queue and pi as it was sent, and the call succeeds exactly when the queue
    accepted it and the delivery to pi succeeded, in which case the answer carries
    its id and its type; otherwise the daemon's refusal comes back as the error. *)
Theorem command_over_http cmd :
  token ≠ ""%string → (∀ t, dc_Payload cmd ≠ RBad t) →
  (∀ id c', d_queue d !! id = Some c' → c_ID c' = id ∧ ∀ t, c_Payload c' ≠ RBad t) →
  let r := client_Command (mkClient token) link cmd in
  match (Accept (d_queue d) (sent cmd)).1, (SendCommand compact env (sent cmd) (d_pi d)).1.1 with
  | None, None => ∃ p st, r = Ok (Agent.mkCommand (dc_ID cmd) (dc_Type cmd) p, st)
  | None, Some _ => ∃ b, r = Err (EStatus "POST" "/commands" 500 b)
  | Some _, _ => ∃ b, r = Err (EStatus "POST" "/commands" 400 b)
  end.
Proof.
  intros Ht Hp Hq r. unfold r, client_Command. destruct (encode_decode cmd Hp) as (body & -> & Hdec).
  rewrite do_served by done.
  change (route_of (mkRequest "POST" "/commands" ("Bearer " +:+ token) (Some body))) with (PostCommands (RJson body)).
  cbn [mux]. unfold handle_post. rewrite Hdec.
  pose proof (Accept_stored (d_queue d) (sent cmd)) as Hst. destruct (Accept (d_queue d) (sent cmd)) as [[e|] q]; cbn [fst snd] in *.
  { by eexists. }
  destruct (SendCommand compact env (sent cmd) (d_pi d)) as [[[e|] effs] pi]; cbn [fst snd].
  { by eexists. }
  destruct (Hst eq_refl Hq Hp) as (c' & -> & Hid & Hty & Hpay). cbn [from_option id rs_code rs_body encode_body fst].
  destruct (stored_decodes c' Hpay) as (j & -> & p & Hans). change (negb (202 / 100 =? 2)) with false. cbv iota.
  rewrite Hans, Hid, Hty. by exists p, (c_Status c').
Qed.

(** The reconnect preflight sees the daemon: its boot identity and whether pi runs. *)
Theorem status_over_http : token ≠ ""%string →
  client_Status (mkClient token) link = Ok (agentID, mkDaemonStatus bootID (p_running (d_pi d))).
Proof. intros Ht. unfold client_Status. rewrite do_served by done. by vm_compute. Qed.

End Link_theorems.

(** ** Examples *)

Module Samples.

Definition spool : Spool := mkSpool (mkFile [] None) 1 10 [mkEntry 1 (RJson (JObj [])); mkEntry 2 (RJson (JInt 7))].

Definition sample_daemon : daemon := mkDaemon spool ex_pi ∅.

Definition env : send_env := mkSendEnv None id (Launched 0) id true true.

Definition sample_link := over (λ _, None) (λ _, ""%string) (λ _, ""%string) "a" "b" "secret" env spool sample_daemon.

Lemma records_over_http_witness :
  ok_of (Records (mkClient "secret") sample_link 1 (25 * second)) = Some [mkDaemonRecord 2 (RJson (JInt 7))].
Proof.
  unfold sample_link. rewrite records_over_http; [reflexivity|done|done|done|done|].
  change (Read _ _ _ _) with [mkRecord 2 (RJson (JInt 7))]. constructor; [by split|constructor].
Defined.

Lemma command_over_http_witness :
  ∃ p st, client_Command (mkClient "secret") sample_link (Agent.mkCommand "k" "prompt" RNil) = Ok (Agent.mkCommand "k" "prompt" p, st).
Proof.
  refine (command_over_http (λ _, None) (λ _, ""%string) (λ _, ""%string) "a" "b" "secret" env spool sample_daemon
            (Agent.mkCommand "k" "prompt" RNil) _ _ _); [discriminate|discriminate|].
  intros id c' H. discriminate H.
Defined.

(** The wait of the puller on the wire. *)
Lemma pull_wait_text : records_path 7 (25 * second) = "/records?after=7&wait=25s"%string ∧
  Duration_String (3600 * second) = "1h0m0s"%string ∧ ParseDuration (λ _, None) "1h0m5s" = Some (3605 * second).
Proof. by vm_compute. Qed.

End Samples.
