(* ===== verification/DaemonMain.v ===== *)
(** * The daemon as a process (src/daemon/main.go) and the built-in pi
      (src/daemon/pi.go, [runFakePi])

    The configuration from the environment and the flags, what [run] builds from it,
    and the scripted process that stands in for pi when no command is configured: it
    keeps a queue of its own, which the tracker of [Pi] follows through the output
    relay. *)

From Stdlib Require Import Ascii String ZArith.
From S2P Require Import Prelude Json GoTime GoStrings Flags EventStore Puller DaemonHttp DaemonLink Spool Pi.
From stdpp Require Import base list strings numbers gmap pretty.
Local Open Scope Z_scope.

(** ** Configuration *)

Record DaemonConfig : Type := mkDaemonConfig {
  dc_Addr : string; dc_AgentID : string; dc_Token : string; dc_SpoolPath : string; dc_SpoolMaxRecs : Z;
  dc_policy : pi_policy; dc_PiShutdownGrace : Z; dc_PiSessionID : string; dc_PiSessionDir : string;
  dc_piCmd : string
}.

Section Config.
(** [frac] reads durations with a fraction, [other_int] integers with a base prefix
    or underscores: the value that is stored, and whether the text is accepted. *)
Context (frac : string → option Z) (other_int : string → Z * bool).

Definition env_or (environ : string → string) (key def : string) : string :=
  if String.eqb (environ key) "" then def else environ key.

Definition default_duration (def : string) : Z := default 0 (ParseDuration frac def).

Definition env_duration (environ : string → string) (key def : string) : Z :=
  if String.eqb (environ key) "" then default_duration def
  else match ParseDuration frac (environ key) with Some d => d | None => default_duration def end.

(** The configuration before the flags. *)
Definition env_config (environ : string → string) : DaemonConfig :=
  mkDaemonConfig
    (env_or environ "KAPE_DAEMON_ADDR" "127.0.0.1:9090") (env_or environ "KAPE_AGENT_ID" "unset")
    (env_or environ "KAPE_DAEMON_TOKEN" "") (env_or environ "KAPE_SPOOL_PATH" "/var/lib/kape-daemon/spool.jsonl") 10000
    (mkPolicy (env_duration environ "KAPE_PI_RAPID_EXIT_WINDOW" "5s") (env_duration environ "KAPE_PI_BACKOFF_INITIAL" "1s")
       (env_duration environ "KAPE_PI_BACKOFF_MAX" "30s") (env_duration environ "KAPE_PI_STABLE_RUN_RESET" "60s"))
    (env_duration environ "KAPE_PI_SHUTDOWN_GRACE" "5s") (env_or environ "KAPE_PI_SESSION_ID" "")
    (env_or environ "KAPE_PI_SESSION_DIR" "/sandbox/kape/sessions") (env_or environ "KAPE_PI_COMMAND" "").

Definition with_policy (f : pi_policy → pi_policy) (c : DaemonConfig) : DaemonConfig :=
  mkDaemonConfig (dc_Addr c) (dc_AgentID c) (dc_Token c) (dc_SpoolPath c) (dc_SpoolMaxRecs c) (f (dc_policy c))
    (dc_PiShutdownGrace c) (dc_PiSessionID c) (dc_PiSessionDir c) (dc_piCmd c).

Definition with_strings (addr agent token path : string) (c : DaemonConfig) : DaemonConfig :=
  mkDaemonConfig addr agent token path (dc_SpoolMaxRecs c) (dc_policy c) (dc_PiShutdownGrace c) (dc_PiSessionID c)
    (dc_PiSessionDir c) (dc_piCmd c).

Definition with_pi (grace : Z) (session dir cmd : string) (c : DaemonConfig) : DaemonConfig :=
  mkDaemonConfig (dc_Addr c) (dc_AgentID c) (dc_Token c) (dc_SpoolPath c) (dc_SpoolMaxRecs c) (dc_policy c)
    grace session dir cmd.

Definition with_cap (n : Z) (c : DaemonConfig) : DaemonConfig :=
  mkDaemonConfig (dc_Addr c) (dc_AgentID c) (dc_Token c) (dc_SpoolPath c) n (dc_policy c) (dc_PiShutdownGrace c)
    (dc_PiSessionID c) (dc_PiSessionDir c) (dc_piCmd c).

Definition DurVar (name : string) (set : Z → DaemonConfig → DaemonConfig) : flag_def DaemonConfig :=
  Func name (λ v c, d ← ParseDuration frac v; Some (set d c)).

Definition daemon_flags : list (flag_def DaemonConfig) :=
  [ StringVar "addr" (λ s c, with_strings s (dc_AgentID c) (dc_Token c) (dc_SpoolPath c) c);
    StringVar "agent-id" (λ s c, with_strings (dc_Addr c) s (dc_Token c) (dc_SpoolPath c) c);
    StringVar "token" (λ s c, with_strings (dc_Addr c) (dc_AgentID c) s (dc_SpoolPath c) c);
    StringVar "spool-path" (λ s c, with_strings (dc_Addr c) (dc_AgentID c) (dc_Token c) s c);
    IntVar other_int "spool-max-records" with_cap;
    DurVar "pi-rapid-exit-window"
      (λ d, with_policy (λ p, mkPolicy d (backoffInitial p) (backoffMax p) (stableRunReset p)));
    DurVar "pi-backoff-initial"
      (λ d, with_policy (λ p, mkPolicy (rapidExitWindow p) d (backoffMax p) (stableRunReset p)));
    DurVar "pi-backoff-max"
      (λ d, with_policy (λ p, mkPolicy (rapidExitWindow p) (backoffInitial p) d (stableRunReset p)));
    DurVar "pi-stable-run-reset"
      (λ d, with_policy (λ p, mkPolicy (rapidExitWindow p) (backoffInitial p) (backoffMax p) d));
    DurVar "pi-shutdown-grace" (λ d c, with_pi d (dc_PiSessionID c) (dc_PiSessionDir c) (dc_piCmd c) c);
    StringVar "pi-session-id" (λ s c, with_pi (dc_PiShutdownGrace c) s (dc_PiSessionDir c) (dc_piCmd c) c);
    StringVar "pi-session-dir" (λ s c, with_pi (dc_PiShutdownGrace c) (dc_PiSessionID c) s (dc_piCmd c) c);
    StringVar "pi-command" (λ s c, with_pi (dc_PiShutdownGrace c) (dc_PiSessionID c) (dc_PiSessionDir c) s c) ].

(** The error of the parse is dropped. *)
Definition parseConfig (environ : string → string) (args : list string) : DaemonConfig :=
  fst (parse_flags daemon_flags args (env_config environ)).

(** The argv of pi: the parts between commas, trimmed, without the empty ones. *)
Definition PiCommand (c : DaemonConfig) : list string :=
  if String.eqb (dc_piCmd c) "" then []
  else filter (λ s, s ≠ ""%string) ((TrimSpace ∘ string_of_list_ascii) <$> split_at "," (chars (dc_piCmd c)) []).

Definition piAutostart (environ : string → string) : bool := negb (String.eqb (environ "KAPE_PI_AUTOSTART") "0").

(** What [run] builds before it serves: the spool and the manager of pi, started
    unless told otherwise. *)
Definition run_daemon (environ : string → string) (f : spool_file) (self : option string) (l : launch) (cfg : DaemonConfig) :
    res string (Spool * Pi * list effect) :=
  match NewSpool f (dc_SpoolMaxRecs cfg) with
  | Err e => Err e
  | Ok spool =>
      let p := NewPi (PiCommand cfg) (dc_PiSessionID cfg) (dc_PiSessionDir cfg) in
      let p := mkPi (p_command p) (p_sessionID p) (p_sessionDir p) (dc_policy cfg) (p_cmd p) (p_stdin p) (p_running p)
                 (p_queuedSteering p) (p_queuedFollowUp p) (p_generation p) (p_lastStart p) (p_lastExitCode p)
                 (p_lastExitUnexpected p) (p_intentional p) (p_restarts p) (p_backoff p) (p_rapidStreak p) in
      if piAutostart environ then
        match Start self id l p with
        | (Some e, _, _) => Err e
        | (None, effs, p') => Ok (spool, p', effs)
        end
      else Ok (spool, p, [])
  end.

(** ** What is shown of the configuration *)

(** Flags over environment over defaults.  Accepted settings, in either spelling,
    take effect in order; the bearer token is the last one given by a flag, else the
    environment's, else none. *)
Theorem flags_win environ ss :
  Forall (accepted daemon_flags) ss →
  parseConfig environ (ss ≫= spelled) = apply_settings daemon_flags ss (env_config environ) ∧
  dc_Token (parseConfig environ (ss ≫= spelled)) = default (environ "KAPE_DAEMON_TOKEN"%string) (last_of "token" ss).
Proof.
  intros Hs. unfold parseConfig. rewrite parse_all by done. split; [done|]. cbn [fst].
  rewrite (settings_field daemon_flags dc_Token id "token") by (unfold daemon_flags, DurVar; flag_cases).
  destruct (last_of "token" ss); [done|]. cbn. unfold env_or.
  by destruct (String.eqb_spec (environ "KAPE_DAEMON_TOKEN"%string) "").
Qed.

(** A flag that is not known silently ends the reading: the arguments after it have no
    effect. *)
Theorem bad_flag_hides_rest environ ss n v rest :
  Forall (accepted daemon_flags) ss → flag_name n → lookup_flag daemon_flags n = None →
  parseConfig environ ((ss ≫= spelled) ++ spelled (true, n, v) ++ rest) = parseConfig environ (ss ≫= spelled).
Proof. intros Hs Hn Hl. unfold parseConfig. by rewrite parse_settings, parse_undefined, parse_all. Qed.

(** A cap that is not a number is stored as zero, and with a cap of zero no record is
    ever served: what an append leaves in the window is the truncation notice. *)
Theorem bad_cap_serves_nothing environ s data :
  sp_maxRecs s = dc_SpoolMaxRecs (parseConfig environ ["-spool-max-records=many"]%string) →
  ∃ r s', Spool.Append s data IoOk IoOk = Some (Some r, s') ∧ e_Data <$> sp_recs s' = [spool_truncated].
Proof.
  intros Hc. assert (H0 : sp_maxRecs s = 0) by exact Hc. clear Hc.
  assert (Ht : ∀ e, trim (sp_recs s ++ [e]) 0 = Some (true, [])).
  { intros e. unfold trim. rewrite length_app. cbn [length].
    rewrite (proj2 (Z.ltb_lt _ _)) by lia. cbn. by rewrite drop_ge by (rewrite length_app; cbn; lia). }
  eexists _, _. unfold Spool.Append. cbn [appendLocked sp_recs sp_maxRecs]. rewrite H0, Ht. split; reflexivity.
Qed.

(** Without flags and environment, pi runs under the policy [NewPi] starts with. *)
Lemma unset_is_default : dc_policy (parseConfig (λ _, ""%string) []) = default_policy.
Proof. reflexivity. Qed.
End Config.

(** ** The built-in pi *)

Record fakepi : Type := mkFakePi { fp_turn : nat; fp_steering : texts; fp_followUp : texts }.

Definition fakepi_start : fakepi := mkFakePi 0 None None.

(** Standard output, standard error, and the pause inside a turn. *)
Inductive fake_out : Type :=
| FLine (j : json)
| FErr (text : string)
| FSleep (d : Z).

(** A nil queue is printed as an empty list. *)
Definition queue_update (steer follow : texts) : json :=
  JObj (fields_of [("type", JStr "queue_update"); ("steering", JArr (JStr <$> elems steer));
                   ("followUp", JArr (JStr <$> elems follow))])%string.

(** The message inside the payload; a second payload is decoded over the first. *)
Definition payload_message (ms : list (string * json)) : string * bool :=
  fold_left (λ (st : string * bool) kv,
    if key_matches "payload" (fst kv) then
      match snd kv with
      | JNull => st
      | JObj inner => let '(m, bad) := decode_field conv_string "message" (fst st) inner in (m, snd st || bad)
      | _ => (fst st, true)
      end
    else st) ms (""%string, false).

Definition fake_command (line : RawMessage) : option (string * string) :=
  ms ← unmarshal_struct line;
  let '(typ, bad1) := string_field "type" ms in
  let '(message, bad2) := payload_message ms in
  if bad1 || bad2 then None else Some (typ, message).

(** [t-%04d]. *)
Definition turn_id (n : nat) : string :=
  let d := pretty (N.of_nat n) in
  "t-" +:+ string_of_list_ascii (repeat "0"%char (4 - String.length d)) +:+ d.

Definition aborted_line : json := JObj [("type", JStr "agent_settled"); ("aborted", JBool true)]%string.

Definition turn_head (id : string) : list json :=
  [ JObj [("type", JStr "turn_started"); ("turn_id", JStr id)];
    JObj [("type", JStr "tool_call"); ("turn_id", JStr id); ("name", JStr "read_file");
          ("arguments", JObj [("path", JStr "README.md")])] ]%string.

Definition turn_tail (id : string) : list json :=
  [ JObj [("type", JStr "text_delta"); ("turn_id", JStr id); ("text", JStr "Working on it.")];
    JObj [("type", JStr "agent_settled"); ("turn_id", JStr id)] ]%string.

Section FakePi.
(** [hold_of] is the pause a prompt asks for, read from the text of its message. *)
Context (hold_of : string → Z).

(** One line of input, of at most a mebibyte; [RNil] is a blank one. *)
Definition fake_step (line : RawMessage) (st : fakepi) : fakepi * list fake_out :=
  match line with
  | RNil => (st, [])
  | _ =>
      match fake_command line with
      | None => (st, [FErr "bad command line"])
      | Some (typ, message) =>
          if String.eqb typ CommandPrompt then
            let n := S (fp_turn st) in
            let hold := hold_of message in
            (mkFakePi n (fp_steering st) (fp_followUp st),
             (FLine <$> turn_head (turn_id n)) ++ (if 0 <? hold then [FSleep hold] else [])
             ++ (FLine <$> turn_tail (turn_id n)))
          else if String.eqb typ CommandSteer then
            let q := Some (elems (fp_steering st) ++ [message]) in
            (mkFakePi (fp_turn st) q (fp_followUp st), [FLine (queue_update q (fp_followUp st))])
          else if String.eqb typ "follow_up" then
            let q := Some (elems (fp_followUp st) ++ [message]) in
            (mkFakePi (fp_turn st) (fp_steering st) q, [FLine (queue_update (fp_steering st) q)])
          else if String.eqb typ CommandAbort then (st, [FLine aborted_line])
          else if String.eqb typ CommandClearQueue then
            (mkFakePi (fp_turn st) None None, [FLine (queue_update None None)])
          else (st, [FErr "unknown command type"])
      end
  end.

Fixpoint runFakePi (lines : list RawMessage) (st : fakepi) : fakepi * list fake_out :=
  match lines with
  | [] => (st, [])
  | l :: rest => let '(st1, o1) := fake_step l st in let '(st2, o2) := runFakePi rest st1 in (st2, o1 ++ o2)
  end.

Definition stdout_of (out : list fake_out) : list json := omap (λ o, match o with FLine j => Some j | _ => None end) out.

(** ** The tracker follows the queue *)

Context (compact : json → string) (mentions : json → bool).
(** A line that carries a queue update contains its name in quotes. *)
Hypothesis mentions_update : ∀ s f, mentions (queue_update s f) = true.

Definition tracked (p : Pi) (st : fakepi) : Prop :=
  elems (p_queuedSteering p) = elems (fp_steering st) ∧ elems (p_queuedFollowUp p) = elems (fp_followUp st).

(** A line that is not a queue update. *)
Definition not_update (j : json) : Prop := ∀ p, trackQueueUpdate compact mentions j p = p.

Lemma queueTexts_strings l : queueTexts compact (JStr <$> l) = l.
Proof. unfold queueTexts. rewrite <- list_fmap_compose. apply list_fmap_id. Qed.

Lemma decode_update s f :
  ∃ ms, queue_update s f = JObj ms ∧ string_field "type" ms = ("queue_update"%string, false) ∧
    slice_field "steering" ms = (JStr <$> elems s, false) ∧ slice_field "followUp" ms = (JStr <$> elems f, false).
Proof. eexists. by repeat split. Qed.

Lemma track_update s f p :
  trackQueueUpdate compact mentions (queue_update s f) p = set_queue (Some (elems s)) (Some (elems f)) p.
Proof.
  unfold trackQueueUpdate. rewrite mentions_update. destruct (decode_update s f) as (ms & -> & E1 & E2 & E3).
  cbn [negb unmarshal_struct]. rewrite E1, E2, E3. cbn -[queueTexts fmap elems]. by rewrite !queueTexts_strings.
Qed.

Lemma typed_not_update t ms :
  t ≠ "queue_update"%string → string_field "type" (("type"%string, JStr t) :: ms) = (t, false) →
  not_update (JObj (("type"%string, JStr t) :: ms)).
Proof.
  intros Ht Hs p. unfold trackQueueUpdate. destruct (mentions _); cbn [negb]; [|done].
  cbn [unmarshal_struct]. rewrite Hs.
  destruct (slice_field "steering" _) as [? b1]. destruct (slice_field "followUp" _) as [? b2].
  rewrite (proj2 (String.eqb_neq t "queue_update") Ht). cbn [negb]. by rewrite orb_true_r.
Qed.

Lemma turn_not_update id : Forall not_update (turn_head id ++ turn_tail id).
Proof. repeat (constructor; [by apply typed_not_update|]). constructor. Qed.

Lemma aborted_not_update : not_update aborted_line.
Proof. by apply typed_not_update. Qed.

Lemma relay_app l1 l2 p :
  relayStdout compact mentions (l1 ++ l2) None p =
  let '(e1, p1) := relayStdout compact mentions l1 None p in
  let '(e2, p2) := relayStdout compact mentions l2 None p1 in (e1 ++ e2, p2).
Proof.
  revert p. induction l1 as [|l l1 IH]; intros p; cbn.
  - by destruct (relayStdout _ _ l2 None p).
  - destruct (spoolStdoutLine _ _ l p) as [e1 p1]. rewrite IH.
    destruct (relayStdout _ _ l1 None p1) as [e2 p2]. destruct (relayStdout _ _ l2 None p2) as [e3 p3].
    by rewrite app_assoc.
Qed.

(** The relay spools every line and, without updates, leaves the tracker. *)
Lemma relay_plain js p :
  Forall not_update js → relayStdout compact mentions (RJson <$> js) None p = (ESpool <$> (RJson <$> js), p).
Proof. induction 1 as [|j js Hj _ IH]; [done|]. cbn. by rewrite Hj, IH. Qed.

Lemma step_tracked line st p :
  tracked p st →
  let '(st', out) := fake_step line st in
  let '(effs, p') := relayStdout compact mentions (RJson <$> stdout_of out) None p in
  tracked p' st' ∧ effs = ESpool <$> (RJson <$> stdout_of out).
Proof.
  intros Ht. unfold fake_step. destruct line as [|j|t]; [done| |done].
  destruct (fake_command (RJson j)) as [[typ message]|]; [|done].
  destruct (String.eqb typ CommandPrompt).
  { set (n := S (fp_turn st)).
    assert (E : stdout_of ((FLine <$> turn_head (turn_id n)) ++
              (if 0 <? hold_of message then [FSleep (hold_of message)] else []) ++ (FLine <$> turn_tail (turn_id n))) =
            turn_head (turn_id n) ++ turn_tail (turn_id n)) by (by destruct (0 <? hold_of message)).
    rewrite E, relay_plain by apply turn_not_update. by split. }
  destruct (String.eqb typ CommandSteer); [cbn; rewrite track_update; by split|].
  destruct (String.eqb typ "follow_up"); [cbn; rewrite track_update; by split|].
  destruct (String.eqb typ CommandAbort); [cbn; rewrite aborted_not_update; by split|].
  destruct (String.eqb typ CommandClearQueue); [cbn; rewrite track_update; by split|]. done.
Qed.

(** Whatever is written to it, every line of the built-in pi is spooled, in order and
    as printed, and afterwards the daemon's tracker holds the queue of the process. *)
Theorem tracker_follows lines st p :
  tracked p st →
  let '(st', out) := runFakePi lines st in
  let '(effs, p') := relayStdout compact mentions (RJson <$> stdout_of out) None p in
  tracked p' st' ∧ effs = ESpool <$> (RJson <$> stdout_of out).
Proof.
  revert st p. induction lines as [|l lines IH]; intros st p Ht; [done|]. cbn [runFakePi].
  pose proof (step_tracked l st p Ht) as H1. destruct (fake_step l st) as [st1 o1].
  destruct (relayStdout _ _ (RJson <$> stdout_of o1) None p) as [e1 p1] eqn:E1. destruct H1 as [Ht1 ->].
  specialize (IH st1 p1 Ht1). destruct (runFakePi lines st1) as [st2 o2].
  destruct (relayStdout _ _ (RJson <$> stdout_of o2) None p1) as [e2 p2] eqn:E2. destruct IH as [Ht2 ->].
  unfold stdout_of in *. rewrite omap_app, fmap_app, relay_app, E1, E2. split; [done|]. by rewrite !fmap_app.
Qed.

(** An abort takes the queue with it.  When both writes of the abort pair reach the
    process, it ends with an empty queue and an aborted turn, the tracker ends empty,
    and the notice that was spooled carries exactly the texts that were queued in the
    process. *)
Theorem abort_reports_queue env c p st gen :
  tracked p st → p_stdin p = Some gen → se_write1 env = true → se_write2 env = true →
  ∃ p' effs, send_abort env c p = (None, EWrite (clear_line c) :: effs ++ [EWrite abort_line], p') ∧
    (effs = [] ∧ elems (fp_steering st) = [] ∧ elems (fp_followUp st) = [] ∨
     ∃ s f, effs = [queue_drained s f] ∧ elems s = elems (fp_steering st) ∧ elems f = elems (fp_followUp st)) ∧
    let '(st', out) := runFakePi [RJson (clear_line c); RJson abort_line] st in
    st' = mkFakePi (fp_turn st) None None ∧ stdout_of out = [queue_update None None; aborted_line] ∧
    tracked (snd (relayStdout compact mentions (RJson <$> stdout_of out) None p')) st'.
Proof.
  intros [Hs Hf] Hin Hw1 Hw2. unfold send_abort. rewrite Hin, Hw1, Hw2. unfold drainNotice. cbn [negb].
  eexists _, _. split; [done|]. split.
  - destruct (Nat.eqb_spec (length (elems (p_queuedSteering p))) 0) as [E1|]; cbn [andb].
    + destruct (Nat.eqb_spec (length (elems (p_queuedFollowUp p))) 0) as [E2|].
      * left. apply nil_length_inv in E1, E2. split_and!; congruence.
      * right. eauto.
    + right. eauto.
  - assert (Hrun : runFakePi [RJson (clear_line c); RJson abort_line] st =
                   (mkFakePi (fp_turn st) None None, [FLine (queue_update None None); FLine aborted_line])) by reflexivity.
    rewrite Hrun. change (stdout_of _) with [queue_update None None; aborted_line]. split_and!; [done..|].
    cbn [fmap list_fmap relayStdout spoolStdoutLine]. rewrite track_update, aborted_not_update. by split.
Qed.
End FakePi.

(** ** Samples *)

Module Samples.

Definition environ (k : string) : string := if String.eqb k "KAPE_DAEMON_TOKEN" then "from-env" else "".

Definition no_frac (_ : string) : option Z := None.
Definition no_int (_ : string) : Z * bool := (0, false).

Definition settings : list (bool * string * string) :=
  [(true, "token", "a=b"); (false, "pi-backoff-max", "1m"); (false, "token", "-x")]%string.

Lemma settings_accepted : Forall (accepted (daemon_flags no_frac no_int)) settings.
Proof.
  repeat constructor; try (eapply flag_name_ok; done); (eexists; split; [reflexivity|]; split; [by auto|done]).
Qed.

Lemma flags_win_witness :
  dc_Token (parseConfig no_frac no_int environ ["-token=a=b"; "-pi-backoff-max"; "1m"; "-token"; "-x"]%string) = "-x"%string ∧
  backoffMax (dc_policy (parseConfig no_frac no_int environ ["-token=a=b"; "-pi-backoff-max"; "1m"; "-token"; "-x"]%string)) = 60 * second.
Proof.
  destruct (flags_win no_frac no_int environ settings settings_accepted) as [H1 H2].
  split; [exact H2|reflexivity].
Defined.

Lemma tracker_follows_witness :
  let '(st', out) := runFakePi (λ _, 0) [RJson (JObj [("type", JStr "steer"); ("payload", JObj [("message", JStr "hold on")])])]%string fakepi_start in
  let '(effs, p') := relayStdout (λ _, ""%string) (λ _, true) (RJson <$> stdout_of out) None ex_pi in
  tracked p' st' ∧ effs = ESpool <$> (RJson <$> stdout_of out).
Proof.
  apply (tracker_follows (λ _, 0) (λ _, ""%string) (λ _, true) (λ _ _, eq_refl)). by split.
Defined.

Lemma abort_reports_queue_witness :
  ∃ p' effs, send_abort (ex_send true) (mkCommand "c1" CommandAbort RNil "") ex_queued =
    (None, EWrite (clear_line (mkCommand "c1" CommandAbort RNil "")) :: effs ++ [EWrite abort_line], p') ∧ length effs = 1%nat.
Proof.
  destruct (abort_reports_queue (λ _, 0) (λ _, ""%string) (λ _, true) (λ _ _, eq_refl) (ex_send true)
    (mkCommand "c1" CommandAbort RNil "") ex_queued (mkFakePi 0 (Some ["hold"%string]) None) (default 0%nat (p_stdin ex_queued)))
    as (p' & effs & H1 & [(? & [=] & _)|(s & f & -> & _)] & _); [by split|reflexivity..|].
  by exists p', [queue_drained s f].
Defined.

End Samples.
