(* ===== verification/Policy.v ===== *)
(** * Credential bindings and sandbox network policy
      (src/controller/credentials.go, src/controller/policy.go)

    The table of bindings, the additive merge into one rule, the stamping of
    bindings into the policy a sandbox already has, and the guarded write of the
    result through the gateway.  The messages of the gateway's API keep the
    fields the code reads or writes; the rest of an endpoint is only copied. *)

From Stdlib Require Import Ascii String ZArith.
From S2P Require Import Prelude Json GoTime GoStrings Bolt EventStore EventHub Fsm Monitor Config.
From S2P Require Import Agent Manager.
From stdpp Require Import base list strings numbers gmap.
Local Open Scope Z_scope.

(** ** strings and strconv *)

Definition lower_ascii (c : ascii) : ascii :=
  let n := nat_of_ascii c in
  if (65 <=? n)%nat && (n <=? 90)%nat then ascii_of_nat (n + 32) else c.

(** [ToLower] of an ASCII string. *)
Fixpoint ToLower (s : string) : string :=
  match s with EmptyString => EmptyString | String c r => String (lower_ascii c) (ToLower r) end.

(** [Cut] at the first separator. *)
Fixpoint Cut (s : string) (sep : ascii) : string * string * bool :=
  match s with
  | EmptyString => (EmptyString, EmptyString, false)
  | String c r =>
      if Ascii.eqb c sep then (EmptyString, r, true)
      else let '(a, b, found) := Cut r sep in (String c a, b, found)
  end.

Definition ContainsRune (s : string) (c : ascii) : bool := existsb (Ascii.eqb c) (chars s).

Fixpoint drop_zeros (ds : list Z) : list Z :=
  match ds with
  | d :: ((_ :: _) as r) => if d =? 0 then drop_zeros r else ds
  | _ => ds
  end.

(** [FormatUint(n, 10)] of a 32-bit number. *)
Definition FormatUint (n : Z) : string := show (drop_zeros (digits 10 n)) "".

(** ** Messages *)

Record L7Allow : Type := mkAllow { l7_Method : string; l7_Path : string }.

Definition allow_all : list L7Allow := [mkAllow "*" "**"].

(** [ne_Ports], when it is not empty, takes precedence over [ne_Port]; [ne_Access] is the
    preset's number, 0 when unspecified; [ne_rest] stands for the fields that are only
    copied. *)
Record NetworkEndpoint : Type := mkEndpoint {
  ne_Host : string;
  ne_Port : Z;
  ne_Ports : list Z;
  ne_Protocol : string;
  ne_Access : Z;
  ne_Rules : list L7Allow;
  ne_CredentialBinding : option string;
  ne_rest : json
}.

Record NetworkPolicyRule : Type := mkRule {
  nr_Name : string;
  nr_Endpoints : list NetworkEndpoint;
  nr_Binaries : list string
}.

(** The rules of a [SandboxPolicy], by key. *)
Notation NetworkPolicies := (gmap string NetworkPolicyRule).

(** The one operation the bindings use: [AddRule] with its key. *)
Record AddRule : Type := mkAddRule { ar_RuleName : string; ar_Rule : NetworkPolicyRule }.

(** ** The binding table *)

Inductive policy_err : Type :=
| EBadSpec (spec : string)
| EBadProvider (i : nat)
| ENoHosts (i : nat)
| EMalformed
| ETrailing
| ENilPolicy
| EConflict (key cur want : string)
| ERead
| ENoBackfill
| ERule
| EUpdate.

Definition host_first (c : ascii) : bool := alnum c || one_of "_*-" c.
Definition host_rest (c : ascii) : bool := alnum c || one_of "._*-" c.
Definition bindingHostRe : re := RSeq (RClass host_first) (RStar (RClass host_rest)).

Definition splitHostSpec (spec : string) : option (string * Z) :=
  let '(host, portPart, found) := Cut spec ":" in
  if negb found || String.eqb host "" || String.eqb portPart "" then None
  else if ContainsRune portPart ":" then None
  else if negb (MatchString bindingHostRe host) then None
  else match Atoi portPart with
       | Some port => if (port <? 1) || (65535 <? port) then None else Some (host, port)
       | None => None
       end.

(** Decoding [[]Binding] with unknown fields disallowed: [null] is the zero value
    at every level. *)
Definition decode_hosts (ms : list (string * json)) : list string * bool :=
  fold_left (λ (st : list string * bool) kv,
    if key_matches "hosts" (fst kv) then
      match snd kv with
      | JNull => ([], snd st)
      | JArr l => ((λ e, match e with JStr s => s | _ => ""%string end) <$> l,
                   snd st || negb (forallb (λ e, match e with JStr _ | JNull => true | _ => false end) l))
      | _ => (fst st, true)
      end
    else st) ms ([], false).

Definition decode_binding (j : json) : option Binding :=
  ms ← unmarshal_struct (RJson j);
  let '(provider, bad1) := string_field "provider" ms in
  let '(hosts, bad2) := decode_hosts ms in
  if bad1 || bad2 ||
     negb (forallb (λ kv, key_matches "provider" (fst kv) || key_matches "hosts" (fst kv)) ms)
  then None else Some (mkBinding provider hosts).

Definition decode_bindings (j : json) : option (list Binding) :=
  match j with
  | JNull => Some []
  | JArr l => mapM decode_binding l
  | _ => None
  end.

Fixpoint check_hosts (specs : list string) : option policy_err :=
  match specs with
  | [] => None
  | spec :: rest => match splitHostSpec spec with None => Some (EBadSpec spec) | Some _ => check_hosts rest end
  end.

Fixpoint check_bindings (i : nat) (bs : list Binding) : option policy_err :=
  match bs with
  | [] => None
  | b :: rest =>
      if negb (MatchString providerRe (b_Provider b)) then Some (EBadProvider i)
      else match b_Hosts b with
           | [] => Some (ENoHosts i)
           | specs => match check_hosts specs with
                      | Some e => Some e
                      | None => check_bindings (S i) rest
                      end
           end
  end.

(** The configured text: blank, one JSON value with or without anything behind
    it, or not JSON. *)
Inductive bindings_text : Type :=
| BTBlank
| BTJson (j : json) (trailing : bool)
| BTBad.

Definition ParseBindings (raw : bindings_text) : res policy_err (list Binding) :=
  match raw with
  | BTBlank => Ok []
  | BTBad => Err EMalformed
  | BTJson j trailing =>
      match decode_bindings j with
      | None => Err EMalformed
      | Some bs =>
          if trailing then Err ETrailing
          else match check_bindings 0 bs with Some e => Err e | None => Ok bs end
      end
  end.

Fixpoint validateBindings (bs : list Binding) : option policy_err :=
  match bs with
  | [] => None
  | b :: rest => match check_hosts (b_Hosts b) with Some e => Some e | None => validateBindings rest end
  end.

(** ** The additive merge *)

Definition endpointKey (host : string) (port : Z) : string :=
  ToLower host +:+ ":" +:+ FormatUint port.

(** The key of an endpoint, by its [ne_Port] alone. *)
Definition key_of (ep : NetworkEndpoint) : string := endpointKey (ne_Host ep) (ne_Port ep).

Definition credentialBinaryPaths : list string := ["/usr/bin/git"; "/usr/bin/gh"; "/usr/bin/pi"]%string.

Definition CredentialBindingRuleName : string := "m1_credential_bindings".

Definition bound_endpoint (host : string) (port : Z) (provider : string) : NetworkEndpoint :=
  mkEndpoint host port [] "rest" 0 allow_all (Some provider) JNull.

(** The inner loop of [MergePolicy] over the hosts of one binding. *)
Fixpoint merge_hosts (provider : string) (specs : list string) (seen : gset string)
    (eps : list NetworkEndpoint) : res policy_err (gset string * list NetworkEndpoint) :=
  match specs with
  | [] => Ok (seen, eps)
  | spec :: rest =>
      match splitHostSpec spec with
      | None => Err (EBadSpec spec)
      | Some (host, port) =>
          let key := endpointKey host port in
          if decide (key ∈ seen) then merge_hosts provider rest seen eps
          else merge_hosts provider rest ({[key]} ∪ seen) (eps ++ [bound_endpoint host port provider])
      end
  end.

Fixpoint merge_bindings (bs : list Binding) (seen : gset string) (eps : list NetworkEndpoint)
    : res policy_err (list NetworkEndpoint) :=
  match bs with
  | [] => Ok eps
  | b :: rest =>
      match merge_hosts (b_Provider b) (b_Hosts b) seen eps with
      | Err e => Err e
      | Ok (seen', eps') => merge_bindings rest seen' eps'
      end
  end.

Fixpoint merge_binaries (paths : list string) (bins : list string) : list string :=
  match paths with
  | [] => bins
  | p :: rest => merge_binaries rest (if decide (p ∈ bins) then bins else bins ++ [p])
  end.

Definition MergePolicy (policy : option NetworkPolicyRule) (bs : list Binding)
    : res policy_err NetworkPolicyRule :=
  match policy with
  | None => Err ENilPolicy
  | Some r =>
      match bs with
      | [] => Ok r
      | _ => match merge_bindings bs (list_to_set (key_of <$> nr_Endpoints r)) (nr_Endpoints r) with
             | Err e => Err e
             | Ok eps => Ok (mkRule (nr_Name r) eps (merge_binaries credentialBinaryPaths (nr_Binaries r)))
             end
      end
  end.

(** ** Stamping *)

Definition ensureL7 (ep : NetworkEndpoint) : NetworkEndpoint :=
  if negb (String.eqb (ne_Protocol ep) "") && negb (String.eqb (ne_Protocol ep) "tcp") then ep
  else if negb (ne_Access ep =? 0) || (0 <? length (ne_Rules ep))%nat then ep
  else mkEndpoint (ne_Host ep) (ne_Port ep) (ne_Ports ep) "rest" (ne_Access ep) allow_all
         (ne_CredentialBinding ep) (ne_rest ep).

Definition stamp (provider : string) (ep : NetworkEndpoint) : NetworkEndpoint :=
  ensureL7 (mkEndpoint (ne_Host ep) (ne_Port ep) (ne_Ports ep) (ne_Protocol ep) (ne_Access ep) (ne_Rules ep)
              (Some provider) (ne_rest ep)).

(** The lookup table of the bindings and the order of its keys. *)
Fixpoint provider_hosts (provider : string) (specs : list string) (ps : gmap string string)
    (order : list string) : res policy_err (gmap string string * list string) :=
  match specs with
  | [] => Ok (ps, order)
  | spec :: rest =>
      match splitHostSpec spec with
      | None => Err (EBadSpec spec)
      | Some (host, port) =>
          let key := endpointKey host port in
          match ps !! key with
          | Some _ => provider_hosts provider rest ps order
          | None => provider_hosts provider rest (<[key := provider]> ps) (order ++ [key])
          end
      end
  end.

Fixpoint provider_table (bs : list Binding) (ps : gmap string string) (order : list string)
    : res policy_err (gmap string string * list string) :=
  match bs with
  | [] => Ok (ps, order)
  | b :: rest =>
      match provider_hosts (b_Provider b) (b_Hosts b) ps order with
      | Err e => Err e
      | Ok (ps', order') => provider_table rest ps' order'
      end
  end.

(** The endpoints of one rule: whether one was changed, the new list, and the keys
    found. *)
Fixpoint stamp_endpoints (ps : gmap string string) (eps : list NetworkEndpoint)
    : res policy_err (bool * list NetworkEndpoint * gset string) :=
  match eps with
  | [] => Ok (false, [], ∅)
  | ep :: rest =>
      match ps !! key_of ep with
      | None =>
          match stamp_endpoints ps rest with
          | Ok (changed, eps', stamped) => Ok (changed, ep :: eps', stamped)
          | Err e => Err e
          end
      | Some provider =>
          let cur := default ""%string (ne_CredentialBinding ep) in
          if negb (String.eqb cur "") && negb (String.eqb cur provider) then
            Err (EConflict (key_of ep) cur provider)
          else
            match stamp_endpoints ps rest with
            | Err e => Err e
            | Ok (changed, eps', stamped) =>
                if String.eqb cur "" then Ok (true, stamp provider ep :: eps', {[key_of ep]} ∪ stamped)
                else Ok (changed, ep :: eps', {[key_of ep]} ∪ stamped)
            end
      end
  end.

Fixpoint stamp_rules (policy : NetworkPolicies) (ps : gmap string string) (keys : list string)
    : res policy_err (list AddRule * gset string) :=
  match keys with
  | [] => Ok ([], ∅)
  | k :: rest =>
      match policy !! k with
      | None => stamp_rules policy ps rest
      | Some r =>
          match stamp_endpoints ps (nr_Endpoints r) with
          | Err e => Err e
          | Ok (changed, eps, stamped) =>
              match stamp_rules policy ps rest with
              | Err e => Err e
              | Ok (ops, stamped') =>
                  Ok ((if changed then [mkAddRule k (mkRule (nr_Name r) eps (nr_Binaries r))] else []) ++ ops,
                      stamped ∪ stamped')
              end
          end
      end
  end.

Definition missing_bindings (ps : gmap string string) (stamped : gset string) (order : list string)
    : list Binding :=
  omap (λ key, if decide (key ∈ stamped) then None
               else let '(host, port, _) := Cut key ":" in
                    Some (mkBinding (default ""%string (ps !! key)) [host +:+ ":" +:+ port])) order.

Definition CredentialPolicyOps (policy : option NetworkPolicies) (bs : list Binding)
    : res policy_err (list AddRule) :=
  match bs, policy with
  | [], _ => Ok []
  | _, None => Err ENilPolicy
  | _, Some pol =>
      match provider_table bs ∅ [] with
      | Err e => Err e
      | Ok (ps, order) =>
          match stamp_rules pol ps (sort_strings (elements (dom pol))) with
          | Err e => Err e
          | Ok (ops, stamped) =>
              match missing_bindings ps stamped order with
              | [] => Ok ops
              | missing =>
                  match MergePolicy (Some (mkRule CredentialBindingRuleName [] [])) missing with
                  | Err e => Err e
                  | Ok rule => Ok (ops ++ [mkAddRule (nr_Name rule) rule])
                  end
              end
          end
      end
  end.

(** ** Writing the policy *)

Definition ModelGatewayRuleName : string := "m1_model_gateway".

(** A parsed URL, as far as it is used. *)
Record url : Type := mkUrl { u_Scheme : string; u_Hostname : string; u_Port : string }.

(** [endpointHostPort]; [u] is what [url.Parse] makes of the configured text. *)
Definition endpointHostPort (endpoint : string) (u : option url) : option (string * Z) :=
  if String.eqb endpoint "" then None
  else match u with
  | None => None
  | Some u =>
      if String.eqb (u_Hostname u) "" then None
      else if negb (String.eqb (u_Scheme u) "http" || String.eqb (u_Scheme u) "https") then None
      else if negb (String.eqb (u_Port u) "") then
        match Atoi (u_Port u) with
        | Some n => if (n <? 1) || (65535 <? n) then None else Some (u_Hostname u, n)
        | None => None
        end
      else Some (u_Hostname u, if String.eqb (u_Scheme u) "https" then 443 else 80)
  end.

(** [modelGatewayRule]; [allowed] is the configured or resolved list of addresses,
    [None] when resolving fails. *)
Definition modelGatewayRule (endpoint : string) (u : option url) (allowed : option (list string))
    : option NetworkPolicyRule :=
  match endpointHostPort endpoint u, allowed with
  | Some (host, port), Some ips =>
      Some (mkRule ModelGatewayRuleName
              [mkEndpoint host port [] "rest" 0 allow_all None
                 (JObj [("allowed_ips", JArr (JStr <$> ips))])]
              ["/usr/bin/pi"; "/usr/bin/curl"; "/usr/bin/node"])%string
  | _, _ => None
  end.

(** The gateway's answers to [UpdateConfig]. *)
Inductive upd : Type :=
| UOk
| UAborted
| UFailed.

(** One [UpdateConfig]: the operations and the version they are pinned to. *)
Record update_call : Type := mkUpdate { uc_ops : list AddRule; uc_expected : N }.

Definition policyMergeAttempts : nat := 4.

(** The loop of [mergeOrRetry]: [ans] is the gateway at each attempt, [cancelled]
    whether the context ends during the pause before it. *)
Fixpoint merge_attempts (left attempt : nat) (ans : nat → update_call → upd) (cancelled : nat → bool)
    (c : update_call) : option policy_err * list update_call :=
  match left with
  | O => (Some EUpdate, [])
  | S left' =>
      if (0 <? attempt)%nat && cancelled attempt then (Some EUpdate, [])
      else match ans attempt c with
      | UOk => (None, [c])
      | UFailed => (Some EUpdate, [c])
      | UAborted =>
          if (attempt <? policyMergeAttempts - 1)%nat then
            let '(e, cs) := merge_attempts left' (S attempt) ans cancelled c in (e, c :: cs)
          else (Some EUpdate, [c])
      end
  end.

Definition mergeOrRetry (ans : nat → update_call → upd) (cancelled : nat → bool)
    (ops : list AddRule) (expected : N) : option policy_err * list update_call :=
  merge_attempts policyMergeAttempts 0 ans cancelled (mkUpdate ops expected).

(** The outside of one [ApplyModelGatewayPolicy]: the two reads with the versions
    they report, and the gateway during the two merges. *)
Record apply_env : Type := mkApplyEnv {
  ap_read1 : option (NetworkPolicies * N);
  ap_read2 : option (NetworkPolicies * N);
  ap_ans1 : nat → update_call → upd;
  ap_ans2 : nat → update_call → upd;
  ap_cancelled1 : nat → bool;
  ap_cancelled2 : nat → bool
}.

(** The read, and the backfill of a policy that is still empty: the policy to
    stamp, its version, the operations left, and the calls made. *)
Definition read_policy (env : apply_env) (ops : list AddRule)
    : res policy_err (NetworkPolicies * N * list AddRule) * list update_call :=
  match ap_read1 env with
  | None => (Err ERead, [])
  | Some (pol, v) =>
      if decide (pol = ∅) then
        match mergeOrRetry (ap_ans1 env) (ap_cancelled1 env) ops v with
        | (Some e, cs) => (Err e, cs)
        | (None, cs) =>
            match ap_read2 env with
            | None => (Err ERead, cs)
            | Some (pol2, v2) => if decide (pol2 = ∅) then (Err ENoBackfill, cs)
                                 else (Ok (pol2, v2, []), cs)
            end
        end
      else (Ok (pol, v, ops), [])
  end.

Definition submit (env : apply_env) (ops : list AddRule) (expected : N) (cs : list update_call)
    : option policy_err * list update_call :=
  match ops with
  | [] => (None, cs)
  | _ => let '(e, cs') := mergeOrRetry (ap_ans2 env) (ap_cancelled2 env) ops expected in (e, cs ++ cs')
  end.

Definition ApplyModelGatewayPolicy (rule : option NetworkPolicyRule) (bs : list Binding)
    (env : apply_env) : option policy_err * list update_call :=
  match rule with
  | None => (Some ERule, [])
  | Some rule =>
      let ops := [mkAddRule (nr_Name rule) rule] in
      match validateBindings bs with
      | Some e => (Some e, [])
      | None =>
          match bs with
          | [] => submit env ops 0 []
          | _ =>
              match read_policy env ops with
              | (Err e, cs) => (Some e, cs)
              | (Ok (pol, v, rest), cs) =>
                  match CredentialPolicyOps (Some pol) bs with
                  | Err e => (Some e, cs)
                  | Ok bindingOps => submit env (rest ++ bindingOps) v cs
                  end
              end
          end
      end
  end.

(** ** Keys *)

Lemma lower_ascii_idem c : lower_ascii (lower_ascii c) = lower_ascii c.
Proof. destruct c as [[] [] [] [] [] [] [] []]; reflexivity. Qed.

Lemma ToLower_idem s : ToLower (ToLower s) = ToLower s.
Proof. induction s as [|c s IH]; simpl; [done|]. by rewrite lower_ascii_idem, IH. Qed.

Lemma host_lower c : host_first c = true → host_first (lower_ascii c) = true.
Proof. destruct c as [[] [] [] [] [] [] [] []]; vm_compute; congruence. Qed.

Lemma host_rest_lower c : host_rest c = true → host_rest (lower_ascii c) = true.
Proof. destruct c as [[] [] [] [] [] [] [] []]; vm_compute; congruence. Qed.

Lemma host_rest_colon c : host_rest c = true → Ascii.eqb c ":" = false.
Proof. destruct c as [[] [] [] [] [] [] [] []]; vm_compute; congruence. Qed.

Lemma host_first_rest c : host_first c = true → host_rest c = true.
Proof. destruct c as [[] [] [] [] [] [] [] []]; vm_compute; congruence. Qed.

Lemma lang_star_class (p : ascii → bool) w : lang (RStar (RClass p)) w ↔ Forall (λ c, p c = true) w.
Proof.
  split.
  - intros Hl. remember (RStar (RClass p)) as r eqn:Er. induction Hl; simplify_eq; [constructor|].
    inversion Hl1; subst. constructor; [done|by apply IHHl2].
  - induction 1 as [|c w Hc _ IH]; [constructor|]. change (c :: w) with ([c] ++ w).
    constructor; [by constructor|done].
Qed.

(** A host pattern: a first character, then more of them. *)
Lemma host_match h :
  MatchString bindingHostRe h = true ↔
    ∃ c r, h = String c r ∧ host_first c = true ∧ Forall (λ c, host_rest c = true) (chars r).
Proof.
  rewrite re_matches_lang. unfold bindingHostRe. split.
  - remember (chars h) as w eqn:Ew. inversion 1 as [| |? ? w1 w2 H1 H2| | | |]; subst.
    inversion H1 as [|? c Hc| | | | |]; subst. apply lang_star_class in H2.
    destruct h as [|c' r]; [done|]. simpl in *. simplify_eq. eauto.
  - intros (c & r & -> & Hc & Hr). change (chars (String c r)) with ([c] ++ chars r).
    constructor; [by constructor|by apply lang_star_class].
Qed.

Definition is_dig (d : Z) : Prop := 0 ≤ d < 10.

Lemma drop_zeros_of_digits ds : of_digits (drop_zeros ds) = of_digits ds.
Proof.
  induction ds as [|d [|d' ds] IH]; [done..|]. cbn [drop_zeros].
  destruct (Z.eqb_spec d 0) as [->|]; [exact IH|done].
Qed.

Lemma drop_zeros_digs ds : Forall is_dig ds → Forall is_dig (drop_zeros ds).
Proof.
  induction 1 as [|d [|d' ds] Hd Hf IH]; [constructor|by constructor|]. cbn [drop_zeros].
  destruct (d =? 0); [done|by constructor].
Qed.

Lemma drop_zeros_nil ds : ds ≠ [] → drop_zeros ds ≠ [].
Proof.
  induction ds as [|d [|d' ds] IH]; [done..|]. intros _. cbn [drop_zeros].
  destruct (d =? 0); [by apply IH|done].
Qed.

Lemma decimal_show ds acc : Forall is_dig ds →
  decimal acc (chars (show ds "")) = Some (fold_left (λ a d, 10 * a + d) ds acc).
Proof.
  intros Hd. revert acc. induction Hd as [|d ds Hd _ IH]; intros acc; [reflexivity|].
  change (chars (show (d :: ds) "")) with (digit_char d :: chars (show ds "")).
  cbn [decimal fold_left]. rewrite digit_val_char by done. apply IH.
Qed.

Lemma digit_char_sign d : is_dig d →
  digit_char d ≠ "-"%char ∧ digit_char d ≠ "+"%char ∧ Ascii.eqb ":" (digit_char d) = false.
Proof.
  intros Hd. assert (Hc : d = 0 ∨ d = 1 ∨ d = 2 ∨ d = 3 ∨ d = 4 ∨ d = 5 ∨ d = 6 ∨ d = 7 ∨ d = 8 ∨ d = 9).
  { unfold is_dig in Hd. lia. }
  repeat destruct Hc as [->|Hc]; try subst; by split_and!.
Qed.

Lemma FormatUint_digits n : ∃ d ds, drop_zeros (digits 10 n) = d :: ds ∧ Forall is_dig (d :: ds) ∧
  of_digits (d :: ds) = n mod 10 ^ 10.
Proof.
  pose proof (drop_zeros_digs _ (digits_range 10 n)) as Hf.
  pose proof (drop_zeros_of_digits (digits 10 n)) as Hv. rewrite of_digits_digits in Hv.
  destruct (drop_zeros (digits 10 n)) as [|d ds] eqn:E; [|by eauto].
  exfalso. apply (drop_zeros_nil (digits 10 n)); [|done]. intros Hn.
  by apply (f_equal length) in Hn; rewrite length_digits in Hn.
Qed.

Lemma Atoi_unsigned c r : c ≠ "-"%char → c ≠ "+"%char →
  Atoi (String c r) =
    match decimal 0 (c :: chars r) with
    | None => None
    | Some n => if (i64_min <=? n) && (n <=? i64_max) then Some n else None
    end.
Proof.
  intros Hm Hp. unfold Atoi. change (chars (String c r)) with (c :: chars r).
  assert (∀ n, 1 * n = n) as H1 by lia.
  destruct c as [[] [] [] [] [] [] [] []]; try congruence; cbv beta iota;
    destruct (decimal 0 _) as [n|]; rewrite ?H1; reflexivity.
Qed.

Lemma Atoi_FormatUint n : 0 ≤ n < 2 ^ 32 → Atoi (FormatUint n) = Some n.
Proof.
  intros Hn. unfold FormatUint. destruct (FormatUint_digits n) as (d & ds & -> & Hf & Hv).
  change (2 ^ 32) with 4294967296 in Hn. change (10 ^ 10) with 10000000000 in Hv.
  rewrite Z.mod_small in Hv by lia.
  pose proof (decimal_show (d :: ds) 0 Hf) as Hdec. fold (of_digits (d :: ds)) in Hdec. rewrite Hv in Hdec.
  inversion Hf as [|? ? Hd _]; subst. destruct (digit_char_sign d Hd) as (Hm & Hp & _).
  change (show (d :: ds) "") with (String (digit_char d) (show ds "")) in *.
  rewrite Atoi_unsigned by done. change (digit_char d :: chars (show ds "")) with (chars (String (digit_char d) (show ds ""))).
  rewrite Hdec. unfold i64_min, i64_max.
  destruct (Z.leb_spec (-9223372036854775808) (of_digits (d :: ds))), (Z.leb_spec (of_digits (d :: ds)) 9223372036854775807);
    simpl; (done || lia).
Qed.

Lemma FormatUint_text n : FormatUint n ≠ ""%string ∧ ContainsRune (FormatUint n) ":" = false.
Proof.
  unfold FormatUint. destruct (FormatUint_digits n) as (d & ds & -> & Hf & _). split; [done|].
  unfold ContainsRune. induction Hf as [|d' ds' Hd _ IH]; [reflexivity|].
  change (chars (show (d' :: ds') "")) with (digit_char d' :: chars (show ds' "")).
  cbn [existsb]. rewrite (proj2 (proj2 (digit_char_sign d' Hd))). exact IH.
Qed.

Lemma Cut_app h s : Forall (λ c, host_rest c = true) (chars h) →
  Cut (h +:+ String ":" s) ":" = (h, s, true).
Proof.
  induction h as [|c h IH]; simpl; [done|]. inversion 1; subst.
  change (String c h +:+ String ":" s) with (String c (h +:+ String ":" s)).
  simpl. by rewrite host_rest_colon, IH.
Qed.

Lemma chars_lower h : Forall (λ c, host_rest c = true) (chars h) →
  Forall (λ c, host_rest c = true) (chars (ToLower h)).
Proof.
  induction h as [|c h IH]; simpl; [done|]. inversion 1; subst.
  constructor; [by apply host_rest_lower|by apply IH].
Qed.

Lemma endpointKey_lower h p : endpointKey (ToLower h) p = endpointKey h p.
Proof. unfold endpointKey. by rewrite ToLower_idem. Qed.

(** A key that comes from a well-formed host pattern. *)
Definition wf_key (key : string) : Prop :=
  ∃ h p, MatchString bindingHostRe h = true ∧ 1 ≤ p ≤ 65535 ∧ key = endpointKey h p.

Lemma splitHostSpec_wf spec h p : splitHostSpec spec = Some (h, p) → wf_key (endpointKey h p).
Proof.
  unfold splitHostSpec. destruct (Cut spec ":") as [[host portPart] found].
  destruct (negb found || _ || _); [done|]. destruct (ContainsRune _ _); [done|].
  destruct (MatchString bindingHostRe host) eqn:E; [|done]. simpl.
  destruct (Atoi portPart) as [port|]; [|done].
  destruct (Z.ltb_spec port 1), (Z.ltb_spec 65535 port); simpl; try done.
  intros [= <- <-]. exists host, port. split_and!; done || lia.
Qed.

Lemma key_cut h p : MatchString bindingHostRe h = true →
  Cut (endpointKey h p) ":" = (ToLower h, FormatUint p, true).
Proof.
  intros (c & r & -> & Hc & Hr)%host_match. unfold endpointKey. apply Cut_app.
  apply (chars_lower (String c r)). constructor; [by apply host_first_rest|done].
Qed.

(** A key is itself a host pattern, for the lower-case host. *)
Lemma splitHostSpec_key h p :
  MatchString bindingHostRe h = true → 1 ≤ p ≤ 65535 →
  splitHostSpec (endpointKey h p) = Some (ToLower h, p).
Proof.
  intros Hm Hp. unfold splitHostSpec. rewrite (key_cut _ _ Hm).
  destruct (FormatUint_text p) as [Hne Hc].
  assert (Hm' : MatchString bindingHostRe (ToLower h) = true).
  { apply host_match in Hm as (c & r & -> & Hc' & Hr). apply host_match.
    exists (lower_ascii c), (ToLower r).
    split; [done|]. split; [by apply host_lower|by apply chars_lower]. }
  assert (Hh : String.eqb (ToLower h) "" = false).
  { apply String.eqb_neq. intros E. rewrite E in Hm'. by apply host_match in Hm' as (? & ? & ? & _). }
  rewrite Hh, (proj2 (String.eqb_neq _ _) Hne), Hc, Hm'. simpl.
  rewrite Atoi_FormatUint by (change (2 ^ 32) with 4294967296; lia).
  destruct (Z.ltb_spec p 1), (Z.ltb_spec 65535 p); simpl; (done || lia).
Qed.

(** ** The binding table *)

(** All keys the bindings mention, in order, with their providers. *)
Definition spec_pairs (provider : string) (specs : list string) : list (string * string) :=
  omap (λ spec, match splitHostSpec spec with
                | Some (h, p) => Some (endpointKey h p, provider)
                | None => None
                end) specs.

Definition binding_pairs (bs : list Binding) : list (string * string) :=
  bs ≫= λ b, spec_pairs (b_Provider b) (b_Hosts b).

Fixpoint assoc (key : string) (l : list (string * string)) : option string :=
  match l with
  | [] => None
  | (k, v) :: r => if decide (k = key) then Some v else assoc key r
  end.

(** The provider a key is bound to: the first binding that mentions it. *)
Definition bound_to (bs : list Binding) (key : string) : option string := assoc key (binding_pairs bs).

Definition specs_ok (specs : list string) : Prop := Forall (λ s, is_Some (splitHostSpec s)) specs.

Definition table_inv (ps : gmap string string) (order : list string) : Prop :=
  (∀ k, k ∈ order ↔ is_Some (ps !! k)) ∧ Forall wf_key order.

Lemma assoc_app key l1 l2 :
  assoc key (l1 ++ l2) = match assoc key l1 with Some v => Some v | None => assoc key l2 end.
Proof. induction l1 as [|[k v] l1 IH]; simpl; [done|]. by case_decide. Qed.

Lemma provider_hosts_spec provider specs ps order ps' order' :
  table_inv ps order → provider_hosts provider specs ps order = Ok (ps', order') →
  specs_ok specs ∧ table_inv ps' order' ∧
  ∀ k, ps' !! k = match ps !! k with Some v => Some v | None => assoc k (spec_pairs provider specs) end.
Proof.
  revert ps order. induction specs as [|spec specs IH]; intros ps order Hinv; simpl.
  { intros [= <- <-]. split_and!; [constructor|done..|]. intros k. by destruct (ps !! k). }
  destruct (splitHostSpec spec) as [[h p]|] eqn:Es; [|done]. simpl.
  destruct (ps !! endpointKey h p) as [v|] eqn:Ek; intros Hp.
  - apply IH in Hp as (Hok & Hinv' & Hl); [|done].
    split_and!; [constructor; [by eexists|done]|done|]. intros k. rewrite Hl.
    destruct (ps !! k) eqn:Ek'; [done|]. unfold spec_pairs. simpl. rewrite ?Es. simpl.
    rewrite decide_False; [done|]. congruence.
  - apply IH in Hp as (Hok & Hinv' & Hl).
    { split_and!; [constructor; [by eexists|done]|done|]. intros k. rewrite Hl.
      unfold spec_pairs. simpl. rewrite ?Es. simpl.
      destruct (decide (endpointKey h p = k)) as [<-|Hne].
      - by rewrite lookup_insert_eq, Ek.
      - by rewrite lookup_insert_ne. }
    destruct Hinv as [Hin Hwf]. split.
    + intros k. rewrite elem_of_app, list_elem_of_singleton, Hin.
      destruct (decide (k = endpointKey h p)) as [->|Hne].
      * rewrite lookup_insert_eq. split; [by eexists|by right].
      * rewrite lookup_insert_ne by done. split; [by intros [?|?]|by left].
    + apply Forall_app. split; [done|]. constructor; [by apply (splitHostSpec_wf spec)|done].
Qed.

Lemma provider_table_spec bs ps order ps' order' :
  table_inv ps order → provider_table bs ps order = Ok (ps', order') →
  Forall (λ b, specs_ok (b_Hosts b)) bs ∧ table_inv ps' order' ∧
  ∀ k, ps' !! k = match ps !! k with Some v => Some v | None => bound_to bs k end.
Proof.
  revert ps order. induction bs as [|b bs IH]; intros ps order Hinv; simpl.
  { intros [= <- <-]. split_and!; [constructor|done..|]. intros k. by destruct (ps !! k). }
  destruct (provider_hosts _ _ ps order) as [[ps1 order1]|] eqn:E1; [|done].
  apply provider_hosts_spec in E1 as (Hok1 & Hinv1 & Hl1); [|done]. intros E.
  apply IH in E as (Hok & Hinv' & Hl); [|done]. split_and!; [by constructor|done..|].
  intros k. rewrite Hl, Hl1. destruct (ps !! k); [done|]. unfold bound_to, binding_pairs.
  cbn [mbind list_bind]. by rewrite assoc_app.
Qed.

(** Well-formed patterns make a table. *)
Lemma provider_table_total bs ps order : Forall (λ b, specs_ok (b_Hosts b)) bs →
  ∃ ps' order', provider_table bs ps order = Ok (ps', order').
Proof.
  intros Hok. revert ps order. induction Hok as [|b bs Hb _ IH]; intros ps order; simpl; [by eauto|].
  assert (∃ ps1 order1, provider_hosts (b_Provider b) (b_Hosts b) ps order = Ok (ps1, order1))
    as (ps1 & order1 & ->); [|apply IH].
  revert ps order. induction Hb as [|spec specs [[h p] Hs] _ IHs]; intros ps order; simpl; [by eauto|].
  rewrite Hs. destruct (ps !! _); apply IHs.
Qed.

(** ** What stamping does to a rule *)

Definition carries (ep : NetworkEndpoint) : string := default ""%string (ne_CredentialBinding ep).

(** The endpoint before and after: unbound ones stay, bound ones carry their
    provider, already or by the stamp. *)
Definition stamped_as (ps : gmap string string) (ep ep' : NetworkEndpoint) : Prop :=
  match ps !! key_of ep with
  | None => ep' = ep
  | Some p => (carries ep ≠ ""%string ∧ carries ep = p ∧ ep' = ep) ∨
              (carries ep = ""%string ∧ ep' = stamp p ep)
  end.

Definition stamped_rule (ps : gmap string string) (r r' : NetworkPolicyRule) : Prop :=
  nr_Name r' = nr_Name r ∧ nr_Binaries r' = nr_Binaries r ∧
  Forall2 (stamped_as ps) (nr_Endpoints r) (nr_Endpoints r').

(** An endpoint that another provider already owns. *)
Definition conflicting (ps : gmap string string) (ep : NetworkEndpoint) : Prop :=
  carries ep ≠ ""%string ∧ ∃ p, ps !! key_of ep = Some p ∧ carries ep ≠ p.

Definition satisfied (ps : gmap string string) (ep : NetworkEndpoint) : Prop :=
  ∀ p, ps !! key_of ep = Some p → carries ep = p.

Lemma stamp_same p ep :
  key_of (stamp p ep) = key_of ep ∧ carries (stamp p ep) = p ∧ ne_rest (stamp p ep) = ne_rest ep ∧
  ne_Ports (stamp p ep) = ne_Ports ep ∧
  ne_Access (stamp p ep) = ne_Access ep ∧
  (ne_Rules ep ≠ [] → ne_Rules (stamp p ep) = ne_Rules ep).
Proof.
  unfold stamp, ensureL7, carries, key_of. simpl.
  destruct (negb (String.eqb (ne_Protocol ep) "") && _); [done|].
  destruct (ne_Access ep =? 0), (ne_Rules ep); simpl; done.
Qed.

Lemma stamped_as_key ps ep ep' : stamped_as ps ep ep' → key_of ep' = key_of ep.
Proof.
  unfold stamped_as. destruct (ps !! key_of ep) as [p|]; [|by intros ->].
  intros [(_ & _ & ->)|(_ & ->)]; [done|]. apply stamp_same.
Qed.

Lemma stamped_as_satisfied ps ep ep' : stamped_as ps ep ep' → satisfied ps ep'.
Proof.
  intros Hst p. rewrite (stamped_as_key _ _ _ Hst). revert Hst. unfold stamped_as.
  destruct (ps !! key_of ep) as [p'|]; [|done].
  intros [(_ & <- & ->)|(_ & ->)] [= <-]; [done|]. apply stamp_same.
Qed.

Lemma stamp_endpoints_spec ps eps changed eps' stamped :
  stamp_endpoints ps eps = Ok (changed, eps', stamped) →
  Forall2 (stamped_as ps) eps eps' ∧ (changed = false → eps' = eps) ∧
  (∀ k, k ∈ stamped ↔ is_Some (ps !! k) ∧ k ∈ key_of <$> eps).
Proof.
  revert changed eps' stamped. induction eps as [|ep eps IH]; intros changed eps' stamped; simpl.
  { intros [= <- <- <-]. split_and!; [constructor|done|set_solver]. }
  destruct (ps !! key_of ep) as [p|] eqn:Ep.
  - fold (carries ep). destruct (String.eqb_spec (carries ep) "") as [Ec|Ec]; simpl.
    + destruct (stamp_endpoints ps eps) as [[[c es] st]|]; [|done].
      destruct (IH _ _ _ eq_refl) as (H1 & H2 & H3). intros [= <- <- <-]. split_and!; [|done|].
      * constructor; [|done]. unfold stamped_as. rewrite Ep. by right.
      * intros k. rewrite elem_of_union, elem_of_singleton, H3, elem_of_cons. naive_solver.
    + destruct (String.eqb_spec (carries ep) p) as [E|E]; simpl; [|done].
      destruct (stamp_endpoints ps eps) as [[[c es] st]|]; [|done].
      destruct (IH _ _ _ eq_refl) as (H1 & H2 & H3). intros [= <- <- <-]. split_and!.
      * constructor; [|done]. unfold stamped_as. rewrite Ep. by left.
      * intros Hc. by rewrite H2.
      * intros k. rewrite elem_of_union, elem_of_singleton, H3, elem_of_cons. naive_solver.
  - destruct (stamp_endpoints ps eps) as [[[c es] st]|]; [|done].
    destruct (IH _ _ _ eq_refl) as (H1 & H2 & H3). intros [= <- <- <-]. split_and!.
    + constructor; [|done]. unfold stamped_as. by rewrite Ep.
    + intros Hc. by rewrite H2.
    + intros k. rewrite H3, elem_of_cons. split; [naive_solver|].
      intros [Hs [->|Hk]]; [|done]. rewrite Ep in Hs. by destruct Hs.
Qed.

(** Stamping one rule fails only for an endpoint that another provider owns. *)
Lemma stamp_endpoints_total ps eps :
  is_ok (stamp_endpoints ps eps) ↔ Forall (λ ep, ¬ conflicting ps ep) eps.
Proof.
  induction eps as [|ep eps IH]; simpl; [split; [by constructor|done]|].
  rewrite Forall_cons, <-IH. unfold conflicting. fold (carries ep).
  destruct (ps !! key_of ep) as [p|].
  - destruct (String.eqb_spec (carries ep) "") as [Ec|Ec]; simpl.
    + destruct (stamp_endpoints ps eps) as [[[c es] st]|]; simpl; naive_solver.
    + destruct (String.eqb_spec (carries ep) p); simpl; [|naive_solver].
      destruct (stamp_endpoints ps eps) as [[[c es] st]|]; simpl; naive_solver.
  - destruct (stamp_endpoints ps eps) as [[[c es] st]|]; simpl; naive_solver.
Qed.

(** Nothing is left to stamp where every bound endpoint carries its provider. *)
Lemma stamp_endpoints_done ps eps :
  (∀ k p, ps !! k = Some p → p ≠ ""%string) → Forall (satisfied ps) eps →
  ∃ stamped, stamp_endpoints ps eps = Ok (false, eps, stamped).
Proof.
  intros Hne. induction 1 as [|ep eps Hs _ [st IH]]; simpl; [by eexists|]. rewrite IH.
  destruct (ps !! key_of ep) as [p|] eqn:Ep; [|by eexists].
  pose proof (Hne _ _ Ep). specialize (Hs p Ep). fold (carries ep). rewrite Hs.
  rewrite (proj2 (String.eqb_neq _ _) H), String.eqb_refl. simpl. by eexists.
Qed.

(** ** What stamping does to a policy *)

(** The documented effect of the operations: a rule is written under its key. *)
Definition upsert (pol : NetworkPolicies) (ops : list AddRule) : NetworkPolicies :=
  foldl (λ m o, <[ar_RuleName o := ar_Rule o]> m) pol ops.

Lemma insert_sorted_perm x l : insert_sorted x l ≡ₚ x :: l.
Proof.
  induction l as [|y l IH]; simpl; [done|]. destruct (String.compare x y); [done..|].
  rewrite IH. constructor.
Qed.

Lemma sort_strings_perm l : sort_strings l ≡ₚ l.
Proof. induction l as [|x l IH]; simpl; [done|]. by rewrite insert_sorted_perm, IH. Qed.

Lemma rule_keys (pol : NetworkPolicies) :
  NoDup (sort_strings (elements (dom pol))) ∧
  ∀ k, k ∈ sort_strings (elements (dom pol)) ↔ is_Some (pol !! k).
Proof.
  split.
  - rewrite sort_strings_perm. apply NoDup_elements.
  - intros k. rewrite sort_strings_perm, elem_of_elements. apply elem_of_dom.
Qed.

Lemma stamp_rules_spec pol ps keys ops stamped m :
  NoDup keys → (∀ k, k ∈ keys → m !! k = pol !! k) → stamp_rules pol ps keys = Ok (ops, stamped) →
  (∀ k r, k ∈ keys → pol !! k = Some r → ∃ r', upsert m ops !! k = Some r' ∧ stamped_rule ps r r') ∧
  (∀ k, k ∉ keys → upsert m ops !! k = m !! k) ∧
  (∀ key, key ∈ stamped ↔
     is_Some (ps !! key) ∧ ∃ k r, k ∈ keys ∧ pol !! k = Some r ∧ key ∈ key_of <$> nr_Endpoints r).
Proof.
  intros Hnd. revert m ops stamped. induction Hnd as [|k keys Hk Hnd IH]; intros m ops stamped Hm; simpl.
  { intros [= <- <-]. split_and!; [set_solver..|]. set_solver. }
  destruct (pol !! k) as [r|] eqn:Er.
  2: { intros E. destruct (IH m ops stamped) as (H1 & H2 & H3); [set_solver|done|]. split_and!.
       - intros k' r' [->|Hk']%elem_of_cons Hr'; [congruence|by apply H1].
       - intros k' Hn. apply H2. set_solver.
       - intros key. rewrite H3. split; [set_solver|].
         intros [? (k' & r' & [->|Hk']%elem_of_cons & ? & ?)]; [congruence|]. eauto 10. }
  destruct (stamp_endpoints ps (nr_Endpoints r)) as [[[c eps] st]|] eqn:Es; [|done].
  apply stamp_endpoints_spec in Es as (He & Hc & Hst).
  destruct (stamp_rules pol ps keys) as [[ops2 st2]|] eqn:E2; [|done].
  set (r2 := mkRule (nr_Name r) eps (nr_Binaries r)). intros [= <- <-].
  set (m1 := if c then <[k := r2]> m else m).
  assert (Hup : upsert m ((if c then [mkAddRule k r2] else []) ++ ops2) = upsert m1 ops2).
  { unfold upsert, m1. rewrite foldl_app. by destruct c. }
  assert (Hm1k : ∃ r', m1 !! k = Some r' ∧ stamped_rule ps r r').
  { unfold m1. destruct c.
    - exists r2. by rewrite lookup_insert_eq.
    - exists r. rewrite Hm by set_solver. split; [done|]. rewrite Hc in He by done. by split_and!. }
  assert (Hm1 : ∀ k', k' ≠ k → m1 !! k' = m !! k').
  { intros k' Hne. unfold m1. destruct c; [by rewrite lookup_insert_ne|done]. }
  destruct (IH m1 ops2 st2) as (H1 & H2 & H3); [|done|].
  { intros k' Hk'. rewrite Hm1 by (by intros ->). apply Hm. set_solver. }
  rewrite Hup. split_and!.
  - intros k' r' [->|Hk']%elem_of_cons Hr'; [|by apply H1].
    rewrite H2 by done. assert (r' = r) as -> by congruence. done.
  - intros k' [Hne Hn]%not_elem_of_cons. by rewrite H2, Hm1.
  - intros key. rewrite elem_of_union, Hst, H3. split.
    + intros [[? ?]|[? (k' & r' & ? & ? & ?)]]; split; eauto 10 using list_elem_of_here, list_elem_of_further.
    + intros [Hs (k' & r' & [->|Hk']%elem_of_cons & Hr' & Hin)]; [left|right; eauto 10].
      split; [done|]. by assert (r' = r) as -> by congruence.
Qed.

(** ** The additive rule *)

Lemma spec_pairs_cons provider spec specs :
  spec_pairs provider (spec :: specs) =
    match splitHostSpec spec with
    | Some (h, p) => (endpointKey h p, provider) :: spec_pairs provider specs
    | None => spec_pairs provider specs
    end.
Proof. unfold spec_pairs. simpl. by destruct (splitHostSpec spec) as [[h p]|]. Qed.

Lemma assoc_spec_pairs provider specs key :
  assoc key (spec_pairs provider specs) =
    if decide (key ∈ (spec_pairs provider specs).*1) then Some provider else None.
Proof.
  induction specs as [|spec specs IH]; [done|]. rewrite spec_pairs_cons.
  destruct (splitHostSpec spec) as [[h p]|]; [|exact IH]. simpl.
  destruct (decide (endpointKey h p = key)) as [->|Hne].
  - by rewrite decide_True by left.
  - rewrite IH. apply decide_ext. rewrite elem_of_cons. naive_solver.
Qed.

Lemma merge_hosts_spec provider specs seen eps : specs_ok specs →
  ∃ seen' new, merge_hosts provider specs seen eps = Ok (seen', eps ++ new) ∧
    (∀ key, key ∈ seen' ↔ key ∈ seen ∨ key ∈ (spec_pairs provider specs).*1) ∧
    (∀ ep, ep ∈ new → key_of ep ∉ seen ∧ key_of ep ∈ (spec_pairs provider specs).*1 ∧ carries ep = provider) ∧
    (∀ key, key ∈ (spec_pairs provider specs).*1 → key ∈ seen ∨ key ∈ key_of <$> new).
Proof.
  intros Hok. revert seen eps. induction Hok as [|spec specs [[h p] Hs] _ IH]; intros seen eps.
  { exists seen, []. rewrite app_nil_r. unfold spec_pairs. split_and!; [done|set_solver..]. }
  cbn [merge_hosts]. rewrite Hs. cbv zeta.
  assert (Hsp : (spec_pairs provider (spec :: specs)).*1 = endpointKey h p :: (spec_pairs provider specs).*1).
  { by rewrite spec_pairs_cons, Hs. }
  rewrite Hsp. destruct (decide (endpointKey h p ∈ seen)) as [Hin|Hin].
  - destruct (IH seen eps) as (seen' & new & -> & H1 & H2 & H3). exists seen', new.
    split_and!; [done|set_solver..].
  - destruct (IH ({[endpointKey h p]} ∪ seen) (eps ++ [bound_endpoint h p provider]))
      as (seen' & new & -> & H1 & H2 & H3).
    exists seen', (bound_endpoint h p provider :: new). rewrite <-app_assoc. split_and!; [done|set_solver| |].
    + intros ep [->|Hep]%elem_of_cons; [split_and!; [done|by left|done]|]. set_solver.
    + intros key [->|Hk]%elem_of_cons; [right; by left|]. apply H3 in Hk. set_solver.
Qed.

(** The merge keeps what was there and appends, for each key not yet declared, one
    endpoint with the first binding's provider. *)
Lemma merge_bindings_spec bs seen eps : Forall (λ b, specs_ok (b_Hosts b)) bs →
  ∃ new, merge_bindings bs seen eps = Ok (eps ++ new) ∧
    (∀ ep, ep ∈ new → key_of ep ∉ seen ∧ bound_to bs (key_of ep) = Some (carries ep)) ∧
    (∀ key, is_Some (bound_to bs key) → key ∈ seen ∨ key ∈ key_of <$> new).
Proof.
  intros Hok. revert seen eps. induction Hok as [|b bs Hb _ IH]; intros seen eps.
  { exists []. rewrite app_nil_r. split_and!; [done|set_solver|]. intros key [? ?]. done. }
  cbn [merge_bindings].
  destruct (merge_hosts_spec (b_Provider b) _ seen eps Hb) as (seen1 & new1 & -> & H1 & H2 & H3).
  destruct (IH seen1 (eps ++ new1)) as (new2 & -> & H4 & H5).
  exists (new1 ++ new2). rewrite app_assoc.
  assert (Hbt : ∀ key, bound_to (b :: bs) key =
    if decide (key ∈ (spec_pairs (b_Provider b) (b_Hosts b)).*1) then Some (b_Provider b) else bound_to bs key).
  { intros key. unfold bound_to, binding_pairs. cbn [mbind list_bind].
    rewrite assoc_app, assoc_spec_pairs. by case_decide. }
  split_and!; [done| |].
  - intros ep [Hep|Hep]%elem_of_app; rewrite Hbt.
    + destruct (H2 ep Hep) as (? & ? & ->). by rewrite decide_True.
    + destruct (H4 ep Hep) as [Hn Hb2]. rewrite H1 in Hn. rewrite decide_False by tauto. tauto.
  - intros key. rewrite Hbt, fmap_app, elem_of_app. case_decide as Hd.
    + intros _. destruct (H3 key Hd); tauto.
    + intros Hs. destruct (H5 key Hs) as [Hk|Hk]; [|tauto]. apply H1 in Hk. tauto.
Qed.

Lemma missing_pairs ps stamped order : Forall wf_key order →
  Forall (λ b, specs_ok (b_Hosts b)) (missing_bindings ps stamped order) ∧
  ∀ key, bound_to (missing_bindings ps stamped order) key =
    if decide (key ∈ order ∧ key ∉ stamped) then Some (default ""%string (ps !! key)) else None.
Proof.
  unfold missing_bindings. induction 1 as [|k order (h & p & Hm & Hp & ->) _ [IH1 IH2]].
  { split; [constructor|]. intros key. rewrite decide_False by set_solver. done. }
  simpl. case_decide as Hst.
  - split; [done|]. intros key. rewrite IH2. apply decide_ext. set_solver.
  - rewrite (key_cut _ _ Hm).
    change (ToLower h +:+ ":" +:+ FormatUint p) with (endpointKey h p).
    pose proof (splitHostSpec_key h p Hm Hp) as Hs. split.
    + constructor; [|done]. constructor; [by eexists|constructor].
    + intros key. unfold bound_to, binding_pairs. cbn [mbind list_bind].
      cbn [b_Provider b_Hosts]. rewrite spec_pairs_cons, Hs. simpl. rewrite endpointKey_lower.
      destruct (decide (endpointKey h p = key)) as [<-|Hne].
      * rewrite decide_True; [done|]. split; [by left|done].
      * unfold bound_to, binding_pairs in IH2. rewrite IH2. apply decide_ext. set_solver.
Qed.

(** ** Bindings in a sandbox's policy *)

Definition table (bs : list Binding) : gmap string string :=
  match provider_table bs ∅ [] with Ok (ps, _) => ps | Err _ => ∅ end.

Lemma table_empty : table_inv ∅ [].
Proof. split; [|constructor]. intros k. rewrite lookup_empty. split; [by intros ?%elem_of_nil|by intros [? ?]]. Qed.

(** The stamped rules, then, for the keys no rule declares, one rule of their own. *)
Lemma ops_split pol bs ops : bs ≠ [] → CredentialPolicyOps (Some pol) bs = Ok ops →
  ∃ order ops1 stamped ops2, provider_table bs ∅ [] = Ok (table bs, order) ∧
    stamp_rules pol (table bs) (sort_strings (elements (dom pol))) = Ok (ops1, stamped) ∧
    ops = ops1 ++ ops2 ∧
    ((ops2 = [] ∧ ∀ key, key ∈ order → key ∈ stamped) ∨
     ∃ rule, ops2 = [mkAddRule CredentialBindingRuleName rule] ∧
       (∀ ep, ep ∈ nr_Endpoints rule → table bs !! key_of ep = Some (carries ep)) ∧
       ∀ key, key ∈ order → key ∈ stamped ∨ key ∈ key_of <$> nr_Endpoints rule).
Proof.
  intros Hbs. unfold CredentialPolicyOps, table. destruct bs as [|b bs]; [done|].
  set (bs' := b :: bs). clearbody bs'. clear b bs Hbs.
  destruct (provider_table bs' ∅ []) as [[ps order]|] eqn:Et; [|done].
  pose proof (provider_table_spec _ _ _ _ _ table_empty Et) as (_ & [Hin Hwf] & _).
  destruct (stamp_rules pol ps _) as [[ops1 stamped]|] eqn:Es; [|done].
  destruct (missing_pairs ps stamped order Hwf) as [Hok Hbt]. intros E. exists order, ops1, stamped.
  assert (Hmiss : ∀ key, key ∈ order → key ∉ stamped →
    is_Some (bound_to (missing_bindings ps stamped order) key)).
  { intros key Hk Hns. rewrite Hbt, decide_True by done. by eexists. }
  destruct (missing_bindings ps stamped order) as [|b missing] eqn:Em.
  - injection E as <-. exists []. rewrite app_nil_r. split_and!; [done..|left]. split; [done|].
    intros key Hk. destruct (decide (key ∈ stamped)) as [|Hns]; [done|].
    destruct (Hmiss key Hk Hns) as [? ?]. done.
  - rewrite <-Em in *. unfold MergePolicy in E. rewrite Em in E. rewrite <-Em in E. cbn [nr_Endpoints] in E.
    destruct (merge_bindings_spec _ (list_to_set (key_of <$> [])) [] Hok) as (new & Hmg & H1 & H2).
    rewrite Hmg in E. injection E as <-. eexists [_]. split_and!; [done..|right].
    eexists. split; [reflexivity|]. cbn [nr_Endpoints app]. split.
    + intros ep Hep. destruct (H1 ep Hep) as [_ Hb]. rewrite Hbt in Hb. case_decide as Hd; [|done].
      apply proj1, Hin in Hd as [p Hp]. rewrite Hp in Hb |- *. simpl in Hb. done.
    + intros key Hk. destruct (decide (key ∈ stamped)) as [|Hns]; [by left|right].
      destruct (H2 key (Hmiss key Hk Hns)); [set_solver|done].
Qed.

Lemma table_bound bs order : provider_table bs ∅ [] = Ok (table bs, order) →
  (∀ key, table bs !! key = bound_to bs key) ∧ ∀ key, key ∈ order ↔ is_Some (bound_to bs key).
Proof.
  intros Et. pose proof (provider_table_spec _ _ _ _ _ table_empty Et) as (_ & [Hin _] & Hl).
  assert (Hb : ∀ key, table bs !! key = bound_to bs key) by (intros key; by rewrite Hl, lookup_empty).
  split; [done|]. intros key. by rewrite Hin, Hb.
Qed.

(** The policy after the operations: every old rule stamped, at most one new one,
    and every bound key declared. *)
Lemma ops_effect pol bs ops :
  bs ≠ [] → CredentialPolicyOps (Some pol) bs = Ok ops → pol !! CredentialBindingRuleName = None →
  let pol' := upsert pol ops in
  (∀ k r, pol !! k = Some r → ∃ r', pol' !! k = Some r' ∧ stamped_rule (table bs) r r') ∧
  (∀ k r', pol' !! k = Some r' → Forall (satisfied (table bs)) (nr_Endpoints r')) ∧
  (∀ key, is_Some (bound_to bs key) → ∃ k r', pol' !! k = Some r' ∧ key ∈ key_of <$> nr_Endpoints r').
Proof.
  intros Hbs E Hfresh pol'. destruct (ops_split _ _ _ Hbs E) as (order & ops1 & st & ops2 & Et & Es & -> & H2).
  destruct (table_bound _ _ Et) as [Hb Hord]. destruct (rule_keys pol) as [Hnd Hkeys].
  destruct (stamp_rules_spec _ _ _ _ _ pol Hnd (λ _ _, eq_refl) Es) as (Hr & Hother & Hst).
  assert (Hold : ∀ k r, pol !! k = Some r → ∃ r', upsert pol ops1 !! k = Some r' ∧ stamped_rule (table bs) r r').
  { intros k r Hk. apply Hr; [|done]. apply Hkeys. by eexists. }
  assert (Hpol' : ∀ k, k ≠ CredentialBindingRuleName → pol' !! k = upsert pol ops1 !! k).
  { intros k Hne. unfold pol', upsert. rewrite foldl_app.
    destruct H2 as [[-> _]|(rule & -> & _)]; [done|]. simpl. by rewrite lookup_insert_ne. }
  assert (Hnew : ∀ k, pol !! k = None → upsert pol ops1 !! k = None).
  { intros k Hk. rewrite Hother; [done|]. rewrite Hkeys, Hk. by intros [? ?]. }
  assert (H1 : ∀ k r, pol !! k = Some r → ∃ r', pol' !! k = Some r' ∧ stamped_rule (table bs) r r').
  { intros k r Hk. rewrite Hpol' by congruence. by apply Hold. }
  split; [exact H1|]. split.
  - intros k r' Hk. destruct (pol !! k) as [r|] eqn:Epk.
    + destruct (H1 k r Epk) as (r2 & Hk2 & _ & _ & Hf). assert (r2 = r') as -> by congruence.
      clear -Hf. induction Hf; constructor; [by eapply stamped_as_satisfied|done].
    + destruct (decide (k = CredentialBindingRuleName)) as [->|Hne].
      2: { rewrite Hpol', Hnew in Hk by done. done. }
      unfold pol', upsert in Hk. rewrite foldl_app in Hk. fold (upsert pol ops1) in Hk.
      destruct H2 as [[-> _]|(rule & -> & Hep & _)]; simpl in Hk; [by rewrite Hnew in Hk|].
      rewrite lookup_insert_eq in Hk. injection Hk as <-. apply Forall_forall. intros ep Hin p Hp.
      rewrite (Hep ep Hin) in Hp. congruence.
  - intros key Hkey. destruct (decide (key ∈ st)) as [Hks|Hns].
    + apply Hst in Hks as [_ (k & r & _ & Hk & Hin)].
      destruct (H1 k r Hk) as (r' & Hk' & _ & _ & Hf). exists k, r'. split; [done|].
      clear -Hf Hin. induction Hf as [|ep ep' ? ? Hs _ IH]; [done|]. rewrite fmap_cons, elem_of_cons in *.
      rewrite (stamped_as_key _ _ _ Hs). destruct Hin; auto.
    + apply Hord in Hkey. destruct H2 as [[_ Hall]|(rule & -> & _ & Hall)]; [by apply Hall in Hkey|].
      destruct (Hall key Hkey) as [|Hin]; [done|]. exists CredentialBindingRuleName, rule.
      split; [|done]. unfold pol', upsert. rewrite foldl_app. simpl. by rewrite lookup_insert_eq.
Qed.

(** ** The bindings' promises *)

Section gateway.
(** The gateway's merge, of which the code relies on the upsert by policy key. *)
  Context (apply : NetworkPolicies → list AddRule → NetworkPolicies).
  Context (apply_upserts : ∀ pol ops, apply pol ops = upsert pol ops).

(** C30. Bindings reach every declaration by a single port, and nothing else.  After the
    operations are applied to a policy without a binding rule of its own, every
    endpoint of every rule whose host and [ne_Port] are bound carries the provider of
    the first binding for them, so no two such declarations disagree; every bound host
    and port is declared that way; and each rule that was there keeps its name, its
    binaries, its unbound endpoints and its restrictions.  Endpoints that list their
    ports in [ne_Ports] are not reached: see [listed_ports_are_not_bound]. *)
Theorem bindings_reach_all pol bs ops :
  bs ≠ [] → CredentialPolicyOps (Some pol) bs = Ok ops → pol !! CredentialBindingRuleName = None →
  let pol' := apply pol ops in
  (∀ k r ep p, pol' !! k = Some r → ep ∈ nr_Endpoints r → bound_to bs (key_of ep) = Some p → carries ep = p) ∧
  (∀ key, is_Some (bound_to bs key) → ∃ k r ep, pol' !! k = Some r ∧ ep ∈ nr_Endpoints r ∧ key_of ep = key) ∧
  (∀ k r, pol !! k = Some r → ∃ r', pol' !! k = Some r' ∧ stamped_rule (table bs) r r').
Proof.
  intros Hbs E Hfresh pol'. unfold pol'. rewrite apply_upserts.
  destruct (ops_split _ _ _ Hbs E) as (order & _ & _ & _ & Et & _).
  destruct (table_bound _ _ Et) as [Hb _]. destruct (ops_effect _ _ _ Hbs E Hfresh) as (H1 & H2 & H3).
  split; [|split; [|exact H1]].
  - intros k r ep p Hk Hep Hp. rewrite <-Hb in Hp.
    by apply (proj1 (Forall_forall _ _) (H2 k r Hk) ep Hep).
  - intros key Hkey. destruct (H3 key Hkey) as (k & r & Hk & (ep & -> & Hep)%list_elem_of_fmap). eauto 10.
Qed.

(** Nothing is left to do for rules that are in order. *)
Lemma stamp_rules_done pol ps keys :
  (∀ k p, ps !! k = Some p → p ≠ ""%string) →
  (∀ k r, pol !! k = Some r → Forall (satisfied ps) (nr_Endpoints r)) →
  ∃ stamped, stamp_rules pol ps keys = Ok ([], stamped).
Proof.
  intros Hne Hs. induction keys as [|k keys [st IH]]; simpl; [by eexists|].
  destruct (pol !! k) as [r|] eqn:Er; [|by eexists]. rewrite IH.
  destruct (stamp_endpoints_done ps (nr_Endpoints r) Hne (Hs k r Er)) as [st' ->]. by eexists.
Qed.

Lemma missing_none ps stamped order : (∀ key, key ∈ order → key ∈ stamped) →
  missing_bindings ps stamped order = [].
Proof.
  unfold missing_bindings. induction order as [|k order IH]; intros Hall; [done|]. simpl.
  rewrite decide_True by (apply Hall; by left). apply IH. intros key Hk. apply Hall. by right.
Qed.

(** Stamping settles.  On the policy that results, with providers that have a name,
    the bindings ask for nothing more. *)
Theorem stamping_idempotent pol bs ops :
  bs ≠ [] → (∀ key p, bound_to bs key = Some p → p ≠ ""%string) →
  CredentialPolicyOps (Some pol) bs = Ok ops → pol !! CredentialBindingRuleName = None →
  CredentialPolicyOps (Some (apply pol ops)) bs = Ok [].
Proof.
  intros Hbs Hne E Hfresh. rewrite apply_upserts.
  destruct (ops_split _ _ _ Hbs E) as (order & _ & _ & _ & Et & _).
  destruct (table_bound _ _ Et) as [Hb Hord]. destruct (ops_effect _ _ _ Hbs E Hfresh) as (_ & H2 & H3).
  set (pol' := upsert pol ops) in *. destruct (rule_keys pol') as [Hnd Hkeys].
  assert (Hne' : ∀ k p, table bs !! k = Some p → p ≠ ""%string) by (intros k p; rewrite Hb; apply Hne).
  destruct (stamp_rules_done pol' (table bs) (sort_strings (elements (dom pol'))) Hne' H2) as [st Es].
  destruct (stamp_rules_spec _ _ _ _ _ pol' Hnd (λ _ _, eq_refl) Es) as (_ & _ & Hst).
  unfold CredentialPolicyOps. rewrite Et, Es, missing_none; [by destruct bs|].
  intros key Hk. apply Hst. apply Hord in Hk. rewrite Hb. split; [done|].
  destruct (H3 key Hk) as (k & r & Hr & Hin). exists k, r. split_and!; [|done..].
  apply Hkeys. by eexists.
Qed.

End gateway.

(** ** When stamping is refused *)

Lemma stamp_rules_ok pol ps keys :
  is_ok (stamp_rules pol ps keys) ↔
    ∀ k r, k ∈ keys → pol !! k = Some r → Forall (λ ep, ¬ conflicting ps ep) (nr_Endpoints r).
Proof.
  induction keys as [|k keys IH]; simpl; [split; [by intros _ k r ?%elem_of_nil|done]|].
  destruct (pol !! k) as [r|] eqn:Er.
  - pose proof (stamp_endpoints_total ps (nr_Endpoints r)) as Hr.
    destruct (stamp_endpoints ps (nr_Endpoints r)) as [[[c es] st]|]; simpl in *.
    + destruct (stamp_rules pol ps keys) as [[ops st']|]; simpl in *.
      * split; [|done]. intros _ k' r' [->|Hk]%elem_of_cons Hr'; [|by apply IH with k'].
        assert (r' = r) as -> by congruence. by apply Hr.
      * split; [done|]. intros Hall. apply IH. intros k' r' Hk'. apply Hall. by right.
    + split; [done|]. intros Hall. apply Hr, (Hall k r); [by left|done].
  - rewrite IH. split; intros Hall k' r' Hk'; [|by apply Hall; right].
    apply elem_of_cons in Hk' as [->|Hk']; [congruence|by apply Hall].
Qed.

Lemma CredentialPolicyOps_ok pol bs order :
  bs ≠ [] → provider_table bs ∅ [] = Ok (table bs, order) →
  is_ok (CredentialPolicyOps (Some pol) bs) =
    is_ok (stamp_rules pol (table bs) (sort_strings (elements (dom pol)))).
Proof.
  intros Hbs Et. unfold CredentialPolicyOps. rewrite Et. destruct bs as [|b bs]; [done|].
  destruct (stamp_rules _ _ _) as [[ops st]|]; [|done].
  pose proof (provider_table_spec _ _ _ _ _ table_empty Et) as (_ & [_ Hwf] & _).
  destruct (missing_pairs (table (b :: bs)) st order Hwf) as [Hok _].
  destruct (missing_bindings _ st order) as [|m ms]; [done|]. unfold MergePolicy. cbn [nr_Endpoints].
  destruct (merge_bindings_spec (m :: ms) (list_to_set (key_of <$> [])) [] Hok) as (new & -> & _). done.
Qed.

Lemma check_hosts_ok specs : check_hosts specs = None ↔ specs_ok specs.
Proof.
  unfold specs_ok. induction specs as [|spec specs IH]; simpl; [split; [constructor|done]|].
  rewrite Forall_cons, <-IH. destruct (splitHostSpec spec); [|split; [done|by intros [[? ?] _]]].
  split; [by eauto|tauto].
Qed.

Lemma provider_named p : MatchString providerRe p = true → p ≠ ""%string.
Proof. by intros Hm ->. Qed.

(** What a table that was read promises. *)
Lemma ParseBindings_ok raw bs : ParseBindings raw = Ok bs →
  Forall (λ b, specs_ok (b_Hosts b) ∧ b_Hosts b ≠ [] ∧ b_Provider b ≠ ""%string) bs.
Proof.
  destruct raw as [|j trailing|]; simpl; [intros [= <-]; constructor| |done].
  destruct (decode_bindings j) as [bs'|]; [|done]. destruct trailing; [done|].
  destruct (check_bindings 0 bs') eqn:E; [done|]. intros [= <-]. revert E. generalize 0%nat.
  induction bs' as [|b bs' IH]; intros i; cbn [check_bindings]; [constructor|].
  destruct (MatchString providerRe (b_Provider b)) eqn:Ep; [|done]. cbn [negb].
  destruct (b_Hosts b) as [|spec specs] eqn:Eh; [done|].
  destruct (check_hosts (spec :: specs)) eqn:Ec; [done|]. intros E.
  constructor; [|by eapply IH]. rewrite Eh. split_and!; [by apply check_hosts_ok|done|by apply provider_named].
Qed.

Lemma bound_provider bs key p : bound_to bs key = Some p → ∃ b, b ∈ bs ∧ b_Provider b = p.
Proof.
  unfold bound_to, binding_pairs. induction bs as [|b bs IH]; [done|]. cbn [mbind list_bind].
  rewrite assoc_app, assoc_spec_pairs. case_decide.
  - intros [= <-]. exists b. split; [by left|done].
  - intros (b' & Hb & Hp)%IH. exists b'. split; [by right|done].
Qed.

(** Stamping fails closed, and only then.  For a table that was read from the
    environment, the operations exist exactly when no endpoint of the policy that
    declares a bound host already belongs to another provider; and the providers
    they bind all have names. *)
Theorem stamping_refuses_conflicts raw bs pol :
  ParseBindings raw = Ok bs → bs ≠ [] →
  (is_ok (CredentialPolicyOps (Some pol) bs) ↔
     ∀ k r ep p, pol !! k = Some r → ep ∈ nr_Endpoints r → bound_to bs (key_of ep) = Some p →
       carries ep = ""%string ∨ carries ep = p) ∧
  ∀ key p, bound_to bs key = Some p → p ≠ ""%string.
Proof.
  intros Hparse Hbs. apply ParseBindings_ok in Hparse.
  assert (Hok : Forall (λ b, specs_ok (b_Hosts b)) bs) by (eapply Forall_impl; [exact Hparse|naive_solver]).
  destruct (provider_table_total bs ∅ [] Hok) as (ps & order & Et).
  assert (Hps : table bs = ps) by (unfold table; by rewrite Et). rewrite <-Hps in Et.
  destruct (table_bound _ _ Et) as [Hb _]. split.
  - rewrite (CredentialPolicyOps_ok pol bs order Hbs Et), stamp_rules_ok.
    destruct (rule_keys pol) as [_ Hkeys]. split.
    + intros Hall k r ep p Hk Hep Hp.
      specialize (proj1 (Forall_forall _ _) (Hall k r (proj2 (Hkeys k) ltac:(by eexists)) Hk) ep Hep) as Hnc.
      destruct (decide (carries ep = ""%string)); [by left|right].
      destruct (decide (carries ep = p)); [done|]. destruct Hnc. split; [done|].
      exists p. by rewrite Hb.
    + intros Hall k r _ Hk. apply Forall_forall. intros ep Hep [Hc (p & Hp & Hne)]. rewrite Hb in Hp.
      destruct (Hall k r ep p Hk Hep Hp); done.
  - intros key p (b & Hin & <-)%bound_provider.
    by apply (proj1 (Forall_forall _ _) Hparse b Hin).
Qed.

(** ** The guarded write *)

Lemma merge_attempts_ok left attempt ans cancelled c cs :
  merge_attempts left attempt ans cancelled c = (None, cs) →
  ∃ i, ans i c = UOk ∧ last cs = Some c ∧ Forall (λ c', c' = c) cs.
Proof.
  revert attempt cs. induction left as [|left IH]; intros attempt cs; simpl; [done|].
  destruct (_ && cancelled attempt); [done|]. destruct (ans attempt c) eqn:Ea; [|..|done].
  - intros [= <-]. exists attempt. split_and!; [done..|by repeat constructor].
  - destruct (attempt <? _)%nat; [|done].
    destruct (merge_attempts left (S attempt) ans cancelled c) as [e cs'] eqn:E.
    intros [= -> <-]. destruct (IH _ _ E) as (i & Hi & Hl & Hf). exists i. split_and!; [done| |by constructor].
    destruct cs'; [done|exact Hl].
Qed.

Lemma submit_ok env ops v cs cs' : submit env ops v cs = (None, cs') →
  cs ⊆ cs' ∧ (ops ≠ [] → mkUpdate ops v ∈ cs' ∧ ∃ i, ap_ans2 env i (mkUpdate ops v) = UOk).
Proof.
  unfold submit. destruct ops as [|o ops]; [by intros [= <-]|].
  destruct (mergeOrRetry _ _ _ _) as [e cs2] eqn:Em. intros [= -> <-].
  apply merge_attempts_ok in Em as (i & Hi & Hl & _). split; [set_solver|]. intros _.
  split; [|by exists i]. apply elem_of_app. right. by apply last_Some_elem_of.
Qed.

(** The policy that is stamped was read at its version, and what is no longer to be
    sent was accepted on the way. *)
Lemma read_policy_ok env mg pol v rest cs : read_policy env [mg] = (Ok (pol, v, rest), cs) →
  (ap_read1 env = Some (pol, v) ∨ ap_read2 env = Some (pol, v)) ∧ pol ≠ ∅ ∧
  (rest = [mg] ∨ ∃ c i, c ∈ cs ∧ ap_ans1 env i c = UOk ∧ mg ∈ uc_ops c).
Proof.
  unfold read_policy. destruct (ap_read1 env) as [[pol1 v1]|]; [|done].
  case_decide as Hd; [|intros [= <- <- <- <-]; eauto].
  destruct (mergeOrRetry _ _ _ _) as [[e|] cs1] eqn:Em; [done|].
  destruct (ap_read2 env) as [[pol2 v2]|]; [|done]. case_decide; [done|].
  intros [= <- <- <- <-]. apply merge_attempts_ok in Em as (i & Hi & Hl & _).
  split_and!; [by right|done|right]. eexists _, i. split_and!; [by apply last_Some_elem_of|done|by left].
Qed.

(** Success means applied.  When the policy step of a create succeeds, the rule for
    the model gateway was in an update the gateway accepted; and with bindings, the
    operations for the policy as it was read were accepted too, in an update pinned
    to the version of that read, unless there were none. *)
Theorem apply_success_applied rule bs env calls :
  ApplyModelGatewayPolicy (Some rule) bs env = (None, calls) →
  let accepted c := c ∈ calls ∧ ∃ i, ap_ans1 env i c = UOk ∨ ap_ans2 env i c = UOk in
  (∃ c, accepted c ∧ mkAddRule (nr_Name rule) rule ∈ uc_ops c) ∧
  (bs ≠ [] → ∃ pol v ops, (ap_read1 env = Some (pol, v) ∨ ap_read2 env = Some (pol, v)) ∧ pol ≠ ∅ ∧
     CredentialPolicyOps (Some pol) bs = Ok ops ∧
     (ops ≠ [] → ∃ c, accepted c ∧ uc_expected c = v ∧ ops ⊆ uc_ops c)).
Proof.
  intros E accepted. unfold ApplyModelGatewayPolicy in E. set (mg := mkAddRule (nr_Name rule) rule) in *.
  destruct (validateBindings bs); [done|]. destruct bs as [|b bs].
  { destruct (submit_ok _ _ _ _ _ E) as [_ [Hin [i Hi]]]; [done|]. split; [|done].
    exists (mkUpdate [mg] 0). split; [split; [done|exists i; by right]|by left]. }
  destruct (read_policy env [mg]) as [[[[pol v] rest]|] cs] eqn:Er; [|done].
  destruct (CredentialPolicyOps (Some pol) (b :: bs)) as [ops|] eqn:Eo; [|done].
  destruct (submit_ok _ _ _ _ _ E) as [Hcs H2].
  destruct (read_policy_ok _ _ _ _ _ _ Er) as (Hread & Hne & Hmg). split.
  - destruct Hmg as [->|(c & i & Hc & Hi & Hin)].
    + destruct H2 as [Hin [i Hi]]; [done|]. eexists. split; [split; [exact Hin|exists i; by right]|by left].
    + exists c. split; [split; [by apply Hcs|exists i; by left]|done].
  - intros _. exists pol, v, ops. split_and!; [done..|]. intros Hops.
    destruct H2 as [Hin [i Hi]]; [by destruct rest, ops|].
    eexists. split; [split; [exact Hin|exists i; by right]|]. split; [done|]. simpl. set_solver.
Qed.

(** Retrying a pinned write cannot help.  Against a gateway that aborts a write
    pinned to another version than its own, and whose versions only grow, a write
    pinned to a version that has already moved on is sent four times and fails: the
    retries pin the same version again instead of reading the new one. *)
Theorem stale_retry_fails ans (version : nat → N) ops expected :
  (∀ i c, uc_expected c ≠ 0%N → uc_expected c ≠ version i → ans i c = UAborted) →
  (∀ i, version i ≤ version (S i))%N → (0 < expected < version 0%nat)%N →
  mergeOrRetry ans (λ _, false) ops expected = (Some EUpdate, replicate 4 (mkUpdate ops expected)).
Proof.
  intros Hans Hmono Hexp.
  assert (Hv : ∀ i, (version 0%nat ≤ version i)%N).
  { induction i as [|i IH]; [lia|]. specialize (Hmono i). lia. }
  assert (Ha : ∀ i, ans i (mkUpdate ops expected) = UAborted).
  { intros i. specialize (Hv i). apply Hans; simpl; lia. }
  unfold mergeOrRetry, policyMergeAttempts. cbn [merge_attempts]. by rewrite !Ha.
Qed.

(** ** A concrete policy *)

Definition ex_ep (host : string) (rules : list L7Allow) (b : option string) : NetworkEndpoint :=
  mkEndpoint host 443 [] "" 0 rules b JNull.

(** A sandbox image that already allows one of the two bound hosts. *)
Definition ex_pol : NetworkPolicies :=
  {["pi"%string := mkRule "pi" [ex_ep "GitHub.com" [] None; ex_ep "npmjs.org" [] None] ["/usr/bin/pi"%string]]}.

Definition ex_text : bindings_text :=
  BTJson (JArr [JObj [("provider", JStr "gh"); ("hosts", JArr [JStr "github.com:443"; JStr "api.github.com:443"])]])%string
    false.

Definition ex_bindings : list Binding := [mkBinding "gh" ["github.com:443"; "api.github.com:443"]]%string.

Definition ex_ops : list AddRule :=
  match CredentialPolicyOps (Some ex_pol) ex_bindings with Ok ops => ops | Err _ => [] end.

Lemma ex_ops_ok : CredentialPolicyOps (Some ex_pol) ex_bindings = Ok ex_ops.
Proof. vm_compute. reflexivity. Qed.

Lemma ex_parse : ParseBindings ex_text = Ok ex_bindings.
Proof. vm_compute. reflexivity. Qed.

Lemma bindings_reach_all_witness :
  ∃ k r ep, upsert ex_pol ex_ops !! k = Some r ∧ ep ∈ nr_Endpoints r ∧
    key_of ep = "api.github.com:443"%string.
Proof.
  apply (bindings_reach_all upsert (λ _ _, eq_refl) ex_pol ex_bindings ex_ops);
    [discriminate|exact ex_ops_ok|vm_compute; reflexivity|].
  exists "gh"%string. vm_compute. reflexivity.
Defined.

(** A declaration that lists its ports is not reached, although the list takes precedence:
    the bound host is declared a second time, and the first declaration stays without
    the provider. *)
Theorem listed_ports_are_not_bound :
  let ep := mkEndpoint "github.com" 0 [443] "" 0 [] None JNull in
  let pol : NetworkPolicies := {["pi"%string := mkRule "pi" [ep] ["/usr/bin/pi"%string]]} in
  let bs := [mkBinding "gh" ["github.com:443"%string]] in
  match CredentialPolicyOps (Some pol) bs with
  | Ok ops => (nr_Endpoints <$> upsert pol ops !! "pi"%string) = Some [ep] ∧ carries ep = ""%string ∧
              (nr_Endpoints <$> upsert pol ops !! CredentialBindingRuleName) = Some [bound_endpoint "github.com" 443 "gh"]
  | Err _ => False
  end.
Proof. vm_compute. repeat split. Qed.

Lemma stamping_idempotent_witness : CredentialPolicyOps (Some (upsert ex_pol ex_ops)) ex_bindings = Ok [].
Proof.
  apply (stamping_idempotent upsert (λ _ _, eq_refl) ex_pol ex_bindings ex_ops);
    [discriminate| |exact ex_ops_ok|vm_compute; reflexivity].
  intros key p (b & ->%list_elem_of_singleton & <-)%bound_provider. discriminate.
Defined.

Lemma stamping_refuses_conflicts_witness :
  (is_ok (CredentialPolicyOps (Some ex_pol) ex_bindings) ↔
     ∀ k r ep p, ex_pol !! k = Some r → ep ∈ nr_Endpoints r → bound_to ex_bindings (key_of ep) = Some p →
       carries ep = ""%string ∨ carries ep = p) ∧
  ∀ key p, bound_to ex_bindings key = Some p → p ≠ ""%string.
Proof. apply (stamping_refuses_conflicts ex_text ex_bindings ex_pol ex_parse). discriminate. Defined.

Definition ex_mg : NetworkPolicyRule :=
  mkRule ModelGatewayRuleName [ex_ep "models" allow_all None] ["/usr/bin/pi"%string].

Definition ex_apply_env : apply_env :=
  mkApplyEnv (Some (ex_pol, 7%N)) None (λ _ _, UFailed) (λ i _, if (i =? 0)%nat then UAborted else UOk)
    (λ _, false) (λ _, false).

Lemma apply_success_applied_witness :
  ∃ c, (c ∈ (ApplyModelGatewayPolicy (Some ex_mg) ex_bindings ex_apply_env).2 ∧
        ∃ i, ap_ans1 ex_apply_env i c = UOk ∨ ap_ans2 ex_apply_env i c = UOk) ∧
    mkAddRule (nr_Name ex_mg) ex_mg ∈ uc_ops c.
Proof.
  apply (apply_success_applied ex_mg ex_bindings ex_apply_env).
  vm_compute. reflexivity.
Defined.

Lemma stale_retry_fails_witness :
  mergeOrRetry (λ i c, if (uc_expected c =? 8 + N.of_nat i)%N then UOk else UAborted) (λ _, false) [] 7 =
    (Some EUpdate, replicate 4 (mkUpdate [] 7)).
Proof.
  apply (stale_retry_fails _ (λ i, 8 + N.of_nat i)%N).
  - intros i c _ Hne. by rewrite (proj2 (N.eqb_neq _ _) Hne).
  - intros i. lia.
  - simpl. lia.
Defined.
