(* ===== verification/Gateway.v ===== *)
(** * The gateway client (src/controller/gateway.go, policy.go, daemonproxy.go,
    sandboxresolver.go)

    What the controller asks of the OpenShell gateway: the requests it builds, the
    answers it reads, and the addresses it keeps.  The gateway itself is on the
    other side of gRPC; its answers are arguments. *)

From Stdlib Require Import Ascii String ZArith.
From S2P Require Import Prelude Json GoTime GoStrings Bolt EventStore EventHub Fsm Monitor Config Agent Manager Policy.
From stdpp Require Import base list strings numbers sorting gmap pretty.
Local Open Scope Z_scope.

(** ** The client *)

Definition defaultWorkspace : string := "default".

Definition workspaceSelector (workspace : string) : string :=
  if String.eqb workspace "" then defaultWorkspace else workspace.

(** [daemonCommand] distinguishes nil from an empty argv, as the code does. *)
Record Gateway : Type := mkGateway {
  g_modelGatewayURL : string;
  g_workspace : string;
  g_daemonToken : string;
  g_daemonCommand : option (list string);
  g_daemonPort : string;
  g_exposures : gmap string string;
  g_credentialBindings : list Binding
}.

Definition NewGateway (modelGatewayURL : string) : Gateway := mkGateway modelGatewayURL defaultWorkspace "" None "" ∅ [].

Definition WithWorkspace (workspace : string) (g : Gateway) : Gateway :=
  mkGateway (g_modelGatewayURL g) workspace (g_daemonToken g) (g_daemonCommand g) (g_daemonPort g) (g_exposures g) (g_credentialBindings g).
Definition WithDaemonToken (token : string) (g : Gateway) : Gateway :=
  mkGateway (g_modelGatewayURL g) (g_workspace g) token (g_daemonCommand g) (g_daemonPort g) (g_exposures g) (g_credentialBindings g).
Definition WithCredentialBindings (bs : list Binding) (g : Gateway) : Gateway :=
  mkGateway (g_modelGatewayURL g) (g_workspace g) (g_daemonToken g) (g_daemonCommand g) (g_daemonPort g) (g_exposures g) bs.
Definition WithDaemonPort (port : string) (g : Gateway) : Gateway :=
  mkGateway (g_modelGatewayURL g) (g_workspace g) (g_daemonToken g) (g_daemonCommand g) port (g_exposures g) (g_credentialBindings g).
Definition WithDaemonCommand (argv : option (list string)) (g : Gateway) : Gateway :=
  mkGateway (g_modelGatewayURL g) (g_workspace g) (g_daemonToken g) argv (g_daemonPort g) (g_exposures g) (g_credentialBindings g).
Definition set_exposures (m : gmap string string) (g : Gateway) : Gateway :=
  mkGateway (g_modelGatewayURL g) (g_workspace g) (g_daemonToken g) (g_daemonCommand g) (g_daemonPort g) m (g_credentialBindings g).

Definition scope (g : Gateway) : string := workspaceSelector (g_workspace g).

(** ** Creating a sandbox *)

(** [None] is the nil map. *)
Definition sandboxEnv (token agentID piSessionID : string) : option (gmap string string) :=
  let env : gmap string string :=
    if String.eqb token "" then ∅ else <["KAPE_AGENT_ID" := agentID]> (<["KAPE_DAEMON_TOKEN" := token]> ∅) in
  let env := if String.eqb piSessionID "" then env else <["KAPE_PI_SESSION_ID" := piSessionID]> env in
  if decide (env = ∅) then None else Some env.

Definition daemonEnv (g : Gateway) (labels : gmap string string) (piSessionID : string) : option (gmap string string) :=
  let env := sandboxEnv (g_daemonToken g) (default "" (labels !! LabelAgentID)) piSessionID in
  match g_daemonCommand g with
  | None => env
  | Some _ =>
      let env := default ∅ env in
      let env := <["KAPE_SPOOL_PATH" := "/sandbox/kape-daemon-spool.jsonl"]> env in
      let port := if String.eqb (g_daemonPort g) "" then "9090" else g_daemonPort g in
      let env := <["KAPE_DAEMON_ADDR" := "127.0.0.1:" +:+ port]> env in
      Some (match env !! "KAPE_PI_COMMAND" with Some _ => env | None => <["KAPE_PI_COMMAND" := "pi"]> env end)
  end%string.

(** The loop of [sandboxProviders]. *)
Fixpoint attach (bs : list Binding) (seen : gset string) : list string :=
  match bs with
  | [] => []
  | b :: rest =>
      if String.eqb (b_Provider b) "" || bool_decide (b_Provider b ∈ seen) then attach rest seen
      else b_Provider b :: attach rest ({[b_Provider b]} ∪ seen)
  end.

Definition sandboxProviders (g : Gateway) (modelProvider : string) : list string :=
  modelProvider :: attach (g_credentialBindings g) (if String.eqb modelProvider "" then ∅ else {[modelProvider]}).

Record CreateSandboxRequest : Type := mkCreate {
  cr_scope : string; cr_name : string; cr_labels : gmap string string; cr_providers : list string; cr_image : string;
  cr_cpu : string; cr_memory : string; cr_command : list string; cr_environment : option (gmap string string)
}.

(** An empty argv and a nil one are the same on the wire. *)
Definition createSandboxRequest (g : Gateway) (name image provider : string) (resources : Resources)
    (labels : gmap string string) (env : option (gmap string string)) (command : option (list string)) : CreateSandboxRequest :=
  mkCreate (scope g) name labels (sandboxProviders g provider) image (CPU resources) (Memory resources) (default [] command) env.

(** The call's request; the answer is the canonical name and id, or an error. *)
Definition CreateSandbox (g : Gateway) (name : string) (spec : sandbox_spec) (answer : CreateSandboxRequest → option (string * string)) :
    option (string * string) :=
  answer (createSandboxRequest g name (sb_Image spec) (sb_Provider spec) (sb_Resources spec) (sb_Labels spec)
            (daemonEnv g (sb_Labels spec) (sb_Session spec)) (g_daemonCommand g)).

(** ** Reading *)

(** One page: the sandboxes and the token of the next, empty at the end. *)
Record page : Type := mkPage { pg_items : list SandboxInfo; pg_next : string }.

(** [fetch] answers the request for the page with a token. *)
Fixpoint list_loop (fuel : nat) (fetch : string → option page) (token : string) (out : list SandboxInfo) :
    option (option (list SandboxInfo)) :=
  match fuel with
  | O => None
  | S fuel =>
      match fetch token with
      | None => Some None
      | Some p => if String.eqb (pg_next p) "" then Some (Some (out ++ pg_items p)) else list_loop fuel fetch (pg_next p) (out ++ pg_items p)
      end
  end.

Definition ListSandboxes (fuel : nat) (fetch : string → option page) : option (option (list SandboxInfo)) :=
  list_loop fuel fetch "" [].

(** The polls with the time after each; [None] is an error of the call. *)
Fixpoint WaitReady (deadline : Z) (polls : list (option SandboxPhase * Z)) : option bool :=
  match polls with
  | [] => None
  | (None, _) :: _ => Some false
  | (Some PhaseReady, _) :: _ => Some true
  | (Some PhaseError, _) :: _ => Some false
  | (Some _, now) :: rest => if deadline <? now then Some false else WaitReady deadline rest
  end.

(** ** The exec wrapper *)

Definition quote_char : ascii := "034"%char.
Definition backslash : ascii := "092"%char.

Definition hex_digit (n : nat) : ascii := ascii_of_nat (if (n <? 10)%nat then 48 + n else 87 + n).

(** One character of the verb [%q]; what is not ASCII is taken to be printable. *)
Definition quote_ascii (c : ascii) : list ascii :=
  if Ascii.eqb c quote_char then [backslash; quote_char]
  else if Ascii.eqb c backslash then [backslash; backslash]
  else
    let n := nat_of_ascii c in
    match n with
    | 7 => [backslash; "a"%char] | 8 => [backslash; "b"%char] | 12 => [backslash; "f"%char] | 10 => [backslash; "n"%char]
    | 13 => [backslash; "r"%char] | 9 => [backslash; "t"%char] | 11 => [backslash; "v"%char]
    | _ => if (n <? 32)%nat || (n =? 127)%nat then [backslash; "x"%char; hex_digit (n / 16); hex_digit (n mod 16)] else [c]
    end%nat.

Definition quote (s : string) : list ascii := [quote_char] ++ (chars s ≫= quote_ascii) ++ [quote_char].

Definition newline : list ascii := ["010"%char].

Definition line (l : list ascii) : list ascii := l ++ newline.

(** A text in which a double quote is written as a single one. *)
Definition dq (s : string) : list ascii := (λ c, if Ascii.eqb c "'" then quote_char else c) <$> chars s.

Definition piWrapperCommand (modelGatewayURL model : string) : list (list ascii) :=
  [chars "bash"; chars "-lc";
   line (chars "set -e") ++ line (chars "cd /sandbox") ++
   line (dq "MODELS='${PI_CODING_AGENT_DIR:-/sandbox/.pi/agent}/models.json'") ++
   line (dq "python3 - '$MODELS' " ++ quote model ++ chars " <<'PYEOF'") ++
   line (chars "import json, sys") ++ line (chars "p, model = sys.argv[1], sys.argv[2]") ++
   line (chars "with open(p) as f: m = json.load(f)") ++
   line (dq "m['providers']['openrouter']['baseUrl'] = " ++ quote modelGatewayURL) ++
   line (chars "if model:") ++
   line (dq "    models = m['providers']['openrouter'].setdefault('models', [])") ++
   line (dq "    if not any(e.get('id') == model for e in models):") ++
   line (dq "        models.append({'id': model})") ++
   line (dq "with open(p, 'w') as f: json.dump(m, f, indent=2)") ++
   line (dq "print('patched baseUrl ->', m['providers']['openrouter']['baseUrl'], 'model ->', model or '(image default)')") ++
   line (chars "PYEOF") ++ line (chars "exec pi --mode rpc --no-session")].

Record ExecSandboxRequest : Type := mkExec {
  ex_scope : string; ex_sandbox : string; ex_command : list (list ascii); ex_workdir : string; ex_environment : gmap string string
}.

Definition interactiveExecRequest (g : Gateway) (sandboxName model : string) : ExecSandboxRequest :=
  let env : gmap string string := {["OPENROUTER_API_KEY" := "dummy"]} in
  mkExec (scope g) sandboxName (piWrapperCommand (g_modelGatewayURL g) model) "/sandbox"
    (if String.eqb model "" then env else <["PI_PROVIDER" := "openrouter"]> (<["PI_MODEL" := model]> env))%string.

(** [opened] and [sent]: whether the stream opens and takes its first frame. *)
Definition StartPi (g : Gateway) (sandboxName model : string) (opened sent : bool) : option ExecSandboxRequest :=
  if opened && sent then Some (interactiveExecRequest g sandboxName model) else None.

(** ** The daemon's endpoint *)

(** [Sscanf(raw, "%d", &port)] into 32 bits, then the range. *)
Definition parseDaemonPort (raw : string) : option Z :=
  if String.eqb raw "" then Some 9090
  else
    match skip_blanks (chars raw) with
    | c :: r =>
        match digit_val c with
        | None => None
        | Some _ => let n := lead_digits 0 (c :: r) in if (n =? 0) || (65535 <? n) then None else Some n
        end
    | [] => None
    end.

(** [u_Host] of the parsed text, [None] when it does not parse. *)
Definition daemonAuthority (host : option string) : option string :=
  match host with Some h => if String.eqb h "" then None else Some h | None => None end.

Record ExposeServiceRequest : Type := mkExpose {
  ep_scope : string; ep_sandbox : string; ep_name : string; ep_port : Z; ep_domain : bool; ep_passthrough : bool
}.

(** The first critical section: the cached address. *)
Definition expose_begin (g : Gateway) (sandbox : string) : option string := g_exposures g !! sandbox.

(** The call between them: its request, when there is one, and the address. *)
Definition expose_call (g : Gateway) (sandbox : string) (answer : ExposeServiceRequest → option (option string)) :
    option ExposeServiceRequest * option string :=
  match parseDaemonPort (g_daemonPort g) with
  | None => (None, None)
  | Some port =>
      let req := mkExpose (scope g) sandbox "" port false true in
      (Some req, match answer req with None => None | Some host => daemonAuthority host end)
  end.

(** The second: keep the address. *)
Definition expose_end (g : Gateway) (sandbox authority : string) : Gateway := set_exposures (<[sandbox := authority]> (g_exposures g)) g.

Definition ExposeDaemon (g : Gateway) (sandbox : string) (answer : ExposeServiceRequest → option (option string)) :
    option string * option ExposeServiceRequest * Gateway :=
  match expose_begin g sandbox with
  | Some addr => (Some addr, None, g)
  | None =>
      match expose_call g sandbox answer with
      | (req, None) => (None, req, g)
      | (req, Some authority) => (Some authority, req, expose_end g sandbox authority)
      end
  end.

Definition ForgetDaemonExposure (g : Gateway) (sandbox : string) : Gateway := set_exposures (delete sandbox (g_exposures g)) g.

(** The address is dropped whatever the gateway answers. *)
Definition WithdrawDaemon (g : Gateway) (sandbox : string) (deleted : bool) : bool * Gateway :=
  (deleted, ForgetDaemonExposure g sandbox).

Definition daemonScheme : string := "https://".

(** [daemonExposureResolver]. *)
Definition exposure_ResolveDaemonAddr (g : Gateway) (sandbox : string) (answer : ExposeServiceRequest → option (option string)) :
    option string * Gateway :=
  let '(addr, _, g') := ExposeDaemon g sandbox answer in ((λ a, daemonScheme +:+ a) <$> addr, g').

(** ** The resolver that reads the sandbox object *)

(** [items] are the names the labelled list answers with; [None] when the call or
    the decoding fails. *)
Definition resolveCRName (sandbox : string) (items : option (list string)) : string :=
  match items with Some [name] => name | _ => sandbox end.

Record sandboxCR : Type := mkCR { cr_Service : option bool; cr_PodIPs : list string; cr_ServiceFQDN : string }.

(** [is_v6] says whether a text is an IPv6 address that is not an IPv4 one. *)
Definition hostLiteral (is_v6 : string → bool) (ip : string) : string := if is_v6 ip then "[" +:+ ip +:+ "]" else ip.

Definition CR_ResolveDaemonAddr (is_v6 : string → bool) (ns port sandbox : string) (items : option (list string))
    (get : string → option sandboxCR) : option string :=
  match get (resolveCRName sandbox items) with
  | None => None
  | Some sb =>
      match cr_PodIPs sb with
      | ip :: _ => Some ("http://" +:+ hostLiteral is_v6 ip +:+ ":" +:+ port)
      | [] =>
          match cr_Service sb with
          | Some true =>
              let fqdn := if String.eqb (cr_ServiceFQDN sb) "" then sandbox +:+ "." +:+ ns +:+ ".svc.cluster.local" else cr_ServiceFQDN sb in
              Some ("http://" +:+ fqdn +:+ ":" +:+ port)
          | _ => None
          end
      end
  end%string.

(** ** Addresses of the model gateway *)

Inductive ip : Type := V4 (a b c d : Z) | V6.

Definition octet (cs : list ascii) : option Z :=
  match cs with
  | [] => None
  | _ =>
      if (3 <? length cs)%nat then None
      else match cs with
           | "0"%char :: _ :: _ => None
           | _ => match decimal 0 cs with Some n => if n <=? 255 then Some n else None | None => None end
           end
  end.

Definition parse4 (s : string) : option ip :=
  match octet <$> split_at "." (chars s) [] with
  | [Some a; Some b; Some c; Some d] => Some (V4 a b c d)
  | _ => None
  end.

(** The first dot or colon tells the family; [parse6] reads a text with colons,
    and gives [V4] for an address mapped into IPv6. *)
Fixpoint first_sep (cs : list ascii) : option ascii :=
  match cs with
  | [] => None
  | c :: r => if Ascii.eqb c "." || Ascii.eqb c ":" then Some c else first_sep r
  end.

Definition ParseIP (parse6 : string → option ip) (s : string) : option ip :=
  match first_sep (chars s) with
  | Some "."%char => parse4 s
  | Some ":"%char => parse6 s
  | _ => None
  end.

Definition show4 (a b c d : Z) : string :=
  pretty a +:+ "." +:+ pretty b +:+ "." +:+ pretty c +:+ "." +:+ pretty d.

Definition IsLoopback (a : Z) : bool := a =? 127.
Definition IsLinkLocalUnicast (a b : Z) : bool := (a =? 169) && (b =? 254).

(** RFC 1918. *)
Definition isPrivateIP (a b : Z) : bool :=
  (a =? 10) || ((a =? 172) && (Z.land b 240 =? 16)) || ((a =? 192) && (b =? 168)).

(** An address as an entry of the list, when it is one. *)
Definition allowed_entry (parse6 : string → option ip) (addr : string) : option string :=
  match ParseIP parse6 addr with
  | Some (V4 a b c d) =>
      if IsLoopback a || IsLinkLocalUnicast a b then None
      else if isPrivateIP a b then Some (show4 a b c d) else None
  | _ => None
  end.

Definition add_allowed (parse6 : string → option ip) (allowed : list string) (addr : string) : list string :=
  match allowed_entry parse6 addr with
  | Some x => if decide (x ∈ allowed) then allowed else allowed ++ [x]
  | None => allowed
  end.

(** The names that are looked up; [cname] is the canonical one, when there is one. *)
Definition lookup_hosts (host : string) (cname : option string) : list string :=
  host :: match cname with
          | Some c => if String.eqb c "" || String.eqb c host then [] else [TrimSuffix c "."]
          | None => []
          end.

Fixpoint lookup_loop (parse6 : string → option ip) (host : string) (lookup : string → option (list string)) (hs allowed : list string) :
    option (list string) :=
  match hs with
  | [] => Some allowed
  | h :: rest =>
      match lookup h with
      | None => if String.eqb h host then None else lookup_loop parse6 host lookup rest allowed
      | Some addrs => lookup_loop parse6 host lookup rest (fold_left (add_allowed parse6) addrs allowed)
      end
  end.

Definition allowedIPsFor (parse6 : string → option ip) (host : string) (lookup : option (string → option (list string)))
    (cname : option string) : option (list string) :=
  match lookup with
  | None => Some []
  | Some lookup => merge_sort string_le <$> lookup_loop parse6 host lookup (lookup_hosts host cname) []
  end.

Definition parseAllowedIPs (raw : string) : list string :=
  merge_sort string_le (filter (λ p, p ≠ ""%string) ((λ p, TrimSpace (string_of_list_ascii p)) <$> split_at "," (chars raw) [])).

(** ** The deny rule for the controller itself *)

Inductive PolicyMergeOperation : Type :=
| OpAddRule (r : AddRule)
| OpAddDenyRules (rule host : string) (ports : list Z) (any_binary : bool) (deny : list L7Allow).

Definition u32_wrap (z : Z) : Z := z mod 2 ^ 32.

Definition egress_deny_ops (host : string) (port : Z) : list PolicyMergeOperation :=
  [OpAddRule (mkAddRule "m1_controller"
     (mkRule "m1_controller" [mkEndpoint host (u32_wrap port) [] "rest" 0 allow_all None (JObj [])] []));
   OpAddDenyRules "m1_controller" host [u32_wrap port] true allow_all]%string.

Definition ApplyControllerEgressDeny (g : Gateway) (sandbox host : string) (port : Z)
    (answer : string * string * list PolicyMergeOperation → bool) : bool :=
  answer (scope g, sandbox, egress_deny_ops host port).

(** ** The policy with the version it is written at *)

(** The gateway's sandbox: its policy and its resource version. *)
Record sandbox_state : Type := mkSandboxState { ss_policy : NetworkPolicies; ss_version : N }.

(** Two reads, the sandbox as each of them finds it. *)
Definition GetSandboxPolicy (at_config at_sandbox : option sandbox_state) : option (NetworkPolicies * N) :=
  match at_config with
  | None => None
  | Some s1 => match at_sandbox with None => None | Some s2 => Some (ss_policy s1, ss_version s2) end
  end.

(** ** Providers *)

Lemma attach_elem bs seen p :
  p ∈ attach bs seen ↔ p ≠ ""%string ∧ p ∉ seen ∧ ∃ b, b ∈ bs ∧ b_Provider b = p.
Proof.
  revert seen. induction bs as [|b bs IH]; intros seen; cbn [attach].
  { rewrite elem_of_nil. split; [done|]. intros (_ & _ & b & Hb & _). by apply elem_of_nil in Hb. }
  destruct (String.eqb_spec (b_Provider b) "") as [E|E]; cbn [orb].
  { rewrite IH. split; intros (? & ? & b' & Hb' & Hp); split_and!; try done; exists b'; (split; [|done]);
      [set_solver|]. apply elem_of_cons in Hb' as [->|]; congruence. }
  case_bool_decide as Hs.
  { rewrite IH. split; intros (? & ? & b' & Hb' & Hp); split_and!; try done; exists b'; (split; [|done]);
      [set_solver|]. apply elem_of_cons in Hb' as [->|]; congruence. }
  rewrite elem_of_cons, IH. split.
  - intros [->|(? & Hn & b' & ? & ?)]; [split_and!; [done..|]; exists b; set_solver|].
    split_and!; [done|set_solver|]. exists b'. set_solver.
  - intros (? & Hn & b' & Hb' & Hp). destruct (decide (p = b_Provider b)) as [|Hne]; [by left|right].
    split_and!; [done|set_solver|]. exists b'. split; [|done]. apply elem_of_cons in Hb' as [->|]; congruence.
Qed.

Lemma attach_NoDup bs seen : NoDup (attach bs seen).
Proof.
  revert seen. induction bs as [|b bs IH]; intros seen; cbn [attach]; [constructor|].
  destruct (_ || _); [apply IH|]. constructor; [|apply IH]. rewrite attach_elem. set_solver.
Qed.

Lemma assoc_pairs l key p : Policy.assoc key l = Some p → ∃ k, (k, p) ∈ l.
Proof.
  induction l as [|[k v] l IH]; cbn [Policy.assoc]; [done|]. case_match; [intros [= <-]; exists k; set_solver|].
  intros [k' Hk]%IH. exists k'. set_solver.
Qed.

Lemma bound_to_provider bs key p : bound_to bs key = Some p → ∃ b, b ∈ bs ∧ b_Provider b = p.
Proof.
  intros [k Hk]%assoc_pairs. unfold binding_pairs in Hk. apply list_elem_of_bind in Hk as (b & Hin & Hb).
  exists b. split; [done|]. unfold spec_pairs in Hin. apply list_elem_of_omap in Hin as (spec & _ & Hs).
  destruct (splitHostSpec spec) as [[h n]|]; [|done]. by injection Hs as _ <-.
Qed.

(** Credentials resolve where the policy binds them.  A sandbox is created with
    the model's provider first and each provider of the binding table once, and
    with nothing else; so every endpoint the policy binds to a provider is bound
    to one that is attached to the sandbox. *)
Theorem bound_providers_attached g name image provider resources labels env command :
  provider ≠ ""%string →
  let ps := cr_providers (createSandboxRequest g name image provider resources labels env command) in
  NoDup ps ∧ head ps = Some provider ∧
  (∀ p, p ∈ ps → p = provider ∨ ∃ b, b ∈ g_credentialBindings g ∧ b_Provider b = p) ∧
  (∀ key p, bound_to (g_credentialBindings g) key = Some p → p ≠ ""%string → p ∈ ps).
Proof.
  intros Hp ps. subst ps. cbn [createSandboxRequest cr_providers]. unfold sandboxProviders.
  destruct (String.eqb_spec provider ""); [done|]. split_and!.
  - constructor; [|apply attach_NoDup]. rewrite attach_elem. set_solver.
  - done.
  - intros p. rewrite elem_of_cons, attach_elem. naive_solver.
  - intros key p (b & Hb & Hbp)%bound_to_provider Hne. rewrite elem_of_cons, attach_elem.
    destruct (decide (p = provider)); [by left|right]. split_and!; [done|set_solver|]. by exists b.
Qed.

(** ** Listing *)

(** The pages the gateway serves from a token on. *)
Inductive chain (fetch : string → option page) : string → list page → Prop :=
| chain_last t p : fetch t = Some p → pg_next p = ""%string → chain fetch t [p]
| chain_next t p ps : fetch t = Some p → pg_next p ≠ ""%string → chain fetch (pg_next p) ps → chain fetch t (p :: ps).

Lemma list_loop_chain fetch t ps out fuel : chain fetch t ps → (length ps ≤ fuel)%nat →
  list_loop fuel fetch t out = Some (Some (out ++ (ps ≫= pg_items))).
Proof.
  intros Hc. revert out fuel. induction Hc as [t p Hf Hn|t p ps Hf Hn _ IH]; intros out [|fuel] Hl; cbn [length] in Hl; try lia.
  - cbn [list_loop]. rewrite Hf. destruct (String.eqb_spec (pg_next p) ""); [|done]. simpl. by rewrite app_nil_r.
  - cbn [list_loop]. rewrite Hf. destruct (String.eqb_spec (pg_next p) ""); [done|].
    rewrite IH by lia. simpl. by rewrite <-app_assoc.
Qed.

(** A listing is whole: when the gateway's pages come to an end, the call returns
    the sandboxes of all of them, in order, after as many requests as there are
    pages. *)
Theorem list_sandboxes_whole fetch ps fuel : chain fetch "" ps → (length ps ≤ fuel)%nat →
  ListSandboxes fuel fetch = Some (Some (ps ≫= pg_items)).
Proof. intros Hc Hl. unfold ListSandboxes. by rewrite (list_loop_chain _ _ _ _ _ Hc Hl). Qed.

(** Nothing bounds the listing: a gateway that answers a token with itself is
    asked for ever. *)
Theorem list_sandboxes_unbounded fetch p fuel :
  fetch ""%string = Some p → pg_next p ≠ ""%string → fetch (pg_next p) = Some p → ListSandboxes fuel fetch = None.
Proof.
  intros H0 Hn Hl. unfold ListSandboxes. destruct fuel as [|fuel]; [done|]. cbn [list_loop]. rewrite H0.
  destruct (String.eqb_spec (pg_next p) ""); [done|]. generalize ([] ++ pg_items p).
  induction fuel as [|fuel IH]; intros out; [done|]. cbn [list_loop]. rewrite Hl.
  destruct (String.eqb_spec (pg_next p) ""); [done|]. apply IH.
Qed.

(** ** Ports *)

Lemma lead_digits_decimal acc cs n : decimal acc cs = Some n → lead_digits acc cs = n.
Proof.
  revert acc. induction cs as [|c cs IH]; intros acc; cbn [decimal lead_digits]; [by intros [= <-]|].
  destruct (digit_val c); [apply IH|done].
Qed.

Lemma digit_not_blank c d : digit_val c = Some d → c ≠ " "%char ∧ c ≠ "-"%char ∧ c ≠ "+"%char.
Proof. intros Hd. by split_and!; intros ->. Qed.

Lemma skip_blanks_digit c cs d : digit_val c = Some d → skip_blanks (c :: cs) = c :: cs.
Proof. intros Hd. by destruct c as [[] [] [] [] [] [] [] []]. Qed.

(** The port the controller has the gateway expose is the one the daemon is told to
    listen on: for a port text of digits that passed the start-up check, the request
    carries its number and the sandbox's environment the same text. *)
Theorem daemon_ports_agree g sandbox labels session argv answer c cs n :
  chars (g_daemonPort g) = c :: cs → decimal 0 (c :: cs) = Some n → 1 ≤ n ≤ 65535 → g_daemonCommand g = Some argv →
  (∃ req, (expose_call g sandbox answer).1 = Some req ∧ ep_port req = n ∧ ep_passthrough req = true) ∧
  ∃ env, daemonEnv g labels session = Some env ∧ env !! "KAPE_DAEMON_ADDR"%string = Some ("127.0.0.1:" +:+ g_daemonPort g).
Proof.
  intros Hcs Hd Hn Ha.
  assert (Hne : String.eqb (g_daemonPort g) "" = false) by (destruct (g_daemonPort g); [done|reflexivity]).
  assert (Hdig : is_Some (digit_val c)) by (cbn [decimal] in Hd; destruct (digit_val c); [by eexists|done]).
  destruct Hdig as [d Hdig]. split.
  - unfold expose_call, parseDaemonPort. rewrite Hne, Hcs, (skip_blanks_digit _ _ _ Hdig), Hdig, (lead_digits_decimal _ _ _ Hd).
    cbv zeta. destruct (Z.eqb_spec n 0), (Z.ltb_spec 65535 n); try lia. cbn [orb]. eexists. by split_and!.
  - unfold daemonEnv. rewrite Ha, Hne. eexists. split; [reflexivity|].
    case_match; rewrite ?(lookup_insert_ne _ "KAPE_PI_COMMAND"%string) by done; by rewrite lookup_insert_eq.
Qed.

(** A port with a sign passes the start-up check, and no endpoint is exposed. *)
Theorem signed_port_unexposed : Atoi "+9090" = Some 9090 ∧ parseDaemonPort "+9090" = None.
Proof. done. Qed.

(** ** Addresses *)

(** One call of the exposure interface; [answer] is what the gateway would say. *)
Inductive expose_op : Type :=
| ExExpose (sandbox : string) (answer : ExposeServiceRequest → option (option string))
| ExWithdraw (sandbox : string) (deleted : bool)
| ExForget (sandbox : string).

Definition expose_step (g : Gateway) (op : expose_op) : Gateway :=
  match op with
  | ExExpose sb answer => (ExposeDaemon g sb answer).2
  | ExWithdraw sb deleted => (WithdrawDaemon g sb deleted).2
  | ExForget sb => ForgetDaemonExposure g sb
  end.

(** The authority a call would obtain from the gateway. *)
Definition obtains (g : Gateway) (op : expose_op) (sb addr : string) : Prop :=
  match op with ExExpose sb' answer => sb' = sb ∧ (expose_call g sb answer).2 = Some addr | _ => False end.

Lemma expose_step_exposures g op sb addr : g_exposures (expose_step g op) !! sb = Some addr →
  g_exposures g !! sb = Some addr ∨ obtains g op sb addr.
Proof.
  destruct op as [sb' answer|sb' deleted|sb']; cbn [expose_step].
  - unfold ExposeDaemon, expose_begin. destruct (g_exposures g !! sb') as [a0|] eqn:E0; [by left|].
    destruct (expose_call g sb' answer) as [req [a|]] eqn:Ec; [|by left]. simpl. rewrite lookup_insert_Some.
    intros [[-> ->]|[_ ?]]; [right|by left]. split; [done|]. by rewrite Ec.
  - simpl. rewrite lookup_delete_Some. intros [_ ?]. by left.
  - simpl. rewrite lookup_delete_Some. intros [_ ?]. by left.
Qed.

(** An address in use came from the gateway, for that sandbox, since it was last
    withdrawn; asking again gives it back without a call. *)
Theorem exposed_addresses_answered ops g sb addr :
  g_exposures g = ∅ → g_exposures (fold_left expose_step ops g) !! sb = Some addr →
  (∃ pre op post, ops = pre ++ op :: post ∧ obtains (fold_left expose_step pre g) op sb addr ∧
     Forall (λ op, match op with ExWithdraw sb' _ | ExForget sb' => sb' ≠ sb | _ => True end) post) ∧
  ∀ answer, ExposeDaemon (fold_left expose_step ops g) sb answer = (Some addr, None, fold_left expose_step ops g).
Proof.
  intros Hg Hl. split; [|intros answer; unfold ExposeDaemon, expose_begin; by rewrite Hl].
  induction ops as [|op ops IH] using rev_ind; [simpl in Hl; by rewrite Hg in Hl|].
  rewrite fold_left_app in Hl. cbn [fold_left] in Hl.
  pose proof Hl as Hl'. apply expose_step_exposures in Hl' as [Hold|Hob].
  - destruct (IH Hold) as (pre & op0 & post & -> & Ho & Hf). exists pre, op0, (post ++ [op]). split_and!.
    + by rewrite <-app_assoc.
    + done.
    + apply Forall_app. split; [done|]. repeat constructor.
      destruct op as [|sb' ?|sb']; [done|..]; intros ->; simpl in Hl; by rewrite lookup_delete_eq in Hl.
  - exists ops, op, []. by split_and!.
Qed.

(** Dropping the daemon client after a failure does not look the address up again:
    the resolver answers from what it kept, whatever the gateway would say now. *)
Theorem failure_keeps_address g (a : Agent) addr answer :
  g_exposures g !! a_Sandbox a = Some addr →
  (daemonFor (invalidateDaemon a) (exposure_ResolveDaemonAddr g (a_Sandbox a) answer).1).1 = Some (daemonScheme +:+ addr).
Proof.
  intros Ha. unfold exposure_ResolveDaemonAddr, ExposeDaemon, expose_begin. rewrite Ha. done.
Qed.

(** ** What the shell reads *)

(** A double-quoted word of bash, after its opening quote: the word and what follows
    it; [None] when the shell would expand something in it. *)
Fixpoint bash_word (cs : list ascii) : option (list ascii * list ascii) :=
  match cs with
  | [] => None
  | c :: r =>
      if Ascii.eqb c quote_char then Some ([], r)
      else if Ascii.eqb c "$" || Ascii.eqb c "`" then None
      else if Ascii.eqb c backslash then
        match r with
        | [] => None
        | x :: r' =>
            match bash_word r' with
            | None => None
            | Some (w, rest) =>
                if Ascii.eqb x "$" || Ascii.eqb x "`" || Ascii.eqb x quote_char || Ascii.eqb x backslash then Some (x :: w, rest)
                else if Ascii.eqb x "010" then Some (w, rest) else Some (c :: x :: w, rest)
            end
        end
      else match bash_word r with Some (w, rest) => Some (c :: w, rest) | None => None end
  end.

Definition model_char (c : ascii) : bool := alnum c || one_of "._:/-" c.

Lemma model_char_plain c : model_char c = true →
  quote_ascii c = [c] ∧ Ascii.eqb c quote_char = false ∧ Ascii.eqb c "$" || Ascii.eqb c "`" = false ∧ Ascii.eqb c backslash = false.
Proof. by destruct c as [[] [] [] [] [] [] [] []]; vm_compute; intros; split_and!. Qed.

Lemma bash_word_plain cs rest : Forall (λ c, model_char c = true) cs →
  bash_word ((cs ≫= quote_ascii) ++ quote_char :: rest) = Some (cs, rest).
Proof.
  induction 1 as [|c cs Hc _ IH]; [done|]. destruct (model_char_plain c Hc) as (Hq & H1 & H2 & H3).
  change ((c :: cs) ≫= quote_ascii) with (quote_ascii c ++ (cs ≫= quote_ascii)). rewrite Hq. cbn [app bash_word].
  by rewrite H1, H2, H3, IH.
Qed.

Lemma model_chars model : MatchString modelRe model = true → Forall (λ c, model_char c = true) (chars model).
Proof.
  rewrite re_matches_lang. unfold modelRe, many1. intros Hl. inversion Hl as [| |? ? u v Hu Hv| | | |]; subst.
  inversion Hu; subst. apply lang_star_class in Hv. by constructor.
Qed.

(** The model reaches the wrapper as it was asked for: for every profile that was
    resolved, the shell reads the quoted model in the script as exactly the model's
    text and expands nothing in it. *)
Theorem model_word_verbatim cfg p r rest : ResolveProfile cfg p = Ok r →
  ∃ word, quote (rp_Model r) = quote_char :: word ∧ bash_word (word ++ rest) = Some (chars (rp_Model r), rest).
Proof.
  intros (Hv & _)%ResolveProfile_ok.
  assert (Hf : Forall (λ c, model_char c = true) (chars (rp_Model r))).
  { unfold valid_resolved, CreateProfile_Validate in Hv. cbn [cp_Name cp_Image cp_Resources cp_Model cp_ParentID] in Hv.
    destruct (_ && _); [done|]. destruct (_ && _); [done|]. destruct (Resources_Validate _); [done|].
    destruct (non_empty (rp_Model r)) eqn:En; [|unfold non_empty in En; destruct (rp_Model r); [constructor|done]].
    destruct (MatchString modelRe (rp_Model r)) eqn:Em; [by apply model_chars|done]. }
  exists ((chars (rp_Model r) ≫= quote_ascii) ++ [quote_char]). split; [done|].
  rewrite <-app_assoc. cbn [app]. by apply bash_word_plain.
Qed.

(** Only the pattern keeps it so: the quoting itself is Go's, not the shell's. *)
Theorem quoting_is_not_for_the_shell :
  bash_word (tail (quote "$(id)")) = None.
Proof. reflexivity. Qed.

(** ** The list of addresses *)

#[global] Instance string_le_total : Total string_le.
Proof.
  intros x y. unfold string_le, String.leb. rewrite (String.compare_antisym y x).
  destruct (String.compare x y); simpl; auto.
Qed.

Section Allowed.
Context (parse6 : string → option ip).

Lemma add_allowed_elem addrs allowed x :
  x ∈ fold_left (add_allowed parse6) addrs allowed ↔ x ∈ allowed ∨ ∃ addr, addr ∈ addrs ∧ allowed_entry parse6 addr = Some x.
Proof.
  revert allowed. induction addrs as [|a addrs IH]; intros allowed; cbn [fold_left].
  { split; [by left|]. intros [?|(? & Hin & _)]; [done|by apply elem_of_nil in Hin]. }
  rewrite IH. unfold add_allowed. destruct (allowed_entry parse6 a) as [y|] eqn:E; [case_decide|]; set_solver.
Qed.

Lemma add_allowed_NoDup addrs allowed : NoDup allowed → NoDup (fold_left (add_allowed parse6) addrs allowed).
Proof.
  revert allowed. induction addrs as [|a addrs IH]; intros allowed Hn; cbn [fold_left]; [done|]. apply IH.
  unfold add_allowed. destruct (allowed_entry parse6 a); [case_decide|]; try done.
  apply NoDup_app. split_and!; [done|set_solver|apply NoDup_singleton].
Qed.

Lemma lookup_loop_spec host lookup hs allowed l : lookup_loop parse6 host lookup hs allowed = Some l →
  (NoDup allowed → NoDup l) ∧
  ∀ x, x ∈ l ↔ x ∈ allowed ∨ ∃ h addrs addr, h ∈ hs ∧ lookup h = Some addrs ∧ addr ∈ addrs ∧ allowed_entry parse6 addr = Some x.
Proof.
  revert allowed. induction hs as [|h hs IH]; intros allowed; cbn [lookup_loop].
  { intros [= <-]. split; [done|]. intros x. split; [by left|]. intros [?|(? & ? & ? & Hin & _)]; [done|by apply elem_of_nil in Hin]. }
  destruct (lookup h) as [addrs|] eqn:E.
  - intros Hl. destruct (IH _ Hl) as [Hn He]. split; [intros; by apply Hn, add_allowed_NoDup|].
    intros x. rewrite He, add_allowed_elem. split.
    + intros [[?|(addr & ? & ?)]|(h' & as' & addr & ? & ?)]; [by left|right|right].
      * exists h, addrs, addr. set_solver.
      * exists h', as', addr. set_solver.
    + intros [?|(h' & as' & addr & Hh & Hl' & ? & ?)]; [by left; left|].
      apply elem_of_cons in Hh as [->|Hh]; [left; right; exists addr; split; [congruence|done]|].
      right. by exists h', as', addr.
  - destruct (String.eqb h host); [done|]. intros Hl. destruct (IH _ Hl) as [Hn He]. split; [done|].
    intros x. rewrite He. split.
    + intros [?|(h' & as' & addr & ? & ?)]; [by left|right]. exists h', as', addr. set_solver.
    + intros [?|(h' & as' & addr & Hh & Hl' & ?)]; [by left|right]. exists h', as', addr. split; [|done].
      apply elem_of_cons in Hh as [->|]; [congruence|done].
Qed.

Lemma lookup_loop_fails host lookup hs allowed : lookup host ≠ None → is_Some (lookup_loop parse6 host lookup hs allowed).
Proof.
  intros Hh. revert allowed. induction hs as [|h hs IH]; intros allowed; cbn [lookup_loop]; [by eexists|].
  destruct (lookup h) as [addrs|] eqn:E; [apply IH|]. destruct (String.eqb_spec h host); [by subst|apply IH].
Qed.

(** The addresses a sandbox may reach for its model are the private IPv4 addresses
    the two names resolve to, each once and in order, and no others; only a host
    that does not resolve is refused. *)
Theorem allowed_ips_exact host lookup cname :
  (allowedIPsFor parse6 host (Some lookup) cname = None ↔ lookup host = None) ∧
  ∀ l, allowedIPsFor parse6 host (Some lookup) cname = Some l →
    NoDup l ∧ Sorted string_le l ∧
    (∀ x, x ∈ l ↔ ∃ h addrs addr, h ∈ lookup_hosts host cname ∧ lookup h = Some addrs ∧ addr ∈ addrs ∧
       allowed_entry parse6 addr = Some x) ∧
    ∀ x, x ∈ l → ∃ a b c d, x = show4 a b c d ∧ isPrivateIP a b = true.
Proof.
  unfold allowedIPsFor. split.
  - rewrite fmap_None. split.
    + intros Hn. destruct (lookup host) eqn:E; [|done].
      destruct (lookup_loop_fails host lookup (lookup_hosts host cname) []) as [l1 Hl1]; congruence.
    + intros Hn. unfold lookup_hosts. cbn [lookup_loop]. by rewrite Hn, String.eqb_refl.
  - intros l (l0 & Hl & ->)%fmap_Some. destruct (lookup_loop_spec _ _ _ _ _ Hl) as [Hn He].
    assert (He' : ∀ x, x ∈ merge_sort string_le l0 ↔ x ∈ l0) by (intros x; by rewrite merge_sort_Permutation).
    split_and!.
    + rewrite merge_sort_Permutation. apply Hn. constructor.
    + apply Sorted_merge_sort, _.
    + intros x. rewrite He', He. split; [intros [Hin|?]; [by apply elem_of_nil in Hin|done]|by right].
    + intros x. rewrite He', He. intros [Hin|(h & addrs & addr & _ & _ & _ & Ha)]; [by apply elem_of_nil in Hin|].
      unfold allowed_entry in Ha. destruct (ParseIP parse6 addr) as [[a b c d|]|]; [|done..].
      destruct (_ || _); [done|]. destruct (isPrivateIP a b) eqn:Ep; [|done]. injection Ha as <-. by exists a, b, c, d.
Qed.
End Allowed.

(** ** The deny rule *)

(** The deny names the rule, the host and the port the allow before it declares, so
    that the gateway finds its target; both carry the configured port. *)
Theorem egress_deny_targets_its_rule host port : 1 ≤ port ≤ 65535 →
  ∃ rule ep, egress_deny_ops host port =
    [OpAddRule (mkAddRule (nr_Name rule) rule); OpAddDenyRules (nr_Name rule) (ne_Host ep) [ne_Port ep] true allow_all] ∧
    nr_Endpoints rule = [ep] ∧ ne_Host ep = host ∧ ne_Port ep = port ∧ nr_Binaries rule = [].
Proof.
  intros Hp. pose (ep := mkEndpoint host (u32_wrap port) [] "rest" 0 allow_all None (JObj [])).
  exists (mkRule "m1_controller" [ep] []), ep. split; [reflexivity|]. split_and!; try done. simpl.
  unfold u32_wrap. apply Z.mod_small. lia.
Qed.

(** ** The version of a policy *)

(** The version belongs to the policy when nothing happens between the two reads;
    otherwise a write at that version can undo a change it never saw. *)
Theorem policy_read_unpinned :
  (∀ s, GetSandboxPolicy (Some s) (Some s) = Some (ss_policy s, ss_version s)) ∧
  ∃ before after pol, ss_policy before ≠ ss_policy after ∧
    GetSandboxPolicy (Some before) (Some after) = Some (pol, ss_version after) ∧ pol ≠ ss_policy after.
Proof.
  split; [done|]. exists (mkSandboxState ∅ 1), (mkSandboxState {["r"%string := mkRule "r" [] []]} 2), ∅.
  by split_and!.
Qed.

(** ** Concrete gateways *)

Module Samples.

Definition gw : Gateway :=
  WithCredentialBindings [mkBinding "gh" ["github.com:443"]; mkBinding "model" []; mkBinding "gh" []]%string
    (WithDaemonPort "9090" (WithDaemonCommand (Some ["/usr/bin/kape-daemon"%string]) (WithDaemonToken "t" (NewGateway "http://m")))).

Lemma bound_providers_attached_witness :
  let ps := cr_providers (createSandboxRequest gw "s" "i" "model" (mkResources "1" "1Gi") ∅ None None) in
  ps = ["model"; "gh"]%string ∧ bound_to (g_credentialBindings gw) "github.com:443" = Some "gh"%string ∧ NoDup ps.
Proof.
  intros ps. split; [vm_compute; reflexivity|]. split; [vm_compute; reflexivity|].
  apply (bound_providers_attached gw "s" "i" "model" (mkResources "1" "1Gi") ∅ None None). discriminate.
Defined.

Definition info (n : string) : SandboxInfo := mkInfo n PhaseReady ∅.

Definition two_pages (t : string) : option page :=
  if String.eqb t "" then Some (mkPage [info "a"] "t1") else if String.eqb t "t1" then Some (mkPage [info "b"] "") else None.

Lemma list_sandboxes_whole_witness :
  ListSandboxes 2 two_pages = Some (Some [info "a"; info "b"]).
Proof.
  apply (list_sandboxes_whole two_pages [mkPage [info "a"] "t1"; mkPage [info "b"] ""] 2); [|reflexivity].
  apply chain_next; [reflexivity|discriminate|]. by apply chain_last.
Defined.

Lemma daemon_ports_agree_witness :
  ∃ env, daemonEnv gw ∅ "" = Some env ∧ env !! "KAPE_DAEMON_ADDR"%string = Some "127.0.0.1:9090"%string.
Proof.
  apply (daemon_ports_agree gw "s" ∅ "" ["/usr/bin/kape-daemon"%string] (λ _, None) "9" (chars "090") 9090);
    [reflexivity|reflexivity|split; discriminate|reflexivity].
Defined.

Definition says (addr : string) (_ : ExposeServiceRequest) : option (option string) := Some (Some addr).

Lemma exposed_addresses_answered_witness :
  ExposeDaemon (fold_left expose_step [ExExpose "s" (says "a:1"); ExWithdraw "s" true; ExExpose "s" (says "b:1")] gw) "s" (says "c:1")
    = (Some "b:1"%string, None, fold_left expose_step [ExExpose "s" (says "a:1"); ExWithdraw "s" true; ExExpose "s" (says "b:1")] gw).
Proof.
  apply (exposed_addresses_answered [ExExpose "s" (says "a:1"); ExWithdraw "s" true; ExExpose "s" (says "b:1")] gw "s" "b:1");
    vm_compute; reflexivity.
Defined.

Lemma failure_keeps_address_witness :
  let g := expose_step gw (ExExpose "sbx-1" (says "a:1")) in
  let a := ex_agent StatusReady (mkHub "agent-1" 0 0 ∅ 0 false) SessionReady true StdinNil in
  (daemonFor (invalidateDaemon a) (exposure_ResolveDaemonAddr g (a_Sandbox a) (says "b:2")).1).1 = Some "https://a:1"%string.
Proof.
  intros g a. apply (failure_keeps_address g a "a:1" (says "b:2")). vm_compute. reflexivity.
Defined.

Lemma model_word_verbatim_witness :
  ∃ word, quote "openai/gpt-5" = quote_char :: word ∧ bash_word (word ++ chars " <<") = Some (chars "openai/gpt-5", chars " <<").
Proof.
  destruct (ResolveProfile ex_config (mkProfile "" "" None "openai/gpt-5" "")) as [r|] eqn:E; [|vm_compute in E; discriminate].
  pose proof (model_word_verbatim ex_config (mkProfile "" "" None "openai/gpt-5" "") r (chars " <<") E) as Hw.
  vm_compute in E. injection E as <-. exact Hw.
Defined.

Lemma egress_deny_targets_its_rule_witness :
  ∃ rule ep, egress_deny_ops "c.svc" 8081 =
    [OpAddRule (mkAddRule (nr_Name rule) rule); OpAddDenyRules (nr_Name rule) (ne_Host ep) [ne_Port ep] true allow_all] ∧
    nr_Endpoints rule = [ep] ∧ ne_Host ep = "c.svc"%string ∧ ne_Port ep = 8081 ∧ nr_Binaries rule = [].
Proof. apply (egress_deny_targets_its_rule "c.svc" 8081). split; discriminate. Defined.

(** A name that resolves to a public, a loopback and two private addresses. *)
Theorem allowed_sample :
  allowedIPsFor (λ _, None) "m" (Some (λ _, Some ["8.8.8.8"; "127.0.0.1"; "192.168.1.7"; "10.0.0.2"; "fe80::1"]%string)) (Some "m.") =
    Some ["10.0.0.2"; "192.168.1.7"]%string.
Proof. vm_compute. reflexivity. Qed.
End Samples.
