(* ===== verification/Proxy.v ===== *)
(** * The tool proxy (src/kapeproxy/internal/proxy)

    The router that exposes the allowed tools of several upstream MCP servers
    under namespaced names, the redaction of arguments and results by JSONPath
    rules, and the dispatch of one call.  Go's maps are iterated in any order, so
    the order is an argument.  [jsonpath.Get] is third-party code and a parameter;
    only whether it succeeds is used. *)

From Stdlib Require Import Ascii String ZArith.
From S2P Require Import Prelude GoTime GoStrings Config.
From stdpp Require Import base list strings numbers gmap.
Local Open Scope Z_scope.

(** ** path.Match *)

(** [None] is [ErrBadPattern]. *)
Definition getEsc (chunk : list ascii) : option (ascii * list ascii) :=
  match chunk with
  | [] => None
  | "-"%char :: _ | "]"%char :: _ => None
  | "\"%char :: [] => None
  | "\"%char :: c :: r => match r with [] => None | _ => Some (c, r) end
  | c :: r => match r with [] => None | _ => Some (c, r) end
  end.

Definition char_leb (a b : ascii) : bool := (nat_of_ascii a <=? nat_of_ascii b)%nat.

(** The ranges of a character class: whether one contains [c], and what follows
    the closing bracket.  [c] is [None] when nothing is left to match. *)
Fixpoint class_ranges (fuel : nat) (chunk : list ascii) (c : option ascii) (nrange : nat) (matched : bool)
    : option (bool * list ascii) :=
  match fuel with
  | O => None
  | S fuel' =>
      match chunk, nrange with
      | "]"%char :: r, S _ => Some (matched, r)
      | _, _ =>
          match getEsc chunk with
          | None => None
          | Some (lo, r) =>
              let range :=
                match r with
                | "-"%char :: r' => match getEsc r' with Some (hi, r'') => Some (hi, r'') | None => None end
                | _ => Some (lo, r)
                end in
              match range with
              | None => None
              | Some (hi, r') =>
                  let here := match c with Some c => char_leb lo c && char_leb c hi | None => false end in
                  class_ranges fuel' r' c (S nrange) (matched || here)
              end
          end
      end
  end.

(** [matchChunk]: [None] for a bad pattern, [Some None] for no match, else what is
    left.  [s] is [None] once the match has failed: the pattern is still checked. *)
Fixpoint match_chunk (fuel : nat) (chunk : list ascii) (s : option (list ascii))
    : option (option (list ascii)) :=
  match fuel with
  | O => None
  | S fuel' =>
      match chunk with
      | [] => Some s
      | ch :: chunk1 =>
          let s := match s with Some [] => None | _ => s end in
          let lit c rest :=
            match_chunk fuel' rest
              (match s with Some (x :: s') => if Ascii.eqb c x then Some s' else None | _ => None end) in
          match ch with
          | "["%char =>
              let '(negated, body) := match chunk1 with "^"%char :: r => (true, r) | _ => (false, chunk1) end in
              let c := match s with Some (x :: _) => Some x | _ => None end in
              match class_ranges (S (length body)) body c 0 false with
              | None => None
              | Some (matched, rest) =>
                  match_chunk fuel' rest
                    (match s with
                     | Some (_ :: s') => if Bool.eqb matched negated then None else Some s'
                     | _ => None
                     end)
              end
          | "?"%char =>
              match_chunk fuel' chunk1
                (match s with Some (x :: s') => if Ascii.eqb x "/" then None else Some s' | _ => None end)
          | "\"%char => match chunk1 with [] => None | c :: rest => lit c rest end
          | c => lit c chunk1
          end
      end
  end.

Definition matchChunk (chunk s : list ascii) : option (option (list ascii)) :=
  match_chunk (S (length chunk)) chunk (Some s).

(** [scanChunk]: the literal part up to the next star outside a class. *)
Fixpoint scan_lit (pattern : list ascii) (inrange : bool) : list ascii * list ascii :=
  match pattern with
  | [] => ([], [])
  | "\"%char :: c :: r => let '(a, b) := scan_lit r inrange in ("\"%char :: c :: a, b)
  | "["%char :: r => let '(a, b) := scan_lit r true in ("["%char :: a, b)
  | "]"%char :: r => let '(a, b) := scan_lit r false in ("]"%char :: a, b)
  | "*"%char :: r =>
      if inrange then let '(a, b) := scan_lit r inrange in ("*"%char :: a, b) else ([], pattern)
  | c :: r => let '(a, b) := scan_lit r inrange in (c :: a, b)
  end.

Fixpoint strip_stars (pattern : list ascii) : bool * list ascii :=
  match pattern with
  | "*"%char :: r => (true, (strip_stars r).2)
  | _ => (false, pattern)
  end.

Definition scanChunk (pattern : list ascii) : bool * list ascii * list ascii :=
  let '(star, p) := strip_stars pattern in
  let '(chunk, rest) := scan_lit p false in (star, chunk, rest).

(** The rest of a pattern that did not match is still checked. *)
Fixpoint check_rest (fuel : nat) (pattern : list ascii) : option bool :=
  match fuel with
  | O => None
  | S fuel' =>
      match pattern with
      | [] => Some false
      | _ => let '(_, chunk, rest) := scanChunk pattern in
             match matchChunk chunk [] with None => None | Some _ => check_rest fuel' rest end
      end
  end.

(** A chunk after a star, at each later position that no slash precedes: what is
    left of the name, [Some None] when there is none. *)
Fixpoint star_search (chunk : list ascii) (last : bool) (name : list ascii) : option (option (list ascii)) :=
  match name with
  | [] => Some None
  | c :: name' =>
      if Ascii.eqb c "/" then Some None
      else match matchChunk chunk name' with
           | None => None
           | Some (Some t) =>
               if last && negb (match t with [] => true | _ => false end) then star_search chunk last name'
               else Some (Some t)
           | Some None => star_search chunk last name'
           end
  end.

Fixpoint match_loop (fuel : nat) (pattern name : list ascii) : option bool :=
  match fuel with
  | O => None
  | S fuel' =>
      match pattern with
      | [] => Some (match name with [] => true | _ => false end)
      | _ =>
          let '(star, chunk, rest) := scanChunk pattern in
          if star && match chunk with [] => true | _ => false end then
            Some (negb (existsb (Ascii.eqb "/") name))
          else
            let last := match rest with [] => true | _ => false end in
            match matchChunk chunk name with
            | None => None
            | Some t =>
                let here := match t with
                            | Some t => if match t with [] => true | _ => false end || negb last
                                        then Some t else None
                            | None => None
                            end in
                match here with
                | Some t => match_loop fuel' rest t
                | None =>
                    match (if star then star_search chunk last name else Some None) with
                    | None => None
                    | Some (Some t) => match_loop fuel' rest t
                    | Some None => check_rest (S (length rest)) rest
                    end
                end
            end
      end
  end.

(** [path.Match] on ASCII text; [None] is [ErrBadPattern]. *)
Definition Match (pattern name : string) : option bool :=
  match_loop (S (String.length pattern)) (chars pattern) (chars name).

(** ** The router *)

Record JSONPathRule : Type := mkPathRule { JSONPath : string }.

Record RedactionConfig : Type := mkRedaction { rc_Input : list JSONPathRule; rc_Output : list JSONPathRule }.

Record UpstreamConfig : Type := mkUpstreamConfig {
  uc_URL : string;
  uc_Transport : string;
  uc_AllowedTools : list string;
  uc_Redaction : option RedactionConfig;
  uc_Audit : option bool
}.

(** The defaults [LoadConfig] applies to each upstream of the parsed document. *)
Definition load_defaults (up : UpstreamConfig) : UpstreamConfig :=
  mkUpstreamConfig (uc_URL up) (uc_Transport up) (uc_AllowedTools up) (uc_Redaction up)
    (match uc_Audit up with None => Some true | a => a end).

(** What the router and the server use of an upstream. *)
Record Upstream : Type := mkUpstream { up_Name : string; up_Available : bool; up_Tools : list string }.

Record Entry : Type := mkEntry {
  en_Upstream : Upstream;
  en_OriginalName : string;
  en_Redaction : option RedactionConfig;
  en_Audit : bool
}.

Definition NamespaceSeparator : string := "__".

Definition Namespace (upstream tool : string) : string := upstream +:+ NamespaceSeparator +:+ tool.

Definition matchesAny (patterns : list string) (tool : string) : bool :=
  existsb (λ p, match Match p tool with Some true => true | _ => false end) patterns.

Definition contains (haystack : list string) (needle : string) : bool :=
  existsb (String.eqb needle) haystack.

(** The body of the loop of [Route] for the upstream whose prefix matches. *)
Definition route_to (ups : gmap string Upstream) (upName original : string) (c : UpstreamConfig) : option Entry :=
  match ups !! upName with
  | None => None
  | Some up =>
      match uc_AllowedTools c with
      | [] => None
      | allowed =>
          if contains (up_Tools up) original && matchesAny allowed original
          then Some (mkEntry up original (uc_Redaction c) (default true (uc_Audit c)))
          else None
      end
  end.

(** [Route], with the configured upstreams in the order the loop visits them. *)
Fixpoint Route (cfg : list (string * UpstreamConfig)) (ups : gmap string Upstream) (namespaced : string)
    : option Entry :=
  match cfg with
  | [] => None
  | (upName, c) :: rest =>
      let prefix := upName +:+ NamespaceSeparator in
      if HasPrefix namespaced prefix && (String.length prefix <? String.length namespaced)%nat
      then route_to ups upName (drop_str (String.length prefix) namespaced) c
      else Route rest ups namespaced
  end.

Definition list_of (ups : gmap string Upstream) (upName : string) (c : UpstreamConfig) : list string :=
  match ups !! upName with
  | None => []
  | Some up =>
      match uc_AllowedTools c with
      | [] => []
      | allowed => Namespace upName <$> filter (λ t, matchesAny allowed t = true) (up_Tools up)
      end
  end.

Definition List_ (cfg : list (string * UpstreamConfig)) (ups : gmap string Upstream) : list string :=
  cfg ≫= λ '(upName, c), list_of ups upName c.

(** ** Redaction *)

(** A decoded Go value: JSON as [map[string]any] and [[]any], or a value of some
    other Go type, such as the result struct of the MCP library. *)
Inductive goval : Type :=
| VNil
| VBool (b : bool)
| VNum (literal : string)
| VStr (s : string)
| VMap (m : list (string * goval))
| VArr (l : list goval)
| VOther (what : string).

Definition zeroLike (v : goval) : goval :=
  match v with
  | VStr _ => VStr ""
  | VBool _ => VBool false
  | VNum _ => VNum "0"
  | VMap _ => VMap []
  | VArr _ => VArr []
  | _ => VNil
  end.

Inductive seg : Type :=
| SName (s : string)
| SIndex (i : Z).

Fixpoint span_until (stop : ascii → bool) (s : string) : string * string :=
  match s with
  | EmptyString => (EmptyString, EmptyString)
  | String c r => if stop c then (EmptyString, s) else let '(a, b) := span_until stop r in (String c a, b)
  end.

Inductive redact_err : Type :=
| ENoDollar
| EUnsupported
| EBadPath.

Fixpoint split_loop (fuel : nat) (rest : string) : res redact_err (list seg) :=
  match fuel with
  | O => Err EBadPath
  | S fuel' =>
      match rest with
      | EmptyString => Ok []
      | String "." r =>
          let '(name, r') := span_until (λ c, Ascii.eqb c "." || Ascii.eqb c "[") r in
          match split_loop fuel' r' with Ok segs => Ok (SName name :: segs) | Err e => Err e end
      | String "[" r =>
          match span_until (λ c, Ascii.eqb c "]") r with
          | (_, EmptyString) => Err EBadPath
          | (inner, String _ r') =>
              match scan_int inner with
              | None => Err EBadPath
              | Some i => match split_loop fuel' r' with Ok segs => Ok (SIndex i :: segs) | Err e => Err e end
              end
          end
      | _ => Err EBadPath
      end
  end.

Definition splitPath (p : string) : res redact_err (list seg) :=
  let rest := TrimPrefix p "$" in split_loop (S (String.length rest)) rest.

(** Map access and assignment on the members of a map. *)
Fixpoint mget (k : string) (m : list (string * goval)) : option goval :=
  match m with
  | [] => None
  | (k', v) :: r => if String.eqb k k' then Some v else mget k r
  end.

Fixpoint mset (k : string) (v : goval) (m : list (string * goval)) : list (string * goval) :=
  match m with
  | [] => [(k, v)]
  | (k', v') :: r => if String.eqb k k' then (k, v) :: r else (k', v') :: mset k v r
  end.

(** The walk and the assignment at its end, which changes the tree in place. *)
Fixpoint blank_at (segs : list seg) (tree : goval) : goval :=
  match segs with
  | [] => tree
  | [SName s] =>
      match tree with VMap m => VMap (mset s (zeroLike (default VNil (mget s m))) m) | _ => tree end
  | [SIndex i] =>
      match tree with
      | VArr a => if (i <? 0) || (Z.of_nat (length a) <=? i) then tree
                  else VArr (alter zeroLike (Z.to_nat i) a)
      | _ => tree
      end
  | SName s :: rest =>
      match tree with
      | VMap m => match mget s m with Some v => VMap (mset s (blank_at rest v) m) | None => tree end
      | _ => tree
      end
  | SIndex i :: rest =>
      match tree with
      | VArr a => if (i <? 0) || (Z.of_nat (length a) <=? i) then tree
                  else VArr (alter (blank_at rest) (Z.to_nat i) a)
      | _ => tree
      end
  end.

Section redactor.
(** Whether [jsonpath.Get] finds the path in the tree. *)
  Context (get : string → goval → bool).

Definition redactPath (tree : goval) (path : string) : res redact_err goval :=
  if negb (HasPrefix path "$") then Err ENoDollar
  else if ContainsAny path "*?" then Err EUnsupported
  else if negb (get path tree) then Ok tree
  else match splitPath path with
       | Err e => Err e
       | Ok segs => Ok (blank_at segs tree)
       end.

Fixpoint Apply (tree : goval) (rules : list JSONPathRule) : res redact_err goval :=
  match rules with
  | [] => Ok tree
  | r :: rest => match redactPath tree (JSONPath r) with Err e => Err e | Ok tree' => Apply tree' rest end
  end.

(** ** One call *)

Record AuditEntry : Type := mkAudit {
  au_NamespacedName : string;
  au_Upstream : string;
  au_OriginalName : string;
  au_Allowed : bool;
  au_Error : string;
  au_TaskID : string
}.

Definition MCPErrMethodNotFound : Z := -32601.
Definition MCPErrServerError : Z := -32000.

Definition LogIfEnabled (enabled : bool) (e : AuditEntry) : list AuditEntry := if enabled then [e] else [].

(** The answer, the call made to an upstream (its name, the tool, the arguments)
    and the audit lines. *)
Definition handleToolsCall (route : option Entry) (namespaced taskID : string) (args : goval)
    (call : string → goval → res string goval)
    : res Z goval * list (string * string * goval) * list AuditEntry :=
  match route with
  | None =>
      (Err MCPErrMethodNotFound, [],
       LogIfEnabled true (mkAudit namespaced "" "" false "disallowed or unknown tool" taskID))
  | Some e =>
      let up := en_Upstream e in
      let entry err := mkAudit namespaced (up_Name up) (en_OriginalName e) true err taskID in
      if negb (up_Available up) then
        (Err MCPErrServerError, [], LogIfEnabled (en_Audit e) (entry "unavailable"%string))
      else
        let input := match en_Redaction e with
                     | Some r => match rc_Input r with [] => Ok args | rules => Apply args rules end
                     | None => Ok args
                     end in
        match input with
        | Err _ => (Err MCPErrServerError, [], [])
        | Ok redArgs =>
            let made := [(up_Name up, en_OriginalName e, redArgs)] in
            match call (en_OriginalName e) redArgs with
            | Err err => (Err MCPErrServerError, made, LogIfEnabled (en_Audit e) (entry err))
            | Ok res =>
                let output := match en_Redaction e with
                              | Some r => match rc_Output r with [] => Ok res | rules => Apply res rules end
                              | None => Ok res
                              end in
                match output with
                | Err _ => (Err MCPErrServerError, made, [])
                | Ok res => (Ok res, made, LogIfEnabled (en_Audit e) (entry ""%string))
                end
            end
        end
  end.

End redactor.

(** ** Names *)

Lemma Namespace_prefix up t : Namespace up t = (up +:+ NamespaceSeparator) +:+ t.
Proof. unfold Namespace. by rewrite str_app_assoc. Qed.

(** ** Routing *)

Definition exposed (ups : gmap string Upstream) (upName : string) (c : UpstreamConfig) (t : string) : Prop :=
  ∃ up, ups !! upName = Some up ∧ t ∈ up_Tools up ∧ matchesAny (uc_AllowedTools c) t = true.

Lemma elem_of_list_of ups upName c n :
  n ∈ list_of ups upName c ↔ ∃ t, n = Namespace upName t ∧ exposed ups upName c t.
Proof.
  unfold list_of, exposed. destruct (ups !! upName) as [up|]; [|set_solver].
  destruct (uc_AllowedTools c) as [|p ps].
  { split; [by intros ?%elem_of_nil|]. by intros (t & _ & up' & _ & _ & ?). }
  rewrite list_elem_of_fmap. split.
  - intros (t & -> & [Hm Ht]%list_elem_of_filter). eauto 10.
  - intros (t & -> & up' & [= <-] & Ht & Hm). exists t. split; [done|]. by apply list_elem_of_filter.
Qed.

Lemma contains_elem l x : contains l x = true ↔ x ∈ l.
Proof.
  unfold contains. rewrite existsb_exists. setoid_rewrite <-list_elem_of_In.
  split; [intros (y & Hy & ->%String.eqb_eq); done|]. intros Hx. exists x. by rewrite String.eqb_refl.
Qed.

Lemma route_to_spec ups upName t c e :
  route_to ups upName t c = Some e ↔
    ∃ up, ups !! upName = Some up ∧ t ∈ up_Tools up ∧ matchesAny (uc_AllowedTools c) t = true ∧
      e = mkEntry up t (uc_Redaction c) (default true (uc_Audit c)).
Proof.
  unfold route_to. destruct (ups !! upName) as [up|]; [|naive_solver].
  destruct (uc_AllowedTools c) as [|p ps]; [naive_solver|].
  destruct (contains (up_Tools up) t) eqn:Ec; cbn [andb].
  - apply contains_elem in Ec. destruct (matchesAny (p :: ps) t) eqn:Em.
    + split; [intros [= <-]; eauto 10|by intros (up' & [= <-] & _ & _ & ->)].
    + split; [done|by intros (up' & _ & _ & ? & _)].
  - split; [done|]. intros (up' & [= <-] & Ht%contains_elem & _). congruence.
Qed.

(** A name that routes was asked of a configured upstream that exposes it. *)
Lemma Route_sound cfg ups n e : Route cfg ups n = Some e →
  ∃ upName c, (upName, c) ∈ cfg ∧ n = Namespace upName (en_OriginalName e) ∧
    ups !! upName = Some (en_Upstream e) ∧ exposed ups upName c (en_OriginalName e) ∧
    en_Redaction e = uc_Redaction c ∧ en_Audit e = default true (uc_Audit c).
Proof.
  induction cfg as [|[upName c] cfg IH]; simpl; [done|].
  destruct (HasPrefix n (upName +:+ NamespaceSeparator)) eqn:Ep; simpl.
  - apply HasPrefix_app in Ep as [r ->]. destruct (_ <? _)%nat.
    + rewrite drop_str_app. intros (up & Hu & Ht & Hm & ->)%route_to_spec. exists upName, c. simpl.
      split_and!; [by left|by rewrite Namespace_prefix|done| |done..]. by exists up.
    + intros (u & c' & Hin & Hrest)%IH. exists u, c'. split; [by right|done].
  - intros (u & c' & Hin & Hrest)%IH. exists u, c'. split; [by right|done].
Qed.

(** No prefix of one upstream begins the prefix of another. *)
Definition prefix_free (cfg : list (string * UpstreamConfig)) : Prop :=
  ∀ u1 c1 u2 c2, (u1, c1) ∈ cfg → (u2, c2) ∈ cfg →
    HasPrefix (u1 +:+ NamespaceSeparator) (u2 +:+ NamespaceSeparator) = true → (u1, c1) = (u2, c2).

Lemma Route_complete cfg ups upName c t :
  prefix_free cfg → (upName, c) ∈ cfg → t ≠ ""%string →
  Route cfg ups (Namespace upName t) = route_to ups upName t c.
Proof.
  intros Hpf Hin Ht. rewrite Namespace_prefix.
  assert (Hlen : (String.length (upName +:+ NamespaceSeparator) <?
    String.length ((upName +:+ NamespaceSeparator) +:+ t))%nat = true).
  { apply Nat.ltb_lt. rewrite (str_app_length _ t). destruct t; simpl; [done|lia]. }
  assert (Hgo : ∀ l, (∀ x, x ∈ l → x ∈ cfg) → (upName, c) ∈ l →
    Route l ups ((upName +:+ NamespaceSeparator) +:+ t) = route_to ups upName t c); [|by apply Hgo].
  induction l as [|[u' c'] l IH]; intros Hsub Hl; [by apply elem_of_nil in Hl|]. cbn [Route].
  destruct (HasPrefix _ (u' +:+ NamespaceSeparator)) eqn:Ep; simpl.
  - apply HasPrefix_app in Ep as [r Hr].
    assert ((u', c') = (upName, c)) as [= -> ->].
    { destruct (prefixes_comparable _ _ _ _ Hr) as [Hp|Hp].
      - symmetry. apply (Hpf upName c u' c'); [done|apply Hsub; by left|done].
      - apply (Hpf u' c' upName c); [apply Hsub; by left|done..]. }
    by rewrite Hlen, drop_str_app.
  - apply IH; [intros x Hx; apply Hsub; by right|].
    apply elem_of_cons in Hl as [[= <- <-]|Hl]; [|done].
    rewrite (proj2 (HasPrefix_app _ _)) in Ep by (by exists t). done.
Qed.

(** Listing and routing agree.  With upstream names of which no two share a prefix,
    and in whatever order the configuration is visited, a name is routed exactly
    when it is listed, to the upstream that lists it and under its own name there;
    an upstream without allowed tools exposes none. *)
Theorem route_iff_listed cfg cfg' ups n :
  prefix_free cfg → (∀ u up, ups !! u = Some up → ""%string ∉ up_Tools up) → cfg' ≡ₚ cfg →
  (is_Some (Route cfg' ups n) ↔ n ∈ List_ cfg ups) ∧
  ∀ e, Route cfg' ups n = Some e →
    ∃ u c, (u, c) ∈ cfg ∧ n = Namespace u (en_OriginalName e) ∧ ups !! u = Some (en_Upstream e) ∧
      en_OriginalName e ∈ up_Tools (en_Upstream e) ∧ uc_AllowedTools c ≠ [] ∧
      matchesAny (uc_AllowedTools c) (en_OriginalName e) = true.
Proof.
  intros Hpf Hne Hperm.
  assert (Hpf' : prefix_free cfg').
  { intros u1 c1 u2 c2. rewrite Hperm. apply Hpf. }
  assert (Hsound : ∀ e, Route cfg' ups n = Some e → ∃ u c, (u, c) ∈ cfg ∧
    n = Namespace u (en_OriginalName e) ∧ ups !! u = Some (en_Upstream e) ∧ exposed ups u c (en_OriginalName e)).
  { intros e (u & c & Hin & Hn & Hu & Hx & _)%Route_sound. rewrite Hperm in Hin. eauto 10. }
  split; [split|].
  - intros [e He]. destruct (Hsound e He) as (u & c & Hin & Hn & _ & Hx).
    apply list_elem_of_bind. exists (u, c). split; [|done]. apply elem_of_list_of. eauto.
  - intros ([u c] & (t & -> & up & Hu & Ht & Hm)%elem_of_list_of & Hin)%list_elem_of_bind.
    rewrite (Route_complete cfg' ups u c t); [|done|by rewrite Hperm|].
    + eexists. apply route_to_spec. eauto 10.
    + intros ->. by apply (Hne u up).
  - intros e He. destruct (Hsound e He) as (u & c & Hin & Hn & Hu & up & Hu' & Ht & Hm).
    exists u, c. assert (up = en_Upstream e) as <- by congruence.
    split_and!; [done..|by intros Hz; rewrite Hz in Hm|done].
Qed.

(** ** Dotted paths *)

(** The rule for a chain of member names, [$.a.b.c]. *)
Fixpoint dotted (names : list string) : string :=
  match names with [] => "" | s :: rest => "." +:+ s +:+ dotted rest end.

Definition path_of (names : list string) : string := "$" +:+ dotted names.

(** Names the grammar of the paths reads as such: identifiers. *)
Definition plain_char (c : ascii) : bool := alnum c || Ascii.eqb c "_".

Definition plain (s : string) : Prop :=
  s ≠ ""%string ∧ Forall (λ c, plain_char c = true) (chars s) ∧
  match s with String c _ => is_digit c = false | EmptyString => True end.

Lemma plain_char_not c : plain_char c = true →
  Ascii.eqb c "." = false ∧ Ascii.eqb c "[" = false ∧ Ascii.eqb c "*" = false ∧ Ascii.eqb c "?" = false.
Proof.
  intros Hc. split_and!; apply not_true_iff_false; intros ->%Ascii.eqb_eq; vm_compute in Hc; discriminate.
Qed.

(** The member a chain of names leads to. *)
Fixpoint get_at (names : list string) (tree : goval) : option goval :=
  match names with
  | [] => Some tree
  | s :: rest => match tree with VMap m => v ← mget s m; get_at rest v | _ => None end
  end.

Lemma span_plain s rest : Forall (λ c, plain_char c = true) (chars s) →
  (rest = "" ∨ ∃ r, rest = String "." r)%string →
  span_until (λ c, Ascii.eqb c "." || Ascii.eqb c "[") (s +:+ rest) = (s, rest).
Proof.
  intros Hs Hr. induction s as [|c s IH].
  - destruct Hr as [->|[r ->]]; reflexivity.
  - rewrite str_app_cons. inversion Hs as [|? ? Hc Hs']; subst. cbn [span_until].
    destruct (plain_char_not c Hc) as (-> & -> & _). cbn [orb]. by rewrite IH.
Qed.

Lemma split_dotted names fuel : Forall plain names → (length names < fuel)%nat →
  split_loop fuel (dotted names) = Ok (SName <$> names).
Proof.
  revert fuel. induction names as [|s names IH]; intros fuel Hp Hf.
  { destruct fuel; [lia|done]. }
  destruct fuel as [|fuel]; [simpl in Hf; lia|]. inversion Hp as [|? ? (Hne & Hs & _) Hp']; subst.
  change (dotted (s :: names)) with (String "." (s +:+ dotted names)). cbn [split_loop].
  rewrite span_plain; [|done|destruct names; [by left|right; by eexists]].
  rewrite IH; [done..|simpl in Hf; lia].
Qed.

Lemma dotted_length names : Forall plain names → (length names ≤ String.length (dotted names))%nat.
Proof.
  induction 1 as [|s names [Hne _] _ IH]; [simpl; lia|].
  change (dotted (s :: names)) with (String "." (s +:+ dotted names)).
  cbn [String.length length]. rewrite str_app_length. lia.
Qed.

Lemma splitPath_plain names : Forall plain names → splitPath (path_of names) = Ok (SName <$> names).
Proof.
  intros Hp. unfold splitPath.
  assert (TrimPrefix (path_of names) "$" = dotted names) as ->.
  { unfold TrimPrefix. rewrite (proj2 (HasPrefix_app _ _)) by by eexists. apply (drop_str_app "$"). }
  apply split_dotted; [done|]. pose proof (dotted_length names Hp). lia.
Qed.

(** ** What a rule does *)

Lemma path_of_supported names : Forall plain names →
  HasPrefix (path_of names) "$" = true ∧ ContainsAny (path_of names) "*?" = false.
Proof.
  intros Hp. split; [apply HasPrefix_app; by eexists|].
  assert (Forall (λ c, existsb (Ascii.eqb c) (chars "*?") = false) (chars (path_of names))) as Hf.
  { unfold path_of. rewrite chars_app. constructor; [done|].
    induction Hp as [|s names (_ & Hs & _) _ IH]; [constructor|].
    change (dotted (s :: names)) with (String "." (s +:+ dotted names)).
    constructor; [done|]. rewrite chars_app. apply Forall_app. split; [|exact IH].
    eapply Forall_impl; [exact Hs|]. intros c Hc. simpl.
    by destruct (plain_char_not c Hc) as (_ & _ & -> & ->). }
  unfold ContainsAny. induction Hf as [|c cs Hc _ IH]; [done|]. cbn [existsb]. by rewrite Hc, IH.
Qed.

Lemma mget_mset k k' v m : mget k (mset k' v m) = if decide (k = k') then Some v else mget k m.
Proof.
  induction m as [|[k0 v0] m IH]; simpl.
  - destruct (String.eqb_spec k k'); by case_decide.
  - destruct (String.eqb_spec k' k0) as [->|Hne]; simpl.
    + destruct (String.eqb_spec k k0); by case_decide.
    + rewrite IH. destruct (String.eqb_spec k k0) as [->|]; [|done]. by rewrite decide_False by congruence.
Qed.

Lemma zeroLike_idem v : zeroLike (zeroLike v) = zeroLike v.
Proof. by destruct v. Qed.

(** Nothing but a zero value is left at the path, if anything. *)
Definition blanked (names : list string) (tree : goval) : Prop :=
  ∀ v, get_at names tree = Some v → zeroLike v = v.

Notation redact names := (blank_at (SName <$> names)).

(** One step of the walk. *)
Lemma redact_cons s names m v : names ≠ [] → mget s m = Some v →
  redact (s :: names) (VMap m) = VMap (mset s (redact names v) m).
Proof. destruct names as [|s' names]; [done|]. intros _ Hv. simpl. by rewrite Hv. Qed.

Lemma get_at_cons s names tree v : get_at (s :: names) tree = Some v →
  ∃ m v', tree = VMap m ∧ mget s m = Some v' ∧ get_at names v' = Some v.
Proof.
  destruct tree; simpl; try done. destruct (mget s m) as [v'|] eqn:E; [|done]. simpl. eauto.
Qed.

Lemma get_at_zero p v x : p ≠ [] → get_at p (zeroLike v) = Some x → False.
Proof. destruct p; [done|]. by destruct v. Qed.

Lemma redact_blanks names tree : names ≠ [] → is_Some (get_at names tree) →
  blanked names (redact names tree).
Proof.
  intros Hne. revert tree. induction names as [|s names IH]; intros tree [v Hv]; [done|].
  apply get_at_cons in Hv as (m & v' & -> & Hm & Hv). destruct names as [|s' names].
  - intros x. simpl. rewrite Hm, mget_mset, decide_True by done. intros [= <-]. apply zeroLike_idem.
  - rewrite (redact_cons s (s' :: names) m v') by done. intros x Hx.
    apply get_at_cons in Hx as (m' & v2 & [= <-] & Hm' & Hx).
    rewrite mget_mset, decide_True in Hm' by done. injection Hm' as <-.
    by apply (IH ltac:(done) v' ltac:(by eexists)).
Qed.

(** A rule leaves what earlier rules blanked blank. *)
Lemma redact_keeps_blank p q tree : p ≠ [] → q ≠ [] → is_Some (get_at q tree) →
  blanked p tree → blanked p (redact q tree).
Proof.
  intros Hp. revert q tree. induction p as [|a p IH]; intros q tree Hq [v Hv] Hb; [done|].
  destruct q as [|b q]; [done|]. apply get_at_cons in Hv as (m & v' & -> & Hm & Hv).
  assert (Hsub : ∃ w, redact (b :: q) (VMap m) = VMap (mset b w m) ∧
    w = if decide (q = []) then zeroLike v' else redact q v').
  { destruct q as [|b' q]; [exists (zeroLike v'); simpl; by rewrite Hm|].
    eexists. split; [by apply redact_cons|]. by rewrite decide_False. }
  destruct Hsub as (w & -> & Hw). intros x Hx. apply get_at_cons in Hx as (m' & v2 & [= <-] & Hm2 & Hx).
  rewrite mget_mset in Hm2. case_decide as Hab.
  - subst b. injection Hm2 as <-. destruct (decide (q = [])) as [->|Hq'].
    + subst w. destruct p as [|a' p]; [injection Hx as <-; apply zeroLike_idem|].
      by apply get_at_zero in Hx.
    + destruct (decide (p = [])) as [->|Hp'].
      * exfalso. specialize (Hb v'). cbn in Hb. rewrite Hm in Hb. specialize (Hb eq_refl).
        rewrite <-Hb in Hv. by apply get_at_zero in Hv.
      * subst w. apply (IH Hp' q v' Hq' ltac:(by eexists)); [|done].
        intros y Hy. apply Hb. cbn. by rewrite Hm.
  - apply Hb. cbn. by rewrite Hm2.
Qed.

(** A rule leaves every path alone that its own does not meet. *)
Lemma redact_untouched p q tree : is_Some (get_at q tree) →
  ¬ q `prefix_of` p → ¬ p `prefix_of` q → get_at p (redact q tree) = get_at p tree.
Proof.
  revert p tree. induction q as [|b q IH]; intros p tree [v Hv] Hqp Hpq.
  { destruct Hqp. apply prefix_nil. }
  destruct p as [|a p]; [destruct Hpq; apply prefix_nil|].
  apply get_at_cons in Hv as (m & v' & -> & Hm & Hv).
  destruct (decide (a = b)) as [->|Hab].
  - destruct q as [|b' q]; [destruct Hqp; apply prefix_cons, prefix_nil|].
    rewrite (redact_cons b (b' :: q) m v') by done. cbn [get_at]. rewrite mget_mset, decide_True, Hm by done.
    simpl. apply IH; [by eexists|..]; intros Hpre; [destruct Hqp|destruct Hpq]; by apply prefix_cons.
  - assert (∃ w, redact (b :: q) (VMap m) = VMap (mset b w m)) as [w ->].
    { destruct q as [|b' q]; [eexists; simpl; by rewrite Hm|]. eexists. by apply redact_cons. }
    cbn [get_at]. by rewrite mget_mset, decide_False by done.
Qed.

Section redaction.
  Context (get : string → goval → bool).
(** What the code relies on: for a path of identifiers, [jsonpath.Get] succeeds exactly
    when the members are there. *)
  Context (get_dotted : ∀ names tree, Forall plain names →
    get (path_of names) tree = true ↔ is_Some (get_at names tree)).

Definition path_rules (paths : list (list string)) : list JSONPathRule := mkPathRule ∘ path_of <$> paths.

Definition redactable (names : list string) : Prop := names ≠ [] ∧ Forall plain names.

Lemma redactPath_dotted tree names : redactable names →
  ∃ tree', redactPath get tree (path_of names) = Ok tree' ∧
    ((is_Some (get_at names tree) ∧ tree' = redact names tree) ∨
     (get_at names tree = None ∧ tree' = tree)).
Proof.
  intros [Hne Hp]. unfold redactPath. destruct (path_of_supported names Hp) as [-> ->]. cbn [negb].
  rewrite splitPath_plain by done. destruct (get (path_of names) tree) eqn:Eg; simpl.
  - apply get_dotted in Eg; [|done]. eauto.
  - exists tree. split; [done|right]. split; [|done]. destruct (get_at names tree) eqn:E; [|done].
    rewrite (proj2 (get_dotted names tree Hp)) in Eg; [done|by eexists].
Qed.

(** Applied in sequence, rules never undo each other. *)
Lemma Apply_paths paths tree (done_ : list (list string)) :
  Forall redactable paths → Forall redactable done_ → (∀ p, p ∈ done_ → blanked p tree) →
  ∃ tree', Apply get tree (path_rules paths) = Ok tree' ∧
    (∀ p, p ∈ done_ ++ paths → blanked p tree') ∧
    ∀ p, (∀ q, q ∈ paths → ¬ q `prefix_of` p ∧ ¬ p `prefix_of` q) → get_at p tree' = get_at p tree.
Proof.
  intros Hp. revert tree done_. induction Hp as [|q paths Hq Hp IH]; intros tree done_ Hd Hb.
  { exists tree. rewrite app_nil_r. by split_and!. }
  cbn [path_rules fmap list_fmap Apply]. cbn [JSONPath compose].
  destruct (redactPath_dotted tree q Hq) as (tree1 & Hr & Hcase). unfold compose at 1. simpl. rewrite Hr.
  assert (Hb1 : ∀ p, p ∈ done_ ++ [q] → blanked p tree1).
  { intros p Hin. destruct Hcase as [[Hs ->]|[Hn ->]]; apply elem_of_app in Hin as [Hin| ->%list_elem_of_singleton].
    - rewrite Forall_forall in Hd. destruct (Hd p Hin). apply redact_keeps_blank; [done|apply Hq|done|by apply Hb].
    - apply redact_blanks; [apply Hq|done].
    - by apply Hb.
    - intros v Hv. congruence. }
  destruct (IH tree1 (done_ ++ [q])) as (tree' & Ha & Hbl & Hun); [by apply Forall_app; split; [|constructor]|done|].
  exists tree'. split; [exact Ha|]. split.
  - intros p. rewrite <-(app_assoc done_ [q] paths) in Hbl. apply Hbl.
  - intros p Hmiss. rewrite Hun by (intros q' Hq'; apply Hmiss; by right).
    destruct Hcase as [[Hs ->]|[_ ->]]; [|done].
    destruct (Hmiss q) as [H1 H2]; [by left|]. by apply redact_untouched.
Qed.

(** Redaction is complete and contained.  Applying any list of dotted rules to a
    decoded document succeeds; afterwards nothing but a zero value is left at any of
    the paths, whatever the order of the rules, and every path that meets none of
    them reads as before. *)
Theorem redaction_complete paths tree :
  Forall redactable paths →
  ∃ tree', Apply get tree (path_rules paths) = Ok tree' ∧
    (∀ p, p ∈ paths → blanked p tree') ∧
    ∀ p, (∀ q, q ∈ paths → ¬ q `prefix_of` p ∧ ¬ p `prefix_of` q) → get_at p tree' = get_at p tree.
Proof.
  intros Hp. destruct (Apply_paths paths tree [] Hp) as (tree' & Ha & Hb & Hu); [constructor|set_solver|].
  by exists tree'.
Qed.

End redaction.

(** ** Calls *)

(** The rules that are documented as supported: member names that are identifiers, and
    indexes. *)
Definition supportedRe : re :=
  let name := RSeq (RClass (λ c, plain_char c && negb (is_digit c))) (RStar (RClass plain_char)) in
  let index := RSeq (lit "[") (RSeq (many1 (RClass is_digit)) (lit "]")) in
  RSeq (lit "$") (many1 (RAlt (RSeq (lit ".") name) index)).

(** What is at the end of a walk. *)
Fixpoint get_segs (segs : list seg) (tree : goval) : option goval :=
  match segs with
  | [] => Some tree
  | SName s :: rest => match tree with VMap m => v ← mget s m; get_segs rest v | _ => None end
  | SIndex i :: rest =>
      match tree with
      | VArr a => if (i <? 0) || (Z.of_nat (length a) <=? i) then None else v ← a !! Z.to_nat i; get_segs rest v
      | _ => None
      end
  end.

(** A value that carries no data: zero values, and maps and arrays of such. *)
Fixpoint bare (v : goval) : Prop :=
  match v with
  | VNil => True
  | VBool b => b = false
  | VNum l => l = "0"%string
  | VStr s => s = ""%string
  | VMap m => (fix all (m : list (string * goval)) : Prop := match m with [] => True | (_, x) :: r => bare x ∧ all r end) m
  | VArr l => (fix all (l : list goval) : Prop := match l with [] => True | x :: r => bare x ∧ all r end) l
  | VOther _ => False
  end.

Definition bare_at (segs : list seg) (tree : goval) : Prop := ∀ v, get_segs segs tree = Some v → bare v.

Lemma bare_mget k v m : bare (VMap m) → mget k m = Some v → bare v.
Proof.
  induction m as [|[k' x] m IH]; [done|]. intros [Hx Hm]. cbn [mget].
  destruct (String.eqb k k'); [by intros [= <-]|by apply IH].
Qed.

Lemma bare_mset k v m : bare (VMap m) → bare v → bare (VMap (mset k v m)).
Proof.
  induction m as [|[k' x] m IH]; [by split|]. intros [Hx Hm] Hv. cbn [mset].
  destruct (String.eqb k k'); [by split|]. split; [done|by apply IH].
Qed.

Lemma bare_alter f i l : bare (VArr l) → (∀ v, bare v → bare (f v)) → bare (VArr (alter f i l)).
Proof.
  intros Hl Hf. revert i. induction l as [|x l IH]; intros i; [done|]. destruct Hl as [Hx Hl].
  destruct i as [|i]; (split; [|]); auto. by apply IH.
Qed.

Lemma bare_zeroLike v : bare (zeroLike v).
Proof. by destruct v. Qed.

Lemma get_segs_zero p v x : p ≠ [] → get_segs p (zeroLike v) = Some x → False.
Proof.
  destruct p as [|[s|i] p]; [done|..]; intros _; destruct v; try done. cbn [zeroLike get_segs length].
  destruct (Z.ltb_spec i 0); [done|]. destruct (Z.leb_spec (Z.of_nat 0) i); [done|lia].
Qed.

(** Blanking puts no data anywhere. *)
Lemma blank_bare segs : ∀ v, bare v → bare (blank_at segs v).
Proof.
  induction segs as [|sg segs IH]; intros v Hv; [done|].
  destruct sg as [s|i], segs as [|sg' segs], v as [| | | |m|a|]; try done; cbn [blank_at].
  - apply bare_mset; [done|apply bare_zeroLike].
  - destruct (mget s m) as [x|] eqn:E; [|done]. apply bare_mset; [done|]. apply IH. by eapply bare_mget.
  - destruct (_ || _); [done|]. apply bare_alter; [done|]. intros. apply bare_zeroLike.
  - destruct (_ || _); [done|]. apply bare_alter; [done|]. by apply IH.
Qed.

(** The slot a segment names, and what blanking does to each. *)
Lemma blank_slot sg segs tree sg' p v :
  get_segs (sg' :: p) (blank_at (sg :: segs) tree) = Some v →
  get_segs (sg' :: p) tree = Some v ∨
  (sg' = sg ∧ segs = [] ∧ ∃ x, get_segs p (zeroLike x) = Some v) ∨
  (sg' = sg ∧ segs ≠ [] ∧ ∃ x, (∀ y, get_segs p x = Some y → get_segs (sg' :: p) tree = Some y) ∧
     get_segs p (blank_at segs x) = Some v).
Proof.
  destruct sg as [s|i], segs as [|sg2 segs], tree as [| | | |m|a|]; try (by left); cbn [blank_at].
  - destruct sg' as [s'|i']; [|done]. cbn [get_segs]. rewrite mget_mset. case_decide as E; [|by left].
    intros Hv. right; left. subst. split_and!; [done..|]. by eexists.
  - destruct (mget s m) as [x|] eqn:Em; [|by left]. destruct sg' as [s'|i']; [|done]. cbn [get_segs].
    rewrite mget_mset. case_decide as E; [|by left]. intros Hv. right; right. subst. split_and!; [done..|].
    exists x. rewrite Em. by split.
  - destruct (_ || _) eqn:Er; [by left|]. destruct sg' as [s'|i']; [done|]. cbn [get_segs]. rewrite length_alter.
    destruct ((i' <? 0) || _) eqn:Er'; [done|]. destruct (decide (i' = i)) as [->|Hne].
    + rewrite list_lookup_alter_eq. destruct (a !! Z.to_nat i) as [x|]; [|done]. intros Hv. right; left. split_and!; [done..|]. by exists x.
    + rewrite list_lookup_alter_ne by lia. by left.
  - destruct (_ || _) eqn:Er; [by left|]. destruct sg' as [s'|i']; [done|]. cbn [get_segs]. rewrite length_alter.
    destruct ((i' <? 0) || _) eqn:Er'; [done|]. destruct (decide (i' = i)) as [->|Hne].
    + rewrite list_lookup_alter_eq. destruct (a !! Z.to_nat i) as [x|]; [|done]. intros Hv. right; right.
      split_and!; [done..|]. by exists x.
    + rewrite list_lookup_alter_ne by lia. by left.
Qed.

(** A rule leaves bare what was, and what it names. *)
Lemma blank_keeps p : ∀ segs tree, bare_at p tree → bare_at p (blank_at segs tree).
Proof.
  induction p as [|sg' p IH]; intros segs tree Hb v Hv.
  { injection Hv as <-. apply blank_bare. by apply Hb. }
  destruct segs as [|sg segs]; [by apply Hb|].
  apply blank_slot in Hv as [Hv|[(-> & -> & x & Hv)|(-> & Hne & x & Hx & Hv)]].
  - by apply Hb.
  - destruct p as [|]; [|by apply get_segs_zero in Hv]. injection Hv as <-. apply bare_zeroLike.
  - apply (IH segs x); [|done]. intros y Hy. by apply Hb, Hx.
Qed.

Lemma blank_blanks segs : ∀ tree, segs ≠ [] → bare_at segs (blank_at segs tree).
Proof.
  induction segs as [|sg segs IH]; intros tree Hne v Hv; [done|].
  destruct segs as [|sg2 segs].
  - destruct sg as [s|i], tree as [| | | |m|a|]; try done; cbn [blank_at get_segs] in Hv.
    + rewrite mget_mset, decide_True in Hv by done. injection Hv as <-. apply bare_zeroLike.
    + destruct (_ || _) eqn:Er; [by rewrite Er in Hv|]. rewrite length_alter, Er, list_lookup_alter_eq in Hv.
      destruct (a !! _); [|done]. injection Hv as <-. apply bare_zeroLike.
  - destruct sg as [s|i], tree as [| | | |m|a|]; try done; cbn [blank_at] in Hv.
    + destruct (mget s m) as [x|] eqn:Em; cbn [get_segs] in Hv.
      * rewrite mget_mset, decide_True in Hv by done. by apply (IH x).
      * by rewrite Em in Hv.
    + destruct (_ || _) eqn:Er; cbn [get_segs] in Hv; [by rewrite Er in Hv|].
      rewrite length_alter, Er, list_lookup_alter_eq in Hv. destruct (a !! _) as [x|]; [|done]. by apply (IH x).
Qed.

Section calls.
  Context (get : string → goval → bool).
(** What the code relies on: a path of a documented shape is found when something is
    there. *)
  Context (get_found : ∀ path segs tree, MatchString supportedRe path = true → splitPath path = Ok segs →
    is_Some (get_segs segs tree) → get path tree = true).

(** Every rule of a documented shape has left nothing but bare values at its path. *)
Definition redacted (rules : list JSONPathRule) (tree : goval) : Prop :=
  ∀ r segs, r ∈ rules → MatchString supportedRe (JSONPath r) = true → splitPath (JSONPath r) = Ok segs →
    segs ≠ [] → bare_at segs tree.

Lemma redactPath_bare tree path tree' p :
  redactPath get tree path = Ok tree' → bare_at p tree → bare_at p tree'.
Proof.
  unfold redactPath. intros Hr Hb. repeat case_match; simplify_eq; [done|]. by apply blank_keeps.
Qed.

Lemma redactPath_redacts tree path tree' segs :
  redactPath get tree path = Ok tree' → MatchString supportedRe path = true → splitPath path = Ok segs →
  segs ≠ [] → bare_at segs tree'.
Proof.
  unfold redactPath. intros Hr Hs Hp Hne. destruct (negb (HasPrefix path "$")); [done|].
  destruct (ContainsAny path "*?"); [done|]. destruct (get path tree) eqn:Eg; cbn [negb] in Hr.
  - rewrite Hp in Hr. injection Hr as <-. by apply blank_blanks.
  - injection Hr as <-. intros v Hv. rewrite (get_found path segs) in Eg; [done|done|done|by eexists].
Qed.

Lemma Apply_redacted rules : ∀ tree tree', Apply get tree rules = Ok tree' →
  redacted rules tree' ∧ ∀ p, bare_at p tree → bare_at p tree'.
Proof.
  induction rules as [|r rules IH]; cbn [Apply]; intros tree tree' Ha.
  { injection Ha as <-. split; [|done]. by intros r segs ?%elem_of_nil. }
  destruct (redactPath get tree (JSONPath r)) as [tree1|] eqn:Er; [|done]. destruct (IH _ _ Ha) as [Hr Hk]. split.
  - intros r' segs [->|Hin]%elem_of_cons Hs Hp Hne; [|by eapply Hr].
    apply Hk. by eapply redactPath_redacts.
  - intros p Hp. apply Hk. by eapply redactPath_bare.
Qed.

(** C29. Only exposed tools are called, with their arguments redacted.  A call reaches an
    upstream only under a name that is listed, on an upstream that is available, and
    at most once.  The arguments it is given are the caller's when the upstream has no
    redaction section; otherwise they are what the input rules make of them, and at the
    path of every rule of a documented shape (names that are identifiers, and
    indexes) nothing is left but empty values; rules of other shapes, which the code
    may skip, do not undo this.  A name that does not route is answered with method
    not found, and leaves an audit line. *)
Theorem calls_are_exposed_and_redacted cfg ups n taskID args call r calls audits :
  handleToolsCall get (Route cfg ups n) n taskID args call = (r, calls, audits) →
  (calls = [] ∨ ∃ u c up tool a, calls = [(up_Name up, tool, a)] ∧ n = Namespace u tool ∧
     (u, c) ∈ cfg ∧ ups !! u = Some up ∧ n ∈ List_ cfg ups ∧ up_Available up = true ∧
     match uc_Redaction c with
     | None => a = args
     | Some rc => Apply get args (rc_Input rc) = Ok a ∧ redacted (rc_Input rc) a
     end) ∧
  (Route cfg ups n = None → r = Err MCPErrMethodNotFound ∧
     ∃ e, audits = [e] ∧ au_Allowed e = false ∧ au_NamespacedName e = n).
Proof.
  unfold handleToolsCall. destruct (Route cfg ups n) as [e|] eqn:Er.
  2: { intros [= <- <- <-]. split; [by left|]. intros _. split; [done|]. by eexists. }
  intros Hcall. split; [|done]. apply Route_sound in Er as (u & c & Hin & Hn & Hu & Hx & Hre & _).
  assert (Hl : n ∈ List_ cfg ups).
  { apply list_elem_of_bind. exists (u, c). split; [|done]. apply elem_of_list_of. eauto. }
  destruct (up_Available (en_Upstream e)) eqn:Hav; cbn [negb] in Hcall; [|injection Hcall as _ <- _; by left].
  rewrite Hre in Hcall. match type of Hcall with context [match ?i with Ok _ => _ | Err _ => _ end] => set (input := i) in Hcall end.
  destruct input as [a|] eqn:Ei; [|injection Hcall as _ <- _; by left]. right.
  exists u, c, (en_Upstream e), (en_OriginalName e), a. split_and!; try done.
  - destruct (call _ a) as [res|]; [|by injection Hcall as _ <- _]. by repeat case_match; simplify_eq.
  - subst input. destruct (uc_Redaction c) as [rc|]; [|congruence].
    assert (Ha : Apply get args (rc_Input rc) = Ok a) by (by destruct (rc_Input rc)).
    split; [done|]. by apply (Apply_redacted _ _ _ Ha).
Qed.

End calls.

(** Results of the MCP library are not redacted.  A result that is not a decoded
    document, as the library's result struct is not, passes through every output
    rule with member names unchanged, whatever [jsonpath.Get] makes of it, and is
    returned as it came. *)
Theorem struct_results_pass_through get paths what :
  Forall redactable paths → Apply get (VOther what) (path_rules paths) = Ok (VOther what).
Proof.
  induction 1 as [|q paths [Hne Hp] _ IH]; [done|]. cbn. unfold redactPath.
  destruct (path_of_supported q Hp) as [-> ->]. cbn [negb]. destruct (get _ _); [|exact IH]. cbn [negb].
  rewrite splitPath_plain by done. destruct q as [|s [|s' q]]; [done|exact IH..].
Qed.

(** ** Concrete configurations *)

Definition ex_up (tools : list string) : Upstream := mkUpstream "k8s" true tools.

Definition ex_upcfg (allowed : list string) (r : option RedactionConfig) : UpstreamConfig :=
  mkUpstreamConfig "http://k8s" "sse" allowed r None.

(** One upstream's name continues another's: the order of the map decides. *)
Theorem overlapping_names_depend_on_order :
  ∃ cfg cfg' ups n, cfg' ≡ₚ cfg ∧ n ∈ List_ cfg ups ∧ is_Some (Route cfg ups n) ∧ Route cfg' ups n = None.
Proof.
  set (a := ("k8s"%string, ex_upcfg ["get_*"%string] None)).
  set (b := ("k8s__eu"%string, ex_upcfg ["*"%string] None)).
  exists [b; a], [a; b], {["k8s"%string := ex_up ["get_pods"%string]; "k8s__eu"%string := ex_up ["list"%string]]},
    "k8s__eu__list"%string.
  split_and!; [apply perm_swap|vm_compute; by left|vm_compute; by eexists|vm_compute; done].
Qed.

(** A slice in a rule is read as its first index. *)
Theorem slice_rule_takes_first :
  splitPath "$.items[0:2].token" = Ok [SName "items"; SIndex 0; SName "token"].
Proof. reflexivity. Qed.

(** An upstream as [NewMCPUpstream] leaves it: without its tools when the transport,
    the handshake or the listing fails. *)
Definition NewMCPUpstream (name : string) (listed : option (list string)) : Upstream :=
  match listed with
  | None => mkUpstream name false []
  | Some tools => mkUpstream name true tools
  end.

(** An upstream that could not be reached at the start has no tools, so a call to it
    is answered as an unknown tool and not as an unavailable upstream. *)
Theorem unreachable_is_unknown get cfg ups u t taskID args call :
  prefix_free cfg → (∃ c, (u, c) ∈ cfg) → ups !! u = Some (NewMCPUpstream u None) → t ≠ ""%string →
  (handleToolsCall get (Route cfg ups (Namespace u t)) (Namespace u t) taskID args call).1.1 =
    Err MCPErrMethodNotFound.
Proof.
  intros Hpf [c Hin] Hu Ht. rewrite (Route_complete cfg ups u c t) by done.
  unfold route_to. rewrite Hu. by destruct (uc_AllowedTools c).
Qed.

(** A path finder for the examples: member names only. *)
Definition ex_get (path : string) (tree : goval) : bool :=
  match splitPath path with
  | Ok segs =>
      match mapM (λ s, match s with SName n => Some n | SIndex _ => None end) segs with
      | Some names => match get_at names tree with Some _ => true | None => false end
      | None => false
      end
  | Err _ => false
  end.

Lemma ex_get_dotted names tree : Forall plain names →
  ex_get (path_of names) tree = true ↔ is_Some (get_at names tree).
Proof.
  intros Hp. unfold ex_get. rewrite splitPath_plain by done.
  assert (mapM (λ s, match s with SName n => Some n | SIndex _ => None end) (SName <$> names) = Some names) as ->.
  { by apply mapM_fmap_Some. }
  destruct (get_at names tree); [split; [by eexists|done]|split; [done|by intros [? ?]]].
Qed.

Definition ex_tree : goval :=
  VMap [("auth", VMap [("token", VStr "secret"); ("user", VStr "u")]); ("ns", VStr "default")]%string.

Definition ex_paths : list (list string) := [["auth"; "token"]; ["missing"]]%string.

Lemma ex_paths_ok : Forall redactable ex_paths.
Proof.
  repeat (constructor; [split; [done|repeat (constructor; [split; [done|split; [by repeat constructor|done]]|]); constructor]|]).
  constructor.
Qed.

Lemma redaction_complete_witness :
  ∃ tree', Apply ex_get ex_tree (path_rules ex_paths) = Ok tree' ∧
    (∀ p, p ∈ ex_paths → blanked p tree') ∧
    ∀ p, (∀ q, q ∈ ex_paths → ¬ q `prefix_of` p ∧ ¬ p `prefix_of` q) → get_at p tree' = get_at p ex_tree.
Proof. apply (redaction_complete ex_get ex_get_dotted ex_paths ex_tree ex_paths_ok). Defined.

Definition ex_cfg : list (string * UpstreamConfig) :=
  [("k8s"%string, ex_upcfg ["get_*"%string] (Some (mkRedaction (path_rules ex_paths) [])))].

Definition ex_ups : gmap string Upstream := {["k8s"%string := ex_up ["get_pods"; "delete"]%string]}.

Lemma ex_cfg_prefix_free : prefix_free ex_cfg.
Proof. intros u1 c1 u2 c2 H1%list_elem_of_singleton H2%list_elem_of_singleton _. congruence. Qed.

Lemma route_iff_listed_witness :
  (is_Some (Route ex_cfg ex_ups "k8s__get_pods") ↔ "k8s__get_pods"%string ∈ List_ ex_cfg ex_ups).
Proof.
  apply (route_iff_listed ex_cfg ex_cfg ex_ups "k8s__get_pods"); [exact ex_cfg_prefix_free| |done].
  unfold ex_ups. intros u up [<- <-]%lookup_singleton_Some. simpl. set_solver.
Defined.

(** A library that finds what is there, by names and indexes. *)
Definition ex_find (path : string) (tree : goval) : bool :=
  match splitPath path with
  | Ok segs => match get_segs segs tree with Some _ => true | None => false end
  | Err _ => false
  end.

Lemma ex_find_found path segs tree : MatchString supportedRe path = true → splitPath path = Ok segs →
  is_Some (get_segs segs tree) → ex_find path tree = true.
Proof. intros _ Hp [v Hv]. unfold ex_find. by rewrite Hp, Hv. Qed.

Definition ex_rules : list JSONPathRule := [mkPathRule "$.auth[0].token"; mkPathRule "$.api-key"].

Definition ex_indexed : list (string * UpstreamConfig) :=
  [("k8s"%string, ex_upcfg ["get_*"%string] (Some (mkRedaction ex_rules [])))].

Definition ex_args : goval := VMap [("auth", VArr [VMap [("token", VStr "secret")]])]%string.

Lemma calls_are_exposed_and_redacted_witness :
  MatchString supportedRe "$.auth[0].token" = true ∧
  let calls := (handleToolsCall ex_find (Route ex_indexed ex_ups "k8s__get_pods") "k8s__get_pods" "t1" ex_args
                  (λ _ _, Ok VNil)).1.2 in
  ∃ up tool a, calls = [(up_Name up, tool, a)] ∧ redacted ex_rules a.
Proof.
  split; [vm_compute; reflexivity|].
  destruct (handleToolsCall ex_find (Route ex_indexed ex_ups "k8s__get_pods") "k8s__get_pods" "t1" ex_args
              (λ _ _, Ok VNil)) as [[r calls] audits] eqn:E. cbn [fst snd].
  destruct (calls_are_exposed_and_redacted ex_find ex_find_found ex_indexed ex_ups "k8s__get_pods" "t1" ex_args
    (λ _ _, Ok VNil) r calls audits E) as [[Hc|(u & c & up & tool & a & Hc & _ & Hin & _ & _ & _ & Ha)] _].
  - exfalso. vm_compute in E. injection E as _ E _. rewrite <-E in Hc. discriminate.
  - apply list_elem_of_singleton in Hin. injection Hin as -> ->. exists up, tool, a. split; [exact Hc|exact (proj2 Ha)].
Defined.

Lemma struct_results_pass_through_witness :
  Apply ex_get (VOther "CallToolResult") (path_rules ex_paths) = Ok (VOther "CallToolResult").
Proof. apply (struct_results_pass_through ex_get ex_paths "CallToolResult" ex_paths_ok). Defined.
