(* ===== verification/ProxyServer.v ===== *)
(** * The tool proxy as a process
      (src/kapeproxy/cmd/kapeproxy/main.go, src/kapeproxy/internal/proxy: server.go,
      upstream.go, router.go)

    The process dials its upstreams once, then answers JSON-RPC requests until it
    shuts down.  [start_upstreams] is the dialling, [mcpHandler] one request over the
    routing and the call of [Proxy], [Server_Shutdown] the end.  What an upstream answers to
    the handshake and to a call is an argument. *)

From Stdlib Require Import Ascii String ZArith.
From S2P Require Import Prelude GoStrings Proxy.
From stdpp Require Import base list strings numbers gmap.
Local Open Scope Z_scope.

(** ** The upstreams *)

Definition newTransport (transportType url : string) : option (string * string) :=
  if String.eqb transportType "sse" || String.eqb transportType "streamable-http"
  then Some (transportType, url) else None.

(** The handshake and the listing with one upstream; no transport, no handshake. *)
Definition dialled (answer : string → string → option (list string)) (c : UpstreamConfig) : option (list string) :=
  '(transport, url) ← newTransport (uc_Transport c) (uc_URL c); answer transport url.

Definition start_upstreams (answer : string → string → option (list string)) (cfg : list (string * UpstreamConfig)) :
    gmap string Upstream :=
  foldl (λ ups '(name, c), <[name := NewMCPUpstream name (dialled answer c)]> ups) ∅ cfg.

(** An upstream with its session; [None] for a session that was never made. *)
Definition CallToolCtx (up : Upstream) (session : option (string → goval → res string goval)) (tool : string) (args : goval) :
    res string goval :=
  match session with
  | Some call => if up_Available up then call tool args else Err "unavailable"
  | None => Err "unavailable"
  end.

Definition upstream_Close (up : Upstream) : Upstream := mkUpstream (up_Name up) false (up_Tools up).

(** The listener drains first; when that fails the upstreams stay as they are. *)
Definition Server_Shutdown (drained : bool) (ups : gmap string Upstream) : bool * gmap string Upstream :=
  if drained then (true, upstream_Close <$> ups) else (false, ups).

(** ** Requests *)

Record jsonrpcRequest : Type := mkRpc { rq_ID : goval; rq_Method : string; rq_Params : list (string * goval) }.

Inductive jsonrpcResponse : Type :=
| RpcResult (id result : goval)
| RpcError (id : goval) (code : Z).

Definition handleToolsList (cfg : list (string * UpstreamConfig)) (ups : gmap string Upstream) : list string :=
  List_ cfg ups.

Definition tools_result (names : list string) : goval :=
  VMap [("tools"%string, VArr ((λ n, VMap [("name"%string, VStr n)]) <$> names))].

(** A name that is not a string is the empty one; arguments that are not an object
    are a map without members. *)
Definition param_name (params : list (string * goval)) : string :=
  match mget "name" params with Some (VStr s) => s | _ => "" end.

Definition param_arguments (params : list (string * goval)) : goval :=
  match mget "arguments" params with Some (VMap m) => VMap m | _ => VMap [] end.

Section Server.
(** [jsonpath.Get] as redaction uses it, and the sessions of the upstreams. *)
Variable get : string → goval → bool.
Variable sessions : string → option (string → goval → res string goval).

(** The session a routed call goes to. *)
Definition upstream_call (e : option Entry) : string → goval → res string goval :=
  match e with
  | Some e => CallToolCtx (en_Upstream e) (sessions (up_Name (en_Upstream e)))
  | None => λ _ _, Err ""
  end.

(** One request; [order] is the configuration in the order the router visits it, and
    [None] is a body that does not decode. *)
Definition mcpHandler (cfg order : list (string * UpstreamConfig)) (ups : gmap string Upstream) (taskID : string)
    (req : option jsonrpcRequest) : jsonrpcResponse * list (string * string * goval) * list AuditEntry :=
  match req with
  | None => (RpcError VNil MCPErrServerError, [], [])
  | Some req =>
      if String.eqb (rq_Method req) "tools/list" then
        (RpcResult (rq_ID req) (tools_result (handleToolsList cfg ups)), [], [])
      else if String.eqb (rq_Method req) "tools/call" then
        let name := param_name (rq_Params req) in
        let route := Route order ups name in
        let '(out, calls, audits) :=
          handleToolsCall get route name taskID (param_arguments (rq_Params req)) (upstream_call route) in
        (match out with Ok r => RpcResult (rq_ID req) r | Err code => RpcError (rq_ID req) code end, calls, audits)
      else (RpcError (rq_ID req) MCPErrMethodNotFound, [], [])
  end.

(** ** What a client of the proxy sees *)

Lemma start_lookup answer cfg name up :
  start_upstreams answer cfg !! name = Some up →
  ∃ c, (name, c) ∈ cfg ∧ up = NewMCPUpstream name (dialled answer c).
Proof.
  unfold start_upstreams. induction cfg as [|[n c] cfg IH] using rev_ind; [done|].
  rewrite foldl_app. cbn. intros [[<- <-]|[Hn Hl]]%lookup_insert_Some.
  - exists c. split; [set_solver|done].
  - destruct (IH Hl) as (c' & Hin & ->). exists c'. split; [set_solver|done].
Qed.

Lemma start_tools_available answer cfg name up :
  start_upstreams answer cfg !! name = Some up → up_Tools up ≠ [] → up_Available up = true ∧ up_Name up = name.
Proof.
  intros (c & _ & ->)%start_lookup. unfold NewMCPUpstream. by destruct (dialled answer c).
Qed.

(** The response of a call that names [n]. *)
Definition call_request (id : goval) (n : string) (args : list (string * goval)) : jsonrpcRequest :=
  mkRpc id "tools/call" [("name", VStr n); ("arguments", VMap args)]%string.

Lemma call_answer cfg order ups taskID id n args :
  mcpHandler cfg order ups taskID (Some (call_request id n args)) =
  let route := Route order ups n in
  let '(out, calls, audits) := handleToolsCall get route n taskID (VMap args) (upstream_call route) in
  (match out with Ok r => RpcResult id r | Err code => RpcError id code end, calls, audits).
Proof. reflexivity. Qed.

(** The list is the contract.  On the upstreams as the process dialled them, in
    whatever order the router visits its configuration, a call of a name that the
    list request returns reaches the upstream behind the name exactly once, under
    the tool's own name and with the arguments its input redaction leaves, provided
    that redaction succeeds; a call of any other name is answered with method not
    found, reaches nothing and is audited. *)
Theorem listed_is_callable answer cfg order taskID id n args :
  let ups := start_upstreams answer cfg in
  prefix_free cfg → order ≡ₚ cfg →
  (∀ t u, "" ∉ default [] (answer t u)) →
  let '(resp, calls, audits) := mcpHandler cfg order ups taskID (Some (call_request id n args)) in
  if decide (n ∈ handleToolsList cfg ups) then
    ∃ u c tool, (u, c) ∈ cfg ∧ n = Namespace u tool ∧
      ∀ a, match uc_Redaction c with Some r => Apply get (VMap args) (rc_Input r) | None => Ok (VMap args) end = Ok a →
           calls = [(u, tool, a)]
  else resp = RpcError id MCPErrMethodNotFound ∧ calls = [] ∧ au_Allowed <$> audits = [false].
Proof.
  intros ups Hpf Hord Hne. rewrite call_answer. cbv zeta.
  assert (Hnames : ∀ u up, ups !! u = Some up → ""%string ∉ up_Tools up).
  { intros u up (c & _ & ->)%start_lookup. unfold NewMCPUpstream, dialled, newTransport.
    destruct (_ || _); cbn; [|set_solver]. specialize (Hne (uc_Transport c) (uc_URL c)).
    destruct (answer _ _); cbn in *; [done|set_solver]. }
  destruct (route_iff_listed cfg order ups n Hpf Hnames Hord) as [Hiff _].
  destruct (Route order ups n) as [e|] eqn:Er.
  2:{ cbn. rewrite decide_False by (intros Hn%Hiff; by destruct Hn). done. }
  apply Route_sound in Er as (u & c & Hin & Hn & Hu & (up & Hu' & Ht & _) & Hred & _).
  destruct (handleToolsCall _ _ _ _ _ _) as [[out calls] audits] eqn:Eh.
  rewrite decide_True by (apply Hiff; by eexists).
  exists u, c, (en_OriginalName e). rewrite Hord in Hin. split_and!; [done..|].
  assert (up = en_Upstream e) as -> by congruence.
  destruct (start_tools_available answer cfg u _ Hu) as [Hav Hname]; [by intros E; rewrite E in Ht; apply elem_of_nil in Ht|].
  intros a Ha. unfold handleToolsCall in Eh. rewrite Hav, Hred in Eh. cbn [negb] in Eh.
  assert (Hin' : match uc_Redaction c with
                 | Some r => match rc_Input r with [] => Ok (VMap args) | rules => Apply get (VMap args) rules end
                 | None => Ok (VMap args)
                 end = Ok a).
  { destruct (uc_Redaction c) as [r|]; [|done]. by destruct (rc_Input r). }
  rewrite Hin', Hname in Eh. repeat case_match; congruence.
Qed.

(** The handshake is refused.  A request whose method is neither of the two is
    answered with method not found, the [initialize] request that opens every MCP
    session included, so a client that follows the protocol never gets to the list. *)
Theorem initialize_refused cfg order ups taskID id params :
  mcpHandler cfg order ups taskID (Some (mkRpc id "initialize" params)) = (RpcError id MCPErrMethodNotFound, [], []).
Proof. reflexivity. Qed.

(** After a shutdown that drained, the tools are still listed, every call of a
    listed one is answered with a server error, and none reaches an upstream. *)
Theorem closed_upstreams_unreached cfg order ups taskID id n args :
  let '(_, ups') := Server_Shutdown true ups in
  handleToolsList cfg ups' = handleToolsList cfg ups ∧
  let '(resp, calls, _) := mcpHandler cfg order ups' taskID (Some (call_request id n args)) in
  calls = [] ∧ (resp = RpcError id MCPErrMethodNotFound ∨ resp = RpcError id MCPErrServerError).
Proof.
  cbn [Server_Shutdown]. split.
  - unfold handleToolsList, List_. apply list_bind_ext; [|done]. intros [u c].
    unfold list_of. rewrite lookup_fmap. by destruct (ups !! u).
  - rewrite call_answer. cbv zeta. destruct (Route order (upstream_Close <$> ups) n) as [e|] eqn:Er; [|cbn; auto].
    apply Route_sound in Er as (u & c & _ & _ & Hu & _). rewrite lookup_fmap in Hu.
    destruct (ups !! u) as [up|]; [|done]. cbn in Hu. injection Hu as Hu.
    unfold handleToolsCall. rewrite <- Hu. cbn. auto.
Qed.

End Server.

(** ** A sample *)

Module Samples.

Definition answers (transport url : string) : option (list string) := Some ["get_pods"; "delete"]%string.

Definition echo (u : string) : option (string → goval → res string goval) := Some (λ t a, Ok a).

Lemma listed_is_callable_witness :
  ∃ a, (mcpHandler ex_get echo ex_cfg ex_cfg (start_upstreams answers ex_cfg) "t"
          (Some (call_request VNil "k8s__get_pods" [("auth", VMap [("token", VStr "secret")])]%string))).1.2 =
       [("k8s", "get_pods", a)]%string ∧ get_at ["auth"; "token"]%string a = Some (VStr "").
Proof.
  pose proof (listed_is_callable ex_get echo answers ex_cfg ex_cfg "t" VNil "k8s__get_pods"
    [("auth", VMap [("token", VStr "secret")])]%string ex_cfg_prefix_free (Permutation_refl _)) as H.
  cbv zeta in H. specialize (H ltac:(intros t u; cbn; set_solver)).
  destruct (mcpHandler _ _ _ _ _ _ _) as [[resp calls] audits] eqn:E.
  rewrite decide_True in H by (vm_compute; left).
  destruct H as (u & c & tool & Hin & Hn & Hc).
  exists (VMap [("auth", VMap [("token", VStr "")])]%string). split; [|reflexivity].
  cbn. vm_compute in E. by injection E as _ <- _.
Defined.

End Samples.
