(* ===== verification/Tasks.v ===== *)
(** * The task service: tasks, their table and the commands
      (src/task-service/internal/domain, application, infrastructure/postgres)

    A task is one row of a partitioned table.  The statements the repository
    issues are functions on the table; the schema of the migrations (enum, key,
    partitions, the trigger that freezes terminal rows) decides which of them
    fail.  A statement may also meet trouble: the server refuses it, or it takes
    effect and the reply is lost.  Rows come back in the order of [scan], any
    permutation.  Commands are sequences of statements; what other requests do in
    between is an argument. *)

From Stdlib Require Import Ascii String ZArith.
From S2P Require Import Prelude Json GoTime GoStrings.
From stdpp Require Import base list strings numbers sorting relations gmap.
Local Open Scope Z_scope.

(** ** The domain *)

(** Go's [TaskStatus] is a string. *)
Notation TaskStatus := string (only parsing).

Definition StatusProcessing : TaskStatus := "Processing".
Definition StatusCompleted : TaskStatus := "Completed".
Definition StatusFailed : TaskStatus := "Failed".
Definition StatusSchemaValidationFailed : TaskStatus := "SchemaValidationFailed".
Definition StatusActionError : TaskStatus := "ActionError".
Definition StatusUnprocessableEvent : TaskStatus := "UnprocessableEvent".
Definition StatusPendingApproval : TaskStatus := "PendingApproval".
Definition StatusTimeout : TaskStatus := "Timeout".
Definition StatusRetried : TaskStatus := "Retried".

Definition mem_str (s : string) (l : list string) : bool := existsb (String.eqb s) l.

Definition IsTerminal (s : TaskStatus) : bool :=
  mem_str s [StatusCompleted; StatusFailed; StatusSchemaValidationFailed; StatusActionError;
             StatusUnprocessableEvent; StatusTimeout; StatusRetried].

Record ActionResult : Type := mkAction {
  ac_Name : string; ac_Type : string; ac_Status : string; ac_DryRun : bool; ac_Error : option string
}.

Record TaskError : Type := mkTaskError {
  te_Type : string; te_Detail : string;
  te_Schema : option string; te_Raw : option string; te_Traceback : option string
}.

Record Task : Type := mkTask {
  t_ID : string; t_Cluster : string; t_Handler : string; t_Namespace : string;
  t_EventID : string; t_EventSource : string; t_EventType : string; t_EventRaw : json;
  t_Status : TaskStatus; t_DryRun : bool;
  t_SchemaOutput : option json; t_Actions : option (list ActionResult); t_Error : option TaskError;
  t_RetryOf : option string; t_OtelTraceID : option string;
  t_ReceivedAt : Z; t_CompletedAt : option Z; t_DurationMs : option Z
}.

Record CreateParams : Type := mkParams {
  cp_ID : string; cp_Cluster : string; cp_Handler : string; cp_Namespace : string;
  cp_EventID : string; cp_EventSource : string; cp_EventType : string; cp_EventRaw : json;
  cp_DryRun : bool; cp_RetryOf : option string; cp_OtelTraceID : option string; cp_ReceivedAt : Z
}.

Definition NewTask (p : CreateParams) : Task :=
  mkTask (cp_ID p) (cp_Cluster p) (cp_Handler p) (cp_Namespace p)
         (cp_EventID p) (cp_EventSource p) (cp_EventType p) (cp_EventRaw p)
         StatusProcessing (cp_DryRun p) None None None
         (cp_RetryOf p) (cp_OtelTraceID p) (cp_ReceivedAt p) None None.

Record ListFilter : Type := mkFilter {
  lf_Handler : string; lf_Status : TaskStatus; lf_Since : Z; lf_Sort : string; lf_Limit : Z; lf_Cursor : string
}.

Record UpdateFields : Type := mkFields {
  uf_CompletedAt : option Z; uf_SchemaOutput : option json; uf_Actions : option (list ActionResult);
  uf_Error : option TaskError; uf_DurationMs : option Z
}.

Record HandlerAggregate : Type := mkAggregate {
  ha_Handler : string; ha_Namespace : string; ha_LastTaskAt : option Z;
  ha_Tasks24h : Z; ha_Failures24h : Z; ha_ProcessingCount : Z
}.

(** ** The table *)

Record taskRow : Type := mkRow {
  r_ID : string; r_Cluster : string; r_Handler : string; r_Namespace : string;
  r_EventID : string; r_EventSource : string; r_EventType : string; r_EventRaw : json;
  r_Status : TaskStatus; r_DryRun : bool;
  r_SchemaOutput : option json; r_Actions : option (list ActionResult); r_Error : option TaskError;
  r_RetryOf : option string; r_OtelTraceID : option string;
  r_ReceivedAt : Z; r_CompletedAt : option Z; r_DurationMs : option Z
}.

Definition toRow (t : Task) : taskRow :=
  mkRow (t_ID t) (t_Cluster t) (t_Handler t) (t_Namespace t)
        (t_EventID t) (t_EventSource t) (t_EventType t) (t_EventRaw t) (t_Status t) (t_DryRun t)
        (t_SchemaOutput t) (t_Actions t) (t_Error t) (t_RetryOf t) (t_OtelTraceID t)
        (t_ReceivedAt t) (t_CompletedAt t) (t_DurationMs t).

Definition fromRow (r : taskRow) : Task :=
  mkTask (r_ID r) (r_Cluster r) (r_Handler r) (r_Namespace r)
         (r_EventID r) (r_EventSource r) (r_EventType r) (r_EventRaw r) (r_Status r) (r_DryRun r)
         (r_SchemaOutput r) (r_Actions r) (r_Error r) (r_RetryOf r) (r_OtelTraceID r)
         (r_ReceivedAt r) (r_CompletedAt r) (r_DurationMs r).

Record Partition : Type := mkPartition { p_Name : string; p_From : Z; p_To : Z }.

Record DB : Type := mkDB { db_rows : list taskRow; db_parts : list Partition }.

(** The type [task_status] of the first migration. *)
Definition task_status : list string :=
  [ "Processing"; "Completed"; "Failed"; "SchemaValidationFailed"; "ActionError";
    "UnprocessableEvent"; "PendingApproval"; "Timeout"; "Retried" ]%string.

(** The condition of the trigger [prevent_terminal_update]. *)
Definition prevent_terminal_update (old : taskRow) : bool :=
  mem_str (r_Status old)
    [ "Completed"; "Failed"; "SchemaValidationFailed"; "ActionError";
      "UnprocessableEvent"; "Timeout"; "Retried" ]%string.

(** The partitions the second migration creates. *)
Definition migrated : DB :=
  mkDB [] [ mkPartition "tasks_2026_04" (month_start 2026 4) (month_start 2026 5);
            mkPartition "tasks_2026_05" (month_start 2026 5) (month_start 2026 6) ].

Inductive pg_error : Type :=
| ErrNoRows
| ErrMultiRows
| PGError (code : string)
| ConnError.

(** Outcomes that do not depend on the table: the statement was refused, or it
    was executed and its reply lost. *)
Inductive trouble : Type :=
| Refused (e : pg_error)
| ReplyLost (e : pg_error).

Definition run {A} (tr : option trouble) (stmt : DB → DB * res pg_error A) (db : DB) : DB * res pg_error A :=
  match tr with
  | None => stmt db
  | Some (Refused e) => (db, Err e)
  | Some (ReplyLost e) => (fst (stmt db), Err e)
  end.

Definition invalid_text : string := "22P02".
Definition integrity_violation : string := "23000".
Definition unique_violation : string := "23505".
Definition check_violation : string := "23514".
Definition invalid_object : string := "42P17".

Definition holds_instant (t : Z) (p : Partition) : bool := (p_From p <=? t) && (t <? p_To p).
Definition overlaps (p q : Partition) : bool := (p_From p <? p_To q) && (p_From q <? p_To p).
Definition same_key (r s : taskRow) : bool :=
  String.eqb (r_ID r) (r_ID s) && (r_ReceivedAt r =? r_ReceivedAt s).

(** A duration comes from an [int32] of the request, so it is in the range of its
    column. *)
Definition insert_stmt (r : taskRow) (db : DB) : DB * res pg_error unit :=
  if negb (mem_str (r_Status r) task_status) then (db, Err (PGError invalid_text))
  else if negb (existsb (holds_instant (r_ReceivedAt r)) (db_parts db)) then (db, Err (PGError check_violation))
  else if existsb (same_key r) (db_rows db) then (db, Err (PGError unique_violation))
  else (mkDB (db_rows db ++ [r]) (db_parts db), Ok ()).

(** [UPDATE tasks SET status = status, ... WHERE sel]: the whole statement fails
    when the trigger raises on one of its rows. *)
Definition update_stmt (status : TaskStatus) (sel : taskRow → bool) (set_ : taskRow → taskRow) (db : DB) :
    DB * res pg_error (list taskRow) :=
  if negb (mem_str status task_status) then (db, Err (PGError invalid_text))
  else if existsb (λ r, sel r && prevent_terminal_update r) (db_rows db)
  then (db, Err (PGError integrity_violation))
  else (mkDB ((λ r, if sel r then set_ r else r) <$> db_rows db) (db_parts db),
        Ok (set_ <$> filter (λ r, sel r = true) (db_rows db))).

Definition delete_stmt (sel : taskRow → bool) (db : DB) : DB * res pg_error nat :=
  (mkDB (filter (λ r, sel r = false) (db_rows db)) (db_parts db),
   Ok (length (filter (λ r, sel r = true) (db_rows db)))).

(** [CREATE TABLE IF NOT EXISTS name PARTITION OF tasks ...]. *)
Definition partition_stmt (p : Partition) (db : DB) : DB * res pg_error unit :=
  if existsb (λ q, String.eqb (p_Name q) (p_Name p)) (db_parts db) then (db, Ok ())
  else if (p_To p <=? p_From p) || existsb (overlaps p) (db_parts db)
  then (db, Err (PGError invalid_object))
  else (mkDB (db_rows db) (db_parts db ++ [p]), Ok ()).

(** A query into one struct: [pg.ErrNoRows] and [pg.ErrMultiRows] when it is not
    exactly one row. *)
Definition select_one (sel : taskRow → bool) (db : DB) : res pg_error taskRow :=
  match filter (λ r, sel r = true) (db_rows db) with
  | [] => Err ErrNoRows
  | [r] => Ok r
  | _ => Err ErrMultiRows
  end.

Definition has_id (id : string) (r : taskRow) : bool := String.eqb (r_ID r) id.

(** ** The repository *)

Inductive task_err : Type :=
| ErrNotFound
| ErrInvalidTransition (cur next : TaskStatus)
| ErrTerminalState
| EDb (e : pg_error).

(** What the model takes from the outside: the error classification of go-pg, what
    the columns keep of an instant and of a document, the order rows are read in,
    the collation of text
    and the text of a document. *)
Class Postgres : Type := {
  IntegrityViolation : string → bool;
  stored_time : Z → Z;
  stored_json : json → json;
  scan : list taskRow → list taskRow;
  text_lt : string → string → bool;
  json_text : json → string;
  integrity_class : IntegrityViolation integrity_violation = true;
  not_integrity_class : IntegrityViolation invalid_text = false;
  scan_perm l : scan l ≡ₚ l
}.

Section Repository.
Context `{Postgres}.

Definition isTerminalViolation (e : pg_error) : bool :=
  match e with PGError code => IntegrityViolation code | _ => false end.

Definition store_row (r : taskRow) : taskRow :=
  mkRow (r_ID r) (r_Cluster r) (r_Handler r) (r_Namespace r)
        (r_EventID r) (r_EventSource r) (r_EventType r) (stored_json (r_EventRaw r)) (r_Status r) (r_DryRun r)
        (stored_json <$> r_SchemaOutput r) (r_Actions r) (r_Error r) (r_RetryOf r) (r_OtelTraceID r)
        (stored_time (r_ReceivedAt r)) (stored_time <$> r_CompletedAt r) (r_DurationMs r).

Definition Repository_Create (tr : option trouble) (t : Task) (db : DB) : DB * res task_err unit :=
  match run tr (insert_stmt (store_row (toRow t))) db with
  | (db', Ok _) => (db', Ok ())
  | (db', Err e) => (db', Err (EDb e))
  end.

(** [v] when given, the column's value otherwise. *)
Definition column {A} (v old : option A) : option A := match v with Some _ => v | None => old end.

Definition set_columns (status : TaskStatus) (f : UpdateFields) (r : taskRow) : taskRow :=
  mkRow (r_ID r) (r_Cluster r) (r_Handler r) (r_Namespace r)
        (r_EventID r) (r_EventSource r) (r_EventType r) (r_EventRaw r) status (r_DryRun r)
        (column (stored_json <$> uf_SchemaOutput f) (r_SchemaOutput r))
        (column (uf_Actions f) (r_Actions r)) (column (uf_Error f) (r_Error r))
        (r_RetryOf r) (r_OtelTraceID r) (r_ReceivedAt r)
        (column (stored_time <$> uf_CompletedAt f) (r_CompletedAt r))
        (column (uf_DurationMs f) (r_DurationMs r)).

Definition update_err (e : pg_error) : task_err := if isTerminalViolation e then ErrTerminalState else EDb e.

Definition Repository_UpdateStatus (tr : option trouble) (id : string) (status : TaskStatus)
    (fields : UpdateFields) (db : DB) : DB * res task_err unit :=
  match run tr (update_stmt status (has_id id) (set_columns status fields)) db with
  | (db', Err e) => (db', Err (update_err e))
  | (db', Ok []) => (db', Err ErrNotFound)
  | (db', Ok _) => (db', Ok ())
  end.

Definition Repository_Delete (tr : option trouble) (id : string) (db : DB) : DB * res task_err unit :=
  match run tr (delete_stmt (has_id id)) db with
  | (db', Err e) => (db', Err (EDb e))
  | (db', Ok O) => (db', Err ErrNotFound)
  | (db', Ok _) => (db', Ok ())
  end.

Definition find_err (e : pg_error) : task_err := match e with ErrNoRows => ErrNotFound | _ => EDb e end.

(** A read with its own trouble: the server's answer is replaced. *)
Definition read {A} (tr : option pg_error) (r : res pg_error A) : res pg_error A :=
  match tr with Some e => Err e | None => r end.

Definition Repository_FindByID (tr : option pg_error) (id : string) (db : DB) : res task_err Task :=
  match read tr (select_one (has_id id) db) with
  | Ok r => Ok (fromRow r)
  | Err e => Err (find_err e)
  end.

Definition ascending (f : ListFilter) : bool := String.eqb (lf_Sort f) "received_at:asc".

Definition list_where (f : ListFilter) (r : taskRow) : bool :=
  (String.eqb (lf_Handler f) "" || String.eqb (r_Handler r) (lf_Handler f))
  && (String.eqb (lf_Status f) "" || String.eqb (r_Status r) (lf_Status f))
  && (IsZero (lf_Since f) || (lf_Since f <=? r_ReceivedAt r))
  && (String.eqb (lf_Cursor f) ""
      || if ascending f then text_lt (lf_Cursor f) (r_ID r) else text_lt (r_ID r) (lf_Cursor f)).

(** [ORDER BY received_at ASC] or [DESC]; ties stay in the order of the scan. *)
Definition received (asc : bool) (a b : taskRow) : Prop :=
  if asc then r_ReceivedAt a ≤ r_ReceivedAt b else r_ReceivedAt b ≤ r_ReceivedAt a.

#[global] Instance received_dec asc a b : Decision (received asc a b).
Proof. unfold received. destruct asc; apply _. Defined.

Definition order_rows (asc : bool) (l : list taskRow) : list taskRow := merge_sort (received asc) (scan l).

Definition list_limit (f : ListFilter) : Z := if lf_Limit f <=? 0 then 50 else lf_Limit f.

(** The count and the page are two statements, each on the table of its moment. *)
Definition Repository_List (tr1 tr2 : option pg_error) (f : ListFilter) (db1 db2 : DB) :
    res task_err (list Task * nat) :=
  if negb (String.eqb (lf_Status f) "") && negb (mem_str (lf_Status f) task_status)
  then Err (EDb (PGError invalid_text))
  else match tr1, tr2 with
  | Some e, _ | None, Some e => Err (EDb e)
  | None, None =>
      let total := length (filter (λ r, list_where f r = true) (db_rows db1)) in
      let rows := take (Z.to_nat (list_limit f))
                    (order_rows (ascending f) (filter (λ r, list_where f r = true) (db_rows db2))) in
      Ok (fromRow <$> rows, total)
  end.

(** The loop of [findRoot]; [tr] is the trouble of each query. *)
Fixpoint findRoot (fuel : nat) (tr : nat → option pg_error) (current : string) (db : DB) :
    option (res task_err string) :=
  match fuel with
  | O => None
  | S fuel =>
      match read (tr fuel) (select_one (has_id current) db) with
      | Err e => Some (Err (find_err e))
      | Ok r => match r_RetryOf r with
                | None => Some (Ok current)
                | Some up => findRoot fuel tr up db
                end
      end
  end.

Definition in_lineage (root : string) (r : taskRow) : bool :=
  has_id root r || match r_RetryOf r with Some o => String.eqb o root | None => false end.

Definition Repository_Lineage (fuel : nat) (tr : nat → option pg_error) (tr_last : option pg_error)
    (id : string) (db : DB) : option (res task_err (list Task)) :=
  match findRoot fuel tr id db with
  | None => None
  | Some (Err e) => Some (Err e)
  | Some (Ok root) =>
      match tr_last with
      | Some e => Some (Err (EDb e))
      | None => Some (Ok (fromRow <$> order_rows true (filter (λ r, in_lineage root r = true) (db_rows db))))
      end
  end.

Definition set_status (status : TaskStatus) (now : option Z) (r : taskRow) : taskRow :=
  set_columns status (mkFields now None None None None) r.

(** [now] is the server's [NOW()]. *)
Definition Repository_BulkUpdateStatus (tr : option trouble) (now : Z) (ids : list string)
    (status : TaskStatus) (db : DB) : DB * res task_err (list string) :=
  match ids with
  | [] => (db, Ok [])
  | _ =>
      match run tr (update_stmt status (λ r, mem_str (r_ID r) ids)
                     (set_status status (if IsTerminal status then Some now else None))) db with
      | (db', Err e) => (db', Err (update_err e))
      | (db', Ok rows) => (db', Ok (r_ID <$> scan rows))
      end
  end.

Definition partition_name (y m : Z) : string :=
  "tasks_" +:+ show (digits 4 y) ("_" +:+ show (digits 2 m) "").

Definition EnsurePartition (tr : option trouble) (month : Z) (db : DB) : DB * res pg_error unit :=
  let '(y, m, _) := civil_of_days (month / day) in
  let start := month_start y m in
  run tr (partition_stmt (mkPartition (partition_name y m) start (AddMonths start 1))) db.

(** The loop of [main]: the months of [now] and of [now.AddDate(0, 1, 0)]. *)
Definition ensure_partitions (tr1 tr2 : option trouble) (now : Z) (db : DB) : DB * res pg_error unit :=
  match EnsurePartition tr1 now db with
  | (db1, Err e) => (db1, Err e)
  | (db1, Ok _) => EnsurePartition tr2 (AddMonths now 1) db1
  end.

Definition failureStatuses : list TaskStatus :=
  [StatusFailed; StatusSchemaValidationFailed; StatusActionError; StatusUnprocessableEvent; StatusTimeout].

Definition handler_key (r : taskRow) : string * string := (r_Handler r, r_Namespace r).

(** [ORDER BY handler, namespace]. *)
Definition key_le (a b : string * string) : Prop :=
  text_lt (fst a) (fst b) = true ∨ (fst a = fst b ∧ text_lt (snd b) (snd a) = false).

#[global] Instance key_le_dec a b : Decision (key_le a b).
Proof. unfold key_le. apply _. Defined.

Definition count_rows (sel : taskRow → bool) (l : list taskRow) : Z :=
  Z.of_nat (length (filter (λ r, sel r = true) l)).

Definition max_received (l : list taskRow) : option Z :=
  foldr (λ r acc, Some (match acc with Some t => Z.max (r_ReceivedAt r) t | None => r_ReceivedAt r end)) None l.

Definition aggregate (cutoff : Z) (l : list taskRow) (k : string * string) : HandlerAggregate :=
  let g := filter (λ r, handler_key r = k) l in
  mkAggregate (fst k) (snd k) (max_received g)
    (count_rows (λ r, cutoff <=? r_ReceivedAt r) g)
    (count_rows (λ r, (cutoff <=? r_ReceivedAt r) && mem_str (r_Status r) failureStatuses) g)
    (count_rows (λ r, String.eqb (r_Status r) StatusProcessing) g).

Definition ListHandlers (tr : option pg_error) (now since : Z) (db : DB) : res task_err (list HandlerAggregate) :=
  match tr with
  | Some e => Err (EDb e)
  | None =>
      let cutoff := now - 24 * 3600 * second in
      let window := filter (λ r, (since <=? r_ReceivedAt r) = true) (db_rows db) in
      Ok (aggregate cutoff window <$> merge_sort key_le (remove_dups (handler_key <$> scan window)))
  end.

(** [schema_output->>'decision']. *)
Definition decision (r : taskRow) : option string :=
  match r_SchemaOutput r with
  | Some (JObj ms) =>
      match fget "decision" ms with
      | None | Some JNull => None
      | Some (JStr s) => Some s
      | Some j => Some (json_text j)
      end
  | _ => None
  end.

Definition decided (handler : string) (since : Z) (r : taskRow) : bool :=
  String.eqb (r_Status r) StatusCompleted && (since <=? r_ReceivedAt r)
  && match decision r with Some _ => true | None => false end
  && (String.eqb handler "" || String.eqb (r_Handler r) handler).

Definition GetDecisionDistribution (tr : option pg_error) (handler : string) (since : Z) (db : DB) :
    res task_err (gmap string nat) :=
  match tr with
  | Some e => Err (EDb e)
  | None =>
      let l := filter (λ r, decided handler since r = true) (db_rows db) in
      let groups := remove_dups (omap decision (scan l)) in
      Ok (foldl (λ m d, <[d := length (filter (λ r, decision r = Some d) l)]> m) ∅ groups)
  end.

(** ** Commands and queries *)

Definition CreateTask_Execute (tr : option trouble) (p : CreateParams) (db : DB) :
    DB * res task_err Task * list Task :=
  let t := NewTask p in
  match Repository_Create tr t db with
  | (db', Err e) => (db', Err e, [])
  | (db', Ok _) => (db', Ok t, [t])
  end.

Definition validTransitions (cur next : TaskStatus) : bool :=
  String.eqb cur StatusProcessing &&
  mem_str next [StatusCompleted; StatusFailed; StatusSchemaValidationFailed; StatusActionError;
                StatusUnprocessableEvent; StatusTimeout; StatusRetried].

(** The troubles of the three statements of a status update. *)
Record update_trouble : Type := mkTrouble {
  ut_read : option pg_error; ut_write : option trouble; ut_reread : option pg_error
}.

(** [w1] and [w2] are what other requests did between the statements. *)
Definition UpdateStatus_Execute (tr : update_trouble) (w1 w2 : DB → DB) (id : string) (status : TaskStatus)
    (fields : UpdateFields) (db : DB) : DB * res task_err Task * list Task :=
  match Repository_FindByID (ut_read tr) id db with
  | Err e => (db, Err e, [])
  | Ok current =>
      if negb (validTransitions (t_Status current) status)
      then (db, Err (ErrInvalidTransition (t_Status current) status), [])
      else match Repository_UpdateStatus (ut_write tr) id status fields (w1 db) with
           | (db1, Err e) => (db1, Err e, [])
           | (db1, Ok _) =>
               let db2 := w2 db1 in
               match Repository_FindByID (ut_reread tr) id db2 with
               | Err e => (db2, Err e, [])
               | Ok updated => (db2, Ok updated, [updated])
               end
           end
  end.

(** A task that carries an id and a status, everything else zero. *)
Definition stub_task (id : string) (status : TaskStatus) : Task :=
  mkTask id "" "" "" "" "" "" JNull status false None None None None None zero_time None None.

Definition BulkUpdateStatus_Execute (tr : option trouble) (now : Z) (ids : list string) (status : TaskStatus)
    (db : DB) : DB * res task_err (list string) * list Task :=
  match Repository_BulkUpdateStatus tr now ids status db with
  | (db', Err e) => (db', Err e, [])
  | (db', Ok done) => (db', Ok done, (λ id, stub_task id status) <$> done)
  end.

Definition DeleteTask_Execute (tr : option trouble) (id : string) (db : DB) : DB * res task_err unit :=
  Repository_Delete tr id db.

Record ListTasksResult : Type := mkListResult {
  lr_Tasks : list Task; lr_Total : nat; lr_NextCursor : option string
}.

Definition ListTasks_Execute (tr1 tr2 : option pg_error) (f : ListFilter) (db1 db2 : DB) :
    res task_err ListTasksResult :=
  match Repository_List tr1 tr2 f db1 db2 with
  | Err e => Err e
  | Ok (tasks, total) =>
      let next := if (Z.of_nat (length tasks) =? lf_Limit f) && (0 <? lf_Limit f)
                  then t_ID <$> last tasks else None in
      Ok (mkListResult tasks total next)
  end.

End Repository.

(** ** Histories of statements *)

Section Histories.
Context `{Postgres}.

(** The statements that change the table, as requests issue them; a request is a
    few of them, and concurrent requests are an interleaving. *)
Inductive db_op : Type :=
| OpCreate (tr : option trouble) (p : CreateParams)
| OpUpdate (tr : option trouble) (id : string) (status : TaskStatus) (fields : UpdateFields)
| OpBulk (tr : option trouble) (now : Z) (ids : list string) (status : TaskStatus)
| OpDelete (tr : option trouble) (id : string)
| OpPartition (tr : option trouble) (month : Z).

Definition db_exec (db : DB) (o : db_op) : DB :=
  match o with
  | OpCreate tr p => fst (fst (CreateTask_Execute tr p db))
  | OpUpdate tr id status fields => fst (Repository_UpdateStatus tr id status fields db)
  | OpBulk tr now ids status => fst (fst (BulkUpdateStatus_Execute tr now ids status db))
  | OpDelete tr id => fst (DeleteTask_Execute tr id db)
  | OpPartition tr month => fst (EnsurePartition tr month db)
  end.

Definition row_key (r : taskRow) : string * Z := (r_ID r, r_ReceivedAt r).

Lemma run_pres {A} (P : DB → Prop) tr (stmt : DB → DB * res pg_error A) db :
  P db → P (fst (stmt db)) → P (fst (run tr stmt db)).
Proof. by destruct tr as [[]|]. Qed.

Lemma same_key_spec r s : same_key r s = true ↔ row_key r = row_key s.
Proof.
  unfold same_key, row_key. rewrite andb_true_iff, String.eqb_eq, Z.eqb_eq. split; [intros [-> ->]|intros [= -> ->]]; done.
Qed.

(** What each statement of a history does to the table: nothing, or its plain effect. *)
Lemma db_exec_cases (P : DB → Prop) db o :
  P db →
  (∀ t, P (fst (insert_stmt (store_row (toRow t)) db))) →
  (∀ status sel f, P (fst (update_stmt status sel (set_columns status f) db))) →
  (∀ id, match o with OpDelete _ id' => id = id' | _ => False end → P (fst (delete_stmt (has_id id) db))) →
  (∀ p, P (fst (partition_stmt p db))) →
  P (db_exec db o).
Proof.
  intros H0 Hi Hu Hd Hp. destruct o as [tr p|tr id status f|tr now ids status|tr id|tr month]; simpl.
  - unfold CreateTask_Execute, Repository_Create.
    pose proof (run_pres P tr (insert_stmt (store_row (toRow (NewTask p)))) db H0 (Hi _)) as Hr.
    by destruct (run tr _ db) as [db' []].
  - unfold Repository_UpdateStatus.
    pose proof (run_pres P tr (update_stmt status (has_id id) (set_columns status f)) db H0 (Hu _ _ _)) as Hr.
    by destruct (run tr _ db) as [db' [[]|]].
  - unfold BulkUpdateStatus_Execute, Repository_BulkUpdateStatus. destruct ids as [|i ids]; [done|].
    pose proof (run_pres P tr (update_stmt status (λ r, mem_str (r_ID r) (i :: ids))
      (set_status status (if IsTerminal status then Some now else None))) db H0 (Hu _ _ _)) as Hr.
    by destruct (run tr _ db) as [db' []].
  - unfold DeleteTask_Execute, Repository_Delete.
    pose proof (run_pres P tr (delete_stmt (has_id id)) db H0 (Hd id eq_refl)) as Hr.
    by destruct (run tr _ db) as [db' [[]|]].
  - unfold EnsurePartition. destruct (civil_of_days _) as [[y m] d]. by apply run_pres.
Qed.

(** ** Terminal rows *)

(** The three lists of terminal statuses agree: the domain's, the trigger's and
    the targets of the transition table. *)
Lemma terminal_lists_agree s :
  IsTerminal s = validTransitions StatusProcessing s ∧
  (∀ r, r_Status r = s → prevent_terminal_update r = IsTerminal s).
Proof. split; [done|]. by intros r <-. Qed.

Lemma trigger_is_terminal r : prevent_terminal_update r = IsTerminal (r_Status r).
Proof. by apply terminal_lists_agree. Qed.

Lemma update_keeps_terminal r status sel set_ db :
  r ∈ db_rows db → IsTerminal (r_Status r) = true → r ∈ db_rows (fst (update_stmt status sel set_ db)).
Proof.
  intros Hr Ht. unfold update_stmt. destruct (negb _); [done|].
  destruct (existsb _ _) eqn:E; [done|]. simpl. apply list_elem_of_fmap. exists r. split; [|done].
  destruct (sel r) eqn:Es; [|done].
  assert (existsb (λ r, sel r && prevent_terminal_update r) (db_rows db) = true); [|congruence].
  apply existsb_exists. exists r. split; [by apply list_elem_of_In|].
  by rewrite Es, trigger_is_terminal, Ht.
Qed.

Definition deletes (id : string) (o : db_op) : bool :=
  match o with OpDelete _ id' => String.eqb id' id | _ => false end.

Lemma db_exec_keeps_terminal r db o :
  r ∈ db_rows db → IsTerminal (r_Status r) = true → deletes (r_ID r) o = false →
  r ∈ db_rows (db_exec db o).
Proof.
  intros Hr Ht Hd. apply (db_exec_cases (λ db', r ∈ db_rows db')); [done|..].
  - intros t. unfold insert_stmt. repeat case_match; simpl; try done.
    apply elem_of_app. by left.
  - intros. by apply update_keeps_terminal.
  - intros id Ho. destruct o; try done. subst. simpl in Hd |- *.
    apply list_elem_of_filter. split; [|done]. unfold has_id. by rewrite String.eqb_sym.
  - intros p. unfold partition_stmt. repeat case_match; done.
Qed.

Lemma history_keeps_terminal ops db r :
  r ∈ db_rows db → IsTerminal (r_Status r) = true → Forall (λ o, deletes (r_ID r) o = false) ops →
  r ∈ db_rows (foldl db_exec db ops).
Proof.
  intros Hr Ht Hops. revert db Hr. induction Hops as [|o ops Ho _ IH]; intros db Hr; [done|].
  simpl. apply IH. by apply db_exec_keeps_terminal.
Qed.

(** C20. The audit record is immutable: once a row has a terminal status it keeps
    every column through any later statements, single and bulk updates included,
    unless its task is deleted. *)
Theorem terminal_rows_final ops db r :
  r ∈ db_rows db → IsTerminal (r_Status r) = true → Forall (λ o, deletes (r_ID r) o = false) ops →
  r ∈ db_rows (foldl db_exec db ops).
Proof. apply history_keeps_terminal. Qed.

(** ** Single updates *)

Lemma select_one_spec id db r :
  filter (λ r, has_id id r = true) (db_rows db) = [r] → select_one (has_id id) db = Ok r.
Proof. unfold select_one. by intros ->. Qed.

Lemma has_id_set id status f r : has_id id (set_columns status f r) = has_id id r.
Proof. done. Qed.

(** Updating rows in place does not change which rows are selected. *)
Lemma filter_update (sel : taskRow → bool) set_ (l : list taskRow) :
  (∀ r, sel r = true → sel (set_ r) = true) →
  filter (λ r, sel r = true) ((λ r, if sel r then set_ r else r) <$> l) = set_ <$> filter (λ r, sel r = true) l.
Proof.
  intros Hs. induction l as [|r l IH]; [done|]. rewrite fmap_cons, !filter_cons, IH.
  destruct (sel r) eqn:E; simpl; [|by rewrite decide_False by congruence].
  rewrite decide_True by auto. done.
Qed.

Lemma validTransitions_spec cur next :
  validTransitions cur next = true ↔ cur = StatusProcessing ∧ IsTerminal next = true.
Proof. unfold validTransitions. by rewrite andb_true_iff, String.eqb_eq. Qed.

Lemma terminal_is_status s : IsTerminal s = true → mem_str s task_status = true.
Proof.
  unfold IsTerminal, mem_str. rewrite !existsb_exists. intros (x & Hx & E). exists x. split; [|done].
  apply list_elem_of_In in Hx. apply list_elem_of_In. revert Hx. clear. unfold task_status.
  repeat (rewrite elem_of_cons; intros [->|H]; [by repeat (try (left; done); right)|revert H]).
  by intros ?%elem_of_nil.
Qed.

Lemma toRow_fromRow r : toRow (fromRow r) = r.
Proof. by destruct r. Qed.

Definition calm : update_trouble := mkTrouble None None None.

Definition replace_rows (sel : taskRow → bool) (set_ : taskRow → taskRow) (db : DB) : DB :=
  mkDB ((λ r, if sel r then set_ r else r) <$> db_rows db) (db_parts db).

Lemma no_terminal_selected id db r :
  filter (λ r, has_id id r = true) (db_rows db) = [r] → IsTerminal (r_Status r) = false →
  existsb (λ r, has_id id r && prevent_terminal_update r) (db_rows db) = false.
Proof.
  intros Hf Ht. apply not_true_iff_false. rewrite existsb_exists. intros (s & Hs%list_elem_of_In & E).
  apply andb_true_iff in E as [E1 E2]. rewrite trigger_is_terminal in E2.
  assert (s ∈ filter (λ r, has_id id r = true) (db_rows db)) as Hin by (by apply list_elem_of_filter).
  rewrite Hf in Hin. apply list_elem_of_singleton in Hin as ->. congruence.
Qed.

Lemma update_status_branches id status f db :
  UpdateStatus_Execute calm (λ d, d) (λ d, d) id status f db =
  match filter (λ r, has_id id r = true) (db_rows db) with
  | [] => (db, Err ErrNotFound, [])
  | [r] =>
      if String.eqb (r_Status r) StatusProcessing && IsTerminal status then
        let t := fromRow (set_columns status f r) in
        (replace_rows (has_id id) (set_columns status f) db, Ok t, [t])
      else (db, Err (ErrInvalidTransition (r_Status r) status), [])
  | _ => (db, Err (EDb ErrMultiRows), [])
  end.
Proof.
  unfold UpdateStatus_Execute, Repository_FindByID, select_one at 1. cbn [ut_read calm read].
  destruct (filter _ _) as [|r [|s l]] eqn:Hf; [done| |done].
  cbn [t_Status fromRow]. fold (IsTerminal status).
  destruct (validTransitions (r_Status r) status) eqn:Ev; cycle 1.
  { cbn [negb]. unfold validTransitions in Ev. fold (IsTerminal status) in Ev. by rewrite Ev. }
  destruct (proj1 (validTransitions_spec _ _) Ev) as [Hp Ht].
  cbn [negb]. rewrite Hp, Ht. cbn [andb]. change (String.eqb StatusProcessing StatusProcessing) with true.
  cbn [andb]. unfold Repository_UpdateStatus, run, update_stmt. cbn [ut_write calm].
  rewrite (terminal_is_status _ Ht). cbn [negb].
  rewrite (no_terminal_selected _ _ _ Hf) by (by rewrite Hp). rewrite Hf. cbn [fmap list_fmap].
  unfold select_one. cbn [db_rows]. rewrite (filter_update (has_id id)), Hf by done. done.
Qed.

(** The status update on every branch, when nothing interferes: an unknown
    task, an ambiguous one, a transition the table does not allow, and otherwise
    the row with the given columns set and all others kept, which is returned and
    published once. *)
Theorem update_status_spec id status f db :
  UpdateStatus_Execute calm (λ d, d) (λ d, d) id status f db =
  match filter (λ r, has_id id r = true) (db_rows db) with
  | [] => (db, Err ErrNotFound, [])
  | [r] =>
      if String.eqb (r_Status r) StatusProcessing && IsTerminal status then
        let t := fromRow (set_columns status f r) in
        (replace_rows (has_id id) (set_columns status f) db, Ok t, [t])
      else (db, Err (ErrInvalidTransition (r_Status r) status), [])
  | _ => (db, Err (EDb ErrMultiRows), [])
  end.
Proof. apply update_status_branches. Qed.

(** A history of statements, as the interference a request meets. *)
Definition during (ops : list db_op) (db : DB) : DB := foldl db_exec db ops.

Lemma update_stmt_ok status sel set_ db db' out :
  update_stmt status sel set_ db = (db', Ok out) →
  db' = replace_rows sel set_ db ∧ out = set_ <$> filter (λ r, sel r = true) (db_rows db) ∧
  (∀ r, r ∈ db_rows db → sel r = true → IsTerminal (r_Status r) = false).
Proof.
  unfold update_stmt. destruct (negb _); [done|]. destruct (existsb _ _) eqn:E; [done|].
  intros [= <- <-]. split; [done|]. split; [done|]. intros r Hr Hs. apply not_true_iff_false. intros Ht.
  assert (existsb (λ r, sel r && prevent_terminal_update r) (db_rows db) = true); [|congruence].
  apply existsb_exists. exists r. split; [by apply list_elem_of_In|]. by rewrite Hs, trigger_is_terminal.
Qed.

Lemma repo_update_ok tr id status f db db' :
  Repository_UpdateStatus tr id status f db = (db', Ok ()) →
  db' = replace_rows (has_id id) (set_columns status f) db ∧
  (∀ r, r ∈ db_rows db → has_id id r = true → IsTerminal (r_Status r) = false) ∧
  ∃ r, r ∈ db_rows db ∧ has_id id r = true.
Proof.
  unfold Repository_UpdateStatus. destruct tr as [[]|]; [done|done|]. cbn [run].
  destruct (update_stmt _ _ _ _) as [d [out|]] eqn:E; [|done].
  destruct (update_stmt_ok _ _ _ _ _ _ E) as (-> & -> & Hn).
  destruct (filter _ _) as [|r l] eqn:Hf; [done|]. intros [= <-]. split; [done|]. split; [done|].
  assert (r ∈ filter (λ r, has_id id r = true) (db_rows db)) as [? ?]%list_elem_of_filter
    by (rewrite Hf; left). eauto.
Qed.

Lemma FindByID_ok tr id db t :
  Repository_FindByID tr id db = Ok t →
  ∃ r, t = fromRow r ∧ filter (λ r, has_id id r = true) (db_rows db) = [r].
Proof.
  unfold Repository_FindByID, select_one. destruct tr; [done|]. cbn [read].
  destruct (filter _ _) as [|r [|? ?]]; [done| |done]. intros [= <-]. eauto.
Qed.

(** C21. Under any interference and any trouble, a status update that succeeds, its
    task not being deleted between its write and its read, has overwritten no
    terminal row, and what it returns and publishes is what it wrote, still in the
    table: the row it found with the requested columns set. *)
Theorem update_publishes_what_it_wrote tr ops1 ops2 id status f db db' t pub :
  Forall (λ o, deletes id o = false) ops2 →
  UpdateStatus_Execute tr (during ops1) (during ops2) id status f db = (db', Ok t, pub) →
  pub = [t] ∧ IsTerminal status = true ∧
  ∃ r, r ∈ db_rows (during ops1 db) ∧ r_ID r = id ∧ IsTerminal (r_Status r) = false ∧
       t = fromRow (set_columns status f r) ∧ toRow t ∈ db_rows db'.
Proof.
  intros Hops. unfold UpdateStatus_Execute. destruct (Repository_FindByID _ _ db) as [cur|]; [|done].
  destruct (validTransitions _ _) eqn:Ev; [|done]. cbn [negb].
  apply validTransitions_spec in Ev as [_ Ht].
  destruct (Repository_UpdateStatus _ _ _ _ _) as [db1 [[]|]] eqn:Eu; [|done].
  destruct (repo_update_ok _ _ _ _ _ _ Eu) as (-> & Hn & r & Hr & Hid).
  destruct (Repository_FindByID _ _ (during ops2 _)) as [u|] eqn:Ef; [|done]. intros [= <- <- <-].
  split; [done|]. split; [done|]. exists r. apply String.eqb_eq in Hid as Hid'.
  assert (set_columns status f r ∈ db_rows (during ops2 (replace_rows (has_id id) (set_columns status f) (during ops1 db))))
    as Hin.
  { apply history_keeps_terminal; [|done|by rewrite <-Hid' in Hops].
    apply list_elem_of_fmap. exists r. by rewrite Hid. }
  destruct (FindByID_ok _ _ _ _ Ef) as (x & -> & Hf).
  assert (set_columns status f r ∈ [x]) as <-%list_elem_of_singleton
    by (rewrite <-Hf; by apply list_elem_of_filter).
  split; [done|]. split; [done|]. split; [by apply Hn|]. split; [done|]. by rewrite toRow_fromRow.
Qed.

Lemma update_refused_terminal tr id status f db r :
  r ∈ db_rows db → r_ID r = id → IsTerminal (r_Status r) = true → IsTerminal status = true →
  ∃ e, Repository_UpdateStatus tr id status f db = (db, Err e) ∧ (tr = None → e = ErrTerminalState).
Proof.
  intros Hr Hid Ht Hs. unfold Repository_UpdateStatus.
  assert (update_stmt status (has_id id) (set_columns status f) db = (db, Err (PGError integrity_violation))) as Hu.
  { unfold update_stmt. rewrite (terminal_is_status _ Hs). cbn [negb].
    assert (existsb (λ r, has_id id r && prevent_terminal_update r) (db_rows db) = true) as ->; [|done].
    apply existsb_exists. exists r. split; [by apply list_elem_of_In|].
    rewrite trigger_is_terminal, Ht, andb_true_r. by apply String.eqb_eq. }
  destruct tr as [[e|e]|]; cbn [run]; rewrite ?Hu; eexists; (split; [done|]); try done.
  intros _. unfold update_err. cbn [isTerminalViolation]. by rewrite integrity_class.
Qed.

(** C22. Two requests that both read the task while it was processing: the first
    to write wins, the second is told that the task is terminal, changes nothing
    and publishes nothing. *)
Theorem concurrent_updates_one_wins id s1 f1 s2 f2 db r :
  filter (λ r, has_id id r = true) (db_rows db) = [r] → r_Status r = StatusProcessing →
  IsTerminal s1 = true → IsTerminal s2 = true →
  let first := UpdateStatus_Execute calm (λ d, d) (λ d, d) id s1 f1 db in
  let db1 := replace_rows (has_id id) (set_columns s1 f1) db in
  first = (db1, Ok (fromRow (set_columns s1 f1 r)), [fromRow (set_columns s1 f1 r)]) ∧
  UpdateStatus_Execute calm (λ d, fst (fst first)) (λ d, d) id s2 f2 db = (db1, Err ErrTerminalState, []).
Proof.
  intros Hf Hp Ht1 Ht2 first db1.
  assert (first = (db1, Ok (fromRow (set_columns s1 f1 r)), [fromRow (set_columns s1 f1 r)])) as Hfirst.
  { unfold first. rewrite update_status_branches, Hf, Hp, Ht1. done. }
  split; [done|]. rewrite Hfirst. cbn [fst]. unfold UpdateStatus_Execute, Repository_FindByID.
  cbn [ut_read calm read]. rewrite (select_one_spec _ _ _ Hf). cbn [t_Status fromRow].
  rewrite Hp. replace (validTransitions StatusProcessing s2) with true
    by (symmetry; by apply validTransitions_spec). cbn [negb ut_write calm].
  assert (r ∈ filter (λ r, has_id id r = true) (db_rows db)) as [Hid Hr]%list_elem_of_filter by (rewrite Hf; left).
  destruct (update_refused_terminal None id s2 f2 db1 (set_columns s1 f1 r)) as (e & -> & He); [..|done|done|].
  - apply list_elem_of_fmap. exists r. by rewrite Hid.
  - by apply String.eqb_eq.
  - by rewrite He.
Qed.

(** ** Bulk updates *)

Lemma set_status_id status now r : r_ID (set_status status now r) = r_ID r.
Proof. done. Qed.

(** A bulk update is all or nothing: when one of the tasks is terminal it
    changes no row and publishes nothing; otherwise every listed task that exists
    gets the status (and, for a terminal one, the completion time), and each
    affected row is reported and published exactly once. *)
Theorem bulk_all_or_nothing now ids status db :
  ids ≠ [] → mem_str status task_status = true →
  let sel := λ r, mem_str (r_ID r) ids in
  let set_ := set_status status (if IsTerminal status then Some now else None) in
  ((∃ r, r ∈ db_rows db ∧ sel r = true ∧ IsTerminal (r_Status r) = true) ∧
   BulkUpdateStatus_Execute None now ids status db = (db, Err ErrTerminalState, []))
  ∨
  ((∀ r, r ∈ db_rows db → sel r = true → IsTerminal (r_Status r) = false) ∧
   ∃ out, out ≡ₚ r_ID <$> filter (λ r, sel r = true) (db_rows db) ∧
     BulkUpdateStatus_Execute None now ids status db =
       (replace_rows sel set_ db, Ok out, (λ id, stub_task id status) <$> out)).
Proof.
  intros Hne Hst sel set_. unfold BulkUpdateStatus_Execute, Repository_BulkUpdateStatus.
  destruct ids as [|i ids']; [done|]. cbn [run]. fold sel. fold set_.
  destruct (update_stmt status sel set_ db) as [db' [out|e]] eqn:E; [right|left].
  - destruct (update_stmt_ok _ _ _ _ _ _ E) as (-> & -> & Hn). split; [done|].
    eexists. split; [|done]. rewrite scan_perm, <-list_fmap_compose. done.
  - unfold update_stmt in E. rewrite Hst in E. cbn [negb] in E.
    destruct (existsb _ _) eqn:Ex; [|done]. injection E as <- <-.
    apply existsb_exists in Ex as (r & Hr%list_elem_of_In & [Hs Ht]%andb_true_iff).
    rewrite trigger_is_terminal in Ht. split; [eauto|].
    unfold update_err. cbn [isTerminalViolation]. by rewrite integrity_class.
Qed.

(** ** Duplicate ids *)

Lemma fresh_no_id id db :
  existsb (has_id id) (db_rows db) = false → Forall (λ r, ¬ has_id id r = true) (db_rows db).
Proof.
  intros Hno. rewrite Forall_forall. intros r Hr Hid.
  assert (existsb (has_id id) (db_rows db) = true); [|congruence].
  apply existsb_exists. exists r. split; [by apply list_elem_of_In|done].
Qed.

Lemma fresh_no_key id db r :
  existsb (has_id id) (db_rows db) = false → r_ID r = id → existsb (same_key r) (db_rows db) = false.
Proof.
  intros Hno Hr. apply not_true_iff_false. rewrite existsb_exists. intros (s & Hs%list_elem_of_In & E).
  pose proof (fresh_no_id _ _ Hno) as Hf. rewrite Forall_forall in Hf. apply (Hf s Hs).
  apply same_key_spec in E. injection E as E _. unfold has_id. apply String.eqb_eq. congruence.
Qed.

(** A create whose key is new and whose arrival time has a partition. *)
Lemma create_new_key p db :
  existsb (holds_instant (stored_time (cp_ReceivedAt p))) (db_parts db) = true →
  existsb (same_key (store_row (toRow (NewTask p)))) (db_rows db) = false →
  CreateTask_Execute None p db =
    (mkDB (db_rows db ++ [store_row (toRow (NewTask p))]) (db_parts db), Ok (NewTask p), [NewTask p]).
Proof.
  intros Hp Hk. unfold CreateTask_Execute, Repository_Create. cbn [run]. unfold insert_stmt.
  change (r_Status (store_row (toRow (NewTask p)))) with StatusProcessing.
  change (mem_str StatusProcessing task_status) with true. cbn [negb].
  change (r_ReceivedAt (store_row (toRow (NewTask p)))) with (stored_time (cp_ReceivedAt p)).
  by rewrite Hp, Hk.
Qed.

Lemma create_fresh p db :
  existsb (has_id (cp_ID p)) (db_rows db) = false →
  existsb (holds_instant (stored_time (cp_ReceivedAt p))) (db_parts db) = true →
  ∃ db', CreateTask_Execute None p db = (db', Ok (NewTask p), [NewTask p]) ∧
         select_one (has_id (cp_ID p)) db' = Ok (store_row (toRow (NewTask p))).
Proof.
  intros Hno Hp. eexists. split; [apply create_new_key; [done|]; by eapply fresh_no_key|].
  apply select_one_spec. cbn [db_rows]. rewrite filter_app, filter_none by (by apply fresh_no_id).
  cbn [app]. rewrite filter_cons_True; [done|]. apply String.eqb_refl.
Qed.

Lemma select_one_multi id db r s l :
  filter (λ r, has_id id r = true) (db_rows db) = r :: s :: l → select_one (has_id id) db = Err ErrMultiRows.
Proof. unfold select_one. by intros ->. Qed.

(** The key of the table is id and arrival time, so a second create of the
    same id with another arrival time is accepted and published; from then on every
    read and every status update of the task fails with an internal error. *)
Theorem duplicate_id_wedges p t' db status f :
  existsb (has_id (cp_ID p)) (db_rows db) = false →
  existsb (holds_instant (stored_time (cp_ReceivedAt p))) (db_parts db) = true →
  existsb (holds_instant (stored_time t')) (db_parts db) = true →
  stored_time t' ≠ stored_time (cp_ReceivedAt p) →
  let p' := mkParams (cp_ID p) (cp_Cluster p) (cp_Handler p) (cp_Namespace p) (cp_EventID p)
              (cp_EventSource p) (cp_EventType p) (cp_EventRaw p) (cp_DryRun p) (cp_RetryOf p)
              (cp_OtelTraceID p) t' in
  let '(db1, r1, _) := CreateTask_Execute None p db in
  let '(db2, r2, pub) := CreateTask_Execute None p' db1 in
  r1 = Ok (NewTask p) ∧ r2 = Ok (NewTask p') ∧ pub = [NewTask p'] ∧
  Repository_FindByID None (cp_ID p) db2 = Err (EDb ErrMultiRows) ∧
  UpdateStatus_Execute calm (λ d, d) (λ d, d) (cp_ID p) status f db2 = (db2, Err (EDb ErrMultiRows), []).
Proof.
  intros Hno Hp Hp' Hne p'. rewrite create_new_key by (done || by eapply fresh_no_key).
  rewrite create_new_key; cbn [db_rows db_parts]; [|done|]; cycle 1.
  { rewrite existsb_app, (fresh_no_key (cp_ID p)) by done. cbn [existsb orb]. rewrite orb_false_r.
    apply not_true_iff_false. intros E%same_key_spec. injection E as E. done. }
  split; [done|]. split; [done|]. split; [done|].
  assert (∃ r s l, filter (λ r, has_id (cp_ID p) r = true)
    ((db_rows db ++ [store_row (toRow (NewTask p))]) ++ [store_row (toRow (NewTask p'))]) = r :: s :: l)
    as (r & s & l & Hl).
  { rewrite <-app_assoc, filter_app, filter_none by (by apply fresh_no_id). cbn [app].
    rewrite !filter_cons_True by (apply String.eqb_refl). eauto. }
  split; [|by rewrite update_status_branches; cbn [db_rows]; rewrite Hl].
  unfold Repository_FindByID, read. by rewrite (select_one_multi _ _ r s l).
Qed.

(** ** Lineage *)

Definition retry_link (db : DB) (a b : string) : Prop :=
  ∃ r, select_one (has_id a) db = Ok r ∧ r_RetryOf r = Some b.

Definition is_root (db : DB) (a : string) : Prop :=
  ∃ r, select_one (has_id a) db = Ok r ∧ r_RetryOf r = None.

Lemma findRoot_S fuel tr id db :
  findRoot (S fuel) tr id db =
  match read (tr fuel) (select_one (has_id id) db) with
  | Err e => Some (Err (find_err e))
  | Ok r => match r_RetryOf r with None => Some (Ok id) | Some up => findRoot fuel tr up db end
  end.
Proof. done. Qed.

(** Walking up the retry links ends, within the rank of the task, when the
    links have no cycle, whatever trouble the queries meet; an answer is the root
    the links lead to. *)
Theorem findRoot_terminates rank tr id db :
  (∀ a b, retry_link db a b → (rank b < rank a)%nat) →
  ∃ out, findRoot (S (rank id)) tr id db = Some out ∧
    ∀ root, out = Ok root → rtc (retry_link db) id root ∧ is_root db root.
Proof.
  intros Hr. remember (rank id) as n eqn:En.
  assert (rank id ≤ n)%nat as Hn by lia. clear En. revert id Hn.
  induction n as [|n IH]; intros id Hn; rewrite findRoot_S.
  all: destruct (read _ _) as [r|e] eqn:E; [|eexists; split; [done|]; done].
  all: assert (select_one (has_id id) db = Ok r) as Hs by (by destruct (tr _)).
  all: destruct (r_RetryOf r) as [up|] eqn:Eu;
    [|eexists; split; [done|]; intros root [= <-]; split; [done|by exists r]].
  all: assert (retry_link db id up) as Hl by (by exists r).
  - specialize (Hr _ _ Hl). lia.
  - destruct (IH up) as (out & Ho & Hroot); [specialize (Hr _ _ Hl); lia|].
    exists out. split; [done|]. intros root H'. destruct (Hroot root H') as [? ?]. split; [|done].
    by eapply rtc_l.
Qed.

Lemma findRoot_self fuel id db : is_root db id → findRoot (S fuel) (λ _, None) id db = Some (Ok id).
Proof. intros (r & Hs & Hr). cbn [findRoot read]. by rewrite Hs, Hr. Qed.

Lemma findRoot_up fuel a b db :
  retry_link db a b → findRoot (S fuel) (λ _, None) a db = findRoot fuel (λ _, None) b db.
Proof. intros (r & Hs & Hr). cbn [findRoot read]. by rewrite Hs, Hr. Qed.

#[global] Instance received_total asc : Total (received asc).
Proof. intros a b. unfold received. destruct asc; lia. Qed.

#[global] Instance received_trans asc : Transitive (received asc).
Proof. intros a b c. unfold received. destruct asc; lia. Qed.

Lemma order_rows_perm asc l : order_rows asc l ≡ₚ l.
Proof. unfold order_rows. rewrite merge_sort_Permutation. apply scan_perm. Qed.

Lemma order_rows_sorted asc l : StronglySorted (received asc) (order_rows asc l).
Proof. apply (StronglySorted_merge_sort _). Qed.

Lemma select_one_has_id id db r : select_one (has_id id) db = Ok r → r ∈ db_rows db ∧ r_ID r = id.
Proof.
  unfold select_one. destruct (filter _ _) as [|s [|? ?]] eqn:E; [done| |done]. intros [= ->].
  assert (r ∈ filter (λ r, has_id id r = true) (db_rows db)) as [Hi Hr]%list_elem_of_filter by (rewrite E; left).
  split; [done|]. by apply String.eqb_eq.
Qed.

(** When retries point at the original task, as the records are meant to be
    written, the lineage of the original or of any of its retries is the whole
    family: exactly the rows of the original and of its retries, oldest first. *)
Theorem lineage_of_family fuel id root db :
  is_root db root → id = root ∨ retry_link db id root →
  ∃ rows, Repository_Lineage (S (S fuel)) (λ _, None) None id db = Some (Ok (fromRow <$> rows)) ∧
    StronglySorted (received true) rows ∧
    (∀ r, r ∈ rows ↔ r ∈ db_rows db ∧ (r_ID r = root ∨ r_RetryOf r = Some root)).
Proof.
  intros Hroot Hid. unfold Repository_Lineage.
  assert (findRoot (S (S fuel)) (λ _, None) id db = Some (Ok root)) as ->.
  { destruct Hid as [->|Hl]; [by apply findRoot_self|]. by rewrite (findRoot_up _ _ _ _ Hl), findRoot_self. }
  eexists. split; [done|]. split; [apply order_rows_sorted|]. intros r.
  rewrite order_rows_perm, list_elem_of_filter. unfold in_lineage, has_id.
  rewrite orb_true_iff, String.eqb_eq. destruct (r_RetryOf r) as [o|]; [rewrite String.eqb_eq|]; naive_solver.
Qed.

(** A retry of a retry is left out of its own lineage: with links from [c] to
    [b] and from [b] to the root [a], the lineage of [c] is answered without [c]. *)
Theorem lineage_misses_deep_retry fuel a b c db rc :
  is_root db a → retry_link db b a → b ≠ a → select_one (has_id c) db = Ok rc → r_RetryOf rc = Some b →
  ∃ l, Repository_Lineage (S (S (S fuel))) (λ _, None) None c db = Some (Ok l) ∧ fromRow rc ∉ l.
Proof.
  intros Ha Hb Hne Hc Hrc. assert (retry_link db c b) as Hl by (by exists rc).
  unfold Repository_Lineage. rewrite (findRoot_up _ _ _ _ Hl), (findRoot_up _ _ _ _ Hb), findRoot_self by done.
  eexists. split; [done|]. intros (r & Hr & Hin)%list_elem_of_fmap.
  apply (f_equal toRow) in Hr. rewrite !toRow_fromRow in Hr. subst r.
  rewrite order_rows_perm in Hin. apply list_elem_of_filter in Hin as [Hin _].
  unfold in_lineage in Hin. rewrite Hrc in Hin. apply orb_true_iff in Hin as [Hin|Hin%String.eqb_eq]; [|done].
  apply String.eqb_eq in Hin. apply select_one_has_id in Hc as Hc'. destruct Hc' as [_ Hc'].
  destruct Ha as (ra & Hsa & Hra). rewrite <-Hin, Hc' in Hsa. congruence.
Qed.

(** A task whose retry_of is its own id is accepted, and its lineage request
    never answers: no number of iterations of the walk is enough. *)
Theorem self_retry_never_answers p db fuel :
  cp_RetryOf p = Some (cp_ID p) →
  existsb (has_id (cp_ID p)) (db_rows db) = false →
  existsb (holds_instant (stored_time (cp_ReceivedAt p))) (db_parts db) = true →
  ∃ db', CreateTask_Execute None p db = (db', Ok (NewTask p), [NewTask p]) ∧
         Repository_Lineage fuel (λ _, None) None (cp_ID p) db' = None.
Proof.
  intros Hself Hno Hp. destruct (create_fresh p db Hno Hp) as (db' & Hc & Hs). exists db'. split; [done|].
  unfold Repository_Lineage. assert (findRoot fuel (λ _, None) (cp_ID p) db' = None) as ->; [|done].
  induction fuel as [|fuel IH]; [done|]. rewrite (findRoot_up _ _ (cp_ID p)); [done|].
  eexists. split; [exact Hs|]. done.
Qed.

(** ** Paging *)

Definition with_cursor (f : ListFilter) (c : string) : ListFilter :=
  mkFilter (lf_Handler f) (lf_Status f) (lf_Since f) (lf_Sort f) (lf_Limit f) c.

(** A client that follows the cursors, one request per page. *)
Fixpoint pages (fuel : nat) (f : ListFilter) (db : DB) : option (list Task) :=
  match fuel with
  | O => None
  | S fuel =>
      match ListTasks_Execute None None f db db with
      | Err _ => None
      | Ok r => match lr_NextCursor r with
                | None => Some (lr_Tasks r)
                | Some c => (λ rest, lr_Tasks r ++ rest) <$> pages fuel (with_cursor f c) db
                end
      end
  end.

(** The rows a filter without cursor selects. *)
Definition matching (f : ListFilter) (db : DB) : list taskRow :=
  filter (λ r, list_where (with_cursor f "") r = true) (db_rows db).

Definition after_cursor (f : ListFilter) (c : string) (r : taskRow) : bool :=
  if ascending f then text_lt c (r_ID r) else text_lt (r_ID r) c.

Lemma list_where_cursor f c r :
  c ≠ ""%string → list_where (with_cursor f c) r = list_where (with_cursor f "") r && after_cursor f c r.
Proof.
  intros Hc. unfold list_where, after_cursor, ascending. cbn [lf_Handler lf_Status lf_Since lf_Sort lf_Cursor with_cursor].
  apply String.eqb_neq in Hc. rewrite Hc. change (String.eqb "" "") with true. by rewrite !orb_false_l, andb_true_r.
Qed.

(** Ids sort like arrival times, and no two rows arrived at the same time. *)
Record ids_by_arrival (l : list taskRow) : Prop := {
  iba_distinct a b : a ∈ l → b ∈ l → r_ReceivedAt a = r_ReceivedAt b → a = b;
  iba_order a b : a ∈ l → b ∈ l → text_lt (r_ID a) (r_ID b) = true ↔ r_ReceivedAt a < r_ReceivedAt b;
  iba_named a : a ∈ l → r_ID a ≠ ""%string
}.

Lemma filter_split_sorted f pre x post :
  ids_by_arrival (pre ++ x :: post) → NoDup (pre ++ x :: post) →
  StronglySorted (received (ascending f)) (pre ++ x :: post) →
  filter (λ r, after_cursor f (r_ID x) r = true) (pre ++ x :: post) = post.
Proof.
  intros [Hd Ho _] Hnd Hs.
  assert (x ∈ pre ++ x :: post) as Hx by set_solver.
  assert (∀ y, y ∈ pre → received (ascending f) y x) as Hpre.
  { intros y Hy. apply StronglySorted_app_1_elem_of with (1 := Hs); [done|left]. }
  assert (∀ y, y ∈ post → received (ascending f) x y) as Hpost.
  { intros y Hy. apply StronglySorted_app_1_r in Hs. apply StronglySorted_inv in Hs as [_ Hs].
    rewrite Forall_forall in Hs. auto. }
  rewrite filter_app, filter_cons. rewrite filter_none, decide_False, filter_id; [done|..].
  - rewrite Forall_forall. intros y Hy. specialize (Hpost y Hy).
    assert (y ∈ pre ++ x :: post) as Hy' by set_solver.
    assert (r_ReceivedAt x ≠ r_ReceivedAt y).
    { intros E. apply NoDup_app in Hnd as (_ & _ & Hnd). apply NoDup_cons in Hnd as [Hnd _].
      by rewrite (Hd x y Hx Hy' E) in Hnd. }
    unfold after_cursor, received in *. destruct (ascending f); apply Ho; try done; lia.
  - unfold after_cursor. destruct (ascending f); rewrite Ho by done; lia.
  - rewrite Forall_forall. intros y Hy. specialize (Hpre y Hy).
    assert (y ∈ pre ++ x :: post) as Hy' by set_solver.
    unfold after_cursor, received in *. destruct (ascending f); rewrite Ho by done; lia.
Qed.

Section Walk.
Context (f : ListFilter) (db : DB).
Context (Hlimit : 0 < lf_Limit f) (Hids : ids_by_arrival (matching f db)) (Hnd : NoDup (db_rows db)).
Context (Hstatus : lf_Status f = ""%string ∨ mem_str (lf_Status f) task_status = true).

Let sorted : list taskRow := order_rows (ascending f) (matching f db).

(** What the server lists for a cursor, before the limit. *)
Let listed (c : string) : list taskRow :=
  order_rows (ascending f) (filter (λ r, list_where (with_cursor f c) r = true) (db_rows db)).

Lemma sorted_ids : ids_by_arrival sorted.
Proof.
  unfold sorted. destruct Hids as [Hd Ho Hn]. split; intros a; [intros b|intros b|];
    rewrite !order_rows_perm; auto.
Qed.

Lemma sorted_nodup : NoDup sorted.
Proof. unfold sorted. rewrite order_rows_perm. by apply NoDup_filter. Qed.

Lemma listed_after pre x post : sorted = pre ++ x :: post → listed (r_ID x) = post.
Proof.
  intros E. pose proof sorted_ids as Hi. pose proof sorted_nodup as Hn.
  pose proof (order_rows_sorted (ascending f) (matching f db)) as Hs. fold sorted in Hs.
  rewrite E in Hi, Hn, Hs. unfold listed.
  assert (x ∈ pre ++ x :: post) as Hx by set_solver.
  assert (filter (λ r, list_where (with_cursor f (r_ID x)) r = true) (db_rows db) ≡ₚ post) as Hp.
  { transitivity (filter (λ r, after_cursor f (r_ID x) r = true) (pre ++ x :: post));
      [|by rewrite filter_split_sorted]. rewrite <-E. unfold sorted. rewrite order_rows_perm. unfold matching. rewrite list_filter_filter.
    rewrite (list_filter_iff _ (λ r, after_cursor f (r_ID x) r = true ∧ list_where (with_cursor f "") r = true)); [done|].
    intros r. rewrite list_where_cursor by (by apply (iba_named _ Hi)). rewrite andb_true_iff. tauto. }
  apply (StronglySorted_unique_strong (received (ascending f))).
  - intros a b Ha Hb Hab Hba. rewrite order_rows_perm, Hp in Ha.
    apply (iba_distinct _ Hi); [set_solver|set_solver|].
    unfold received in *. destruct (ascending f); lia.
  - apply order_rows_sorted.
  - apply StronglySorted_app_1_r in Hs. by apply StronglySorted_inv in Hs as [? _].
  - by rewrite order_rows_perm.
Qed.

Lemma list_one c :
  ListTasks_Execute None None (with_cursor f c) db db =
  let page := take (Z.to_nat (lf_Limit f)) (listed c) in
  Ok (mkListResult (fromRow <$> page) (length (filter (λ r, list_where (with_cursor f c) r = true) (db_rows db)))
        (if decide (length page = Z.to_nat (lf_Limit f)) then r_ID <$> last page else None)).
Proof.
  unfold ListTasks_Execute, Repository_List, list_limit.
  cbn [lf_Status lf_Limit with_cursor].
  replace (lf_Limit f <=? 0) with false by lia.
  destruct (negb _ && negb _) eqn:E.
  { destruct Hstatus as [Hs|Hs]; rewrite Hs in E; [done|]. by rewrite andb_false_r in E. }
  change (ascending (with_cursor f c)) with (ascending f). fold (listed c). cbn zeta. do 2 f_equal.
  rewrite length_fmap. case_decide as Hl.
  - rewrite Hl, Z2Nat.id, Z.eqb_refl by lia. replace (0 <? lf_Limit f) with true by lia. cbn [andb].
    by rewrite fmap_last, <-option_fmap_compose.
  - match goal with |- context [?a =? ?b] => replace (a =? b) with false by lia end. done.
Qed.

Lemma pages_walk fuel : ∀ c pre post,
  sorted = pre ++ post → listed c = post → (length post < fuel)%nat →
  pages fuel (with_cursor f c) db = Some (fromRow <$> post).
Proof.
  induction fuel as [|fuel IH]; intros c pre post Hs Hl Hf; [lia|].
  cbn [pages]. rewrite list_one, Hl. cbn zeta. cbn [lr_NextCursor lr_Tasks].
  set (n := Z.to_nat (lf_Limit f)) in *. assert (0 < n)%nat by lia.
  case_decide as Hlen; [|by rewrite take_ge by (rewrite length_take in Hlen; lia)].
  destruct (exists_last (l := take n post)) as (p0 & x & Ex); [intros E; rewrite E in Hlen; simpl in Hlen; lia|].
  rewrite Ex, last_snoc. cbn [fmap option_fmap option_map].
  assert (sorted = (pre ++ p0) ++ x :: drop n post) as Hs'.
  { rewrite Hs, <-(take_drop n post) at 1. by rewrite Ex, <-!app_assoc. }
  change (with_cursor (with_cursor f c) (r_ID x)) with (with_cursor f (r_ID x)).
  rewrite (IH (r_ID x) ((pre ++ p0) ++ [x]) (drop n post)); [|..].
  - cbn [fmap option_fmap option_map]. rewrite <-fmap_app, <-Ex, take_drop. done.
  - by rewrite Hs', <-(app_assoc _ [x]).
  - by eapply listed_after.
  - rewrite length_drop. rewrite length_take in Hlen. lia.
Qed.
End Walk.

(** C34. Following the cursors of the task list returns every matching task once
    and in the requested order, when ids sort like arrival times: the pages are a
    partition of the sorted selection, and the walk ends. *)
Theorem list_pages_tile f db :
  0 < lf_Limit f → lf_Cursor f = ""%string →
  lf_Status f = ""%string ∨ mem_str (lf_Status f) task_status = true →
  ids_by_arrival (matching f db) → NoDup (db_rows db) →
  ∃ l, pages (S (length (matching f db))) f db = Some (fromRow <$> l) ∧
       l ≡ₚ matching f db ∧ StronglySorted (received (ascending f)) l.
Proof.
  intros Hlim Hc Hst Hids Hnd. exists (order_rows (ascending f) (matching f db)).
  split; [|split; [apply order_rows_perm|apply order_rows_sorted]].
  replace f with (with_cursor f "") at 2 by (destruct f; simpl in *; by rewrite Hc).
  eapply (pages_walk f db Hlim Hids Hnd Hst _ "" []); [done|done|].
  rewrite order_rows_perm. lia.
Qed.

(** ** Partitions *)

Definition month_partition (y m : Z) : Partition :=
  mkPartition (partition_name y m) (month_start y m) (AddMonths (month_start y m) 1).

(** Every partition is that of a month. *)
Definition monthly (db : DB) : Prop :=
  Forall (λ p, ∃ y m, 0 ≤ y < 10000 ∧ 1 ≤ m ≤ 12 ∧ p = month_partition y m) (db_parts db).

Lemma partition_name_inj y m y' m' :
  0 ≤ y < 10000 → 0 ≤ y' < 10000 → 1 ≤ m ≤ 12 → 1 ≤ m' ≤ 12 →
  partition_name y m = partition_name y' m' → y = y' ∧ m = m'.
Proof.
  intros Hy Hy' Hm Hm' E. apply (f_equal (drop_str (String.length "tasks_"))) in E.
  unfold partition_name in E. rewrite !drop_str_app in E.
  apply (f_equal (take_digits 4 0)) in E. rewrite !take_digits_show in E by done.
  assert (∀ a b : string, Some (y, a) = Some (y', b) → y = y' ∧ a = b) as Hinj by (by intros a b [= -> ->]).
  apply Hinj in E as [-> E2]. split; [done|]. apply (f_equal (drop_str (String.length "_"))) in E2. rewrite !drop_str_app in E2.
  apply (f_equal (take_digits 2 0)) in E2. rewrite !take_digits_show in E2 by (simpl; lia). congruence.
Qed.

Lemma month_holds t y m d y' m' :
  civil_of_days (t / day) = (y', m', d) → 1 ≤ m ≤ 12 →
  holds_instant t (month_partition y m) = true ↔ (y, m) = (y', m').
Proof.
  intros Ht Hm. destruct (civil_days_inv _ _ _ _ Ht) as (_ & Hm' & _).
  destruct (norm_month y (m + 1)) as [y1 m1] eqn:E1. destruct (norm_month y' (m' + 1)) as [y2 m2] eqn:E2.
  pose proof (instant_in_month _ _ _ _ _ _ Ht E2) as Hin.
  unfold holds_instant, month_partition. cbn [p_From p_To]. rewrite (AddMonths_start _ _ _ _ Hm E1).
  rewrite andb_true_iff, Z.leb_le, Z.ltb_lt. split; [|intros [= -> ->]; rewrite E1 in E2; injection E2 as -> ->; done].
  intros Hin2. pose proof (days_of_civil_next _ _ _ _ Hm E1). pose proof (days_of_civil_next _ _ _ _ Hm' E2).
  assert (12 * y + m = 12 * y' + m') as Heq; [|assert (y = y' ∧ m = m') as [-> ->] by lia; done].
  unfold month_start in *. unfold day, second in *.
  destruct (Z.lt_trichotomy (12 * y + m) (12 * y' + m')) as [Hlt|[?|Hlt]]; [|done|].
  - pose proof (months_ordered y m y' m' Hm Hm' Hlt). lia.
  - pose proof (months_ordered y' m' y m Hm' Hm Hlt). lia.
Qed.

Lemma months_apart y m y' m' :
  1 ≤ m ≤ 12 → 1 ≤ m' ≤ 12 → (y, m) ≠ (y', m') → overlaps (month_partition y m) (month_partition y' m') = false.
Proof.
  intros Hm Hm' Hne. apply not_true_iff_false. unfold overlaps, month_partition. cbn [p_From p_To].
  destruct (norm_month y (m + 1)) as [y1 m1] eqn:E1. destruct (norm_month y' (m' + 1)) as [y2 m2] eqn:E2.
  rewrite (AddMonths_start _ _ _ _ Hm E1), (AddMonths_start _ _ _ _ Hm' E2).
  rewrite andb_true_iff, !Z.ltb_lt.
  pose proof (days_of_civil_next _ _ _ _ Hm E1). pose proof (days_of_civil_next _ _ _ _ Hm' E2).
  unfold month_start, day, second. intros [? ?].
  destruct (Z.lt_trichotomy (12 * y + m) (12 * y' + m')) as [Hlt|[Heq|Hlt]].
  - pose proof (months_ordered y m y' m' Hm Hm' Hlt). lia.
  - apply Hne. f_equal; lia.
  - pose proof (months_ordered y' m' y m Hm' Hm Hlt). lia.
Qed.

Lemma EnsurePartition_monthly month y m d db :
  monthly db → civil_of_days (month / day) = (y, m, d) → 0 ≤ y < 10000 →
  ∃ db', EnsurePartition None month db = (db', Ok ()) ∧ monthly db' ∧ db_rows db' = db_rows db ∧
    (∀ p, p ∈ db_parts db' ↔ p ∈ db_parts db ∨ p = month_partition y m).
Proof.
  intros Hmon Hc Hy. destruct (civil_days_inv _ _ _ _ Hc) as (_ & Hm & _).
  unfold EnsurePartition. rewrite Hc. cbn [run]. fold (month_partition y m). unfold partition_stmt.
  unfold monthly in Hmon. rewrite Forall_forall in Hmon.
  destruct (existsb _ _) eqn:E1.
  - exists db. split; [done|]. split; [by apply Forall_forall|]. split; [done|].
    apply existsb_exists in E1 as (q & Hq%list_elem_of_In & En%String.eqb_eq).
    destruct (Hmon q Hq) as (y' & m' & Hy' & Hm' & ->).
    destruct (partition_name_inj _ _ _ _ Hy' Hy Hm' Hm En) as [-> ->]. naive_solver.
  - assert (p_To (month_partition y m) <=? p_From (month_partition y m) = false) as ->.
    { cbn [p_To p_From month_partition]. destruct (norm_month y (m + 1)) as [y1 m1] eqn:En.
      rewrite (AddMonths_start _ _ _ _ Hm En). pose proof (days_of_civil_next _ _ _ _ Hm En).
      pose proof (days_in_pos y m). unfold month_start, day, second. lia. }
    destruct (existsb (overlaps _) _) eqn:E2.
    + exfalso. apply existsb_exists in E2 as (q & Hq%list_elem_of_In & Eo).
      destruct (Hmon q Hq) as (y' & m' & Hy' & Hm' & ->).
      assert (existsb (λ q, String.eqb (p_Name q) (p_Name (month_partition y m))) (db_parts db) = true); [|congruence].
      apply existsb_exists. exists (month_partition y' m'). split; [by apply list_elem_of_In|].
      destruct (decide ((y, m) = (y', m'))) as [[= -> ->]|Hne]; [apply String.eqb_refl|].
      by rewrite months_apart in Eo.
    + eexists. split; [done|]. unfold monthly. cbn [db_parts db_rows]. split; [|split; [done|]].
      * apply Forall_app. split; [by apply Forall_forall|]. repeat constructor. by exists y, m.
      * intros p. set_solver.
Qed.

Lemma placed_in_month t y m d db :
  civil_of_days (t / day) = (y, m, d) → month_partition y m ∈ db_parts db →
  existsb (holds_instant t) (db_parts db) = true.
Proof.
  intros Hc Hp. apply existsb_exists. exists (month_partition y m). split; [by apply list_elem_of_In|].
  destruct (civil_days_inv _ _ _ _ Hc) as (_ & Hm & _). by apply (month_holds _ _ _ _ _ _ Hc).
Qed.

Lemma norm_month_range y m y' m' : 1 ≤ m ≤ 12 → norm_month y (m + 1) = (y', m') → 1 ≤ m' ≤ 12 ∧ y ≤ y' ≤ y + 1.
Proof. intros Hm. unfold norm_month. intros [= <- <-]. dlia. Qed.

(** A start up to the 28th of a month leaves partitions for the whole month
    and the whole next month: no arrival time in them is refused. *)
Theorem startup_covers_two_months now y m d y' m' db :
  monthly db → civil_of_days (now / day) = (y, m, d) → norm_month y (m + 1) = (y', m') →
  0 ≤ y < 9999 → d ≤ 28 →
  ∃ db', ensure_partitions None None now db = (db', Ok ()) ∧ monthly db' ∧
    ∀ t y2 m2 d2, civil_of_days (t / day) = (y2, m2, d2) → (y2, m2) = (y, m) ∨ (y2, m2) = (y', m') →
      existsb (holds_instant t) (db_parts db') = true.
Proof.
  intros Hmon Hc Hn Hy Hd. destruct (civil_days_inv _ _ _ _ Hc) as (_ & Hm & _).
  pose proof (norm_month_range _ _ _ _ Hm Hn) as Hm'.
  destruct (EnsurePartition_monthly now y m d db) as (db1 & E1 & Hmon1 & _ & Hp1); [done|done|lia|].
  pose proof (AddMonths_early _ _ _ _ _ _ Hc Hd Hn) as Hc'.
  destruct (EnsurePartition_monthly (AddMonths now 1) y' m' d db1) as (db2 & E2 & Hmon2 & _ & Hp2); [done|done|lia|].
  exists db2. unfold ensure_partitions. rewrite E1. split; [done|]. split; [done|].
  intros t y2 m2 d2 Ht Hor. eapply placed_in_month; [done|]. apply Hp2. rewrite Hp1.
  destruct Hor as [[= -> ->]|[= -> ->]]; auto.
Qed.

Lemma AddMonths_late t y m d y1 m1 y2 m2 :
  civil_of_days (t / day) = (y, m, d) → norm_month y (m + 1) = (y1, m1) → norm_month y1 (m1 + 1) = (y2, m2) →
  days_in y1 m1 < d → civil_of_days (AddMonths t 1 / day) = (y2, m2, d - days_in y1 m1).
Proof.
  intros H' E1 E2 Hd. unfold AddMonths. rewrite H', E1.
  destruct (civil_days_inv _ _ _ _ H') as (_ & Hm & Hd'). pose proof (norm_month_range _ _ _ _ Hm E1) as [Hm1 _].
  pose proof (norm_month_range _ _ _ _ Hm1 E2) as [Hm2 _].
  rewrite Z.add_comm, Z.div_add, Z.div_small by (done || apply Z.mod_pos_bound; done).
  pose proof (days_of_civil_next _ _ _ _ Hm1 E2) as Hnext.
  pose proof (days_in_pos y m). pose proof (days_in_pos y1 m1). pose proof (days_in_pos y2 m2).
  replace (0 + (days_of_civil y1 m1 1 + (d - 1))) with (days_of_civil y2 m2 (d - days_in y1 m1))
    by (rewrite (days_of_civil_day y2 m2); lia).
  apply days_civil_inv; lia.
Qed.

(** A start on a day the next month does not have skips that month: adding a
    month to January 31 gives a day in March, so the partitions of January and
    March are created, and every task that arrives in February is refused. *)
Theorem month_end_start_skips now y m d y1 m1 db p dt :
  monthly db → civil_of_days (now / day) = (y, m, d) → norm_month y (m + 1) = (y1, m1) →
  0 ≤ y < 9998 → days_in y1 m1 < d → month_partition y1 m1 ∉ db_parts db →
  civil_of_days (stored_time (cp_ReceivedAt p) / day) = (y1, m1, dt) →
  ∃ db', ensure_partitions None None now db = (db', Ok ()) ∧
    CreateTask_Execute None p db' = (db', Err (EDb (PGError check_violation)), []).
Proof.
  intros Hmon Hc Hn Hy Hd Hno Ht. destruct (civil_days_inv _ _ _ _ Hc) as (_ & Hm & _).
  pose proof (norm_month_range _ _ _ _ Hm Hn) as [Hm1 Hy1].
  destruct (norm_month y1 (m1 + 1)) as [y2 m2] eqn:Hn2. pose proof (norm_month_range _ _ _ _ Hm1 Hn2) as [Hm2 Hy2].
  destruct (EnsurePartition_monthly now y m d db) as (db1 & E1 & Hmon1 & _ & Hp1); [done|done|lia|].
  pose proof (AddMonths_late _ _ _ _ _ _ _ _ Hc Hn Hn2 Hd) as Hc2.
  destruct (EnsurePartition_monthly (AddMonths now 1) y2 m2 (d - days_in y1 m1) db1)
    as (db2 & E2 & Hmon2 & _ & Hp2); [done|done|lia|].
  exists db2. unfold ensure_partitions. rewrite E1. split; [done|].
  unfold CreateTask_Execute, Repository_Create. cbn [run]. unfold insert_stmt.
  change (mem_str (r_Status (store_row (toRow (NewTask p)))) task_status) with true. cbn [negb].
  assert (existsb (holds_instant (r_ReceivedAt (store_row (toRow (NewTask p))))) (db_parts db2) = false) as ->; [|done].
  apply not_true_iff_false. rewrite existsb_exists. intros (q & Hq%list_elem_of_In & Hh).
  unfold monthly in Hmon2. rewrite Forall_forall in Hmon2. destruct (Hmon2 q Hq) as (yq & mq & _ & Hmq & ->).
  apply (month_holds _ _ _ _ _ _ Ht Hmq) in Hh. injection Hh as -> ->.
  assert (∀ a b a' b', month_partition a b = month_partition a' b' → month_start a b = month_start a' b') as Hst
    by (intros a b a' b' E; exact (f_equal p_From E)).
  apply Hp2 in Hq as [Hq|Hq%Hst]; [apply Hp1 in Hq as [Hq|Hq%Hst]; [done|]|];
    apply (f_equal (λ z, civil_of_days (z / day))) in Hq; rewrite !month_start_civil in Hq by done;
    injection Hq as -> ->.
  - unfold norm_month in Hn. injection Hn as Hn1 Hn3. dlia.
  - unfold norm_month in Hn2. injection Hn2 as Hn1 Hn3. dlia.
Qed.

(** ** Aggregates *)

Lemma sum_one_key {A K} `{EqDecision K} (key : A → K) (x : A) (ks : list K) :
  NoDup ks → foldr (λ k acc, (if decide (key x = k) then 1 else 0) + acc)%nat O ks =
             if decide (key x ∈ ks) then 1%nat else O.
Proof.
  induction 1 as [|k ks Hk Hnd IH]; [done|]. cbn [foldr]. rewrite IH.
  repeat case_decide; subst; try done; set_solver.
Qed.

(** Grouping by keys loses and duplicates nothing. *)
Lemma count_groups {A K} `{EqDecision K} (key : A → K) (ks : list K) (l : list A) :
  NoDup ks → (∀ x, x ∈ l → key x ∈ ks) →
  foldr (λ k acc, length (filter (λ x, key x = k) l) + acc)%nat O ks = length l.
Proof.
  intros Hnd. induction l as [|x l IH]; intros Hk.
  - clear. by induction ks.
  - cbn [length]. rewrite <-(IH ltac:(set_solver)). pose proof (sum_one_key key x ks Hnd) as H1.
    rewrite decide_True in H1 by set_solver. rewrite <-Nat.add_1_l, <-H1. clear.
    induction ks as [|k ks IH]; [done|]. cbn [foldr]. rewrite filter_cons, IH.
    case_decide; cbn [length]; lia.
Qed.

Definition window (since : Z) (db : DB) : list taskRow :=
  filter (λ r, (since <=? r_ReceivedAt r) = true) (db_rows db).

Lemma sum_counts (sel : taskRow → bool) (l : list taskRow) ks :
  NoDup ks → (∀ r, r ∈ l → handler_key r ∈ ks) →
  foldr (λ k acc, count_rows sel (filter (λ r, handler_key r = k) l) + acc) 0 ks = count_rows sel l.
Proof.
  intros Hnd Hk. unfold count_rows.
  rewrite <-(count_groups handler_key ks (filter (λ r, sel r = true) l)); [|done|].
  - clear. induction ks as [|k ks IH]; [done|]. cbn [foldr]. rewrite IH, Nat2Z.inj_add. f_equal.
    f_equal. f_equal. rewrite !list_filter_filter. apply list_filter_iff. intros r. tauto.
  - intros r [_ Hr]%list_elem_of_filter. auto.
Qed.

(** The handler summary accounts for every row of the window once: one entry
    per handler and namespace, the counts of the entries add up to the counts over
    the window, and no entry reports more failures than tasks. *)
Theorem handlers_account_for_all now since db :
  ∃ l, ListHandlers None now since db = Ok l ∧
    NoDup ((λ a, (ha_Handler a, ha_Namespace a)) <$> l) ∧
    foldr (λ a acc, ha_ProcessingCount a + acc) 0 l
      = count_rows (λ r, String.eqb (r_Status r) StatusProcessing) (window since db) ∧
    foldr (λ a acc, ha_Tasks24h a + acc) 0 l
      = count_rows (λ r, now - 24 * 3600 * second <=? r_ReceivedAt r) (window since db) ∧
    Forall (λ a, ha_Failures24h a ≤ ha_Tasks24h a) l.
Proof.
  eexists. split; [done|]. fold (window since db). set (w := window since db).
  set (ks := merge_sort key_le (remove_dups (handler_key <$> scan w))).
  assert (NoDup ks) as Hnd by (unfold ks; rewrite merge_sort_Permutation; apply NoDup_remove_dups).
  assert (∀ r, r ∈ w → handler_key r ∈ ks) as Hk.
  { intros r Hr. unfold ks. rewrite merge_sort_Permutation, elem_of_remove_dups, scan_perm.
    by apply list_elem_of_fmap_2. }
  split; [|split; [|split]].
  - rewrite <-list_fmap_compose, (list_fmap_ext _ id ks); [by rewrite list_fmap_id|]. by intros ? [? ?] _.
  - rewrite <-(sum_counts _ w ks) by done. clear. induction ks as [|k ks IH]; [done|]. rewrite fmap_cons. cbn [foldr]. by rewrite IH.
  - rewrite <-(sum_counts _ w ks) by done. clear. induction ks as [|k ks IH]; [done|]. rewrite fmap_cons. cbn [foldr]. by rewrite IH.
  - apply Forall_fmap, Forall_forall. intros k _. simpl. unfold count_rows. apply inj_le.
    apply sublist_length. generalize (filter (λ r, handler_key r = k) w). intros g.
    induction g as [|r g IH]; [done|]. rewrite !filter_cons.
    destruct (_ <=? r_ReceivedAt r); simpl; [|done].
    case_decide; [by constructor|by constructor].
Qed.

(** The decision distribution is exact: a decision is listed with the number
    of completed tasks of the handler in the window that carry it, and is absent
    when there is none. *)
Theorem decisions_exact handler since db d :
  ∃ m, GetDecisionDistribution None handler since db = Ok m ∧
    let n := length (filter (λ r, decision r = Some d)
                       (filter (λ r, decided handler since r = true) (db_rows db))) in
    m !! d = if decide (n = O) then None else Some n.
Proof.
  eexists. split; [done|]. set (l := filter _ (db_rows db)). cbn zeta.
  set (cnt := λ d, length (filter (λ r, decision r = Some d) l)).
  assert (∀ gs m, NoDup gs → foldl (λ m d, <[d := cnt d]> m) m gs !! d =
    if decide (d ∈ gs) then Some (cnt d) else (m : gmap string nat) !! d) as Hfold.
  { induction gs as [|g gs IH]; intros m Hgs; cbn [foldl]; [by rewrite decide_False by set_solver|].
    apply NoDup_cons in Hgs as [Hg Hnd].
    rewrite IH by done. destruct (decide (d = g)) as [->|Hne].
    - rewrite decide_False, decide_True by set_solver. by rewrite lookup_insert_eq.
    - rewrite lookup_insert_ne by done. destruct (decide (d ∈ gs)).
      + by rewrite decide_True by set_solver.
      + by rewrite decide_False by set_solver. }
  rewrite Hfold by apply NoDup_remove_dups. fold (cnt d).
  assert (d ∈ remove_dups (omap decision (scan l)) ↔ cnt d ≠ O) as Hiff.
  { rewrite elem_of_remove_dups, list_elem_of_omap. unfold cnt.
    rewrite length_zero_iff_nil. setoid_rewrite scan_perm. split.
    - intros (r & Hr & Hd) E. assert (r ∈ filter (λ r, decision r = Some d) l) as Hin
        by (by apply list_elem_of_filter). rewrite E in Hin. by apply elem_of_nil in Hin.
    - intros Hne. destruct (filter _ l) as [|r g] eqn:E; [done|].
      assert (r ∈ filter (λ r, decision r = Some d) l) as [? ?]%list_elem_of_filter by (rewrite E; left). eauto. }
  destruct (decide (cnt d = O)), (decide (d ∈ _)); tauto || done.
Qed.

End Histories.

(** ** Listing without a limit, and out of order *)

(** A list request with a limit of zero or less returns at most fifty tasks and
    never a cursor, however many match. *)
Theorem no_limit_no_cursor `{Postgres} tr1 tr2 f db1 db2 r :
  lf_Limit f ≤ 0 → ListTasks_Execute tr1 tr2 f db1 db2 = Ok r →
  lr_NextCursor r = None ∧ (length (lr_Tasks r) ≤ 50)%nat.
Proof.
  intros Hl. unfold ListTasks_Execute, Repository_List, list_limit.
  replace (lf_Limit f <=? 0) with true by lia. destruct (_ && _); [done|]. destruct tr1, tr2; [done..|].
  intros [= <-]. cbn [lr_NextCursor lr_Tasks]. replace (0 <? lf_Limit f) with false by lia.
  rewrite andb_false_r, length_fmap, length_take. split; [done|]. lia.
Qed.

(** A database that keeps microseconds and reads rows in the order they were
    written, with text compared by bytes. *)
Definition MemPg : Postgres.
Proof.
  refine {| IntegrityViolation code := HasPrefix code "23"; stored_time t := t / 1000 * 1000;
            stored_json j := j; scan l := l; text_lt := String.ltb; json_text _ := ""%string |};
    [reflexivity|reflexivity|intros l; reflexivity].
Defined.

#[local] Existing Instance MemPg.

(** May 2026: day and second. *)
Definition may (d s : Z) : Z := month_start 2026 5 + (d - 1) * day + s * second.

Definition sample (id : string) (retry : option string) (t : Z) : CreateParams :=
  mkParams id "c" "h" "ns" "e" "src" "ty" JNull false retry None t.

Definition created (ps : list CreateParams) : DB := foldl db_exec migrated (OpCreate None <$> ps).

Definition no_fields : UpdateFields := mkFields None None None None None.

(** The cursor compares ids while the page is sorted by arrival: when a later
    arrival has the smaller id, the walk drops tasks. *)
Theorem cursor_skips_tasks :
  let db := created [sample "b" None (may 1 0); sample "a" None (may 2 0)] in
  let f := mkFilter "" "" zero_time "" 1 "" in
  length (matching f db) = 2%nat ∧
  option_map (map t_ID) (pages 3 f db) = Some ["a"%string].
Proof. split; vm_compute; reflexivity. Qed.

Definition stored_sample (id : string) (retry : option string) (t : Z) : taskRow :=
  store_row (toRow (NewTask (sample id retry t))).

Definition finished : DB :=
  foldl db_exec (created [sample "a" None (may 1 0)]) [OpUpdate None "a" StatusCompleted no_fields].

Definition finished_row : taskRow :=
  set_columns StatusCompleted no_fields (stored_sample "a" None (may 1 0)).

Lemma terminal_rows_final_witness :
  finished_row ∈ db_rows
    (foldl db_exec finished [OpUpdate None "a" StatusFailed no_fields; OpBulk None 0 ["a"%string] StatusProcessing]).
Proof.
  apply (terminal_rows_final _ finished finished_row); [|reflexivity|repeat constructor].
  assert (db_rows finished = [finished_row]) as -> by (vm_compute; reflexivity). left.
Defined.

Lemma update_publishes_what_it_wrote_witness :
  ∃ db' t pub,
    UpdateStatus_Execute calm (during []) (during []) "a" StatusFailed no_fields (created [sample "a" None (may 1 0)])
      = (db', Ok t, pub) ∧ pub = [t].
Proof.
  destruct (UpdateStatus_Execute calm (during []) (during []) "a" StatusFailed no_fields
              (created [sample "a" None (may 1 0)])) as [[db' [t|e]] pub] eqn:E.
  - exists db', t, pub. split; [done|].
    apply (@update_publishes_what_it_wrote MemPg calm [] [] "a" StatusFailed no_fields
             (created [sample "a" None (may 1 0)]) db' t pub); [constructor|exact E].
  - exfalso. vm_compute in E. discriminate E.
Defined.

Lemma concurrent_updates_one_wins_witness :
  let db := created [sample "a" None (may 1 0)] in
  let first := UpdateStatus_Execute calm (λ d, d) (λ d, d) "a" StatusCompleted no_fields db in
  snd (fst (UpdateStatus_Execute calm (λ d, fst (fst first)) (λ d, d) "a" StatusTimeout no_fields db))
    = Err ErrTerminalState.
Proof.
  pose proof (@concurrent_updates_one_wins MemPg "a" StatusCompleted no_fields StatusTimeout no_fields
    (created [sample "a" None (may 1 0)]) (stored_sample "a" None (may 1 0))
    ltac:(vm_compute; reflexivity) eq_refl eq_refl eq_refl) as [_ E].
  cbv zeta in E |- *. rewrite E. reflexivity.
Defined.

Lemma bulk_all_or_nothing_witness :
  ∃ db', BulkUpdateStatus_Execute None 0 ["a"%string] StatusTimeout (created [sample "a" None (may 1 0)])
    = (db', Ok ["a"%string], [stub_task "a" StatusTimeout]).
Proof.
  destruct (@bulk_all_or_nothing MemPg 0 ["a"%string] StatusTimeout (created [sample "a" None (may 1 0)])
    ltac:(done) eq_refl) as [[_ E]|[_ (out & Hp & E)]].
  - vm_compute in E. discriminate E.
  - eexists. rewrite E. assert (out = ["a"%string]) as ->; [|reflexivity].
    apply Permutation_singleton_r. etransitivity; [exact Hp|]. vm_compute. reflexivity.
Defined.

Lemma duplicate_id_wedges_witness :
  Repository_FindByID None "a" (created [sample "a" None (may 1 0); sample "a" None (may 1 1)])
    = Err (EDb ErrMultiRows).
Proof.
  pose proof (@duplicate_id_wedges MemPg (sample "a" None (may 1 0)) (may 1 1) migrated StatusFailed no_fields
    eq_refl ltac:(vm_compute; reflexivity) ltac:(vm_compute; reflexivity) ltac:(vm_compute; discriminate)) as E.
  cbv zeta in E.
  destruct (CreateTask_Execute None (sample "a" None (may 1 0)) migrated) as [[db1 r1] p1] eqn:E1.
  match type of E with context [CreateTask_Execute None ?p db1] =>
    destruct (CreateTask_Execute None p db1) as [[db2 r2] p2] eqn:E2 end.
  destruct E as (_ & _ & _ & E & _). etransitivity; [|exact E]. f_equal.
  unfold created. cbn [fmap list_fmap foldl db_exec]. rewrite E1. cbn [fst].
  change (sample "a" None (may 1 1)) with (mkParams "a" "c" "h" "ns" "e" "src" "ty" JNull false None None (may 1 1)).
  cbn [cp_ID cp_Cluster cp_Handler cp_Namespace cp_EventID cp_EventSource cp_EventType cp_EventRaw cp_DryRun cp_RetryOf cp_OtelTraceID sample] in E2.
  rewrite E2. reflexivity.
Defined.

(** An original, its retry, and a retry of the retry. *)
Definition chain : DB :=
  created [sample "a" None (may 1 0); sample "b" (Some "a"%string) (may 2 0); sample "c" (Some "b"%string) (may 3 0)].

Definition chain_rank (id : string) : nat :=
  if String.eqb id "c" then 2%nat else if String.eqb id "b" then 1%nat else O.

Lemma chain_link a b : retry_link chain a b → (a = "b" ∧ b = "a")%string ∨ (a = "c" ∧ b = "b")%string.
Proof.
  intros (r & Hs & Hr). apply select_one_has_id in Hs as [Hin Hid].
  assert (db_rows chain = [stored_sample "a" None (may 1 0); stored_sample "b" (Some "a"%string) (may 2 0);
    stored_sample "c" (Some "b"%string) (may 3 0)]) as E by (vm_compute; reflexivity).
  rewrite E in Hin. subst a.
  assert (∀ id o t, r_RetryOf (stored_sample id o t) = o ∧ r_ID (stored_sample id o t) = id) as Hk
    by (intros; split; reflexivity).
  apply elem_of_cons in Hin as [->|Hin]; [rewrite (proj1 (Hk _ _ _)) in Hr; discriminate Hr|].
  apply elem_of_cons in Hin as [->|Hin]; [|apply list_elem_of_singleton in Hin as ->];
    rewrite (proj1 (Hk _ _ _)) in Hr; rewrite (proj2 (Hk _ _ _)); injection Hr as <-; auto.
Qed.

Lemma chain_root : is_root chain "a".
Proof. exists (stored_sample "a" None (may 1 0)). split; vm_compute; reflexivity. Qed.

Lemma chain_b : retry_link chain "b" "a".
Proof. exists (stored_sample "b" (Some "a"%string) (may 2 0)). split; vm_compute; reflexivity. Qed.

Lemma findRoot_terminates_witness :
  ∃ out, findRoot 3 (λ _, None) "c" chain = Some out.
Proof.
  destruct (findRoot_terminates chain_rank (λ _, None) "c" chain) as (out & E & _); [|eauto].
  intros a b [[-> ->]|[-> ->]]%chain_link; vm_compute; lia.
Defined.

Lemma lineage_of_family_witness :
  ∃ rows, Repository_Lineage 2 (λ _, None) None "b" chain = Some (Ok (fromRow <$> rows)).
Proof.
  destruct (@lineage_of_family MemPg 0 "b" "a" chain chain_root (or_intror chain_b)) as (rows & E & _). eauto.
Defined.

Lemma lineage_misses_deep_retry_witness :
  ∃ l, Repository_Lineage 3 (λ _, None) None "c" chain = Some (Ok l) ∧
       fromRow (stored_sample "c" (Some "b"%string) (may 3 0)) ∉ l.
Proof.
  apply (@lineage_misses_deep_retry MemPg 0 "a" "b" "c" chain _ chain_root chain_b);
    [discriminate|vm_compute; reflexivity|reflexivity].
Defined.

Lemma self_retry_never_answers_witness :
  ∃ db', CreateTask_Execute None (sample "a" (Some "a"%string) (may 1 0)) migrated
           = (db', Ok (NewTask (sample "a" (Some "a"%string) (may 1 0))), [NewTask (sample "a" (Some "a"%string) (may 1 0))]) ∧
         Repository_Lineage 1000 (λ _, None) None "a" db' = None.
Proof.
  apply (@self_retry_never_answers MemPg (sample "a" (Some "a"%string) (may 1 0)) migrated 1000);
    [reflexivity|reflexivity|vm_compute; reflexivity].
Defined.

Definition newest_two : ListFilter := mkFilter "" "" zero_time "" 2 "".

Definition listed_db : DB :=
  created [sample "a" None (may 1 0); sample "b" None (may 2 0); sample "c" None (may 3 0)].

Definition listed_rows : list taskRow :=
  [stored_sample "a" None (may 1 0); stored_sample "b" None (may 2 0); stored_sample "c" None (may 3 0)].

Lemma listed_by_arrival : ids_by_arrival listed_rows.
Proof.
  split.
  - intros a b Ha Hb. repeat (apply elem_of_cons in Ha as [->|Ha]); try (by apply elem_of_nil in Ha);
      repeat (apply elem_of_cons in Hb as [->|Hb]); try (by apply elem_of_nil in Hb);
      vm_compute; (reflexivity || discriminate).
  - intros a b Ha Hb. repeat (apply elem_of_cons in Ha as [->|Ha]); try (by apply elem_of_nil in Ha);
      repeat (apply elem_of_cons in Hb as [->|Hb]); try (by apply elem_of_nil in Hb);
      vm_compute; split; (reflexivity || discriminate).
  - intros a Ha. repeat (apply elem_of_cons in Ha as [->|Ha]); try (by apply elem_of_nil in Ha); discriminate.
Qed.

Lemma list_pages_tile_witness :
  ∃ l, pages 4 newest_two listed_db = Some (fromRow <$> l) ∧ l ≡ₚ listed_rows.
Proof.
  assert (matching newest_two listed_db = listed_rows) as Em by (vm_compute; reflexivity).
  destruct (@list_pages_tile MemPg newest_two listed_db) as (l & E & Hp & _).
  - reflexivity.
  - reflexivity.
  - left. reflexivity.
  - rewrite Em. apply listed_by_arrival.
  - assert (db_rows listed_db = listed_rows) as -> by (vm_compute; reflexivity).
    apply (NoDup_fmap_1 r_ID). change (r_ID <$> listed_rows) with ["a"; "b"; "c"]%string.
    exact (bool_decide_eq_true_1 (NoDup ["a"; "b"; "c"]%string) eq_refl).
  - rewrite Em in E, Hp. exists l. split; [exact E|exact Hp].
Defined.

Lemma migrated_monthly : monthly migrated.
Proof.
  apply Forall_cons. split; [|apply Forall_cons; split; [|constructor]].
  - exists 2026, 4. split; [lia|]. split; [lia|]. vm_compute. reflexivity.
  - exists 2026, 5. split; [lia|]. split; [lia|]. vm_compute. reflexivity.
Qed.

Definition june_15 : Z := month_start 2026 6 + 14 * day.
Definition jan_31 : Z := month_start 2027 1 + 30 * day.
Definition feb_10 : Z := month_start 2027 2 + 9 * day.

Lemma startup_covers_two_months_witness :
  ∃ db', ensure_partitions None None june_15 migrated = (db', Ok ()) ∧
    existsb (holds_instant (month_start 2026 7)) (db_parts db') = true.
Proof.
  destruct (startup_covers_two_months june_15 2026 6 15 2026 7 migrated migrated_monthly)
    as (db' & E & _ & Hc); [vm_compute; reflexivity|vm_compute; reflexivity|lia|lia|].
  exists db'. split; [exact E|]. apply (Hc (month_start 2026 7) 2026 7 1); [vm_compute; reflexivity|right; reflexivity].
Defined.

Lemma month_end_start_skips_witness :
  ∃ db', ensure_partitions None None jan_31 migrated = (db', Ok ()) ∧
    CreateTask_Execute None (sample "a" None feb_10) db' = (db', Err (EDb (PGError check_violation)), []).
Proof.
  apply (@month_end_start_skips MemPg jan_31 2027 1 31 2027 2 migrated (sample "a" None feb_10) 10 migrated_monthly);
    [vm_compute; reflexivity|vm_compute; reflexivity|lia|vm_compute; reflexivity| |vm_compute; reflexivity].
  intros Hin. apply elem_of_cons in Hin as [E|Hin]; [vm_compute in E; discriminate E|].
  apply list_elem_of_singleton in Hin. vm_compute in Hin. discriminate Hin.
Defined.
