(* ===== verification/TaskHttp.v ===== *)
(** * The task service: the live stream and the HTTP surface
      (src/task-service/internal/infrastructure/sse, interfaces/http)

    The hub fans published tasks out to buffered channels, one per connected
    client; a full channel drops.  Unsubscribing removes the channel under the
    lock and closes it after, so the two are separate steps.  The handlers decode
    a request, run a command of [Tasks] and map its outcome to a response. *)

From Stdlib Require Import Ascii String ZArith.
From S2P Require Import Prelude Json GoTime GoStrings Tasks.
From stdpp Require Import base list strings numbers relations gmap.
Local Open Scope Z_scope.

(** ** The hub *)

Record Chan : Type := mkChan { ch_buf : list Task; ch_got : list Task; ch_closed : bool }.

(** [h_subs] holds the ids of the registered channels; a channel outlives its
    registration in the hands of its reader. *)
Record Hub : Type := mkHub { h_subs : gset string; h_chans : gmap string Chan }.

Definition NewHub : Hub := mkHub ∅ ∅.

Definition sse_cap : nat := 16.

(** The non-blocking send; [None] is the panic of a send on a closed channel. *)
Definition try_send (t : Task) (c : Chan) : option Chan :=
  if ch_closed c then None
  else if (length (ch_buf c) <? sse_cap)%nat then Some (mkChan (ch_buf c ++ [t]) (ch_got c) false)
  else Some c.

(** One turn of the loop of [Publish]: the send to the channel of one subscriber. *)
Definition publish_send (t : Task) (id : string) (h : Hub) : option Hub :=
  c ← h_chans h !! id; c' ← try_send t c; Some (mkHub (h_subs h) (<[id := c']> (h_chans h))).

Definition Hub_Publish (t : Task) (h : Hub) : option Hub :=
  foldr (λ id acc, h ← acc; publish_send t id h) (Some h) (elements (h_subs h)).

(** [id] is the fresh ULID. *)
Definition Hub_Subscribe (id : string) (h : Hub) : Hub :=
  mkHub ({[id]} ∪ h_subs h) (<[id := mkChan [] [] false]> (h_chans h)).

(** The two halves of the returned function. *)
Definition unsub_delete (id : string) (h : Hub) : Hub := mkHub (h_subs h ∖ {[id]}) (h_chans h).

Definition unsub_close (id : string) (h : Hub) : option Hub :=
  c ← h_chans h !! id;
  if ch_closed c then None
  else Some (mkHub (h_subs h) (<[id := mkChan (ch_buf c) (ch_got c) true]> (h_chans h))).

(** The reader takes the oldest task of its channel. *)
Definition recv (id : string) (h : Hub) : option Hub :=
  c ← h_chans h !! id;
  match ch_buf c with
  | [] => None
  | t :: rest => Some (mkHub (h_subs h) (<[id := mkChan rest (ch_got c ++ [t]) (ch_closed c)]> (h_chans h)))
  end.

(** ** Requests and responses *)

Definition i32_wrap (z : Z) : Z := (z + 2147483648) mod 4294967296 - 2147483648.

(** The generated API type: an absent error is the zero value. *)
Record genTask : Type := mkGenTask {
  g_Id : string; g_Cluster : string; g_Handler : string; g_Namespace : string;
  g_EventId : string; g_EventSource : string; g_EventType : string; g_EventRaw : json;
  g_Status : string; g_DryRun : bool;
  g_SchemaOutput : option json; g_Actions : option (list ActionResult); g_Error : TaskError;
  g_RetryOf : option string; g_OtelTraceId : option string;
  g_ReceivedAt : Z; g_CompletedAt : option Z; g_DurationMs : option Z
}.

Definition no_error : TaskError := mkTaskError "" "" None None None.

(** [gen.ActionResult] has the fields of [task.ActionResult], copied one by one. *)
Definition copy_action (a : ActionResult) : ActionResult :=
  mkAction (ac_Name a) (ac_Type a) (ac_Status a) (ac_DryRun a) (ac_Error a).

Definition domainToGenTask (t : Task) : genTask :=
  mkGenTask (t_ID t) (t_Cluster t) (t_Handler t) (t_Namespace t)
    (t_EventID t) (t_EventSource t) (t_EventType t) (t_EventRaw t) (t_Status t) (t_DryRun t)
    (t_SchemaOutput t) (option_map (map copy_action) (t_Actions t))
    (match t_Error t with
     | Some e => mkTaskError (te_Type e) (te_Detail e) (te_Schema e) (te_Raw e) (te_Traceback e)
     | None => no_error
     end)
    (t_RetryOf t) (t_OtelTraceID t) (t_ReceivedAt t) (t_CompletedAt t) (option_map i32_wrap (t_DurationMs t)).

Definition genActionsToDomain (l : option (list ActionResult)) : list ActionResult :=
  match l with None => [] | Some l => copy_action <$> l end.

Inductive body : Type :=
| BNone
| BError (msg : string)
| BErr (e : task_err)
| BTask (t : genTask)
| BTasks (l : list genTask)
| BList (l : list genTask) (total : Z) (next : option string)
| BIds (l : list string)
| BHandlers (l : list HandlerAggregate)
| BDecisions (handler : string) (since : Z) (m : gmap string Z).

Record response : Type := Resp { rs_code : Z; rs_body : body }.

Definition invalid_body : response := Resp 400 (BError "invalid request body").
Definition not_found : response := Resp 404 (BError "task not found").

(** The decoded body of a status update. *)
Record UpdateStatusRequest : Type := mkUpdateReq {
  ur_Status : string; ur_CompletedAt : option Z; ur_SchemaOutput : option json;
  ur_Actions : option (list ActionResult); ur_Error : TaskError; ur_DurationMs : option Z
}.

Definition update_fields (req : UpdateStatusRequest) : UpdateFields :=
  mkFields (ur_CompletedAt req) (ur_SchemaOutput req)
    (match ur_Actions req with Some _ => Some (genActionsToDomain (ur_Actions req)) | None => None end)
    (let e := ur_Error req in
     if String.eqb (te_Type e) "" then None
     else Some (mkTaskError (te_Type e) (te_Detail e) (te_Schema e) (te_Raw e) (te_Traceback e)))
    (ur_DurationMs req).

(** A time parameter: absent, not RFC 3339, or an instant. *)
Inductive query_time : Type := QAbsent | QBad | QTime (t : Z).

Record list_query : Type := mkQuery {
  q_handler : string; q_status : string; q_since : query_time; q_sort : string; q_limit : string; q_cursor : string
}.

Section Server.
Context `{Postgres}.

(** [None] is a body that does not decode.  The handlers return the table, the
    response and what was published. *)
Definition CreateTask (tr : option trouble) (req : option CreateParams) (db : DB) : DB * response * list Task :=
  match req with
  | None => (db, invalid_body, [])
  | Some p =>
      match CreateTask_Execute tr p db with
      | (db', Err e, pub) => (db', Resp 500 (BErr e), pub)
      | (db', Ok t, pub) => (db', Resp 201 (BTask (domainToGenTask t)), pub)
      end
  end.

Definition GetTask (tr : option pg_error) (id : string) (db : DB) : response :=
  match Repository_FindByID tr id db with
  | Err ErrNotFound => not_found
  | Err e => Resp 500 (BErr e)
  | Ok t => Resp 200 (BTask (domainToGenTask t))
  end.

Definition UpdateTaskStatus (tr : update_trouble) (w1 w2 : DB → DB) (id : string)
    (req : option UpdateStatusRequest) (db : DB) : DB * response * list Task :=
  match req with
  | None => (db, invalid_body, [])
  | Some r =>
      let '(db', out, pub) := UpdateStatus_Execute tr w1 w2 id (ur_Status r) (update_fields r) db in
      (db', match out with
            | Err ErrNotFound => not_found
            | Err (ErrInvalidTransition a b) => Resp 409 (BErr (ErrInvalidTransition a b))
            | Err ErrTerminalState => Resp 409 (BErr ErrTerminalState)
            | Err e => Resp 500 (BErr e)
            | Ok t => Resp 200 (BTask (domainToGenTask t))
            end, pub)
  end.

Definition DeleteTask (tr : option trouble) (id : string) (db : DB) : DB * response :=
  match DeleteTask_Execute tr id db with
  | (db', Err ErrNotFound) => (db', not_found)
  | (db', Err e) => (db', Resp 500 (BErr e))
  | (db', Ok _) => (db', Resp 204 BNone)
  end.

(** A limit that does not scan leaves 50; a time that does not parse is the zero
    time. *)
Definition list_filter (q : list_query) : ListFilter :=
  let limit := if String.eqb (q_limit q) "" then 50
               else match scan_int (q_limit q) with Some n => n | None => 50 end in
  let since := match q_since q with QTime t => t | _ => zero_time end in
  mkFilter (q_handler q) (q_status q) since (q_sort q) limit (q_cursor q).

Definition ListTasks (tr1 tr2 : option pg_error) (q : list_query) (db1 db2 : DB) : response :=
  match ListTasks_Execute tr1 tr2 (list_filter q) db1 db2 with
  | Err e => Resp 500 (BErr e)
  | Ok r => Resp 200 (BList (domainToGenTask <$> lr_Tasks r) (i32_wrap (Z.of_nat (lr_Total r))) (lr_NextCursor r))
  end.

Definition GetTaskLineage (fuel : nat) (tr : nat → option pg_error) (tr_last : option pg_error) (id : string) (db : DB) :
    option response :=
  match Repository_Lineage fuel tr tr_last id db with
  | None => None
  | Some (Err ErrNotFound) => Some not_found
  | Some (Err e) => Some (Resp 500 (BErr e))
  | Some (Ok l) => Some (Resp 200 (BTasks (domainToGenTask <$> l)))
  end.

Definition BulkUpdateStatus (tr : option trouble) (now : Z) (req : option (list string * string)) (db : DB) :
    DB * response * list Task :=
  match req with
  | None => (db, invalid_body, [])
  | Some (ids, status) =>
      match BulkUpdateStatus_Execute tr now ids status db with
      | (db', Err e, pub) => (db', Resp 500 (BErr e), pub)
      | (db', Ok l, pub) => (db', Resp 200 (BIds l), pub)
      end
  end.

Definition handlers_since (now : Z) (since : query_time) : option Z :=
  match since with
  | QAbsent => Some (now - 30 * 24 * 3600 * second)
  | QBad => None
  | QTime t => Some t
  end.

Definition Server_ListHandlers (tr : option pg_error) (now : Z) (since : query_time) (db : DB) : response :=
  match handlers_since now since with
  | None => Resp 400 (BError "invalid since parameter")
  | Some t =>
      match ListHandlers tr now t db with
      | Err e => Resp 500 (BErr e)
      | Ok l => Resp 200 (BHandlers ((λ a, mkAggregate (ha_Handler a) (ha_Namespace a) (ha_LastTaskAt a)
                  (i32_wrap (ha_Tasks24h a)) (i32_wrap (ha_Failures24h a)) (i32_wrap (ha_ProcessingCount a))) <$> l))
      end
  end.

Definition GetDecisions (tr : option pg_error) (handler : string) (since : query_time) (db : DB) : response :=
  match since with
  | QTime t =>
      match GetDecisionDistribution tr handler t db with
      | Err e => Resp 500 (BErr e)
      | Ok m => Resp 200 (BDecisions handler t ((λ n, i32_wrap (Z.of_nat n)) <$> m))
      end
  | _ => Resp 400 (BError "invalid since parameter")
  end.

Definition RetryTask : response := Resp 501 BNone.

End Server.

(** ** The stream *)

(** [Publish] holds the read lock only, so publishers interleave between the
    sends of their loops, with each other and with the readers; subscribing and
    unregistering take the write lock, so they wait for every publisher to be
    done.  A publish is known by the number of publishes begun before it. *)
Record sent : Type := mkSent { se_pub : nat; se_task : Task; se_room : bool }.

(** What a channel was sent, in the order of the sends: the publish, its task and
    whether the buffer had room; and the publishes begun before the channel was
    registered and before it was unregistered. *)
Record send_log : Type := mkLog { lg_joined : nat; lg_left : option nat; lg_sent : list sent }.

(** [st_active] holds, for each publisher within its loop, the subscribers it has
    not reached yet. *)
Record hub_state : Type := mkState {
  st_hub : Hub;
  st_active : gmap nat (Task * gset string);
  st_begun : list Task;
  st_logs : gmap string send_log
}.

Definition hub_start : hub_state := mkState NewHub ∅ [] ∅.

Definition log_sent (e : sent) (lg : send_log) : send_log :=
  mkLog (lg_joined lg) (lg_left lg) (lg_sent lg ++ [e]).

Definition log_left (n : nat) (lg : send_log) : send_log := mkLog (lg_joined lg) (Some n) (lg_sent lg).

Definition has_room (c : Chan) : bool := (length (ch_buf c) <? sse_cap)%nat.

(** The loop ranges over the map in any order.  Ids are fresh, a reader
    unsubscribes once and closes after it has unregistered. *)
Inductive hub_step : hub_state → hub_state → Prop :=
| hs_subscribe id h b g :
    h_chans h !! id = None →
    hub_step (mkState h ∅ b g) (mkState (Hub_Subscribe id h) ∅ b (<[id := mkLog (length b) None []]> g))
| hs_begin t h m b g :
    hub_step (mkState h m b g) (mkState h (<[length b := (t, h_subs h)]> m) (b ++ [t]) g)
| hs_send n t rest id c h h' m b g :
    m !! n = Some (t, rest) → id ∈ rest → h_chans h !! id = Some c → publish_send t id h = Some h' →
    hub_step (mkState h m b g)
      (mkState h' (<[n := (t, rest ∖ {[id]})]> m) b (alter (log_sent (mkSent n t (has_room c))) id g))
| hs_end n t h m b g : m !! n = Some (t, ∅) → hub_step (mkState h m b g) (mkState h (delete n m) b g)
| hs_recv id h h' m b g : recv id h = Some h' → hub_step (mkState h m b g) (mkState h' m b g)
| hs_delete id h b g :
    id ∈ h_subs h →
    hub_step (mkState h ∅ b g) (mkState (unsub_delete id h) ∅ b (alter (log_left (length b)) id g))
| hs_close id h h' m b g :
    id ∉ h_subs h → unsub_close id h = Some h' → hub_step (mkState h m b g) (mkState h' m b g).

(** The sends that found room. *)
Definition kept (l : list sent) : list Task := se_task <$> filter (λ e, se_room e = true) l.

(** Publish [n] has still to reach [id]. *)
Definition pending (m : gmap nat (Task * gset string)) (id : string) (n : nat) : Prop :=
  ∃ t rest, m !! n = Some (t, rest) ∧ id ∈ rest.

(** The publishes a channel has been sent: those begun while it was registered,
    but for those still to reach it. *)
Definition reached (s : hub_state) (id : string) (lg : send_log) (n : nat) : Prop :=
  (lg_joined lg ≤ n < default (length (st_begun s)) (lg_left lg))%nat ∧ ¬ pending (st_active s) id n.

(** *** The invariant *)

Record chan_ok (c : Chan) (lg : send_log) : Prop := {
  cok_cap : (length (ch_buf c) ≤ sse_cap)%nat;
  cok_kept : ch_got c ++ ch_buf c = kept (lg_sent lg)
}.

Record log_ok (s : hub_state) (id : string) (lg : send_log) : Prop := {
  lok_joined : (lg_joined lg ≤ default (length (st_begun s)) (lg_left lg) ≤ length (st_begun s))%nat;
  lok_left : id ∈ h_subs (st_hub s) ↔ lg_left lg = None;
  lok_pending : ∀ n, pending (st_active s) id n → (lg_joined lg ≤ n)%nat;
  lok_once : NoDup (se_pub <$> lg_sent lg);
  lok_reached : ∀ n, n ∈ se_pub <$> lg_sent lg ↔ reached s id lg n;
  lok_tasks : ∀ e, e ∈ lg_sent lg → st_begun s !! se_pub e = Some (se_task e)
}.

Record hub_ok (s : hub_state) : Prop := {
  hok_open : ∀ id, id ∈ h_subs (st_hub s) → ∃ c, h_chans (st_hub s) !! id = Some c ∧ ch_closed c = false;
  hok_active : ∀ n t rest, st_active s !! n = Some (t, rest) →
    st_begun s !! n = Some t ∧ rest ⊆ h_subs (st_hub s);
  hok_chan : ∀ id c, h_chans (st_hub s) !! id = Some c → ∃ lg, st_logs s !! id = Some lg ∧ chan_ok c lg;
  hok_dom : ∀ id, h_chans (st_hub s) !! id = None → st_logs s !! id = None;
  hok_log : ∀ id lg, st_logs s !! id = Some lg → log_ok s id lg
}.

Definition send_to (t : Task) (c : Chan) : Chan :=
  if has_room c then mkChan (ch_buf c ++ [t]) (ch_got c) false else c.

Lemma publish_send_open t id h c :
  h_chans h !! id = Some c → ch_closed c = false →
  publish_send t id h = Some (mkHub (h_subs h) (<[id := send_to t c]> (h_chans h))).
Proof.
  intros Hc Ho. unfold publish_send, try_send, send_to, has_room. rewrite Hc. cbn [mbind option_bind].
  rewrite Ho. by destruct (_ <? _)%nat.
Qed.

Lemma send_to_open t c : ch_closed c = false → ch_closed (send_to t c) = false.
Proof. intros Ho. unfold send_to. by destruct (has_room c). Qed.

Lemma publish_list t h (ids : list string) :
  NoDup ids → (∀ id, id ∈ ids → ∃ c, h_chans h !! id = Some c ∧ ch_closed c = false) →
  ∃ m, foldr (λ id acc, h ← acc; publish_send t id h) (Some h) ids = Some (mkHub (h_subs h) m) ∧
       ∀ id, m !! id = if decide (id ∈ ids) then send_to t <$> h_chans h !! id else h_chans h !! id.
Proof.
  induction 1 as [|i ids Hi Hnd IH]; intros Hopen.
  - exists (h_chans h). split; [by destruct h|]. intros id. by rewrite decide_False by set_solver.
  - destruct IH as (m & Hm & Hl); [set_solver|]. cbn [foldr]. rewrite Hm. cbn [mbind option_bind].
    destruct (Hopen i ltac:(set_solver)) as (c & Hc & Ho). exists (<[i := send_to t c]> m). split.
    + apply (publish_send_open t i (mkHub (h_subs h) m) c); [|done]. cbn. by rewrite Hl, decide_False.
    + intros id. destruct (decide (id = i)) as [->|Hne].
      * rewrite lookup_insert_eq, decide_True, Hc by set_solver. done.
      * rewrite lookup_insert_ne, Hl by done. destruct (decide (id ∈ ids)).
        -- by rewrite decide_True by set_solver.
        -- by rewrite decide_False by set_solver.
Qed.

Lemma publish_spec t h :
  (∀ id, id ∈ h_subs h → ∃ c, h_chans h !! id = Some c ∧ ch_closed c = false) →
  ∃ m, Hub_Publish t h = Some (mkHub (h_subs h) m) ∧
       ∀ id, m !! id = if decide (id ∈ h_subs h) then send_to t <$> h_chans h !! id else h_chans h !! id.
Proof.
  intros Hopen. destruct (publish_list t h (elements (h_subs h))) as (m & Hm & Hl).
  - apply NoDup_elements.
  - set_solver.
  - exists m. split; [done|]. intros id. rewrite Hl.
    destruct (decide (id ∈ h_subs h)); [rewrite decide_True|rewrite decide_False]; set_solver.
Qed.

(** The sends of a publisher that nothing interrupts. *)
Lemma publish_sends n t ids h h' m b g :
  NoDup ids → foldr (λ id acc, h ← acc; publish_send t id h) (Some h) ids = Some h' →
  ∀ rest, m !! n = Some (t, rest) → list_to_set ids ⊆ rest →
  ∃ g', rtc hub_step (mkState h m b g) (mkState h' (<[n := (t, rest ∖ list_to_set ids)]> m) b g').
Proof.
  intros Hnd. revert h'. induction Hnd as [|i ids Hi Hnd IH]; intros h' Hf rest Hn Hsub.
  - injection Hf as <-. exists g. rewrite list_to_set_nil, difference_empty_L, insert_id by done. done.
  - cbn [foldr] in Hf. destruct (foldr _ _ ids) as [h1|] eqn:E; [|done]. cbn [mbind option_bind] in Hf.
    destruct (IH h1 eq_refl rest Hn ltac:(set_solver)) as [g1 Hr].
    assert (is_Some (h_chans h1 !! i)) as [c Hc].
    { unfold publish_send in Hf. destruct (h_chans h1 !! i); [by eexists|done]. }
    eexists. eapply rtc_r; [exact Hr|].
    assert (∀ x : gset string, rest ∖ ({[i]} ∪ x) = rest ∖ x ∖ {[i]}) as Hd by set_solver.
    rewrite list_to_set_cons, Hd.
    rewrite <-(insert_insert_eq m n (t, rest ∖ list_to_set ids ∖ {[i]}) (t, rest ∖ list_to_set ids)).
    eapply hs_send; [by rewrite lookup_insert_eq|set_solver|done|done].
Qed.

(** A publish that nothing interrupts is a run of the steps. *)
Lemma publish_runs t h h' b g :
  Hub_Publish t h = Some h' → ∃ g', rtc hub_step (mkState h ∅ b g) (mkState h' ∅ (b ++ [t]) g').
Proof.
  intros Hp. destruct (publish_sends (length b) t (elements (h_subs h)) h h' (<[length b := (t, h_subs h)]> ∅)
    (b ++ [t]) g (NoDup_elements _) Hp (h_subs h)) as [g' Hr].
  - by rewrite lookup_insert_eq.
  - set_solver.
  - exists g'. eapply rtc_l; [apply hs_begin|]. eapply rtc_r; [exact Hr|].
    rewrite insert_insert_eq, list_to_set_elements_L, difference_diag_L.
    assert (Hd : delete (length b) (<[length b := (t, ∅ : gset string)]> ∅) = (∅ : gmap nat (Task * gset string)))
      by by rewrite delete_insert_id.
    rewrite <-Hd at 2. apply (hs_end _ t). by rewrite lookup_insert_eq.
Qed.

Lemma kept_app l1 l2 : kept (l1 ++ l2) = kept l1 ++ kept l2.
Proof. unfold kept. by rewrite filter_app, fmap_app. Qed.

Lemma kept_all l : Forall (λ e, se_room e = true) l → kept l = se_task <$> l.
Proof.
  unfold kept. induction 1 as [|e l He _ IH]; [done|]. rewrite filter_cons_True by done.
  cbn [fmap list_fmap]. by f_equal.
Qed.

Lemma send_to_ok n t c lg : chan_ok c lg → chan_ok (send_to t c) (log_sent (mkSent n t (has_room c)) lg).
Proof.
  intros [Hcap Hk]. unfold send_to, log_sent. destruct (has_room c) eqn:E; split; cbn [ch_buf ch_got lg_sent];
    rewrite ?kept_app, <-?Hk.
  - apply Nat.ltb_lt in E. rewrite length_app. simpl. lia.
  - by rewrite app_assoc.
  - done.
  - unfold kept. rewrite filter_cons_False by done. cbn. by rewrite app_nil_r.
Qed.

Lemma recv_chan_ok t rest c lg :
  ch_buf c = t :: rest → chan_ok c lg → chan_ok (mkChan rest (ch_got c ++ [t]) (ch_closed c)) lg.
Proof.
  intros Eb [Hcap Hk]. rewrite Eb in Hcap, Hk. simpl in Hcap.
  split; cbn [ch_buf ch_got]; [lia|by rewrite <-app_assoc].
Qed.

(** Replacing one channel by another that is as good. *)
Lemma replace_chan_ok id c c' h m b g :
  hub_ok (mkState h m b g) → h_chans h !! id = Some c → (id ∈ h_subs h → ch_closed c' = ch_closed c) →
  (∀ lg, chan_ok c lg → chan_ok c' lg) → hub_ok (mkState (mkHub (h_subs h) (<[id := c']> (h_chans h))) m b g).
Proof.
  intros [Hopen Hact Hchan Hdom Hlog] Hc Hcl Hok. cbn in *. split; cbn; [|done| | |].
  - intros i Hi. destruct (Hopen i Hi) as (c0 & Hc0 & ?). destruct (decide (i = id)) as [->|Hne].
    + rewrite lookup_insert_eq. eexists. split; [done|]. rewrite Hcl by done. congruence.
    + rewrite lookup_insert_ne by done. eauto.
  - intros i c0. destruct (decide (i = id)) as [->|Hne]; [|rewrite lookup_insert_ne by done; apply Hchan].
    rewrite lookup_insert_eq. intros [= <-]. destruct (Hchan id c Hc) as (l & Hl & Hlc). eauto.
  - intros i [? Hi]%lookup_insert_None. auto.
  - intros i lg Hi. by destruct (Hlog i lg Hi); split.
Qed.

Lemma no_pending id n : ¬ pending ∅ id n.
Proof. intros (t & rest & Hn & _). by rewrite lookup_empty in Hn. Qed.

Lemma subscribe_ok id h b g :
  hub_ok (mkState h ∅ b g) → h_chans h !! id = None →
  hub_ok (mkState (Hub_Subscribe id h) ∅ b (<[id := mkLog (length b) None []]> g)).
Proof.
  intros [Hopen Hact Hchan Hdom Hlog] Hn. cbn in *. split; cbn.
  - intros i [->%elem_of_singleton|Hi]%elem_of_union; [rewrite lookup_insert_eq; eauto|].
    destruct (Hopen i Hi) as (c & Hc & ?). exists c. rewrite lookup_insert_ne by congruence. done.
  - intros n t rest. by rewrite lookup_empty.
  - intros i c. destruct (decide (i = id)) as [->|Hne].
    + rewrite !lookup_insert_eq. intros [= <-]. eexists. split; [done|]. split; simpl; [lia|done].
    + rewrite !lookup_insert_ne by done. apply Hchan.
  - intros i [? ?]%lookup_insert_None. rewrite lookup_insert_ne by done. auto.
  - intros i lg. destruct (decide (i = id)) as [->|Hne].
    + rewrite lookup_insert_eq. intros [= <-].
      split; cbn; [lia|set_solver|by intros ? ?%no_pending|apply NoDup_nil_2| |set_solver].
      intros n. unfold reached. cbn. split; [set_solver|intros [? _]; lia].
    + rewrite lookup_insert_ne by done. intros Hi. destruct (Hlog i lg Hi) as [H1 H2 H6 H3 H4 H5].
      split; cbn in *; [done| |done|done|done|done]. rewrite <-H2. set_solver.
Qed.

Lemma begin_ok t h m b g :
  hub_ok (mkState h m b g) → hub_ok (mkState h (<[length b := (t, h_subs h)]> m) (b ++ [t]) g).
Proof.
  intros [Hopen Hact Hchan Hdom Hlog]. cbn in *.
  assert (Hnew : m !! length b = None).
  { destruct (m !! length b) as [[t' rest]|] eqn:E; [|done]. apply Hact in E as [E _].
    apply lookup_lt_Some in E. lia. }
  split; cbn; [done| |done|done|].
  - intros n t' rest. destruct (decide (n = length b)) as [->|Hne].
    + rewrite lookup_insert_eq. intros [= <- <-]. split; [|done]. rewrite lookup_app_r, Nat.sub_diag by lia. done.
    + rewrite lookup_insert_ne by done. intros [Hb ?]%Hact. split; [by apply lookup_app_l_Some|done].
  - intros i lg Hi. destruct (Hlog i lg Hi) as [H1 H2 H6 H3 H4 H5]. cbn in *. split; cbn; [|done| |done| |].
    + rewrite length_app. simpl. destruct (lg_left lg); cbn in *; lia.
    + intros n. unfold pending. destruct (decide (n = length b)) as [->|Hne].
      * intros _. destruct (lg_left lg); cbn in *; lia.
      * rewrite lookup_insert_ne by done. apply H6.
    + intros n. rewrite H4. unfold reached, pending. cbn. rewrite length_app. cbn.
      destruct (decide (n = length b)) as [->|Hne].
      * rewrite lookup_insert_eq, Hnew. split; [intros [? _]; destruct (lg_left lg); cbn in *; lia|].
        intros [Hr Hp]. exfalso. apply Hp. eexists _, _. split; [done|]. apply H2.
        destruct (lg_left lg); [cbn in *; lia|done].
      * rewrite lookup_insert_ne by done. destruct (lg_left lg); cbn in *; [done|].
        split; intros [? ?]; (split; [lia|done]).
    + intros e He. apply lookup_app_l_Some. auto.
Qed.

Lemma pending_send m n t rest id i k :
  m !! n = Some (t, rest) →
  pending (<[n := (t, rest ∖ {[id]})]> m) i k ↔ pending m i k ∧ ¬ (k = n ∧ i = id).
Proof.
  intros Hn. unfold pending. destruct (decide (k = n)) as [->|Hne].
  - rewrite lookup_insert_eq, Hn. split.
    + intros (t' & r' & [= <- <-] & Hi). split; [|set_solver]. eexists _, _. split; [done|set_solver].
    + intros [(t' & r' & [= <- <-] & Hi) Hx]. eexists _, _. split; [done|].
      apply elem_of_difference. split; [done|]. rewrite elem_of_singleton. tauto.
  - rewrite lookup_insert_ne by done. tauto.
Qed.

(** The log of the channel that is sent to, and of the others. *)
Lemma send_log_ok n t rest id r h h' m b g i lg :
  (∀ i lg, g !! i = Some lg → log_ok (mkState h m b g) i lg) → h_subs h' = h_subs h →
  m !! n = Some (t, rest) → id ∈ rest → rest ⊆ h_subs h → b !! n = Some t →
  alter (log_sent (mkSent n t r)) id g !! i = Some lg →
  log_ok (mkState h' (<[n := (t, rest ∖ {[id]})]> m) b (alter (log_sent (mkSent n t r)) id g)) i lg.
Proof.
  intros Hlog Hs Hn Hid Hsub Hb. destruct (decide (i = id)) as [->|Hne].
  - rewrite lookup_alter_eq. intros (lg0 & Hg & ->)%fmap_Some. destruct (Hlog id lg0 Hg) as [H1 H2 H6 H3 H4 H5]. cbn in *.
    assert (Hp : pending m id n) by (eexists _, _; done).
    assert (Hl : lg_left lg0 = None) by (apply H2; set_solver).
    split; cbn; [done|by rewrite Hs| | | |].
    + intros k [Hk _]%(pending_send _ _ _ _ _ _ _ Hn). auto.
    + rewrite fmap_app. cbn. apply NoDup_app. split_and!; [done| |apply NoDup_singleton].
      intros x Hx ->%list_elem_of_singleton. by apply H4 in Hx as [_ []].
    + intros k. rewrite fmap_app. cbn. rewrite elem_of_app, list_elem_of_singleton, H4. unfold reached. cbn.
      rewrite (pending_send _ _ _ _ _ _ _ Hn), Hl. cbn. rewrite Hl in H1. cbn in H1.
      split; [intros [[? ?]| ->]|].
      * split; [done|]. tauto.
      * split; [|tauto]. apply lookup_lt_Some in Hb. auto.
      * intros [? Hk]. destruct (decide (k = n)) as [->|]; [by right|left]. split; [done|]. tauto.
    + intros e [He| ->%list_elem_of_singleton]%elem_of_app; [auto|done].
  - rewrite lookup_alter_ne by done. intros Hg. destruct (Hlog i lg Hg) as [H1 H2 H6 H3 H4 H5]. cbn in *.
    split; cbn; [done|by rewrite Hs| |done| |done].
    { intros k [Hk _]%(pending_send _ _ _ _ _ _ _ Hn). auto. }
    intros k. rewrite H4. unfold reached. cbn. rewrite (pending_send _ _ _ _ _ _ _ Hn). tauto.
Qed.

Lemma send_ok n t rest id c h h' m b g :
  hub_ok (mkState h m b g) → m !! n = Some (t, rest) → id ∈ rest → h_chans h !! id = Some c →
  publish_send t id h = Some h' →
  hub_ok (mkState h' (<[n := (t, rest ∖ {[id]})]> m) b (alter (log_sent (mkSent n t (has_room c))) id g)).
Proof.
  intros [Hopen Hact Hchan Hdom Hlog] Hn Hid Hc Hsend. cbn in *. destruct (Hact _ _ _ Hn) as [Hb Hsub].
  destruct (Hopen id ltac:(set_solver)) as (c0 & Hc0 & Ho). rewrite Hc in Hc0. injection Hc0 as <-.
  rewrite (publish_send_open t id h c Hc Ho) in Hsend. injection Hsend as <-. split; cbn.
  - intros i Hi. destruct (decide (i = id)) as [->|Hne].
    + rewrite lookup_insert_eq. eexists. split; [done|]. by apply send_to_open.
    + rewrite lookup_insert_ne by done. auto.
  - intros k t' r'. destruct (decide (k = n)) as [->|Hne].
    + rewrite lookup_insert_eq. intros [= <- <-]. split; [done|set_solver].
    + rewrite lookup_insert_ne by done. apply Hact.
  - intros i c'. destruct (decide (i = id)) as [->|Hne].
    + rewrite lookup_insert_eq, lookup_alter_eq. intros [= <-]. destruct (Hchan id c Hc) as (lg & -> & Hlg).
      eexists. split; [done|]. by apply send_to_ok.
    + rewrite lookup_insert_ne, lookup_alter_ne by done. apply Hchan.
  - intros i [? ?]%lookup_insert_None. rewrite lookup_alter_ne by done. auto.
  - intros i lg. by apply (send_log_ok n t rest id (has_room c) h).
Qed.

Lemma end_ok n t h m b g :
  hub_ok (mkState h m b g) → m !! n = Some (t, ∅) → hub_ok (mkState h (delete n m) b g).
Proof.
  intros [Hopen Hact Hchan Hdom Hlog] Hn. cbn in *.
  assert (Hp : ∀ i k, pending (delete n m) i k ↔ pending m i k).
  { intros i k. unfold pending. destruct (decide (k = n)) as [->|Hne].
    - rewrite lookup_delete_eq, Hn. split; intros (t' & r' & Hx & Hi); [done|]. injection Hx as <- <-. set_solver.
    - by rewrite lookup_delete_ne by done. }
  split; cbn; [done| |done|done|].
  - intros k t' r' [_ Hk]%lookup_delete_Some. by apply Hact in Hk.
  - intros i lg Hi. destruct (Hlog i lg Hi) as [H1 H2 H6 H3 H4 H5]. split; cbn in *; [done|done| |done| |done].
    + intros k ?%Hp. auto.
    + intros k. rewrite H4. unfold reached. cbn. by rewrite Hp.
Qed.

Lemma delete_ok id h b g :
  hub_ok (mkState h ∅ b g) → id ∈ h_subs h →
  hub_ok (mkState (unsub_delete id h) ∅ b (alter (log_left (length b)) id g)).
Proof.
  intros [Hopen Hact Hchan Hdom Hlog] Hid. cbn in *. split; cbn.
  - intros i Hi. apply Hopen. set_solver.
  - intros n t rest. by rewrite lookup_empty.
  - intros i c Hc. destruct (Hchan i c Hc) as (lg & Hg & Hlg). destruct (decide (i = id)) as [->|Hne].
    + rewrite lookup_alter_eq, Hg. eexists. split; [done|]. by destruct Hlg; split.
    + rewrite lookup_alter_ne by done. eauto.
  - intros i ?%Hdom. destruct (decide (i = id)) as [->|Hne]; [rewrite lookup_alter_eq|rewrite lookup_alter_ne by done; done].
    by apply fmap_None.
  - intros i lg. destruct (decide (i = id)) as [->|Hne].
    + rewrite lookup_alter_eq. intros (lg0 & Hg & ->)%fmap_Some. destruct (Hlog id lg0 Hg) as [H1 H2 H6 H3 H4 H5].
      split; cbn in *; [lia|set_solver|done|done| |done].
      intros k. rewrite H4. unfold reached. cbn. apply H2 in Hid. by rewrite Hid.
    + rewrite lookup_alter_ne by done. intros Hi. destruct (Hlog i lg Hi) as [H1 H2 H6 H3 H4 H5].
      split; cbn in *; [done| |done|done|done|done]. rewrite <-H2. set_solver.
Qed.

Lemma hub_step_ok s s' : hub_ok s → hub_step s s' → hub_ok s'.
Proof.
  intros Hs Hstep. destruct Hstep as [id h b g Hn|t h m b g|n t rest id c h h' m b g Hn Hid Hc Hp
    |n t h m b g Hn|id h h' m b g Hr|id h b g Hi|id h h' m b g Hi Hc].
  - by apply subscribe_ok.
  - by apply begin_ok.
  - by eapply send_ok.
  - by eapply end_ok.
  - unfold recv in Hr. destruct (h_chans h !! id) as [c|] eqn:Hc; [|done]. cbn [mbind option_bind] in Hr.
    destruct (ch_buf c) as [|t rest] eqn:Eb; [done|]. injection Hr as <-.
    eapply replace_chan_ok; [done|done|done|]. intros lg. by apply recv_chan_ok.
  - by apply delete_ok.
  - unfold unsub_close in Hc. destruct (h_chans h !! id) as [c|] eqn:E; [|done]. cbn [mbind option_bind] in Hc.
    destruct (ch_closed c); [done|]. injection Hc as <-.
    eapply replace_chan_ok; [done|done|done|]. intros lg [Hcap Hk]. by split.
Qed.

Lemma hub_reachable_ok s : rtc hub_step hub_start s → hub_ok s.
Proof.
  intros Hr. eapply (rtc_ind_r hub_ok hub_start); [|intros; by eapply hub_step_ok|exact Hr].
  split; cbn; [set_solver|intros n t rest; by rewrite lookup_empty|intros id c; by rewrite lookup_empty|done|].
  intros id lg. by rewrite lookup_empty.
Qed.

(** A log only grows, at its end. *)
Lemma hub_step_log s s' id lg :
  hub_ok s → hub_step s s' → st_logs s !! id = Some lg →
  ∃ lg', st_logs s' !! id = Some lg' ∧ lg_sent lg `prefix_of` lg_sent lg'.
Proof.
  intros Hs Hstep Hg. destruct Hstep as [i h b g Hn|t h m b g|n t rest i c h h' m b g Hn Hid Hc Hp
    |n t h m b g Hn|i h h' m b g Hr|i h b g Hi|i h h' m b g Hi Hc]; cbn in *; try (by exists lg).
  - apply (hok_dom _ Hs) in Hn. cbn in Hn. exists lg. rewrite lookup_insert_ne by congruence. done.
  - destruct (decide (i = id)) as [->|Hne]; [|exists lg; by rewrite lookup_alter_ne].
    rewrite lookup_alter_eq, Hg. eexists. split; [done|]. by eexists.
  - destruct (decide (i = id)) as [->|Hne]; [|exists lg; by rewrite lookup_alter_ne].
    rewrite lookup_alter_eq, Hg. eexists. by split.
Qed.

Lemma logs_grow s s' id lg :
  hub_ok s → rtc hub_step s s' → st_logs s !! id = Some lg →
  ∃ lg', st_logs s' !! id = Some lg' ∧ lg_sent lg `prefix_of` lg_sent lg'.
Proof.
  intros Hs Hr. revert lg Hs. induction Hr as [s|s1 s2 s3 Hstep Hr IH]; intros lg Hs Hg; [by exists lg|].
  destruct (hub_step_log _ _ _ _ Hs Hstep Hg) as (lg2 & Hg2 & Hp2).
  destruct (IH lg2 (hub_step_ok _ _ Hs Hstep) Hg2) as (lg3 & Hg3 & Hp3). exists lg3. split; [done|]. by etrans.
Qed.

(** C33. Whatever the interleaving of the sends of concurrent publishers with one
    another, with the readers and with connecting and disconnecting clients: no
    send a publisher has still to make is on a closed channel, and every
    registered channel can be published to; a client is sent every publish begun
    while it was registered exactly once, as soon as the publisher's loop has
    come to it, and no other; what it has received and what waits in its buffer
    are, in the order of the sends, the tasks whose send found room in the buffer
    of 16, hence all it was sent as long as no send found the buffer full; and
    the order never changes afterwards, so that a publish that ended before
    another began comes first. *)
Theorem stream_delivers_in_order s :
  rtc hub_step hub_start s →
  (∀ n t rest id, st_active s !! n = Some (t, rest) → id ∈ rest → is_Some (publish_send t id (st_hub s))) ∧
  (∀ t, is_Some (Hub_Publish t (st_hub s))) ∧
  (∀ id c, h_chans (st_hub s) !! id = Some c →
    ∃ lg, st_logs s !! id = Some lg ∧
      (id ∈ h_subs (st_hub s) ↔ lg_left lg = None) ∧
      NoDup (se_pub <$> lg_sent lg) ∧
      (∀ n, n ∈ se_pub <$> lg_sent lg ↔ reached s id lg n) ∧
      (∀ e, e ∈ lg_sent lg → st_begun s !! se_pub e = Some (se_task e)) ∧
      ch_got c ++ ch_buf c = kept (lg_sent lg) ∧
      (Forall (λ e, se_room e = true) (lg_sent lg) → ch_got c ++ ch_buf c = se_task <$> lg_sent lg)) ∧
  (∀ s' id lg, rtc hub_step s s' → st_logs s !! id = Some lg →
    ∃ lg', st_logs s' !! id = Some lg' ∧ lg_sent lg `prefix_of` lg_sent lg').
Proof.
  intros Hs%hub_reachable_ok. destruct (Hs) as [Hopen Hact Hchan Hdom Hlog]. split_and!.
  - intros n t rest id Hn Hid. destruct (Hact _ _ _ Hn) as [_ Hsub].
    destruct (Hopen id ltac:(set_solver)) as (c & Hc & Ho). rewrite (publish_send_open _ _ _ _ Hc Ho). by eexists.
  - intros t. destruct (publish_spec t (st_hub s) Hopen) as (m & Hm & _). rewrite Hm. by eexists.
  - intros id c Hc. destruct (Hchan id c Hc) as (lg & Hg & [_ Hk]). exists lg.
    destruct (Hlog id lg Hg) as [H1 H2 H6 H3 H4 H5]. split_and!; try done.
    intros Hall. by rewrite Hk, kept_all.
  - intros s' id lg Hr Hg. by eapply logs_grow.
Qed.

(** ** The handlers *)

(** The outcome columns of a task as the API shows them, as an update request. *)
Definition resend (g : genTask) : UpdateStatusRequest :=
  mkUpdateReq (g_Status g) (g_CompletedAt g) (g_SchemaOutput g) (g_Actions g) (g_Error g) (g_DurationMs g).

Lemma copy_action_id a : copy_action a = a.
Proof. by destruct a. Qed.

Lemma i32_wrap_small z : -2147483648 ≤ z < 2147483648 → i32_wrap z = z.
Proof. intros. unfold i32_wrap. rewrite Z.mod_small by lia. lia. Qed.

(** What the API shows of a task's outcome, sent back as an update, is the
    task's outcome: completion time, output, actions, error and duration, for an
    error with a type and a duration of 32 bits. *)
Theorem outcome_roundtrip t :
  (∀ e, t_Error t = Some e → te_Type e ≠ ""%string) →
  (∀ d, t_DurationMs t = Some d → -2147483648 ≤ d < 2147483648) →
  update_fields (resend (domainToGenTask t)) =
    mkFields (t_CompletedAt t) (t_SchemaOutput t) (t_Actions t) (t_Error t) (t_DurationMs t).
Proof.
  intros He Hd. unfold update_fields, resend, domainToGenTask.
  cbn [ur_CompletedAt ur_SchemaOutput ur_Actions ur_Error ur_DurationMs g_CompletedAt g_SchemaOutput g_Actions g_Error g_DurationMs].
  f_equal.
  - destruct (t_Actions t) as [l|]; [|done]. cbn [option_map genActionsToDomain]. f_equal.
    induction l as [|a l IH]; [done|]. cbn [map]. by rewrite fmap_cons, !copy_action_id, IH.
  - destruct (t_Error t) as [e|] eqn:E; [|done]. cbn [te_Type].
    specialize (He e eq_refl). apply String.eqb_neq in He. rewrite He. by destruct e.
  - destruct (t_DurationMs t) as [d|]; [|done]. simpl. by rewrite i32_wrap_small by auto.
Qed.

Section Codes.
Context `{Postgres}.

(** The answer to a status update, when nothing interferes: 404 for an
    unknown task, 200 exactly for a processing task and a terminal status, 409 for
    any other transition, 500 for an id that names several rows; anything but 200
    changes nothing and publishes nothing. *)
Theorem update_response_codes id req db :
  let '(db', resp, pub) := UpdateTaskStatus calm (λ d, d) (λ d, d) id (Some req) db in
  rs_code resp =
    match filter (λ r, has_id id r = true) (db_rows db) with
    | [] => 404
    | [r] => if String.eqb (r_Status r) StatusProcessing && IsTerminal (ur_Status req) then 200 else 409
    | _ => 500
    end ∧
  (rs_code resp ≠ 200 → db' = db ∧ pub = []).
Proof.
  unfold UpdateTaskStatus. rewrite update_status_branches.
  destruct (filter _ _) as [|r [|s l]]; [done| |done].
  by destruct (String.eqb _ _ && _).
Qed.

(** A list request whose [since] does not parse is answered as if it had none. *)
Theorem bad_since_lists_all tr1 tr2 q db1 db2 :
  q_since q = QBad →
  ListTasks tr1 tr2 q db1 db2 =
  ListTasks tr1 tr2 (mkQuery (q_handler q) (q_status q) QAbsent (q_sort q) (q_limit q) (q_cursor q)) db1 db2.
Proof. intros E. unfold ListTasks, list_filter. by rewrite E. Qed.

(** A created task is what a later read returns, as stored: the create answers
    201 and publishes the task once, and the read answers 200 with the same task,
    its documents and times as the columns keep them. *)
Theorem create_then_get p db :
  existsb (has_id (cp_ID p)) (db_rows db) = false →
  existsb (holds_instant (stored_time (cp_ReceivedAt p))) (db_parts db) = true →
  ∃ db', CreateTask None (Some p) db = (db', Resp 201 (BTask (domainToGenTask (NewTask p))), [NewTask p]) ∧
    GetTask None (cp_ID p) db' =
      Resp 200 (BTask (domainToGenTask (fromRow (store_row (toRow (NewTask p)))))).
Proof.
  intros Hno Hp. destruct (create_fresh p db Hno Hp) as (db' & Hc & Hs). exists db'.
  unfold CreateTask. rewrite Hc. split; [done|]. unfold GetTask, Repository_FindByID, read. by rewrite Hs.
Qed.

(** A bulk update that meets a terminal task is answered 500 although the
    single update answers 409, and leaves every task of the batch as it was. *)
Theorem bulk_conflict_is_internal_error now ids status db r :
  r ∈ db_rows db → mem_str (r_ID r) ids = true → IsTerminal (r_Status r) = true →
  mem_str status task_status = true →
  BulkUpdateStatus None now (Some (ids, status)) db = (db, Resp 500 (BErr ErrTerminalState), []).
Proof.
  intros Hr Hin Ht Hst. unfold BulkUpdateStatus, BulkUpdateStatus_Execute, Repository_BulkUpdateStatus.
  destruct ids as [|i ids]; [done|]. cbn [run]. unfold update_stmt. rewrite Hst. cbn [negb].
  assert (existsb (λ r, mem_str (r_ID r) (i :: ids) && prevent_terminal_update r) (db_rows db) = true) as ->.
  { apply existsb_exists. exists r. split; [by apply list_elem_of_In|]. by rewrite Hin, trigger_is_terminal. }
  unfold update_err. cbn [isTerminalViolation]. by rewrite integrity_class.
Qed.

End Codes.

(** ** Witnesses *)

Definition outcome_sample : Task :=
  mkTask "a" "c" "h" "ns" "e" "src" "ty" JNull StatusActionError false (Some JNull)
    (Some [mkAction "n" "t" "failed" false (Some "x"%string)])
    (Some (mkTaskError "ActionError" "boom" None None None)) None None 0 (Some 5) (Some 12).

Lemma outcome_roundtrip_witness :
  uf_DurationMs (update_fields (resend (domainToGenTask outcome_sample))) = Some 12.
Proof.
  rewrite (outcome_roundtrip outcome_sample).
  - reflexivity.
  - intros e [= <-]. discriminate.
  - intros d [= <-]. lia.
Defined.

(** A turn of a publisher's loop, where it has one left for the client. *)
Definition turn (n : nat) (id : string) (s : hub_state) : hub_state :=
  match st_active s !! n, h_chans (st_hub s) !! id with
  | Some (t, rest), Some c =>
      match publish_send t id (st_hub s) with
      | Some h' =>
          if decide (id ∈ rest)
          then mkState h' (<[n := (t, rest ∖ {[id]})]> (st_active s)) (st_begun s)
                 (alter (log_sent (mkSent n t (has_room c))) id (st_logs s))
          else s
      | None => s
      end
  | _, _ => s
  end.

Lemma turn_runs n id s : rtc hub_step s (turn n id s).
Proof.
  unfold turn. destruct (st_active s !! n) as [[t rest]|] eqn:En; [|done].
  destruct (h_chans (st_hub s) !! id) as [c|] eqn:Ec; [|done].
  destruct (publish_send t id (st_hub s)) as [h'|] eqn:Ep; [|done].
  case_decide; [|done]. apply rtc_once. destruct s. cbn in *. by eapply hs_send.
Qed.

(** Two publishers over two clients: the second publisher reaches "s" first. *)
Definition crossed : hub_state :=
  let t := outcome_sample in
  let h := Hub_Subscribe "q" (Hub_Subscribe "s" NewHub) in
  turn 0 "s" (turn 0 "q" (turn 1 "s"
    (mkState h (<[1%nat := (t, h_subs h)]> (<[0%nat := (t, h_subs h)]> ∅)) [t; t]
      (<["q"%string := mkLog 0 None []]> (<["s"%string := mkLog 0 None []]> ∅))))).

Lemma crossed_runs : rtc hub_step hub_start crossed.
Proof.
  unfold crossed. do 3 (etrans; [|apply turn_runs]).
  eapply rtc_l; [apply (hs_subscribe "s"); reflexivity|]. eapply rtc_l; [apply (hs_subscribe "q"); reflexivity|].
  eapply rtc_l; [apply (hs_begin outcome_sample)|]. apply rtc_once. apply (hs_begin outcome_sample).
Qed.

Lemma stream_delivers_in_order_witness :
  is_Some (publish_send outcome_sample "q" (st_hub crossed)) ∧
  se_pub <$> default [] (lg_sent <$> st_logs crossed !! "s"%string) = [1%nat; 0%nat] ∧
  reached crossed "q" (mkLog 0 None []) 0.
Proof.
  destruct (stream_delivers_in_order crossed crossed_runs) as (Hsend & _ & Hchan & _). split_and!.
  - eapply (Hsend 1%nat); [vm_compute; reflexivity|]. vm_compute. done.
  - vm_compute. reflexivity.
  - destruct (Hchan "q"%string (mkChan [outcome_sample] [] false)) as (lg & Hg & _ & _ & Hr & _);
      [vm_compute; reflexivity|].
    assert (Hl : st_logs crossed !! "q"%string = Some (mkLog 0 None [mkSent 0 outcome_sample true]))
      by (vm_compute; reflexivity).
    rewrite Hl in Hg. injection Hg as <-. destruct (proj1 (Hr 0%nat)) as [H1 H2]; [left|]. by split.
Defined.

#[local] Existing Instance MemPg.

Lemma create_then_get_witness :
  ∃ db', CreateTask None (Some (sample "a" None (may 1 0))) migrated =
      (db', Resp 201 (BTask (domainToGenTask (NewTask (sample "a" None (may 1 0))))), [NewTask (sample "a" None (may 1 0))]).
Proof.
  destruct (@create_then_get MemPg (sample "a" None (may 1 0)) migrated eq_refl ltac:(vm_compute; reflexivity))
    as (db' & E & _). exists db'. exact E.
Defined.

Lemma bulk_conflict_is_internal_error_witness :
  BulkUpdateStatus None 0 (Some (["a"%string], StatusTimeout)) finished =
    (finished, Resp 500 (BErr ErrTerminalState), []).
Proof.
  apply (@bulk_conflict_is_internal_error MemPg 0 ["a"%string] StatusTimeout finished finished_row);
    [|reflexivity|reflexivity|reflexivity].
  assert (db_rows finished = [finished_row]) as -> by (vm_compute; reflexivity). left.
Defined.
