(* ===== verification/TaskApi.v ===== *)
(** * The task service's generated API (src/task-service/internal/interfaces/http/gen)

    The controller that the OpenAPI generator wrote next to the service's own handlers:
    its routes, the readers of its parameters, the checks of required fields, its error
    handler and the stub service, and the handler of the live stream.  The service mounts
    the routes of [Server] and not these; the theorems say where the two agree on a
    request and where they do not.  A query is the list of its pairs, [None] when it is
    malformed; a body is what the decoder made of it and whether it had fields the type
    does not have; [walk] is the order in which Go walks a map.
    The texts of the standard library's errors are abbreviated. *)

From Stdlib Require Import Ascii String ZArith.
From S2P Require Import Prelude Json GoTime GoStrings Flags Tasks TaskHttp.
From stdpp Require Import base list strings numbers gmap sorting.
Local Open Scope Z_scope.
Local Open Scope go_scope.

(** ** Required fields *)

(** A field as [reflect] sees it.  A time carries its location; maps and slices may be
    nil. *)
Inductive gen_value : Type :=
| VStr (s : string)
| VBool (b : bool)
| VInt (n : Z)
| VTime (t : Z) (utc : bool)
| VMap (missing : bool)
| VSlice (missing : bool).

Definition IsZeroValue (v : gen_value) : bool :=
  match v with
  | VStr s => String.eqb s ""
  | VBool b => negb b
  | VInt n => n =? 0
  | VTime t utc => utc && IsZero t
  | VMap missing | VSlice missing => missing
  end.

Inductive api_err : Type :=
| ParsingError (param msg : string)
| RequiredError (field : string)
| OtherError (msg : string).

Definition Error_text (e : api_err) : string :=
  match e with
  | ParsingError param msg => if String.eqb param "" then msg else param +:+ ": " +:+ msg
  | RequiredError field => "required field '" +:+ field +:+ "' is zero value."
  | OtherError msg => msg
  end.

Fixpoint first_zero (els : list (string * gen_value)) : option api_err :=
  match els with
  | [] => None
  | (name, v) :: rest => if IsZeroValue v then Some (RequiredError name) else first_zero rest
  end.

(** The first error of a list of checks. *)
Fixpoint first_error {A} (f : A → option api_err) (l : list A) : option api_err :=
  match l with
  | [] => None
  | x :: rest => match f x with Some e => Some e | None => first_error f rest end
  end.

Definition then_check (e1 e2 : option api_err) : option api_err := match e1 with Some _ => e1 | None => e2 end.

(** A value nested in slices, for [AssertRecurseValueRequired]: a struct of the expected
    type or of another, a slice, or anything else. *)
Inductive nested (T : Type) : Type :=
| NStruct (obj : option T)
| NSlice (l : list (nested T))
| NOther.
Arguments NStruct {T}.
Arguments NSlice {T}.
Arguments NOther {T}.

Fixpoint AssertRecurseValueRequired {T} (callback : T → option api_err) (v : nested T) : option api_err :=
  match v with
  | NStruct None => Some (OtherError "unable to assert type")
  | NStruct (Some obj) => callback obj
  | NSlice l =>
      (fix go (l : list (nested T)) : option api_err :=
         match l with
         | [] => None
         | x :: rest => match AssertRecurseValueRequired callback x with Some e => Some e | None => go rest end
         end) l
  | NOther => None
  end.

(** The structs of a nested value, in preorder. *)
Fixpoint structs {T} (v : nested T) : list (option T) :=
  match v with
  | NStruct obj => [obj]
  | NSlice l => (fix go (l : list (nested T)) : list (option T) :=
                   match l with [] => [] | x :: rest => structs x ++ go rest end) l
  | NOther => []
  end.

(** ** Requests *)

(** [event_raw] may be missing; [received_at] is an instant and whether it is UTC. *)
Record CreateTaskRequest : Type := mkCreateTask {
  cr_Id : string; cr_Cluster : string; cr_Handler : string; cr_Namespace : string; cr_EventId : string;
  cr_EventSource : string; cr_EventType : string; cr_EventRaw : option json; cr_Status : string; cr_DryRun : bool;
  cr_RetryOf : option string; cr_OtelTraceId : option string; cr_ReceivedAt : Z * bool
}.

Record BulkUpdateStatusRequest : Type := mkBulk { bk_Ids : option (list string); bk_Status : string }.

(** [gen.TaskList]. *)
Record TaskList : Type := mkTaskList { tl_Tasks : option (list genTask); tl_Total : Z; tl_NextCursor : option string }.

Section Asserts.
Context (walk : list (string * gen_value) → list (string * gen_value)).

Definition is_nil {A} (o : option A) : bool := match o with None => true | Some _ => false end.

Definition AssertActionResultRequired (a : ActionResult) : option api_err :=
  first_zero (walk [("name", VStr (ac_Name a)); ("type", VStr (ac_Type a)); ("status", VStr (ac_Status a));
                    ("dry_run", VBool (ac_DryRun a))]%string).

Definition AssertTaskErrorRequired (e : TaskError) : option api_err :=
  first_zero (walk [("type", VStr (te_Type e)); ("detail", VStr (te_Detail e))]%string).

Definition AssertCreateTaskRequestRequired (r : CreateTaskRequest) : option api_err :=
  first_zero (walk
    [ ("id", VStr (cr_Id r)); ("cluster", VStr (cr_Cluster r)); ("handler", VStr (cr_Handler r));
      ("namespace", VStr (cr_Namespace r)); ("event_id", VStr (cr_EventId r)); ("event_source", VStr (cr_EventSource r));
      ("event_type", VStr (cr_EventType r)); ("event_raw", VMap (is_nil (cr_EventRaw r))); ("status", VStr (cr_Status r));
      ("dry_run", VBool (cr_DryRun r)); ("received_at", VTime (fst (cr_ReceivedAt r)) (snd (cr_ReceivedAt r))) ]%string).

Definition AssertBulkUpdateStatusRequestRequired (r : BulkUpdateStatusRequest) : option api_err :=
  first_zero (walk [("ids", VSlice (is_nil (bk_Ids r))); ("status", VStr (bk_Status r))]%string).

Definition AssertUpdateStatusRequestRequired (r : UpdateStatusRequest) : option api_err :=
  then_check (first_zero (walk [("status", VStr (ur_Status r))]%string))
    (then_check (first_error AssertActionResultRequired (default [] (ur_Actions r)))
       (AssertTaskErrorRequired (ur_Error r))).

Definition AssertTaskRequired (t : genTask) : option api_err :=
  then_check (first_zero (walk
    [ ("id", VStr (g_Id t)); ("cluster", VStr (g_Cluster t)); ("handler", VStr (g_Handler t));
      ("namespace", VStr (g_Namespace t)); ("event_id", VStr (g_EventId t)); ("event_source", VStr (g_EventSource t));
      ("event_type", VStr (g_EventType t)); ("event_raw", VMap (match g_EventRaw t with JNull => true | _ => false end));
      ("status", VStr (g_Status t)); ("dry_run", VBool (g_DryRun t)); ("received_at", VTime (g_ReceivedAt t) true) ]%string))
    (then_check (first_error AssertActionResultRequired (default [] (g_Actions t))) (AssertTaskErrorRequired (g_Error t))).

Definition AssertTaskListRequired (l : TaskList) : option api_err :=
  then_check (first_zero (walk [("tasks", VSlice (is_nil (tl_Tasks l))); ("total", VInt (tl_Total l))]%string))
    (first_error AssertTaskRequired (default [] (tl_Tasks l))).

Definition AssertHandlerAggregateRequired (a : HandlerAggregate) : option api_err :=
  first_zero (walk [("handler", VStr (ha_Handler a)); ("namespace", VStr (ha_Namespace a))]%string).
End Asserts.

(** ** The status enumeration *)

Definition AllowedTaskStatusEnumValues : list string :=
  ["Processing"; "Completed"; "Failed"; "SchemaValidationFailed"; "ActionError"; "UnprocessableEvent"; "PendingApproval";
   "Timeout"; "Retried"]%string.

Definition TaskStatus_IsValid (v : string) : bool := existsb (String.eqb v) AllowedTaskStatusEnumValues.

Definition NewTaskStatusFromValue (v : string) : option string := if TaskStatus_IsValid v then Some v else None.

(** ** Parameters *)

Section Numbers.
(** A number type, by its value. *)
Context {T : Type} (zero : T).

(** The value, whether it is the default, or an error. *)
Definition Operation : Type := string → res string (T * bool).
Definition Constraint : Type := T → option string.

Definition errMsgRequiredMissing : string := "required parameter is missing".
Definition errMsgMinValueConstraint : string := "provided parameter is not respecting minimum value constraint".
Definition errMsgMaxValueConstraint : string := "provided parameter is not respecting maximum value constraint".

Definition WithParse (parse : string → res string T) : Operation :=
  λ actual, let? v := parse actual in Ok (v, false).

Definition WithRequire (parse : string → res string T) : Operation :=
  λ actual, if String.eqb actual "" then Err errMsgRequiredMissing else let? v := parse actual in Ok (v, false).

Definition WithDefaultOrParse (def : T) (parse : string → res string T) : Operation :=
  λ actual, if String.eqb actual "" then Ok (def, true) else let? v := parse actual in Ok (v, false).

Fixpoint run_checks (checks : list Constraint) (v : T) : option string :=
  match checks with
  | [] => None
  | c :: rest => match c v with Some e => Some e | None => run_checks rest v end
  end.

Definition parseNumericParameter (param : string) (fn : Operation) (checks : list Constraint) : res string T :=
  let? r := fn param in
  let '(v, ok) := r in
  if ok then Ok v else match run_checks checks v with Some e => Err e | None => Ok v end.

Fixpoint parse_each (strs : list string) (fn : Operation) (checks : list Constraint) : res string (list T) :=
  match strs with
  | [] => Ok []
  | s :: rest =>
      let? v := parseNumericParameter s fn checks in
      let? vs := parse_each rest fn checks in
      Ok (v :: vs)
  end.

(** [None] is a nil slice. *)
Definition parseNumericArrayParameter (param : string) (delim : ascii) (required : bool) (fn : Operation)
    (checks : list Constraint) : res string (option (list T)) :=
  if String.eqb param "" then if required then Err errMsgRequiredMissing else Ok None
  else let? vs := parse_each (string_of_list_ascii <$> split_at delim (chars param) []) fn checks in Ok (Some vs).
End Numbers.

Definition WithMinimum (expected : Z) : Constraint (T := Z) :=
  λ actual, if actual <? expected then Some errMsgMinValueConstraint else None.

Definition WithMaximum (expected : Z) : Constraint (T := Z) :=
  λ actual, if expected <? actual then Some errMsgMaxValueConstraint else None.

(** [ParseInt(s, 10, bits)]: what fits 64 bits is read as [Atoi] does. *)
Definition parseInt64 (param : string) : res string Z :=
  if String.eqb param "" then Ok 0 else match Atoi param with Some n => Ok n | None => Err "strconv.ParseInt"%string end.

Definition parseInt32 (param : string) : res string Z :=
  if String.eqb param "" then Ok 0
  else match Atoi param with
       | Some n => if (-2147483648 <=? n) && (n <=? 2147483647) then Ok n else Err "strconv.ParseInt"%string
       | None => Err "strconv.ParseInt"%string
       end.

Definition parseBool (param : string) : res string bool :=
  if String.eqb param "" then Ok false else match ParseBool param with Some b => Ok b | None => Err "strconv.ParseBool"%string end.

Definition parseBoolParameter (param : string) (fn : Operation (T := bool)) : res string bool :=
  let? r := fn param in Ok (fst r).

Section Times.
(** [time.Parse] with the RFC 3339 layout. *)
Context (rfc3339 : string → option Z).

Definition parseTime (param : string) : res string Z :=
  if String.eqb param "" then Ok zero_time
  else match rfc3339 param with Some t => Ok t | None => Err "parsing time"%string end.

Fixpoint parse_times (parts : list string) : res string (list Z) :=
  match parts with
  | [] => Ok []
  | p :: rest => let? t := parseTime p in let? ts := parse_times rest in Ok (t :: ts)
  end.

Definition parseTimes (param : string) : res string (list Z) :=
  parse_times (string_of_list_ascii <$> split_at "," (chars param) []).
End Times.

(** ** Responses *)

Inductive gen_body : Type :=
| GNil
| GText (s : string)
| GVal (b : body)
| GFile (name : string) (data : option string).

Record ImplResponse : Type := Response { ir_Code : Z; ir_Body : gen_body }.

(** Status and headers with what is written; nothing when a file cannot be read. *)
Record gen_out : Type := mkOut { go_code : Z; go_type : string; go_attachment : option string; go_body : gen_body }.

(** ** Services *)

Inductive decoded (A : Type) : Type := NotDecoded (msg : string) | Decoded (v : A) (unknown : bool).
Arguments NotDecoded {A}.
Arguments Decoded {A}.

(** What the service does with a request: its state, a response and an error. *)
Record TasksAPIServicer (ST : Type) : Type := mkServicer {
  sv_ListTasks : ListFilter → ST → ST * ImplResponse * option api_err;
  sv_CreateTask : CreateTaskRequest → ST → ST * ImplResponse * option api_err;
  sv_StreamTasks : ST → ST * ImplResponse * option api_err;
  sv_GetDecisions : Z → string → ST → ST * ImplResponse * option api_err;
  sv_BulkUpdateStatus : BulkUpdateStatusRequest → ST → ST * ImplResponse * option api_err;
  sv_GetTask : string → ST → ST * ImplResponse * option api_err;
  sv_DeleteTask : string → ST → ST * ImplResponse * option api_err;
  sv_UpdateTaskStatus : string → UpdateStatusRequest → ST → ST * ImplResponse * option api_err;
  sv_RetryTask : string → ST → ST * ImplResponse * option api_err;
  sv_GetTaskLineage : string → ST → ST * ImplResponse * option api_err
}.
Arguments mkServicer {ST}.
Arguments sv_ListTasks {ST}.
Arguments sv_CreateTask {ST}.
Arguments sv_StreamTasks {ST}.
Arguments sv_GetDecisions {ST}.
Arguments sv_BulkUpdateStatus {ST}.
Arguments sv_GetTask {ST}.
Arguments sv_DeleteTask {ST}.
Arguments sv_UpdateTaskStatus {ST}.
Arguments sv_RetryTask {ST}.
Arguments sv_GetTaskLineage {ST}.

Notation query := (list (string * string)).

Definition query_Has (k : string) (q : query) : bool := existsb (λ kv, String.eqb kv.1 k) q.

Fixpoint query_Get (k : string) (q : query) : string :=
  match q with [] => "" | (k', v) :: rest => if String.eqb k' k then v else query_Get k rest end.

Section Encode.
Context (detect : string → string).

Definition EncodeJSONResponse (i : gen_body) (status : option Z) : option gen_out :=
  match i with
  | GFile name None => None
  | GFile name (Some data) => Some (mkOut (default 200 status) (detect data) (Some name) i)
  | _ => Some (mkOut (default 200 status) "application/json; charset=UTF-8" None i)
  end.

(** [None] is the dereference of a missing result. *)
Definition DefaultErrorHandler (e : api_err) (result : option ImplResponse) : option (option gen_out) :=
  match e with
  | ParsingError _ _ => Some (EncodeJSONResponse (GText (Error_text e)) (Some 400))
  | RequiredError _ => Some (EncodeJSONResponse (GText (Error_text e)) (Some 422))
  | OtherError _ => r ← result; Some (EncodeJSONResponse (GText (Error_text e)) (Some (ir_Code r)))
  end.

(** ** The controller *)

Section Controller.
Context {ST : Type} (service : TasksAPIServicer ST) (rfc3339 : string → option Z).
Context (walk : list (string * gen_value) → list (string * gen_value)).

(** The state and the answer; [None] is a panic. *)
Definition answer : Type := ST * option (option gen_out).

Definition refuse (e : api_err) (s : ST) : answer := (s, DefaultErrorHandler e None).

Definition finish (r : ST * ImplResponse * option api_err) : answer :=
  let '(s, result, err) := r in
  match err with
  | Some e => (s, DefaultErrorHandler e (Some result))
  | None => (s, Some (EncodeJSONResponse (ir_Body result) (Some (ir_Code result))))
  end.

(** The parameters of a listing: a default order, and a limit from 1 to 200 that is 50
    when there is none. *)
Definition list_params (q : query) : res api_err ListFilter :=
  let? since :=
    (if query_Has "since" q then
       match parseTime rfc3339 (query_Get "since" q) with Ok t => Ok t | Err m => Err (ParsingError "since" m) end
     else Ok zero_time) in
  let sort := if query_Has "sort" q then query_Get "sort" q else "received_at:desc"%string in
  let? limit :=
    (if query_Has "limit" q then
       match parseNumericParameter (query_Get "limit" q) (WithParse parseInt32) [WithMinimum 1; WithMaximum 200] with
       | Ok n => Ok n
       | Err m => Err (ParsingError "limit" m)
       end
     else Ok 50) in
  Ok (mkFilter (query_Get "handler" q) (query_Get "status" q) since sort limit (query_Get "cursor" q)).

Definition gen_ListTasks (q : option query) (s : ST) : answer :=
  match q with
  | None => refuse (ParsingError "" "invalid query") s
  | Some q => match list_params q with Err e => refuse e s | Ok f => finish (sv_ListTasks service f s) end
  end.

(** Decode without unknown fields, then the checks. *)
Definition gen_body_of {A} (required : A → option api_err) (b : decoded A) : res api_err A :=
  match b with
  | NotDecoded m => Err (ParsingError "" m)
  | Decoded v true => Err (ParsingError "" "json: unknown field")
  | Decoded v false => match required v with Some e => Err e | None => Ok v end
  end.

Definition gen_CreateTask (b : decoded CreateTaskRequest) (s : ST) : answer :=
  match gen_body_of (AssertCreateTaskRequestRequired walk) b with
  | Err e => refuse e s
  | Ok r => finish (sv_CreateTask service r s)
  end.

Definition gen_StreamTasks (s : ST) : answer := finish (sv_StreamTasks service s).

Definition gen_GetDecisions (q : option query) (s : ST) : answer :=
  match q with
  | None => refuse (ParsingError "" "invalid query") s
  | Some q =>
      if query_Has "since" q then
        match parseTime rfc3339 (query_Get "since" q) with
        | Err m => refuse (ParsingError "since" m) s
        | Ok t => finish (sv_GetDecisions service t (query_Get "handler" q) s)
        end
      else refuse (RequiredError "since") s
  end.

Definition gen_BulkUpdateStatus (b : decoded BulkUpdateStatusRequest) (s : ST) : answer :=
  match gen_body_of (AssertBulkUpdateStatusRequestRequired walk) b with
  | Err e => refuse e s
  | Ok r => finish (sv_BulkUpdateStatus service r s)
  end.

(** The handlers with an id in the path. *)
Definition with_id (id : string) (s : ST) (k : ST → answer) : answer :=
  if String.eqb id "" then refuse (RequiredError "id") s else k s.

Definition gen_GetTask (id : string) (s : ST) : answer := with_id id s (λ s, finish (sv_GetTask service id s)).
Definition gen_DeleteTask (id : string) (s : ST) : answer := with_id id s (λ s, finish (sv_DeleteTask service id s)).

Definition gen_UpdateTaskStatus (id : string) (b : decoded UpdateStatusRequest) (s : ST) : answer :=
  with_id id s (λ s,
    match gen_body_of (AssertUpdateStatusRequestRequired walk) b with
    | Err e => refuse e s
    | Ok r => finish (sv_UpdateTaskStatus service id r s)
    end).

Definition gen_RetryTask (id : string) (s : ST) : answer := with_id id s (λ s, finish (sv_RetryTask service id s)).
Definition gen_GetTaskLineage (id : string) (s : ST) : answer := with_id id s (λ s, finish (sv_GetTaskLineage service id s)).

(** A request to the generated controller. *)
Inductive gen_request : Type :=
| GListTasks (q : option query)
| GCreateTask (b : decoded CreateTaskRequest)
| GStreamTasks
| GGetDecisions (q : option query)
| GBulkUpdateStatus (b : decoded BulkUpdateStatusRequest)
| GGetTask (id : string)
| GDeleteTask (id : string)
| GUpdateTaskStatus (id : string) (b : decoded UpdateStatusRequest)
| GRetryTask (id : string)
| GGetTaskLineage (id : string).

Definition gen_handle (r : gen_request) (s : ST) : answer :=
  match r with
  | GListTasks q => gen_ListTasks q s
  | GCreateTask b => gen_CreateTask b s
  | GStreamTasks => gen_StreamTasks s
  | GGetDecisions q => gen_GetDecisions q s
  | GBulkUpdateStatus b => gen_BulkUpdateStatus b s
  | GGetTask id => gen_GetTask id s
  | GDeleteTask id => gen_DeleteTask id s
  | GUpdateTaskStatus id b => gen_UpdateTaskStatus id b s
  | GRetryTask id => gen_RetryTask id s
  | GGetTaskLineage id => gen_GetTaskLineage id s
  end.
End Controller.

(** The stub the generator wrote. *)
Definition not_implemented {ST} (method : string) (s : ST) : ST * ImplResponse * option api_err :=
  (s, Response 501 GNil, Some (OtherError (method +:+ " method not implemented"))).

Definition TasksAPIService (ST : Type) : TasksAPIServicer ST :=
  mkServicer (λ _, not_implemented "ListTasks") (λ _, not_implemented "CreateTask") (not_implemented "StreamTasks")
    (λ _ _, not_implemented "GetDecisions") (λ _, not_implemented "BulkUpdateStatus") (λ _, not_implemented "GetTask")
    (λ _, not_implemented "DeleteTask") (λ _ _, not_implemented "UpdateTaskStatus") (λ _, not_implemented "RetryTask")
    (λ _, not_implemented "GetTaskLineage").
End Encode.

(** ** Routes *)

Record Route : Type := mkRoute { ro_Name : string; ro_Method : string; ro_Pattern : string }.

Definition task_routes : list Route :=
  [ mkRoute "ListTasks" "GET" "/tasks"; mkRoute "CreateTask" "POST" "/tasks"; mkRoute "StreamTasks" "GET" "/tasks/stream";
    mkRoute "GetDecisions" "GET" "/tasks/decisions"; mkRoute "BulkUpdateStatus" "PATCH" "/tasks/bulk/status";
    mkRoute "GetTask" "GET" "/tasks/{id}"; mkRoute "DeleteTask" "DELETE" "/tasks/{id}";
    mkRoute "UpdateTaskStatus" "PATCH" "/tasks/{id}/status"; mkRoute "RetryTask" "POST" "/tasks/{id}/retry";
    mkRoute "GetTaskLineage" "GET" "/tasks/{id}/lineage" ].

Definition handler_routes : list Route := [mkRoute "ListHandlers" "GET" "/handlers"].

(** [NewRouter] registers the routes of its routers in order. *)
Definition NewRouter (routers : list (list Route)) : list Route := concat routers.

(** What the service mounts. *)
Definition Server_Routes : list Route :=
  [ mkRoute "CreateTask" "POST" "/tasks"; mkRoute "ListTasks" "GET" "/tasks"; mkRoute "StreamTasks" "GET" "/tasks/stream";
    mkRoute "GetDecisions" "GET" "/tasks/decisions"; mkRoute "BulkUpdateStatus" "PATCH" "/tasks/bulk/status";
    mkRoute "GetTask" "GET" "/tasks/{id}"; mkRoute "UpdateTaskStatus" "PATCH" "/tasks/{id}/status";
    mkRoute "DeleteTask" "DELETE" "/tasks/{id}"; mkRoute "RetryTask" "POST" "/tasks/{id}/retry";
    mkRoute "GetTaskLineage" "GET" "/tasks/{id}/lineage"; mkRoute "ListHandlers" "GET" "/handlers" ].

#[global] Instance Route_eq_dec : EqDecision Route.
Proof. solve_decision. Defined.

(** ** The live stream *)

(** What the handler of the stream can meet: the client is gone, a task, or a closed
    channel. *)
Inductive sse_input : Type := SseGone | SseTask (t : Task) | SseClosed.

Section Sse.
(** [json.Marshal]. *)
Context (marshal : genTask → option string).

Definition sse_frame (data : string) : string := "data: " +:+ data +:+ String "010" (String "010" "").

Fixpoint sse_loop (ins : list sse_input) : list string :=
  match ins with
  | [] | SseGone :: _ | SseClosed :: _ => []
  | SseTask t :: rest =>
      match marshal (domainToGenTask t) with
      | None => sse_loop rest
      | Some data => sse_frame data :: sse_loop rest
      end
  end.

(** The status, and the frames that are flushed. *)
Definition SSE_ServeHTTP (flusher : bool) (ins : list sse_input) : Z * list string :=
  if flusher then (200, sse_loop ins) else (500, ["SSE not supported"%string]).
End Sse.

(** ** What is shown *)

Lemma first_zero_spec els : first_zero els = None ↔ Forall (λ el, IsZeroValue el.2 = false) els.
Proof.
  induction els as [|[n v] els IH]; cbn; [split; [constructor|done]|].
  destruct (IsZeroValue v) eqn:E; rewrite Forall_cons; cbn; [split; [done|intros [? _]; congruence]|tauto].
Qed.

Lemma first_zero_required els e : first_zero els = Some e → ∃ f, e = RequiredError f ∧ f ∈ els.*1.
Proof.
  induction els as [|[n v] els IH]; cbn; [done|]. destruct (IsZeroValue v); [intros [= <-]; exists n; set_solver|].
  intros (f & -> & Hf)%IH. exists f. set_solver.
Qed.

Lemma first_error_app {A} (f : A → option api_err) l1 l2 :
  first_error f (l1 ++ l2) = match first_error f l1 with Some e => Some e | None => first_error f l2 end.
Proof. induction l1 as [|x l1 IH]; cbn; [done|]. by destruct (f x). Qed.

Section Shown.
Context (detect : string → string) (rfc3339 : string → option Z).
Context (walk : list (string * gen_value) → list (string * gen_value)).
Hypothesis walk_perm : ∀ l, walk l ≡ₚ l.

Lemma walked_zero els n v : (n, v) ∈ els → IsZeroValue v = true → ∃ f, first_zero (walk els) = Some (RequiredError f) ∧ f ∈ els.*1.
Proof.
  intros Hin Hz. destruct (first_zero (walk els)) as [e|] eqn:E.
  - apply first_zero_required in E as (f & -> & Hf). exists f. split; [done|]. by rewrite walk_perm in Hf.
  - apply first_zero_spec in E. rewrite walk_perm, Forall_forall in E. specialize (E _ Hin). cbn in E. congruence.
Qed.

Context {ST : Type} (service : TasksAPIServicer ST).

(** A required boolean that is false counts as missing: the generated controller refuses
    every task that is not a dry run, and does not ask the service. *)
Theorem live_runs_refused r s :
  cr_DryRun r = false →
  ∃ f, gen_CreateTask detect service walk (Decoded r false) s =
    (s, Some (EncodeJSONResponse detect (GText (Error_text (RequiredError f))) (Some 422))).
Proof.
  intros Hd. unfold gen_CreateTask, gen_body_of, AssertCreateTaskRequestRequired.
  match goal with |- context [walk ?els] => destruct (walked_zero els "dry_run" (VBool (cr_DryRun r))) as (f & -> & _) end;
    [set_solver|by rewrite Hd|by exists f].
Qed.

Lemma first_error_required {A} (f : A → option api_err) l e :
  (∀ x e, f x = Some e → ∃ n, e = RequiredError n) → first_error f l = Some e → ∃ n, e = RequiredError n.
Proof.
  intros Hf. induction l as [|x l IH]; cbn; [done|]. destruct (f x) eqn:E; [intros [= <-]; by eapply Hf|done].
Qed.

Lemma walked_required els e : first_zero (walk els) = Some e → ∃ n, e = RequiredError n.
Proof. intros (f & -> & _)%first_zero_required. by exists f. Qed.

(** What the checks of requests report. *)
Lemma update_required r e : AssertUpdateStatusRequestRequired walk r = Some e → ∃ n, e = RequiredError n.
Proof.
  unfold AssertUpdateStatusRequestRequired, then_check.
  destruct (first_zero _) eqn:E1; [intros [= <-]; by eapply walked_required|].
  destruct (first_error _ _) eqn:E2; [intros [= <-]|apply walked_required].
  by eapply first_error_required, E2; intros ? ? ?%walked_required.
Qed.

(** The error of an update is optional in the type and required by its check: an update
    without one is refused, whatever its status. *)
Theorem updates_need_an_error id r s :
  id ≠ ""%string → te_Type (ur_Error r) = ""%string →
  ∃ f, gen_UpdateTaskStatus detect service walk id (Decoded r false) s =
    (s, Some (EncodeJSONResponse detect (GText (Error_text (RequiredError f))) (Some 422))).
Proof.
  intros Hid Ht. unfold gen_UpdateTaskStatus, with_id, gen_body_of. rewrite (proj2 (String.eqb_neq _ _) Hid).
  destruct (AssertUpdateStatusRequestRequired walk r) as [e|] eqn:E.
  - apply update_required in E as [f ->]. by exists f.
  - exfalso. unfold AssertUpdateStatusRequestRequired, then_check in E.
    destruct (first_zero _); [done|]. destruct (first_error _ _); [done|].
    unfold AssertTaskErrorRequired in E. revert E.
    match goal with |- context [walk ?els] =>
      destruct (walked_zero els "type" (VStr (te_Type (ur_Error r)))) as (f & -> & _) end; [left|by rewrite Ht|done].
Qed.

(** The errors the controller raises itself. *)
Definition raised (e : api_err) : Prop := match e with OtherError _ => False | _ => True end.

Lemma body_refused {A} (required : A → option api_err) b e :
  (∀ v e, required v = Some e → ∃ n, e = RequiredError n) → gen_body_of required b = Err e → raised e.
Proof.
  intros Hr. destruct b as [m|v []]; cbn; [by intros [= <-]..|].
  destruct (required v) eqn:E; [|done]. intros [= <-]. by destruct (Hr _ _ E) as [n ->].
Qed.

Lemma list_refused q e : list_params rfc3339 q = Err e → raised e.
Proof. unfold list_params. intros. by repeat case_match; simplify_eq. Qed.

(** A call of the service. *)
Inductive served : (ST → ST * ImplResponse * option api_err) → Prop :=
| sv1 f : served (sv_ListTasks service f)
| sv2 r : served (sv_CreateTask service r)
| sv3 : served (sv_StreamTasks service)
| sv4 t h : served (sv_GetDecisions service t h)
| sv5 r : served (sv_BulkUpdateStatus service r)
| sv6 id : served (sv_GetTask service id)
| sv7 id : served (sv_DeleteTask service id)
| sv8 id r : served (sv_UpdateTaskStatus service id r)
| sv9 id : served (sv_RetryTask service id)
| sv10 id : served (sv_GetTaskLineage service id).

(** A request is refused before the service is asked, or it is one call of the
    service. *)
Lemma handle_shape r s :
  (∃ e, raised e ∧ gen_handle detect service rfc3339 walk r s = refuse detect e s) ∨
  (∃ f, served f ∧ gen_handle detect service rfc3339 walk r s = finish detect (f s)).
Proof.
  destruct r as [[q|]|b| |[q|]|b|id|id|id b|id|id]; cbn;
    unfold gen_CreateTask, gen_BulkUpdateStatus, gen_GetTask, gen_DeleteTask, gen_UpdateTaskStatus, gen_RetryTask,
      gen_GetTaskLineage, gen_StreamTasks, with_id; repeat case_match;
    try (right; eexists; split; [constructor|reflexivity]); left; eexists; (split; [|reflexivity]); try done.
  - by eapply list_refused.
  - eapply body_refused; [|done]. intros ? ?. apply walked_required.
  - eapply body_refused; [|done]. intros ? ?. apply walked_required.
  - eapply body_refused; [apply update_required|done].
Qed.

(** Every request is answered: whatever the service returns, no handler reads the code
    of a result that is not there. *)
Theorem gen_always_answers r s : is_Some (snd (gen_handle detect service rfc3339 walk r s)).
Proof.
  destruct (handle_shape r s) as [(e & He & ->)|(f & _ & ->)].
  - destruct e; [by eexists..|done].
  - unfold finish. destruct (f s) as [[s' result] [[]|]]; by eexists.
Qed.
End Shown.

(** The stub answers 400, 422 or 501 and changes nothing. *)
Theorem stub_changes_nothing {ST} detect rfc3339 walk r (s : ST) :
  ∃ out, gen_handle detect (TasksAPIService ST) rfc3339 walk r s = (s, Some (Some out)) ∧ go_code out ∈ [400; 422; 501].
Proof.
  destruct (handle_shape detect rfc3339 walk (TasksAPIService ST) r s) as [(e & He & ->)|(f & Hf & ->)].
  - destruct e; [..|done]; eexists; (split; [reflexivity|cbn; set_solver]).
  - destruct Hf; eexists; (split; [reflexivity|cbn; set_solver]).
Qed.

(** Slices are checked in preorder: the answer is the first error of the structs. *)
Theorem recurse_is_preorder {T} (callback : T → option api_err) v :
  AssertRecurseValueRequired callback v =
  first_error (λ o, match o with Some x => callback x | None => Some (OtherError "unable to assert type") end) (structs v).
Proof.
  revert v. fix IH 1. intros [[x|]|l|]; cbn; [by destruct (callback x)|done| |done].
  induction l as [|x l IHl]; [done|]. rewrite first_error_app, <- IH, <- IHl. by destruct (AssertRecurseValueRequired callback x).
Qed.

(** The statuses of the API are those of the table. *)
Lemma statuses_agree v : TaskStatus_IsValid v = mem_str v task_status.
Proof. reflexivity. Qed.

(** The generated routers mount what the service mounts. *)
Theorem routes_agree : NewRouter [task_routes; handler_routes] ≡ₚ Server_Routes ∧ NoDup ((λ r, (ro_Method r, ro_Pattern r)) <$> Server_Routes).
Proof. split; apply (bool_decide_eq_true_1 _); vm_compute; reflexivity. Qed.

(** ** Listings agree *)

Lemma decimal_lead cs : ∀ acc n, decimal acc cs = Some n → lead_digits acc cs = n.
Proof.
  induction cs as [|c cs IH]; intros acc n; cbn; [by intros [= ->]|]. destruct (digit_val c); [apply IH|done].
Qed.

(** What [Atoi] reads, [Sscanf] reads the same. *)
Lemma Atoi_scan s n : Atoi s = Some n → scan_int s = Some n.
Proof.
  unfold Atoi, scan_int. intros H.
  assert (Hb : skip_blanks (chars s) = chars s).
  { destruct (chars s) as [|c cs]; [done|]. destruct (Ascii.eqb_spec c " ") as [->|]; [done|].
    destruct c as [[] [] [] [] [] [] [] []]; done. }
  rewrite Hb. destruct (match chars s with "-"%char :: _ => _ | _ => _ end) as [sign body]. destruct body as [|c body]; [done|].
  destruct (decimal 0 (c :: body)) as [m|] eqn:E; [|done]. rewrite (decimal_lead _ _ _ E).
  cbn in E. by destruct (digit_val c).
Qed.

Lemma query_absent k q : query_Has k q = false → query_Get k q = ""%string.
Proof. unfold query_Has. induction q as [|[k' v] q IH]; cbn; [done|]. by destruct (String.eqb k' k). Qed.

(** A query as the service's own handler reads it. *)
Definition own_query (rfc3339 : string → option Z) (q : query) : list_query :=
  mkQuery (query_Get "handler" q) (query_Get "status" q)
    (let v := query_Get "since" q in
     if String.eqb v "" then QAbsent else match rfc3339 v with Some t => QTime t | None => QBad end)
    (query_Get "sort" q) (query_Get "limit" q) (query_Get "cursor" q).

(** Two filters that ask for the same. *)
Lemma same_listing `{Postgres} tr1 tr2 f f' db1 db2 :
  lf_Handler f = lf_Handler f' → lf_Status f = lf_Status f' → lf_Since f = lf_Since f' → lf_Limit f = lf_Limit f' →
  lf_Cursor f = lf_Cursor f' → ascending f = ascending f' →
  ListTasks_Execute tr1 tr2 f db1 db2 = ListTasks_Execute tr1 tr2 f' db1 db2.
Proof.
  destruct f as [h st si so l cu], f' as [h' st' si' so' l' cu']. cbn. intros -> -> -> -> -> Ha.
  unfold ListTasks_Execute, Repository_List, list_where, list_limit. cbn. by rewrite Ha.
Qed.

Lemma limit_agrees v n :
  parseNumericParameter v (WithParse parseInt32) [WithMinimum 1; WithMaximum 200] = Ok n →
  1 ≤ n ≤ 200 ∧ v ≠ ""%string ∧ scan_int v = Some n.
Proof.
  unfold parseNumericParameter, WithParse, parseInt32. destruct (String.eqb_spec v ""); [done|].
  destruct (Atoi v) as [m|] eqn:E; [|done]. destruct (_ && _); [|done]. cbn. unfold WithMinimum, WithMaximum.
  destruct (Z.ltb_spec m 1); [done|]. destruct (Z.ltb_spec 200 m); [done|]. intros [= <-].
  split; [lia|]. split; [done|]. by apply Atoi_scan.
Qed.

(** On a query the generated controller accepts, its service is asked for what the
    service's own handler lists: the same tasks, in the same order, and at most 200. *)
Theorem listing_agrees `{Postgres} rfc3339 q f tr1 tr2 db1 db2 :
  list_params rfc3339 q = Ok f →
  1 ≤ lf_Limit f ≤ 200 ∧
  ListTasks_Execute tr1 tr2 f db1 db2 = ListTasks_Execute tr1 tr2 (TaskHttp.list_filter (own_query rfc3339 q)) db1 db2.
Proof.
  unfold list_params. intros Hp.
  destruct (if query_Has "since" q then _ else _) as [since|] eqn:Es; [|done].
  destruct (if query_Has "limit" q then _ else _) as [limit|] eqn:El; [|done]. injection Hp as <-.
  assert (Hl : 1 ≤ limit ≤ 200 ∧ limit = lf_Limit (TaskHttp.list_filter (own_query rfc3339 q))).
  { unfold TaskHttp.list_filter, own_query. cbn. destruct (query_Has "limit" q) eqn:Eh.
    - destruct (parseNumericParameter _ _ _) as [n|] eqn:En; simplify_eq. apply limit_agrees in En as (? & Hv & ->).
      by rewrite (proj2 (String.eqb_neq _ _) Hv).
    - injection El as <-. by rewrite (query_absent _ _ Eh). }
  assert (Hs : since = lf_Since (TaskHttp.list_filter (own_query rfc3339 q))).
  { unfold TaskHttp.list_filter, own_query. cbn. destruct (query_Has "since" q) eqn:Eh.
    - unfold parseTime in Es. destruct (String.eqb _ ""); [by simplify_eq|]. by destruct (rfc3339 _); simplify_eq.
    - injection Es as <-. by rewrite (query_absent _ _ Eh). }
  split; [apply Hl|]. apply same_listing; try done; [apply Hl|].
  unfold ascending, own_query, TaskHttp.list_filter. cbn. destruct (query_Has "sort" q) eqn:Eh; [done|]. by rewrite (query_absent _ _ Eh).
Qed.

(** And the service's own handler takes queries the generated one refuses: a limit
    beyond 200, and a time that is none. *)
Theorem own_handler_takes_more rfc3339 v :
  rfc3339 "yesterday"%string = None →
  (∃ e, list_params rfc3339 [("limit", "1000000")]%string = Err e) ∧
  lf_Limit (TaskHttp.list_filter (own_query rfc3339 [("limit", "1000000")]%string)) = 1000000 ∧
  (∃ e, list_params rfc3339 [("since", "yesterday"); ("handler", v)]%string = Err e) ∧
  lf_Since (TaskHttp.list_filter (own_query rfc3339 [("since", "yesterday"); ("handler", v)]%string)) = zero_time.
Proof.
  intros Hy. split_and!; [by eexists|done| |]; unfold list_params, own_query, TaskHttp.list_filter, parseTime; cbn -[zero_time];
    rewrite Hy; [by eexists|done].
Qed.

(** ** The stream *)

(** Tasks up to the first end of the stream. *)
Fixpoint before_end (ins : list sse_input) : list Task :=
  match ins with SseTask t :: rest => t :: before_end rest | _ => [] end.

(** Every task that arrives before the client leaves or the channel closes is one frame,
    in order, unless it cannot be encoded. *)
Theorem stream_frames marshal ins :
  SSE_ServeHTTP marshal true ins = (200, sse_frame <$> omap (λ t, marshal (domainToGenTask t)) (before_end ins)).
Proof.
  unfold SSE_ServeHTTP. f_equal. induction ins as [|[|t|] ins IH]; cbn; try done.
  rewrite IH. by destruct (marshal (domainToGenTask t)).
Qed.

(** ** Samples *)

Module Samples.
Definition times (s : string) : option Z := if String.eqb s "2024-01-01T00:00:00Z" then Some 1704067200000000000 else None.
Definition asked : query := [("limit", "20"); ("since", "2024-01-01T00:00:00Z"); ("sort", "received_at:asc")]%string.

Lemma listing_agrees_witness `{Postgres} :
  ListTasks_Execute None None (mkFilter "" "" 1704067200000000000 "received_at:asc" 20 "") migrated migrated =
  ListTasks_Execute None None (TaskHttp.list_filter (own_query times asked)) migrated migrated.
Proof. apply (listing_agrees times asked); reflexivity. Defined.

Definition live : CreateTaskRequest :=
  mkCreateTask "t1" "c" "h" "ns" "e" "src" "ty" (Some (JObj [])) "Processing" false None None (1704067200000000000, true).

Lemma live_runs_refused_witness :
  ∃ f, gen_CreateTask (λ _, ""%string) (TasksAPIService unit) id (Decoded live false) tt =
    (tt, Some (EncodeJSONResponse (λ _, ""%string) (GText (Error_text (RequiredError f))) (Some 422))).
Proof. apply (live_runs_refused (λ _, ""%string) id (λ l, Permutation_refl l) (TasksAPIService unit) live tt). reflexivity. Defined.
End Samples.
