(* ===== verification/ServerConfig.v ===== *)
(** * The controller's environment and its checks (src/controller/config.go)

    Compiled-in defaults, the overrides of the environment and the start-up
    validation.  [Config] (file [Config]) is the part of the configuration the
    controller's logic reads; [ServerConfig] is all of it.  A variable that
    carries JSON is its parse tree. *)

From Stdlib Require Import Ascii String ZArith.
From S2P Require Import Prelude Json GoTime GoStrings Bolt EventStore EventHub Fsm Monitor Config.
From S2P Require Import Agent Manager Policy.
From stdpp Require Import base list strings numbers.
Local Open Scope Z_scope.
Local Open Scope go_scope.

Record MonitorConfig : Type := mkMonitorConfig {
  mc_Interval : Z; mc_SummarizerModel : string; mc_ClassifierModel : string;
  mc_BaseURL : string; mc_APIKey : string; mc_Timeout : Z
}.

Definition Enabled (m : MonitorConfig) : bool := negb (String.eqb (mc_APIKey m) "").

Record ServerConfig : Type := mkServerConfig {
  sc_core : Config;
  sc_GatewayAddr : string; sc_CredsDir : string; sc_ListenAddr : string; sc_ModelGatewayURL : string;
  sc_ServerDescription : string; sc_EventStorePath : string; sc_DaemonToken : string;
  sc_DaemonCommand : string; sc_DaemonPort : string; sc_SandboxNamespace : string;
  sc_CredentialBindings : list Binding; sc_Monitor : MonitorConfig
}.

(** [home] is the value of HOME. *)
Definition DefaultConfig (home : string) : ServerConfig :=
  mkServerConfig
    (mkConfig "openrouter-spike" "ghcr.io/dzungtr/pi-openshell:openrouter" "" (mkResources "1" "2Gi")
       TransportPull 2 8 3 (60 * second) "kape-controller.openshell.svc.cluster.local" 8081)
    "127.0.0.1:32353" (home +:+ "/.config/openshell/gateways/k8s/mtls") ":8081" ""
    "" "controller-events.db" "" "kape-daemon" "9090" "openshell" []
    (mkMonitorConfig (60 * second) "~deepseek/deepseek-v4-flash-latest" "scaledown/classify-1"
       "https://openrouter.ai/api/v1" "" (5 * second)).

(** ** The environment *)

(** The value of a variable: unset, plain text, or one JSON document with or
    without anything behind it. *)
Inductive envval : Type :=
| EUnset
| EText (s : string)
| EDoc (j : json) (trailing : bool).

Inductive env_err : Type :=
| EPanic (var : string)
| EBadInt (var : string)
| EBindings (e : policy_err).

Definition transport_of (s : string) : TransportKind :=
  if String.eqb s "pull" then TransportPull else if String.eqb s "exec" then TransportExec else TransportOther s.

Section Env.
(** The text of a document, as the variable holds it. *)
Context (json_text : json → string).
Context (env : string → envval).

Definition Getenv (k : string) : string :=
  match env k with EUnset => "" | EText s => s | EDoc j _ => json_text j end.

(** [if v := os.Getenv(k); v != "" { field = v }]. *)
Definition env_str (k d : string) : string := or_default (Getenv k) d.

(** An integer of at least [lo]. *)
Definition env_int (k : string) (lo d : Z) : res env_err Z :=
  let v := Getenv k in
  if String.eqb v "" then Ok d
  else match Atoi v with
       | Some n => if n <? lo then Err (EBadInt k) else Ok n
       | None => Err (EBadInt k)
       end.

(** A number of seconds as a duration: the product wraps. *)
Definition env_seconds (k : string) (lo d : Z) : res env_err Z :=
  let v := Getenv k in
  if String.eqb v "" then Ok d
  else match Atoi v with
       | Some n => if n <? lo then Err (EBadInt k) else Ok (i64_wrap (n * second))
       | None => Err (EBadInt k)
       end.

(** [{"cpu": ..., "memory": ...}] decoded into the zero value. *)
Definition decode_resources (v : envval) : option Resources :=
  match v with
  | EDoc j false =>
      ms ← unmarshal_struct (RJson j);
      let '(cpu, bad1) := string_field "cpu" ms in
      let '(memory, bad2) := string_field "memory" ms in
      if bad1 || bad2 then None else Some (mkResources cpu memory)
  | _ => None
  end.

Definition env_resources (d : Resources) : res env_err Resources :=
  if String.eqb (Getenv "KAPE_DEFAULT_RESOURCES") "" then Ok d
  else match decode_resources (env "KAPE_DEFAULT_RESOURCES") with
       | Some r => Ok r
       | None => Err (EPanic "KAPE_DEFAULT_RESOURCES")
       end.

Definition is_blank (s : string) : bool :=
  forallb (λ c, existsb (Ascii.eqb c) [" "%char; "009"%char; "010"%char; "011"%char; "012"%char; "013"%char]) (chars s).

Definition bindings_value (v : envval) : bindings_text :=
  match v with
  | EUnset => BTBlank
  | EText s => if is_blank s then BTBlank else BTBad
  | EDoc j trailing => BTJson j trailing
  end.

Definition env_bindings (d : list Binding) : res env_err (list Binding) :=
  if String.eqb (Getenv "KAPE_CREDENTIAL_BINDINGS") "" then Ok d
  else match ParseBindings (bindings_value (env "KAPE_CREDENTIAL_BINDINGS")) with
       | Ok bs => Ok bs
       | Err e => Err (EBindings e)
       end.

(** The overrides that can fail, in the order of the code, then the others. *)
Definition envConfig (def : ServerConfig) : res env_err ServerConfig :=
  let c := sc_core def in
  let m := sc_Monitor def in
  let? r := env_resources (DefaultResources c) in
  let? port := env_int "KAPE_CONTROLLER_SERVICE_PORT" i64_min (ControllerServicePort c) in
  let? bindings := env_bindings (sc_CredentialBindings def) in
  let? depth := env_int "KAPE_SPAWN_MAX_DEPTH" 0 (SpawnMaxDepth c) in
  let? children := env_int "KAPE_SPAWN_MAX_CHILDREN" 1 (SpawnMaxChildren c) in
  let? rmax := env_int "KAPE_REVIVE_MAX" 0 (ReviveMax c) in
  let? cooldown := env_seconds "KAPE_REVIVE_COOLDOWN" 0 (ReviveCooldown c) in
  let? interval := env_seconds "KAPE_MONITOR_INTERVAL_SECONDS" 1 (mc_Interval m) in
  let? timeout := env_seconds "KAPE_MONITOR_TIMEOUT_SECONDS" 1 (mc_Timeout m) in
  Ok (mkServerConfig
    (mkConfig
       (env_str "KAPE_DEFAULT_PROVIDER" (DefaultProvider c))
       (env_str "KAPE_DEFAULT_IMAGE" (DefaultImage c))
       (env_str "KAPE_DEFAULT_MODEL" (DefaultModel c))
       r
       (if String.eqb (Getenv "KAPE_TRANSPORT") "" then Transport c else transport_of (Getenv "KAPE_TRANSPORT"))
       depth children rmax cooldown
       (env_str "KAPE_CONTROLLER_SERVICE_HOST" (ControllerServiceHost c))
       port)
    (env_str "KAPE_GATEWAY_ADDR" (sc_GatewayAddr def))
    (env_str "KAPE_CREDS_DIR" (sc_CredsDir def))
    (env_str "KAPE_LISTEN_ADDR" (sc_ListenAddr def))
    (env_str "KAPE_MODEL_GATEWAY_URL" (sc_ModelGatewayURL def))
    (env_str "KAPE_SERVER_DESCRIPTION" (sc_ServerDescription def))
    (env_str "KAPE_EVENT_STORE" (sc_EventStorePath def))
    (env_str "KAPE_DAEMON_TOKEN" (sc_DaemonToken def))
    (env_str "KAPE_DAEMON_COMMAND" (sc_DaemonCommand def))
    (env_str "KAPE_DAEMON_PORT" (sc_DaemonPort def))
    (env_str "KAPE_SANDBOX_NAMESPACE" (sc_SandboxNamespace def))
    bindings
    (mkMonitorConfig interval
       (env_str "KAPE_MONITOR_SUMMARIZER_MODEL" (mc_SummarizerModel m))
       (env_str "KAPE_MONITOR_CLASSIFIER_MODEL" (mc_ClassifierModel m))
       (env_str "KAPE_MONITOR_BASE_URL" (mc_BaseURL m))
       (env_str "KAPE_MONITOR_OPENROUTER_API_KEY" (mc_APIKey m))
       timeout)).

End Env.

(** [strings.Fields]. *)
Fixpoint fields_loop (word : string) (cs : list ascii) : list string :=
  match cs with
  | [] => if String.eqb word "" then [] else [word]
  | c :: r =>
      if is_blank (String c "")
      then (if String.eqb word "" then [] else [word]) ++ fields_loop "" r
      else fields_loop (word +:+ String c "") r
  end.

Definition DaemonCommandArgv (c : ServerConfig) : list string :=
  if String.eqb (sc_DaemonCommand c) "" then [] else fields_loop "" (chars (sc_DaemonCommand c)).

(** ** Validation *)

Definition tcp_port (n : Z) : bool := (1 <=? n) && (n <=? 65535).

Definition Config_Validate (c : ServerConfig) : option FieldError :=
  let core := sc_core c in
  if String.eqb (DefaultProvider core) "" || negb (MatchString providerRe (DefaultProvider core))
  then Some "provider"%string
  else match CreateProfile_Validate (mkProfile "" (DefaultImage core) (Some (DefaultResources core)) "" "") with
  | Some e => Some e
  | None =>
    if String.eqb (sc_ModelGatewayURL c) "" then Some "model-gateway-url"%string
    else if negb (HasPrefix (sc_ModelGatewayURL c) "http") then Some "model-gateway-url"%string
    else if String.eqb (sc_GatewayAddr c) "" || String.eqb (sc_ListenAddr c) "" then Some "config"%string
    else if String.eqb (sc_EventStorePath c) "" then Some "event-store"%string
    else if Enabled (sc_Monitor c) &&
            (String.eqb (mc_BaseURL (sc_Monitor c)) "" || negb (HasPrefix (mc_BaseURL (sc_Monitor c)) "http"))
    then Some "monitor-base-url"%string
    else if Enabled (sc_Monitor c) && ((mc_Interval (sc_Monitor c) <=? 0) || (mc_Timeout (sc_Monitor c) <=? 0))
    then Some "monitor"%string
    else match Transport core with
    | TransportPull =>
        if match Atoi (sc_DaemonPort c) with Some p => negb (tcp_port p) | None => true end then Some "daemon-port"%string
        else if String.eqb (sc_SandboxNamespace c) "" then Some "sandbox-namespace"%string
        else if String.eqb (ControllerServiceHost core) "" then Some "controller-service-host"%string
        else if negb (tcp_port (ControllerServicePort core)) then Some "controller-service-port"%string
        else None
    | TransportExec => None
    | TransportOther _ => Some "transport"%string
    end
  end.

(** ** Theorems *)

Definition model_ok (c : Config) : bool := String.eqb (DefaultModel c) "" || MatchString modelRe (DefaultModel c).

Lemma validate_core c :
  Config_Validate c = None →
  CreateProfile_Validate (mkProfile "" (DefaultImage (sc_core c)) (Some (DefaultResources (sc_core c))) "" "") = None.
Proof.
  unfold Config_Validate. destruct (_ || _); [done|]. by destruct (CreateProfile_Validate _).
Qed.

(** Validation of a profile is validation of each of its fields. *)
Lemma profile_fields p :
  CreateProfile_Validate p = None ↔
    (non_empty (cp_Name p) &&
       ((19 <? String.length (cp_Name p))%nat || negb (MatchString agentNameRe (cp_Name p)))) = false ∧
    (non_empty (cp_Image p) &&
       (ContainsAny (cp_Image p) blanks || negb (MatchString imageRefRe (cp_Image p)))) = false ∧
    match cp_Resources p with Some r => Resources_Validate r | None => None end = None ∧
    (non_empty (cp_Model p) && negb (MatchString modelRe (cp_Model p))) = false ∧
    (non_empty (cp_ParentID p) && negb (MatchString providerRe (cp_ParentID p))) = false.
Proof.
  unfold CreateProfile_Validate.
  generalize (match cp_Resources p with Some r => Resources_Validate r | None => None end). intros o.
  destruct (non_empty (cp_Name p) && _), (non_empty (cp_Image p) && _), o, (non_empty (cp_Model p) && _),
    (non_empty (cp_ParentID p) && _); (split; [intros; simplify_eq; repeat split|intros; deconj; done]).
Qed.

(** A configuration that passes the start-up checks, with a default model
    that is empty or well formed, never refuses a create for a default: every valid
    request resolves. *)
Theorem validated_defaults_resolve c p :
  Config_Validate c = None → model_ok (sc_core c) = true → CreateProfile_Validate p = None →
  ∃ r, ResolveProfile (sc_core c) p = Ok r.
Proof.
  intros Hc%validate_core Hm Hp. unfold ResolveProfile. rewrite Hp.
  apply profile_fields in Hc as (_ & Hi & Hr & _ & _). apply profile_fields in Hp as (Hn & Hi' & Hr' & Hm' & _).
  cbn [cp_Name cp_Image cp_Resources cp_Model rp_Name rp_Image rp_Resources rp_Model] in *.
  assert (CreateProfile_Validate (mkProfile (cp_Name p) (or_default (cp_Image p) (DefaultImage (sc_core c)))
    (Some (default (DefaultResources (sc_core c)) (cp_Resources p)))
    (or_default (cp_Model p) (DefaultModel (sc_core c))) "") = None) as ->; [|eauto].
  apply profile_fields. cbn [cp_Name cp_Image cp_Resources cp_Model cp_ParentID]. unfold or_default.
  split; [done|]. split; [by destruct (String.eqb (cp_Image p) "")|].
  split; [by destruct (cp_Resources p)|]. split; [|done].
  destruct (String.eqb (cp_Model p) ""); [|done]. unfold model_ok in Hm. unfold non_empty.
  destruct (String.eqb (DefaultModel _) ""); [done|]. cbn [orb negb andb] in *. by rewrite Hm.
Qed.

(** The start-up checks do not look at the default model: with one that is
    malformed the controller starts, and then refuses every create that does not
    name a model. *)
Theorem bad_default_model_refuses_creates c p :
  Config_Validate c = None → model_ok (sc_core c) = false →
  CreateProfile_Validate p = None → cp_Model p = ""%string →
  ResolveProfile (sc_core c) p = Err "model"%string.
Proof.
  intros Hc%validate_core Hm Hp Hpm. unfold ResolveProfile. rewrite Hp.
  apply profile_fields in Hc as (_ & Hi & Hr & _ & _). apply profile_fields in Hp as (Hn & Hi' & Hr' & _ & _).
  cbn [cp_Name cp_Image cp_Resources cp_Model rp_Name rp_Image rp_Resources rp_Model] in *.
  unfold CreateProfile_Validate. cbn [cp_Name cp_Image cp_Resources cp_Model cp_ParentID].
  rewrite Hn. assert ((non_empty (or_default (cp_Image p) (DefaultImage (sc_core c))) &&
    (ContainsAny (or_default (cp_Image p) (DefaultImage (sc_core c))) blanks
     || negb (MatchString imageRefRe (or_default (cp_Image p) (DefaultImage (sc_core c)))))) = false) as ->
    by (unfold or_default; by destruct (String.eqb (cp_Image p) "")).
  assert (Resources_Validate (default (DefaultResources (sc_core c)) (cp_Resources p)) = None) as ->
    by (by destruct (cp_Resources p)).
  unfold or_default. rewrite Hpm. change (String.eqb "" "") with true. cbn match.
  unfold model_ok in Hm. apply orb_false_iff in Hm as [Hm1 Hm2]. unfold non_empty. by rewrite Hm1, Hm2.
Qed.

(** A cooldown of seconds that does not fit a duration in nanoseconds wraps to a
    negative one, and no check refuses it. *)
Theorem cooldown_wraps :
  env_seconds (λ _, ""%string) (λ _, EText "9223372037") "KAPE_REVIVE_COOLDOWN" 0 (60 * second)
    = Ok (-9223372036709551616).
Proof. vm_compute. reflexivity. Qed.

Definition ex_server (model : string) : ServerConfig :=
  mkServerConfig
    (mkConfig "openrouter-spike" "ghcr.io/x/y:1" model (mkResources "1" "2Gi") TransportPull 2 8 3 (60 * second) "host" 8081)
    "gw:1" "/creds" ":8081" "http://models" "" "db" "" "kape-daemon" "9090" "openshell" []
    (mkMonitorConfig (60 * second) "" "" "" "" (5 * second)).

Lemma validated_defaults_resolve_witness :
  ∃ r, ResolveProfile (sc_core (ex_server "m/1")) (mkProfile "a" "" None "" "") = Ok r.
Proof.
  apply (validated_defaults_resolve (ex_server "m/1") (mkProfile "a" "" None "" ""));
    vm_compute; reflexivity.
Defined.

Lemma bad_default_model_refuses_creates_witness :
  ResolveProfile (sc_core (ex_server "not a model")) (mkProfile "a" "" None "" "") = Err "model"%string.
Proof.
  apply (bad_default_model_refuses_creates (ex_server "not a model") (mkProfile "a" "" None "" ""));
    vm_compute; reflexivity.
Defined.
