(* ===== verification/ControllerMain.v ===== *)
(** * The controller as a process (src/controller/main.go, [RegisterFlags] of
      src/controller/config.go, [newTlsConfig] of src/controller/gateway.go)

    The flags over the environment over the compiled-in defaults, and what [main]
    builds from the result before it listens: the credentials, the gateway client, the
    event store, the monitor, the resolver and the registry rebuilt from the log. *)

From Stdlib Require Import Ascii String ZArith.
From S2P Require Import Prelude Json GoTime GoStrings Flags Bolt EventStore EventHub Fsm Monitor Config Slm.
From S2P Require Import Agent Manager Registry Policy Gateway ServerConfig.
From stdpp Require Import base list strings numbers gmap.
Local Open Scope Z_scope.
Local Open Scope go_scope.

(** ** Flags *)

Definition with_core (f : Config → Config) (c : ServerConfig) : ServerConfig :=
  mkServerConfig (f (sc_core c)) (sc_GatewayAddr c) (sc_CredsDir c) (sc_ListenAddr c) (sc_ModelGatewayURL c)
    (sc_ServerDescription c) (sc_EventStorePath c) (sc_DaemonToken c) (sc_DaemonCommand c) (sc_DaemonPort c)
    (sc_SandboxNamespace c) (sc_CredentialBindings c) (sc_Monitor c).

Definition with_profile (provider image model : string) (r : Resources) (c : Config) : Config :=
  mkConfig provider image model r (Transport c) (SpawnMaxDepth c) (SpawnMaxChildren c) (ReviveMax c) (ReviveCooldown c)
    (ControllerServiceHost c) (ControllerServicePort c).

Definition with_limits (depth children rmax cooldown : Z) (c : Config) : Config :=
  mkConfig (DefaultProvider c) (DefaultImage c) (DefaultModel c) (DefaultResources c) (Transport c) depth children rmax
    cooldown (ControllerServiceHost c) (ControllerServicePort c).

Definition with_wire (t : TransportKind) (host : string) (port : Z) (c : Config) : Config :=
  mkConfig (DefaultProvider c) (DefaultImage c) (DefaultModel c) (DefaultResources c) t (SpawnMaxDepth c)
    (SpawnMaxChildren c) (ReviveMax c) (ReviveCooldown c) host port.

Definition with_addrs (gateway creds listen url description store : string) (c : ServerConfig) : ServerConfig :=
  mkServerConfig (sc_core c) gateway creds listen url description store (sc_DaemonToken c) (sc_DaemonCommand c)
    (sc_DaemonPort c) (sc_SandboxNamespace c) (sc_CredentialBindings c) (sc_Monitor c).

Definition with_daemon (token command port ns : string) (c : ServerConfig) : ServerConfig :=
  mkServerConfig (sc_core c) (sc_GatewayAddr c) (sc_CredsDir c) (sc_ListenAddr c) (sc_ModelGatewayURL c)
    (sc_ServerDescription c) (sc_EventStorePath c) token command port ns (sc_CredentialBindings c) (sc_Monitor c).

Definition with_monitor (f : MonitorConfig → MonitorConfig) (c : ServerConfig) : ServerConfig :=
  mkServerConfig (sc_core c) (sc_GatewayAddr c) (sc_CredsDir c) (sc_ListenAddr c) (sc_ModelGatewayURL c)
    (sc_ServerDescription c) (sc_EventStorePath c) (sc_DaemonToken c) (sc_DaemonCommand c) (sc_DaemonPort c)
    (sc_SandboxNamespace c) (sc_CredentialBindings c) (f (sc_Monitor c)).

Section Flags.
(** [doc_of] reads a text as JSON; [other_int] as in [Flags]. *)
Context (doc_of : string → envval) (other_int : string → Z * bool).

(** A flag that is a number of seconds of at least [lo]. *)
Definition SecondsFunc (name : string) (lo : Z) (set : Z → ServerConfig → ServerConfig) : flag_def ServerConfig :=
  Func name (λ v c, n ← Atoi v; if n <? lo then None else Some (set (i64_wrap (n * second)) c)).

Definition profile_flags : list (flag_def ServerConfig) :=
  [ StringVar "gateway" (λ s c, with_addrs s (sc_CredsDir c) (sc_ListenAddr c) (sc_ModelGatewayURL c)
      (sc_ServerDescription c) (sc_EventStorePath c) c);
    StringVar "creds" (λ s c, with_addrs (sc_GatewayAddr c) s (sc_ListenAddr c) (sc_ModelGatewayURL c)
      (sc_ServerDescription c) (sc_EventStorePath c) c);
    StringVar "listen" (λ s c, with_addrs (sc_GatewayAddr c) (sc_CredsDir c) s (sc_ModelGatewayURL c)
      (sc_ServerDescription c) (sc_EventStorePath c) c);
    StringVar "provider"
      (λ s, with_core (λ c, with_profile s (DefaultImage c) (DefaultModel c) (DefaultResources c) c));
    StringVar "image"
      (λ s, with_core (λ c, with_profile (DefaultProvider c) s (DefaultModel c) (DefaultResources c) c));
    StringVar "model"
      (λ s, with_core (λ c, with_profile (DefaultProvider c) (DefaultImage c) s (DefaultResources c) c));
    StringVar "server-description" (λ s c, with_addrs (sc_GatewayAddr c) (sc_CredsDir c) (sc_ListenAddr c)
      (sc_ModelGatewayURL c) s (sc_EventStorePath c) c);
    StringVar "model-gateway-url" (λ s c, with_addrs (sc_GatewayAddr c) (sc_CredsDir c) (sc_ListenAddr c) s
      (sc_ServerDescription c) (sc_EventStorePath c) c);
    StringVar "event-store" (λ s c, with_addrs (sc_GatewayAddr c) (sc_CredsDir c) (sc_ListenAddr c)
      (sc_ModelGatewayURL c) (sc_ServerDescription c) s c) ].

Definition plane_flags : list (flag_def ServerConfig) :=
  [ StringVar "transport"
      (λ s, with_core (λ c, with_wire (transport_of s) (ControllerServiceHost c) (ControllerServicePort c) c));
    StringVar "daemon-port" (λ s c, with_daemon (sc_DaemonToken c) (sc_DaemonCommand c) s (sc_SandboxNamespace c) c);
    StringVar "sandbox-namespace" (λ s c, with_daemon (sc_DaemonToken c) (sc_DaemonCommand c) (sc_DaemonPort c) s c);
    StringVar "controller-service-host" (λ s, with_core (λ c, with_wire (Transport c) s (ControllerServicePort c) c));
    IntVar other_int "controller-service-port"
      (λ n, with_core (λ c, with_wire (Transport c) (ControllerServiceHost c) n c));
    StringVar "daemon-token" (λ s c, with_daemon s (sc_DaemonCommand c) (sc_DaemonPort c) (sc_SandboxNamespace c) c);
    StringVar "daemon-command" (λ s c, with_daemon (sc_DaemonToken c) s (sc_DaemonPort c) (sc_SandboxNamespace c) c);
    IntVar other_int "spawn-max-depth"
      (λ n, with_core (λ c, with_limits n (SpawnMaxChildren c) (ReviveMax c) (ReviveCooldown c) c));
    IntVar other_int "spawn-max-children"
      (λ n, with_core (λ c, with_limits (SpawnMaxDepth c) n (ReviveMax c) (ReviveCooldown c) c));
    IntVar other_int "revive-max"
      (λ n, with_core (λ c, with_limits (SpawnMaxDepth c) (SpawnMaxChildren c) n (ReviveCooldown c) c));
    SecondsFunc "revive-cooldown-seconds" 0
      (λ d, with_core (λ c, with_limits (SpawnMaxDepth c) (SpawnMaxChildren c) (ReviveMax c) d c));
    Func "resources" (λ v c, r ← decode_resources (doc_of v);
      Some (with_core (λ c, with_profile (DefaultProvider c) (DefaultImage c) (DefaultModel c) r c) c)) ].

Definition monitor_flags : list (flag_def ServerConfig) :=
  [ SecondsFunc "monitor-interval-seconds" 1 (λ d, with_monitor (λ m,
      mkMonitorConfig d (mc_SummarizerModel m) (mc_ClassifierModel m) (mc_BaseURL m) (mc_APIKey m) (mc_Timeout m)));
    StringVar "monitor-summarizer-model" (λ s, with_monitor (λ m,
      mkMonitorConfig (mc_Interval m) s (mc_ClassifierModel m) (mc_BaseURL m) (mc_APIKey m) (mc_Timeout m)));
    StringVar "monitor-classifier-model" (λ s, with_monitor (λ m,
      mkMonitorConfig (mc_Interval m) (mc_SummarizerModel m) s (mc_BaseURL m) (mc_APIKey m) (mc_Timeout m)));
    StringVar "monitor-base-url" (λ s, with_monitor (λ m,
      mkMonitorConfig (mc_Interval m) (mc_SummarizerModel m) (mc_ClassifierModel m) s (mc_APIKey m) (mc_Timeout m)));
    StringVar "monitor-openrouter-api-key" (λ s, with_monitor (λ m,
      mkMonitorConfig (mc_Interval m) (mc_SummarizerModel m) (mc_ClassifierModel m) (mc_BaseURL m) s (mc_Timeout m)));
    SecondsFunc "monitor-timeout-seconds" 1 (λ d, with_monitor (λ m,
      mkMonitorConfig (mc_Interval m) (mc_SummarizerModel m) (mc_ClassifierModel m) (mc_BaseURL m) (mc_APIKey m) d)) ].

Definition RegisterFlags : list (flag_def ServerConfig) := profile_flags ++ plane_flags ++ monitor_flags.
End Flags.

(** ** Start-up *)

Inductive start_err : Type :=
| BadEnv (e : env_err)
| HelpAsked
| BadFlags
| BadConfig (f : FieldError)
| NoCreds (file : string)
| BadCA
| BadKeyPair
| NoDial
| NoStore.

(** The TLS configuration, by the texts it was built from. *)
Record tls_config : Type := mkTls { tls_ca : string; tls_cert : string; tls_key : string }.

(** What a started controller holds. *)
Record controller {S : Type} : Type := mkController {
  ct_cfg : ServerConfig;
  ct_gateway : Gateway;
  ct_allowed : list string;
  ct_slm : option SLMClient;
  ct_proxy : option (tls_config * string);
  ct_world : World S;
  ct_degraded : option RebuildErr;
  ct_spawned : list spawn
}.
Arguments controller : clear implicits.
Arguments mkController {_} _ _ _ _ _ _ _ _.

Section Main.
Context {S : Type} `{EventStore S}.
Context (doc_of : string → envval) (other_int : string → Z * bool) (json_text : json → string).
(** [AppendCertsFromPEM] and [X509KeyPair] by whether they accept, the files that can
    be read, the dial and the opening of the store. *)
Context (ca_ok : string → bool) (pair_ok : string → string → bool).
Context (file : string → option string) (dial : string → bool) (open : string → option S) (now : Z).

Definition newTlsConfig (ca cert key : string) : res start_err tls_config :=
  if negb (ca_ok ca) then Err BadCA
  else if negb (pair_ok cert key) then Err BadKeyPair
  else Ok (mkTls ca cert key).

Definition read_creds (path : string) : res start_err string :=
  match file path with Some text => Ok text | None => Err (NoCreds path) end.

Definition loadMtlsConfig (dir : string) : res start_err tls_config :=
  let? ca := read_creds (dir +:+ "/ca.crt") in
  let? cert := read_creds (dir +:+ "/tls.crt") in
  let? key := read_creds (dir +:+ "/tls.key") in
  newTlsConfig ca cert key.

(** Environment, flags, checks: what [main] does before it touches anything.  The
    process leaves on a flag that is wrong and on a request for help. *)
Definition resolve_config (home : string) (env : string → envval) (args : list string) : res start_err ServerConfig :=
  match envConfig json_text env (DefaultConfig home) with
  | Err e => Err (BadEnv e)
  | Ok c =>
      match parse_flags (RegisterFlags doc_of other_int) args c with
      | (_, FlagsHelp) => Err HelpAsked
      | (_, FlagsFailed) => Err BadFlags
      | (c', FlagsDone) => match Config_Validate c' with Some f => Err (BadConfig f) | None => Ok c' end
      end
  end.

(** A command that is not configured stays the gateway's own. *)
Definition daemon_argv (c : ServerConfig) : option (list string) :=
  if String.eqb (sc_DaemonCommand c) "" then None else Some (DaemonCommandArgv c).

Definition build_gateway (c : ServerConfig) : Gateway :=
  WithCredentialBindings (sc_CredentialBindings c)
    (WithDaemonPort (sc_DaemonPort c)
      (WithDaemonCommand (daemon_argv c)
        (WithDaemonToken (sc_DaemonToken c) (NewGateway (sc_ModelGatewayURL c))))).

Definition build_slm (m : MonitorConfig) : option SLMClient :=
  if Enabled m then Some (NewSLMClient (mc_BaseURL m) (mc_APIKey m) (mc_SummarizerModel m) (mc_ClassifierModel m))
  else None.

(** [NewAgentManager] with or without a monitor. *)
Definition NewAgentManager (store : S) (monitored : bool) : World S :=
  mkWorld store ∅ ∅ (if monitored then Some (mkMonitor [] ∅) else None).

(** [main], up to the listen. *)
Definition main (home : string) (env : string → envval) (args : list string) : res start_err (controller S) :=
  let? c := resolve_config home env args in
  let? tls := loadMtlsConfig (sc_CredsDir c) in
  if negb (dial (sc_GatewayAddr c)) then Err NoDial
  else match open (sc_EventStorePath c) with
  | None => Err NoStore
  | Some store =>
      let '(degraded, w, spawned) :=
        RebuildFromLog (sc_core c) (NewAgentManager store (Enabled (sc_Monitor c))) now in
      Ok (mkController c (build_gateway c) (parseAllowedIPs (Getenv json_text env "KAPE_MODEL_GATEWAY_ALLOWED_IPS"))
            (build_slm (sc_Monitor c))
            (if decide (Transport (sc_core c) = TransportPull) then Some (tls, sc_GatewayAddr c) else None)
            w degraded spawned)
  end.

(** ** What is shown *)

Lemma resolved_is_valid home env args c : resolve_config home env args = Ok c → Config_Validate c = None.
Proof. unfold resolve_config. intros. repeat case_match; by simplify_eq. Qed.

(** One field of a configuration that was set by flags. *)
Ltac flag_field get read n :=
  refine (eq_trans (settings_field _ get read n _ _ _) _);
  [unfold RegisterFlags, profile_flags, plane_flags, monitor_flags, SecondsFunc; flag_cases|].

(** Flags over environment over defaults: accepted settings, in either spelling, take
    effect in order on what the environment left. *)
Theorem controller_flags_win home env ss c :
  envConfig json_text env (DefaultConfig home) = Ok c →
  Forall (accepted (RegisterFlags doc_of other_int)) ss →
  let c' := apply_settings (RegisterFlags doc_of other_int) ss c in
  resolve_config home env (ss ≫= spelled) =
    match Config_Validate c' with Some f => Err (BadConfig f) | None => Ok c' end ∧
  sc_DaemonToken c' = default (sc_DaemonToken c) (last_of "daemon-token" ss) ∧
  mc_APIKey (sc_Monitor c') = default (mc_APIKey (sc_Monitor c)) (last_of "monitor-openrouter-api-key" ss) ∧
  Transport (sc_core c') = match last_of "transport" ss with Some v => transport_of v | None => Transport (sc_core c) end.
Proof.
  intros Hc Hs c'. unfold resolve_config. rewrite Hc, parse_all by done. split; [done|].
  split_and!; [flag_field sc_DaemonToken (@id string) "daemon-token"%string
    |flag_field (mc_APIKey ∘ sc_Monitor) (@id string) "monitor-openrouter-api-key"%string
    |flag_field (Transport ∘ sc_core) transport_of "transport"%string]; by destruct (last_of _ ss).
Qed.

(** A started controller runs on a checked configuration and on nothing else: its
    gateway client carries the configured token, port and bindings, there is a monitor
    exactly with an API key and a daemon proxy exactly with the pull transport, and the
    registry is the one the log gives. *)
Theorem started_controller home env args k :
  main home env args = Ok k →
  resolve_config home env args = Ok (ct_cfg k) ∧ Config_Validate (ct_cfg k) = None ∧
  ct_gateway k = build_gateway (ct_cfg k) ∧
  (is_Some (ct_slm k) ↔ mc_APIKey (sc_Monitor (ct_cfg k)) ≠ ""%string) ∧
  (is_Some (ct_proxy k) ↔ Transport (sc_core (ct_cfg k)) = TransportPull) ∧
  ∃ store, open (sc_EventStorePath (ct_cfg k)) = Some store ∧
    RebuildFromLog (sc_core (ct_cfg k)) (NewAgentManager store (Enabled (sc_Monitor (ct_cfg k)))) now =
      (ct_degraded k, ct_world k, ct_spawned k).
Proof.
  unfold main. destruct (resolve_config home env args) as [c|] eqn:Ec; [|done].
  destruct (loadMtlsConfig (sc_CredsDir c)) as [tls|]; [|done]. destruct (dial _); [|done]. cbn [negb].
  destruct (open (sc_EventStorePath c)) as [store|] eqn:Eo; [|done].
  destruct (RebuildFromLog _ _ now) as [[d w] sp] eqn:Er. intros [= <-]. cbn.
  split_and!; [done|by apply resolved_is_valid in Ec|done|..].
  - unfold build_slm, Enabled. destruct (String.eqb_spec (mc_APIKey (sc_Monitor c)) "") as [->|]; cbn; split; try done; by intros [].
  - case_decide; split; try done; by intros [].
  - by exists store.
Qed.

(** A log that cannot be listed does not stop the controller: it starts with an empty
    registry and no puller. *)
Theorem unreadable_log_starts home env args c tls store e :
  resolve_config home env args = Ok c → loadMtlsConfig (sc_CredsDir c) = Ok tls → dial (sc_GatewayAddr c) = true →
  open (sc_EventStorePath c) = Some store → Agents store = Err e →
  ∃ k, main home env args = Ok k ∧ ct_degraded k = Some EAgents ∧ w_reg (ct_world k) = ∅ ∧ ct_spawned k = [].
Proof.
  intros Hc Ht Hd Ho Ha. unfold main. rewrite Hc, Ht, Hd. cbn [negb]. rewrite Ho.
  unfold RebuildFromLog. cbn [NewAgentManager w_store]. rewrite Ha. by eexists.
Qed.

Lemma env_int_bound env k lo d n : env_int json_text env k lo d = Ok n → n = d ∨ lo ≤ n.
Proof. unfold env_int. intros E. repeat case_match; simplify_eq; [by left|right; by apply Z.ltb_ge]. Qed.

(** The bound on children that the environment enforces: at least one. *)
Lemma env_children_positive home env c :
  envConfig json_text env (DefaultConfig home) = Ok c → 1 ≤ SpawnMaxChildren (sc_core c).
Proof.
  unfold envConfig. intros Hc.
  repeat match type of Hc with
  | (match ?x with Ok _ => _ | Err _ => _ end) = _ => let E := fresh "E" in destruct x eqn:E; [|done]
  end.
  injection Hc as <-. cbn [sc_core SpawnMaxChildren]. apply env_int_bound in E3 as [->|]; [|done]. vm_compute. congruence.
Qed.

(** The flag has no bound: whatever the environment says, a controller that is told to
    allow no children passes every check, and then refuses to create any child. *)
Theorem no_children_flag_refuses_spawns home env c (w : World S) p parent genv :
  envConfig json_text env (DefaultConfig home) = Ok c → Config_Validate c = None →
  resolveParent w (cp_ParentID p) = Ok (Some parent) →
  1 ≤ SpawnMaxChildren (sc_core c) ∧
  ∃ c' e, resolve_config home env ["-spawn-max-children=0"]%string = Ok c' ∧
    Create (sc_core c') w p genv = (Some e, [], w) ∧ (e = ErrSpawnDepthExceeded ∨ e = ErrSpawnChildrenExceeded).
Proof.
  intros Hc Hv Hp. split; [by eapply env_children_positive|].
  unfold resolve_config. rewrite Hc.
  set (c' := with_core (λ d, with_limits (SpawnMaxDepth d) 0 (ReviveMax d) (ReviveCooldown d) d) c).
  change (parse_flags _ _ c) with (c', FlagsDone). cbv beta iota.
  change (Config_Validate c') with (Config_Validate c). rewrite Hv.
  exists c'. unfold Create, create_check. rewrite Hp. unfold checkSpawnCaps.
  destruct (_ <? _); [by eexists; auto|].
  rewrite (proj2 (Z.leb_le _ _)); [by eexists; auto|].
  unfold childCount. cbn. destruct (ce_children genv); lia.
Qed.
End Main.

(** ** Samples *)

Module Samples.
Definition reads (path : string) : option string := if HasPrefix path "/creds/" then Some path else None.

(** The environment names the model gateway and the credentials, a flag the port and
    another the transport. *)
Definition environ (k : string) : envval :=
  if String.eqb k "KAPE_MODEL_GATEWAY_URL" then EText "http://models"
  else if String.eqb k "KAPE_CREDS_DIR" then EText "/creds"
  else if String.eqb k "KAPE_DAEMON_TOKEN" then EText "from-env" else EUnset.

Definition settings : list (bool * string * string) :=
  [(true, "daemon-token", "one"); (false, "transport", "exec"); (false, "daemon-token", "two")]%string.

Definition base : ServerConfig :=
  with_daemon "from-env" "kape-daemon" "9090" "openshell"
    (with_addrs "127.0.0.1:32353" "/creds" ":8081" "http://models" "" "controller-events.db" (DefaultConfig "/root")).

Definition start (args : list string) : res start_err (controller MemDB) :=
  main (λ _, EUnset) (λ _, (0, false)) (λ _, ""%string) (λ _, true) (λ _ _, true) reads (λ _, true)
    (λ _, Some mem_empty) 0 "/root" environ args.

Lemma controller_flags_win_witness :
  sc_DaemonToken (apply_settings (RegisterFlags (λ _, EUnset) (λ _, (0, false))) settings base) = "two"%string.
Proof.
  destruct (controller_flags_win (λ _, EUnset) (λ _, (0, false)) (λ _, ""%string) "/root" environ settings base)
    as (_ & Ht & _ & _); [vm_compute; reflexivity| |exact Ht].
  repeat (apply Forall_cons; split;
    [split; [eapply flag_name_ok; [reflexivity|done|vm_compute; reflexivity]|eexists; split; [reflexivity|split; [auto|done]]]|]).
  apply Forall_nil_2.
Defined.

Lemma started_controller_witness :
  ∃ k, start (settings ≫= spelled) = Ok k ∧ Config_Validate (ct_cfg k) = None ∧ ct_proxy k = None.
Proof.
  eexists. split; [vm_compute; reflexivity|]. split; [|reflexivity].
  eapply (started_controller (λ _, EUnset) (λ _, (0, false)) (λ _, ""%string) (λ _, true) (λ _ _, true) reads (λ _, true)
    (λ _, Some mem_empty) 0 "/root" environ (settings ≫= spelled)).
  vm_compute. reflexivity.
Defined.

Lemma no_children_flag_refuses_spawns_witness :
  1 ≤ SpawnMaxChildren (sc_core base).
Proof.
  destruct (no_children_flag_refuses_spawns (S := MemDB) (λ _, EUnset) (λ _, (0, false)) (λ _, ""%string) "/root" environ base
    ex_world (mkProfile "" "" None "" "a") (ex_node "a" "" ex_resolved)
    ex_create) as [H1 _]; [vm_compute; reflexivity..|exact H1].
Defined.
End Samples.
