(* ===== verification/FakeGateway.v ===== *)
(** * The in-memory gateway (src/controller/fake.go)

    The gateway the controller's own tests run against, and its scriptable exec stream.
    The maps of the fake are finite maps, its call records lists; the order in which Go
    walks a map is a parameter.  The calls a create emits (file [Manager]) are performed
    on it, which gives the effect of a create on the gateway's state. *)

From Stdlib Require Import Ascii String ZArith.
From S2P Require Import Prelude Json GoTime GoStrings Flags Bolt EventStore EventHub Fsm Monitor Config.
From S2P Require Import Agent Exec Manager.
From stdpp Require Import base list strings numbers gmap sets.
Local Open Scope Z_scope.

(** ** State *)

Record CreateRequest : Type := mkCreateRequest {
  cq_Name : string; cq_Image : string; cq_Provider : string; cq_Resources : Resources; cq_PiSessionID : string
}.

Record ControllerDeny : Type := mkDeny { cd_Name : string; cd_Host : string; cd_Port : Z }.

(** The errors to return are told apart only by whether they are set. *)
Record FakeGateway : Type := mkFake {
  fk_exposed : gset string; fk_withdrawn : list string;
  fk_phase : gmap string SandboxPhase; fk_labels : gmap string (gmap string string); fk_ids : gmap string string;
  fk_initialPhase : SandboxPhase;
  fk_deleted : list string; fk_created : list string; fk_requests : list CreateRequest;
  fk_controllerDenies : list ControllerDeny; fk_denyErr : bool; fk_policyErr : bool;
  fk_policyApplies : list string; fk_piModels : list string; fk_stream : bool
}.

Definition NewFakeGateway : FakeGateway := mkFake ∅ [] ∅ ∅ ∅ PhaseReady [] [] [] [] false false [] [] false.

(** The sandboxes, and the rest. *)
Definition with_sandboxes (phase : gmap string SandboxPhase) (labels : gmap string (gmap string string))
    (ids : gmap string string) (f : FakeGateway) : FakeGateway :=
  mkFake (fk_exposed f) (fk_withdrawn f) phase labels ids (fk_initialPhase f) (fk_deleted f) (fk_created f)
    (fk_requests f) (fk_controllerDenies f) (fk_denyErr f) (fk_policyErr f) (fk_policyApplies f) (fk_piModels f) (fk_stream f).

Definition with_lifetimes (deleted created : list string) (requests : list CreateRequest) (f : FakeGateway) : FakeGateway :=
  mkFake (fk_exposed f) (fk_withdrawn f) (fk_phase f) (fk_labels f) (fk_ids f) (fk_initialPhase f) deleted created requests
    (fk_controllerDenies f) (fk_denyErr f) (fk_policyErr f) (fk_policyApplies f) (fk_piModels f) (fk_stream f).

Definition with_policies (denies : list ControllerDeny) (denyErr policyErr : bool) (applies : list string)
    (f : FakeGateway) : FakeGateway :=
  mkFake (fk_exposed f) (fk_withdrawn f) (fk_phase f) (fk_labels f) (fk_ids f) (fk_initialPhase f) (fk_deleted f)
    (fk_created f) (fk_requests f) denies denyErr policyErr applies (fk_piModels f) (fk_stream f).

Definition with_pi_calls (models : list string) (stream : bool) (f : FakeGateway) : FakeGateway :=
  mkFake (fk_exposed f) (fk_withdrawn f) (fk_phase f) (fk_labels f) (fk_ids f) (fk_initialPhase f) (fk_deleted f)
    (fk_created f) (fk_requests f) (fk_controllerDenies f) (fk_denyErr f) (fk_policyErr f) (fk_policyApplies f) models stream.

Definition with_exposure (exposed : gset string) (withdrawn : list string) (f : FakeGateway) : FakeGateway :=
  mkFake exposed withdrawn (fk_phase f) (fk_labels f) (fk_ids f) (fk_initialPhase f) (fk_deleted f) (fk_created f)
    (fk_requests f) (fk_controllerDenies f) (fk_denyErr f) (fk_policyErr f) (fk_policyApplies f) (fk_piModels f) (fk_stream f).

(** ** Sandboxes *)

(** Nothing is refused: a name that is taken is created over. *)
Definition CreateSandbox (name image provider : string) (resources : Resources) (labels : option (gmap string string))
    (piSessionID : string) (f : FakeGateway) : string * string * FakeGateway :=
  let f := with_lifetimes (fk_deleted f) (fk_created f ++ [name])
             (fk_requests f ++ [mkCreateRequest name image provider resources piSessionID]) f in
  (name, "uuid-" +:+ name,
   with_sandboxes (<[name := fk_initialPhase f]> (fk_phase f)) (<[name := default ∅ labels]> (fk_labels f)) (fk_ids f) f).

Definition SeedSandbox (name id : string) (labels : gmap string string) (phase : SandboxPhase) (f : FakeGateway) : FakeGateway :=
  with_sandboxes (<[name := phase]> (fk_phase f)) (<[name := labels]> (fk_labels f)) (<[name := id]> (fk_ids f)) f.

(** [strings.Cut] at the first equals sign of every part; a later part wins. *)
Fixpoint selector_parts (parts : list (list ascii)) (out : gmap string string) : option (gmap string string) :=
  match parts with
  | [] => Some out
  | part :: rest =>
      match cut_value part with
      | (k, Some v) => selector_parts rest (<[string_of_list_ascii k := string_of_list_ascii v]> out)
      | (_, None) => None
      end
  end.

Definition parseLabelSelector (sel : string) : option (gmap string string) :=
  if String.eqb sel "" then Some ∅ else selector_parts (split_at "," (chars sel) []) ∅.

(** A label that is missing reads as the empty text. *)
Definition labelsMatch (labels sel : gmap string string) : bool :=
  forallb (λ kv, String.eqb (default "" (labels !! kv.1)) kv.2) (map_to_list sel).

Section Listing.
(** The order in which a map is walked. *)
Context (walk : list string → list string).

Definition list_one (f : FakeGateway) (sel : gmap string string) (name : string) : list (SandboxInfo * string) :=
  match fk_labels f !! name with
  | None => []
  | Some labels =>
      if labelsMatch labels sel then
        let id := default "" (fk_ids f !! name) in
        [(mkInfo name (default PhaseOther (fk_phase f !! name)) labels, if String.eqb id "" then "uuid-" +:+ name else id)]
      else []
  end.

Definition ListSandboxes (f : FakeGateway) (selector : string) : option (list (SandboxInfo * string)) :=
  sel ← parseLabelSelector selector;
  Some (walk (elements (dom (fk_labels f))) ≫= list_one f sel).

Definition Exposed (f : FakeGateway) : list string := walk (elements (fk_exposed f)).
End Listing.

Definition LabelsFor (name : string) (f : FakeGateway) : gmap string string := default ∅ (fk_labels f !! name).

Definition GetSandboxPhase (name : string) (f : FakeGateway) : option SandboxPhase := fk_phase f !! name.

(** A sandbox that was never created gets a phase too. *)
Definition SetPhase (name : string) (phase : SandboxPhase) (f : FakeGateway) : FakeGateway :=
  with_sandboxes (<[name := phase]> (fk_phase f)) (fk_labels f) (fk_ids f) f.

Definition DeleteSandbox (name : string) (f : FakeGateway) : FakeGateway :=
  with_sandboxes (delete name (fk_phase f)) (delete name (fk_labels f)) (delete name (fk_ids f))
    (with_lifetimes (fk_deleted f ++ [name]) (fk_created f) (fk_requests f) f).

(** ** The other calls *)

Definition SetStream (f : FakeGateway) : FakeGateway := with_pi_calls (fk_piModels f) true f.

Definition StartPi (sandboxName model : string) (f : FakeGateway) : bool * FakeGateway :=
  (fk_stream f, with_pi_calls (fk_piModels f ++ [model]) (fk_stream f) f).

Definition ApplyModelGatewayPolicy (sandboxName : string) (f : FakeGateway) : bool * FakeGateway :=
  (negb (fk_policyErr f),
   with_policies (fk_controllerDenies f) (fk_denyErr f) (fk_policyErr f) (fk_policyApplies f ++ [sandboxName]) f).

Definition FailModelGatewayPolicy (err : bool) (f : FakeGateway) : FakeGateway :=
  with_policies (fk_controllerDenies f) (fk_denyErr f) err (fk_policyApplies f) f.

Definition ApplyControllerEgressDeny (sandboxName host : string) (port : Z) (f : FakeGateway) : bool * FakeGateway :=
  (negb (fk_denyErr f),
   with_policies (fk_controllerDenies f ++ [mkDeny sandboxName host port]) (fk_denyErr f) (fk_policyErr f) (fk_policyApplies f) f).

Definition FailControllerEgressDeny (err : bool) (f : FakeGateway) : FakeGateway :=
  with_policies (fk_controllerDenies f) err (fk_policyErr f) (fk_policyApplies f) f.

(** One list for every fake of the process. *)
Definition fakeProviders : list string := ["openrouter-spike"%string].
Definition ListProviders (providers : list string) : list string := providers.
Definition SetProviders (names providers : list string) : list string := names.

Definition ExposeDaemon (sandboxName : string) (f : FakeGateway) : string * FakeGateway :=
  (sandboxName +:+ ".openshell.localhost:32353", with_exposure ({[sandboxName]} ∪ fk_exposed f) (fk_withdrawn f) f).

Definition WithdrawDaemon (sandboxName : string) (f : FakeGateway) : FakeGateway :=
  with_exposure (fk_exposed f ∖ {[sandboxName]}) (fk_withdrawn f ++ [sandboxName]) f.

(** ** The manager's calls on the fake *)

(** Whether the call succeeded, and the state it leaves. *)
Definition perform (f : FakeGateway) (c : call) : bool * FakeGateway :=
  match c with
  | CCommand _ _ _ => (true, f)
  | CCreateSandbox name spec =>
      (true, snd (CreateSandbox name (sb_Image spec) (sb_Provider spec) (sb_Resources spec) (Some (sb_Labels spec)) (sb_Session spec) f))
  | CExposeDaemon name => (true, snd (ExposeDaemon name f))
  | CApplyModelGatewayPolicy name => ApplyModelGatewayPolicy name f
  | CApplyControllerEgressDeny name host port => ApplyControllerEgressDeny name host port f
  | CStartPi name model => StartPi name model f
  | CWithdrawDaemon name => (true, WithdrawDaemon name f)
  | CDeleteSandbox name => (true, DeleteSandbox name f)
  end.

Definition perform_all (f : FakeGateway) (cs : list call) : FakeGateway := foldl (λ f c, snd (perform f c)) f cs.

(** The answers a create gets from the fake. *)
Definition answers (f : FakeGateway) (env : create_env) : Prop :=
  ce_create_ok env = true ∧ ce_expose_ok env = true ∧ ce_policy_ok env = negb (fk_policyErr f) ∧
  ce_deny_ok env = negb (fk_denyErr f) ∧ ce_startpi_ok env = fk_stream f ∧ ∀ i, ce_phase env i = Some (fk_initialPhase f).

(** ** The exec stream *)

(** The buffer of the events channel. *)
Definition events_cap : nat := 64.

(** [closed] is declared and read, and never set. *)
Record FakeStream : Type := mkStream {
  fs_sent : list string; fs_events : list ExecSandboxEvent; fs_closed : bool; fs_err : option string; fs_done : bool
}.

Definition NewFakeStream : FakeStream := mkStream [] [] false None false.

(** Only input on stdin is recorded. *)
Definition Send (stdin : option string) (s : FakeStream) : bool * FakeStream :=
  if fs_closed s then (false, s)
  else (true, mkStream (fs_sent s ++ option_list stdin) (fs_events s) (fs_closed s) (fs_err s) (fs_done s)).

(** [None] is a send that blocks: the buffer is full. *)
Definition push (ev : ExecSandboxEvent) (s : FakeStream) : option FakeStream :=
  if (length (fs_events s) <? events_cap)%nat
  then Some (mkStream (fs_sent s) (fs_events s ++ [ev]) (fs_closed s) (fs_err s) (fs_done s)) else None.

Definition Deliver (stdout : string) (s : FakeStream) : option FakeStream := push (ExecStdout (chars stdout)) s.

(** [None] is the panic of closing a closed channel. *)
Definition Fail_ (err : string) (s : FakeStream) : option FakeStream :=
  if fs_done s then None
  else Some (mkStream (fs_sent s) (fs_events s) (fs_closed s) (Some (default err (fs_err s))) true).

Definition Exit (code : Z) (s : FakeStream) : option FakeStream :=
  s' ← push (ExecExit code) s; Fail_ "process exited" s'.

(** [select] takes any case that is ready. *)
Inductive Recv (s : FakeStream) : option ExecSandboxEvent → FakeStream → Prop :=
| recv_event ev rest : fs_events s = ev :: rest →
    Recv s (Some ev) (mkStream (fs_sent s) rest (fs_closed s) (fs_err s) (fs_done s))
| recv_done : fs_done s = true → Recv s None s.

(** ** Selectors *)

(** A pair that a selector can spell. *)
Definition plain_pair (kv : list ascii * list ascii) : Prop :=
  ","%char ∉ kv.1 ∧ "="%char ∉ kv.1 ∧ ","%char ∉ kv.2.

Definition spell_pair (kv : list ascii * list ascii) : list ascii := kv.1 ++ "="%char :: kv.2.

Fixpoint spell_selector (kvs : list (list ascii * list ascii)) : list ascii :=
  match kvs with
  | [] => []
  | [kv] => spell_pair kv
  | kv :: rest => spell_pair kv ++ ","%char :: spell_selector rest
  end.

Definition add_pair (m : gmap string string) (kv : list ascii * list ascii) : gmap string string :=
  <[string_of_list_ascii kv.1 := string_of_list_ascii kv.2]> m.

Lemma spell_pair_plain kv : plain_pair kv → ","%char ∉ spell_pair kv.
Proof.
  intros (H1 & _ & H2). unfold spell_pair. rewrite elem_of_app, elem_of_cons. intros [?|[[=]|?]]; done.
Qed.

Lemma selector_spelled kvs m : Forall plain_pair kvs → kvs ≠ [] →
  selector_parts (split_at "," (spell_selector kvs) []) m = Some (foldl add_pair m kvs).
Proof.
  revert m. induction kvs as [|kv kvs IH]; intros m Hp Hn; [done|]. apply Forall_cons_1 in Hp as [Hk Hp].
  assert (Hc : cut_value (spell_pair kv) = (kv.1, Some kv.2)) by (apply cut_value_name, Hk).
  destruct kvs as [|kv' kvs].
  - cbn [spell_selector]. rewrite split_at_none by (by apply spell_pair_plain). cbn [selector_parts app]. by rewrite Hc.
  - change (spell_selector (kv :: kv' :: kvs)) with (spell_pair kv ++ ","%char :: spell_selector (kv' :: kvs)).
    rewrite split_at_first by (by apply spell_pair_plain). cbn [selector_parts app]. rewrite Hc. by apply IH.
Qed.

(** A selector that was spelled from pairs is read back as them, the last of a key
    winning. *)
Theorem selector_roundtrip kvs : Forall plain_pair kvs → kvs ≠ [] →
  parseLabelSelector (string_of_list_ascii (spell_selector kvs)) = Some (foldl add_pair ∅ kvs).
Proof.
  intros Hp Hn. unfold parseLabelSelector.
  destruct (String.eqb_spec (string_of_list_ascii (spell_selector kvs)) "") as [E|_].
  - destruct kvs as [|[k v] [|kv' kvs]]; [done|by destruct k..].
  - unfold chars. rewrite list_ascii_of_string_of_list_ascii. by apply selector_spelled.
Qed.

(** A match asks for every pair, a missing label counting as empty. *)
Lemma labelsMatch_spec labels sel :
  labelsMatch labels sel = true ↔ ∀ k v, sel !! k = Some v → default "" (labels !! k) = v.
Proof.
  unfold labelsMatch. rewrite forallb_forall. split.
  - intros H k v Hk. apply String.eqb_eq, (H (k, v)), list_elem_of_In, elem_of_map_to_list, Hk.
  - intros H [k v] Hin%list_elem_of_In%elem_of_map_to_list. by apply String.eqb_eq, H.
Qed.

(** ** Listing *)

Section Listed.
Context (walk : list string → list string).
Hypothesis walk_perm : ∀ l, walk l ≡ₚ l.

(** A listing is what the selector asks for: the sandboxes whose labels match, each
    once. *)
Lemma listed_exactly f selector sel infos : parseLabelSelector selector = Some sel →
  ListSandboxes walk f selector = Some infos →
  ∀ i, i ∈ infos.*1 ↔ ∃ labels, fk_labels f !! si_Name i = Some labels ∧ labelsMatch labels sel = true ∧
    i = mkInfo (si_Name i) (default PhaseOther (fk_phase f !! si_Name i)) labels.
Proof.
  unfold ListSandboxes. intros -> [= <-] i. rewrite list_elem_of_fmap. split.
  - intros ([i' id] & -> & (name & Hn & _)%list_elem_of_bind). unfold list_one in Hn.
    destruct (fk_labels f !! name) as [labels|] eqn:E; [|by apply elem_of_nil in Hn].
    destruct (labelsMatch labels sel) eqn:Em; [|by apply elem_of_nil in Hn].
    apply list_elem_of_singleton in Hn as [= -> ->]. by exists labels.
  - destruct i as [name ph ls]. intros (labels & Hl & Hm & [= -> ->]). cbn [si_Name] in *. eexists (_, _). split; [reflexivity|].
    apply list_elem_of_bind. exists name. split.
    + unfold list_one. rewrite Hl, Hm. by apply list_elem_of_singleton.
    + rewrite walk_perm, elem_of_elements, elem_of_dom. by eexists.
Qed.

(** A single pair as a selector. *)
Lemma selector_one k v :
  ","%char ∉ chars k → "="%char ∉ chars k → ","%char ∉ chars v →
  parseLabelSelector (k +:+ "=" +:+ v) = Some {[k := v]}.
Proof.
  intros H1 H2 H3.
  assert (E : string_of_list_ascii (spell_selector [(chars k, chars v)]) = k +:+ "=" +:+ v).
  { cbn [spell_selector]. unfold spell_pair. cbn [fst snd].
    rewrite <-(string_of_chars (k +:+ "=" +:+ v)). f_equal. by rewrite !chars_app. }
  rewrite <- E. unfold parseLabelSelector.
  destruct (String.eqb_spec (string_of_list_ascii (spell_selector [(chars k, chars v)])) "") as [E0|_].
  { rewrite E in E0. by destruct k. }
  unfold chars at 1. rewrite list_ascii_of_string_of_list_ascii, selector_spelled; [|by repeat constructor|done].
  cbn. unfold add_pair. cbn [fst snd]. by rewrite !string_of_chars.
Qed.

(** ** A create on the fake *)

Lemma perform_all_app f cs1 cs2 : perform_all f (cs1 ++ cs2) = perform_all (perform_all f cs1) cs2.
Proof. apply foldl_app. Qed.

(** A call that leaves the sandboxes alone. *)
Definition neutral (c : call) : Prop :=
  match c with CCreateSandbox _ _ | CDeleteSandbox _ => False | _ => True end.

Lemma neutral_same cs f : Forall neutral cs →
  fk_labels (perform_all f cs) = fk_labels f ∧ fk_phase (perform_all f cs) = fk_phase f ∧ fk_ids (perform_all f cs) = fk_ids f.
Proof.
  revert f. induction cs as [|c cs IH]; intros f Hc; [done|]. apply Forall_cons_1 in Hc as [Hc Hcs].
  destruct (IH (snd (perform f c)) Hcs) as (E1 & E2 & E3). cbn [perform_all foldl] in *. unfold perform_all in *.
  rewrite E1, E2, E3. by destruct c.
Qed.
End Listed.

Section Creates.
Context {S : Type} `{EventStore S}.

Definition create_name (r : ResolvedProfile) (env : create_env) : string :=
  if String.eqb (rp_Name r) "" then "sbx-" +:+ drop_str 6 (ce_id env) else rp_Name r.

(** The calls of a create whose sandbox was made: the create, calls that leave the
    sandboxes alone, and after a failure the rollback. *)
Definition create_calls (name : string) (labels : gmap string string) (res : option AgentErr) (calls : list call) : Prop :=
  ∃ spec pre, sb_Labels spec = labels ∧ Forall neutral pre ∧
    calls = CCreateSandbox name spec :: pre ++ match res with None => [] | Some _ => rollbackSandbox name end.

Lemma create_finish_calls w s a spec pre res calls w' : Forall neutral pre →
  create_finish w s a (CCreateSandbox (a_Sandbox a) spec :: pre) = (res, calls, w') →
  create_calls (a_Sandbox a) (sb_Labels spec) res calls.
Proof.
  intros Hp [(-> & -> & _)|(-> & -> & _)]%create_finish_spec; exists spec, pre; split_and!; try done.
  by rewrite app_nil_r.
Qed.

Lemma create_provision_calls cfg w a parent env spec pre res calls w' : Forall neutral pre →
  create_provision cfg w a parent env (CCreateSandbox (a_Sandbox a) spec :: pre) = (res, calls, w') →
  create_calls (a_Sandbox a) (sb_Labels spec) res calls.
Proof.
  intros Hp. unfold create_provision. destruct (agent_publish _ _ _ _) as [[ev s] a1] eqn:Ep.
  assert (Hs : a_Sandbox a1 = a_Sandbox a).
  { unfold agent_publish in Ep. destruct (PublishLifecycle _ _ _ _) as [[e1 s1] h1]. by injection Ep as _ _ <-. }
  rewrite <-!app_comm_cons. destruct (negb (ce_policy_ok env)).
  { intros [= <- <- <-]. exists spec, (pre ++ [CApplyModelGatewayPolicy (a_Sandbox a)]).
    split_and!; [done|apply Forall_app_2; [done|by repeat constructor]|].
    by rewrite <-app_assoc. }
  destruct (negb (ce_deny_ok env)).
  { intros [= <- <- <-]. exists spec, (pre ++ [CApplyModelGatewayPolicy (a_Sandbox a);
      CApplyControllerEgressDeny (a_Sandbox a) (ControllerServiceHost cfg) (ControllerServicePort cfg)]).
    split_and!; [done|apply Forall_app_2; [done|by repeat constructor]|].
    by rewrite <-app_assoc. }
  case_decide.
  - destruct (noteBootID_same (set_pull true a1) (ce_resolve env) (ce_status env)) as [_ Hb]. cbn [a_Sandbox set_pull] in Hb.
    rewrite <-Hs, <-Hb. apply create_finish_calls, Forall_app_2; [done|by repeat constructor].
  - destruct (negb (ce_startpi_ok env)).
    + intros [= <- <- <-]. exists spec, ((pre ++ [CApplyModelGatewayPolicy (a_Sandbox a);
        CApplyControllerEgressDeny (a_Sandbox a) (ControllerServiceHost cfg) (ControllerServicePort cfg)])
        ++ [CStartPi (a_Sandbox a) (rp_Model (a_resolved a1))]).
      split_and!; [done|repeat apply Forall_app_2; [done|by repeat constructor..]|]. by rewrite <-!app_assoc.
    + rewrite <-Hs. change (a_Sandbox a1) with (a_Sandbox (set_stdin (StdinOpen []) a1)).
      apply create_finish_calls. repeat apply Forall_app_2; [done|by repeat constructor..].
Qed.

Lemma create_commit_calls cfg w parent parentID r env res calls w' :
  create_commit cfg w parent parentID r env = (res, calls, w') → ce_create_ok env = true →
  (is_Some res ∧ calls = []) ∨ create_calls (create_name r env) (sandbox_labels (ce_id env) parent) res calls.
Proof.
  intros E Hok. unfold create_commit in E. fold (create_name r env) in E.
  destruct (NewEventHub (w_store w) (ce_id env)) as [hub|]; [right|injection E as <- <- <-; left; by split].
  rewrite Hok in E. set (spec := mkSpec _ _ _ _ _) in E.
  change (sandbox_labels (ce_id env) parent) with (sb_Labels spec).
  destruct (sandbox_ready env); [|injection E as <- <- <-; by exists spec, []].
  case_decide; [destruct (ce_expose_ok env)|].
  - eapply create_provision_calls in E; [exact E|by repeat constructor].
  - injection E as <- <- <-. exists spec, [CExposeDaemon (create_name r env)]. by split_and!; [|repeat constructor|].
  - by eapply create_provision_calls in E.
Qed.

Lemma create_on_fake_labels cfg w parent parentID r env res calls w' f :
  create_commit cfg w parent parentID r env = (res, calls, w') → answers f env →
  fk_labels f !! create_name r env = None →
  fk_labels (perform_all f calls) =
    match res with
    | None => <[create_name r env := sandbox_labels (ce_id env) parent]> (fk_labels f)
    | Some _ => fk_labels f
    end.
Proof.
  intros E (Hok & _) Hfree. destruct (create_commit_calls _ _ _ _ _ _ _ _ _ E Hok) as [[[e ->] ->]|Hc]; [done|].
  destruct Hc as (spec & pre & <- & Hp & ->). cbn [perform_all foldl perform].
  change (foldl (λ f c, snd (perform f c))) with perform_all. rewrite perform_all_app.
  destruct res as [e|]; cbn [rollbackSandbox perform_all foldl perform snd DeleteSandbox WithdrawDaemon with_sandboxes
    with_lifetimes with_exposure fk_labels];
    rewrite (proj1 (neutral_same pre _ Hp)); [|done]. cbn. by rewrite delete_insert_id.
Qed.

(** A create, performed on the fake under a name that is free: the gateway ends with the
    new sandbox, labelled for its agent, next to the ones it had, or with exactly those;
    and a deletion of the sandbox takes it away again. *)
Theorem create_on_fake cfg w parent parentID r env res calls w' f :
  create_commit cfg w parent parentID r env = (res, calls, w') → answers f env →
  fk_labels f !! create_name r env = None →
  let f' := perform_all f calls in
  fk_labels f' = match res with
                 | None => <[create_name r env := sandbox_labels (ce_id env) parent]> (fk_labels f)
                 | Some _ => fk_labels f
                 end ∧
  fk_labels (perform_all f' (rollbackSandbox (create_name r env))) = fk_labels f.
Proof.
  intros E Ha Hfree f'. assert (El := create_on_fake_labels _ _ _ _ _ _ _ _ _ _ E Ha Hfree). fold f' in El.
  split; [done|]. cbn. rewrite El. destruct res; [by apply delete_id|by apply delete_insert_id].
Qed.

(** After a successful create the registry's listing shows the agent: the sandbox is
    there, owned, and carries the id of the agent. *)
Theorem created_agent_listed cfg w parent parentID r env calls w' f walk infos :
  create_commit cfg w parent parentID r env = (None, calls, w') → answers f env → (∀ l, walk l ≡ₚ l) →
  fk_labels f !! create_name r env = None → ce_id env ≠ ""%string →
  ListSandboxes walk (perform_all f calls) (LabelManagedBy +:+ "=" +:+ ManagedByValue) = Some infos →
  ∃ i, i ∈ infos.*1 ∧ si_Name i = create_name r env ∧ owned i = true ∧ label i LabelAgentID = ce_id env.
Proof.
  intros E Ha Hw Hfree Hid Hl.
  pose proof (create_on_fake_labels _ _ _ _ _ _ _ _ _ _ E Ha Hfree) as El. cbn in El.
  assert (Hs : parseLabelSelector (LabelManagedBy +:+ "=" +:+ ManagedByValue) = Some {[LabelManagedBy := ManagedByValue]})
    by (by apply selector_one; apply (bool_decide_eq_true_1 _); vm_compute).
  assert (Hm : sandbox_labels (ce_id env) parent !! LabelManagedBy = Some ManagedByValue ∧
    sandbox_labels (ce_id env) parent !! LabelAgentID = Some (ce_id env)) by (by destruct parent).
  destruct Hm as [Hm Hi].
  eexists (mkInfo _ _ _). split_and!; [apply (listed_exactly walk Hw _ _ _ _ Hs Hl); exists (sandbox_labels (ce_id env) parent)|..].
  - cbn [si_Name]. rewrite El, lookup_insert_eq. split; [done|]. split; [|done].
    apply labelsMatch_spec. intros k v [<- <-]%lookup_singleton_Some. by rewrite Hm.
  - done.
  - unfold owned, label. cbn [si_Labels]. rewrite Hm, Hi. cbn. unfold non_empty.
    by rewrite (proj2 (String.eqb_neq _ _) Hid).
  - unfold label. cbn [si_Labels]. by rewrite Hi.
Qed.
End Creates.

(** ** The exec stream *)

(** What can happen on a stream, with the events pushed and the events received. *)
Inductive stream_run : list ExecSandboxEvent → list ExecSandboxEvent → FakeStream → Prop :=
| run_new : stream_run [] [] NewFakeStream
| run_send pushed got s stdin : stream_run pushed got s → stream_run pushed got (snd (Send stdin s))
| run_push pushed got s ev s' : stream_run pushed got s → push ev s = Some s' → stream_run (pushed ++ [ev]) got s'
| run_fail pushed got s err s' : stream_run pushed got s → Fail_ err s = Some s' → stream_run pushed got s'
| run_recv pushed got s ev s' : stream_run pushed got s → Recv s ev s' → stream_run pushed (got ++ option_list ev) s'.

(** What is received is what was pushed, in order, up to what the buffer holds, which is
    never more than its size. *)
Theorem stream_fifo pushed got s :
  stream_run pushed got s → pushed = got ++ fs_events s ∧ (length (fs_events s) ≤ events_cap)%nat.
Proof.
  induction 1 as [|pushed got s stdin _ [-> IH]|pushed got s ev s' _ [-> IH] Hp|pushed got s err s' _ [-> IH] Hf
    |pushed got s ev s' _ [-> IH] Hr]; cbn.
  - split; [done|]. unfold events_cap. lia.
  - unfold Send. by destruct (fs_closed s).
  - unfold push in Hp. destruct (Nat.ltb_spec (length (fs_events s)) events_cap); simplify_eq. cbn.
    rewrite length_app, app_assoc. cbn. split; [done|lia].
  - unfold Fail_ in Hf. by destruct (fs_done s); simplify_eq.
  - destruct Hr as [ev rest E|]; cbn; [|by rewrite app_nil_r]. rewrite E in IH |- *. cbn in IH. rewrite <-app_assoc. split; [done|lia].
Qed.

(** A stream that has failed still takes input: the flag that would refuse it is never
    set. *)
Theorem failed_stream_takes_input pushed got s stdin : stream_run pushed got s → fst (Send stdin s) = true.
Proof.
  intros H. assert (E : fs_closed s = false); [|unfold Send; by rewrite E].
  induction H as [|????? IH|????? ? IH Hp|????? ? IH Hf|????? ? IH Hr]; try done.
  - unfold Send. by destruct (fs_closed s).
  - unfold push in Hp. by destruct (_ <? _)%nat; simplify_eq.
  - unfold Fail_ in Hf. by destruct (fs_done s); simplify_eq.
  - by destruct Hr.
Qed.

(** After an exit the receiver may see the exit event, or the end of the stream without
    it. *)
Theorem exit_event_may_be_missed code s s' :
  fs_events s = [] → Exit code s = Some s' →
  Recv s' None s' ∧ ∃ s'', Recv s' (Some (ExecExit code)) s''.
Proof.
  unfold Exit, push. intros ->. cbn. unfold Fail_. cbn. destruct (fs_done s); [done|]. intros [= <-].
  split; [by constructor|]. eexists. by eapply recv_event.
Qed.

(** ** Samples *)

Module Samples.
Definition fake : FakeGateway := SetStream NewFakeGateway.

Lemma answers_fake : answers fake ex_create.
Proof. by split_and!. Qed.

Definition created : option AgentErr * list call * World MemDB :=
  create_commit ex_config ex_world None "" ex_resolved ex_create.

Lemma create_on_fake_witness :
  ∃ calls w', created = (None, calls, w') ∧
    fk_labels (perform_all fake calls) = <[create_name ex_resolved ex_create := sandbox_labels "agent-0a1b2c3d4e5f" None]> ∅.
Proof.
  destruct created as [[[e|] calls] w'] eqn:E; [vm_compute in E; discriminate|]. exists calls, w'. split; [done|].
  exact (proj1 (create_on_fake ex_config ex_world None "" ex_resolved ex_create None calls w' fake E answers_fake eq_refl)).
Defined.

Lemma selector_roundtrip_witness :
  parseLabelSelector "a=1,b=2=3,a=4" = Some (<["a" := "4"]> (<["b" := "2=3"]> ∅))%string.
Proof.
  etransitivity; [apply (selector_roundtrip [(chars "a", chars "1"); (chars "b", chars "2=3"); (chars "a", chars "4")]);
    [repeat constructor; apply (bool_decide_eq_true_1 _); vm_compute; reflexivity|done]|vm_compute; reflexivity].
Defined.
End Samples.
