(* ===== verification/OperatorRender.v ===== *)
(** * The operator: rendering a KapeAgentServer
      (src/operator/domain/agentserver, src/operator/domain/config,
       src/operator/infra/k8s/agentserver.go)

    The pure half of the operator: from the custom resource and the credential
    values that were pushed to the environment of the controller it deploys, the
    provider records and the network objects.  The environment is the contract
    with the controller, whose reading of it is file [ServerConfig]. *)

From Stdlib Require Import Ascii String ZArith.
From S2P Require Import Prelude Json GoTime GoStrings Bolt EventStore EventHub Fsm Monitor Config.
From S2P Require Import Agent Manager Policy ServerConfig.
From stdpp Require Import base list strings numbers gmap.
Local Open Scope Z_scope.

(** ** The custom resource *)

Record CredentialSpec : Type := mkCred {
  cs_Name : string; cs_SecretName : string; cs_SecretNamespace : string;
  cs_ProviderType : string; cs_HostPatterns : list string
}.

Record IngressSpec : Type := mkIngressSpec { is_Host : string; is_TLSSecretName : string }.

Record KapeAgentServer : Type := mkServer {
  ks_Namespace : string; ks_Name : string; ks_Generation : Z; ks_Deleting : bool;
  ks_Description : string; ks_ControllerImage : string;
  ks_SandboxImage : string; ks_SandboxModel : string; ks_SandboxResources : Resources;
  ks_ModelGatewayURL : string; ks_Credentials : list CredentialSpec; ks_Ingress : option IngressSpec
}.

(** ** Names and labels *)

Definition ManagedByLabel : string := "app.kubernetes.io/managed-by".
Definition Op_ManagedByValue : string := "kape-operator".
Definition AgentServerLabel : string := "kape.io/agentserver".
Definition CredentialLabel : string := "kape.io/credential".
Definition CredentialLabelValue : string := "true".

Definition ControllerName (serverName : string) : string := "kape-controller-" +:+ serverName.

Definition ProviderName (ns name cred : string) : string :=
  "kape-" +:+ ns +:+ "-" +:+ name +:+ "-" +:+ cred.

Definition SelectorLabels (serverName : string) : gmap string string :=
  <["app.kubernetes.io/name"%string := ControllerName serverName]> {[ AgentServerLabel := serverName ]}.

Definition ObjectLabels (serverName : string) : gmap string string :=
  <[ManagedByLabel := Op_ManagedByValue]> (SelectorLabels serverName).

(** ** Provider profiles *)

Record ProfileCredential : Type := mkProfileCred {
  pc_Name : string; pc_Description : string; pc_Required : bool; pc_AuthStyle : string; pc_HeaderName : string
}.

Record ProviderProfile : Type := mkProviderProfile {
  pp_ID : string; pp_DisplayName : string; pp_Description : string; pp_Category : string;
  pp_Credentials : list ProfileCredential; pp_Binaries : list string
}.

Definition CategorySourceControl : string := "source_control".

Definition git_https : ProviderProfile :=
  mkProviderProfile "git-https" "Git over HTTPS (GitHub)"
    "GitHub git and REST API over HTTPS with proxy-layer auth-header injection" CategorySourceControl
    [mkProfileCred "token" "GitHub token injected at the egress proxy" true "bearer" "Authorization"]
    ["/usr/bin/git"; "/usr/bin/gh"]%string.

Definition builtinProfiles : gmap string ProviderProfile := {[ "git-https"%string := git_https ]}.

Definition Profile (providerType : string) : option ProviderProfile := builtinProfiles !! providerType.

(** Insertion sort of names, [sort.Strings]. *)
Fixpoint insert_name (x : string) (l : list string) : list string :=
  match l with
  | [] => [x]
  | y :: r => if String.ltb y x then y :: insert_name x r else x :: l
  end.

Definition sort_names (l : list string) : list string := foldr insert_name [] l.

Definition MissingCredentialKeys (p : ProviderProfile) (values : gmap string string) : list string :=
  sort_names (pc_Name <$> filter (λ c, pc_Required c = true ∧ values !! pc_Name c = None) (pp_Credentials p)).

(** ** Records and environment *)

(** Credential values by credential name, then by key. *)
Notation ResolvedSecrets := (gmap string (gmap string string)).

Record OpenShellRecord : Type := mkRecord {
  or_Credential : string; or_Name : string; or_ProviderType : string;
  or_HostPatterns : list string; or_Values : gmap string string
}.

Definition openShellRecords (s : KapeAgentServer) (resolved : ResolvedSecrets) : list OpenShellRecord :=
  omap (λ cred, values ← resolved !! cs_Name cred;
                Some (mkRecord (cs_Name cred) (ProviderName (ks_Namespace s) (ks_Name s) (cs_Name cred))
                        (cs_ProviderType cred) (cs_HostPatterns cred) values))
       (ks_Credentials s).

Fixpoint profiles_loop (seen : gset string) (records : list OpenShellRecord) : list ProviderProfile :=
  match records with
  | [] => []
  | rec :: rest =>
      if decide (or_ProviderType rec ∈ seen) then profiles_loop seen rest
      else match Profile (or_ProviderType rec) with
           | None => profiles_loop seen rest
           | Some p => p :: profiles_loop ({[or_ProviderType rec]} ∪ seen) rest
           end
  end.

Definition providerProfiles (records : list OpenShellRecord) : list ProviderProfile := profiles_loop ∅ records.

(** A nil slice marshals as [null]. *)
Definition hosts_json (hosts : list string) : json :=
  match hosts with [] => JNull | _ => JArr (JStr <$> hosts) end.

Definition binding_json (rec : OpenShellRecord) : json :=
  JObj [("provider"%string, JStr (or_Name rec)); ("hosts"%string, hosts_json (or_HostPatterns rec))].

Definition credentialBindingsJSON (records : list OpenShellRecord) : json := JArr (binding_json <$> records).

Definition resourcesJSON (r : Resources) : json :=
  JObj [("cpu"%string, JStr (CPU r)); ("memory"%string, JStr (Memory r))].

(** The value of a variable, or where it is read from: the references of
    [corev1.EnvVarSource]. *)
Inductive envsource : Type :=
| FromValue (v : envval)
| FromSecret (name key : string) (optional : option bool)
| FromConfigMap (name key : string) (optional : option bool)
| FromField (apiVersion path : string)
| FromResource (container resource divisor : string)
| FromFile (volume path key : string) (optional : option bool).

Record EnvVar : Type := mkEnvVar { ev_Name : string; ev_Source : envsource }.

Definition text_var (name value : string) : EnvVar := mkEnvVar name (FromValue (EText value)).
Definition json_var (name : string) (j : json) : EnvVar := mkEnvVar name (FromValue (EDoc j false)).

Definition deploymentEnv (s : KapeAgentServer) (records : list OpenShellRecord) (daemonTokenSecret : string) :
    list EnvVar :=
  [ text_var "KAPE_DEFAULT_IMAGE" (ks_SandboxImage s);
    text_var "KAPE_DEFAULT_MODEL" (ks_SandboxModel s);
    json_var "KAPE_DEFAULT_RESOURCES" (resourcesJSON (ks_SandboxResources s));
    text_var "KAPE_MODEL_GATEWAY_URL" (ks_ModelGatewayURL s);
    text_var "KAPE_SERVER_DESCRIPTION" (ks_Description s);
    json_var "KAPE_CREDENTIAL_BINDINGS" (credentialBindingsJSON records) ]
  ++ (if String.eqb daemonTokenSecret "" then []
      else [mkEnvVar "KAPE_DAEMON_TOKEN" (FromSecret daemonTokenSecret "token" None)]).

(** ** Network objects *)

Record OwnerReference : Type := mkOwner { ow_Kind : string; ow_Name : string; ow_Controller : bool }.

Definition OwnerRef (s : KapeAgentServer) : OwnerReference := mkOwner "KapeAgentServer" (ks_Name s) true.

Record Service : Type := mkService {
  sv_Name : string; sv_Namespace : string; sv_Labels : gmap string string; sv_Owner : OwnerReference;
  sv_Selector : gmap string string; sv_Port : Z; sv_TargetPort : string
}.

Record Ingress : Type := mkIngress {
  ig_Name : string; ig_Namespace : string; ig_Labels : gmap string string; ig_Owner : OwnerReference;
  ig_Host : string; ig_BackendName : string; ig_BackendPort : Z; ig_TLS : option (string * string)
}.

Definition service (s : KapeAgentServer) : Service :=
  mkService (ControllerName (ks_Name s)) (ks_Namespace s) (ObjectLabels (ks_Name s)) (OwnerRef s)
    (SelectorLabels (ks_Name s)) 80 "http".

Definition ingress (s : KapeAgentServer) (spec : IngressSpec) : Ingress :=
  mkIngress (ControllerName (ks_Name s)) (ks_Namespace s) (ObjectLabels (ks_Name s)) (OwnerRef s)
    (is_Host spec) (ControllerName (ks_Name s)) 80
    (if String.eqb (is_TLSSecretName spec) "" then None else Some (is_Host spec, is_TLSSecretName spec)).

Record DesiredState : Type := mkDesired {
  ds_DeploymentEnv : list EnvVar; ds_Service : Service; ds_Ingress : option Ingress;
  ds_ProviderProfiles : list ProviderProfile; ds_OpenShellRecords : list OpenShellRecord
}.

Definition RenderWithDaemonToken (s : KapeAgentServer) (resolved : ResolvedSecrets) (daemonTokenSecret : string) :
    DesiredState :=
  let records := openShellRecords s resolved in
  mkDesired (deploymentEnv s records daemonTokenSecret) (service s) (ingress s <$> ks_Ingress s)
    (providerProfiles records) records.

Definition Render (s : KapeAgentServer) (resolved : ResolvedSecrets) : DesiredState :=
  RenderWithDaemonToken s resolved "".

(** ** Cluster wiring *)

Record ControllerWiring : Type := mkWiring {
  cw_GatewayAddr : string; cw_CredsDir : string; cw_CredsSecret : string; cw_DefaultProvider : string;
  cw_Transport : string; cw_EventStore : string; cw_ExtraEnv : list EnvVar
}.

Definition IsContractEnv (name : string) : bool :=
  existsb (String.eqb name)
    ["KAPE_DEFAULT_IMAGE"; "KAPE_DEFAULT_MODEL"; "KAPE_DEFAULT_RESOURCES";
     "KAPE_MODEL_GATEWAY_URL"; "KAPE_SERVER_DESCRIPTION"; "KAPE_CREDENTIAL_BINDINGS"]%string.

Definition wiring_checks (w : ControllerWiring) : list (string * string) :=
  [ ("KAPE_GATEWAY_ADDR", cw_GatewayAddr w); ("KAPE_CREDS_DIR", cw_CredsDir w);
    ("KAPE_CREDS_SECRET", cw_CredsSecret w); ("KAPE_DEFAULT_PROVIDER", cw_DefaultProvider w);
    ("KAPE_TRANSPORT", cw_Transport w); ("KAPE_EVENT_STORE", cw_EventStore w) ]%string.

Definition Missing (w : ControllerWiring) : list string :=
  (filter (λ c, snd c = ""%string) (wiring_checks w)).*1.

(** The entries of [l] whose name is new, in order. *)
Fixpoint add_env (seen : gset string) (l : list EnvVar) : list EnvVar :=
  match l with
  | [] => []
  | e :: rest =>
      if decide (ev_Name e ∈ seen) then add_env seen rest
      else e :: add_env ({[ev_Name e]} ∪ seen) rest
  end.

Definition wiring_env (w : ControllerWiring) : list EnvVar :=
  [ text_var "KAPE_GATEWAY_ADDR" (cw_GatewayAddr w); text_var "KAPE_CREDS_DIR" (cw_CredsDir w);
    text_var "KAPE_DEFAULT_PROVIDER" (cw_DefaultProvider w); text_var "KAPE_TRANSPORT" (cw_Transport w);
    text_var "KAPE_EVENT_STORE" (cw_EventStore w) ].

Definition controllerEnv (contractEnv : list EnvVar) (w : ControllerWiring) : list EnvVar :=
  add_env ∅ (contractEnv ++ wiring_env w ++ filter (λ e, IsContractEnv (ev_Name e) = false) (cw_ExtraEnv w)).

(** ** What the controller reads *)

Fixpoint find_env (k : string) (l : list EnvVar) : option EnvVar :=
  match l with
  | [] => None
  | e :: rest => if String.eqb (ev_Name e) k then Some e else find_env k rest
  end.

(** The process environment of the container, where values are taken literally: what a
    reference reads is [reads], absent when it is optional and there is nothing, and
    [from] are the variables of the [envFrom] sources, behind those of the list. *)
Record container_env : Type := mkContainerEnv {
  en_reads : envsource → option string;
  en_from : string → option string
}.

Definition source_value (ce : container_env) (src : envsource) : envval :=
  match src with
  | FromValue v => v
  | _ => match en_reads ce src with Some v => EText v | None => EUnset end
  end.

Definition process_env (ce : container_env) (l : list EnvVar) (k : string) : envval :=
  match find_env k l with
  | Some e => source_value ce (ev_Source e)
  | None => match en_from ce k with Some v => EText v | None => EUnset end
  end.

(** The binding a record stands for. *)
Definition record_binding (rec : OpenShellRecord) : Binding := mkBinding (or_Name rec) (or_HostPatterns rec).

(** The pattern admission checks host patterns against: labels or stars between
    dots, then an optional port of up to five digits. *)
Definition hostPatternRe : re :=
  let an := RClass alnum in
  let stars := RSeq (lit "*") (opt (lit "*")) in
  let label := RSeq an (opt (RSeq (RStar (RClass (λ c, alnum c || Ascii.eqb c "-"))) an)) in
  let part := RAlt stars label in
  RSeq part (RSeq (RStar (RSeq (lit ".") part))
    (opt (RSeq (lit ":") (RSeq (RClass is_digit) (upto 4 (RClass is_digit)))))).

(** ** The environment *)

Lemma find_env_add k l : ∀ seen, find_env k (add_env seen l) = if decide (k ∈ seen) then None else find_env k l.
Proof.
  induction l as [|e l IH]; intros seen; cbn [add_env find_env]; [by case_decide|].
  destruct (String.eqb_spec (ev_Name e) k) as [<-|Hne].
  - case_decide as Hin; [by rewrite IH, decide_True|]. cbn [find_env]. by rewrite String.eqb_refl.
  - case_decide as Hin; [apply IH|]. cbn [find_env]. destruct (String.eqb_spec (ev_Name e) k); [done|].
    rewrite IH. repeat case_decide; set_solver.
Qed.

Lemma find_env_app k l1 l2 e : find_env k l1 = Some e → find_env k (l1 ++ l2) = Some e.
Proof. induction l1 as [|x l1 IH]; [done|]. simpl. by case_match. Qed.

Lemma find_controllerEnv k contract w e :
  find_env k contract = Some e → find_env k (controllerEnv contract w) = Some e.
Proof.
  intros Hf. unfold controllerEnv. rewrite find_env_add, decide_False by set_solver. by apply find_env_app.
Qed.

Lemma find_env_skip k l1 l2 : find_env k l1 = None → find_env k (l1 ++ l2) = find_env k l2.
Proof. induction l1 as [|e l1 IH]; [done|]. cbn [find_env app]. destruct (String.eqb (ev_Name e) k); [done|]. apply IH. Qed.

(** ** Reading back what was rendered *)

Definition name_char (c : ascii) : bool := alnum c || one_of "._-" c.

Lemma providerRe_spec s : MatchString providerRe s = true ↔ s ≠ ""%string ∧ Forall (λ c, name_char c = true) (chars s).
Proof.
  rewrite re_matches_lang. unfold providerRe, many1. split.
  - remember (chars s) as cs eqn:Ecs. inversion 1 as [| |? ? u v Hu Hv| | | |]; subst. inversion Hu; subst.
    split; [by intros ->|]. constructor; [done|]. by apply lang_star_class.
  - intros [Hne Hall]. destruct s as [|c s]; [done|]. inversion Hall; subst.
    change (chars (String c s)) with ([c] ++ chars s). constructor; [by constructor|by apply lang_star_class].
Qed.

(** Names of Kubernetes objects give names the controller accepts. *)
Lemma ProviderName_ok ns name cred :
  Forall (λ c, name_char c = true) (chars ns) → Forall (λ c, name_char c = true) (chars name) →
  Forall (λ c, name_char c = true) (chars cred) → MatchString providerRe (ProviderName ns name cred) = true.
Proof.
  intros Hns Hn Hc. apply providerRe_spec. unfold ProviderName. split; [done|].
  rewrite !chars_app, !Forall_app. repeat split; try done; repeat constructor.
Qed.

Lemma decode_hosts_rendered name hosts :
  decode_hosts [("provider"%string, JStr name); ("hosts"%string, hosts_json hosts)] = (hosts, false).
Proof.
  unfold decode_hosts. cbn [fold_left fst snd].
  change (key_matches "hosts" "provider") with false. change (key_matches "hosts" "hosts") with true.
  cbn match. unfold hosts_json. destruct hosts as [|h hosts]; [done|]. cbn [fst snd orb].
  f_equal.
  - rewrite <-list_fmap_compose. rewrite (list_fmap_ext _ id); [by rewrite list_fmap_id|done].
  - apply negb_false_iff, forallb_forall. intros x Hx%list_elem_of_In.
    by apply list_elem_of_fmap in Hx as (s & -> & _).
Qed.

Lemma decode_binding_rendered rec : decode_binding (binding_json rec) = Some (record_binding rec).
Proof.
  unfold decode_binding, binding_json. cbn [unmarshal_struct mbind option_bind].
  assert (string_field "provider" [("provider"%string, JStr (or_Name rec)); ("hosts"%string, hosts_json (or_HostPatterns rec))]
    = (or_Name rec, false)) as ->.
  { unfold string_field, decode_field. cbn [fold_left fst snd].
    change (key_matches "provider" "provider") with true. change (key_matches "provider" "hosts") with false. done. }
  rewrite decode_hosts_rendered. done.
Qed.

(** What admission and the names of objects promise of a record. *)
Record good_record (rec : OpenShellRecord) : Prop := {
  gr_name : MatchString providerRe (or_Name rec) = true;
  gr_some : or_HostPatterns rec ≠ [];
  gr_hosts : specs_ok (or_HostPatterns rec)
}.

Lemma check_bindings_good recs : ∀ i, Forall good_record recs → check_bindings i (record_binding <$> recs) = None.
Proof.
  induction recs as [|r recs IH]; intros i Hr; [done|]. inversion Hr as [|? ? [Hn Hs Hh] Hrest]; subst.
  rewrite fmap_cons. cbn [check_bindings record_binding b_Provider b_Hosts]. rewrite Hn. cbn [negb].
  destruct (or_HostPatterns r) as [|h hs] eqn:E; [done|].
  rewrite (proj2 (check_hosts_ok (h :: hs)) Hh). by apply IH.
Qed.

Lemma decode_bindings_rendered recs : decode_bindings (credentialBindingsJSON recs) = Some (record_binding <$> recs).
Proof.
  unfold decode_bindings, credentialBindingsJSON. induction recs as [|r recs IH]; [done|].
  rewrite !fmap_cons. cbn [mapM]. rewrite decode_binding_rendered. cbn [mbind option_bind]. by rewrite IH.
Qed.

Lemma ParseBindings_rendered recs :
  Forall good_record recs → ParseBindings (BTJson (credentialBindingsJSON recs) false) = Ok (record_binding <$> recs).
Proof. intros Hg. unfold ParseBindings. by rewrite decode_bindings_rendered, check_bindings_good. Qed.

Section Contract.
Context (json_text : json → string) (ce : container_env).
Hypothesis json_text_nonempty : ∀ j, json_text j ≠ ""%string.
Context (s : KapeAgentServer) (records : list OpenShellRecord) (token : string) (w : ControllerWiring).

Let env : string → envval := process_env ce (controllerEnv (deploymentEnv s records token) w).

Lemma env_contract k e : find_env k (deploymentEnv s records token) = Some e →
  env k = source_value ce (ev_Source e).
Proof. intros Hf. unfold env, process_env. by rewrite (find_controllerEnv _ _ _ _ Hf). Qed.

Lemma env_of_text k v : find_env k (deploymentEnv s records token) = Some (text_var k v) → Getenv json_text env k = v.
Proof. intros Hf. unfold Getenv. by rewrite (env_contract _ _ Hf). Qed.

(** The table as the controller reads it. *)
Lemma env_bindings_rendered d :
  env_bindings json_text env d =
  match ParseBindings (BTJson (credentialBindingsJSON records) false) with
  | Ok bs => Ok bs
  | Err e => Err (EBindings e)
  end.
Proof.
  unfold env_bindings, Getenv.
  rewrite (env_contract "KAPE_CREDENTIAL_BINDINGS" (json_var "KAPE_CREDENTIAL_BINDINGS" (credentialBindingsJSON records)) eq_refl).
  cbn [json_var ev_Source source_value bindings_value]. pose proof (json_text_nonempty (credentialBindingsJSON records)) as Hne.
  apply String.eqb_neq in Hne. by rewrite Hne.
Qed.

Lemma env_resources_rendered d : env_resources json_text env d = Ok (ks_SandboxResources s).
Proof.
  unfold env_resources, Getenv.
  rewrite (env_contract "KAPE_DEFAULT_RESOURCES" (json_var "KAPE_DEFAULT_RESOURCES" (resourcesJSON (ks_SandboxResources s))) eq_refl).
  cbn [json_var ev_Source source_value]. pose proof (json_text_nonempty (resourcesJSON (ks_SandboxResources s))) as Hne.
  apply String.eqb_neq in Hne. rewrite Hne. by destruct (ks_SandboxResources s).
Qed.

(** The contract between operator and controller: whatever the cluster wiring
    and the chart's extra variables, the controller reads from its environment what
    the resource declares (image, model, resources, gateway, description) and the
    table of exactly the records, and nothing else can shadow it. *)
Theorem controller_reads_the_resource d dr :
  Forall good_record records →
  env_bindings json_text env d = Ok (record_binding <$> records) ∧
  env_resources json_text env dr = Ok (ks_SandboxResources s) ∧
  Getenv json_text env "KAPE_DEFAULT_IMAGE" = ks_SandboxImage s ∧
  Getenv json_text env "KAPE_DEFAULT_MODEL" = ks_SandboxModel s ∧
  Getenv json_text env "KAPE_MODEL_GATEWAY_URL" = ks_ModelGatewayURL s ∧
  Getenv json_text env "KAPE_SERVER_DESCRIPTION" = ks_Description s.
Proof.
  intros Hg. rewrite env_bindings_rendered, ParseBindings_rendered by done.
  split; [done|]. split; [apply env_resources_rendered|]. by repeat split; apply env_of_text.
Qed.

Lemma check_bindings_bad recs spec rec : ∀ i,
  rec ∈ recs → spec ∈ or_HostPatterns rec → splitHostSpec spec = None →
  ∃ e, check_bindings i (record_binding <$> recs) = Some e.
Proof.
  induction recs as [|r recs IH]; intros i Hin Hs Hb; [by apply elem_of_nil in Hin|].
  rewrite fmap_cons. cbn [check_bindings record_binding b_Provider b_Hosts].
  destruct (MatchString providerRe (or_Name r)); cbn [negb]; [|eauto].
  destruct (or_HostPatterns r) as [|h hs] eqn:Eh; [eauto|].
  destruct (check_hosts (h :: hs)) eqn:Ec; [eauto|].
  apply elem_of_cons in Hin as [->|Hin]; [|by apply IH].
  apply check_hosts_ok in Ec. unfold specs_ok in Ec. rewrite Forall_forall in Ec.
  rewrite Eh in Hs. destruct (Ec _ Hs) as [x Hx]. congruence.
Qed.

(** One host pattern the controller cannot split stops the whole controller:
    whatever else is configured, its environment is refused at start. *)
Theorem unsplittable_host_stops_controller rec spec def :
  rec ∈ records → spec ∈ or_HostPatterns rec → splitHostSpec spec = None →
  is_ok (envConfig json_text env def) = false.
Proof.
  intros Hin Hs Hb. unfold envConfig. rewrite env_resources_rendered.
  destruct (env_int _ _ "KAPE_CONTROLLER_SERVICE_PORT" _ _); [|done].
  rewrite env_bindings_rendered. unfold ParseBindings. rewrite decode_bindings_rendered.
  by destruct (check_bindings_bad records spec rec 0 Hin Hs Hb) as [e ->].
Qed.

Lemma Missing_nil :
  Missing w = [] →
  cw_GatewayAddr w ≠ ""%string ∧ cw_DefaultProvider w ≠ ""%string ∧ cw_Transport w ≠ ""%string ∧
  cw_EventStore w ≠ ""%string.
Proof.
  unfold Missing. intros Hm. apply fmap_nil_inv in Hm.
  assert (∀ c, c ∈ wiring_checks w → snd c ≠ ""%string) as Hall.
  { intros c Hc He. assert (c ∈ filter (λ c, snd c = ""%string) (wiring_checks w)) as Hin
      by (by apply list_elem_of_filter). rewrite Hm in Hin. by apply elem_of_nil in Hin. }
  split; [apply (Hall ("KAPE_GATEWAY_ADDR"%string, cw_GatewayAddr w)); left|].
  split; [apply (Hall ("KAPE_DEFAULT_PROVIDER"%string, cw_DefaultProvider w)); do 3 right; left|].
  split; [apply (Hall ("KAPE_TRANSPORT"%string, cw_Transport w)); do 4 right; left|].
  apply (Hall ("KAPE_EVENT_STORE"%string, cw_EventStore w)); do 5 right; left.
Qed.

(** The wiring comes before the extra variables, so these cannot shadow it. *)
Lemma env_wired k v :
  find_env k (deploymentEnv s records token) = None →
  find_env k (wiring_env w) = Some (text_var k v) → Getenv json_text env k = v.
Proof.
  clear json_text_nonempty. intros Hn Hw. unfold Getenv, env, process_env, controllerEnv.
  rewrite find_env_add, decide_False by set_solver.
  rewrite find_env_skip by done. by rewrite (find_env_app _ _ _ _ Hw).
Qed.

Lemma env_str_is k v d : Getenv json_text env k = v → v ≠ ""%string → env_str json_text env k d = v.
Proof. clear json_text_nonempty. intros Ev Hv. unfold env_str, or_default. by rewrite Ev, (proj2 (String.eqb_neq _ _) Hv). Qed.

(** The names of the contract. *)
Lemma contract_only k :
  IsContractEnv k = false → String.eqb "KAPE_DAEMON_TOKEN" k = false →
  find_env k (deploymentEnv s records token) = None.
Proof.
  clear json_text_nonempty. unfold IsContractEnv. intros Hk Ht. cbn [existsb] in Hk. rewrite !orb_false_iff in Hk.
  rewrite !(String.eqb_sym k) in Hk. destruct Hk as (H1 & H2 & H3 & H4 & H5 & H6 & _).
  unfold deploymentEnv. cbn [app find_env text_var json_var ev_Name]. rewrite H1, H2, H3, H4, H5, H6.
  destruct (String.eqb token ""); cbn [find_env ev_Name]; by rewrite ?Ht.
Qed.

(** The variables that neither the contract nor the wiring sets, as the extra
    variables may set them: numbers in range, and an address for the monitor. *)
Definition int_var (lo hi : Z) (k : string) : Prop :=
  Getenv json_text env k = ""%string ∨ ∃ n, Atoi (Getenv json_text env k) = Some n ∧ lo ≤ n ≤ hi.

Definition other_vars_ok : Prop :=
  int_var 1 65535 "KAPE_CONTROLLER_SERVICE_PORT" ∧ int_var 1 65535 "KAPE_DAEMON_PORT" ∧
  int_var 0 i64_max "KAPE_SPAWN_MAX_DEPTH" ∧ int_var 1 i64_max "KAPE_SPAWN_MAX_CHILDREN" ∧
  int_var 0 i64_max "KAPE_REVIVE_MAX" ∧ int_var 0 i64_max "KAPE_REVIVE_COOLDOWN" ∧
  int_var 1 (i64_max / second) "KAPE_MONITOR_INTERVAL_SECONDS" ∧
  int_var 1 (i64_max / second) "KAPE_MONITOR_TIMEOUT_SECONDS" ∧
  HasPrefix (env_str json_text env "KAPE_MONITOR_BASE_URL" (mc_BaseURL (sc_Monitor (DefaultConfig "")))) "http" = true.

Lemma env_int_ok lo lo' hi d k :
  int_var lo hi k → lo' ≤ lo → ∃ n, env_int json_text env k lo' d = Ok n ∧ (n = d ∨ lo ≤ n ≤ hi).
Proof.
  intros [E|(n & E & Hn)] Hlo; unfold env_int.
  - rewrite E. cbn. eauto.
  - destruct (String.eqb _ ""); [eauto|]. rewrite E. destruct (Z.ltb_spec n lo'); [lia|]. eauto.
Qed.

Lemma env_seconds_ok lo hi d k :
  int_var lo hi k → ∃ n, env_seconds json_text env k lo d = Ok n ∧
    (0 < d → 0 < lo → hi ≤ i64_max / second → 0 < n).
Proof.
  intros [E|(n & E & Hn)]; unfold env_seconds.
  - rewrite E. cbn. eauto.
  - destruct (String.eqb _ ""); [eauto|]. rewrite E. destruct (Z.ltb_spec n lo); [lia|].
    eexists. split; [done|]. intros _ Hlo Hhi.
    assert (0 < second) as Hs by done. pose proof (Z.mul_div_le i64_max second Hs).
    assert (n * second ≤ i64_max / second * second) by (apply Z.mul_le_mono_nonneg_r; lia).
    assert (0 < n * second) by (apply Z.mul_pos_pos; lia).
    rewrite i64_wrap_small; [done|]. unfold i64_min. lia.
Qed.

Lemma http_nonempty v : HasPrefix v "http" = true → String.eqb v "" = false.
Proof. by destruct v. Qed.

Lemma or_default_nonempty v d : d ≠ ""%string → String.eqb (or_default v d) "" = false.
Proof. intros Hd. unfold or_default. destruct (String.eqb v "") eqn:E; [by apply String.eqb_neq|done]. Qed.

Lemma daemon_port_ok : int_var 1 65535 "KAPE_DAEMON_PORT" →
  match Atoi (env_str json_text env "KAPE_DAEMON_PORT" (sc_DaemonPort (DefaultConfig ""))) with
  | Some p => negb (tcp_port p) | None => true end = false.
Proof.
  intros [E|(n & E & Hn)]; unfold env_str, or_default.
  - by rewrite E.
  - destruct (String.eqb_spec (Getenv json_text env "KAPE_DAEMON_PORT") "") as [|_]; [done|].
    rewrite E. unfold tcp_port. lia.
Qed.

(** C19. The controller the operator deploys starts, environment values being taken
    literally: for complete wiring, a resource with a usable image, resources and
    gateway, credentials with splittable hosts, and whatever extra variables and
    [envFrom] sources, as long as the numeric settings they make (ports, spawn and
    revive limits, times of the monitor) are in range and the monitor's address begins
    with http.  The controller reads its environment and passes its own start-up
    checks, with exactly the rendered bindings. *)
Theorem rendered_controller_starts home :
  other_vars_ok → Missing w = [] → transport_of (cw_Transport w) ≠ TransportOther (cw_Transport w) →
  MatchString providerRe (cw_DefaultProvider w) = true →
  CreateProfile_Validate (mkProfile "" (ks_SandboxImage s) (Some (ks_SandboxResources s)) "" "") = None →
  ks_SandboxImage s ≠ ""%string → HasPrefix (ks_ModelGatewayURL s) "http" = true → Forall good_record records →
  ∃ cfg, envConfig json_text env (DefaultConfig home) = Ok cfg ∧ Config_Validate cfg = None ∧
         sc_CredentialBindings cfg = record_binding <$> records.
Proof.
  intros (Hport & Hdport & Hdep & Hch & Hrm & Hco & Hin & Hto & Hbase) Hmiss Htr Hprov Hprof Himg Hurl Hg.
  destruct (Missing_nil Hmiss) as (Hgw & Hdp & Ht & Hes).
  unfold envConfig. rewrite env_resources_rendered, env_bindings_rendered, ParseBindings_rendered by done.
  destruct (env_int_ok 1 i64_min 65535 (ControllerServicePort (sc_core (DefaultConfig home))) _ Hport) as (port & -> & Hp); [done|].
  destruct (env_int_ok 0 0 _ (SpawnMaxDepth (sc_core (DefaultConfig home))) _ Hdep) as (n1 & -> & _); [done|].
  destruct (env_int_ok 1 1 _ (SpawnMaxChildren (sc_core (DefaultConfig home))) _ Hch) as (n2 & -> & _); [done|].
  destruct (env_int_ok 0 0 _ (ReviveMax (sc_core (DefaultConfig home))) _ Hrm) as (n3 & -> & _); [done|].
  destruct (env_seconds_ok 0 _ (ReviveCooldown (sc_core (DefaultConfig home))) _ Hco) as (n4 & -> & _).
  destruct (env_seconds_ok 1 _ (mc_Interval (sc_Monitor (DefaultConfig home))) _ Hin) as (n5 & -> & H5).
  destruct (env_seconds_ok 1 _ (mc_Timeout (sc_Monitor (DefaultConfig home))) _ Hto) as (n6 & -> & H6).
  eexists. split; [reflexivity|]. split; [|reflexivity]. unfold Config_Validate.
  cbn [sc_core sc_ModelGatewayURL sc_GatewayAddr sc_ListenAddr sc_EventStorePath sc_Monitor sc_DaemonPort sc_SandboxNamespace
    mc_BaseURL mc_Interval mc_Timeout
    DefaultProvider DefaultImage DefaultResources Transport ControllerServiceHost ControllerServicePort].
  assert (tcp_port port = true) as -> by (destruct Hp as [->|]; [done|unfold tcp_port; lia]).
  rewrite (proj2 (Z.leb_gt n5 0)), (proj2 (Z.leb_gt n6 0)) by (apply H5 || apply H6; done).
  assert (ks_ModelGatewayURL s ≠ ""%string) as Hne by (by intros E; rewrite E in Hurl).
  rewrite (env_str_is "KAPE_DEFAULT_IMAGE" (ks_SandboxImage s)), (env_str_is "KAPE_MODEL_GATEWAY_URL" (ks_ModelGatewayURL s))
    by first [assumption | apply env_of_text; reflexivity].
  pose proof (env_wired "KAPE_TRANSPORT" (cw_Transport w) (contract_only "KAPE_TRANSPORT" eq_refl eq_refl) eq_refl) as Etr.
  rewrite (env_str_is "KAPE_GATEWAY_ADDR" (cw_GatewayAddr w)), (env_str_is "KAPE_DEFAULT_PROVIDER" (cw_DefaultProvider w)),
    (env_str_is "KAPE_EVENT_STORE" (cw_EventStore w)), Etr
    by first [assumption | apply env_wired; [apply contract_only; reflexivity|reflexivity]].
  change (sc_DaemonPort (DefaultConfig home)) with (sc_DaemonPort (DefaultConfig "")).
  change (mc_BaseURL (sc_Monitor (DefaultConfig home))) with (mc_BaseURL (sc_Monitor (DefaultConfig ""))).
  rewrite daemon_port_ok, Hprov, Hprof, Hurl, Hbase, (http_nonempty _ Hbase) by done.
  apply String.eqb_neq in Hgw, Hdp, Ht, Hes, Hne. rewrite Hgw, Hdp, Ht, Hes, Hne.
  unfold env_str. rewrite !or_default_nonempty by done. cbn [orb negb]. rewrite !andb_false_r.
  unfold transport_of in *. destruct (String.eqb (cw_Transport w) "pull"); [reflexivity|].
  destruct (String.eqb (cw_Transport w) "exec"); [reflexivity|]. by destruct Htr.
Qed.

End Contract.

(** Admission accepts a host without a port, a port out of range and one the
    controller splits: only the last is usable. *)
Theorem admitted_hosts :
  MatchString hostPatternRe "github.com" = true ∧ splitHostSpec "github.com" = None ∧
  MatchString hostPatternRe "github.com:99999" = true ∧ splitHostSpec "github.com:99999" = None ∧
  MatchString hostPatternRe "*.github.com:443" = true ∧ splitHostSpec "*.github.com:443" = Some ("*.github.com"%string, 443).
Proof. vm_compute. repeat split. Qed.

(** ** Secrets *)

(** C32. No credential value reaches the controller's environment: two sets of
    values for the same credentials render the same environment, the same objects
    and the same profiles. *)
Theorem environment_carries_no_secret s r1 r2 token :
  dom r1 = dom r2 →
  let d1 := RenderWithDaemonToken s r1 token in
  let d2 := RenderWithDaemonToken s r2 token in
  ds_DeploymentEnv d1 = ds_DeploymentEnv d2 ∧ ds_Service d1 = ds_Service d2 ∧ ds_Ingress d1 = ds_Ingress d2 ∧
  ds_ProviderProfiles d1 = ds_ProviderProfiles d2.
Proof.
  intros Hdom. cbn [RenderWithDaemonToken ds_DeploymentEnv ds_Service ds_Ingress ds_ProviderProfiles].
  assert (Forall2 (λ a b, or_Name a = or_Name b ∧ or_HostPatterns a = or_HostPatterns b ∧ or_ProviderType a = or_ProviderType b)
    (openShellRecords s r1) (openShellRecords s r2)) as Hf.
  { unfold openShellRecords. induction (ks_Credentials s) as [|c cs IH]; [constructor|]. cbn [omap list_omap].
    assert (is_Some (r1 !! cs_Name c) ↔ is_Some (r2 !! cs_Name c)) as Hd by (by rewrite <-!elem_of_dom, Hdom).
    destruct (r1 !! cs_Name c), (r2 !! cs_Name c); cbn [mbind option_bind]; [by constructor|..|done].
    - by destruct (proj1 Hd ltac:(eauto)).
    - by destruct (proj2 Hd ltac:(eauto)). }
  split; [|split; [done|split; [done|]]].
  - unfold deploymentEnv, credentialBindingsJSON.
    assert (binding_json <$> openShellRecords s r1 = binding_json <$> openShellRecords s r2) as ->; [|done].
    induction Hf as [|a b l k (Hn & Hh & _) _ IH]; [done|]. rewrite !fmap_cons, IH. unfold binding_json. by rewrite Hn, Hh.
  - unfold providerProfiles. generalize (∅ : gset string).
    induction Hf as [|a b l k (_ & _ & Ht) _ IH]; intros seen; [done|]. cbn [profiles_loop]. rewrite Ht.
    case_decide; [apply IH|]. destruct (Profile _); [f_equal|]; apply IH.
Qed.

(** Provider names are global to the gateway and not unique: moving a dash
    from the namespace to the name of the resource gives the same provider. *)
Theorem provider_names_collide a b c cred : ProviderName (a +:+ "-" +:+ b) c cred = ProviderName a (b +:+ "-" +:+ c) cred.
Proof. unfold ProviderName. by rewrite !str_app_assoc. Qed.

(** ** A resource *)

Definition team_server : KapeAgentServer :=
  mkServer "team-a" "prod" 1 false "prod agents" "registry.local/kape/controller:1.0" "registry.local/kape/sandbox:1.0"
    "sonnet" (mkResources "1" "1Gi") "http://models.local"
    [mkCred "gh" "gh-token" "" "git-https" ["*.github.com:443"%string]] (Some (mkIngressSpec "agents.local" "")).

Definition team_secrets (token : string) : ResolvedSecrets := {[ "gh"%string := {[ "token"%string := token ]} ]}.

Definition team_records : list OpenShellRecord := openShellRecords team_server (team_secrets "t").

Definition team_wiring : ControllerWiring :=
  mkWiring "gateway.local:443" "/creds" "kape-creds" "anthropic" "pull" "/var/lib/kape/events.db" [].

Lemma team_records_good : Forall good_record team_records.
Proof.
  apply Forall_cons_2; [|apply Forall_nil_2]. split.
  - vm_compute. reflexivity.
  - discriminate.
  - apply Forall_cons_2; [|apply Forall_nil_2]. exists ("*.github.com"%string, 443). vm_compute. reflexivity.
Qed.

Definition doc_text (j : json) : string := "doc".

Lemma doc_text_nonempty j : doc_text j ≠ ""%string.
Proof. discriminate. Qed.

(** No references and no sources. *)
Definition bare_env : container_env := mkContainerEnv (λ _, None) (λ _, None).

Lemma controller_reads_the_resource_witness :
  env_bindings doc_text (process_env bare_env (controllerEnv (deploymentEnv team_server team_records "") team_wiring)) []
  = Ok [mkBinding "kape-team-a-prod-gh" ["*.github.com:443"%string]].
Proof.
  exact (proj1 (controller_reads_the_resource doc_text bare_env doc_text_nonempty team_server team_records ""
    team_wiring [] (mkResources "" "") team_records_good)).
Defined.

Lemma unsplittable_host_stops_controller_witness :
  let rec := mkRecord "gh" "kape-team-a-prod-gh" "git-https" ["github.com"%string] ∅ in
  is_ok (envConfig doc_text (process_env bare_env (controllerEnv (deploymentEnv team_server [rec] "") team_wiring))
           (DefaultConfig "/home")) = false.
Proof.
  intros rec. apply (unsplittable_host_stops_controller doc_text bare_env doc_text_nonempty team_server [rec] ""
    team_wiring rec "github.com"); [left|left|vm_compute; reflexivity].
Defined.

(** The variables the chart adds, with its default values. *)
Definition chart_wiring : ControllerWiring :=
  mkWiring "gateway.local:443" "/creds" "kape-creds" "anthropic" "pull" "/var/lib/kape/events.db"
    [ text_var "KAPE_MONITOR_INTERVAL_SECONDS" "60"; text_var "KAPE_MONITOR_SUMMARIZER_MODEL" "scaledown/summarize";
      text_var "KAPE_MONITOR_CLASSIFIER_MODEL" "scaledown/classify-1";
      text_var "KAPE_MONITOR_BASE_URL" "https://openrouter.ai/api/v1"; text_var "KAPE_MONITOR_TIMEOUT_SECONDS" "5"; text_var "KAPE_REVIVE_MAX" "3"; text_var "KAPE_REVIVE_COOLDOWN" "60";
      mkEnvVar "KAPE_MONITOR_OPENROUTER_API_KEY" (FromSecret "openrouter" "OPENROUTER_API_KEY" None) ].

Lemma rendered_controller_starts_witness :
  ∃ cfg, envConfig doc_text (process_env bare_env (controllerEnv (deploymentEnv team_server team_records "") chart_wiring))
           (DefaultConfig "/home") = Ok cfg ∧ Config_Validate cfg = None ∧
         sc_CredentialBindings cfg = record_binding <$> team_records.
Proof.
  apply (rendered_controller_starts doc_text bare_env doc_text_nonempty team_server team_records "" chart_wiring "/home").
  2: vm_compute; reflexivity.
  2: discriminate.
  2: vm_compute; reflexivity.
  2: vm_compute; reflexivity.
  2: discriminate.
  2: vm_compute; reflexivity.
  2: exact team_records_good.
  unfold other_vars_ok, int_var.
  repeat match goal with |- _ ∧ _ => split end;
    first [ left; vm_compute; reflexivity
          | right; eexists; split; [vm_compute; reflexivity|split; vm_compute; discriminate]
          | vm_compute; reflexivity ].
Defined.

Lemma environment_carries_no_secret_witness :
  ds_DeploymentEnv (RenderWithDaemonToken team_server (team_secrets "t") "") =
  ds_DeploymentEnv (RenderWithDaemonToken team_server (team_secrets "u") "").
Proof.
  apply (environment_carries_no_secret team_server (team_secrets "t") (team_secrets "u") "").
  unfold team_secrets. rewrite !dom_singleton_L. reflexivity.
Defined.
