(* ===== verification/OperatorWriter.v ===== *)
(** * The operator: pushing credentials to the gateway
      (src/operator/infra/openshell/writer.go, src/operator/infra/k8s/secret_resolver.go)

    Secrets are read from the resource's own namespace when they carry the
    credential label; the records made from them are created or updated on the
    gateway, with bounded retries, and what was last written is remembered by its
    fingerprint because the gateway does not show credential values.  The gateway
    is an interface with its documented laws; SHA-256 is a parameter. *)

From Stdlib Require Import Ascii String ZArith.
From S2P Require Import Prelude Json GoTime GoStrings Bolt EventStore EventHub Fsm Monitor Config.
From S2P Require Import Agent Manager Policy ServerConfig OperatorRender.
From stdpp Require Import base list strings numbers gmap sorting.
Local Open Scope Z_scope.

(** ** Reading secrets *)

Record Secret : Type := mkSecret { se_Labels : gmap string string; se_Data : gmap string string }.

(** What the API server answers to a get. *)
Inductive k8s_get (A : Type) : Type :=
| KFound (a : A)
| KNotFound
| KError (msg : string).
Arguments KFound {A} a.
Arguments KNotFound {A}.
Arguments KError {A} msg.

(** The reasons of a credential that is not pushed; messages are left out. *)
Inductive reason : Type :=
| SecretNotFound | SecretNotLabeled | SecretNoData | SecretReadFailed | CrossNamespaceSecretRef
| GatewayNotConfigured | GatewayUnavailable | GatewayRejected | UnknownProviderType
| MissingCredentialKey | ProfileLintFailed.

#[global] Instance reason_eq_dec : EqDecision reason.
Proof. solve_decision. Defined.

Definition resolveOne (get : string → string → k8s_get Secret) (ns secretName : string) :
    res reason (gmap string string) :=
  if String.eqb secretName "" then Err SecretNotFound
  else match get ns secretName with
  | KNotFound => Err SecretNotFound
  | KError _ => Err SecretReadFailed
  | KFound s =>
      if negb (bool_decide (se_Labels s !! CredentialLabel = Some CredentialLabelValue)) then Err SecretNotLabeled
      else if bool_decide (se_Data s = ∅) then Err SecretNoData
      else Ok (se_Data s)
  end.

(** The refs are pairs of credential and secret name. *)
Definition Resolve (get : string → string → k8s_get Secret) (ns : string) (refs : list (string * string)) :
    ResolvedSecrets * gmap string reason :=
  foldl (λ st ref,
    match resolveOne get ns (snd ref) with
    | Err r => (fst st, <[fst ref := r]> (snd st))
    | Ok values => (<[fst ref := values]> (fst st), snd st)
    end) (∅, ∅) refs.

(** ** The gateway *)

Inductive gcode : Type :=
| GNotFound | GAborted | GResourceExhausted | GUnavailable | GDeadlineExceeded | GCanceled | GOther.

(** A failed call: its code, and whether its message says that the object
    already exists. *)
Record gerr : Type := mkGerr { ge_Code : gcode; ge_Exists : bool }.

(** The calls the writer makes and what they are documented to do; a state of the
    gateway includes whatever decides which calls fail.  A write that fails may or may
    not have taken effect, on the provider it names and on no other. *)
Class ProviderGateway : Type := {
  GW : Type;
  providers : GW → gmap string (string * gmap string string);
  GetProviderProfile : string → GW → GW * res gerr unit;
  LintProviderProfiles : list string → GW → GW * res gerr (list (string * string));
  ImportProviderProfile : string → GW → GW * res gerr unit;
  GetProvider : string → GW → GW * res gerr string;
  CreateProvider : string → string → gmap string string → GW → GW * res gerr unit;
  UpdateProvider : string → string → gmap string string → GW → GW * res gerr unit;
  profile_get_reads id g : providers (fst (GetProviderProfile id g)) = providers g;
  profile_lint_reads ids g : providers (fst (LintProviderProfiles ids g)) = providers g;
  profile_import_keeps id g : providers (fst (ImportProviderProfile id g)) = providers g;
  get_reads n g : providers (fst (GetProvider n g)) = providers g;
  get_type n g ty : snd (GetProvider n g) = Ok ty → ∃ vs, providers g !! n = Some (ty, vs);
  create_writes n ty vs g : snd (CreateProvider n ty vs g) = Ok () →
    providers (fst (CreateProvider n ty vs g)) = <[n := (ty, vs)]> (providers g);
  update_writes n ty vs g : snd (UpdateProvider n ty vs g) = Ok () →
    providers (fst (UpdateProvider n ty vs g)) = <[n := (ty, vs)]> (providers g);
  create_frame n ty vs g m : m ≠ n → providers (fst (CreateProvider n ty vs g)) !! m = providers g !! m;
  update_frame n ty vs g m : m ≠ n → providers (fst (UpdateProvider n ty vs g)) !! m = providers g !! m
}.

Definition retryable (e : gerr) : bool :=
  match ge_Code e with GAborted | GResourceExhausted | GUnavailable => true | _ => false end.

Definition isTransient (e : gerr) : bool :=
  match ge_Code e with GUnavailable | GDeadlineExceeded | GCanceled | GResourceExhausted => true | _ => false end.

Definition defaultAttempts : nat := 3.

(** [n] more attempts after the first; the waits between them have no effect on
    the outcome. *)
Fixpoint retry_loop {G A} (n : nat) (call : G → G * res gerr A) (st : G * res gerr A) : G * res gerr A :=
  match n with
  | O => st
  | S n => match snd st with
           | Err e => if retryable e then retry_loop n call (call (fst st)) else st
           | Ok _ => st
           end
  end.

Definition withRetry {G A} (call : G → G * res gerr A) (g : G) : G * res gerr A :=
  retry_loop (defaultAttempts - 1) call (call g).

(** ** Outcomes *)

Record CredentialOutcome : Type := mkOutcome {
  co_Credential : string; co_Provider : string; co_Result : option reason   (* [None] is Pushed *)
}.

Definition PushedOutcome (rec : OpenShellRecord) : CredentialOutcome := mkOutcome (or_Credential rec) (or_Name rec) None.
Definition FailedOutcome (rec : OpenShellRecord) (r : reason) : CredentialOutcome :=
  mkOutcome (or_Credential rec) (or_Name rec) (Some r).

Definition is_pushed (o : CredentialOutcome) : bool := match co_Result o with None => true | Some _ => false end.

(** ** Fingerprints *)

Definition NUL : string := String "000" "".

(** Keys in byte order with their values. *)
Definition key_before (a b : string * string) : Prop := String.leb (fst a) (fst b) = true.

#[global] Instance key_before_dec a b : Decision (key_before a b).
Proof. unfold key_before. apply _. Defined.

Definition entries (values : gmap string string) : list (string * string) := merge_sort key_before (map_to_list values).

(** The bytes that are hashed. *)
Definition preimage (values : gmap string string) : string :=
  foldr (λ kv acc, fst kv +:+ NUL +:+ snd kv +:+ NUL +:+ acc) ""%string (entries values).

Section Writer.
Context `{ProviderGateway} (sha256 : string → string).

Definition fingerprint (values : gmap string string) : string := sha256 (preimage values).

(** The gateway and the fingerprint last pushed per provider. *)
Record WState : Type := mkW { w_gw : GW; w_pushed : gmap string string }.

Definition pushOutstanding (rec : OpenShellRecord) (w : WState) : bool :=
  negb (bool_decide (w_pushed w !! or_Name rec = Some (fingerprint (or_Values rec)))).

Definition rememberPush (rec : OpenShellRecord) (g : GW) (w : WState) : WState :=
  mkW g (<[or_Name rec := fingerprint (or_Values rec)]> (w_pushed w)).

Definition writeFailure (rec : OpenShellRecord) (e : gerr) : CredentialOutcome * option gerr :=
  if isTransient e then (FailedOutcome rec GatewayUnavailable, Some e)
  else (FailedOutcome rec GatewayRejected, None).

Definition applyRecord (rec : OpenShellRecord) (w : WState) : WState * (CredentialOutcome * option gerr) :=
  match withRetry (GetProvider (or_Name rec)) (w_gw w) with
  | (g, Err e) =>
      match ge_Code e with
      | GNotFound =>
          match withRetry (CreateProvider (or_Name rec) (or_ProviderType rec) (or_Values rec)) g with
          | (g', Err e') => (mkW g' (w_pushed w), writeFailure rec e')
          | (g', Ok _) => (rememberPush rec g' w, (PushedOutcome rec, None))
          end
      | _ => (mkW g (w_pushed w), writeFailure rec e)
      end
  | (g, Ok ty) =>
      if String.eqb ty (or_ProviderType rec) && negb (pushOutstanding rec w)
      then (mkW g (w_pushed w), (PushedOutcome rec, None))
      else match withRetry (UpdateProvider (or_Name rec) (or_ProviderType rec) (or_Values rec)) g with
           | (g', Err e') => (mkW g' (w_pushed w), writeFailure rec e')
           | (g', Ok _) => (rememberPush rec g' w, (PushedOutcome rec, None))
           end
  end.

(** ** Profiles *)

(** A profile that is not there is an answer, not an error. *)
Definition profile_lookup (id : string) (g : GW) : GW * res gerr bool :=
  match GetProviderProfile id g with
  | (g', Ok _) => (g', Ok true)
  | (g', Err e) => match ge_Code e with GNotFound => (g', Ok false) | _ => (g', Err e) end
  end.

Definition profileExists (id : string) (g : GW) : GW * res gerr bool := withRetry (profile_lookup id) g.

Definition import_call (id : string) (g : GW) : GW * res gerr unit :=
  match ImportProviderProfile id g with
  | (g', Err e) => if ge_Exists e then (g', Ok ()) else (g', Err e)
  | ok => ok
  end.

Definition importProfile (id : string) (g : GW) : GW * res gerr unit := withRetry (import_call id) g.

(** The first loop of [prepareProfiles]: failures and the ids that are missing. *)
Fixpoint find_missing (order : list string) (failures : gmap string reason) (missing : list string) (g : GW) :
    GW * res gerr (gmap string reason * list string) :=
  match order with
  | [] => (g, Ok (failures, missing))
  | id :: rest =>
      match profileExists id g with
      | (g', Err e) => if isTransient e then (g', Err e)
                       else find_missing rest (<[id := GatewayRejected]> failures) missing g'
      | (g', Ok true) => find_missing rest failures missing g'
      | (g', Ok false) => find_missing rest failures (missing ++ [id]) g'
      end
  end.

(** The first error diagnostic of each profile. *)
Definition lint_failures (diagnostics : list (string * string)) (failures : gmap string reason) : gmap string reason :=
  foldl (λ m d, if String.eqb (snd d) "error" && bool_decide (m !! fst d = None)
                then <[fst d := ProfileLintFailed]> m else m) failures diagnostics.

Fixpoint import_missing (missing : list string) (failures : gmap string reason) (g : GW) :
    GW * res gerr (gmap string reason) :=
  match missing with
  | [] => (g, Ok failures)
  | id :: rest =>
      if decide (is_Some (failures !! id)) then import_missing rest failures g
      else match importProfile id g with
           | (g', Ok _) => import_missing rest failures g'
           | (g', Err e) => if isTransient e then (g', Err e)
                            else import_missing rest (<[id := GatewayRejected]> failures) g'
           end
  end.

Definition prepareProfiles (order : list string) (g : GW) : GW * res gerr (gmap string reason) :=
  match find_missing order ∅ [] g with
  | (g1, Err e) => (g1, Err e)
  | (g1, Ok (failures, [])) => (g1, Ok failures)
  | (g1, Ok (failures, missing)) =>
      match withRetry (LintProviderProfiles missing) g1 with
      | (g2, Err e) => (g2, Err e)
      | (g2, Ok diagnostics) => import_missing missing (lint_failures diagnostics failures) g2
      end
  end.

(** ** Apply *)

(** A record that can be pushed, or the reason it cannot. *)
Definition classify (rec : OpenShellRecord) : res reason ProviderProfile :=
  match Profile (or_ProviderType rec) with
  | None => Err UnknownProviderType
  | Some p => match MissingCredentialKeys p (or_Values rec) with
              | [] => Ok p
              | _ => Err MissingCredentialKey
              end
  end.

(** The profiles of the records that can be pushed, in order of first use. *)
Definition profile_order (records : list OpenShellRecord) : list string :=
  foldl (λ acc rec, match classify rec with
                    | Ok p => if decide (pp_ID p ∈ acc) then acc else acc ++ [pp_ID p]
                    | Err _ => acc
                    end) [] records.

(** The second loop: one outcome per record; the first transient error is kept. *)
Fixpoint push_records (failures : gmap string reason) (records : list OpenShellRecord) (w : WState) :
    WState * list CredentialOutcome * option gerr :=
  match records with
  | [] => (w, [], None)
  | rec :: rest =>
      let '(w1, (o, err)) :=
        match classify rec with
        | Err r => (w, (FailedOutcome rec r, None))
        | Ok _ => match failures !! or_ProviderType rec with
                  | Some r => (w, (FailedOutcome rec r, None))
                  | None => applyRecord rec w
                  end
        end in
      let '(w2, os, err') := push_records failures rest w1 in
      (w2, o :: os, match err with Some e => Some e | None => err' end)
  end.

Definition unavailable_outcomes (records : list OpenShellRecord) : list CredentialOutcome :=
  (λ rec, match classify rec with
          | Err r => FailedOutcome rec r
          | Ok _ => FailedOutcome rec GatewayUnavailable
          end) <$> records.

Definition Writer_Apply (records : list OpenShellRecord) (w : WState) :
    WState * list CredentialOutcome * option gerr :=
  if forallb (λ rec, negb (is_ok (classify rec))) records
  then (w, unavailable_outcomes records, None)
  else match prepareProfiles (profile_order records) (w_gw w) with
       | (g, Err e) => (mkW g (w_pushed w), unavailable_outcomes records, Some e)
       | (g, Ok failures) => push_records failures records (mkW g (w_pushed w))
       end.

End Writer.

(** ** Fingerprints tell clean values apart *)

Fixpoint nul_free (s : string) : bool :=
  match s with EmptyString => true | String c r => negb (Ascii.eqb c "000") && nul_free r end.

Definition clean (values : gmap string string) : Prop :=
  map_Forall (λ k v, nul_free k = true ∧ nul_free v = true) values.

Lemma split_nul a : ∀ b r s,
  nul_free a = true → nul_free b = true → a +:+ NUL +:+ r = b +:+ NUL +:+ s → a = b ∧ r = s.
Proof.
  induction a as [|c a IH]; intros [|d b] r s Ha Hb E.
  - split; [done|]. unfold NUL in E. rewrite !str_app_cons in E. by injection E.
  - unfold NUL in E. rewrite !str_app_cons in E. injection E as <- _. done.
  - unfold NUL in E. rewrite !str_app_cons in E. injection E as -> _. done.
  - rewrite !str_app_cons in E. injection E as <- E. cbn [nul_free] in Ha, Hb.
    apply andb_true_iff in Ha as [_ Ha], Hb as [_ Hb]. destruct (IH b r s Ha Hb E) as [-> ->]. done.
Qed.

Definition encode_entries (l : list (string * string)) : string :=
  foldr (λ kv acc, fst kv +:+ NUL +:+ snd kv +:+ NUL +:+ acc) ""%string l.

Lemma encode_nonempty kv l : encode_entries (kv :: l) ≠ ""%string.
Proof. cbn [encode_entries foldr]. destruct (fst kv); [|by rewrite str_app_cons]. done. Qed.

Lemma encode_inj l : ∀ l',
  Forall (λ kv, nul_free (fst kv) = true ∧ nul_free (snd kv) = true) l →
  Forall (λ kv, nul_free (fst kv) = true ∧ nul_free (snd kv) = true) l' →
  encode_entries l = encode_entries l' → l = l'.
Proof.
  induction l as [|[k v] l IH]; intros [|[k' v'] l'] Hl Hl' E.
  - done.
  - symmetry in E. by apply encode_nonempty in E.
  - by apply encode_nonempty in E.
  - inversion Hl as [|? ? [Hk Hv] Hrest]; inversion Hl' as [|? ? [Hk' Hv'] Hrest']; subst.
    cbn [encode_entries foldr fst snd] in *. fold (encode_entries l) (encode_entries l') in E.
    apply split_nul in E as [-> E]; [|done|done]. apply split_nul in E as [-> E]; [|done|done].
    f_equal. by apply IH.
Qed.

Lemma clean_entries m :
  clean m → Forall (λ kv, nul_free (fst kv) = true ∧ nul_free (snd kv) = true) (entries m).
Proof.
  intros Hc. unfold entries. rewrite merge_sort_Permutation, Forall_forall. intros [k v] Hkv.
  apply elem_of_map_to_list in Hkv. apply (Hc k v Hkv).
Qed.

Lemma preimage_inj m m' : clean m → clean m' → preimage m = preimage m' → m = m'.
Proof.
  intros Hm Hm' E. apply encode_inj in E; [|by apply clean_entries..].
  apply map_to_list_inj. rewrite <-(merge_sort_Permutation key_before (map_to_list m)).
  rewrite <-(merge_sort_Permutation key_before (map_to_list m')). unfold entries in E. by rewrite E.
Qed.

(** A value with a zero byte can stand for two entries: the hashed bytes of these
    two secrets are the same, so one replacing the other is not noticed. *)
Theorem fingerprint_ambiguous :
  preimage {[ "a"%string := ("x" +:+ NUL +:+ "b" +:+ NUL +:+ "y")%string ]}
    = preimage (<["a"%string := "x"%string]> {[ "b"%string := "y"%string ]}) ∧
  ({[ "a"%string := ("x" +:+ NUL +:+ "b" +:+ NUL +:+ "y")%string ]} : gmap string string)
    ≠ <["a"%string := "x"%string]> {[ "b"%string := "y"%string ]}.
Proof.
  split; [vm_compute; reflexivity|]. intros E. apply (f_equal (lookup "b"%string)) in E. vm_compute in E. discriminate E.
Qed.

(** ** Retries *)

Section Retries.
Context {G A : Type} (call : G → G * res gerr A) (P : G → Prop).
Hypothesis err_keeps : ∀ g, P g → is_ok (snd (call g)) = false → P (fst (call g)).

Lemma retry_loop_spec n : ∀ st,
  (is_ok (snd st) = false → P (fst st)) → (is_ok (snd st) = true → ∃ g, P g ∧ call g = st) →
  (is_ok (snd (retry_loop n call st)) = false → P (fst (retry_loop n call st))) ∧
  (is_ok (snd (retry_loop n call st)) = true → ∃ g, P g ∧ call g = retry_loop n call st).
Proof.
  induction n as [|n IH]; intros st He Ho; [done|]. cbn [retry_loop].
  destruct st as [g [a|e]]; cbn [fst snd] in *; [done|]. destruct (retryable e); [|done].
  specialize (He eq_refl). apply IH; [by apply err_keeps|eauto].
Qed.

(** A retried call that fails has kept what failing calls keep; one that succeeds
    did so from such a state. *)
Lemma withRetry_spec g :
  P g →
  (is_ok (snd (withRetry call g)) = false → P (fst (withRetry call g))) ∧
  (is_ok (snd (withRetry call g)) = true → ∃ g0, P g0 ∧ call g0 = withRetry call g).
Proof. intros Hg. apply retry_loop_spec; [by apply err_keeps|eauto]. Qed.
End Retries.

(** ** What is pushed is held *)

Section Held.
Context `{ProviderGateway} (sha256 : string → string).

(** The remembered fingerprints are those of what the gateway holds, except for the
    names in doubt: those of an earlier write whose outcome is not known, and those
    someone else has written. *)
Definition remembers (doubt : gset string) (w : WState) : Prop :=
  ∀ n fp, n ∉ doubt → w_pushed w !! n = Some fp →
    ∃ ty vs, providers (w_gw w) !! n = Some (ty, vs) ∧ fp = fingerprint sha256 vs.

(** The gateway has the record under its name, with its type, and unless the name is in
    doubt with values of the same fingerprint. *)
Definition stored_as (doubt : gset string) (w : WState) (rec : OpenShellRecord) : Prop :=
  ∃ vs, providers (w_gw w) !! or_Name rec = Some (or_ProviderType rec, vs) ∧
    (or_Name rec ∉ doubt → fingerprint sha256 vs = fingerprint sha256 (or_Values rec)).

(** The providers whose outcome is not Pushed. *)
Definition failed_names (os : list CredentialOutcome) : gset string :=
  list_to_set (co_Provider <$> filter (λ o, is_pushed o = false) os).

Lemma remembers_mono D D' w : D ⊆ D' → remembers D w → remembers D' w.
Proof. intros HD Hm n fp Hn. apply Hm. set_solver. Qed.

Lemma failed_names_cons o os :
  failed_names (o :: os) = (if is_pushed o then ∅ else {[co_Provider o]}) ∪ failed_names os.
Proof.
  unfold failed_names. rewrite filter_cons. destruct (is_pushed o); [rewrite decide_False by done|rewrite decide_True by done];
    set_solver.
Qed.

Lemma retry_reads {A} (call : GW → GW * res gerr A) g :
  (∀ g, providers (fst (call g)) = providers g) → providers (fst (withRetry call g)) = providers g.
Proof.
  intros Hc. destruct (withRetry_spec call (λ g', providers g' = providers g)) with (g := g) as [He Ho];
    [by intros g' <- _; rewrite Hc|done|].
  destruct (is_ok (snd (withRetry call g))); [|auto]. destruct (Ho eq_refl) as (g0 & Hg0 & <-). by rewrite Hc.
Qed.

Lemma retry_get n g ty : snd (withRetry (GetProvider n) g) = Ok ty → ∃ vs, providers g !! n = Some (ty, vs).
Proof.
  intros Hs. destruct (withRetry_spec (GetProvider n) (λ g', providers g' = providers g)) with (g := g) as [_ Ho];
    [by intros g' <- _; rewrite get_reads|done|].
  rewrite Hs in Ho. destruct (Ho eq_refl) as (g0 & <- & E). rewrite <-E in Hs. by apply get_type.
Qed.

(** A retried write touches no other provider, and has written when it succeeds. *)
Lemma retry_writes n p (call : GW → GW * res gerr unit) g :
  (∀ g, snd (call g) = Ok () → providers (fst (call g)) = <[n := p]> (providers g)) →
  (∀ g m, m ≠ n → providers (fst (call g)) !! m = providers g !! m) →
  (∀ m, m ≠ n → providers (fst (withRetry call g)) !! m = providers g !! m) ∧
  (snd (withRetry call g) = Ok () → providers (fst (withRetry call g)) !! n = Some p).
Proof.
  intros Hok Hfr.
  destruct (withRetry_spec call (λ g', ∀ m, m ≠ n → providers g' !! m = providers g !! m)) with (g := g) as [He Ho];
    [by intros g' Hg' _ m Hm; rewrite Hfr, Hg'|done|].
  destruct (withRetry call g) as [g' [[]|e]]; cbn [fst snd is_ok] in *; [|by split; [apply He|]].
  destruct (Ho eq_refl) as (g0 & Hg0 & E). specialize (Hok g0). specialize (Hfr g0). rewrite E in Hok, Hfr.
  split; [by intros m Hm; rewrite Hfr, Hg0|]. intros _. cbn [fst] in Hok. rewrite Hok by done. apply lookup_insert_eq.
Qed.

Lemma memory_keep D w g : remembers D w → providers g = providers (w_gw w) → remembers D (mkW g (w_pushed w)).
Proof. intros Hm Hg n fp HD Hn. cbn [w_gw]. rewrite Hg. by apply Hm. Qed.

Lemma writeFailure_failed rec e o err :
  writeFailure rec e = (o, err) → is_pushed o = false ∧ co_Provider o = or_Name rec.
Proof. unfold writeFailure. destruct (isTransient e); by intros [= <- <-]. Qed.

(** What [applyRecord] does to the gateway, whichever branch it takes. *)
Definition record_applied (D : gset string) (rec : OpenShellRecord) (w w' : WState) (o : CredentialOutcome) : Prop :=
  co_Provider o = or_Name rec ∧ remembers (if is_pushed o then D else {[or_Name rec]} ∪ D) w' ∧
  (∀ n, n ≠ or_Name rec → providers (w_gw w') !! n = providers (w_gw w) !! n) ∧
  (is_pushed o = true → stored_as D w' rec).

Lemma write_branch D rec w g call w' o err :
  remembers D w → providers g = providers (w_gw w) →
  (∀ g, snd (call g) = Ok () →
     providers (fst (call g)) = <[or_Name rec := (or_ProviderType rec, or_Values rec)]> (providers g)) →
  (∀ g m, m ≠ or_Name rec → providers (fst (call g)) !! m = providers g !! m) →
  match withRetry call g with
  | (g', Err e') => (mkW g' (w_pushed w), writeFailure rec e')
  | (g', Ok _) => (rememberPush sha256 rec g' w, (PushedOutcome rec, None))
  end = (w', (o, err)) →
  record_applied D rec w w' o.
Proof.
  intros Hm Hg Hok Hfr. pose proof (retry_writes _ _ call g Hok Hfr) as [Hother Hw].
  destruct (withRetry call g) as [g' [[]|e]]; cbn [fst snd] in Hother, Hw.
  - specialize (Hw eq_refl). rewrite Hg in Hother. intros [= <- <- <-]. cbn [rememberPush w_gw w_pushed].
    split; [done|]. split_and!; [|done|by intros _; eexists].
    intros n fp HD. cbn [rememberPush w_gw w_pushed]. destruct (decide (n = or_Name rec)) as [->|Hne].
    + rewrite lookup_insert_eq. intros [= <-]. eauto.
    + rewrite lookup_insert_ne, Hother by done. by apply Hm.
  - rewrite Hg in Hother. intros [= <- [Hf Hp]%writeFailure_failed]. split; [done|]. rewrite Hf.
    split_and!; [|done|done]. intros n fp HD Hn. cbn [w_gw]. rewrite Hother by set_solver. apply Hm; [set_solver|done].
Qed.

Lemma read_failed D rec w g e o err :
  remembers D w → providers g = providers (w_gw w) → writeFailure rec e = (o, err) →
  record_applied D rec w (mkW g (w_pushed w)) o.
Proof.
  intros Hm Hg [Hf Hp]%writeFailure_failed. split; [done|]. rewrite Hf. cbn [w_gw]. rewrite Hg. split_and!; [|done|done].
  apply (remembers_mono D); [set_solver|]. by apply memory_keep.
Qed.

Lemma applyRecord_spec D rec w w' o err :
  remembers D w → applyRecord sha256 rec w = (w', (o, err)) → record_applied D rec w w' o.
Proof.
  intros Hm. unfold applyRecord.
  pose proof (retry_reads (GetProvider (or_Name rec)) (w_gw w) (get_reads _)) as Hg.
  pose proof (retry_get (or_Name rec) (w_gw w)) as Ht.
  destruct (withRetry (GetProvider (or_Name rec)) (w_gw w)) as [g [ty|e]]; cbn [fst snd] in *.
  - destruct (String.eqb ty (or_ProviderType rec) && negb (pushOutstanding sha256 rec w)) eqn:E.
    + intros [= <- <- <-]. split; [done|]. cbn [w_gw]. rewrite Hg. split_and!; [by apply memory_keep|done|]. intros _.
      apply andb_true_iff in E as [->%String.eqb_eq Ep]. unfold pushOutstanding in Ep.
      rewrite negb_involutive, bool_decide_eq_true in Ep. destruct (Ht _ eq_refl) as (vs & Hp).
      exists vs. cbn [w_gw]. rewrite Hg. split; [done|]. intros HD.
      destruct (Hm _ _ HD Ep) as (ty' & vs' & Hp' & Hf). rewrite Hp in Hp'. by injection Hp' as _ <-.
    + apply write_branch; [done|done|apply update_writes|intros; by apply update_frame].
  - destruct (ge_Code e); try (intros [= <- Hf]; by eapply read_failed).
    apply write_branch; [done|done|apply create_writes|intros; by apply create_frame].
Qed.

(** The outcome of a record whose provider is stored, or not. *)
Definition told (D : gset string) (w : WState) (rec : OpenShellRecord) (o : CredentialOutcome) : Prop :=
  co_Credential o = or_Credential rec ∧ co_Provider o = or_Name rec ∧ (is_pushed o = true → stored_as D w rec).

Lemma told_weaken D D' w records os :
  Forall (λ r, or_Name r ∈ D' → or_Name r ∈ D) records → Forall2 (told D' w) records os → Forall2 (told D w) records os.
Proof.
  intros HD Hf. induction Hf as [|rec o records os (? & ? & Hst) _ IH]; [constructor|].
  apply Forall_cons in HD as [HD1 HD2]. constructor; [|by apply IH]. split_and!; [done..|].
  intros (vs & Hs & Hfp)%Hst. exists vs. split; [done|]. auto.
Qed.

Lemma push_records_spec failures records : ∀ D w w' os err,
  remembers D w → NoDup (or_Name <$> records) →
  push_records sha256 failures records w = (w', os, err) →
  remembers (D ∪ failed_names os) w' ∧
  (∀ n, n ∉ or_Name <$> records → providers (w_gw w') !! n = providers (w_gw w) !! n) ∧
  Forall2 (told D w') records os.
Proof.
  induction records as [|rec records IH]; intros D w w' os err Hm Hnd; cbn [push_records].
  - intros [= <- <- <-]. split; [by eapply remembers_mono; [|done]; set_solver|]. split; [done|constructor].
  - rewrite fmap_cons in Hnd. apply NoDup_cons in Hnd as [Hn Hnd].
    match goal with |- context [match ?m with (_, _) => _ end] => destruct m as [w1 [o err1]] eqn:E1 end.
    destruct (push_records sha256 failures records w1) as [[w2 os2] err2] eqn:E2. intros [= <- <- _].
    assert (record_applied D rec w w1 o ∧ co_Credential o = or_Credential rec) as [(Hpr & Hm1 & Hk1 & Hp1) Hco].
    { assert (∀ r, record_applied D rec w w (FailedOutcome rec r)) as Hfail.
      { intros r. split; [done|]. split_and!; [|done|done]. by eapply remembers_mono; [|done]; set_solver. }
      destruct (classify rec) as [p|r]; [destruct (failures !! or_ProviderType rec)|].
      - by injection E1 as <- <- <-.
      - split; [by eapply applyRecord_spec|]. revert E1. clear. unfold applyRecord, writeFailure.
        repeat case_match; by intros [= <- <- <-].
      - by injection E1 as <- <- <-. }
    destruct (IH _ _ _ _ _ Hm1 Hnd E2) as (Hm2 & Hk2 & Hf). rewrite failed_names_cons, Hpr. split_and!.
    + eapply remembers_mono; [|exact Hm2]. destruct (is_pushed o); set_solver.
    + intros n [Hn1 Hn2]%not_elem_of_cons. by rewrite Hk2, Hk1.
    + constructor.
      * split_and!; [done..|]. intros (vs & Hs & Hfp)%Hp1. exists vs. by rewrite Hk2.
      * eapply told_weaken; [|exact Hf]. apply Forall_forall. intros rec' Hin.
        assert (or_Name rec' ≠ or_Name rec) by (intros E; apply Hn; rewrite <-E; by apply list_elem_of_fmap_2).
        destruct (is_pushed o); set_solver.
Qed.

Lemma profileExists_reads id g : providers (fst (profileExists id g)) = providers g.
Proof.
  apply retry_reads. intros g'. unfold profile_lookup. pose proof (profile_get_reads id g') as Hp.
  destruct (GetProviderProfile id g') as [g1 [[]|e]]; [done|]. by destruct (ge_Code e).
Qed.

Lemma importProfile_keeps id g : providers (fst (importProfile id g)) = providers g.
Proof.
  apply retry_reads. intros g'. unfold import_call. pose proof (profile_import_keeps id g') as Hp.
  destruct (ImportProviderProfile id g') as [g1 [[]|e]]; [done|]. by destruct (ge_Exists e).
Qed.

Lemma find_missing_keeps order : ∀ failures missing g, providers (fst (find_missing order failures missing g)) = providers g.
Proof.
  induction order as [|id order IH]; intros failures missing g; [done|]. cbn [find_missing].
  pose proof (profileExists_reads id g) as Hp. destruct (profileExists id g) as [g' [[]|e]]; cbn [fst] in Hp.
  - by rewrite IH.
  - by rewrite IH.
  - destruct (isTransient e); [done|]. by rewrite IH.
Qed.

Lemma import_missing_keeps missing : ∀ failures g, providers (fst (import_missing missing failures g)) = providers g.
Proof.
  induction missing as [|id missing IH]; intros failures g; [done|]. cbn [import_missing].
  case_decide; [apply IH|]. pose proof (importProfile_keeps id g) as Hp.
  destruct (importProfile id g) as [g' [[]|e]]; cbn [fst] in Hp; [by rewrite IH|].
  destruct (isTransient e); [done|]. by rewrite IH.
Qed.

Lemma prepareProfiles_keeps order g : providers (fst (prepareProfiles order g)) = providers g.
Proof.
  unfold prepareProfiles. pose proof (find_missing_keeps order ∅ [] g) as Hp.
  destruct (find_missing order ∅ [] g) as [g1 [[failures [|m ms]]|e]]; cbn [fst] in Hp; [done| |done].
  pose proof (retry_reads (LintProviderProfiles (m :: ms)) g1 (profile_lint_reads _)) as Hl.
  destruct (withRetry (LintProviderProfiles (m :: ms)) g1) as [g2 [diags|e]]; cbn [fst] in Hl |- *; [|congruence].
  rewrite import_missing_keeps. congruence.
Qed.

Lemma Writer_Apply_spec D records w w' os err :
  remembers D w → NoDup (or_Name <$> records) → Writer_Apply sha256 records w = (w', os, err) →
  remembers (D ∪ failed_names os) w' ∧ Forall2 (told D w') records os.
Proof.
  intros Hm Hnd. unfold Writer_Apply.
  assert (∀ w', Forall2 (told D w') records (unavailable_outcomes records)) as Hun.
  { intros v. unfold unavailable_outcomes. clear Hm Hnd. induction records as [|r rs IH]; [constructor|].
    rewrite fmap_cons. constructor; [|done]. by destruct (classify r). }
  destruct (forallb _ _); [intros [= <- <- <-]; split; [by eapply remembers_mono; [|done]; set_solver|]; by apply Hun|].
  pose proof (prepareProfiles_keeps (profile_order records) (w_gw w)) as Hp.
  destruct (prepareProfiles _ _) as [g [failures|e]]; cbn [fst] in Hp.
  - intros E. destruct (push_records_spec failures records _ _ _ _ _ (memory_keep D w g Hm Hp) Hnd E) as (? & _ & ?). done.
  - intros [= <- <- <-]. split; [|by apply Hun]. apply (remembers_mono D); [set_solver|]. by apply memory_keep.
Qed.

(** What is reported as pushed is on the gateway: after the writer has run,
    every record whose outcome is Pushed is there under its name with its provider
    type and, unless its name was in doubt, with values of the fingerprint of the
    secret's, whatever calls failed or were retried and whether or not the failed
    ones took effect; there is one outcome per record; and the names in doubt
    afterwards are those from before and those whose push failed. *)
Theorem pushed_is_held D records w w' os err :
  remembers D w → NoDup (or_Name <$> records) → Writer_Apply sha256 records w = (w', os, err) →
  remembers (D ∪ failed_names os) w' ∧ Forall2 (told D w') records os.
Proof. apply Writer_Apply_spec. Qed.

(** When different bytes have different hashes, values of the same fingerprint are the
    same values, as long as neither has a zero byte. *)
Theorem same_fingerprint_same_values vs vs' :
  Inj (=) (=) sha256 → clean vs → clean vs' → fingerprint sha256 vs = fingerprint sha256 vs' → vs = vs'.
Proof. intros Hinj Hc Hc' E%Hinj. by apply preimage_inj. Qed.

End Held.

(** ** Resolving *)

Definition resolve_step (get : string → string → k8s_get Secret) (ns : string)
    (st : ResolvedSecrets * gmap string reason) (ref : string * string) : ResolvedSecrets * gmap string reason :=
  match resolveOne get ns (snd ref) with
  | Err r => (fst st, <[fst ref := r]> (snd st))
  | Ok values => (<[fst ref := values]> (fst st), snd st)
  end.

Lemma resolveOne_ok get ns name values :
  resolveOne get ns name = Ok values →
  ∃ s, get ns name = KFound s ∧ se_Labels s !! CredentialLabel = Some CredentialLabelValue ∧
       values = se_Data s ∧ values ≠ ∅.
Proof.
  unfold resolveOne. destruct (String.eqb name ""); [done|]. destruct (get ns name) as [s| |]; [|done|done].
  case_bool_decide as Hl; [|done]. cbn [negb]. case_bool_decide as Hd; [done|]. intros [= <-]. eauto.
Qed.

Lemma resolve_values get ns cred values refs : ∀ st,
  fst (foldl (resolve_step get ns) st refs) !! cred = Some values →
  fst st !! cred = Some values ∨ ∃ name, (cred, name) ∈ refs ∧ resolveOne get ns name = Ok values.
Proof.
  induction refs as [|[c n] refs IH]; intros st Hs; [by left|]. cbn [foldl] in Hs.
  apply IH in Hs as [Hs|(name & Hin & Hr)]; [|right; exists name; by split; [right|]].
  unfold resolve_step in Hs. cbn [fst snd] in Hs. destruct (resolveOne get ns n) as [vs|r] eqn:E; [|by left].
  cbn [fst] in Hs. destruct (decide (c = cred)) as [->|Hne].
  - rewrite lookup_insert_eq in Hs. injection Hs as <-. right. exists n. split; [left|done].
  - rewrite lookup_insert_ne in Hs by done. by left.
Qed.

(** The operator reads no other secret: a credential's values come from the
    labelled secret it names, in the namespace of the resource, and are not empty. *)
Theorem resolved_from_labelled_secret get ns refs cred values :
  fst (Resolve get ns refs) !! cred = Some values →
  ∃ name s, (cred, name) ∈ refs ∧ get ns name = KFound s ∧
    se_Labels s !! CredentialLabel = Some CredentialLabelValue ∧ values = se_Data s ∧ values ≠ ∅.
Proof.
  intros [Hs|(name & Hin & (s & ? & ? & ? & ?)%resolveOne_ok)]%(resolve_values get ns cred values refs (∅, ∅)); [done|].
  eauto 10.
Qed.

(** Every reference is either resolved or failed. *)
Lemma resolve_total get ns refs : ∀ st cred name,
  (cred, name) ∈ refs →
  is_Some (fst (foldl (resolve_step get ns) st refs) !! cred) ∨ is_Some (snd (foldl (resolve_step get ns) st refs) !! cred).
Proof.
  assert (∀ refs st cred, is_Some (fst st !! cred) ∨ is_Some (snd st !! cred) →
    is_Some (fst (foldl (resolve_step get ns) st refs) !! cred) ∨
    is_Some (snd (foldl (resolve_step get ns) st refs) !! cred)) as Hkeep.
  { clear. induction refs as [|[c n] refs IH]; intros st cred Hs; [done|]. cbn [foldl]. apply IH.
    unfold resolve_step. cbn [fst snd]. destruct (resolveOne get ns n); cbn [fst snd];
      destruct (decide (c = cred)) as [->|Hne]; rewrite ?lookup_insert_eq, ?lookup_insert_ne by done; eauto. }
  induction refs as [|[c n] refs IH]; intros st cred name Hin; [by apply elem_of_nil in Hin|]. cbn [foldl].
  apply elem_of_cons in Hin as [[= -> ->]|Hin]; [|by eapply IH]. apply Hkeep. unfold resolve_step. cbn [fst snd].
  destruct (resolveOne get ns n); cbn [fst snd]; rewrite ?lookup_insert_eq; eauto.
Qed.

(** ** A gateway in memory *)

(** Its providers and profiles, and the failures of the calls to come: [None] is
    a call that works. *)
Record MemGW : Type := mkMemGW {
  mg_providers : gmap string (string * gmap string string);
  mg_profiles : gset string;
  mg_faults : list (option gerr)
}.

Definition mg_pop (g : MemGW) : MemGW := mkMemGW (mg_providers g) (mg_profiles g) (tail (mg_faults g)).

Definition mg_fault (g : MemGW) : option gerr := match mg_faults g with Some e :: _ => Some e | _ => None end.

Definition mg_write (applies : gerr → bool) (n ty : string) (vs : gmap string string) (g : MemGW) :
    MemGW * res gerr unit :=
  let written := mkMemGW (<[n := (ty, vs)]> (mg_providers g)) (mg_profiles g) (tail (mg_faults g)) in
  match mg_fault g with
  | Some e => (if applies e then written else mg_pop g, Err e)
  | None => (written, Ok ())
  end.

Definition mg_get (n : string) (g : MemGW) : MemGW * res gerr string :=
  (mg_pop g, match mg_fault g with
             | Some e => Err e
             | None => match mg_providers g !! n with
                       | Some (ty, _) => Ok ty
                       | None => Err (mkGerr GNotFound false)
                       end
             end).

Definition mg_profile_get (id : string) (g : MemGW) : MemGW * res gerr unit :=
  (mg_pop g, match mg_fault g with
             | Some e => Err e
             | None => if decide (id ∈ mg_profiles g) then Ok () else Err (mkGerr GNotFound false)
             end).

Definition mg_import (id : string) (g : MemGW) : MemGW * res gerr unit :=
  match mg_fault g with
  | Some e => (mg_pop g, Err e)
  | None => (mkMemGW (mg_providers g) ({[id]} ∪ mg_profiles g) (tail (mg_faults g)), Ok ())
  end.

Lemma mg_write_frame applies n ty vs g m :
  m ≠ n → mg_providers (fst (mg_write applies n ty vs g)) !! m = mg_providers g !! m.
Proof.
  intros Hm. unfold mg_write. destruct (mg_fault g) as [e|]; [destruct (applies e)|]; cbn; by rewrite ?lookup_insert_ne.
Qed.

(** [applies] says which failed writes took effect all the same. *)
Definition mem_gateway (applies : gerr → bool) : ProviderGateway.
Proof.
  refine {| GW := MemGW; providers := mg_providers; GetProviderProfile := mg_profile_get;
            LintProviderProfiles ids g := (mg_pop g, match mg_fault g with Some e => Err e | None => Ok [] end);
            ImportProviderProfile := mg_import; GetProvider := mg_get;
            CreateProvider := mg_write applies; UpdateProvider := mg_write applies |}.
  - reflexivity.
  - reflexivity.
  - intros id g. unfold mg_import. by destruct (mg_fault g).
  - reflexivity.
  - intros n g ty. unfold mg_get. cbn [snd]. destruct (mg_fault g); [discriminate|].
    destruct (mg_providers g !! n) as [[ty' vs]|]; [|discriminate]. intros [= ->]. eauto.
  - intros n ty vs g. unfold mg_write. by destruct (mg_fault g).
  - intros n ty vs g. unfold mg_write. by destruct (mg_fault g).
  - exact (mg_write_frame applies).
  - exact (mg_write_frame applies).
Defined.

Definition MemGateway : ProviderGateway := mem_gateway (λ _, false).

Definition gh_record (token : string) : OpenShellRecord :=
  mkRecord "gh" "kape-ns-a-gh" "git-https" ["github.com:443"%string] {[ "token"%string := token ]}.

Lemma pushed_is_held_witness :
  let w := @mkW MemGateway (mkMemGW ∅ ∅ [Some (mkGerr GUnavailable false)]) ∅ in
  ∃ w' os err, @Writer_Apply MemGateway (λ s, s) [gh_record "t"] w = (w', os, err) ∧
    ∃ vs, providers (ProviderGateway := MemGateway) (w_gw w') !! "kape-ns-a-gh"%string
      = Some ("git-https"%string, vs).
Proof.
  intros w. destruct (@Writer_Apply MemGateway (λ s, s) [gh_record "t"] w) as [[w' os] err] eqn:E.
  exists w', os, err. split; [reflexivity|].
  destruct (@pushed_is_held MemGateway (λ s, s) ∅ [gh_record "t"] w w' os err) as [_ Hf].
  - intros n fp _ Hn. cbn in Hn. rewrite lookup_empty in Hn. discriminate Hn.
  - apply NoDup_singleton.
  - exact E.
  - assert (snd (fst (@Writer_Apply MemGateway (λ s, s) [gh_record "t"] w)) = [mkOutcome "gh" "kape-ns-a-gh" None]) as Ho
      by (vm_compute; reflexivity).
    rewrite E in Ho. cbn [fst snd] in Ho. subst os.
    inversion Hf as [|? ? ? ? (_ & _ & Hp) _]; subst. destruct (Hp eq_refl) as (vs & Hs & _). exists vs. exact Hs.
Defined.

(** A write whose reply is lost goes stale: when an update takes effect but
    answers with an error and the secret is then set back, the writer reports the
    record as pushed while the gateway keeps the other value. *)
Theorem lost_update_goes_stale :
  let gw := mem_gateway (λ _, true) in
  let lost := Some (mkGerr GDeadlineExceeded false) in
  let w0 := @mkW gw (mkMemGW ∅ {["git-https"%string]} []) ∅ in
  let '(w1, _, _) := @Writer_Apply gw (λ s, s) [gh_record "old"] w0 in
  let faulty := @mkW gw (mkMemGW (mg_providers (w_gw w1)) {["git-https"%string]} [None; None; lost]) (w_pushed w1) in
  let '(w2, o2, _) := @Writer_Apply gw (λ s, s) [gh_record "new"] faulty in
  let '(w3, o3, _) := @Writer_Apply gw (λ s, s) [gh_record "old"] w2 in
  (is_pushed <$> o2) = [false] ∧ (is_pushed <$> o3) = [true] ∧
  mg_providers (w_gw w3) !! "kape-ns-a-gh"%string = Some ("git-https"%string, {[ "token"%string := "new"%string ]}).
Proof. vm_compute. repeat split. Qed.

Definition one_secret (ns name : string) : k8s_get Secret :=
  if String.eqb ns "ns" && String.eqb name "s"
  then KFound (mkSecret {[ CredentialLabel := CredentialLabelValue ]} {[ "token"%string := "t"%string ]})
  else KNotFound.

Lemma resolved_from_labelled_secret_witness :
  ∃ name s, ("gh"%string, name) ∈ [("gh"%string, "s"%string)] ∧ one_secret "ns" name = KFound s.
Proof.
  destruct (resolved_from_labelled_secret one_secret "ns" [("gh"%string, "s"%string)] "gh" {[ "token"%string := "t"%string ]})
    as (name & s & ? & ? & _); [vm_compute; reflexivity|]. eauto.
Defined.
