(* ===== verification/OperatorApply.v ===== *)
(** * The operator: converging the objects of a resource
      (src/operator/infra/k8s/agentserver.go, src/operator/infra/k8s/daemon_token.go)

    What the apply layer writes: an object is created when it is absent, left
    alone when it is not owned, and otherwise patched with the rendered fields
    while everything the renderer leaves unset keeps its live value.  Go values
    under reflection are trees.  The API server's answers are arguments, and the
    writes are returned. *)

From Stdlib Require Import Ascii String ZArith.
From S2P Require Import Prelude Json GoTime GoStrings Bolt EventStore EventHub Fsm Monitor Config.
From S2P Require Import Agent Manager Policy ServerConfig OperatorRender OperatorWriter.
From stdpp Require Import base list strings numbers gmap pretty.
Local Open Scope Z_scope.

(** ** Values under reflection *)

(** A scalar is its text, empty for the zero value; [TEnv] is an [EnvVar], which
    inheritance leaves out, and which only occurs as an element of a slice, where
    it is never asked whether it is zero; pointers, slices and maps may be nil. *)
Inductive gotree : Type :=
| TLeaf (v : string)
| TEnv (v : EnvVar)
| TStruct (fields : list gotree)
| TPtr (p : option gotree)
| TSlice (l : option (list gotree))
| TMap (m : option (list (string * gotree))).

#[global] Instance envval_eq_dec : EqDecision envval.
Proof. solve_decision. Defined.

#[global] Instance envsource_eq_dec : EqDecision envsource.
Proof. solve_decision. Defined.

#[global] Instance EnvVar_eq_dec : EqDecision EnvVar.
Proof. solve_decision. Defined.

#[global] Instance gotree_eq_dec : EqDecision gotree.
Proof.
  refine (fix go (a b : gotree) : Decision (a = b) :=
    let _ : EqDecision gotree := @go in
    match a, b with
    | TLeaf x, TLeaf y => cast_if (decide (x = y))
    | TEnv x, TEnv y => cast_if (decide (x = y))
    | TStruct x, TStruct y => cast_if (decide (x = y))
    | TPtr x, TPtr y => cast_if (decide (x = y))
    | TSlice x, TSlice y => cast_if (decide (x = y))
    | TMap x, TMap y => cast_if (decide (x = y))
    | _, _ => right _
    end); congruence.
Defined.

Fixpoint is_zero (t : gotree) : bool :=
  match t with
  | TLeaf v => String.eqb v ""
  | TStruct fs => forallb is_zero fs
  | TPtr None | TSlice None | TMap None => true
  | _ => false
  end.

Fixpoint assoc_tree (k : string) (m : list (string * gotree)) : option gotree :=
  match m with
  | [] => None
  | (k', v) :: r => if String.eqb k' k then Some v else assoc_tree k r
  end.

(** [inheritValue]: a zero field of a struct takes the live value, anything else
    is inherited into; slices of different length are left alone. *)
Fixpoint inheritValue (d l : gotree) {struct d} : gotree :=
  match d, l with
  | TStruct ds, TStruct ls =>
      TStruct ((fix fields (ds ls : list gotree) : list gotree :=
        match ds, ls with
        | df :: ds, lf :: ls => (if is_zero df then lf else inheritValue df lf) :: fields ds ls
        | _, _ => ds
        end) ds ls)
  | TPtr (Some a), TPtr (Some b) => TPtr (Some (inheritValue a b))
  | TSlice (Some ds), TSlice (Some ls) =>
      if (length ds =? length ls)%nat
      then TSlice (Some ((fix elems (ds ls : list gotree) : list gotree :=
             match ds, ls with
             | a :: ds, b :: ls => inheritValue a b :: elems ds ls
             | _, _ => ds
             end) ds ls))
      else d
  | TMap (Some dm), TMap (Some lm) =>
      TMap (Some ((λ kv, if is_zero (snd kv) then (fst kv, default (snd kv) (assoc_tree (fst kv) lm)) else kv) <$> dm))
  | _, _ => d
  end.

(** ** Objects *)

Inductive kind : Type := KServiceAccount | KRoleBinding | KDeployment | KService | KIngress.

#[global] Instance kind_eq_dec : EqDecision kind.
Proof. solve_decision. Defined.

Record Obj : Type := mkObj {
  ob_Kind : kind; ob_Namespace : string; ob_Name : string;
  ob_Labels : gmap string string; ob_Annotations : gmap string string;
  ob_Owners : list OwnerReference; ob_Spec : gotree
}.

#[global] Instance OwnerReference_eq_dec : EqDecision OwnerReference.
Proof. solve_decision. Defined.

#[global] Instance Obj_eq_dec : EqDecision Obj.
Proof. solve_decision. Defined.

(** A missing label reads as the empty string. *)
Definition label (o : Obj) (k : string) : string := default EmptyString (ob_Labels o !! k).

Definition ownedBy (o : Obj) (serverName : string) : bool :=
  String.eqb (label o AgentServerLabel) serverName && String.eqb (label o ManagedByLabel) Op_ManagedByValue.

Definition mergeMaps (base overlay : gmap string string) : gmap string string :=
  if decide (overlay = ∅) then base else overlay ∪ base.

(** ** The rendered objects

    The trees list the fields the renderer sets, then one leaf for the fields it
    leaves unset. *)

Definition unset : gotree := TLeaf EmptyString.

Definition tree_of_list (l : list gotree) : gotree := match l with [] => TSlice None | _ => TSlice (Some l) end.
Definition tree_of_map (m : gmap string string) : gotree := TMap (Some ((λ kv, (fst kv, TLeaf (snd kv))) <$> map_to_list m)).

Definition rendered (s : KapeAgentServer) (k : kind) (spec : gotree) : Obj :=
  mkObj k (ks_Namespace s) (ControllerName (ks_Name s)) (ObjectLabels (ks_Name s)) ∅ [OwnerRef s] spec.

Definition buildControllerServiceAccount (s : KapeAgentServer) : Obj := rendered s KServiceAccount (TStruct []).

Definition SandboxReaderClusterRole : string := "kape-controller-sandbox-reader".

Definition buildControllerRoleBinding (s : KapeAgentServer) : Obj :=
  rendered s KRoleBinding
    (TStruct [ TStruct [TLeaf "rbac.authorization.k8s.io"; TLeaf "ClusterRole"; TLeaf SandboxReaderClusterRole];
               TSlice (Some [TStruct [TLeaf "ServiceAccount"; TLeaf (ControllerName (ks_Name s)); TLeaf (ks_Namespace s)]]) ]).

(** [path.Clean] keeps the elements of a path in reverse; [..] drops the last one. *)
Fixpoint clean_elems (rooted : bool) (out : list string) (elems : list string) : list string :=
  match elems with
  | [] => rev out
  | e :: rest =>
      if String.eqb e "" || String.eqb e "." then clean_elems rooted out rest
      else if String.eqb e ".." then
        match out with
        | o :: out' => if String.eqb o ".." then clean_elems rooted (e :: out) rest else clean_elems rooted out' rest
        | [] => clean_elems rooted (if rooted then [] else [e]) rest
        end
      else clean_elems rooted (e :: out) rest
  end.

Fixpoint split_slash (cur : string) (s : string) : list string :=
  match s with
  | EmptyString => [cur]
  | String c r => if Ascii.eqb c "/" then cur :: split_slash EmptyString r
                  else split_slash (cur +:+ String c EmptyString) r
  end.

Definition path_Clean (p : string) : string :=
  let rooted := HasPrefix p "/" in
  let body := String.concat "/" (clean_elems rooted [] (split_slash EmptyString p)) in
  if rooted then "/" +:+ body else if String.eqb body "" then "."%string else body.

(** What is up to the last slash, cleaned. *)
Definition path_Dir (p : string) : string :=
  path_Clean (String.concat "/" (removelast (split_slash EmptyString p) ++ [EmptyString])).

Definition eventStoreDir (eventStore : string) : string :=
  if String.eqb eventStore "" then EmptyString
  else let dir := path_Dir eventStore in
       if String.eqb dir "." || String.eqb dir "/" then EmptyString else dir.

(** Name and source of each volume; name, path and read-only flag of each mount. *)
Definition controllerVolumes (w : ControllerWiring) : list gotree * list gotree :=
  let creds := if String.eqb (cw_CredsSecret w) "" then ([], []) else
    ([TStruct [TLeaf "creds"; TStruct [TPtr (Some (TStruct [TLeaf (cw_CredsSecret w); unset])); TPtr None; unset]]],
     [TStruct [TLeaf "creds"; TLeaf (cw_CredsDir w); TLeaf "true"; unset]]) in
  let dir := eventStoreDir (cw_EventStore w) in
  let store := if String.eqb dir "" then ([], []) else
    ([TStruct [TLeaf "event-store"; TStruct [TPtr None; TPtr (Some (TStruct [unset])); unset]]],
     [TStruct [TLeaf "event-store"; TLeaf dir; unset; unset]]) in
  (fst creds ++ fst store, snd creds ++ snd store).

(** What the wiring and the resource carry that only the deployment shows: the
    [ExtraEnvFrom] sources and the override of the controller's resources. *)
Record ControllerExtra : Type := mkExtra { ce_EnvFrom : list gotree; ce_Resources : option gotree }.

Definition controllerResources (override : option gotree) : gotree :=
  match override with
  | Some r => r
  | None => TStruct [ TMap (Some [("cpu"%string, TLeaf "500m"); ("memory"%string, TLeaf "512Mi")]);
                      TMap (Some [("cpu"%string, TLeaf "100m"); ("memory"%string, TLeaf "128Mi")]); unset ]
  end.

Definition probe : gotree :=
  TPtr (Some (TStruct [TStruct [TPtr (Some (TStruct [TLeaf "http"; unset])); unset]; TLeaf "3"; TLeaf "10"; unset])).

Definition buildControllerDeployment (s : KapeAgentServer) (contractEnv : list EnvVar) (w : ControllerWiring)
    (extra : ControllerExtra) : Obj :=
  let podLabels := tree_of_map (SelectorLabels (ks_Name s)) in
  let container := TStruct
    [ TLeaf "controller"; TLeaf (ks_ControllerImage s); TLeaf "IfNotPresent";
      TSlice (Some [TStruct [TLeaf "http"; TLeaf "8081"; TLeaf "TCP"; unset]]);
      TSlice (Some (TEnv <$> controllerEnv contractEnv w)); tree_of_list (ce_EnvFrom extra);
      controllerResources (ce_Resources extra); tree_of_list (snd (controllerVolumes w)); probe; probe; unset ] in
  rendered s KDeployment
    (TStruct [ TPtr (Some (TLeaf "1")); TPtr (Some (TStruct [podLabels; unset]));
               TStruct [ TStruct [podLabels; unset];
                         TStruct [ TLeaf (ControllerName (ks_Name s)); TSlice (Some [container]);
                                   tree_of_list (fst (controllerVolumes w)); unset ] ];
               unset ]).

(** The service and the ingress of the desired state. *)
Definition service_object (svc : Service) : Obj :=
  mkObj KService (sv_Namespace svc) (sv_Name svc) (sv_Labels svc) ∅ [sv_Owner svc]
    (TStruct [ TLeaf "ClusterIP"; tree_of_map (sv_Selector svc);
               TSlice (Some [TStruct [TLeaf "http"; TLeaf (pretty (sv_Port svc)); TLeaf (sv_TargetPort svc); TLeaf "TCP"; unset]]);
               unset ]).

Definition ingress_object (ing : Ingress) : Obj :=
  mkObj KIngress (ig_Namespace ing) (ig_Name ing) (ig_Labels ing) ∅ [ig_Owner ing]
    (TStruct [ TPtr None;
               TStruct [ TLeaf (ig_Host ing); TLeaf "/"; TLeaf "Prefix"; TLeaf (ig_BackendName ing); TLeaf (pretty (ig_BackendPort ing));
                         match ig_TLS ing with
                         | None => TSlice None
                         | Some (host, secret) => TSlice (Some [TStruct [TSlice (Some [TLeaf host]); TLeaf secret]])
                         end ] ]).

(** The fields the operator owns.  The spec of a service is its type, selector and
    ports, then what the API server owns; that of an ingress its class, then the
    rest. *)
Definition applySpec (k : kind) (desired live : gotree) : gotree :=
  match k, desired, live with
  | KDeployment, _, _ => inheritValue desired live
  | KService, TStruct [ty; sel; ports; _], TStruct [_; _; _; rest] => TStruct [ty; sel; ports; rest]
  | KIngress, TStruct [cls; rest], TStruct [cls'; _] => TStruct [if is_zero cls then cls' else cls; rest]
  | KServiceAccount, _, _ => live
  | KRoleBinding, _, _ => desired
  | _, _, _ => desired
  end.

Definition patched (existing desired : Obj) : Obj :=
  mkObj (ob_Kind existing) (ob_Namespace existing) (ob_Name existing)
    (mergeMaps (ob_Labels existing) (ob_Labels desired))
    (mergeMaps (ob_Annotations existing) (ob_Annotations desired))
    (ob_Owners desired) (applySpec (ob_Kind desired) (ob_Spec desired) (ob_Spec existing)).

Inductive apply_err : Type := ErrNotOwned | EApi (msg : string).

Inductive api_write : Type :=
| WCreate (o : Obj)
| WPatch (before after : Obj)
| WDelete (o : Obj).

Section Apply.

(** The API server: what a get answers, and whether a write fails. *)
Context (get : kind → string → string → k8s_get Obj) (write : api_write → option string).

Definition do_write (w : api_write) : list api_write * res apply_err unit :=
  ([w], match write w with Some msg => Err (EApi msg) | None => Ok () end).

Definition ensure (serverName : string) (desired : Obj) : list api_write * res apply_err unit :=
  match get (ob_Kind desired) (ob_Namespace desired) (ob_Name desired) with
  | KNotFound => do_write (WCreate desired)
  | KError msg => ([], Err (EApi msg))
  | KFound existing =>
      if negb (ownedBy existing serverName) then ([], Err ErrNotOwned)
      else let p := patched existing desired in
           (* an empty merge patch *)
           if decide (p = existing) then ([], Ok ()) else do_write (WPatch existing p)
  end.

(** A delete of an object that is gone is no error; [write] answers for it. *)
Definition prune (serverName : string) (k : kind) (ns name : string) : list api_write * res apply_err unit :=
  match get k ns name with
  | KNotFound => ([], Ok ())
  | KError msg => ([], Err (EApi msg))
  | KFound existing => if ownedBy existing serverName then do_write (WDelete existing) else ([], Ok ())
  end.

Fixpoint ensure_all (serverName : string) (objs : list Obj) : list api_write * res apply_err unit :=
  match objs with
  | [] => ([], Ok ())
  | o :: rest =>
      match ensure serverName o with
      | (ws, Err e) => (ws, Err e)
      | (ws, Ok _) => let '(ws', r) := ensure_all serverName rest in (ws ++ ws', r)
      end
  end.

Definition Adapter_Apply (s : KapeAgentServer) (desired : DesiredState) (wiring : ControllerWiring)
    (extra : ControllerExtra) : list api_write * res apply_err unit :=
  let owned := [ buildControllerServiceAccount s; buildControllerRoleBinding s;
                 buildControllerDeployment s (ds_DeploymentEnv desired) wiring extra;
                 service_object (ds_Service desired) ] ++
               match ds_Ingress desired with Some ing => [ingress_object ing] | None => [] end in
  match ensure_all (ks_Name s) owned with
  | (ws, Err e) => (ws, Err e)
  | (ws, Ok _) =>
      match ds_Ingress desired with
      | Some _ => (ws, Ok ())
      | None => let '(ws', r) := prune (ks_Name s) KIngress (ks_Namespace s) (ControllerName (ks_Name s)) in
                (ws ++ ws', r)
      end
  end.

End Apply.

(** The deployment is available when its status is current and a replica is. *)
Definition deployment_available (generation observed replicas : Z) : bool :=
  (generation <=? observed) && (0 <? replicas).

(** ** The daemon token *)

Definition DaemonTokenSecretName (serverName : string) : string := serverName +:+ "-daemon-token".

(** The writes of [Ensure]: a new secret, or one repaired. *)
Inductive token_write : Type :=
| TCreate (name token : string)
| TRepair (name token : string).

(** What the API server says to a write. *)
Inductive token_answer : Type := TAccepted | TAlreadyExists | TRefused (msg : string).

Definition Token_Ensure (get : string → k8s_get Secret) (random : option string)
    (answer : token_write → token_answer) (serverName : string) : list token_write * res string string :=
  let name := DaemonTokenSecretName serverName in
  match get name with
  | KFound existing =>
      if decide (is_Some (se_Data existing !! "token"%string)) then ([], Ok name)
      else match random with
           | None => ([], Err "generating daemon token"%string)
           | Some token =>
               let w := TRepair name token in
               match answer w with TAccepted => ([w], Ok name) | _ => ([w], Err "repairing"%string) end
           end
  | KError msg => ([], Err msg)
  | KNotFound =>
      match random with
      | None => ([], Err "generating daemon token"%string)
      | Some token =>
          let w := TCreate name token in
          match answer w with
          | TAccepted | TAlreadyExists => ([w], Ok name)
          | TRefused msg => ([w], Err msg)
          end
      end
  end.

(** ** Inheriting converges *)

Section gotree_ind.
Context (P : gotree → Prop).
Hypotheses (Hleaf : ∀ v, P (TLeaf v)) (Henv : ∀ v, P (TEnv v))
  (Hstruct : ∀ fs, Forall P fs → P (TStruct fs))
  (Hptr : ∀ p, match p with Some a => P a | None => True end → P (TPtr p))
  (Hslice : ∀ l, match l with Some l => Forall P l | None => True end → P (TSlice l))
  (Hmap : ∀ m, P (TMap m)).

Fixpoint gotree_nested_ind (t : gotree) : P t :=
  let all := fix all (l : list gotree) : Forall P l :=
    match l with
    | [] => @List.Forall_nil _ P
    | x :: r => @List.Forall_cons _ P x r (gotree_nested_ind x) (all r)
    end in
  match t with
  | TLeaf v => Hleaf v
  | TEnv v => Henv v
  | TStruct fs => Hstruct fs (all fs)
  | TPtr (Some a) => Hptr (Some a) (gotree_nested_ind a)
  | TPtr None => Hptr None I
  | TSlice (Some l) => Hslice (Some l) (all l)
  | TSlice None => Hslice None I
  | TMap m => Hmap m
  end.
End gotree_ind.

(** Inside a variable the API server fills in the version of a field reference and
    whether a reference to a file is optional. *)
Definition env_fills (d x : EnvVar) : Prop :=
  ev_Name x = ev_Name d ∧
  (ev_Source x = ev_Source d ∨
   match ev_Source d, ev_Source x with
   | FromField v p, FromField _ p' => v = ""%string ∧ p' = p
   | FromFile vol p k None, FromFile vol' p' k' _ => vol' = vol ∧ p' = p ∧ k' = k
   | _, _ => False
   end).

(** A variable that leaves nothing to fill in. *)
Definition env_complete (e : EnvVar) : Prop :=
  match ev_Source e with FromField v _ => v ≠ ""%string | FromFile _ _ _ None => False | _ => True end.

Lemma env_fills_complete d x : env_complete d → env_fills d x → x = d.
Proof.
  destruct d as [n src], x as [n' src']. unfold env_complete, env_fills. cbn [ev_Name ev_Source].
  intros Hc [-> [->|H]]; [done|]. exfalso. destruct src as [| | | | |? ? ? []]; try done; by destruct src', H.
Qed.

Lemma env_fills_trans d y x : env_fills d y → env_fills y x → env_fills d x.
Proof.
  destruct d as [n src], y as [n' src'], x as [n'' src'']. unfold env_fills. cbn [ev_Name ev_Source].
  intros [-> H1] [-> H2]. split; [done|]. destruct H1 as [->|H1]; [done|]. destruct H2 as [->|H2]; [by right|]. right.
  destruct src as [| | | | |? ? ? []]; try done; destruct src' as [| | | | |? ? ? []]; try done;
    destruct src''; try done; naive_solver.
Qed.

(** [fills d x]: [x] is [d] with unset fields filled in, which is all the API
    server's defaulting does. *)
Fixpoint fills (d x : gotree) {struct d} : Prop :=
  match d, x with
  | TLeaf a, TLeaf b => a = b
  | TEnv a, TEnv b => env_fills a b
  | TStruct ds, TStruct xs =>
      (fix go (ds xs : list gotree) : Prop :=
        match ds, xs with
        | [], [] => True
        | d :: ds, x :: xs => (is_zero d = true ∨ fills d x) ∧ go ds xs
        | _, _ => False
        end) ds xs
  | TPtr None, TPtr None => True
  | TPtr (Some a), TPtr (Some b) => fills a b
  | TSlice None, TSlice None => True
  | TSlice (Some ds), TSlice (Some xs) =>
      (fix go (ds xs : list gotree) : Prop :=
        match ds, xs with
        | [], [] => True
        | d :: ds, x :: xs => fills d x ∧ go ds xs
        | _, _ => False
        end) ds xs
  | TMap None, TMap None => True
  | TMap (Some dm), TMap (Some xm) =>
      NoDup dm.*1 ∧ Forall2 (λ a b, a.1 = b.1 ∧ (is_zero a.2 = true ∨ a.2 = b.2)) dm xm
  | _, _ => False
  end.

(** The pointwise forms of the nested recursions. *)
Lemma fills_struct ds xs :
  fills (TStruct ds) (TStruct xs) ↔ Forall2 (λ d x, is_zero d = true ∨ fills d x) ds xs.
Proof.
  revert xs. induction ds as [|d ds IH]; intros [|x xs]; simpl.
  - split; [constructor|done].
  - split; [done|inversion 1].
  - split; [done|inversion 1].
  - rewrite Forall2_cons. split; intros [? ?]; (split; [done|]); by apply (IH xs).
Qed.

Lemma fills_slice ds xs : fills (TSlice (Some ds)) (TSlice (Some xs)) ↔ Forall2 fills ds xs.
Proof.
  revert xs. induction ds as [|d ds IH]; intros [|x xs]; simpl.
  - split; [constructor|done].
  - split; [done|inversion 1].
  - split; [done|inversion 1].
  - rewrite Forall2_cons. split; intros [? ?]; (split; [done|]); by apply (IH xs).
Qed.

Lemma assoc_tree_in k v m : NoDup m.*1 → (k, v) ∈ m → assoc_tree k m = Some v.
Proof.
  induction m as [|[k' v'] m IH]; intros Hnd Hin; [by apply elem_of_nil in Hin|].
  rewrite fmap_cons in Hnd. apply NoDup_cons in Hnd as [Hn Hnd]. cbn [assoc_tree].
  apply elem_of_cons in Hin as [[= -> ->]|Hin]; [by rewrite String.eqb_refl|].
  destruct (String.eqb_spec k' k) as [->|]; [|by apply IH].
  exfalso. apply Hn. apply list_elem_of_fmap. by exists (k, v).
Qed.

(** Go maps have distinct keys, and every variable is complete. *)
Fixpoint tree_ok (t : gotree) : Prop :=
  match t with
  | TEnv e => env_complete e
  | TStruct fs => (fix all (l : list gotree) : Prop := match l with [] => True | x :: r => tree_ok x ∧ all r end) fs
  | TPtr (Some a) => tree_ok a
  | TSlice (Some l) => (fix all (l : list gotree) : Prop := match l with [] => True | x :: r => tree_ok x ∧ all r end) l
  | TMap (Some m) => NoDup m.*1
  | _ => True
  end.

Lemma tree_ok_struct fs : tree_ok (TStruct fs) ↔ Forall tree_ok fs.
Proof. induction fs as [|f fs IH]; [by split; [constructor|]|]. rewrite Forall_cons, <-IH. done. Qed.

Lemma tree_ok_slice l : tree_ok (TSlice (Some l)) ↔ Forall tree_ok l.
Proof. induction l as [|x l IH]; [by split; [constructor|]|]. rewrite Forall_cons, <-IH. done. Qed.

(** Nothing is inherited from a value that only fills in unset fields: it already
    is the result. *)
Lemma inherit_fixed d : ∀ x, tree_ok d → fills d x → inheritValue d x = x.
Proof.
  induction d as [v|v|fs IH|[a|] IH|[l|] IH|m] using gotree_nested_ind; intros x Hok Hx.
  - destruct x; simpl in *; naive_solver.
  - destruct x; try done. cbn [inheritValue]. f_equal. symmetry. by apply env_fills_complete.
  - destruct x as [| |xs| | |]; try done. apply fills_struct in Hx. apply tree_ok_struct in Hok. cbn [inheritValue]. f_equal.
    induction Hx as [|d x ds xs Hd _ IHx]; [done|]. inversion IH as [|? ? IH1 IH2]; subst. inversion Hok; subst.
    rewrite IHx by done. f_equal. destruct Hd as [->|Hd]; [done|]. destruct (is_zero d); [done|]. by apply IH1.
  - destruct x as [| | |[b|]| |]; try done. cbn [inheritValue]. do 2 f_equal. by apply IH.
  - destruct x as [| | |[b|]| |]; done.
  - destruct x as [| | | |[xs|]|]; try done. apply fills_slice in Hx. apply tree_ok_slice in Hok. cbn [inheritValue].
    rewrite (Forall2_length _ _ _ Hx), Nat.eqb_refl. do 2 f_equal.
    induction Hx as [|d x ds xs Hd _ IHx]; [done|]. inversion IH as [|? ? IH1 IH2]; subst. inversion Hok; subst.
    rewrite IHx, IH1; done.
  - destruct x as [| | | |[xs|]|]; done.
  - destruct x as [| | | | |[xm|]]; destruct m as [dm|]; try done. cbn [inheritValue]. do 2 f_equal.
    clear Hok. destruct Hx as [Hnd Hf].
    assert (NoDup xm.*1) as Hnx.
    { assert (xm.*1 = dm.*1) as ->; [|done]. clear Hnd. induction Hf as [|a b dm xm [E _] _ IHf]; [done|].
      rewrite !fmap_cons. by rewrite E, IHf. }
    assert (∀ k v, (k, v) ∈ xm → assoc_tree k xm = Some v) as Hl by (intros; by apply assoc_tree_in).
    clear Hnd Hnx. revert Hl. generalize xm at 2 3. intros full. 
    induction Hf as [|[k d] [k' x] dm xm [E Hd] _ IHf]; intros Hl; [done|]. cbn [fst snd] in *. subst k'.
    rewrite fmap_cons. rewrite IHf; [|intros; apply Hl; by right]. f_equal. cbn [fst snd].
    destruct (is_zero d) eqn:Ez; [by rewrite (Hl k x ltac:(left))|]. by destruct Hd as [| ->].
Qed.

Lemma fills_refl d : tree_ok d → fills d d.
Proof.
  induction d as [v|v|fs IH|[a|] IH|[l|] IH|[m|]] using gotree_nested_ind; intros Hd; try done.
  - split; [done|by left].
  - apply fills_struct. apply tree_ok_struct in Hd. induction IH as [|f fs Hf _ IHf]; [constructor|].
    apply Forall_cons in Hd as [? ?]. constructor; auto.
  - by apply IH.
  - apply fills_slice. apply tree_ok_slice in Hd. induction IH as [|f fs Hf _ IHf]; [constructor|].
    apply Forall_cons in Hd as [? ?]. constructor; auto.
  - split; [done|]. clear. induction m; constructor; auto.
Qed.

(** Inheriting only fills in unset fields. *)
Lemma inherit_fills d : ∀ l, tree_ok d → fills d (inheritValue d l).
Proof.
  induction d as [v|v|fs IH|[a|] IH|[ds|] IH|[dm|]] using gotree_nested_ind; intros l Hd; try done.
  - destruct l; (split; [done|by left]).
  - destruct l as [| |ls| | |]; try (by apply fills_refl). cbn [inheritValue]. apply fills_struct.
    apply tree_ok_struct in Hd. revert ls. induction IH as [|f fs Hf _ IHf]; intros ls; [constructor|].
    apply Forall_cons in Hd as [Hm Hms]. destruct ls as [|lf ls].
    + apply Forall_Forall2_diag. rewrite Forall_forall. intros x Hx. right. apply fills_refl.
      rewrite Forall_forall in Hms. apply elem_of_cons in Hx as [->|]; auto.
    + constructor; [|by apply IHf]. destruct (is_zero f) eqn:Ez; auto.
  - destruct l as [| | |[b|]| |]; try (by apply fills_refl). by apply IH.
  - destruct l as [| | | |[ls|]|]; try (by apply fills_refl). cbn [inheritValue].
    destruct (Nat.eqb_spec (length ds) (length ls)) as [El|]; [|by apply fills_refl].
    apply fills_slice. apply tree_ok_slice in Hd. revert ls El.
    induction IH as [|f fs Hf _ IHf]; intros [|lf ls] El; simplify_eq/=; [constructor|].
    apply Forall_cons in Hd as [Hm Hms]. constructor; auto.
  - destruct l as [| | | | |[lm|]]; try (by apply fills_refl). cbn [inheritValue]. split; [done|]. clear.
    induction dm as [|[k d] dm IH]; [constructor|]. rewrite fmap_cons. constructor; [|done]. cbn [fst snd].
    destruct (is_zero d) eqn:Ez; auto.
Qed.

Lemma fills_zero d : ∀ y, fills d y → is_zero y = true → is_zero d = true.
Proof.
  induction d as [v|v|fs IH|[a|] IH|[ds|] IH|[dm|]] using gotree_nested_ind; intros y Hy Hz;
    destruct y as [| |ys|[b|]|[xs|]|[xm|]]; try done.
  - simpl in Hy. by subst.
  - apply fills_struct in Hy. cbn [is_zero] in *. induction Hy as [|f x fs xs Hf _ IHy]; [done|].
    inversion IH as [|? ? IH1 IH2]; subst. cbn [forallb] in *. apply andb_true_iff in Hz as [Hz1 Hz2].
    apply andb_true_iff. split; [|by apply IHy]. destruct Hf as [|Hf]; [done|]. by eapply IH1.
Qed.

Lemma fills_trans d : ∀ y x, fills d y → fills y x → fills d x.
Proof.
  induction d as [v|v|fs IH|[a|] IH|[ds|] IH|[dm|]] using gotree_nested_ind; intros y x Hdy Hyx;
    destruct y as [| |ys|[b|]|[bs|]|[bm|]], x as [| |xs|[c|]|[cs|]|[cm|]]; try done.
  - simpl in *. congruence.
  - by eapply env_fills_trans.
  - apply fills_struct in Hdy, Hyx. apply fills_struct. revert xs Hyx.
    induction Hdy as [|f y fs ys Hf _ IHy]; intros xs Hyx; inversion Hyx as [|? x ? xs' Hx Hxs]; subst; [constructor|].
    inversion IH as [|? ? IH1 IH2]; subst. constructor; [|by apply IHy].
    destruct Hf as [|Hf]; [by left|]. destruct Hx as [Hz|Hx]; [left; by eapply fills_zero|right; by eapply IH1].
  - by eapply IH.
  - apply fills_slice in Hdy, Hyx. apply fills_slice. revert cs Hyx.
    induction Hdy as [|f y fs ys Hf _ IHy]; intros xs Hyx; inversion Hyx as [|? x ? xs' Hx Hxs]; subst; [constructor|].
    inversion IH as [|? ? IH1 IH2]; subst. constructor; [by eapply IH1|by apply IHy].
  - destruct Hdy as [Hnd Hdy], Hyx as [_ Hyx]. split; [done|]. clear Hnd. revert cm Hyx.
    induction Hdy as [|[k d] [k' y] dm bm [E Hd] _ IHy]; intros cm Hyx;
      inversion Hyx as [|? [k2 x] ? cm' [E2 Hx] Hxs]; subst; [constructor|].
    constructor; [|by apply IHy]. cbn [fst snd] in *. subst. split; [done|].
    destruct Hd as [|<-]; [by left|]. destruct Hx as [|<-]; auto.
Qed.

(** What the API server keeps of an object it stores: the identity, the owners and
    every label and annotation, to which it may add; the spec with unset fields
    filled in, where a service keeps its type, selector and ports, and an ingress
    may be given a class. *)
Definition spec_settled (k : kind) (p x : gotree) : Prop :=
  match k with
  | KDeployment => fills p x
  | KService => match p, x with
                | TStruct [ty; sel; ports; _], TStruct [ty'; sel'; ports'; _] => ty' = ty ∧ sel' = sel ∧ ports' = ports
                | _, _ => False
                end
  | KIngress => match p, x with
                | TStruct [cls; rest], TStruct [cls'; rest'] => rest' = rest ∧ (is_zero cls = false → cls' = cls)
                | _, _ => False
                end
  | KServiceAccount => True
  | KRoleBinding => x = p
  end.

Record settled (p x : Obj) : Prop := {
  st_kind : ob_Kind x = ob_Kind p;
  st_labels : ob_Labels p ⊆ ob_Labels x;
  st_annotations : ob_Annotations p ⊆ ob_Annotations x;
  st_owners : ob_Owners x = ob_Owners p;
  st_spec : spec_settled (ob_Kind p) (ob_Spec p) (ob_Spec x)
}.

Lemma mergeMaps_keeps base overlay : overlay ⊆ base → mergeMaps base overlay = base.
Proof. intros H. unfold mergeMaps. case_decide; [done|]. by apply map_subseteq_union. Qed.

Lemma mergeMaps_overlay base overlay : overlay ⊆ mergeMaps base overlay.
Proof. unfold mergeMaps. case_decide; [subst; apply map_empty_subseteq|]. apply map_union_subseteq_l. Qed.

(** The shapes of the rendered specs. *)
Definition spec_shaped (k : kind) (d : gotree) : Prop :=
  match k with
  | KDeployment => tree_ok d
  | KService => match d with TStruct [_; _; _; _] => True | _ => False end
  | KIngress => match d with TStruct [_; _] => True | _ => False end
  | _ => True
  end.

(** What a stored object settles from: the rendered one, or the patched one. *)
Definition wrote (existing : k8s_get Obj) (desired : Obj) : Obj :=
  match existing with KFound e => patched e desired | _ => desired end.

Lemma applySpec_settled k d live x :
  spec_shaped k d → spec_settled k d x ∨ spec_settled k (applySpec k d live) x → applySpec k d x = x.
Proof.
  destruct k; cbn [spec_shaped spec_settled applySpec].
  - done.
  - by intros _ [->| ->].
  - intros Hm [H|H]; apply inherit_fixed; [done..|]. eapply fills_trans; [|exact H]. by apply inherit_fills.
  - destruct d as [| |[|ty [|sel [|ports [|r [|]]]]]| | |]; try done. intros _.
    destruct x as [| |[|? [|? [|? [|? [|]]]]]| | |];
      (intros [H|H]; [|destruct live as [| |[|? [|? [|? [|? [|]]]]]| | |]]); naive_solver.
  - destruct d as [| |[|cls [|rest [|]]]| | |]; try done. intros _.
    destruct x as [| |[|cls' [|rest' [|]]]| | |];
      (intros [H|H]; [|destruct live as [| |[|? [|? [|]]]| | |]]); try done;
      destruct H as [-> H]; destruct (is_zero cls) eqn:Ez; try done; rewrite H; done.
Qed.

Lemma patched_settled existing desired x :
  match existing with KFound e => ob_Kind e = ob_Kind desired | _ => True end →
  spec_shaped (ob_Kind desired) (ob_Spec desired) → settled (wrote existing desired) x → patched x desired = x.
Proof.
  intros Hk Hs H.
  assert (ob_Kind (wrote existing desired) = ob_Kind desired) as Ek by (by destruct existing).
  destruct H as [H1 H2 H3 H4 H5].
  assert (applySpec (ob_Kind desired) (ob_Spec desired) (ob_Spec x) = ob_Spec x) as E.
  { rewrite Ek in H5. destruct existing as [e| |]; cbn [wrote patched ob_Spec] in *.
    - eapply applySpec_settled; [done|]. right. exact H5.
    - eapply (applySpec_settled _ _ unset); [done|]. by left.
    - eapply (applySpec_settled _ _ unset); [done|]. by left. }
  assert (ob_Labels desired ⊆ ob_Labels x ∧ ob_Annotations desired ⊆ ob_Annotations x ∧ ob_Owners x = ob_Owners desired)
    as (E2 & E3 & E4).
  { destruct existing; cbn [wrote patched ob_Labels ob_Annotations ob_Owners] in *; [|done..].
    split_and!; [etrans; [apply mergeMaps_overlay|exact H2]|etrans; [apply mergeMaps_overlay|exact H3]|done]. }
  unfold patched. rewrite E, !mergeMaps_keeps, <-E4 by done. by destruct x.
Qed.

(** ** What a pass writes *)

Definition obj_key (o : Obj) : kind * string * string := (ob_Kind o, ob_Namespace o, ob_Name o).
Definition written (w : api_write) : Obj := match w with WCreate o => o | WPatch _ p => p | WDelete o => o end.

(** The objects one resource renders. *)
Definition owned_objects (s : KapeAgentServer) (desired : DesiredState) (w : ControllerWiring) (extra : ControllerExtra) :
    list Obj :=
  [ buildControllerServiceAccount s; buildControllerRoleBinding s;
    buildControllerDeployment s (ds_DeploymentEnv desired) w extra; service_object (ds_Service desired) ] ++
  match ds_Ingress desired with Some ing => [ingress_object ing] | None => [] end.

Section Passes.
Implicit Types (get : kind → string → string → k8s_get Obj) (write : api_write → option string).

(** A get answers with the object asked for. *)
Definition gets_right get : Prop := ∀ k ns n x, get k ns n = KFound x → obj_key x = (k, ns, n).

Lemma ensure_all_spec get write serverName objs ws r :
  ensure_all get write serverName objs = (ws, r) →
  Forall (λ w, ∃ o ws' r', o ∈ objs ∧ ensure get write serverName o = (ws', r') ∧ w ∈ ws') ws ∧
  (r = Ok () → Forall (λ o, ∃ ws', ensure get write serverName o = (ws', Ok ()) ∧ ws' ⊆ ws) objs).
Proof.
  revert ws r. induction objs as [|o objs IH]; cbn [ensure_all]; intros ws r H.
  { simplify_eq. split; constructor. }
  destruct (ensure get write serverName o) as [w1 [[]|e]] eqn:E1.
  - destruct (ensure_all get write serverName objs) as [w2 r2] eqn:E2. simplify_eq.
    destruct (IH _ _ eq_refl) as [Hw Ho]. split.
    + apply Forall_app. split; [rewrite Forall_forall; intros w Hin; exists o, w1, (Ok ()); split_and!; [left|done..]|].
      eapply Forall_impl; [exact Hw|]. intros w (o' & ws' & r' & ? & ? & ?). exists o', ws', r'. split_and!; [by right|done..].
    + intros ->. constructor; [exists w1; set_solver|].
      eapply Forall_impl; [by apply Ho|]. intros o' (ws' & ? & ?). exists ws'. set_solver.
  - simplify_eq. split; [|done]. rewrite Forall_forall. intros w Hin. exists o, ws, (Err e). split_and!; [left|done..].
Qed.

(** The write, if any, of one step. *)
Lemma ensure_write get write serverName o ws r w :
  ensure get write serverName o = (ws, r) → w ∈ ws →
  (get (ob_Kind o) (ob_Namespace o) (ob_Name o) = KNotFound ∧ w = WCreate o) ∨
  ∃ e, get (ob_Kind o) (ob_Namespace o) (ob_Name o) = KFound e ∧ ownedBy e serverName = true ∧
       w = WPatch e (patched e o) ∧ patched e o ≠ e.
Proof.
  unfold ensure, do_write. intros H Hw. destruct (get _ _ _) as [e| |] eqn:Eg; simplify_eq.
  - right. exists e. destruct (ownedBy e serverName); simplify_eq/=; [|by apply elem_of_nil in Hw].
    case_decide; simplify_eq/=; [by apply elem_of_nil in Hw|]. by apply list_elem_of_singleton in Hw as ->.
  - left. by apply list_elem_of_singleton in Hw as ->.
  - by apply elem_of_nil in Hw.
Qed.

Lemma prune_write get write serverName k ns n ws r w :
  prune get write serverName k ns n = (ws, r) → w ∈ ws →
  ∃ e, get k ns n = KFound e ∧ ownedBy e serverName = true ∧ w = WDelete e.
Proof.
  unfold prune, do_write. intros H Hw. destruct (get _ _ _) as [e| |] eqn:Eg; simplify_eq; try (by apply elem_of_nil in Hw).
  exists e. destruct (ownedBy e serverName); simplify_eq; [|by apply elem_of_nil in Hw].
  by apply list_elem_of_singleton in Hw as ->.
Qed.

Lemma Adapter_Apply_writes get write s desired wiring extra ws r :
  Adapter_Apply get write s desired wiring extra = (ws, r) →
  ∀ w, w ∈ ws →
    (∃ o ws' r', o ∈ owned_objects s desired wiring extra ∧
                 ensure get write (ks_Name s) o = (ws', r') ∧ w ∈ ws') ∨
    (ds_Ingress desired = None ∧
     ∃ ws' r', prune get write (ks_Name s) KIngress (ks_Namespace s) (ControllerName (ks_Name s)) = (ws', r') ∧ w ∈ ws').
Proof.
  unfold Adapter_Apply. fold (owned_objects s desired wiring extra).
  destruct (ensure_all _ _ _ _) as [w1 r1] eqn:E1. destruct (ensure_all_spec _ _ _ _ _ _ E1) as [Hw _].
  rewrite Forall_forall in Hw. intros H w Hin.
  destruct r1 as [[]|e]; [|simplify_eq; left; by apply Hw].
  destruct (ds_Ingress desired); [simplify_eq; left; by apply Hw|].
  destruct (prune _ _ _ _ _ _) as [w2 r2] eqn:E2. simplify_eq.
  apply elem_of_app in Hin as [Hin|Hin]; [left; by apply Hw|right]. split; [done|]. by exists w2, r.
Qed.

Lemma ObjectLabels_owned o serverName : ObjectLabels serverName ⊆ ob_Labels o → ownedBy o serverName = true.
Proof.
  intros H. unfold ownedBy, label.
  rewrite (lookup_weaken (ObjectLabels serverName) _ AgentServerLabel serverName); [|by simplify_map_eq|done].
  rewrite (lookup_weaken (ObjectLabels serverName) _ ManagedByLabel Op_ManagedByValue); [|by simplify_map_eq|done].
  cbn. by rewrite String.eqb_refl.
Qed.

Lemma rendered_annotations s resolved token wiring extra o :
  o ∈ owned_objects s (RenderWithDaemonToken s resolved token) wiring extra →
  ob_Annotations o = ∅ ∧ ob_Labels o = ObjectLabels (ks_Name s) ∧ ob_Owners o = [OwnerRef s] ∧
  ob_Namespace o = ks_Namespace s ∧ ob_Name o = ControllerName (ks_Name s).
Proof.
  unfold owned_objects, RenderWithDaemonToken. cbn [ds_Ingress ds_Service ds_DeploymentEnv].
  destruct (ks_Ingress s) as [ing|]; cbn [fmap option_fmap option_map]; intros H; set_unfold in H; naive_solver.
Qed.

(** C18. A pass touches nothing the operator does not own: it creates an object only
    under a name that was free, patches or deletes an object only when that carries
    this resource's ownership labels, a patch keeps every annotation and every label
    that is not rendered, and only the ingress is ever deleted, when the resource
    declares none. *)
Theorem apply_touches_only_owned get write s resolved token wiring extra ws r w :
  gets_right get →
  Adapter_Apply get write s (RenderWithDaemonToken s resolved token) wiring extra = (ws, r) → w ∈ ws →
  match w with
  | WCreate o => get (ob_Kind o) (ob_Namespace o) (ob_Name o) = KNotFound ∧ ownedBy o (ks_Name s) = true
  | WPatch e p =>
      get (ob_Kind p) (ob_Namespace p) (ob_Name p) = KFound e ∧ ownedBy e (ks_Name s) = true ∧ obj_key p = obj_key e ∧
      ob_Annotations p = ob_Annotations e ∧
      ∀ k, ObjectLabels (ks_Name s) !! k = None → ob_Labels p !! k = ob_Labels e !! k
  | WDelete e => ks_Ingress s = None ∧ ob_Kind e = KIngress ∧ ownedBy e (ks_Name s) = true
  end.
Proof.
  intros Hg H Hw. destruct (Adapter_Apply_writes _ _ _ _ _ _ _ _ H _ Hw) as [(o & ws' & r' & Ho & E & Hin)|(Hi & ws' & r' & E & Hin)].
  - destruct (rendered_annotations _ _ _ _ _ _ Ho) as (Ha & Hl & _).
    destruct (ensure_write _ _ _ _ _ _ _ E Hin) as [[Eg ->]|(e & Eg & Eo & -> & _)].
    + split; [done|]. apply ObjectLabels_owned. by rewrite Hl.
    + pose proof (Hg _ _ _ _ Eg) as Ek. unfold obj_key in *. cbn [patched ob_Kind ob_Namespace ob_Name ob_Annotations ob_Labels].
      injection Ek as Ek En Em. rewrite Ek, En, Em. split_and!; try done.
      * rewrite Ha. unfold mergeMaps. by rewrite decide_True.
      * intros k Hk. rewrite Hl. unfold mergeMaps. case_decide; [done|]. by rewrite lookup_union_r.
  - destruct (prune_write _ _ _ _ _ _ _ _ _ E Hin) as (e & Eg & Eo & ->). cbn [RenderWithDaemonToken ds_Ingress] in Hi.
    apply fmap_None in Hi. apply Hg in Eg. unfold obj_key in Eg. split_and!; congruence.
Qed.
(** The cluster after the writes [ws]: what was written settled, what was deleted is
    gone, and every other object is as it was. *)
Definition after get (ws : list api_write) get' : Prop :=
  (∀ w, w ∈ ws → let o := written w in
     match w with
     | WDelete _ => get' (ob_Kind o) (ob_Namespace o) (ob_Name o) = KNotFound
     | _ => ∃ x, get' (ob_Kind o) (ob_Namespace o) (ob_Name o) = KFound x ∧ settled o x
     end) ∧
  ∀ k ns n, (∀ w, w ∈ ws → obj_key (written w) ≠ (k, ns, n)) → get' k ns n = get k ns n.

Lemma ensure_again get write get' write' serverName o ws ws' :
  gets_right get → ObjectLabels serverName ⊆ ob_Labels o → spec_shaped (ob_Kind o) (ob_Spec o) →
  after get ws get' → ensure get write serverName o = (ws', Ok ()) → ws' ⊆ ws →
  (ws' = [] → ∀ w, w ∈ ws → obj_key (written w) ≠ obj_key o) →
  ensure get' write' serverName o = ([], Ok ()).
Proof.
  intros Hg Hl Hs [Hw Hu] He Hsub Hfree. unfold ensure, do_write in He.
  assert (∀ x e, settled (wrote e o) x → match e with KFound e => ob_Kind e = ob_Kind o | _ => True end →
    get' (ob_Kind o) (ob_Namespace o) (ob_Name o) = KFound x → ensure get' write' serverName o = ([], Ok ())) as Hok.
  { intros x e Hx Hk Hget. unfold ensure. rewrite Hget.
    rewrite (decide_True _ _ (patched_settled e o x Hk Hs Hx)).
    assert (ownedBy x serverName = true) as ->; [|done].
    apply ObjectLabels_owned. etrans; [exact Hl|]. etrans; [|apply (st_labels _ _ Hx)].
    destruct e; cbn [wrote patched ob_Labels]; [apply mergeMaps_overlay|done..]. }
  destruct (get _ _ _) as [e| |] eqn:Eg; [| |done].
  - destruct (ownedBy e serverName) eqn:Eo; [|done]. cbn [negb] in He. case_decide as Es.
    + simplify_eq. unfold ensure. rewrite Hu by (by apply Hfree). rewrite Eg, Eo. by rewrite decide_True.
    + pose proof (Hg _ _ _ _ Eg) as Ek. unfold obj_key in Ek. injection Ek as Ek En Em.
      injection He as <- _. destruct (Hw (WPatch e (patched e o))) as (x & Hx & Hset); [set_solver|].
      cbn [written patched ob_Kind ob_Namespace ob_Name] in Hx. rewrite Ek, En, Em in Hx. by apply (Hok x (KFound e)).
  - injection He as <- _. destruct (Hw (WCreate o)) as (x & Hx & Hset); [set_solver|]. by apply (Hok x KNotFound).
Qed.

Lemma tree_ok_map m : tree_ok (tree_of_map m).
Proof.
  cbn. rewrite <-list_fmap_compose. change (NoDup (map_to_list m).*1). apply NoDup_fst_map_to_list.
Qed.

Lemma tree_ok_list l : Forall tree_ok l → tree_ok (tree_of_list l).
Proof. destruct l; [done|]. apply tree_ok_slice. Qed.

Lemma tree_ok_ptr a : tree_ok a → tree_ok (TPtr (Some a)).
Proof. done. Qed.

Lemma tree_ok_env (l : list EnvVar) : Forall env_complete l → tree_ok (TSlice (Some (TEnv <$> l))).
Proof. intros Hl. apply tree_ok_slice. induction Hl; by constructor. Qed.

Lemma add_env_forall (P : EnvVar → Prop) l : ∀ seen, Forall P l → Forall P (add_env seen l).
Proof.
  induction l as [|e l IH]; intros seen Hl; [done|]. apply Forall_cons in Hl as [He Hl]. cbn [add_env].
  case_decide; [by apply IH|]. constructor; [done|by apply IH].
Qed.

Lemma controllerEnv_complete s records token w :
  Forall env_complete (cw_ExtraEnv w) → Forall env_complete (controllerEnv (deploymentEnv s records token) w).
Proof.
  intros Hx. apply add_env_forall. rewrite !Forall_app. split_and!.
  - unfold deploymentEnv. destruct (String.eqb token ""); repeat constructor.
  - repeat constructor.
  - rewrite Forall_forall in *. intros e [_ He]%list_elem_of_filter. by apply Hx.
Qed.

Lemma volumes_ok w : Forall tree_ok (fst (controllerVolumes w)) ∧ Forall tree_ok (snd (controllerVolumes w)).
Proof.
  unfold controllerVolumes. destruct (String.eqb _ _), (String.eqb _ _); cbn [fst snd app]; repeat constructor.
Qed.

(** The sources and resources handed through are Go values too, and the extra variables
    leave nothing for the API server to fill in: a reference to a field names its version,
    a reference to a file says whether it is optional. *)
Definition extra_ok (w : ControllerWiring) (extra : ControllerExtra) : Prop :=
  Forall env_complete (cw_ExtraEnv w) ∧ Forall tree_ok (ce_EnvFrom extra) ∧ match ce_Resources extra with Some t => tree_ok t | None => True end.

Lemma deployment_ok s records token wiring extra :
  extra_ok wiring extra →
  tree_ok (ob_Spec (buildControllerDeployment s (deploymentEnv s records token) wiring extra)).
Proof.
  intros (Hx & He & Hr). pose proof (tree_ok_env _ (controllerEnv_complete s records token wiring Hx)) as Henv. destruct (volumes_ok wiring) as [Hv Hm].
  assert (tree_ok (controllerResources (ce_Resources extra))) as Hc.
  { unfold controllerResources. destruct (ce_Resources extra); [done|].
    repeat split; apply (bool_decide_unpack _); vm_compute; done. }
  unfold buildControllerDeployment, rendered. cbn [ob_Spec].
  repeat first [ exact I | exact Hc | apply tree_ok_map | exact Henv | apply tree_ok_list; assumption
               | apply (proj2 (tree_ok_struct _)) | apply (proj2 (tree_ok_slice _)) | apply Forall_cons_2 | apply Forall_nil_2
               | apply tree_ok_ptr ].
Qed.

Lemma spec_shaped_rendered s resolved token wiring extra o :
  extra_ok wiring extra → o ∈ owned_objects s (RenderWithDaemonToken s resolved token) wiring extra →
  spec_shaped (ob_Kind o) (ob_Spec o).
Proof.
  intros He Ho. unfold owned_objects in Ho. cbn [RenderWithDaemonToken ds_Ingress ds_Service ds_DeploymentEnv] in Ho.
  pose proof (deployment_ok s (openShellRecords s resolved) token wiring extra He) as Hd.
  destruct (ks_Ingress s); cbn [fmap option_fmap option_map app] in Ho; set_unfold in Ho;
    repeat destruct Ho as [->|Ho]; done.
Qed.

Lemma owned_kinds s desired wiring extra : NoDup (ob_Kind <$> owned_objects s desired wiring extra).
Proof. unfold owned_objects. destruct (ds_Ingress desired); apply (bool_decide_unpack _); vm_compute; done. Qed.

Lemma ensure_write_kind get write serverName o ws r w :
  gets_right get → ensure get write serverName o = (ws, r) → w ∈ ws → ob_Kind (written w) = ob_Kind o.
Proof.
  intros Hg E Hw. destruct (ensure_write _ _ _ _ _ _ _ E Hw) as [[_ ->]|(e & Eg & _ & -> & _)]; [done|].
  apply Hg in Eg. unfold obj_key in Eg. cbn [written patched ob_Kind]. congruence.
Qed.

(** What one object's step left alone, the whole pass left alone. *)
Lemma writes_free get write s desired wiring extra ws r o :
  gets_right get → Adapter_Apply get write s desired wiring extra = (ws, r) →
  o ∈ owned_objects s desired wiring extra → ensure get write (ks_Name s) o = ([], Ok ()) →
  ∀ w, w ∈ ws → ob_Kind (written w) ≠ ob_Kind o.
Proof.
  intros Hg H Ho He w Hw Ek.
  destruct (Adapter_Apply_writes _ _ _ _ _ _ _ _ H _ Hw) as [(o2 & ws2 & r2 & Ho2 & E2 & Hin)|(Hi & ws2 & r2 & E2 & Hin)].
  - rewrite (ensure_write_kind _ _ _ _ _ _ _ Hg E2 Hin) in Ek. pose proof (owned_kinds s desired wiring extra) as Hn.
    apply list_elem_of_lookup in Ho as [i Hi], Ho2 as [j Hj].
    assert (i = j) as <-.
    { eapply (NoDup_lookup _ i j (ob_Kind o) Hn); rewrite list_lookup_fmap; [by rewrite Hi|rewrite Hj; cbn; by f_equal]. }
    rewrite Hi in Hj. injection Hj as <-. rewrite He in E2. injection E2 as <- _. by apply elem_of_nil in Hin.
  - destruct (prune_write _ _ _ _ _ _ _ _ _ E2 Hin) as (e & Eg & _ & ->). apply Hg in Eg. unfold obj_key in Eg.
    cbn [written] in Ek. assert (ob_Kind o = KIngress) as Ei by congruence.
    unfold owned_objects in Ho. rewrite Hi in Ho. cbn [app] in Ho. set_unfold in Ho.
    repeat destruct Ho as [->|Ho]; done.
Qed.

Lemma ensure_all_quiet get write serverName objs :
  Forall (λ o, ensure get write serverName o = ([], Ok ())) objs →
  ensure_all get write serverName objs = ([], Ok ()).
Proof. induction 1 as [|o objs Ho _ IH]; [done|]. cbn [ensure_all]. by rewrite Ho, IH. Qed.

Lemma prune_again get write get' write' serverName k ns n ws ws' :
  gets_right get → after get ws get' → prune get write serverName k ns n = (ws', Ok ()) → ws' ⊆ ws →
  (ws' = [] → ∀ w, w ∈ ws → obj_key (written w) ≠ (k, ns, n)) → prune get' write' serverName k ns n = ([], Ok ()).
Proof.
  intros Hg [Hw Hu] Hp Hsub Hfree. unfold prune, do_write in *. destruct (get k ns n) as [e| |] eqn:Eg; [| |done].
  - destruct (ownedBy e serverName) eqn:Eo.
    + injection Hp as <- _. pose proof (Hw (WDelete e) ltac:(set_solver)) as Hx. cbn [written] in Hx.
      apply Hg in Eg. unfold obj_key in Eg. simplify_eq. by rewrite Hx.
    + simplify_eq. rewrite Hu by (by apply Hfree). by rewrite Eg, Eo.
  - simplify_eq. rewrite Hu by (by apply Hfree). by rewrite Eg.
Qed.

(** C17. Reconciling converges: once a pass has succeeded and the API server has
    stored what it wrote, filling in only fields that were left unset, inside
    variables too, the next pass over the same resource writes nothing at all, so it
    does not feed its own watch.  This takes extra variables that leave nothing inside
    them to be filled in: see [unversioned_field_is_patched_again]. *)
Theorem apply_converges get write get' write' s resolved token wiring extra ws :
  gets_right get → extra_ok wiring extra →
  Adapter_Apply get write s (RenderWithDaemonToken s resolved token) wiring extra = (ws, Ok ()) →
  after get ws get' →
  Adapter_Apply get' write' s (RenderWithDaemonToken s resolved token) wiring extra = ([], Ok ()).
Proof.
  intros Hg Hx H Ha. pose proof (λ o, writes_free _ _ _ _ _ _ _ _ o Hg H) as Hfree. unfold Adapter_Apply in *.
  set (D := RenderWithDaemonToken s resolved token) in *. fold (owned_objects s D wiring extra) in *.
  destruct (ensure_all get write _ _) as [w1 [[]|]] eqn:E1; [|done].
  destruct (ensure_all_spec _ _ _ _ _ _ E1) as [Hws Hok]. specialize (Hok eq_refl).
  assert (w1 ⊆ ws) as Hsub1.
  { destruct (ds_Ingress D); [by simplify_eq|]. destruct (prune get write _ _ _ _) as [w2 r2]. simplify_eq. set_solver. }
  rewrite ensure_all_quiet.
  - destruct (ds_Ingress D) eqn:Ei; [done|]. destruct (prune get write _ _ _ _) as [w2 r2] eqn:Ep. simplify_eq.
    rewrite (prune_again _ _ _ write' _ _ _ _ _ _ Hg Ha Ep); [done|set_solver|].
    intros -> w Hw Ek. rewrite app_nil_r in Hw. rewrite Forall_forall in Hws.
    destruct (Hws w Hw) as (o & ws' & r' & Ho & He & Hin).
    pose proof (ensure_write_kind _ _ _ _ _ _ _ Hg He Hin) as Hk. unfold obj_key in Ek.
    unfold owned_objects in Ho. rewrite Ei in Ho. cbn [app] in Ho. set_unfold in Ho.
    repeat destruct Ho as [->|Ho]; try done; cbn in Hk; congruence.
  - rewrite Forall_forall in *. intros o Ho. destruct (Hok o Ho) as (ws' & He & Hsub).
    destruct (rendered_annotations _ _ _ _ _ _ Ho) as (_ & Hl & _).
    eapply ensure_again; [exact Hg|by rewrite Hl|by eapply spec_shaped_rendered|exact Ha|exact He|by etrans|].
    intros -> w Hw Ek. apply (Hfree o Ho He w Hw). unfold obj_key in Ek. congruence.
Qed.

End Passes.

(** ** A cluster *)

(** What the API server answers for the objects it holds. *)
Definition stored (objs : list Obj) (k : kind) (ns n : string) : k8s_get Obj :=
  match List.find (λ o, bool_decide (obj_key o = (k, ns, n))) objs with Some x => KFound x | None => KNotFound end.

Lemma stored_right objs : gets_right (stored objs).
Proof.
  intros k ns n x. unfold stored. destruct (List.find _ _) as [y|] eqn:E; [|discriminate]. intros [= ->].
  apply List.find_some in E as [_ E]. by apply bool_decide_eq_true_1 in E.
Qed.

Lemma settled_refl o : spec_shaped (ob_Kind o) (ob_Spec o) → settled o o.
Proof.
  intros Hs. split; try done. destruct (ob_Kind o); cbn [spec_shaped spec_settled] in *; try done.
  - by apply fills_refl.
  - destruct (ob_Spec o) as [| |[|? [|? [|? [|? [|]]]]]| | |]; try done.
  - destruct (ob_Spec o) as [| |[|? [|? [|]]]| | |]; try done.
Qed.

(** Creating objects in an empty cluster. *)
Lemma stored_after objs :
  NoDup (ob_Kind <$> objs) → Forall (λ o, spec_shaped (ob_Kind o) (ob_Spec o)) objs →
  after (stored []) (WCreate <$> objs) (stored objs).
Proof.
  intros Hn Hs. rewrite Forall_forall in Hs. split.
  - intros w Hw. apply list_elem_of_fmap in Hw as (o & -> & Ho). cbn [written]. exists o.
    split; [|by apply settled_refl, Hs]. clear Hs. unfold stored. change (ob_Kind o, ob_Namespace o, ob_Name o) with (obj_key o).
    induction objs as [|o' objs IH]; [by apply elem_of_nil in Ho|]. cbn [List.find].
    rewrite fmap_cons in Hn. apply NoDup_cons in Hn as [Hni Hn]. case_bool_decide as Ek.
    + apply elem_of_cons in Ho as [->|Ho]; [done|]. exfalso. apply Hni. unfold obj_key in Ek.
      injection Ek as -> _ _. by apply list_elem_of_fmap_2.
    + apply elem_of_cons in Ho as [->|Ho]; [done|]. by apply IH.
  - intros k ns n Hfree. unfold stored. cbn [List.find]. destruct (List.find _ _) as [y|] eqn:E; [|done].
    exfalso. apply List.find_some in E as [Hin E]. apply bool_decide_eq_true_1 in E.
    apply (Hfree (WCreate y)); [|done]. by apply list_elem_of_fmap_2, list_elem_of_In.
Qed.

Definition team_desired : DesiredState := RenderWithDaemonToken team_server (team_secrets "t") "".

Lemma apply_converges_witness :
  let objs := owned_objects team_server team_desired chart_wiring (mkExtra [] None) in
  Adapter_Apply (stored objs) (λ _, None) team_server team_desired chart_wiring (mkExtra [] None) = ([], Ok ()).
Proof.
  intros objs.
  apply (apply_converges (stored []) (λ _, None) (stored objs) (λ _, None) team_server (team_secrets "t") "" chart_wiring
    (mkExtra [] None) (WCreate <$> objs)).
  - apply stored_right.
  - split; [repeat constructor|split; [constructor|exact I]].
  - vm_compute. reflexivity.
  - apply stored_after; [apply owned_kinds|]. apply Forall_forall. intros o Ho.
    eapply spec_shaped_rendered; [|exact Ho]. split; [repeat constructor|split; [constructor|exact I]].
Defined.

(** The pod's own name as an extra variable, as written without and with the version of
    the reference. *)
Definition pod_name_wiring (apiVersion : string) : ControllerWiring :=
  mkWiring "gateway.local:443" "/creds" "kape-creds" "anthropic" "pull" "/var/lib/kape/events.db"
    [mkEnvVar "POD_NAME" (FromField apiVersion "metadata.name")].

(** A field reference without a version is patched again in every pass: the API server
    stores it with the version filled in, inheritance leaves variables out, so the pass
    over what is stored writes the deployment without the version, which is stored with it
    again. *)
Theorem unversioned_field_is_patched_again :
  let extra := mkExtra [] None in
  let deployment v := buildControllerDeployment team_server (ds_DeploymentEnv team_desired) (pod_name_wiring v) extra in
  let kept := stored (owned_objects team_server team_desired (pod_name_wiring "v1") extra) in
  let env v := controllerEnv (ds_DeploymentEnv team_desired) (pod_name_wiring v) in
  Forall2 env_fills (env ""%string) (env "v1"%string) ∧
  Adapter_Apply kept (λ _, None) team_server team_desired (pod_name_wiring "") extra
    = ([WPatch (deployment "v1"%string) (deployment ""%string)], Ok ()).
Proof.
  cbv zeta. split; [|vm_compute; reflexivity]. vm_compute.
  repeat (apply Forall2_cons_2; [split; [reflexivity|]; first [left; reflexivity | right; split; reflexivity]|]).
  apply Forall2_nil_2.
Qed.

(** The service account of an earlier version, annotated by somebody else. *)
Definition old_account : Obj :=
  mkObj KServiceAccount "team-a" "kape-controller-prod" (ObjectLabels "prod") {[ "note"%string := "keep"%string ]} [] (TStruct []).

Lemma apply_touches_only_owned_witness :
  let p := patched old_account (buildControllerServiceAccount team_server) in
  ob_Annotations p = {[ "note"%string := "keep"%string ]}.
Proof.
  intros p.
  destruct (apply_touches_only_owned (stored [old_account]) (λ _, None) team_server (team_secrets "t") "" team_wiring (mkExtra [] None)
    (fst (Adapter_Apply (stored [old_account]) (λ _, None) team_server team_desired team_wiring (mkExtra [] None)))
    (Ok ()) (WPatch old_account p)) as (_ & _ & _ & Ha & _).
  - apply stored_right.
  - vm_compute. reflexivity.
  - apply (list_elem_of_lookup_2 _ 0). vm_compute. reflexivity.
  - exact Ha.
Defined.
