(* ===== verification/OperatorReconcile.v ===== *)
(** * The operator: one reconcile of a resource
      (src/operator/controller/reconcile/agentserver.go)

    The reconcile resolves the secrets, pushes the records, renders again with the
    credentials the gateway holds, applies the objects and reports.  What the API
    server answers is a record of functions; the state is that of the gateway
    writer.  Messages of conditions are left out, reasons are kept. *)

From Stdlib Require Import Ascii String ZArith.
From S2P Require Import Prelude Json GoTime GoStrings Bolt EventStore EventHub Fsm Monitor Config.
From S2P Require Import Agent Manager Policy ServerConfig OperatorRender OperatorWriter OperatorApply.
From stdpp Require Import base list strings numbers gmap.
Local Open Scope Z_scope.

(** ** Conditions *)

Record Condition : Type := mkCond {
  c_Type : string; c_Status : bool; c_Reason : string; c_ObservedGeneration : Z; c_LastTransition : Z
}.

Definition ConditionReady : string := "Ready".
Definition ConditionDegraded : string := "Degraded".
Definition ConditionPushed : string := "Pushed".
Definition ConditionFailClosedEnforced : string := "FailClosedEnforced".

Definition with_time (c : Condition) (t : Z) : Condition :=
  mkCond (c_Type c) (c_Status c) (c_Reason c) (c_ObservedGeneration c) t.

(** [setCondition] at time [now]. *)
Fixpoint setCondition (now : Z) (conds : list Condition) (c : Condition) : list Condition :=
  match conds with
  | [] => [with_time c now]
  | e :: rest =>
      if String.eqb (c_Type e) (c_Type c)
      then with_time c (if Bool.eqb (c_Status e) (c_Status c) then c_LastTransition e else now) :: rest
      else e :: setCondition now rest c
  end.

Definition conditionByType (conds : list Condition) (t : string) : option Condition :=
  List.find (λ c, String.eqb (c_Type c) t) conds.

Definition withoutCondition (conds : list Condition) (t : string) : list Condition :=
  filter (λ c, c_Type c ≠ t) conds.

Definition reason_text (r : reason) : string :=
  match r with
  | SecretNotFound => "SecretNotFound" | SecretNotLabeled => "SecretNotLabeled" | SecretNoData => "SecretNoData"
  | SecretReadFailed => "SecretReadFailed" | CrossNamespaceSecretRef => "CrossNamespaceSecretRef"
  | GatewayNotConfigured => "GatewayNotConfigured" | GatewayUnavailable => "GatewayUnavailable"
  | GatewayRejected => "GatewayRejected" | UnknownProviderType => "UnknownProviderType"
  | MissingCredentialKey => "MissingCredentialKey" | ProfileLintFailed => "ProfileLintFailed"
  end.

(** ** Credentials *)

(** One credential of the first loop: a secret of another namespace is refused before
    any read. *)
Definition ref_step (st : list (string * string) * gmap string reason) (cred : CredentialSpec) :
    list (string * string) * gmap string reason :=
  if negb (String.eqb (cs_SecretNamespace cred) "")
  then (fst st, <[cs_Name cred := CrossNamespaceSecretRef]> (snd st))
  else (fst st ++ [(cs_Name cred, cs_SecretName cred)], snd st).

Definition resolveCredentials (get : string → string → k8s_get Secret) (s : KapeAgentServer) :
    ResolvedSecrets * gmap string reason :=
  let '(refs, failures) := foldl ref_step ([], ∅) (ks_Credentials s) in
  let '(resolved, resolverFailures) := Resolve get (ks_Namespace s) refs in
  (resolved, resolverFailures ∪ failures).

(** The outcome map; a key that is missing reads as not pushed, without a reason. *)
Notation Outcomes := (gmap string CredentialOutcome).

Definition failed_step (s : KapeAgentServer) (failures : gmap string reason) (m : Outcomes) (cred : CredentialSpec) : Outcomes :=
  match failures !! cs_Name cred with
  | Some r => <[cs_Name cred := mkOutcome (cs_Name cred) (ProviderName (ks_Namespace s) (ks_Name s) (cs_Name cred)) (Some r)]> m
  | None => m
  end.

Definition outcome_step (m : Outcomes) (o : CredentialOutcome) : Outcomes := <[co_Credential o := o]> m.

Definition mergeOutcomes (s : KapeAgentServer) (failures : gmap string reason) (writer : list CredentialOutcome) : Outcomes :=
  foldl outcome_step (foldl (failed_step s failures) ∅ (ks_Credentials s)) writer.

Definition pushedSecrets (resolved : ResolvedSecrets) (outcomes : list CredentialOutcome) : ResolvedSecrets :=
  foldl (λ m o, if is_pushed o
                then match resolved !! co_Credential o with Some v => <[co_Credential o := v]> m | None => m end
                else m) ∅ outcomes.

Definition out_pushed (m : Outcomes) (name : string) : bool :=
  match m !! name with Some o => is_pushed o | None => false end.

Definition out_reason (m : Outcomes) (name : string) : string :=
  match m !! name with
  | Some o => match co_Result o with Some r => reason_text r | None => ConditionPushed end
  | None => EmptyString
  end.

(** ** Status *)

Record ServerStatus : Type := mkStatus {
  ss_Conditions : list Condition;
  ss_Credentials : list (string * list Condition);
  ss_ObservedGeneration : Z
}.

Definition readyCondition (s : KapeAgentServer) (status : bool) (why : string) : Condition :=
  mkCond ConditionReady status why (ks_Generation s) 0.

Definition degradedCondition (spec : list CredentialSpec) (m : Outcomes) : Condition :=
  match spec with
  | [] => mkCond ConditionDegraded false "NoCredentials" 0 0
  | _ => if forallb (λ cred, out_pushed m (cs_Name cred)) spec
         then mkCond ConditionDegraded false "CredentialsCurrent" 0 0
         else mkCond ConditionDegraded true "CredentialsDegraded" 0 0
  end.

(** The conditions a credential had; the last entry of a name counts. *)
Definition previous (existing : list (string * list Condition)) : gmap string (list Condition) :=
  foldl (λ m st, <[fst st := snd st]> m) ∅ existing.

Definition credentialStatus (now generation : Z) (m : Outcomes) (prev : gmap string (list Condition)) (cred : CredentialSpec) :
    string * list Condition :=
  let name := cs_Name cred in
  let pushed := out_pushed m name in
  let conds := setCondition now (default [] (prev !! name))
                 (mkCond ConditionPushed pushed (if pushed then ConditionPushed else out_reason m name) generation 0) in
  (name,
   if pushed
   then match conditionByType conds ConditionFailClosedEnforced with
        | Some _ => conds
        | None => setCondition now conds
                    (mkCond ConditionFailClosedEnforced false "GatewayEnforcementUnavailable" generation 0)
        end
   else withoutCondition conds ConditionFailClosedEnforced).

Definition credentialsStatus (now : Z) (spec : list CredentialSpec) (m : Outcomes)
    (existing : list (string * list Condition)) (generation : Z) : list (string * list Condition) :=
  credentialStatus now generation m (previous existing) <$> spec.

Definition setReady (now : Z) (s : KapeAgentServer) (st : ServerStatus) (m : Outcomes) (ready : Condition) : ServerStatus :=
  mkStatus (setCondition now (setCondition now (ss_Conditions st) ready) (degradedCondition (ks_Credentials s) m))
    (credentialsStatus now (ks_Credentials s) m (ss_Credentials st) (ks_Generation s)) (ks_Generation s).

(** ** The reconcile *)

(** What the API server answers: the resource and its status; secrets and objects;
    a refusal of an object's write; what is said to a write of the token; the
    generation, observed generation and available replicas of the deployment once
    the objects are applied; a refusal of the status. *)
Record Api : Type := mkApi {
  api_server : res string (option (KapeAgentServer * ServerStatus));
  api_secret : string → string → k8s_get Secret;
  api_object : kind → string → string → k8s_get Obj;
  api_write_fails : api_write → option string;
  api_token : token_write → token_answer;
  api_deployment : k8s_get (Z * Z * Z);
  api_status_fails : ServerStatus → option string
}.

Inductive reconcile_err : Type :=
| RFetch (msg : string) | RToken (msg : string) | RApply (e : apply_err) | RDeployment (msg : string)
| RGateway (e : gerr) | RStatus (msg : string).

(** How the operator runs: its wiring, whether it provisions tokens, and what the
    deployment gets besides. *)
Record OperatorSetup : Type := mkSetup {
  os_Wiring : ControllerWiring; os_DaemonTokens : bool; os_Extra : ControllerExtra
}.

Section Reconcile.
Context `{ProviderGateway} (sha256 : string → string).

Record Reconciled : Type := mkReconciled {
  rc_writer : option WState;               (* [None]: no gateway is configured *)
  rc_tokens : list token_write;
  rc_writes : list api_write;
  rc_status : option ServerStatus;         (* the status that was sent *)
  rc_result : res reconcile_err unit
}.

Definition pushCredentials (records : list OpenShellRecord) (writer : option WState) :
    option WState * list CredentialOutcome * option gerr :=
  match records with
  | [] => (writer, [], None)
  | _ => match writer with
         | None => (None, (λ rec, FailedOutcome rec GatewayNotConfigured) <$> records, None)
         | Some w => let '(w', os, err) := Writer_Apply sha256 records w in (Some w', os, err)
         end
  end.

(** Sending the status, and the result when all else went well. *)
Definition sent (api : Api) (st : ServerStatus) : res reconcile_err unit :=
  match api_status_fails api st with Some msg => Err (RStatus msg) | None => Ok () end.

Definition Reconcile (setup : OperatorSetup) (now : Z) (api : Api) (random : option string) (writer : option WState) :
    Reconciled :=
  match api_server api with
  | Err msg => mkReconciled writer [] [] None (Err (RFetch msg))
  | Ok None => mkReconciled writer [] [] None (Ok ())
  | Ok (Some (s, st)) =>
      if ks_Deleting s then mkReconciled writer [] [] None (Ok ())
      else
        let '(resolved, resolverFailures) := resolveCredentials (api_secret api) s in
        let '(writer', outcomes, gatewayErr) := pushCredentials (ds_OpenShellRecords (Render s resolved)) writer in
        let m := mergeOutcomes s resolverFailures outcomes in
        let report ready := setReady now s st m ready in
        let '(tokens, token) :=
          if os_DaemonTokens setup
          then Token_Ensure (api_secret api (ks_Namespace s)) random (api_token api) (ks_Name s)
          else ([], Ok EmptyString) in
        match token with
        | Err msg =>
            mkReconciled writer' tokens [] (Some (report (readyCondition s false "ApplyFailed"))) (Err (RToken msg))
        | Ok daemonTokenSecret =>
            let desired := RenderWithDaemonToken s (pushedSecrets resolved outcomes) daemonTokenSecret in
            match Missing (os_Wiring setup) with
            | _ :: _ =>
                let st' := report (readyCondition s false "WiringIncomplete") in
                mkReconciled writer' tokens [] (Some st') (sent api st')
            | [] =>
                match Adapter_Apply (api_object api) (api_write_fails api) s desired (os_Wiring setup) (os_Extra setup) with
                | (ws, Err ErrNotOwned) =>
                    let st' := report (readyCondition s false "OwnershipConflict") in
                    mkReconciled writer' tokens ws (Some st') (sent api st')
                | (ws, Err e) =>
                    mkReconciled writer' tokens ws (Some (report (readyCondition s false "ApplyFailed"))) (Err (RApply e))
                | (ws, Ok _) =>
                    let finish ready :=
                      let st' := report ready in
                      mkReconciled writer' tokens ws (Some st')
                        (match gatewayErr with Some e => Err (RGateway e) | None => sent api st' end) in
                    match api_deployment api with
                    | KError msg => mkReconciled writer' tokens ws None (Err (RDeployment msg))
                    | KNotFound => finish (readyCondition s false "Progressing")
                    | KFound (generation, observed, replicas) =>
                        if deployment_available generation observed replicas
                        then finish (readyCondition s true "Deployed")
                        else finish (readyCondition s false "Progressing")
                    end
                end
            end
        end
  end.

End Reconcile.

(** ** Conditions behave as a map *)

Lemma setCondition_finds now conds c :
  ∃ t, conditionByType (setCondition now conds c) (c_Type c) = Some (with_time c t).
Proof.
  induction conds as [|e conds [t IH]]; cbn [setCondition].
  - exists now. unfold conditionByType. cbn. by rewrite String.eqb_refl.
  - destruct (String.eqb (c_Type e) (c_Type c)) eqn:E; unfold conditionByType; cbn [List.find].
    + cbn [with_time c_Type]. rewrite String.eqb_refl. eauto.
    + rewrite E. exists t. exact IH.
Qed.

Lemma setCondition_other now conds c t :
  t ≠ c_Type c → conditionByType (setCondition now conds c) t = conditionByType conds t.
Proof.
  intros Ht. unfold conditionByType. induction conds as [|e conds IH]; cbn [setCondition List.find].
  - cbn. by destruct (String.eqb_spec (c_Type c) t).
  - destruct (String.eqb_spec (c_Type e) (c_Type c)) as [Ee|Ee]; cbn [List.find with_time c_Type].
    + rewrite Ee. by destruct (String.eqb_spec (c_Type c) t).
    + by destruct (String.eqb (c_Type e) t).
Qed.

Lemma withoutCondition_other conds t t' :
  t ≠ t' → conditionByType (withoutCondition conds t') t = conditionByType conds t.
Proof.
  intros Ht. unfold conditionByType, withoutCondition. induction conds as [|e conds IH]; [done|].
  rewrite filter_cons. case_decide as He; cbn [List.find].
  - by destruct (String.eqb (c_Type e) t).
  - subst. by destruct (String.eqb_spec (c_Type e) t).
Qed.

(** Setting a condition that is already there changes nothing. *)
Lemma setCondition_same now now' conds c : setCondition now' (setCondition now conds c) c = setCondition now conds c.
Proof.
  induction conds as [|e conds IH]; cbn [setCondition].
  - cbn [with_time c_Type c_Status c_LastTransition]. by rewrite String.eqb_refl, Bool.eqb_reflx.
  - destruct (String.eqb (c_Type e) (c_Type c)) eqn:E; cbn [setCondition].
    + cbn [with_time c_Type c_Status c_LastTransition]. by rewrite String.eqb_refl, Bool.eqb_reflx.
    + by rewrite E, IH.
Qed.

(** Conditions of different types are set independently. *)
Lemma setCondition_keeps now now' conds c d :
  c_Type c ≠ c_Type d →
  setCondition now' conds c = conds → setCondition now' (setCondition now conds d) c = setCondition now conds d.
Proof.
  intros Hne. induction conds as [|e conds IH]; cbn [setCondition]; intros Hc; [done|].
  destruct (String.eqb_spec (c_Type e) (c_Type c)) as [Ec|Ec].
  - destruct (String.eqb_spec (c_Type e) (c_Type d)) as [Ed|Ed]; [congruence|]. cbn [setCondition].
    rewrite (proj2 (String.eqb_eq _ _) Ec). injection Hc as Hc. by rewrite Hc.
  - injection Hc as Hc. destruct (String.eqb_spec (c_Type e) (c_Type d)) as [Ed|Ed]; cbn [setCondition with_time c_Type].
    + destruct (String.eqb_spec (c_Type d) (c_Type c)); [congruence|]. by rewrite Hc.
    + destruct (String.eqb_spec (c_Type e) (c_Type c)); [done|]. by rewrite IH.
Qed.

Lemma setCondition_without now conds c t :
  c_Type c ≠ t → setCondition now conds c = conds →
  setCondition now (withoutCondition conds t) c = withoutCondition conds t.
Proof.
  intros Hne. unfold withoutCondition. induction conds as [|e conds IH]; cbn [setCondition]; intros Hc; [done|].
  rewrite filter_cons. destruct (String.eqb_spec (c_Type e) (c_Type c)) as [Ee|Ee].
  - rewrite decide_True by congruence. cbn [setCondition]. rewrite (proj2 (String.eqb_eq _ _) Ee).
    injection Hc as Hc. by rewrite Hc.
  - injection Hc as Hc. case_decide; [|by apply IH]. cbn [setCondition].
    destruct (String.eqb_spec (c_Type e) (c_Type c)); [done|]. by rewrite IH.
Qed.

Lemma previous_lookup l name conds : NoDup l.*1 → (name, conds) ∈ l → previous l !! name = Some conds.
Proof.
  intros Hn Hin. unfold previous.
  assert (∀ (l : list (string * list Condition)) (m : gmap string (list Condition)),
    name ∉ l.*1 → foldl (λ m st, <[fst st := snd st]> m) m l !! name = m !! name) as Hout.
  { clear. induction l as [|[n c] l IH]; intros m Hn; [done|]. rewrite fmap_cons, not_elem_of_cons in Hn. destruct Hn as [Hn Hr].
    cbn [foldl]. rewrite IH by done. by rewrite lookup_insert_ne. }
  revert Hn Hin. generalize (∅ : gmap string (list Condition)). induction l as [|[n c] l IH]; intros m Hn Hin;
    [by apply elem_of_nil in Hin|]. rewrite fmap_cons, NoDup_cons in Hn. destruct Hn as [Hn Hr]. cbn [foldl].
  apply elem_of_cons in Hin as [[= -> ->]|Hin]; [|by apply IH]. rewrite Hout by done. apply lookup_insert_eq.
Qed.

Lemma credentialsStatus_names now spec m existing generation :
  (credentialsStatus now spec m existing generation).*1 = cs_Name <$> spec.
Proof. unfold credentialsStatus. rewrite <-list_fmap_compose. by apply list_fmap_ext. Qed.

Lemma credentialStatus_steady now now' generation m prev prev' cred :
  prev' !! cs_Name cred = Some (snd (credentialStatus now generation m prev cred)) →
  credentialStatus now' generation m prev' cred = credentialStatus now generation m prev cred.
Proof.
  unfold credentialStatus. cbn [snd]. intros ->. cbn [default from_option id]. f_equal.
  set (c := mkCond ConditionPushed _ _ _ _). set (conds := setCondition now _ c).
  assert (setCondition now' conds c = conds) as Hc by apply setCondition_same.
  destruct (out_pushed m (cs_Name cred)).
  - destruct (conditionByType conds ConditionFailClosedEnforced) as [x|] eqn:E; [by rewrite Hc, E|].
    set (fce := mkCond ConditionFailClosedEnforced _ _ _ _). rewrite (setCondition_keeps now now' conds c fce) by done.
    destruct (setCondition_finds now conds fce) as [t Ht].
    change ConditionFailClosedEnforced with (c_Type fce). by rewrite Ht.
  - rewrite setCondition_without by done. apply list_filter_filter_l. auto.
Qed.

Lemma setReady_steady now now' s st m ready :
  c_Type ready = ConditionReady → NoDup (cs_Name <$> ks_Credentials s) →
  setReady now' s (setReady now s st m ready) m ready = setReady now s st m ready.
Proof.
  intros Hr Hn. unfold setReady. cbn [ss_Conditions ss_Credentials]. f_equal.
  - assert (c_Type (degradedCondition (ks_Credentials s) m) = ConditionDegraded) as Hd.
    { unfold degradedCondition. destruct (ks_Credentials s); [done|]. by destruct (forallb _ _). }
    rewrite (setCondition_keeps now now' (setCondition now (ss_Conditions st) ready) ready);
      [apply setCondition_same|by rewrite Hr, Hd|apply setCondition_same].
  - unfold credentialsStatus at 1. set (L := credentialsStatus now _ _ _ _).
    assert (NoDup L.*1) as HL by (by unfold L; rewrite credentialsStatus_names).
    unfold L at 2, credentialsStatus. apply list_fmap_ext. intros i cred Hi. apply credentialStatus_steady.
    apply previous_lookup; [done|]. apply list_elem_of_fmap. exists cred. split; [done|]. by apply list_elem_of_lookup_2 in Hi.
Qed.

(** ** What is resolved, what is reported *)

Definition own_refs (spec : list CredentialSpec) : list (string * string) :=
  (λ cred, (cs_Name cred, cs_SecretName cred)) <$> filter (λ cred, cs_SecretNamespace cred = ""%string) spec.

Lemma refs_fold spec : ∀ refs failures,
  let r := foldl ref_step (refs, failures) spec in
  fst r = refs ++ own_refs spec ∧
  (∀ n, is_Some (failures !! n) → is_Some (snd r !! n)) ∧
  ∀ cred, cred ∈ spec → cs_SecretNamespace cred ≠ ""%string → is_Some (snd r !! cs_Name cred).
Proof.
  induction spec as [|cred spec IH]; intros refs failures; cbn [foldl].
  - unfold own_refs. rewrite filter_nil, app_nil_r. split; [done|]. split; [done|]. intros ? H. by apply elem_of_nil in H.
  - unfold own_refs, ref_step at 2 4 6. rewrite filter_cons. cbn [fst snd]. destruct (String.eqb_spec (cs_SecretNamespace cred) "") as [E|E]; cbn [negb fst snd].
    + destruct (IH (refs ++ [(cs_Name cred, cs_SecretName cred)]) failures) as (H1 & H2 & H3).
      rewrite decide_True by done. rewrite fmap_cons. split; [by rewrite H1, <-app_assoc|]. split; [done|].
      intros c Hc Hne. apply elem_of_cons in Hc as [->|Hc]; [done|]. by apply H3.
    + destruct (IH refs (<[cs_Name cred := CrossNamespaceSecretRef]> failures)) as (H1 & H2 & H3).
      rewrite decide_False by done. split; [done|]. split.
      * intros n Hn. apply H2. destruct (decide (cs_Name cred = n)) as [->|]; [rewrite lookup_insert_eq|rewrite lookup_insert_ne by done]; eauto.
      * intros c Hc Hne. apply elem_of_cons in Hc as [->|Hc]; [|by apply H3]. apply H2. rewrite lookup_insert_eq. eauto.
Qed.

(** Values come from the labelled secret the credential names in the resource's own
    namespace, and a credential without values has a failure. *)
Lemma resolveCredentials_spec get s resolved failures :
  resolveCredentials get s = (resolved, failures) →
  (∀ name values, resolved !! name = Some values →
     ∃ cred sec, cred ∈ ks_Credentials s ∧ cs_Name cred = name ∧ cs_SecretNamespace cred = ""%string ∧
       get (ks_Namespace s) (cs_SecretName cred) = KFound sec ∧
       se_Labels sec !! CredentialLabel = Some CredentialLabelValue ∧ values = se_Data sec) ∧
  ∀ cred, cred ∈ ks_Credentials s → is_Some (resolved !! cs_Name cred) ∨ is_Some (failures !! cs_Name cred).
Proof.
  unfold resolveCredentials. destruct (refs_fold (ks_Credentials s) [] ∅) as (H1 & _ & H3).
  destruct (foldl _ _ _) as [refs fs]. cbn [fst snd app] in *. subst refs.
  pose proof (λ name values, resolve_values get (ks_Namespace s) name values (own_refs (ks_Credentials s)) (∅, ∅)) as Hv.
  pose proof (resolve_total get (ks_Namespace s) (own_refs (ks_Credentials s)) (∅, ∅)) as Ht.
  unfold Resolve. fold (resolve_step get (ks_Namespace s)). destruct (foldl _ _ _) as [rs rf]. cbn [fst snd] in *.
  intros [= <- <-]. split.
  - intros name values Hn. destruct (Hv _ _ Hn) as [Hn'|(secretName & Hin & Hr)]; [by rewrite lookup_empty in Hn'|].
    apply list_elem_of_fmap in Hin as (cred & [= -> ->] & Hin). apply list_elem_of_filter in Hin as [Hns Hin].
    apply resolveOne_ok in Hr as (sec & ? & ? & ? & _). by exists cred, sec.
  - intros cred Hc. destruct (decide (cs_SecretNamespace cred = ""%string)) as [E|E].
    + destruct (Ht (cs_Name cred) (cs_SecretName cred)) as [|[r Hr]]; [|by left|].
      * apply list_elem_of_fmap. exists cred. split; [done|]. by apply list_elem_of_filter.
      * right. exists r. by apply lookup_union_Some_l.
    + right. destruct (H3 cred Hc E) as [r Hr]. destruct (rf !! cs_Name cred) as [r'|] eqn:Er.
      * exists r'. by apply lookup_union_Some_l.
      * exists r. by rewrite lookup_union_r.
Qed.

Lemma writer_outcomes_lookup (os : list CredentialOutcome) name : ∀ m : Outcomes,
  (∀ o, foldl outcome_step m os !! name = Some o →
     (o ∈ os ∧ co_Credential o = name) ∨ m !! name = Some o) ∧
  (is_Some (m !! name) ∨ name ∈ co_Credential <$> os →
   is_Some (foldl outcome_step m os !! name)).
Proof.
  induction os as [|o os IH]; intros m; cbn [foldl].
  - split; [by right|]. intros [H|H]; [done|by apply elem_of_nil in H].
  - destruct (IH (outcome_step m o)) as [H1 H2]. unfold outcome_step at 3 in H1. unfold outcome_step at 1 in H2. split.
    + intros o' Ho. apply H1 in Ho as [[Hin Hc]|Ho]; [left; split; [by right|done]|].
      destruct (decide (co_Credential o = name)) as [E|E].
      * rewrite E, lookup_insert_eq in Ho. injection Ho as <-. left. by split; [left|].
      * rewrite lookup_insert_ne in Ho by done. by right.
    + intros H. apply H2. rewrite fmap_cons, elem_of_cons in H.
      destruct (decide (co_Credential o = name)) as [E|E]; [rewrite E, lookup_insert_eq; eauto|].
      rewrite lookup_insert_ne by done. destruct H as [H|[H|H]]; [by left|by rewrite H in E|by right].
Qed.

Lemma failed_outcomes_lookup (s : KapeAgentServer) (failures : gmap string reason) name spec : ∀ m : Outcomes,
  (∀ o, foldl (failed_step s failures) m spec !! name = Some o → (∃ r, co_Result o = Some r) ∨ m !! name = Some o) ∧
  (is_Some (m !! name) ∨ (is_Some (failures !! name) ∧ name ∈ cs_Name <$> spec) → is_Some (foldl (failed_step s failures) m spec !! name)).
Proof.
  induction spec as [|cred spec IH]; intros m; cbn [foldl].
  - split; [by right|]. intros [H|[_ H]]; [done|by apply elem_of_nil in H].
  - destruct (IH (failed_step s failures m cred)) as [H1 H2]. unfold failed_step at 3 in H1. unfold failed_step at 1 in H2. split.
    + intros o Ho. apply H1 in Ho as [Ho|Ho]; [by left|]. destruct (failures !! cs_Name cred) as [r|]; [|by right].
      destruct (decide (cs_Name cred = name)) as [<-|E].
      * rewrite lookup_insert_eq in Ho. injection Ho as <-. left. by exists r.
      * rewrite lookup_insert_ne in Ho by done. by right.
    + intros H. apply H2. rewrite fmap_cons, elem_of_cons in H. destruct (decide (cs_Name cred = name)) as [<-|E].
      * destruct (failures !! cs_Name cred) as [r|] eqn:Ef; [left; rewrite lookup_insert_eq; eauto|].
        left. by destruct H as [H|[[? H] _]].
      * destruct H as [H|[H [H'|H']]]; [|by rewrite H' in E|by right].
        left. destruct (failures !! cs_Name cred); [by rewrite lookup_insert_ne|done].
Qed.

Lemma pushedSecrets_lookup resolved os name values :
  pushedSecrets resolved os !! name = Some values →
  resolved !! name = Some values ∧ ∃ o, o ∈ os ∧ is_pushed o = true ∧ co_Credential o = name.
Proof.
  unfold pushedSecrets. intros Hl.
  assert (∀ os (m : ResolvedSecrets),
    foldl (λ m o, if is_pushed o
                  then match resolved !! co_Credential o with Some v => <[co_Credential o := v]> m | None => m end
                  else m) m os !! name = Some values →
    m !! name = Some values ∨
    (resolved !! name = Some values ∧ ∃ o, o ∈ os ∧ is_pushed o = true ∧ co_Credential o = name)) as Hgen.
  { clear os Hl. induction os as [|o os IH]; intros m Hl; [by left|]. cbn [foldl] in Hl.
    apply IH in Hl as [Hl|(Hr & o' & Hin & Hp & Hc)]; [|right; split; [done|]; exists o'; by split; [right|]].
    destruct (is_pushed o) eqn:Ep; [|by left]. destruct (resolved !! co_Credential o) as [v|] eqn:Er; [|by left].
    destruct (decide (co_Credential o = name)) as [E|E].
    - rewrite E, lookup_insert_eq in Hl. injection Hl as ->. right. split; [by rewrite <-E|]. exists o. by split; [left|].
    - rewrite lookup_insert_ne in Hl by done. by left. }
  apply Hgen in Hl as [Hl|Hl]; [by rewrite lookup_empty in Hl|done].
Qed.

Lemma openShellRecords_in s r rec :
  rec ∈ openShellRecords s r ↔
  ∃ cred values, cred ∈ ks_Credentials s ∧ r !! cs_Name cred = Some values ∧
    rec = mkRecord (cs_Name cred) (ProviderName (ks_Namespace s) (ks_Name s) (cs_Name cred))
            (cs_ProviderType cred) (cs_HostPatterns cred) values.
Proof.
  unfold openShellRecords. rewrite list_elem_of_omap. split.
  - intros (cred & Hin & Hf). destruct (r !! cs_Name cred) as [v|] eqn:E; [|done]. cbn in Hf. injection Hf as <-. eauto.
  - intros (cred & v & Hin & Hr & ->). exists cred. split; [done|]. by rewrite Hr.
Qed.

Lemma ProviderName_inj ns name c c' : ProviderName ns name c = ProviderName ns name c' → c = c'.
Proof.
  intros E. apply (f_equal (drop_str (String.length ("kape-" +:+ ns +:+ "-" +:+ name +:+ "-")))) in E. revert E.
  unfold ProviderName.
  assert (∀ c, "kape-" +:+ ns +:+ "-" +:+ name +:+ "-" +:+ c = ("kape-" +:+ ns +:+ "-" +:+ name +:+ "-") +:+ c) as Ha
    by (intros; by rewrite !str_app_assoc).
  rewrite !Ha, !drop_str_app. done.
Qed.

Lemma openShellRecords_names s r : NoDup (cs_Name <$> ks_Credentials s) → NoDup (or_Name <$> openShellRecords s r).
Proof.
  unfold openShellRecords. induction (ks_Credentials s) as [|cred spec IH]; intros Hn; [constructor|].
  rewrite fmap_cons, NoDup_cons in Hn. destruct Hn as [Hn Hr]. cbn [omap list_omap].
  destruct (r !! cs_Name cred); cbn [mbind option_bind]; [|by apply IH].
  rewrite fmap_cons. apply NoDup_cons. split; [|by apply IH]. cbn [or_Name]. intros Hin.
  apply list_elem_of_fmap in Hin as (rec & E & Hin). apply list_elem_of_omap in Hin as (c & Hc & Hf).
  destruct (r !! cs_Name c); [|done]. cbn in Hf. injection Hf as <-. cbn [or_Name] in E. apply ProviderName_inj in E.
  apply Hn. rewrite E. by apply list_elem_of_fmap_2.
Qed.

Lemma same_credential s c c' :
  NoDup (cs_Name <$> ks_Credentials s) → c ∈ ks_Credentials s → c' ∈ ks_Credentials s → cs_Name c = cs_Name c' → c = c'.
Proof.
  intros Hn Hc Hc' E. apply list_elem_of_lookup in Hc as [i Hi], Hc' as [j Hj].
  assert (i = j) as <- by (eapply (NoDup_lookup _ i j (cs_Name c) Hn); rewrite list_lookup_fmap;
    [by rewrite Hi|rewrite Hj; cbn; by f_equal]). congruence.
Qed.

Lemma credentialStatus_pushed now generation m prev cred :
  ∃ c, conditionByType (snd (credentialStatus now generation m prev cred)) ConditionPushed = Some c ∧
       c_Status c = out_pushed m (cs_Name cred) ∧
       (c_Status c = false → c_Reason c = out_reason m (cs_Name cred)).
Proof.
  unfold credentialStatus. cbn [snd]. set (c := mkCond ConditionPushed _ _ _ _).
  destruct (setCondition_finds now (default [] (prev !! cs_Name cred)) c) as [t Ht]. exists (with_time c t).
  split; [|split; [done|]; cbn; by destruct (out_pushed m (cs_Name cred))].
  destruct (out_pushed m (cs_Name cred)).
  - destruct (conditionByType _ ConditionFailClosedEnforced); [exact Ht|]. rewrite setCondition_other by done. exact Ht.
  - rewrite withoutCondition_other by done. exact Ht.
Qed.

Lemma degradedCondition_iff spec m :
  c_Status (degradedCondition spec m) = true ↔ ∃ cred, cred ∈ spec ∧ out_pushed m (cs_Name cred) = false.
Proof.
  unfold degradedCondition. destruct spec as [|c0 spec]; [split; [done|]; intros (? & H & _); by apply elem_of_nil in H|].
  destruct (forallb _ _) eqn:E.
  - split; [done|]. intros (cred & Hin & Hp). rewrite forallb_forall in E. rewrite E in Hp; [done|]. by apply list_elem_of_In.
  - split; [intros _|done]. apply not_true_iff_false in E. rewrite forallb_forall in E.
    destruct (decide (Exists (λ cred, out_pushed m (cs_Name cred) = false) (c0 :: spec))) as [Hx|Hx].
    + apply Exists_exists in Hx as (cred & ? & ?). eauto.
    + exfalso. apply E. intros cred Hin. apply not_false_iff_true. intros Hp. apply Hx, Exists_exists. exists cred.
      split; [by apply list_elem_of_In|done].
Qed.

(** The outcome map has every credential; what is not pushed has a reason. *)
Lemma mergeOutcomes_spec s failures os cred :
  cred ∈ ks_Credentials s → is_Some (failures !! cs_Name cred) ∨ cs_Name cred ∈ co_Credential <$> os →
  (out_pushed (mergeOutcomes s failures os) (cs_Name cred) = true →
   ∃ o, o ∈ os ∧ is_pushed o = true ∧ co_Credential o = cs_Name cred) ∧
  out_reason (mergeOutcomes s failures os) (cs_Name cred) ≠ ""%string.
Proof.
  intros Hc Hf. unfold out_pushed, out_reason, mergeOutcomes.
  destruct (failed_outcomes_lookup s failures (cs_Name cred) (ks_Credentials s) ∅) as [H1 H2].
  destruct (writer_outcomes_lookup os (cs_Name cred) (foldl (failed_step s failures) ∅ (ks_Credentials s))) as [H3 H4].
  destruct (foldl outcome_step _ _ !! cs_Name cred) as [o|] eqn:E.
  - split.
    + intros Hp. destruct (H3 o eq_refl) as [[? ?]|Ho]; [by exists o|].
      destruct (H1 o Ho) as [[r Hr]|Ho']; [|by rewrite lookup_empty in Ho']. unfold is_pushed in Hp. by rewrite Hr in Hp.
    + destruct (co_Result o) as [[]|]; discriminate.
  - exfalso. assert (is_Some (None : option CredentialOutcome)) as [? ?]; [|done]. apply H4.
    destruct Hf as [Hf|Hf]; [left|by right]. apply H2. right. split; [done|]. by apply list_elem_of_fmap_2.
Qed.

Section Truthful.
Context `{ProviderGateway} (sha256 : string → string).

(** The names in doubt: see [remembers]. *)
Definition writer_ok (doubt : gset string) (writer : option WState) : Prop :=
  match writer with Some w => remembers sha256 doubt w | None => True end.

(** The gateway holds the record under its name with its type and, unless the name is in
    doubt, with values of the same fingerprint. *)
Definition held (doubt : gset string) (writer : option WState) (rec : OpenShellRecord) : Prop :=
  match writer with Some w => stored_as sha256 doubt w rec | None => False end.

(** The providers of the credentials that are not among those pushed. *)
Definition not_rendered (s : KapeAgentServer) (pushed : ResolvedSecrets) : gset string :=
  list_to_set ((λ cred, ProviderName (ks_Namespace s) (ks_Name s) (cs_Name cred)) <$>
    filter (λ cred, pushed !! cs_Name cred = None) (ks_Credentials s)).

Lemma writer_ok_mono D D' writer : D ⊆ D' → writer_ok D writer → writer_ok D' writer.
Proof. destruct writer as [w|]; [apply remembers_mono|done]. Qed.

Definition outcome_told (D : gset string) (writer : option WState) (rec : OpenShellRecord) (o : CredentialOutcome) : Prop :=
  co_Credential o = or_Credential rec ∧ co_Provider o = or_Name rec ∧ (is_pushed o = true → held D writer rec).

Lemma pushCredentials_spec D records writer writer' os err :
  writer_ok D writer → NoDup (or_Name <$> records) →
  pushCredentials sha256 records writer = (writer', os, err) →
  writer_ok (D ∪ failed_names os) writer' ∧ Forall2 (outcome_told D writer') records os.
Proof.
  intros Hw Hn. unfold pushCredentials. destruct records as [|rec recs].
  { intros [= <- <- <-]. split; [|constructor]. by apply (writer_ok_mono D); [set_solver|]. }
  destruct writer as [w|].
  - destruct (Writer_Apply sha256 (rec :: recs) w) as [[w' os'] err'] eqn:E. intros [= <- <- <-].
    exact (Writer_Apply_spec sha256 _ _ _ _ _ _ Hw Hn E).
  - intros [= <- <- <-]. split; [done|].
    apply (Forall2_fmap_r (λ r, FailedOutcome r GatewayNotConfigured) _ (rec :: recs) (rec :: recs)).
    apply Forall_Forall2_diag. by apply Forall_true.
Qed.

Section Pass.
Context (D : gset string) (api : Api) (s : KapeAgentServer) (writer : option WState).
Hypotheses (Hw : writer_ok D writer) (Hn : NoDup (cs_Name <$> ks_Credentials s)).

Context (resolved : ResolvedSecrets) (failures : gmap string reason).
Hypothesis (Hres : resolveCredentials (api_secret api) s = (resolved, failures)).
Context (writer' : option WState) (os : list CredentialOutcome) (err : option gerr).
Hypothesis (Hpush : pushCredentials sha256 (openShellRecords s resolved) writer = (writer', os, err)).

Lemma pass_push :
  writer_ok (D ∪ failed_names os) writer' ∧ Forall2 (outcome_told D writer') (openShellRecords s resolved) os.
Proof. apply (pushCredentials_spec _ _ _ _ _ _ Hw) in Hpush; [done|by apply openShellRecords_names]. Qed.

(** An outcome and the credential it is about. *)
Lemma pass_outcome i o :
  os !! i = Some o → ∃ cred values rec, openShellRecords s resolved !! i = Some rec ∧
    cred ∈ ks_Credentials s ∧ resolved !! cs_Name cred = Some values ∧
    rec = mkRecord (cs_Name cred) (ProviderName (ks_Namespace s) (ks_Name s) (cs_Name cred))
            (cs_ProviderType cred) (cs_HostPatterns cred) values ∧ outcome_told D writer' rec o.
Proof.
  intros Hi. destruct pass_push as [_ Hf]. destruct (Forall2_lookup_r _ _ _ _ _ Hf Hi) as (rec & Hrec & Ht).
  pose proof Hrec as Hin. apply list_elem_of_lookup_2, openShellRecords_in in Hin as (c & v & Hc & Hv & E). by exists c, v, rec.
Qed.

(** There is one outcome per credential. *)
Lemma pass_one_outcome o o' : o ∈ os → o' ∈ os → co_Credential o = co_Credential o' → o = o'.
Proof.
  intros Ho Ho' E. apply list_elem_of_lookup in Ho as [i Hi], Ho' as [j Hj].
  destruct (pass_outcome i o Hi) as (c & v & rec & Hr & Hc & _ & -> & Hcr & _).
  destruct (pass_outcome j o' Hj) as (c' & v' & rec' & Hr' & Hc' & _ & -> & Hcr' & _). cbn [or_Credential] in Hcr, Hcr'.
  assert (c = c') as <- by (apply (same_credential s); [done..|congruence]).
  assert (i = j) as <-; [|congruence].
  eapply (NoDup_lookup (or_Name <$> openShellRecords s resolved)); [by apply openShellRecords_names|..];
    rewrite list_lookup_fmap; [by rewrite Hr|by rewrite Hr'].
Qed.

(** What is in doubt after the pass and was not before is not rendered. *)
Lemma pass_doubt : failed_names os ⊆ not_rendered s (pushedSecrets resolved os).
Proof.
  intros n Hin. unfold failed_names in Hin. apply elem_of_list_to_set, list_elem_of_fmap in Hin as (o & -> & Hin).
  apply list_elem_of_filter in Hin as [Hf Ho]. pose proof Ho as Hi. apply list_elem_of_lookup in Hi as [i Hi].
  destruct (pass_outcome i o Hi) as (c & v & rec & _ & Hc & _ & -> & Hcr & Hpr & _). rewrite Hpr. cbn [or_Name or_Credential] in *.
  apply elem_of_list_to_set, (list_elem_of_fmap_2 (λ cred, ProviderName _ _ (cs_Name cred)) _ c), list_elem_of_filter. split; [|done].
  destruct (pushedSecrets resolved os !! cs_Name c) as [v'|] eqn:E; [|done].
  apply pushedSecrets_lookup in E as (_ & o' & Ho' & Hp' & Ec). rewrite <-Hcr in Ec.
  rewrite (pass_one_outcome o' o Ho' Ho Ec) in Hp'. congruence.
Qed.

(** A pushed outcome under a credential's name is that of the record rendered from
    it. *)
Lemma pass_pushed_held cred values o :
  cred ∈ ks_Credentials s → resolved !! cs_Name cred = Some values →
  o ∈ os → is_pushed o = true → co_Credential o = cs_Name cred →
  held D writer' (mkRecord (cs_Name cred) (ProviderName (ks_Namespace s) (ks_Name s) (cs_Name cred))
                  (cs_ProviderType cred) (cs_HostPatterns cred) values).
Proof.
  intros Hc Hr Ho Hp Ec. apply list_elem_of_lookup in Ho as [i Hi].
  destruct (pass_outcome i o Hi) as (c & v & rec & _ & Hc' & Hv & -> & Hcr & _ & Hh). specialize (Hh Hp). cbn [or_Credential] in Hcr.
  assert (c = cred) as -> by (apply (same_credential s); congruence || done). congruence.
Qed.

(** Outcomes are those of resolved credentials, one for each. *)
Lemma pass_resolved o : o ∈ os → is_Some (resolved !! co_Credential o).
Proof.
  intros Ho. apply list_elem_of_lookup in Ho as [i Hi].
  destruct (pass_outcome i o Hi) as (c & v & rec & _ & _ & Hv & -> & Hcr & _). rewrite Hcr. eauto.
Qed.

Lemma pass_reported cred values :
  cred ∈ ks_Credentials s → resolved !! cs_Name cred = Some values → cs_Name cred ∈ co_Credential <$> os.
Proof.
  intros Hc Hr. destruct pass_push as [_ Hf].
  assert (∃ rec, rec ∈ openShellRecords s resolved ∧ or_Credential rec = cs_Name cred) as (rec & Hin & <-).
  { eexists. split; [apply openShellRecords_in; by exists cred, values|done]. }
  apply list_elem_of_lookup in Hin as [i Hi]. destruct (Forall2_lookup_l _ _ _ _ _ Hf Hi) as (o & Ho & <- & _).
  apply list_elem_of_fmap_2. by eapply list_elem_of_lookup_2.
Qed.
End Pass.

(** The parts of a reconcile, whichever way it ends. *)
Lemma Reconcile_shape setup now api random writer s st :
  api_server api = Ok (Some (s, st)) → ks_Deleting s = false →
  let r := Reconcile sha256 setup now api random writer in
  ∃ resolved failures os err,
    resolveCredentials (api_secret api) s = (resolved, failures) ∧
    pushCredentials sha256 (openShellRecords s resolved) writer = (rc_writer r, os, err) ∧
    let apply token := Adapter_Apply (api_object api) (api_write_fails api) s
      (RenderWithDaemonToken s (pushedSecrets resolved os) token) (os_Wiring setup) (os_Extra setup) in
    (rc_writes r = [] ∨ ∃ token, rc_writes r = fst (apply token)) ∧
    ∀ st', rc_status r = Some st' → ∃ ready, c_Type ready = ConditionReady ∧
      st' = setReady now s st (mergeOutcomes s failures os) ready ∧
      (c_Status ready = true → ∃ token generation observed replicas,
         Missing (os_Wiring setup) = [] ∧ apply token = (rc_writes r, Ok ()) ∧
         api_deployment api = KFound (generation, observed, replicas) ∧
         deployment_available generation observed replicas = true).
Proof.
  intros Hs Hd r. subst r. unfold Reconcile. rewrite Hs, Hd.
  destruct (resolveCredentials _ _) as [resolved failures]. cbn [Render RenderWithDaemonToken ds_OpenShellRecords].
  destruct (pushCredentials _ _ _) as [[writer' os] err] eqn:Ep. exists resolved, failures, os, err. split; [done|].
  destruct (if os_DaemonTokens setup then _ else _) as [tokens [token|msg]]; cbn [rc_writer rc_writes rc_status].
  - destruct (Missing (os_Wiring setup)).
    + destruct (Adapter_Apply _ _ _ _ _ _) as [ws [[]|[|e]]] eqn:Ea; cbn [rc_writer rc_writes rc_status].
      * destruct (api_deployment api) as [[[g o] n]| |] eqn:Edep;
          [destruct (deployment_available g o n) eqn:Eav|..]; cbn [rc_writer rc_writes rc_status];
          (split; [done|]; split; [right; exists token; by rewrite Ea|]);
          intros st' [= <-]; eexists; (split; [|split; [reflexivity|]]); try done. intros _. exists token, g, o, n. done.
      * split; [done|]. split; [right; exists token; by rewrite Ea|]. intros st' [= <-]. eexists; split; [|split; [reflexivity|]]; done.
      * split; [done|]. split; [right; exists token; by rewrite Ea|]. intros st' [= <-]. eexists; split; [|split; [reflexivity|]]; done.
    + split; [done|]. split; [by left|]. intros st' [= <-]. eexists; split; [|split; [reflexivity|]]; done.
  - split; [done|]. split; [by left|]. intros st' [= <-]. eexists; split; [|split; [reflexivity|]]; done.
Qed.

(** C16. A rendered binding names a provider the gateway holds, for a resource whose
    credentials have distinct names, as long as nobody else writes to the gateway while
    the reconcile runs.  Whatever a reconcile writes to the cluster is the rendering of
    credentials that are, at that moment, on the gateway under their provider names
    with their types, and that come from the labelled secrets the resource names in
    its own namespace; and unless the name was in doubt before, the values on the
    gateway have the fingerprint of the secret's.  In doubt are the names whose write
    once failed, whether or not it took effect, and those someone else has written:
    a pass adds only names of credentials it did not render. *)
Theorem rendered_bindings_are_held D setup now api random writer s st :
  writer_ok D writer → NoDup (cs_Name <$> ks_Credentials s) →
  api_server api = Ok (Some (s, st)) → ks_Deleting s = false →
  let r := Reconcile sha256 setup now api random writer in
  ∃ pushed,
  writer_ok (D ∪ not_rendered s pushed) (rc_writer r) ∧
  (rc_writes r = [] ∨ ∃ token,
     rc_writes r = fst (Adapter_Apply (api_object api) (api_write_fails api) s (RenderWithDaemonToken s pushed token)
                          (os_Wiring setup) (os_Extra setup)) ∧
     ∀ rec, rec ∈ openShellRecords s pushed → held D (rc_writer r) rec ∧
       ∃ cred sec, cred ∈ ks_Credentials s ∧ or_Credential rec = cs_Name cred ∧
         api_secret api (ks_Namespace s) (cs_SecretName cred) = KFound sec ∧
         se_Labels sec !! CredentialLabel = Some CredentialLabelValue ∧ or_Values rec = se_Data sec).
Proof.
  intros Hw Hn Hs Hd r. destruct (Reconcile_shape setup now api random writer s st Hs Hd) as (resolved & failures & os & err & Hres & Hp & Hws & _).
  fold r in Hp, Hws. exists (pushedSecrets resolved os). split.
  { eapply writer_ok_mono; [|by eapply (pass_push D s writer)].
    pose proof (pass_doubt D s writer Hw Hn _ _ _ _ Hp). set_solver. }
  destruct Hws as [Hws|[token Hws]]; [by left|]. right. exists token. split; [done|].
  intros rec Hin. apply openShellRecords_in in Hin as (cred & v & Hc & Hv & ->).
  apply pushedSecrets_lookup in Hv as (Hv & o & Ho & Hpo & Eo). split; [by eapply (pass_pushed_held D s writer)|].
  destruct (proj1 (resolveCredentials_spec _ _ _ _ Hres) _ _ Hv) as (c & sec & Hc' & Ec & _ & Hg & Hl & Hvs).
  exists c, sec. by split_and!.
Qed.

(** Ready is earned: a reconcile reports the resource ready only when the
    wiring is complete, every object was applied without error, and the deployment
    has been observed at its current generation with a replica available. *)
Theorem ready_means_available setup now api random writer s st st' c :
  api_server api = Ok (Some (s, st)) → ks_Deleting s = false →
  let r := Reconcile sha256 setup now api random writer in
  rc_status r = Some st' → conditionByType (ss_Conditions st') ConditionReady = Some c → c_Status c = true →
  Missing (os_Wiring setup) = [] ∧
  ∃ desired generation observed replicas,
    Adapter_Apply (api_object api) (api_write_fails api) s desired (os_Wiring setup) (os_Extra setup) = (rc_writes r, Ok ()) ∧
    api_deployment api = KFound (generation, observed, replicas) ∧ generation <= observed ∧ 0 < replicas.
Proof.
  intros Hs Hd r Hst Hc Ht. destruct (Reconcile_shape setup now api random writer s st Hs Hd) as (resolved & failures & os & err & _ & _ & _ & Hstat).
  fold r in Hstat. destruct (Hstat _ Hst) as (ready & Hty & -> & Hready). unfold setReady in Hc. cbn [ss_Conditions] in Hc.
  rewrite setCondition_other in Hc by (unfold degradedCondition; destruct (ks_Credentials s); [done|by destruct (forallb _ _)]).
  destruct (setCondition_finds now (ss_Conditions st) ready) as [t Hf]. rewrite Hty, Hc in Hf. injection Hf as ->.
  destruct (Hready Ht) as (token & g & o & n & Hm & Ha & Hdep & Hav). split; [done|].
  unfold deployment_available in Hav. apply andb_true_iff in Hav as [Hg Hn].
  eexists _, g, o, n. split; [exact Ha|]. split; [done|]. lia.
Qed.

(** A broken credential is loud and alone: the status a reconcile sends has one
    entry per declared credential, in order; an entry marked Pushed is held by the
    gateway, any other names the reason; and the resource is Degraded exactly when
    some entry is not Pushed. *)
Theorem credentials_reported D setup now api random writer s st st' :
  writer_ok D writer → NoDup (cs_Name <$> ks_Credentials s) →
  api_server api = Ok (Some (s, st)) → ks_Deleting s = false →
  let r := Reconcile sha256 setup now api random writer in
  rc_status r = Some st' →
  Forall2 (λ cred entry, fst entry = cs_Name cred ∧
    ∃ c, conditionByType (snd entry) ConditionPushed = Some c ∧
      if c_Status c
      then ∃ values, held D (rc_writer r) (mkRecord (cs_Name cred) (ProviderName (ks_Namespace s) (ks_Name s) (cs_Name cred))
                                           (cs_ProviderType cred) (cs_HostPatterns cred) values)
      else c_Reason c ≠ ""%string) (ks_Credentials s) (ss_Credentials st') ∧
  ∃ d, conditionByType (ss_Conditions st') ConditionDegraded = Some d ∧
    (c_Status d = true ↔ ∃ entry c, entry ∈ ss_Credentials st' ∧
       conditionByType (snd entry) ConditionPushed = Some c ∧ c_Status c = false).
Proof.
  intros Hw Hn Hs Hd r Hst.
  destruct (Reconcile_shape setup now api random writer s st Hs Hd) as (resolved & failures & os & err & Hres & Hp & _ & Hstat).
  fold r in Hp, Hstat. destruct (Hstat _ Hst) as (ready & Hty & -> & _). clear Hstat Hst.
  unfold setReady. cbn [ss_Credentials ss_Conditions]. set (m := mergeOutcomes s failures os). split.
  - unfold credentialsStatus. apply (Forall2_fmap_r (credentialStatus _ _ _ _)). apply Forall_Forall2_diag. rewrite Forall_forall.
    intros cred Hc. split; [done|]. destruct (credentialStatus_pushed now (ks_Generation s) m (previous (ss_Credentials st)) cred) as (c & Hf & Hpu & Hr).
    exists c. split; [done|].
    destruct (mergeOutcomes_spec s failures os cred Hc) as [Hm1 Hm2].
    { destruct (proj2 (resolveCredentials_spec _ _ _ _ Hres) cred Hc) as [[v Hv]|]; [right|by left].
      by eapply (pass_reported D s writer). }
    fold m in Hm1, Hm2. rewrite <-Hpu in Hm1. destruct (c_Status c); [|by rewrite Hr].
    destruct (Hm1 eq_refl) as (o & Ho & Hpo & Eo).
    destruct (pass_resolved D s writer Hw Hn _ _ _ _ Hp o Ho) as [v Hv]. exists v. rewrite Eo in Hv.
    by eapply (pass_pushed_held D s writer).
  - assert (c_Type (degradedCondition (ks_Credentials s) m) = ConditionDegraded) as Hdt.
    { unfold degradedCondition. destruct (ks_Credentials s); [done|]. by destruct (forallb _ _). }
    destruct (setCondition_finds now (setCondition now (ss_Conditions st) ready) (degradedCondition (ks_Credentials s) m)) as [t Hf].
    rewrite Hdt in Hf. eexists. split; [exact Hf|]. cbn [with_time c_Status]. rewrite degradedCondition_iff. split.
    + intros (cred & Hin & Hb). destruct (credentialStatus_pushed now (ks_Generation s) m (previous (ss_Credentials st)) cred) as (c & Hc & Hpu & _).
      eexists _, c. split; [by apply list_elem_of_fmap_2|]. split; [exact Hc|congruence].
    + intros (entry & c & Hin & Hc & Hb). apply list_elem_of_fmap in Hin as (cred & -> & Hin). exists cred. split; [done|].
      destruct (credentialStatus_pushed now (ks_Generation s) m (previous (ss_Credentials st)) cred) as (c' & Hc' & Hpu & _). congruence.
Qed.

End Truthful.

(** ** A cluster *)

Definition team_secret (ns name : string) : k8s_get Secret :=
  if String.eqb ns "team-a" && String.eqb name "gh-token"
  then KFound (mkSecret {[ CredentialLabel := CredentialLabelValue ]} {[ "token"%string := "t"%string ]})
  else KNotFound.

Definition team_api (secret : string → string → k8s_get Secret) : Api :=
  mkApi (Ok (Some (team_server, mkStatus [] [] 0))) secret (stored []) (λ _, None) (λ _, TAccepted) (KFound (1, 1, 1)) (λ _, None).

Definition team_setup : OperatorSetup := mkSetup team_wiring true (mkExtra [] None).

Definition team_pass (secret : string → string → k8s_get Secret) : @Reconciled MemGateway :=
  @Reconcile MemGateway (λ s, s) team_setup 7 (team_api secret) (Some "r"%string) (Some (@mkW MemGateway (mkMemGW ∅ ∅ []) ∅)).

Lemma team_memory : remembers (H := MemGateway) (λ s, s) ∅ (@mkW MemGateway (mkMemGW ∅ ∅ []) ∅).
Proof. intros n fp _ Hn. cbn in Hn. by rewrite lookup_empty in Hn. Qed.

Lemma rendered_bindings_are_held_witness :
  length (rc_writes (team_pass team_secret)) = 5%nat ∧
  ∃ pushed, writer_ok (H := MemGateway) (λ s, s) (∅ ∪ not_rendered team_server pushed) (rc_writer (team_pass team_secret)).
Proof.
  destruct (@rendered_bindings_are_held MemGateway (λ s, s) ∅ team_setup 7 (team_api team_secret) (Some "r"%string)
    (Some (@mkW MemGateway (mkMemGW ∅ ∅ []) ∅)) team_server (mkStatus [] [] 0)) as (pushed & Hw & _).
  - exact team_memory.
  - apply NoDup_singleton.
  - reflexivity.
  - reflexivity.
  - split; [vm_compute; reflexivity|]. exists pushed. exact Hw.
Defined.

Lemma ready_means_available_witness :
  Missing team_wiring = [] ∧ ∃ c, conditionByType (ss_Conditions (default (mkStatus [] [] 0) (rc_status (team_pass team_secret))))
    ConditionReady = Some c ∧ c_Status c = true.
Proof.
  split; [|eexists; split; vm_compute; reflexivity].
  apply (@ready_means_available MemGateway (λ s, s) team_setup 7 (team_api team_secret) (Some "r"%string)
    (Some (@mkW MemGateway (mkMemGW ∅ ∅ []) ∅)) team_server (mkStatus [] [] 0)
    (default (mkStatus [] [] 0) (rc_status (team_pass team_secret))) (mkCond ConditionReady true "Deployed" 1 7));
    first [reflexivity | vm_compute; reflexivity].
Defined.

(** Without the secret the credential is reported, and the resource is degraded and
    deployed. *)
Lemma credentials_reported_witness :
  let st' := default (mkStatus [] [] 0) (rc_status (team_pass (λ _ _, KNotFound))) in
  (∃ d, conditionByType (ss_Conditions st') ConditionDegraded = Some d ∧ c_Status d = true) ∧
  ∃ entry c, entry ∈ ss_Credentials st' ∧ conditionByType (snd entry) ConditionPushed = Some c ∧ c_Status c = false.
Proof.
  intros st'.
  destruct (@credentials_reported MemGateway (λ s, s) ∅ team_setup 7 (team_api (λ _ _, KNotFound)) (Some "r"%string)
    (Some (@mkW MemGateway (mkMemGW ∅ ∅ []) ∅)) team_server (mkStatus [] [] 0) st') as [_ (d & Hd & Hiff)].
  - exact team_memory.
  - apply NoDup_singleton.
  - reflexivity.
  - reflexivity.
  - vm_compute. reflexivity.
  - assert (conditionByType (ss_Conditions st') ConditionDegraded = Some (mkCond ConditionDegraded true "CredentialsDegraded" 0 7)) as Ed
      by (vm_compute; reflexivity).
    rewrite Ed in Hd. injection Hd as <-. split; [eexists; split; [exact Ed|reflexivity]|]. by apply Hiff.
Defined.
