(* ===== verification/OperatorMain.v ===== *)
(** * The operator as a process (src/operator/cmd/main.go, src/operator/cmd/playground)

    The operator's flags, the environment names they are bound to, the wiring every
    rendered controller receives, the connection to the gateway and the order in which
    [main] sets up its controllers.  The parser that binds flags to the environment is
    a third-party package: it is a parameter, with what its documentation promises as
    hypotheses, and an instance that meets them.  Composed with [OperatorRender], a
    variable of the operator's environment is followed into the process of a rendered
    controller. *)

From Stdlib Require Import Ascii String ZArith.
From S2P Require Import Prelude Json GoTime GoStrings Flags Config Policy ServerConfig OperatorRender.
From stdpp Require Import base list strings numbers gmap.
Local Open Scope Z_scope.
Local Open Scope go_scope.

(** ** Configuration *)

Record config : Type := mkOpConfig {
  oc_MetricsAddr : string; oc_HealthProbeAddr : string; oc_LeaderElect : bool; oc_MaxConcurrentReconciles : Z;
  oc_KapeConfigNamespace : string; oc_KapeConfigName : string;
  oc_ControllerGatewayAddr : string; oc_ControllerCredsDir : string; oc_ControllerCredsSecret : string;
  oc_ControllerDefaultProvider : string; oc_ControllerTransport : string; oc_ControllerEventStore : string;
  oc_ControllerExtraEnv : string; oc_ControllerExtraEnvFrom : string;
  oc_OpenShellGatewayAddr : string; oc_OpenShellCredsDir : string; oc_OpenShellWorkspace : string
}.

(** What [newFlagSet] leaves in a configuration before anything is parsed. *)
Definition flag_defaults : config :=
  mkOpConfig ":8080" ":8081" true 3 "kape-system" "kape-config" "" "" "" "" "" "" "" "" "" "" "default".

Definition with_process (metrics health : string) (leader : bool) (max : Z) (ns name : string) (c : config) : config :=
  mkOpConfig metrics health leader max ns name (oc_ControllerGatewayAddr c) (oc_ControllerCredsDir c)
    (oc_ControllerCredsSecret c) (oc_ControllerDefaultProvider c) (oc_ControllerTransport c) (oc_ControllerEventStore c)
    (oc_ControllerExtraEnv c) (oc_ControllerExtraEnvFrom c) (oc_OpenShellGatewayAddr c) (oc_OpenShellCredsDir c)
    (oc_OpenShellWorkspace c).

Definition with_wiring (addr dir secret provider transport store : string) (c : config) : config :=
  mkOpConfig (oc_MetricsAddr c) (oc_HealthProbeAddr c) (oc_LeaderElect c) (oc_MaxConcurrentReconciles c)
    (oc_KapeConfigNamespace c) (oc_KapeConfigName c) addr dir secret provider transport store
    (oc_ControllerExtraEnv c) (oc_ControllerExtraEnvFrom c) (oc_OpenShellGatewayAddr c) (oc_OpenShellCredsDir c)
    (oc_OpenShellWorkspace c).

Definition with_rest (env from addr dir workspace : string) (c : config) : config :=
  mkOpConfig (oc_MetricsAddr c) (oc_HealthProbeAddr c) (oc_LeaderElect c) (oc_MaxConcurrentReconciles c)
    (oc_KapeConfigNamespace c) (oc_KapeConfigName c) (oc_ControllerGatewayAddr c) (oc_ControllerCredsDir c)
    (oc_ControllerCredsSecret c) (oc_ControllerDefaultProvider c) (oc_ControllerTransport c) (oc_ControllerEventStore c)
    env from addr dir workspace.

Section Flags.
Context (other_int : string → Z * bool).

Definition process_flags : list (flag_def config) :=
  [ StringVar "metrics-bind-address" (λ s c, with_process s (oc_HealthProbeAddr c) (oc_LeaderElect c)
      (oc_MaxConcurrentReconciles c) (oc_KapeConfigNamespace c) (oc_KapeConfigName c) c);
    StringVar "health-probe-bind-address" (λ s c, with_process (oc_MetricsAddr c) s (oc_LeaderElect c)
      (oc_MaxConcurrentReconciles c) (oc_KapeConfigNamespace c) (oc_KapeConfigName c) c);
    BoolVar "leader-elect" (λ b c, with_process (oc_MetricsAddr c) (oc_HealthProbeAddr c) b
      (oc_MaxConcurrentReconciles c) (oc_KapeConfigNamespace c) (oc_KapeConfigName c) c);
    IntVar other_int "max-concurrent-reconciles" (λ n c, with_process (oc_MetricsAddr c) (oc_HealthProbeAddr c)
      (oc_LeaderElect c) n (oc_KapeConfigNamespace c) (oc_KapeConfigName c) c);
    StringVar "kape-config-namespace" (λ s c, with_process (oc_MetricsAddr c) (oc_HealthProbeAddr c) (oc_LeaderElect c)
      (oc_MaxConcurrentReconciles c) s (oc_KapeConfigName c) c);
    StringVar "kape-config-name" (λ s c, with_process (oc_MetricsAddr c) (oc_HealthProbeAddr c) (oc_LeaderElect c)
      (oc_MaxConcurrentReconciles c) (oc_KapeConfigNamespace c) s c) ].

Definition wiring_flags : list (flag_def config) :=
  [ StringVar "controller-gateway-addr" (λ s c, with_wiring s (oc_ControllerCredsDir c) (oc_ControllerCredsSecret c)
      (oc_ControllerDefaultProvider c) (oc_ControllerTransport c) (oc_ControllerEventStore c) c);
    StringVar "controller-creds-dir" (λ s c, with_wiring (oc_ControllerGatewayAddr c) s (oc_ControllerCredsSecret c)
      (oc_ControllerDefaultProvider c) (oc_ControllerTransport c) (oc_ControllerEventStore c) c);
    StringVar "controller-default-provider" (λ s c, with_wiring (oc_ControllerGatewayAddr c) (oc_ControllerCredsDir c)
      (oc_ControllerCredsSecret c) s (oc_ControllerTransport c) (oc_ControllerEventStore c) c);
    StringVar "controller-creds-secret" (λ s c, with_wiring (oc_ControllerGatewayAddr c) (oc_ControllerCredsDir c) s
      (oc_ControllerDefaultProvider c) (oc_ControllerTransport c) (oc_ControllerEventStore c) c);
    StringVar "controller-transport" (λ s c, with_wiring (oc_ControllerGatewayAddr c) (oc_ControllerCredsDir c)
      (oc_ControllerCredsSecret c) (oc_ControllerDefaultProvider c) s (oc_ControllerEventStore c) c);
    StringVar "controller-event-store" (λ s c, with_wiring (oc_ControllerGatewayAddr c) (oc_ControllerCredsDir c)
      (oc_ControllerCredsSecret c) (oc_ControllerDefaultProvider c) (oc_ControllerTransport c) s c) ].

Definition rest_flags : list (flag_def config) :=
  [ StringVar "controller-extra-env" (λ s c, with_rest s (oc_ControllerExtraEnvFrom c) (oc_OpenShellGatewayAddr c)
      (oc_OpenShellCredsDir c) (oc_OpenShellWorkspace c) c);
    StringVar "controller-extra-env-from" (λ s c, with_rest (oc_ControllerExtraEnv c) s (oc_OpenShellGatewayAddr c)
      (oc_OpenShellCredsDir c) (oc_OpenShellWorkspace c) c);
    StringVar "openshell-gateway-addr" (λ s c, with_rest (oc_ControllerExtraEnv c) (oc_ControllerExtraEnvFrom c) s
      (oc_OpenShellCredsDir c) (oc_OpenShellWorkspace c) c);
    StringVar "openshell-creds-dir" (λ s c, with_rest (oc_ControllerExtraEnv c) (oc_ControllerExtraEnvFrom c)
      (oc_OpenShellGatewayAddr c) s (oc_OpenShellWorkspace c) c);
    StringVar "openshell-workspace" (λ s c, with_rest (oc_ControllerExtraEnv c) (oc_ControllerExtraEnvFrom c)
      (oc_OpenShellGatewayAddr c) (oc_OpenShellCredsDir c) s c) ].

Definition newFlagSet : list (flag_def config) := process_flags ++ wiring_flags ++ rest_flags.
End Flags.

(** The variable a flag is bound to: the prefix, then the name in capitals with
    underscores. *)
Definition operatorEnvVarPrefix : string := "KAPE_OPERATOR".

Definition env_char (c : ascii) : ascii :=
  if existsb (Ascii.eqb c) ["-"; "."; "/"]%char then "_"%char else upper_ascii c.

Definition envNameForFlag (name : string) : string :=
  operatorEnvVarPrefix +:+ "_" +:+ string_of_list_ascii (env_char <$> chars name).

(** The settings of the environment: the flags not given as arguments whose variable is
    not empty. *)
Definition env_settings (fs : list (flag_def config)) (given : list string) (environ : string → string) :
    list (bool * string * string) :=
  omap (λ f, let v := environ (envNameForFlag (fd_name f)) in
             if existsb (String.eqb (fd_name f)) given || String.eqb v "" then None else Some (true, fd_name f, v)) fs.

(** ** Wiring and the gateway connection *)

Section Wiring.
(** [encoding/json] into the Kubernetes types, by the text. *)
Context (extra_env_of : string → option (list EnvVar)) (extra_from_ok : string → bool).

Definition controllerWiring (c : config) : res string ControllerWiring :=
  let? extra :=
    (if String.eqb (oc_ControllerExtraEnv c) "" then Ok []
     else match extra_env_of (oc_ControllerExtraEnv c) with Some l => Ok l | None => Err "controller-extra-env"%string end) in
  if negb (String.eqb (oc_ControllerExtraEnvFrom c) "") && negb (extra_from_ok (oc_ControllerExtraEnvFrom c))
  then Err "controller-extra-env-from"%string
  else Ok (mkWiring (oc_ControllerGatewayAddr c) (oc_ControllerCredsDir c) (oc_ControllerCredsSecret c)
             (oc_ControllerDefaultProvider c) (oc_ControllerTransport c) (oc_ControllerEventStore c) extra).
End Wiring.

Inductive writer_err : Type := EmptyDir | Unreadable (file : string) | BadPair | BadCA | NoDial.

Section Writer.
Context (file : string → option string) (pair_ok : string → string → bool) (ca_ok : string → bool) (dial : string → bool).

Definition read_file (path : string) : res writer_err string :=
  match file path with Some text => Ok text | None => Err (Unreadable path) end.

(** The certificate, the key and the authority the connection uses. *)
Definition loadMtlsConfig (dir : string) : res writer_err (string * string * string) :=
  if String.eqb dir "" then Err EmptyDir
  else
    let? ca := read_file (dir +:+ "/ca.crt") in
    let? cert := read_file (dir +:+ "/tls.crt") in
    let? key := read_file (dir +:+ "/tls.key") in
    if negb (pair_ok cert key) then Err BadPair
    else if negb (ca_ok ca) then Err BadCA
    else Ok (cert, key, ca).

(** The address and the workspace of the writer; an empty workspace is the default
    one. *)
Definition newOpenShellWriter (c : config) : res writer_err (option (string * string)) :=
  if String.eqb (oc_OpenShellGatewayAddr c) "" then Ok None
  else
    let? _ := loadMtlsConfig (oc_OpenShellCredsDir c) in
    if negb (dial (oc_OpenShellGatewayAddr c)) then Err NoDial
    else Ok (Some (oc_OpenShellGatewayAddr c, or_default (oc_OpenShellWorkspace c) "default")).
End Writer.

(** ** Start-up *)

(** The parts that are set up, in the order of the code. *)
Inductive setup : Type :=
| NewManager | NewDiscovery | SetupTool | SetupSchema | SetupSkill | SetupHandler | SetupKapeProxy | SetupAgentServer
| Healthz | Readyz | StartManager.

Inductive op_err : Type :=
| ParseFailed
| SetupFailed (s : setup)
| WiringFailed (flag : string)
| WriterFailed (e : writer_err).

Record operator : Type := mkOperator {
  op_config : config; op_wiring : ControllerWiring; op_writer : option (string * string)
}.

Fixpoint run_setups (ok : setup → bool) (l : list setup) : res op_err unit :=
  match l with
  | [] => Ok tt
  | s :: rest => if ok s then run_setups ok rest else Err (SetupFailed s)
  end.

Section Main.
Context (other_int : string → Z * bool).
Context (extra_env_of : string → option (list EnvVar)) (extra_from_ok : string → bool).
Context (file : string → option string) (pair_ok : string → string → bool) (ca_ok : string → bool) (dial : string → bool).
(** The parser: flags, arguments, environment, and the configuration to fill; [None]
    is an error or the exit of the process. *)
Context (ff_Parse : list (flag_def config) → list string → (string → string) → config → option config).

Definition parseConfig (args : list string) (environ : string → string) : option config :=
  ff_Parse (newFlagSet other_int) args environ flag_defaults.

Definition main (ok : setup → bool) (args : list string) (environ : string → string) : res op_err operator :=
  match parseConfig args environ with
  | None => Err ParseFailed
  | Some c =>
      let? _ := run_setups ok [NewManager; NewDiscovery; SetupTool; SetupSchema; SetupSkill; SetupHandler; SetupKapeProxy] in
      match controllerWiring extra_env_of extra_from_ok c with
      | Err f => Err (WiringFailed f)
      | Ok w =>
          match newOpenShellWriter file pair_ok ca_ok dial c with
          | Err e => Err (WriterFailed e)
          | Ok writer =>
              let? _ := run_setups ok [SetupAgentServer; Healthz; Readyz; StartManager] in
              Ok (mkOperator c w writer)
          end
      end
  end.

(** What the parser's documentation promises.  Arguments are read first, and what the
    flag package refuses is refused. *)
Hypothesis ff_args : ∀ fs args environ c,
  snd (parse_flags fs args c) ≠ FlagsDone → ff_Parse fs args environ c = None.
(** Flags that were not given take their variable, in some order; without a flag for
    it there is no configuration file. *)
Hypothesis ff_precedence : ∀ fs ss environ c,
  let es := env_settings fs ((λ s, s.1.2) <$> ss) environ in
  lookup_flag fs "config" = None → Forall (accepted fs) ss → Forall (accepted fs) es →
  ∃ es', es' ≡ₚ es ∧ ff_Parse fs (ss ≫= spelled) environ c = Some (apply_settings fs es' (apply_settings fs ss c)).

(** ** What is shown *)

(** The value of a text flag: the last argument, else its variable, else the
    default. *)
Definition setting (ss : list (bool * string * string)) (environ : string → string) (n d : string) : string :=
  match last_of n ss with Some v => v | None => or_default (environ (envNameForFlag n)) d end.

Lemma existsb_given n ss : existsb (String.eqb n) ((λ s : bool * string * string, s.1.2) <$> ss) = bool_decide (is_Some (last_of n ss)).
Proof.
  unfold last_of. induction ss as [|s ss IH] using rev_ind; [done|].
  rewrite fmap_app, existsb_app, IH, filter_app, fmap_app. cbn [fmap list_fmap existsb].
  rewrite filter_cons, filter_nil. destruct (String.eqb_spec n s.1.2) as [->|Hn].
  - rewrite decide_True by done. cbn [fmap list_fmap]. rewrite last_snoc. rewrite (bool_decide_true (is_Some (Some _))) by (by eexists). apply orb_true_r.
  - rewrite decide_False by done. cbn. by rewrite app_nil_r, !orb_false_r.
Qed.

Lemma env_settings_cons f fs given environ :
  env_settings (f :: fs) given environ =
    let v := environ (envNameForFlag (fd_name f)) in
    if existsb (String.eqb (fd_name f)) given || String.eqb v "" then env_settings fs given environ
    else (true, fd_name f, v) :: env_settings fs given environ.
Proof. unfold env_settings. cbn [omap list_omap]. by destruct (_ || _). Qed.

(** The settings of the environment for one name. *)
Lemma env_settings_of fs given environ n :
  NoDup (fd_name <$> fs) →
  snd <$> filter (λ s, s.1.2 = n) (env_settings fs given environ) =
    let v := environ (envNameForFlag n) in
    if existsb (String.eqb n) given || String.eqb v "" then []
    else if existsb (String.eqb n) (fd_name <$> fs) then [v] else [].
Proof.
  cbn zeta. induction fs as [|f fs IH]; intros Hd; [cbn; by destruct (_ || _)|].
  rewrite fmap_cons in Hd |- *. apply NoDup_cons in Hd as [Hf Hd]. specialize (IH Hd).
  rewrite env_settings_cons. cbn [existsb]. cbn zeta.
  destruct (String.eqb_spec n (fd_name f)) as [->|Hn].
  - destruct (existsb (String.eqb (fd_name f)) given || _) eqn:E; cbn [orb]; [by rewrite IH|].
    rewrite filter_cons, decide_True, fmap_cons by done.
    assert (existsb (String.eqb (fd_name f)) (fd_name <$> fs) = false) as Hx.
    { apply not_true_iff_false. intros (m & Hm%list_elem_of_In & <-%String.eqb_eq)%existsb_exists. done. }
    rewrite Hx in IH. by rewrite IH.
  - cbn [orb]. destruct (existsb (String.eqb (fd_name f)) given || _); [done|].
    rewrite filter_cons, decide_False by (cbn; congruence). done.
Qed.

Lemma last_of_perm n es es' v : es' ≡ₚ es →
  snd <$> filter (λ s : bool * string * string, s.1.2 = n) es = v → (length v ≤ 1)%nat → last_of n es' = last v.
Proof.
  intros Hp Hv Hl. unfold last_of. assert (snd <$> filter (λ s, s.1.2 = n) es' ≡ₚ v) as Hq by (by rewrite Hp, Hv).
  destruct v as [|x [|y v]]; cbn in Hl; [|..|lia].
  - by apply Permutation_nil_r in Hq as ->.
  - by apply Permutation_singleton_r in Hq as ->.
Qed.

Lemma flag_names_distinct : NoDup (fd_name <$> newFlagSet other_int).
Proof. apply (bool_decide_eq_true_1 _). vm_compute. reflexivity. Qed.

(** A text field after arguments and environment. *)
Lemma text_field (get : config → string) n ss environ es' c :
  (∀ s c, get (set_one (newFlagSet other_int) c s) = if String.eqb s.1.2 n then id s.2 else get c) →
  existsb (String.eqb n) (fd_name <$> newFlagSet other_int) = true →
  es' ≡ₚ env_settings (newFlagSet other_int) ((λ s, s.1.2) <$> ss) environ →
  get (apply_settings (newFlagSet other_int) es' (apply_settings (newFlagSet other_int) ss c)) = setting ss environ n (get c).
Proof.
  intros Hf Hn Hp. rewrite !(settings_field _ get id n) by apply Hf. unfold id, setting, or_default.
  rewrite (last_of_perm n _ _ _ Hp (env_settings_of _ _ _ n flag_names_distinct)) by (cbn zeta; by repeat case_match; cbn; lia).
  cbn zeta. rewrite existsb_given, Hn. destruct (last_of n ss); [by rewrite bool_decide_true|].
  rewrite bool_decide_false by (by intros []). cbn [orb]. by destruct (String.eqb _ "").
Qed.

(** A text field of a configuration that was parsed. *)
Lemma parsed_text (get : config → string) n ss environ c :
  Forall (accepted (newFlagSet other_int)) ss →
  Forall (accepted (newFlagSet other_int)) (env_settings (newFlagSet other_int) ((λ s, s.1.2) <$> ss) environ) →
  parseConfig (ss ≫= spelled) environ = Some c →
  (∀ s c, get (set_one (newFlagSet other_int) c s) = if String.eqb s.1.2 n then id s.2 else get c) →
  existsb (String.eqb n) (fd_name <$> newFlagSet other_int) = true →
  get c = setting ss environ n (get flag_defaults).
Proof.
  intros Hs He Hc Hf Hn. destruct (ff_precedence (newFlagSet other_int) ss environ flag_defaults eq_refl Hs He) as (es' & Hp & E).
  unfold parseConfig in Hc. rewrite E in Hc. injection Hc as <-. by apply text_field.
Qed.

Ltac text_flag get n Hs He Hc :=
  refine (parsed_text get n _ _ _ Hs He Hc _ eq_refl);
  unfold newFlagSet, process_flags, wiring_flags, rest_flags; flag_cases.

Lemma run_setups_ok ok l u : run_setups ok l = Ok u → Forall (λ s, ok s = true) l.
Proof. induction l as [|s l IH]; cbn; [done|]. destruct (ok s) eqn:E; [|done]. intros H. constructor; [done|by apply IH]. Qed.

Lemma wiring_fields c w : controllerWiring extra_env_of extra_from_ok c = Ok w →
  w = mkWiring (oc_ControllerGatewayAddr c) (oc_ControllerCredsDir c) (oc_ControllerCredsSecret c)
        (oc_ControllerDefaultProvider c) (oc_ControllerTransport c) (oc_ControllerEventStore c) (cw_ExtraEnv w).
Proof. unfold controllerWiring. intros. repeat case_match; by simplify_eq. Qed.

Lemma or_default_empty v : or_default v "" = v.
Proof. unfold or_default. by destruct (String.eqb_spec v ""). Qed.

(** The wiring fields of a configuration that was parsed. *)
Lemma parsed_wiring ss environ c :
  Forall (accepted (newFlagSet other_int)) ss →
  Forall (accepted (newFlagSet other_int)) (env_settings (newFlagSet other_int) ((λ s, s.1.2) <$> ss) environ) →
  parseConfig (ss ≫= spelled) environ = Some c →
  oc_ControllerGatewayAddr c = setting ss environ "controller-gateway-addr" "" ∧
  oc_ControllerCredsDir c = setting ss environ "controller-creds-dir" "" ∧
  oc_ControllerCredsSecret c = setting ss environ "controller-creds-secret" "" ∧
  oc_ControllerDefaultProvider c = setting ss environ "controller-default-provider" "" ∧
  oc_ControllerTransport c = setting ss environ "controller-transport" "" ∧
  oc_ControllerEventStore c = setting ss environ "controller-event-store" "".
Proof.
  intros Hs He Hc. split_and!;
    [text_flag oc_ControllerGatewayAddr "controller-gateway-addr"%string Hs He Hc
    |text_flag oc_ControllerCredsDir "controller-creds-dir"%string Hs He Hc
    |text_flag oc_ControllerCredsSecret "controller-creds-secret"%string Hs He Hc
    |text_flag oc_ControllerDefaultProvider "controller-default-provider"%string Hs He Hc
    |text_flag oc_ControllerTransport "controller-transport"%string Hs He Hc
    |text_flag oc_ControllerEventStore "controller-event-store"%string Hs He Hc].
Qed.

(** Arguments over environment over defaults, for the wiring of every rendered
    controller and for the operator's own gateway connection. *)
Theorem operator_settings ss environ :
  Forall (accepted (newFlagSet other_int)) ss →
  Forall (accepted (newFlagSet other_int)) (env_settings (newFlagSet other_int) ((λ s, s.1.2) <$> ss) environ) →
  ∃ c, parseConfig (ss ≫= spelled) environ = Some c ∧
    oc_ControllerGatewayAddr c = setting ss environ "controller-gateway-addr" "" ∧
    oc_ControllerCredsDir c = setting ss environ "controller-creds-dir" "" ∧
    oc_ControllerCredsSecret c = setting ss environ "controller-creds-secret" "" ∧
    oc_ControllerDefaultProvider c = setting ss environ "controller-default-provider" "" ∧
    oc_ControllerTransport c = setting ss environ "controller-transport" "" ∧
    oc_ControllerEventStore c = setting ss environ "controller-event-store" "" ∧
    oc_OpenShellGatewayAddr c = setting ss environ "openshell-gateway-addr" "" ∧
    oc_OpenShellWorkspace c = setting ss environ "openshell-workspace" "default".
Proof.
  intros Hs He. destruct (ff_precedence (newFlagSet other_int) ss environ flag_defaults eq_refl Hs He) as (es' & _ & Hc).
  eexists. split; [exact Hc|]. destruct (parsed_wiring _ _ _ Hs He Hc) as (E1 & E2 & E3 & E4 & E5 & E6).
  split_and!; [exact E1|exact E2|exact E3|exact E4|exact E5|exact E6
    |text_flag oc_OpenShellGatewayAddr "openshell-gateway-addr"%string Hs He Hc
    |text_flag oc_OpenShellWorkspace "openshell-workspace"%string Hs He Hc].
Qed.

(** There is no flag for a configuration file: the documented [--config] stops the
    operator. *)
Theorem config_flag_refused ss path rest ok environ :
  Forall (accepted (newFlagSet other_int)) ss →
  main ok ((ss ≫= spelled) ++ ("-config=" +:+ path) :: rest) environ = Err ParseFailed.
Proof.
  intros Hs. unfold main, parseConfig. rewrite ff_args; [done|].
  change (("-config=" +:+ path) :: rest) with (spelled (true, "config", path)%string ++ rest).
  rewrite parse_settings, parse_undefined; [done| |done|done]. by eapply flag_name_ok; [reflexivity| |vm_compute].
Qed.

(** A running operator: the wiring is the configuration's, and there is a credential
    writer exactly when a gateway is configured. *)
Theorem running_operator ok args environ o :
  main ok args environ = Ok o →
  parseConfig args environ = Some (op_config o) ∧
  controllerWiring extra_env_of extra_from_ok (op_config o) = Ok (op_wiring o) ∧
  (op_writer o = None ↔ oc_OpenShellGatewayAddr (op_config o) = ""%string) ∧
  Forall (λ s, ok s = true) [NewManager; NewDiscovery; SetupTool; SetupSchema; SetupSkill; SetupHandler; SetupKapeProxy;
    SetupAgentServer; Healthz; Readyz; StartManager].
Proof.
  unfold main. destruct (parseConfig args environ) as [c|]; [|done].
  destruct (run_setups ok _) as [u1|] eqn:E1; [|done].
  destruct (controllerWiring _ _ c) as [w|] eqn:Ew; [|done].
  destruct (newOpenShellWriter _ _ _ _ c) as [wr|] eqn:En; [|done].
  destruct (run_setups ok [SetupAgentServer; _; _; _]) as [u2|] eqn:E2; [|done]. intros [= <-]. cbn.
  split_and!; [done|done| |].
  - unfold newOpenShellWriter in En. destruct (String.eqb_spec (oc_OpenShellGatewayAddr c) ""); [by simplify_eq|].
    repeat case_match; by simplify_eq.
  - apply run_setups_ok in E1, E2. rewrite !Forall_cons in *. tauto.
Qed.

(** The keys whose value is empty, before and after the values are looked up. *)
Lemma filter_mapped (g : string → string) (l : list (string * string)) :
  (filter (λ kv, kv.2 = ""%string) ((λ kf, (kf.1, g kf.2)) <$> l)).*1 = (filter (λ kf, g kf.2 = ""%string) l).*1.
Proof.
  induction l as [|[k f] l IH]; [done|]. rewrite fmap_cons, !filter_cons. cbn [fst snd].
  by case_decide; rewrite ?fmap_cons, IH.
Qed.

(** The wiring that was left out is what the resources report: the names of the
    controller's settings whose flag and variable are both missing. *)
Theorem unset_wiring_reported ss environ c w :
  Forall (accepted (newFlagSet other_int)) ss →
  Forall (accepted (newFlagSet other_int)) (env_settings (newFlagSet other_int) ((λ s, s.1.2) <$> ss) environ) →
  parseConfig (ss ≫= spelled) environ = Some c → controllerWiring extra_env_of extra_from_ok c = Ok w →
  Missing w =
    (filter (λ kf, setting ss environ kf.2 "" = ""%string)
      [ ("KAPE_GATEWAY_ADDR", "controller-gateway-addr"); ("KAPE_CREDS_DIR", "controller-creds-dir");
        ("KAPE_CREDS_SECRET", "controller-creds-secret"); ("KAPE_DEFAULT_PROVIDER", "controller-default-provider");
        ("KAPE_TRANSPORT", "controller-transport"); ("KAPE_EVENT_STORE", "controller-event-store") ]%string).*1.
Proof.
  intros Hs He Hc Hw. destruct (parsed_wiring ss environ c Hs He Hc) as (E1 & E2 & E3 & E4 & E5 & E6).
  rewrite <- (filter_mapped (λ n, setting ss environ n "")). rewrite (wiring_fields c w Hw). unfold Missing, wiring_checks.
  cbn [cw_GatewayAddr cw_CredsDir cw_CredsSecret cw_DefaultProvider cw_Transport cw_EventStore].
  by rewrite E1, E2, E3, E4, E5, E6.
Qed.

(** The last argument of a flag, else a variable of the operator. *)
Definition arg_or_var (ss : list (bool * string * string)) (environ : string → string) (flag var : string) : string :=
  match last_of flag ss with Some v => v | None => environ var end.

(** C27. A setting of the operator is a setting of the controllers: when every argument and
    every variable is one its flag accepts and the extra variables decode, the last
    argument, else the variable, is what the process of a rendered controller reads as
    its gateway, credentials, provider, transport and event log.  Whatever the extra
    variables and sources are, they shadow none of these. *)
Theorem operator_env_reaches_controller ss environ c w json_text ce s records token :
  Forall (accepted (newFlagSet other_int)) ss →
  Forall (accepted (newFlagSet other_int)) (env_settings (newFlagSet other_int) ((λ s, s.1.2) <$> ss) environ) →
  parseConfig (ss ≫= spelled) environ = Some c → controllerWiring extra_env_of extra_from_ok c = Ok w →
  let env := process_env ce (controllerEnv (deploymentEnv s records token) w) in
  let from := arg_or_var ss environ in
  Getenv json_text env "KAPE_GATEWAY_ADDR" = from "controller-gateway-addr" "KAPE_OPERATOR_CONTROLLER_GATEWAY_ADDR" ∧
  Getenv json_text env "KAPE_CREDS_DIR" = from "controller-creds-dir" "KAPE_OPERATOR_CONTROLLER_CREDS_DIR" ∧
  Getenv json_text env "KAPE_DEFAULT_PROVIDER" = from "controller-default-provider" "KAPE_OPERATOR_CONTROLLER_DEFAULT_PROVIDER" ∧
  Getenv json_text env "KAPE_TRANSPORT" = from "controller-transport" "KAPE_OPERATOR_CONTROLLER_TRANSPORT" ∧
  Getenv json_text env "KAPE_EVENT_STORE" = from "controller-event-store" "KAPE_OPERATOR_CONTROLLER_EVENT_STORE".
Proof.
  intros Hs He Hc Hw env from.
  destruct (parsed_wiring ss environ c Hs He Hc) as (E1 & E2 & _ & E4 & E5 & E6).
  unfold env. rewrite (wiring_fields c w Hw). clear Hw env.
  unfold setting in *. subst from. unfold arg_or_var. rewrite !or_default_empty in *.
  split_and!; (erewrite env_wired; [|by apply contract_only|reflexivity]); done.
Qed.
End Main.

(** ** A parser that keeps the promises *)

(** The flags an argument list gives. *)
Fixpoint given_names (fs : list (flag_def config)) (args : list string) : list string :=
  match args with
  | [] => []
  | s :: rest =>
      match read_arg s with
      | FlagArg name value =>
          match lookup_flag fs name with
          | None => []
          | Some f =>
              name :: match value, fd_bool f, rest with
                      | None, false, _ :: rest' => given_names fs rest'
                      | _, _, _ => given_names fs rest
                      end
          end
      | _ => []
      end
  end.

Definition plain_Parse (fs : list (flag_def config)) (args : list string) (environ : string → string) (c : config) :
    option config :=
  match parse_flags fs args c with
  | (c', FlagsDone) => Some (apply_settings fs (env_settings fs (given_names fs args) environ) c')
  | _ => None
  end.

Lemma given_names_settings fs ss :
  Forall (accepted fs) ss → given_names fs (ss ≫= spelled) = (λ s, s.1.2) <$> ss.
Proof.
  induction 1 as [|[[j n] v] ss (Hn & f & Hf & Hj & _) _ IH]; [done|].
  change (((j, n, v) :: ss) ≫= spelled) with (spelled (j, n, v) ++ (ss ≫= spelled)). rewrite fmap_cons.
  destruct j; cbn [spelled app given_names fst snd].
  - rewrite read_joined, Hf, IH by done. done.
  - destruct Hj as [|Hj]; [done|]. by rewrite read_alone, Hf, Hj, IH by done.
Qed.

Lemma plain_args fs args environ c : snd (parse_flags fs args c) ≠ FlagsDone → plain_Parse fs args environ c = None.
Proof. unfold plain_Parse. by destruct (parse_flags fs args c) as [c' []]. Qed.

Lemma plain_precedence fs ss environ c :
  let es := env_settings fs ((λ s, s.1.2) <$> ss) environ in
  lookup_flag fs "config" = None → Forall (accepted fs) ss → Forall (accepted fs) es →
  ∃ es', es' ≡ₚ es ∧ plain_Parse fs (ss ≫= spelled) environ c = Some (apply_settings fs es' (apply_settings fs ss c)).
Proof.
  intros es _ Hs _. exists es. split; [done|]. unfold plain_Parse. by rewrite parse_all, given_names_settings.
Qed.

(** ** The playground *)

Record kubeconfig : Type := mkKube {
  kc_Clusters : gmap string (string * string); kc_AuthInfos : gmap string (string * string);
  kc_Contexts : gmap string (string * string); kc_CurrentContext : string
}.

(** Server and authority, certificate and key, and a context of a cluster and a user. *)
Definition writeKubeconfig (host caData certData keyData : string) : kubeconfig :=
  mkKube {["playground" := (host, caData)]} {["playground-admin" := (certData, keyData)]}
    {["playground" := ("playground", "playground-admin")]} "playground".

(** What a client reads: the cluster and the user of the current context. *)
Definition current (k : kubeconfig) : option ((string * string) * (string * string)) :=
  c ← kc_Contexts k !! kc_CurrentContext k;
  cl ← kc_Clusters k !! c.1;
  u ← kc_AuthInfos k !! c.2;
  Some (cl, u).

(** The playground runs the handler side of the operator only. *)
Definition playground_main (ok : setup → bool) (written : bool) : res op_err unit :=
  if negb written then Err ParseFailed
  else run_setups ok [NewManager; NewDiscovery; SetupTool; SetupSchema; SetupSkill; SetupHandler; StartManager].

(** The file that is written leads a client to the test server with its own
    credentials. *)
Theorem kubeconfig_resolves host ca cert key : current (writeKubeconfig host ca cert key) = Some ((host, ca), (cert, key)).
Proof. reflexivity. Qed.

(** ** Samples *)

Module Samples.
Definition ints (_ : string) : Z * bool := (0, false).

Definition environ (k : string) : string :=
  if String.eqb k "KAPE_OPERATOR_CONTROLLER_GATEWAY_ADDR" then "openshell:8080"
  else if String.eqb k "KAPE_OPERATOR_CONTROLLER_TRANSPORT" then "pull"
  else if String.eqb k "KAPE_OPERATOR_OPENSHELL_WORKSPACE" then "team" else "".

Definition settings : list (bool * string * string) := [(false, "controller-transport", "exec")]%string.

Ltac accept := repeat (apply Forall_cons; split;
  [split; [eapply flag_name_ok; [reflexivity|done|vm_compute; reflexivity]|eexists; split; [reflexivity|split; [auto|done]]]|]);
  apply Forall_nil_2.

Lemma operator_settings_witness :
  ∃ c, parseConfig ints plain_Parse (settings ≫= spelled) environ = Some c ∧
    oc_ControllerGatewayAddr c = "openshell:8080"%string ∧ oc_ControllerTransport c = "exec"%string.
Proof.
  destruct (operator_settings ints plain_Parse plain_precedence settings environ) as (c & Hc & E1 & _ & _ & _ & E5 & _).
  - accept.
  - change (env_settings (newFlagSet ints) ((λ s, s.1.2) <$> settings) environ) with
      [(true, "controller-gateway-addr", "openshell:8080"); (true, "openshell-workspace", "team")]%string. accept.
  - exists c. split; [exact Hc|]. split; [exact E1|exact E5].
Defined.

Definition text (_ : json) : string := "doc".
Definition server : KapeAgentServer := team_server.

(** The variables the chart gives the operator, the extra environment among them. *)
Definition chart_environ (k : string) : string :=
  if String.eqb k "KAPE_OPERATOR_CONTROLLER_GATEWAY_ADDR" then "openshell:8080"
  else if String.eqb k "KAPE_OPERATOR_CONTROLLER_TRANSPORT" then "pull"
  else if String.eqb k "KAPE_OPERATOR_LEADER_ELECT" then "true"
  else if String.eqb k "KAPE_OPERATOR_CONTROLLER_EXTRA_ENV" then "chart"
  else "".

Definition chart_extra (v : string) : option (list EnvVar) :=
  if String.eqb v "chart" then Some (text_var "KAPE_GATEWAY_ADDR" "elsewhere:1" :: cw_ExtraEnv chart_wiring) else None.

Lemma operator_env_reaches_controller_witness :
  ∃ c w, parseConfig ints plain_Parse [] chart_environ = Some c ∧ controllerWiring chart_extra (λ _, true) c = Ok w ∧
    length (cw_ExtraEnv w) = 9%nat ∧
    Getenv text (process_env bare_env (controllerEnv (deploymentEnv server [] "") w)) "KAPE_GATEWAY_ADDR" = "openshell:8080"%string.
Proof.
  destruct (parseConfig ints plain_Parse [] chart_environ) as [c|] eqn:Ec; [|vm_compute in Ec; discriminate].
  destruct (controllerWiring chart_extra (λ _, true) c) as [w|] eqn:Ew; [|vm_compute in Ec; injection Ec as <-; discriminate].
  exists c, w. split; [reflexivity|]. split; [exact Ew|]. split; [vm_compute in Ec; injection Ec as <-; vm_compute in Ew; injection Ew as <-; reflexivity|].
  destruct (operator_env_reaches_controller ints chart_extra (λ _, true) plain_Parse plain_precedence [] chart_environ c w text bare_env
    server [] "") as [E _]; [constructor| |exact Ec|exact Ew|exact E].
  change (env_settings (newFlagSet ints) ((λ s, s.1.2) <$> []) chart_environ) with
    [(true, "leader-elect", "true"); (true, "controller-gateway-addr", "openshell:8080"); (true, "controller-transport", "pull");
     (true, "controller-extra-env", "chart")]%string. accept.
Defined.
End Samples.
