(* ===== verification/Handlers.v ===== *)
(** * The operator: handlers and what they depend on
      (src/operator/controller/reconcile: handler.go, handler_deps.go,
      handler_conditions.go, handler_hash.go, tool.go, skill.go, schema.go,
      kapeproxy.go)

    A handler refers to a schema, to tools and to skills, which refer to tools; each
    kind has its reconciler, which writes the conditions the others read.  What the
    API server answers is given by functions; a pass returns what it stores.
    Messages of conditions are left out. *)

From Stdlib Require Import Ascii String ZArith.
From S2P Require Import Prelude Json GoTime GoStrings Bolt EventStore EventHub Fsm Monitor Config.
From S2P Require Import Agent Manager Policy ServerConfig OperatorRender OperatorWriter OperatorApply OperatorReconcile.
From stdpp Require Import base list strings numbers gmap sorting.
Local Open Scope Z_scope.

(** ** Resources *)

Record MCPSpec : Type := mkMCP {
  mcp_URL : string; mcp_Transport : string; mcp_AllowedTools : list string; mcp_DeniedTools : list string;
  mcp_Redaction : option (list string * list string); mcp_Audit : option bool; mcp_SkipProbe : bool
}.

(** The address of an external database and the secret with its key. *)
Record MemorySpec : Type := mkMemory { me_DistanceMetric : string; me_External : option (string * option string) }.

Record KapeToolSpec : Type := mkToolSpec {
  ts_Type : string; ts_MCP : option MCPSpec; ts_Memory : option MemorySpec; ts_EventPublish : option string
}.

Record KapeTool : Type := mkTool {
  kt_Name : string; kt_Spec : KapeToolSpec; kt_Deleting : bool; kt_Finalizer : bool;
  kt_Conditions : list Condition; kt_QdrantEndpoint : string
}.

Record KapeSkill : Type := mkSkill {
  sk_Name : string; sk_Description : string; sk_Instruction : string; sk_LazyLoad : bool; sk_Tools : list string;
  sk_Deleting : bool; sk_Finalizer : bool; sk_Conditions : list Condition
}.

Record KapeSchema : Type := mkSchema {
  sc_Name : string; sc_Type : string; sc_Required : list string; sc_Properties : list string; sc_Text : string;
  sc_Deleting : bool; sc_Finalizer : bool; sc_Conditions : list Condition; sc_Hash : string
}.

Record ScalingSpec : Type := mkScaling {
  sg_MinReplicas : Z; sg_MaxReplicas : Z; sg_ScaleToZero : bool; sg_NatsLagThreshold : Z; sg_Stabilization : Z
}.

(** The fields the reconcilers read; [kh_Text] is the whole spec as JSON. *)
Record KapeHandler : Type := mkHandler {
  kh_Name : string; kh_Namespace : string; kh_Text : string; kh_TriggerType : string;
  kh_SchemaRef : string; kh_Tools : list string; kh_Skills : list string; kh_Scaling : option ScalingSpec;
  kh_Labels : gmap string string; kh_Conditions : list Condition; kh_Replicas : Z
}.

Definition with_conditions (h : KapeHandler) (cs : list Condition) : KapeHandler :=
  mkHandler (kh_Name h) (kh_Namespace h) (kh_Text h) (kh_TriggerType h) (kh_SchemaRef h) (kh_Tools h) (kh_Skills h)
    (kh_Scaling h) (kh_Labels h) cs (kh_Replicas h).

Definition with_labels (h : KapeHandler) (ls : gmap string string) : KapeHandler :=
  mkHandler (kh_Name h) (kh_Namespace h) (kh_Text h) (kh_TriggerType h) (kh_SchemaRef h) (kh_Tools h) (kh_Skills h)
    (kh_Scaling h) ls (kh_Conditions h) (kh_Replicas h).

Definition with_replicas (h : KapeHandler) (n : Z) : KapeHandler :=
  mkHandler (kh_Name h) (kh_Namespace h) (kh_Text h) (kh_TriggerType h) (kh_SchemaRef h) (kh_Tools h) (kh_Skills h)
    (kh_Scaling h) (kh_Labels h) (kh_Conditions h) n.

Definition cond (type : string) (status : bool) (why : string) : Condition := mkCond type status why 0 0.

(** [meta.IsStatusConditionTrue] looks at the first condition of the type;
    [isReady] at all of them. *)
Definition IsStatusConditionTrue (conds : list Condition) (t : string) : bool :=
  match conditionByType conds t with Some c => c_Status c | None => false end.

Definition isReady (conds : list Condition) : bool :=
  existsb (λ c, String.eqb (c_Type c) ConditionReady && c_Status c) conds.

(** ** Dependencies *)

(** What the API server answers for the names of a namespace. *)
Record Lookups : Type := mkLookups {
  get_schema : string → res string (option KapeSchema);
  get_tool : string → res string (option KapeTool);
  get_skill : string → res string (option KapeSkill)
}.

Inductive dep_stop : Type :=
| DepGate (reason : string)
| DepErr (msg : string).

Record resolvedDependencies : Type := mkDeps {
  rd_Schema : KapeSchema; rd_Tools : list KapeTool; rd_Skills : list KapeSkill
}.

Definition EagerSkills (d : resolvedDependencies) : list KapeSkill := filter (λ s, sk_LazyLoad s = false) (rd_Skills d).
Definition LazySkills (d : resolvedDependencies) : list KapeSkill := filter (λ s, sk_LazyLoad s = true) (rd_Skills d).

Definition unionToolMap (m : gmap string KapeTool) (t : KapeTool) : gmap string KapeTool :=
  match m !! kt_Name t with Some _ => m | None => <[kt_Name t := t]> m end.

Definition name_before (a b : KapeTool) : Prop := String.le (kt_Name a) (kt_Name b).

#[global] Instance name_before_dec a b : Decision (name_before a b).
Proof. unfold name_before. apply _. Defined.

Definition sortedToolsByName (m : gmap string KapeTool) : list KapeTool := merge_sort name_before (map_to_list m).*2.

Section Dependencies.
Context (api : Lookups).

Definition resolveSchema (h : KapeHandler) : res dep_stop KapeSchema :=
  match get_schema api (kh_SchemaRef h) with
  | Err msg => Err (DepErr msg)
  | Ok None => Err (DepGate "KapeSchemaInvalid")
  | Ok (Some s) => if IsStatusConditionTrue (sc_Conditions s) ConditionReady then Ok s
                   else Err (DepGate "KapeSchemaInvalid")
  end.

(** A tool of the handler and a tool of a skill differ in the reason they gate with. *)
Definition resolveTool (why ref : string) : res dep_stop KapeTool :=
  match get_tool api ref with
  | Err msg => Err (DepErr msg)
  | Ok None => Err (DepGate why)
  | Ok (Some t) => if IsStatusConditionTrue (kt_Conditions t) ConditionReady then Ok t else Err (DepGate why)
  end.

Fixpoint union_tools (why : string) (refs : list string) (m : gmap string KapeTool) : res dep_stop (gmap string KapeTool) :=
  match refs with
  | [] => Ok m
  | r :: rest => match resolveTool why r with
                 | Err e => Err e
                 | Ok t => union_tools why rest (unionToolMap m t)
                 end
  end.

Fixpoint resolveSkills (refs : list string) (m : gmap string KapeTool) (acc : list KapeSkill) :
    res dep_stop (gmap string KapeTool * list KapeSkill) :=
  match refs with
  | [] => Ok (m, acc)
  | r :: rest =>
      match get_skill api r with
      | Err msg => Err (DepErr msg)
      | Ok None => Err (DepGate "KapeSkillNotFound")
      | Ok (Some s) =>
          if negb (IsStatusConditionTrue (sk_Conditions s) ConditionReady) then Err (DepGate "KapeSkillNotReady")
          else match union_tools "KapeSkillNotReady" (sk_Tools s) m with
               | Err e => Err e
               | Ok m' => resolveSkills rest m' (acc ++ [s])
               end
      end
  end.

Definition validateDependencies (h : KapeHandler) : res dep_stop resolvedDependencies :=
  match resolveSchema h with
  | Err e => Err e
  | Ok schema =>
      match union_tools "KapeToolNotReady" (kh_Tools h) ∅ with
      | Err e => Err e
      | Ok m => match resolveSkills (kh_Skills h) m [] with
                | Err e => Err e
                | Ok (m', skills) => Ok (mkDeps schema (sortedToolsByName m') skills)
                end
      end
  end.
End Dependencies.

(** ** The proxy's conditions *)

Inductive ProxyHealth : Type := ProxyHealthy | ProxyCrashLoop | ProxyNotReady | ProxyMissing.

(** Name, whether it is ready, and the reason it waits for. *)
Record ContainerStatus : Type := mkContainer { cn_Name : string; cn_Ready : bool; cn_Waiting : option string }.

Definition EvaluatePodHealth (pod : list ContainerStatus) : ProxyHealth :=
  match List.find (λ c, String.eqb (cn_Name c) "kapeproxy") pod with
  | None => ProxyMissing
  | Some c => if bool_decide (cn_Waiting c = Some "CrashLoopBackOff"%string) then ProxyCrashLoop
              else if cn_Ready c then ProxyHealthy else ProxyNotReady
  end.

Definition applyProxyConditions (now : Z) (conds : list Condition) (health : ProxyHealth) : list Condition :=
  match health with
  | ProxyHealthy => setCondition now (setCondition now conds (cond "KapeProxyReady" true "Ready")) (cond "KapeProxyDegraded" false "Healthy")
  | ProxyCrashLoop =>
      setCondition now (setCondition now conds (cond "KapeProxyReady" false "ContainerCrashLoop")) (cond "KapeProxyDegraded" true "RestartLoop")
  | ProxyNotReady =>
      setCondition now (setCondition now conds (cond "KapeProxyReady" false "ContainerNotReady")) (cond "KapeProxyDegraded" false "Healthy")
  | ProxyMissing => setCondition now conds (cond "KapeProxyReady" false "KapeProxyMissing")
  end.

(** One event of a pod of the handler. *)
Definition proxy_reconcile (now : Z) (pod : list ContainerStatus) (h : KapeHandler) : KapeHandler :=
  with_conditions h (applyProxyConditions now (kh_Conditions h) (EvaluatePodHealth pod)).

(** ** The handler's pass *)

(** Reason precedence: the first condition that is false. *)
Definition computeReadyRollup (conds : list Condition) : Condition :=
  match List.find (λ c, negb (String.eqb (c_Type c) ConditionReady) && negb (c_Status c)) conds with
  | Some c => cond ConditionReady false (c_Reason c)
  | None => cond ConditionReady true "Ready"
  end.

(** [dep] is the number of ready replicas of the deployment, if there is one. *)
Definition buildHandlerConditions (now : Z) (dep : option Z) (existing : list Condition) : list Condition :=
  let available :=
    match dep with
    | None => cond "DeploymentAvailable" false "DeploymentNotFound"
    | Some n => if n =? 0 then cond "DeploymentAvailable" false "MinimumReplicasUnavailable"
                else cond "DeploymentAvailable" true "Available"
    end in
  let existing := setCondition now existing available in
  setCondition now existing (computeReadyRollup existing).

Record KapeConfig : Type := mkKapeConfig { kc_KapeproxyImage : string; kc_KapeproxyImageVersion : string }.

(** What a pass materialises, in order. *)
Inductive work : Type :=
| WSettings (d : resolvedDependencies)
| WProxyConfig (tools : list KapeTool)
| WSkills (lazy : list KapeSkill)
| WNoSkills
| WServiceAccount
| WDeployment (rolloutHash : string) (tools : list KapeTool) (lazySkillsPresent : bool)
| WScaledDelete
| WScaledObject (consumer : string).

Fixpoint run_works (fails : work → option string) (ws : list work) : list work * option string :=
  match ws with
  | [] => ([], None)
  | w :: rest => match fails w with
                 | Some msg => ([w], Some msg)
                 | None => let '(done, err) := run_works fails rest in (w :: done, err)
                 end
  end.

(** [strings.ReplaceAll(s, ".", "-")]. *)
Fixpoint dots_to_dashes (s : string) : string :=
  match s with
  | EmptyString => EmptyString
  | String c r => String (if Ascii.eqb c "." then "-"%char else c) (dots_to_dashes r)
  end.

(** What the API server and the loaders answer during a pass, and the events of pods
    that are handled between the sync of the labels and the next read of the
    handler. *)
Record HandlerApi : Type := mkHandlerApi {
  ha_lookups : Lookups;
  ha_config : res string KapeConfig;
  ha_fails : work → option string;
  ha_consumer : res string (option string);
  ha_labels_stored : bool;
  ha_meanwhile : list (Z * list ContainerStatus);
  ha_deployment : res string (option Z);
  ha_status_stored : bool
}.

Section HandlerPass.
Context (sha256 : string → string) (tool_text : KapeToolSpec → string) (skill_text : KapeSkill → string).

Definition rollout_preimage (h : KapeHandler) (d : resolvedDependencies) (cfg : KapeConfig) : string :=
  kh_Text h +:+ sc_Text (rd_Schema d) +:+ String.concat "" (tool_text ∘ kt_Spec <$> rd_Tools d) +:+
  String.concat "" (skill_text <$> rd_Skills d) +:+ kc_KapeproxyImage cfg +:+ kc_KapeproxyImageVersion cfg.

Definition computeRolloutHash (h : KapeHandler) (d : resolvedDependencies) (cfg : KapeConfig) : string :=
  sha256 (rollout_preimage h d cfg).

Definition reconcileScaledObject (api : HandlerApi) (h : KapeHandler) : list work * option string :=
  let consumer := dots_to_dashes (kh_TriggerType h) in
  match ha_consumer api with
  | Err msg => ([], Some msg)
  | Ok existing =>
      let stale := match existing with Some c => negb (String.eqb c consumer) | None => false end in
      run_works (ha_fails api) ((if stale then [WScaledDelete] else []) ++ [WScaledObject consumer])
  end.

Definition reconcileWorkload (api : HandlerApi) (h : KapeHandler) (d : resolvedDependencies) (hash : string) :
    list work * option string :=
  let lazy := LazySkills d in
  let '(done, err) := run_works (ha_fails api)
    [ WSettings d; WProxyConfig (filter (λ t, ts_Type (kt_Spec t) = "mcp"%string) (rd_Tools d));
      match lazy with [] => WNoSkills | _ => WSkills lazy end; WServiceAccount;
      WDeployment hash (rd_Tools d) (negb (Nat.eqb (length lazy) 0)) ] in
  match err with
  | Some msg => (done, Some msg)
  | None => let '(more, err') := reconcileScaledObject api h in (done ++ more, err')
  end.

(** The labels other resources find the handler by. *)
Definition tool_ref (name : string) : string := "kape.io/tool-ref-" +:+ name.
Definition skill_ref (name : string) : string := "kape.io/skill-ref-" +:+ name.

Definition ref_labels (h : KapeHandler) (d : resolvedDependencies) : gmap string string :=
  let m := foldl (λ m t, <[tool_ref (kt_Name t) := "true"%string]> m) {[ "kape.io/schema-ref"%string := kh_SchemaRef h ]} (rd_Tools d) in
  foldl (λ m s, <[skill_ref s := "true"%string]> m) m (kh_Skills h).

(** [SyncLabels] merges; nothing is ever taken away. *)
Definition SyncLabels (h : KapeHandler) (ls : gmap string string) : KapeHandler := with_labels h (ls ∪ kh_Labels h).

Definition scaling_invalid (h : KapeHandler) : bool :=
  match kh_Scaling h with Some s => sg_ScaleToZero s && (1 <=? sg_MinReplicas s) | None => false end.

(** The stored handler after a pass, the work done, and the result: the delay until
    the next pass in seconds, or an error.  [UpdateStatus] stores the status it is
    given as a whole. *)
Record HandlerPassed : Type := mkPassed { hp_stored : KapeHandler; hp_works : list work; hp_result : res string Z }.

Definition store_status (api : HandlerApi) (h : KapeHandler) (conds : list Condition) : KapeHandler :=
  if ha_status_stored api then with_conditions h conds else h.

Definition handler_reconcile (now : Z) (api : HandlerApi) (h : KapeHandler) : HandlerPassed :=
  match validateDependencies (ha_lookups api) h with
  | Err (DepErr msg) => mkPassed h [] (Err msg)
  | Err (DepGate why) =>
      let conds := setCondition now (setCondition now (kh_Conditions h) (cond "DependenciesReady" false why))
                     (cond ConditionReady false "DependenciesNotReady") in
      mkPassed (store_status api h conds) [] (Ok 30)
  | Ok d =>
      let conds := setCondition now (kh_Conditions h) (cond "DependenciesReady" true "Ready") in
      if scaling_invalid h then
        mkPassed (store_status api h (setCondition now conds (cond "ScalingConfigured" false "InvalidScalingConfig"))) [] (Ok 0)
      else
        match ha_config api with
        | Err msg => mkPassed h [] (Err msg)
        | Ok cfg =>
            let '(works, err) := reconcileWorkload api h d (computeRolloutHash h d cfg) in
            match err with
            | Some msg => mkPassed h works (Err msg)
            | None =>
                (* the labels are patched, a failure is only logged, and the handler is read again *)
                let h1 := if ha_labels_stored api then SyncLabels h (ref_labels h d) else h in
                let h2 := foldl (λ h ev, proxy_reconcile (fst ev) (snd ev) h) h1 (ha_meanwhile api) in
                match ha_deployment api with
                | Err msg => mkPassed h2 works (Err msg)
                | Ok dep =>
                    let conds := buildHandlerConditions now dep (kh_Conditions h2) in
                    if ha_status_stored api
                    then mkPassed (with_replicas (with_conditions h2 conds) (match dep with Some n => n | None => kh_Replicas h2 end))
                           works (Ok 60)
                    else mkPassed h2 works (Err "updating status")
                end
            end
        end
  end.

End HandlerPass.

(** ** Tools, skills and schemas *)

(** Handlers are found by their labels, in every namespace. *)
Definition ListHandlersByToolRef (hs : list KapeHandler) (name : string) : list KapeHandler :=
  filter (λ h, kh_Labels h !! tool_ref name = Some "true"%string) hs.
Definition ListHandlersBySkillRef (hs : list KapeHandler) (name : string) : list KapeHandler :=
  filter (λ h, kh_Labels h !! skill_ref name = Some "true"%string) hs.
Definition ListHandlersBySchemaRef (hs : list KapeHandler) (name : string) : list KapeHandler :=
  filter (λ h, kh_Labels h !! "kape.io/schema-ref"%string = Some name) hs.

Definition tool_with (t : KapeTool) (fin : bool) (conds : list Condition) (endpoint : string) : KapeTool :=
  mkTool (kt_Name t) (kt_Spec t) (kt_Deleting t) fin conds endpoint.

(** What is asked during a pass over a tool: the handlers, what [url.Parse] makes of
    the scheme of an external address, the answers about the cluster (whether its
    kind is known, the outcome of ensuring it, and whether it is ready and where),
    the outcomes of the collection calls, the answers of up to three probes, and
    which writes are refused. *)
Record ToolApi : Type := mkToolApi {
  ta_handlers : res string (list KapeHandler);
  ta_scheme : option string;
  ta_installed : res string bool;
  ta_ensured : option string;
  ta_cluster : res string (option (bool * string));
  ta_collection : option string;
  ta_delete_collection : option string;
  ta_probe : nat → res string Z;
  ta_finalizer_fails : option string;
  ta_status_fails : option string
}.

(** [None] is a tool that is gone. *)
Record ToolPassed : Type := mkToolPassed { tp_stored : option KapeTool; tp_result : res string Z }.

Definition tool_status (api : ToolApi) (t : KapeTool) (conds : list Condition) (endpoint : string) (result : res string Z) : ToolPassed :=
  match ta_status_fails api with
  | Some msg => mkToolPassed (Some t) (Err msg)
  | None => mkToolPassed (Some (tool_with t (kt_Finalizer t) conds endpoint)) result
  end.

Definition handleMemoryDeletion (now : Z) (api : ToolApi) (t : KapeTool) : ToolPassed :=
  match ta_handlers api with
  | Err msg => mkToolPassed (Some t) (Err msg)
  | Ok hs =>
      match ListHandlersByToolRef hs (kt_Name t) with
      | _ :: _ =>
          let conds := setCondition now (kt_Conditions t) (cond ConditionReady false "ReferencedByHandlers") in
          mkToolPassed (Some (match ta_status_fails api with
                              | Some _ => t
                              | None => tool_with t (kt_Finalizer t) conds (kt_QdrantEndpoint t)
                              end)) (Ok 0)
      | [] =>
          let deleted := if String.eqb (kt_QdrantEndpoint t) "" then None else ta_delete_collection api in
          match deleted with
          | Some msg => mkToolPassed (Some t) (Err msg)
          | None => match ta_finalizer_fails api with
                    | Some msg => mkToolPassed (Some t) (Err msg)
                    | None => mkToolPassed None (Ok 0)
                    end
          end
      end
  end.

Definition reconcileExternalMemory (now : Z) (api : ToolApi) (t : KapeTool) (url : string) : ToolPassed :=
  match ta_scheme api with
  | Some s => if String.eqb s "http" || String.eqb s "https"
              then tool_status api t (setCondition now (kt_Conditions t) (cond ConditionReady true "ExternalDatabase")) url (Ok 30)
              else tool_status api t (setCondition now (kt_Conditions t) (cond ConditionReady false "InvalidExternalURL")) ""
                     (Err "invalid external URL")
  | None => tool_status api t (setCondition now (kt_Conditions t) (cond ConditionReady false "InvalidExternalURL")) ""
              (Err "invalid external URL")
  end.

Definition memory_conditions (now : Z) (t : KapeTool) (ok : bool) (why : string) : list Condition :=
  setCondition now (setCondition now (kt_Conditions t) (cond "MemoryReady" ok why)) (cond ConditionReady ok why).

Definition reconcileProvisionedMemory (now : Z) (api : ToolApi) (t : KapeTool) : ToolPassed :=
  match ta_installed api with
  | Err msg => mkToolPassed (Some t) (Err msg)
  | Ok false => tool_status api t (memory_conditions now t false "OperatorNotInstalled") "" (Ok 30)
  | Ok true =>
      match ta_ensured api with
      | Some msg => mkToolPassed (Some t) (Err msg)
      | None =>
          match ta_cluster api with
          | Err msg => mkToolPassed (Some t) (Err msg)
          | Ok (Some (true, url)) =>
              match ta_collection api with
              | Some msg => mkToolPassed (Some t) (Err msg)
              | None => tool_status api t (memory_conditions now t true "Ready") url (Ok 30)
              end
          | Ok _ => tool_status api t (memory_conditions now t false "QdrantClusterNotReady") "" (Ok 15)
          end
      end
  end.

Definition reconcileMemory (now : Z) (api : ToolApi) (t : KapeTool) : ToolPassed :=
  match (if kt_Finalizer t then None else ta_finalizer_fails api) with
  | Some msg => mkToolPassed (Some t) (Err msg)
  | None =>
      let t := tool_with t true (kt_Conditions t) (kt_QdrantEndpoint t) in
      if kt_Deleting t then handleMemoryDeletion now api t
      else match ts_Memory (kt_Spec t) with
           | Some m => match me_External m with
                       | Some (url, _) => reconcileExternalMemory now api t url
                       | None => reconcileProvisionedMemory now api t
                       end
           | None => reconcileProvisionedMemory now api t
           end
  end.

(** Three probes; any status below 300 is good. *)
Definition probe_good (r : res string Z) : bool := match r with Ok code => code <? 300 | Err _ => false end.
Definition probeMCPEndpoint (api : ToolApi) : bool := existsb (λ i, probe_good (ta_probe api i)) [0%nat; 1%nat; 2%nat].

(** A tool of type [mcp] without its section stops the operator. *)
Inductive tool_outcome : Type := TDone (p : ToolPassed) | TPanic.

Definition reconcileMCP (now : Z) (api : ToolApi) (t : KapeTool) : tool_outcome :=
  match ts_MCP (kt_Spec t) with
  | None => TPanic
  | Some mcp =>
      let ready := if mcp_SkipProbe mcp then cond ConditionReady true "ProbeSkipped"
                   else if probeMCPEndpoint api then cond ConditionReady true "Ready"
                   else cond ConditionReady false "MCPEndpointUnreachable" in
      TDone (tool_status api t (setCondition now (kt_Conditions t) ready) (kt_QdrantEndpoint t) (Ok 30))
  end.

Definition reconcileEventPublish (now : Z) (api : ToolApi) (t : KapeTool) : ToolPassed :=
  let ok := match ts_EventPublish (kt_Spec t) with Some ty => HasPrefix ty "kape.events." | None => false end in
  tool_status api t (setCondition now (kt_Conditions t)
    (if ok then cond ConditionReady true "Ready" else cond ConditionReady false "ValidationFailed"))
    (kt_QdrantEndpoint t) (Ok 0).

Definition tool_reconcile (now : Z) (api : ToolApi) (t : KapeTool) : tool_outcome :=
  let ty := ts_Type (kt_Spec t) in
  if String.eqb ty "memory" then TDone (reconcileMemory now api t)
  else if String.eqb ty "mcp" then reconcileMCP now api t
  else if String.eqb ty "event-publish" then TDone (reconcileEventPublish now api t)
  else TDone (mkToolPassed (Some t) (Ok 0)).

(** Skills and schemas share the answers they need. *)
Record OwnedApi : Type := mkOwnedApi {
  oa_handlers : res string (list KapeHandler);
  oa_tool : string → res string (option KapeTool);
  oa_finalizer_fails : option string;
  oa_status_fails : option string
}.

Definition skill_with (s : KapeSkill) (fin : bool) (conds : list Condition) : KapeSkill :=
  mkSkill (sk_Name s) (sk_Description s) (sk_Instruction s) (sk_LazyLoad s) (sk_Tools s) (sk_Deleting s) fin conds.

Definition validateSkillSpec (s : KapeSkill) : bool :=
  negb (String.eqb (sk_Description s) "") && negb (String.eqb (sk_Instruction s) "").

(** The reason the first tool that is not usable gives, or an error. *)
Fixpoint skill_tools (get : string → res string (option KapeTool)) (refs : list string) : res string (option string) :=
  match refs with
  | [] => Ok None
  | r :: rest =>
      match get r with
      | Err msg => Err msg
      | Ok None => Ok (Some "KapeToolNotFound"%string)
      | Ok (Some t) => if isReady (kt_Conditions t) then skill_tools get rest else Ok (Some "KapeToolNotReady"%string)
      end
  end.

Definition skill_status (api : OwnedApi) (s : KapeSkill) (now : Z) (ready : bool) (why : string) : KapeSkill :=
  match oa_status_fails api with
  | Some _ => s
  | None => skill_with s (sk_Finalizer s) (setCondition now (sk_Conditions s) (cond ConditionReady ready why))
  end.

Definition skill_deletion (now : Z) (api : OwnedApi) (s : KapeSkill) : option KapeSkill * res string Z :=
  match oa_handlers api with
  | Err msg => (Some s, Err msg)
  | Ok hs => match ListHandlersBySkillRef hs (sk_Name s) with
             | _ :: _ => (Some (skill_status api s now false "ReferencedByHandlers"), Ok 0)
             | [] => match oa_finalizer_fails api with Some msg => (Some s, Err msg) | None => (None, Ok 0) end
             end
  end.

Definition skill_reconcile (now : Z) (api : OwnedApi) (s : KapeSkill) : option KapeSkill * res string Z :=
  if negb (validateSkillSpec s) then (Some (skill_status api s now false "InvalidSpec"), Ok 0)
  else match (if sk_Finalizer s then None else oa_finalizer_fails api) with
  | Some msg => (Some s, Err msg)
  | None =>
      let s := skill_with s true (sk_Conditions s) in
      if sk_Deleting s then skill_deletion now api s
      else match skill_tools (oa_tool api) (sk_Tools s) with
           | Err msg => (Some s, Err msg)
           | Ok (Some why) => (Some (skill_status api s now false why), Ok 30)
           | Ok None => (Some (skill_status api s now true "Ready"),
                         match oa_status_fails api with Some msg => Err msg | None => Ok 0 end)
           end
  end.

Definition schema_with (s : KapeSchema) (fin : bool) (conds : list Condition) (hash : string) : KapeSchema :=
  mkSchema (sc_Name s) (sc_Type s) (sc_Required s) (sc_Properties s) (sc_Text s) (sc_Deleting s) fin conds hash.

Definition validateJSONSchema (s : KapeSchema) : bool :=
  String.eqb (sc_Type s) "object" && forallb (λ r, existsb (String.eqb r) (sc_Properties s)) (sc_Required s).

Definition schema_status (api : OwnedApi) (s : KapeSchema) (now : Z) (ready : bool) (why hash : string) : KapeSchema :=
  match oa_status_fails api with
  | Some _ => s
  | None => schema_with s (sc_Finalizer s) (setCondition now (sc_Conditions s) (cond ConditionReady ready why)) hash
  end.

Definition schema_deletion (now : Z) (api : OwnedApi) (s : KapeSchema) : option KapeSchema * res string Z :=
  match oa_handlers api with
  | Err msg => (Some s, Err msg)
  | Ok hs => match ListHandlersBySchemaRef hs (sc_Name s) with
             | _ :: _ => (Some (schema_status api s now false "ReferencedByHandlers" (sc_Hash s)), Ok 0)
             | [] => match oa_finalizer_fails api with Some msg => (Some s, Err msg) | None => (None, Ok 0) end
             end
  end.

Definition schema_reconcile (sha256 : string → string) (now : Z) (api : OwnedApi) (s : KapeSchema) :
    option KapeSchema * res string Z :=
  if negb (validateJSONSchema s) then (Some (schema_status api s now false "InvalidSchema" (sc_Hash s)), Ok 0)
  else match (if sc_Finalizer s then None else oa_finalizer_fails api) with
  | Some msg => (Some s, Err msg)
  | None =>
      let s := schema_with s true (sc_Conditions s) (sc_Hash s) in
      if sc_Deleting s then schema_deletion now api s
      else (Some (schema_status api s now true "Valid" (sha256 (sc_Text s))),
            match oa_status_fails api with Some msg => Err msg | None => Ok 0 end)
  end.

(** ** What the dependencies are *)

Section DependencyFacts.
Context (api : Lookups).

(** A get answers with the object asked for. *)
Hypothesis named : ∀ n t, get_tool api n = Ok (Some t) → kt_Name t = n.

Definition tool_ready (r : string) : Prop :=
  ∃ t, get_tool api r = Ok (Some t) ∧ IsStatusConditionTrue (kt_Conditions t) ConditionReady = true.

(** The map holds what the API server answers for its keys. *)
Definition fetched (m : gmap string KapeTool) : Prop := ∀ n t, m !! n = Some t → get_tool api n = Ok (Some t).

Lemma resolveTool_ok why r t :
  resolveTool api why r = Ok t →
  get_tool api r = Ok (Some t) ∧ IsStatusConditionTrue (kt_Conditions t) ConditionReady = true.
Proof.
  unfold resolveTool. destruct (get_tool api r) as [[t'|]|]; [|done|done].
  destruct (IsStatusConditionTrue _ _) eqn:E; [|done]. by intros [= <-].
Qed.

Lemma unionToolMap_spec m r t :
  fetched m → get_tool api r = Ok (Some t) →
  fetched (unionToolMap m t) ∧ dom (unionToolMap m t) = {[r]} ∪ dom m.
Proof.
  intros Hm Hg. pose proof (named _ _ Hg) as <-. unfold unionToolMap. destruct (m !! kt_Name t) as [t'|] eqn:E.
  - split; [done|]. apply elem_of_dom_2 in E. set_solver.
  - split; [|by rewrite dom_insert_L]. intros n t' Hn. destruct (decide (kt_Name t = n)) as [<-|Hne].
    + rewrite lookup_insert_eq in Hn. by injection Hn as <-.
    + rewrite lookup_insert_ne in Hn by done. by apply Hm.
Qed.

Lemma union_tools_spec why refs : ∀ m m',
  fetched m → union_tools api why refs m = Ok m' →
  fetched m' ∧ dom m' = list_to_set refs ∪ dom m ∧ Forall tool_ready refs.
Proof.
  induction refs as [|r refs IH]; intros m m' Hm; cbn [union_tools].
  - intros [= <-]. split; [done|]. split; [set_solver|constructor].
  - destruct (resolveTool api why r) as [t|] eqn:E; [|done]. intros Hu.
    apply resolveTool_ok in E as [Hg Hr]. destruct (unionToolMap_spec m r t Hm Hg) as [Hf Hd].
    destruct (IH _ _ Hf Hu) as (H1 & H2 & H3). split; [done|]. split; [rewrite H2, Hd; set_solver|].
    constructor; [by exists t|done].
Qed.

Lemma resolveSkills_spec refs : ∀ m acc m' skills,
  fetched m → resolveSkills api refs m acc = Ok (m', skills) →
  ∃ new, skills = acc ++ new ∧ fetched m' ∧ dom m' = list_to_set (concat (sk_Tools <$> new)) ∪ dom m ∧
    Forall tool_ready (concat (sk_Tools <$> new)) ∧
    Forall2 (λ r s, get_skill api r = Ok (Some s) ∧ IsStatusConditionTrue (sk_Conditions s) ConditionReady = true) refs new.
Proof.
  induction refs as [|r refs IH]; intros m acc m' skills Hm; cbn [resolveSkills].
  - intros [= <- <-]. exists []. rewrite app_nil_r. split; [done|]. split; [done|]. split; [set_solver|]. split; constructor.
  - destruct (get_skill api r) as [[s|]|] eqn:E; [|done|done].
    destruct (IsStatusConditionTrue (sk_Conditions s) ConditionReady) eqn:Er; cbn [negb]; [|done].
    destruct (union_tools api _ (sk_Tools s) m) as [m1|] eqn:Eu; [|done]. intros Hs.
    destruct (union_tools_spec _ _ _ _ Hm Eu) as (H1 & H2 & H3).
    destruct (IH _ _ _ _ H1 Hs) as (new & -> & H4 & H5 & H6 & H7). exists (s :: new). rewrite <-app_assoc.
    split; [done|]. split; [done|]. cbn [fmap list_fmap concat]. rewrite list_to_set_app_L, H5, H2.
    split; [set_solver|]. split; [by apply Forall_app|]. by constructor.
Qed.

#[local] Instance name_before_trans : Transitive name_before.
Proof. intros a b c. unfold name_before. apply transitivity. Qed.

#[local] Instance name_before_total : Total name_before.
Proof. intros a b. unfold name_before. apply total, _. Qed.

Lemma sortedTools_sorted m : StronglySorted name_before (sortedToolsByName m).
Proof. apply StronglySorted_merge_sort; apply _. Qed.

Lemma sortedTools_in m t : fetched m → t ∈ sortedToolsByName m ↔ m !! kt_Name t = Some t.
Proof.
  intros Hm. unfold sortedToolsByName. rewrite merge_sort_Permutation, list_elem_of_fmap. split.
  - intros ([n t'] & -> & Hin). apply elem_of_map_to_list in Hin. cbn [snd]. by rewrite (named _ _ (Hm _ _ Hin)).
  - intros Hn. exists (kt_Name t, t). split; [done|]. by apply elem_of_map_to_list.
Qed.

Lemma sortedTools_names m : fetched m → NoDup (kt_Name <$> sortedToolsByName m).
Proof.
  intros Hm. unfold sortedToolsByName. rewrite merge_sort_Permutation.
  assert (kt_Name <$> (map_to_list m).*2 = (map_to_list m).*1) as ->; [|apply NoDup_fst_map_to_list].
  rewrite <-list_fmap_compose. apply list_fmap_ext. intros i [n t] Hi. cbn.
  apply list_elem_of_lookup_2, elem_of_map_to_list in Hi. exact (named _ _ (Hm _ _ Hi)).
Qed.

(** Every tool a handler refers to, itself or through a skill. *)
Definition referenced (h : KapeHandler) (skills : list KapeSkill) : list string := kh_Tools h ++ concat (sk_Tools <$> skills).

Lemma validateDependencies_spec h d :
  validateDependencies api h = Ok d →
  get_schema api (kh_SchemaRef h) = Ok (Some (rd_Schema d)) ∧
  IsStatusConditionTrue (sc_Conditions (rd_Schema d)) ConditionReady = true ∧
  Forall2 (λ r s, get_skill api r = Ok (Some s) ∧ IsStatusConditionTrue (sk_Conditions s) ConditionReady = true)
    (kh_Skills h) (rd_Skills d) ∧
  Forall tool_ready (referenced h (rd_Skills d)) ∧
  ∃ m, rd_Tools d = sortedToolsByName m ∧ fetched m ∧ dom m = list_to_set (referenced h (rd_Skills d)).
Proof.
  unfold validateDependencies, resolveSchema.
  destruct (get_schema api _) as [[s|]|]; [|done|done]. destruct (IsStatusConditionTrue _ _) eqn:Es; [|done].
  destruct (union_tools api _ (kh_Tools h) ∅) as [m|] eqn:Eu; [|done].
  apply union_tools_spec in Eu as (Hf & Hd & Ht); [|by intros n t; rewrite lookup_empty].
  destruct (resolveSkills api (kh_Skills h) m []) as [[m' skills]|] eqn:Ek; [|done]. intros [= <-]. cbn [rd_Schema rd_Skills rd_Tools].
  apply resolveSkills_spec in Ek as (new & -> & Hf' & Hd' & Ht' & H2); [|done]. cbn [app].
  split_and!; try done; [by apply Forall_app|]. exists m'. split_and!; try done.
  unfold referenced. rewrite Hd', Hd, list_to_set_app_L. set_solver.
Qed.

(** Resolved dependencies are exactly what the handler refers to: the schema and
    the skills in declaration order, all ready, and every tool named by the handler
    or by one of its skills, each once, ready, in the order of their names and no
    other. *)
Theorem dependencies_resolved h d :
  validateDependencies api h = Ok d →
  get_schema api (kh_SchemaRef h) = Ok (Some (rd_Schema d)) ∧
  IsStatusConditionTrue (sc_Conditions (rd_Schema d)) ConditionReady = true ∧
  Forall2 (λ r s, get_skill api r = Ok (Some s) ∧ IsStatusConditionTrue (sk_Conditions s) ConditionReady = true)
    (kh_Skills h) (rd_Skills d) ∧
  StronglySorted name_before (rd_Tools d) ∧ NoDup (kt_Name <$> rd_Tools d) ∧
  ∀ t, t ∈ rd_Tools d ↔
    kt_Name t ∈ referenced h (rd_Skills d) ∧ get_tool api (kt_Name t) = Ok (Some t) ∧
    IsStatusConditionTrue (kt_Conditions t) ConditionReady = true.
Proof.
  intros H. destruct (validateDependencies_spec h d H) as (H1 & H2 & H3 & H4 & m & -> & Hf & Hd).
  split_and!; try done; [apply sortedTools_sorted|by apply sortedTools_names|].
  intros t. rewrite sortedTools_in by done. rewrite Forall_forall in H4. split.
  - intros Hm. pose proof (Hf _ _ Hm) as Hg. apply elem_of_dom_2 in Hm. rewrite Hd in Hm. apply elem_of_list_to_set in Hm.
    split; [done|]. split; [done|]. destruct (H4 _ Hm) as (t' & Ht' & Hr). congruence.
  - intros (Hin & Hg & _). assert (kt_Name t ∈ dom m) as [t' Ht']%elem_of_dom by (rewrite Hd; by apply elem_of_list_to_set).
    pose proof (Hf _ _ Ht'). congruence.
Qed.

(** The order of the references does not matter: the rollout hash sees the same
    tools. *)
Theorem tools_canonical h h' d d' :
  validateDependencies api h = Ok d → validateDependencies api h' = Ok d' →
  (∀ n, n ∈ referenced h (rd_Skills d) ↔ n ∈ referenced h' (rd_Skills d')) → rd_Tools d = rd_Tools d'.
Proof.
  intros H H' Hs. destruct (validateDependencies_spec h d H) as (_ & _ & _ & _ & m & -> & Hf & Hd).
  destruct (validateDependencies_spec h' d' H') as (_ & _ & _ & _ & m' & -> & Hf' & Hd').
  assert (m = m') as ->; [|done]. apply map_eq. intros n. apply option_eq. intros t.
  assert (dom m = dom m') as Hdm by (rewrite Hd, Hd'; apply set_eq; intros n'; by rewrite !elem_of_list_to_set).
  split; intros Hn.
  - pose proof (Hf _ _ Hn). apply elem_of_dom_2 in Hn. rewrite Hdm in Hn. apply elem_of_dom in Hn as [t' Ht'].
    pose proof (Hf' _ _ Ht'). congruence.
  - pose proof (Hf' _ _ Hn). apply elem_of_dom_2 in Hn. rewrite <-Hdm in Hn. apply elem_of_dom in Hn as [t' Ht'].
    pose proof (Hf _ _ Ht'). congruence.
Qed.

End DependencyFacts.

(** ** Becoming ready *)

Definition is_false (conds : list Condition) (t : string) : Prop :=
  ∃ c, conditionByType conds t = Some c ∧ c_Status c = false.

Lemma is_false_other now conds c t : t ≠ c_Type c → is_false conds t → is_false (setCondition now conds c) t.
Proof. intros Hne (x & Hx & Hs). exists x. by rewrite setCondition_other. Qed.

Lemma is_false_set now conds c : c_Status c = false → is_false (setCondition now conds c) (c_Type c).
Proof. intros Hc. destruct (setCondition_finds now conds c) as [t Ht]. by exists (with_time c t). Qed.

Lemma rollup_false conds t : t ≠ ConditionReady → is_false conds t → c_Status (computeReadyRollup conds) = false.
Proof.
  intros Ht (c & Hc & Hs). unfold computeReadyRollup. destruct (List.find _ conds) eqn:E; [done|].
  apply List.find_some in Hc as [Hin Ey]. apply String.eqb_eq in Ey.
  pose proof (List.find_none _ _ E c Hin) as Hn. cbn in Hn. rewrite Hs, Ey in Hn.
  by destruct (String.eqb_spec t ConditionReady).
Qed.

Lemma build_not_ready now dep conds t :
  t ≠ ConditionReady → t ≠ "DeploymentAvailable"%string → is_false conds t →
  is_false (buildHandlerConditions now dep conds) t ∧
  IsStatusConditionTrue (buildHandlerConditions now dep conds) ConditionReady = false.
Proof.
  intros H1 H2 Hf. unfold buildHandlerConditions. set (av := match dep with None => _ | Some _ => _ end).
  assert (c_Type av = "DeploymentAvailable"%string) as Hav by (unfold av; destruct dep as [n|]; [by destruct (n =? 0)|done]).
  set (e := setCondition now conds av).
  assert (is_false e t) as He by (apply is_false_other; [by rewrite Hav|done]).
  pose proof (rollup_false _ _ H1 He) as Hr.
  assert (c_Type (computeReadyRollup e) = ConditionReady) as Hrt by (unfold computeReadyRollup; by destruct (List.find _ _)).
  split; [apply is_false_other; [by rewrite Hrt|done]|].
  unfold IsStatusConditionTrue. destruct (setCondition_finds now e (computeReadyRollup e)) as [tm Htm].
  rewrite Hrt in Htm. rewrite Htm. exact Hr.
Qed.

(** Whatever the health of the proxy, one of its conditions is false. *)
Definition proxy_seen (conds : list Condition) : Prop := is_false conds "KapeProxyReady" ∨ is_false conds "KapeProxyDegraded".

Lemma proxy_seen_set now conds health : proxy_seen (applyProxyConditions now conds health).
Proof.
  destruct health; cbn [applyProxyConditions].
  - right. by apply (is_false_set now _ (cond "KapeProxyDegraded" false "Healthy")).
  - left. apply is_false_other; [done|]. by apply (is_false_set now _ (cond "KapeProxyReady" false "ContainerCrashLoop")).
  - left. apply is_false_other; [done|]. by apply (is_false_set now _ (cond "KapeProxyReady" false "ContainerNotReady")).
  - left. by apply (is_false_set now _ (cond "KapeProxyReady" false "KapeProxyMissing")).
Qed.

Lemma proxy_keeps now conds health t :
  t ≠ "KapeProxyReady"%string → t ≠ "KapeProxyDegraded"%string → is_false conds t →
  is_false (applyProxyConditions now conds health) t.
Proof. intros H1 H2 Hf. destruct health; cbn [applyProxyConditions]; repeat (apply is_false_other; [done|]); done. Qed.

Section Readiness.
Context (sha256 : string → string) (tool_text : KapeToolSpec → string) (skill_text : KapeSkill → string).

(** What happens to a stored handler: passes, events of its pods, and edits of its
    spec, which leave the status alone. *)
Inductive handler_op : Type :=
| HPass (now : Z) (api : HandlerApi)
| HPod (now : Z) (pod : list ContainerStatus)
| HEdit (new : KapeHandler).

Definition handler_step (h : KapeHandler) (op : handler_op) : KapeHandler :=
  match op with
  | HPass now api => hp_stored (handler_reconcile sha256 tool_text skill_text now api h)
  | HPod now pod => proxy_reconcile now pod h
  | HEdit new => with_conditions new (kh_Conditions h)
  end.

(** What a set of conditions the pass does not write keeps through a pass. *)
Section Keeps.
Context (P : list Condition → Prop).
Hypothesis keeps_cond : ∀ now conds c, c_Type c ≠ "KapeProxyReady"%string → c_Type c ≠ "KapeProxyDegraded"%string →
  (c_Type c = "DependenciesReady"%string → c_Status c = false) → P conds → P (setCondition now conds c).
Hypothesis keeps_proxy : ∀ now conds health, P conds → P (applyProxyConditions now conds health).

Lemma meanwhile_keeps evs : ∀ h,
  P (kh_Conditions h) → P (kh_Conditions (foldl (λ h ev, proxy_reconcile (fst ev) (snd ev) h) h evs)).
Proof. induction evs as [|ev evs IH]; intros h Hh; [done|]. cbn [foldl]. by apply IH, keeps_proxy. Qed.

Lemma build_keeps now dep conds : P conds → P (buildHandlerConditions now dep conds).
Proof.
  intros Hc. unfold buildHandlerConditions. apply keeps_cond;
    [unfold computeReadyRollup; by destruct (List.find _ _)..|].
  apply keeps_cond; [destruct dep as [n|]; [by destruct (n =? 0)|done]..|done].
Qed.

Lemma reconcile_keeps now api h :
  (scaling_invalid h = true → ∀ now conds, P conds → P (setCondition now conds (cond "DependenciesReady" true "Ready"))) →
  P (kh_Conditions h) →
  let p := handler_reconcile sha256 tool_text skill_text now api h in
  P (kh_Conditions (hp_stored p)) ∧
  (hp_result p = Ok 60 → ∃ dep conds, P conds ∧ kh_Conditions (hp_stored p) = buildHandlerConditions now dep conds).
Proof.
  intros Hsc Hh. unfold handler_reconcile. destruct (validateDependencies _ _) as [d|[why|msg]].
  - destruct (scaling_invalid h).
    + split; [|done]. cbn [hp_stored]. unfold store_status. destruct (ha_status_stored api); [|done].
      cbn [with_conditions kh_Conditions]. apply keeps_cond; [done..|]. by apply Hsc.
    + clear Hsc. destruct (ha_config api) as [cfg|]; [|done]. destruct (reconcileWorkload _ _ _ _) as [works [msg|]]; [done|].
      set (h1 := if ha_labels_stored api then _ else _).
      assert (P (kh_Conditions h1)) as H1 by (unfold h1; by destruct (ha_labels_stored api)).
      pose proof (meanwhile_keeps (ha_meanwhile api) h1 H1) as H2. destruct (ha_deployment api) as [dep|]; [|done].
      destruct (ha_status_stored api); [|done]. cbn [hp_stored hp_result with_replicas with_conditions kh_Conditions].
      split; [by apply build_keeps|]. eauto.
  - split; [|done]. cbn [hp_stored]. unfold store_status. destruct (ha_status_stored api); [|done].
    cbn [with_conditions kh_Conditions]. apply keeps_cond; [done..|]. by apply keeps_cond.
  - done.
Qed.
End Keeps.

Lemma proxy_seen_cond now conds c :
  c_Type c ≠ "KapeProxyReady"%string → c_Type c ≠ "KapeProxyDegraded"%string → proxy_seen conds →
  proxy_seen (setCondition now conds c).
Proof. intros H1 H2 [Hf|Hf]; [left|right]; by apply is_false_other. Qed.

Lemma proxy_seen_pass now api h :
  proxy_seen (kh_Conditions h) →
  let p := handler_reconcile sha256 tool_text skill_text now api h in
  proxy_seen (kh_Conditions (hp_stored p)) ∧
  (hp_result p = Ok 60 → ∃ dep conds, proxy_seen conds ∧ kh_Conditions (hp_stored p) = buildHandlerConditions now dep conds).
Proof.
  intros Hh. apply reconcile_keeps; [intros; by apply proxy_seen_cond|intros; apply proxy_seen_set|
    intros; by apply proxy_seen_cond|done].
Qed.

Lemma proxy_seen_history ops : ∀ h, proxy_seen (kh_Conditions h) → proxy_seen (kh_Conditions (foldl handler_step h ops)).
Proof.
  induction ops as [|op ops IH]; intros h Hh; [done|]. cbn [foldl]. apply IH. destruct op; cbn [handler_step].
  - by apply proxy_seen_pass.
  - apply proxy_seen_set.
  - done.
Qed.

(** No handler whose pods have been looked at is ever reported ready: whatever the
    health of its proxy, and a healthy one included, every pass that reaches the end
    from then on reports Ready as false, because the rollup reads the condition
    KapeProxyDegraded, false when all is well, as a failure. *)
Theorem observed_proxy_never_ready now0 pod h0 ops now api :
  let h := foldl handler_step (proxy_reconcile now0 pod h0) ops in
  let p := handler_reconcile sha256 tool_text skill_text now api h in
  hp_result p = Ok 60 → IsStatusConditionTrue (kh_Conditions (hp_stored p)) ConditionReady = false.
Proof.
  intros h p Hr. assert (proxy_seen (kh_Conditions h)) as Hh by (apply proxy_seen_history, proxy_seen_set).
  destruct (proj2 (proxy_seen_pass now api h Hh) Hr) as (dep & conds & Hf & E). fold p in E. rewrite E.
  destruct Hf as [Hf|Hf]; refine (proj2 (build_not_ready now dep conds _ _ _ Hf)); done.
Qed.

(** The scaling section of a handler is valid, and stays so. *)
Definition scaling_kept (op : handler_op) : Prop := match op with HEdit new => scaling_invalid new = false | _ => True end.

Lemma deps_false_pass now api h :
  scaling_invalid h = false → is_false (kh_Conditions h) "DependenciesReady" →
  let p := handler_reconcile sha256 tool_text skill_text now api h in
  is_false (kh_Conditions (hp_stored p)) "DependenciesReady" ∧
  (hp_result p = Ok 60 → ∃ dep conds, is_false conds "DependenciesReady" ∧
     kh_Conditions (hp_stored p) = buildHandlerConditions now dep conds).
Proof.
  intros Hs Hh. apply (reconcile_keeps (λ conds, is_false conds "DependenciesReady")).
  - intros now' conds c _ _ Hc Hf. destruct (decide (c_Type c = "DependenciesReady"%string)) as [E|E].
    + rewrite <-E. apply is_false_set. by apply Hc.
    + by apply is_false_other.
  - intros. by apply proxy_keeps.
  - congruence.
  - done.
Qed.

Lemma pass_scaling now api h : scaling_invalid (hp_stored (handler_reconcile sha256 tool_text skill_text now api h)) = scaling_invalid h.
Proof.
  unfold handler_reconcile, store_status. destruct (validateDependencies _ _) as [d|[why|msg]].
  - destruct (scaling_invalid h) eqn:E; [by destruct (ha_status_stored api)|].
    destruct (ha_config api); [|done]. destruct (reconcileWorkload _ _ _ _) as [works [msg|]]; [done|].
    assert (∀ evs h', scaling_invalid h' = false →
      scaling_invalid (foldl (λ h ev, proxy_reconcile (fst ev) (snd ev) h) h' evs) = false) as Hev
      by (induction evs as [|ev evs IH]; intros h' Hh'; [done|]; by apply IH).
    specialize (Hev (ha_meanwhile api) (if ha_labels_stored api then SyncLabels h (ref_labels h d) else h)).
    destruct (ha_deployment api); [destruct (ha_status_stored api)|]; apply Hev; by destruct (ha_labels_stored api).
  - by destruct (ha_status_stored api).
  - done.
Qed.

(** A handler that has once waited for its dependencies never becomes ready: the
    pass that finds them ready sets DependenciesReady only on its own copy, which it
    throws away when it reads the handler again, so the stored condition stays false
    and every later pass rolls it up into Ready. *)
Theorem gated_handler_sticks h0 ops now api :
  is_false (kh_Conditions h0) "DependenciesReady" → scaling_invalid h0 = false → Forall scaling_kept ops →
  let p := handler_reconcile sha256 tool_text skill_text now api (foldl handler_step h0 ops) in
  is_false (kh_Conditions (hp_stored p)) "DependenciesReady" ∧
  (hp_result p = Ok 60 → IsStatusConditionTrue (kh_Conditions (hp_stored p)) ConditionReady = false).
Proof.
  intros Hf Hs Ho.
  assert (is_false (kh_Conditions (foldl handler_step h0 ops)) "DependenciesReady" ∧
          scaling_invalid (foldl handler_step h0 ops) = false) as [Hh Hsc].
  { revert h0 Hf Hs. induction Ho as [|op ops Hop _ IH]; intros h Hf Hs; [done|]. cbn [foldl]. apply IH; destruct op; cbn [handler_step].
    - by apply deps_false_pass.
    - by apply proxy_keeps.
    - done.
    - by rewrite pass_scaling.
    - done.
    - done. }
  intros p. destruct (deps_false_pass now api _ Hsc Hh) as [H1 H2]. split; [exact H1|]. intros Hr.
  destruct (H2 Hr) as (dep & conds & Hc & E). fold p in E. rewrite E. refine (proj2 (build_not_ready now dep conds _ _ _ Hc)); done.
Qed.

(** ** References protect *)

(** Folding in labels that are all ["true"] keeps and adds them. *)
Lemma fold_true {A} (f : A → string) l k : ∀ m : gmap string string,
  m !! k = Some "true"%string ∨ k ∈ f <$> l → foldl (λ m x, <[f x := "true"%string]> m) m l !! k = Some "true"%string.
Proof.
  induction l as [|x l IH]; intros m H; cbn [foldl]; [destruct H as [H|H]; [done|by apply elem_of_nil in H]|].
  apply IH. rewrite fmap_cons, elem_of_cons in H. destruct (decide (f x = k)) as [<-|E]; [left; apply lookup_insert_eq|].
  rewrite lookup_insert_ne by done. destruct H as [H|[H|H]]; [by left|congruence|by right].
Qed.

Lemma fold_other {A} (f : A → string) l k : ∀ m : gmap string string,
  k ∉ f <$> l → foldl (λ m x, <[f x := "true"%string]> m) m l !! k = m !! k.
Proof.
  induction l as [|x l IH]; intros m H; cbn [foldl]; [done|]. rewrite fmap_cons, not_elem_of_cons in H. destruct H as [H1 H2].
  rewrite IH by done. by rewrite lookup_insert_ne.
Qed.

Lemma ref_labels_spec h d :
  (∀ t, t ∈ rd_Tools d → ref_labels h d !! tool_ref (kt_Name t) = Some "true"%string) ∧
  (∀ s, s ∈ kh_Skills h → ref_labels h d !! skill_ref s = Some "true"%string) ∧
  ref_labels h d !! "kape.io/schema-ref"%string = Some (kh_SchemaRef h).
Proof.
  unfold ref_labels. split_and!.
  - intros t Ht. apply fold_true. left. apply (fold_true (λ t, tool_ref (kt_Name t))). right. by apply (list_elem_of_fmap_2 (λ t, tool_ref (kt_Name t))).
  - intros s Hs. apply fold_true. right. by apply list_elem_of_fmap_2.
  - rewrite (fold_other skill_ref), (fold_other (λ t, tool_ref (kt_Name t))); [apply lookup_singleton_eq|..];
      intros (x & E & _)%list_elem_of_fmap; discriminate E.
Qed.

Lemma meanwhile_labels evs : ∀ h, kh_Labels (foldl (λ h ev, proxy_reconcile (fst ev) (snd ev) h) h evs) = kh_Labels h.
Proof. induction evs as [|ev evs IH]; intros h; [done|]. cbn [foldl]. by rewrite IH. Qed.

(** A pass that reaches the end has labelled the handler with all it refers to. *)
Lemma pass_labels now api h :
  let p := handler_reconcile sha256 tool_text skill_text now api h in
  hp_result p = Ok 60 → ha_labels_stored api = true →
  ∃ d, validateDependencies (ha_lookups api) h = Ok d ∧ kh_Labels (hp_stored p) = ref_labels h d ∪ kh_Labels h.
Proof.
  unfold handler_reconcile. destruct (validateDependencies _ _) as [d|[why|msg]]; [|done|done].
  destruct (scaling_invalid h); [done|]. destruct (ha_config api); [|done].
  destruct (reconcileWorkload _ _ _ _) as [works [msg|]]; [done|]. destruct (ha_deployment api) as [dep|]; [|done].
  destruct (ha_status_stored api); [|done]. cbn [hp_result hp_stored with_replicas with_conditions kh_Labels]. intros _ ->.
  exists d. split; [done|]. by rewrite meanwhile_labels.
Qed.

Lemma labelled_tool_stays now api t hs h :
  ts_Type (kt_Spec t) = "memory"%string → kt_Deleting t = true → ta_handlers api = Ok hs → h ∈ hs →
  kh_Labels h !! tool_ref (kt_Name t) = Some "true"%string →
  match tool_reconcile now api t with TDone p => is_Some (tp_stored p) | TPanic => False end.
Proof.
  intros Hty Hd Hh Hin Hl. unfold tool_reconcile. rewrite Hty. cbn [String.eqb]. cbn match. unfold reconcileMemory.
  destruct (if kt_Finalizer t then None else ta_finalizer_fails api); [by eexists|].
  cbn [kt_Deleting tool_with]. rewrite Hd. unfold handleMemoryDeletion. rewrite Hh. cbn [kt_Name tool_with].
  destruct (ListHandlersByToolRef hs (kt_Name t)) as [|h' l] eqn:E; [|by eexists].
  exfalso. assert (h ∈ ListHandlersByToolRef hs (kt_Name t)) as Hx by (by apply list_elem_of_filter).
  rewrite E in Hx. by apply elem_of_nil in Hx.
Qed.

(** C26. What a running handler refers to cannot be deleted: after a pass of the
    handler that reached the end and whose label patch was stored (one that fails is
    only logged, and the pass reports success all the same), a memory tool that it
    names, itself or through one of its skills, a skill and the schema it names all
    survive every pass over them while they are being deleted, as long as the list of
    handlers such a pass reads has the handler as it was stored. *)
Theorem references_protect now api h0 hs :
  (∀ n t, get_tool (ha_lookups api) n = Ok (Some t) → kt_Name t = n) →
  let p := handler_reconcile sha256 tool_text skill_text now api h0 in
  hp_result p = Ok 60 → ha_labels_stored api = true → hp_stored p ∈ hs →
  ∃ d, validateDependencies (ha_lookups api) h0 = Ok d ∧
  (∀ t now' tapi, kt_Name t ∈ referenced h0 (rd_Skills d) → ts_Type (kt_Spec t) = "memory"%string → kt_Deleting t = true →
     ta_handlers tapi = Ok hs →
     match tool_reconcile now' tapi t with TDone q => is_Some (tp_stored q) | TPanic => False end) ∧
  (∀ s now' oapi, sk_Name s ∈ kh_Skills h0 → sk_Deleting s = true → oa_handlers oapi = Ok hs →
     is_Some (fst (skill_reconcile now' oapi s))) ∧
  (∀ s now' oapi, sc_Name s = kh_SchemaRef h0 → sc_Deleting s = true → oa_handlers oapi = Ok hs →
     is_Some (fst (schema_reconcile sha256 now' oapi s))).
Proof.
  intros Hnamed p Hr Hls Hin. destruct (pass_labels now api h0 Hr Hls) as (d & Hd & Hl). fold p in Hl. exists d. split; [done|].
  destruct (ref_labels_spec h0 d) as (Lt & Ls & Lc). split_and!.
  - intros t now' tapi Hn Hty Hdel Hh. eapply labelled_tool_stays; [done|done|exact Hh|exact Hin|].
    destruct (validateDependencies_spec _ Hnamed h0 d Hd) as (_ & _ & _ & _ & m & Et & Hf & Hdm).
    assert (kt_Name t ∈ dom m) as [t' Ht']%elem_of_dom by (rewrite Hdm; by apply elem_of_list_to_set).
    pose proof (Hnamed _ _ (Hf _ _ Ht')) as En. rewrite Hl. apply lookup_union_Some_l. rewrite <-En. apply Lt.
    rewrite Et. apply (sortedTools_in _ Hnamed); [done|]. by rewrite En.
  - intros s now' oapi Hs Hdel Hh. unfold skill_reconcile. destruct (validateSkillSpec s); cbn [negb]; [|by eexists].
    destruct (if sk_Finalizer s then None else _); [by eexists|]. cbn [skill_with sk_Deleting]. rewrite Hdel.
    unfold skill_deletion. rewrite Hh. cbn [skill_with sk_Name]. destruct (ListHandlersBySkillRef hs (sk_Name s)) eqn:E; [|by eexists].
    exfalso. assert (hp_stored p ∈ ListHandlersBySkillRef hs (sk_Name s)) as Hx.
    { apply list_elem_of_filter. split; [|done]. rewrite Hl. apply lookup_union_Some_l. by apply Ls. }
    rewrite E in Hx. by apply elem_of_nil in Hx.
  - intros s now' oapi Hs Hdel Hh. unfold schema_reconcile. destruct (validateJSONSchema s); cbn [negb]; [|by eexists].
    destruct (if sc_Finalizer s then None else _); [by eexists|]. cbn [schema_with sc_Deleting]. rewrite Hdel.
    unfold schema_deletion. rewrite Hh. cbn [schema_with sc_Name]. destruct (ListHandlersBySchemaRef hs (sc_Name s)) eqn:E; [|by eexists].
    exfalso. assert (hp_stored p ∈ ListHandlersBySchemaRef hs (sc_Name s)) as Hx.
    { apply list_elem_of_filter. split; [|done]. rewrite Hl, Hs. apply lookup_union_Some_l. exact Lc. }
    rewrite E in Hx. by apply elem_of_nil in Hx.
Qed.

Lemma pass_keeps_labels now api h k :
  kh_Labels h !! tool_ref k = Some "true"%string →
  kh_Labels (hp_stored (handler_reconcile sha256 tool_text skill_text now api h)) !! tool_ref k = Some "true"%string.
Proof.
  intros Hk. unfold handler_reconcile, store_status. destruct (validateDependencies _ _) as [d|[why|msg]].
  - destruct (scaling_invalid h); [by destruct (ha_status_stored api)|].
    destruct (ha_config api); [|done]. destruct (reconcileWorkload _ _ _ _) as [works [msg|]]; [done|].
    assert (kh_Labels (if ha_labels_stored api then SyncLabels h (ref_labels h d) else h) !! tool_ref k = Some "true"%string) as H1.
    { destruct (ha_labels_stored api); [|done]. cbn [SyncLabels with_labels kh_Labels].
      destruct (ref_labels h d !! tool_ref k) as [v|] eqn:E; [|by rewrite lookup_union_r].
      rewrite (lookup_union_Some_l _ _ _ _ E). f_equal. revert E. unfold ref_labels.
      destruct (decide (tool_ref k ∈ skill_ref <$> kh_Skills h)) as [(s & Es & _)%list_elem_of_fmap|Hn]; [discriminate Es|].
      rewrite fold_other by done. destruct (decide (tool_ref k ∈ (λ t, tool_ref (kt_Name t)) <$> rd_Tools d)) as [Ht|Ht].
      - rewrite (fold_true (λ t, tool_ref (kt_Name t))) by (by right). by intros [= <-].
      - rewrite (fold_other (λ t, tool_ref (kt_Name t))) by done. rewrite lookup_singleton_ne by discriminate. done. }
    destruct (ha_deployment api); [destruct (ha_status_stored api)|];
      cbn [hp_stored with_replicas with_conditions kh_Labels]; by rewrite meanwhile_labels.
  - by destruct (ha_status_stored api).
  - done.
Qed.

(** A reference outlives its handler's need: labels are only ever added, so a tool
    a handler once referred to stays undeletable through any passes and edits of the
    spec that drop the reference, until somebody removes the label by hand. *)
Theorem stale_reference_blocks h0 ops hs t now tapi :
  kh_Labels h0 !! tool_ref (kt_Name t) = Some "true"%string →
  Forall (λ op, match op with HEdit new => kh_Labels new !! tool_ref (kt_Name t) = Some "true"%string | _ => True end) ops →
  foldl handler_step h0 ops ∈ hs → ts_Type (kt_Spec t) = "memory"%string → kt_Deleting t = true → ta_handlers tapi = Ok hs →
  match tool_reconcile now tapi t with TDone q => is_Some (tp_stored q) | TPanic => False end.
Proof.
  intros Hl Ho Hin Hty Hdel Hh. eapply labelled_tool_stays; [done|done|exact Hh|exact Hin|]. clear Hin.
  revert h0 Hl. induction Ho as [|op ops Hop _ IH]; intros h Hl; [done|]. cbn [foldl]. apply IH. destruct op; cbn [handler_step].
  - by apply pass_keeps_labels.
  - done.
  - done.
Qed.

(** A schema that turned invalid cannot be deleted: the check of the spec comes
    first and ends the pass, so the finalizer is never removed, whoever refers to it. *)
Theorem invalid_schema_undeletable now oapi s :
  validateJSONSchema s = false →
  ∃ s', fst (schema_reconcile sha256 now oapi s) = Some s' ∧ sc_Finalizer s' = sc_Finalizer s ∧ sc_Deleting s' = sc_Deleting s.
Proof.
  intros Hv. unfold schema_reconcile. rewrite Hv. cbn [negb fst]. eexists. split; [done|].
  unfold schema_status. by destruct (oa_status_fails oapi).
Qed.

End Readiness.

(** ** A handler *)

Definition ready_conds : list Condition := [cond ConditionReady true "Ready"].

Definition notes_tool : KapeTool :=
  mkTool "notes" (mkToolSpec "memory" None (Some (mkMemory "cosine" None)) None) true true ready_conds "http://q".

Definition runbook : KapeSkill := mkSkill "runbook" "d" "i" true ["notes"%string] false true ready_conds.

Definition alert_schema : KapeSchema :=
  mkSchema "alert" "object" ["x"%string] ["x"%string] "{}" false true ready_conds "".

Definition triage : KapeHandler :=
  mkHandler "triage" "team-a" "{}" "kape.events.alert" "alert" [] ["runbook"%string] None ∅ [] 0.

Definition triage_lookups : Lookups :=
  mkLookups (λ n, Ok (if String.eqb n "alert" then Some alert_schema else None))
            (λ n, Ok (if String.eqb n "notes" then Some notes_tool else None))
            (λ n, Ok (if String.eqb n "runbook" then Some runbook else None)).

Definition triage_api : HandlerApi :=
  mkHandlerApi triage_lookups (Ok (mkKapeConfig "kape/kapeproxy" "1")) (λ _, None) (Ok None) true [] (Ok (Some 1)) true.

Definition healthy_pod : list ContainerStatus := [mkContainer "handler" true None; mkContainer "kapeproxy" true None].

Definition triage_pass : HandlerPassed := handler_reconcile (λ s, s) (λ _, "") (λ _, "") 7 triage_api triage.

Lemma triage_named n t : get_tool triage_lookups n = Ok (Some t) → kt_Name t = n.
Proof. cbn. destruct (String.eqb_spec n "notes") as [->|]; [|discriminate]. intros [= <-]. reflexivity. Qed.

Lemma dependencies_resolved_witness :
  IsStatusConditionTrue (sc_Conditions alert_schema) ConditionReady = true ∧
  ∀ t, t ∈ [notes_tool] ↔
    kt_Name t ∈ ["notes"%string] ∧ get_tool triage_lookups (kt_Name t) = Ok (Some t) ∧
    IsStatusConditionTrue (kt_Conditions t) ConditionReady = true.
Proof.
  split; [reflexivity|].
  apply (dependencies_resolved triage_lookups triage_named triage (mkDeps alert_schema [notes_tool] [runbook])).
  vm_compute. reflexivity.
Defined.

(** It was ready before its pod was seen, and is not ready afterwards. *)
Lemma observed_proxy_never_ready_witness :
  IsStatusConditionTrue (kh_Conditions (hp_stored triage_pass)) ConditionReady = true ∧
  IsStatusConditionTrue (kh_Conditions (hp_stored (handler_reconcile (λ s, s) (λ _, "") (λ _, "") 9 triage_api
    (proxy_reconcile 8 healthy_pod (hp_stored triage_pass))))) ConditionReady = false.
Proof.
  split; [vm_compute; reflexivity|].
  apply (observed_proxy_never_ready (λ s, s) (λ _, ""%string) (λ _, ""%string) 8 healthy_pod (hp_stored triage_pass) [] 9 triage_api).
  vm_compute. reflexivity.
Defined.

(** A pass while the schema is missing, then passes with everything there. *)
Definition missing_schema : HandlerApi :=
  mkHandlerApi (mkLookups (λ _, Ok None) (λ _, Ok None) (λ _, Ok None)) (Ok (mkKapeConfig "" "")) (λ _, None) (Ok None) true [] (Ok None) true.

Lemma gated_handler_sticks_witness :
  let h := hp_stored (handler_reconcile (λ s, s) (λ _, "") (λ _, "") 6 missing_schema triage) in
  let p := handler_reconcile (λ s, s) (λ _, "") (λ _, "") 9 triage_api
             (foldl (handler_step (λ s, s) (λ _, "") (λ _, "")) h [HPass 7 triage_api; HPass 8 triage_api]) in
  hp_result p = Ok 60 ∧ IsStatusConditionTrue (kh_Conditions (hp_stored p)) ConditionReady = false.
Proof.
  intros h p. split; [vm_compute; reflexivity|].
  apply (gated_handler_sticks (λ s, s) (λ _, ""%string) (λ _, ""%string) h [HPass 7 triage_api; HPass 8 triage_api] 9 triage_api).
  - eexists. split; vm_compute; reflexivity.
  - reflexivity.
  - repeat constructor.
  - vm_compute. reflexivity.
Defined.

Definition tool_api (hs : list KapeHandler) : ToolApi :=
  mkToolApi (Ok hs) None (Ok true) None (Ok None) None None (λ _, Ok 200) None None.

Lemma references_protect_witness :
  match tool_reconcile 9 (tool_api [hp_stored triage_pass]) notes_tool with
  | TDone q => is_Some (tp_stored q)
  | TPanic => False
  end.
Proof.
  destruct (references_protect (λ s, s) (λ _, ""%string) (λ _, ""%string) 7 triage_api triage [hp_stored triage_pass] triage_named)
    as (d & Hd & Ht & _).
  - vm_compute. reflexivity.
  - reflexivity.
  - left.
  - apply Ht; try reflexivity. vm_compute in Hd. injection Hd as <-. left.
Defined.

Definition triage_without : KapeHandler :=
  mkHandler "triage" "team-a" "{}" "kape.events.alert" "alert" [] [] None (kh_Labels (hp_stored triage_pass)) [] 0.

Lemma stale_reference_blocks_witness :
  let h := foldl (handler_step (λ s, s) (λ _, "") (λ _, "")) (hp_stored triage_pass) [HEdit triage_without; HPass 8 triage_api] in
  match tool_reconcile 9 (tool_api [h]) notes_tool with TDone q => is_Some (tp_stored q) | TPanic => False end.
Proof.
  intros h.
  apply (stale_reference_blocks (λ s, s) (λ _, ""%string) (λ _, ""%string) (hp_stored triage_pass)
    [HEdit triage_without; HPass 8 triage_api] [h]); try reflexivity.
  - constructor; [vm_compute; reflexivity|]. constructor; [exact I|constructor].
  - left.
Defined.

Lemma invalid_schema_undeletable_witness :
  let s := mkSchema "alert" "object" ["y"%string] ["x"%string] "{}" true true ready_conds "" in
  ∃ s', fst (schema_reconcile (λ s, s) 9 (mkOwnedApi (Ok []) (λ _, Ok None) None None) s) = Some s' ∧ sc_Finalizer s' = true ∧ sc_Deleting s' = true.
Proof. apply (invalid_schema_undeletable (λ s, s)). vm_compute. reflexivity. Defined.
