(* ===== verification/Runtime.v ===== *)
(** * The handler runtime (src/runtime/src/kape_runtime)

    One handler consumes events from its stream: it acknowledges a message, has
    the task service create a task, parses the event, runs the agent, writes the
    outcome to the task and runs the configured actions.  Python's exceptions are
    the errors of a small state monad; the task service is the one of [Tasks] and
    [TaskHttp], over a connection that may fail before or after the request is
    served, with other requests served between two calls.  The agent graph, the
    template engine, the query language of conditions, the message bus and the
    validation library are arguments. *)

From Stdlib Require Import Ascii String ZArith.
From Stdlib Require Import Floats.SpecFloat.
From S2P Require Import Prelude Json GoTime GoStrings Tasks TaskHttp.
From stdpp Require Import base list strings numbers gmap.
Local Open Scope Z_scope.

(** ** Exceptions and effects *)

Inductive exc : Type :=
| HTTPStatusError (code : Z)
| TransportError
| NatsTimeoutError
| KeyError (key : string)
| AttributeError
| TypeError
| Raised (msg : string).

(** What the runtime does to the outside world, the task service apart. *)
Inductive effect : Type :=
| Acked
| Published (subject : string) (envelope : json)
| Posted (url body : string)
| Upserted (collection text handler task : string)
| DeadLettered (subject task_id raw : string) (e : exc)
| ActionCounted (action type status : string)
| Counted (status : string).

Record rt : Type := mkRt { rt_db : DB; rt_log : list effect }.

Definition py (A : Type) : Type := rt → rt * res exc A.

Definition py_ret {A} (a : A) : py A := λ s, (s, Ok a).
Definition raise {A} (e : exc) : py A := λ s, (s, Err e).
Definition py_bind {A B} (m : py A) (k : A → py B) : py B :=
  λ s, match m s with
       | (s', Ok a) => k a s'
       | (s', Err e) => (s', Err e)
       end.
Definition try_except {A} (m : py A) (h : exc → py A) : py A :=
  λ s, match m s with
       | (s', Ok a) => (s', Ok a)
       | (s', Err e) => h e s'
       end.
Definition emit (e : effect) : py unit := λ s, (mkRt (rt_db s) (rt_log s ++ [e]), Ok ()).
Definition from_res {A} (r : res exc A) : py A := λ s, (s, r).

Declare Scope py_scope.
Delimit Scope py_scope with py.
Notation "x <-- m ;; k" := (py_bind m (λ x, k)) (at level 100, m at next level, right associativity) : py_scope.
Notation "m ;;; k" := (py_bind m (λ _, k)) (at level 100, right associativity) : py_scope.
Local Open Scope py_scope.

(** ** Models *)

(** [datetime]: with a time zone, an instant in microseconds; or without one. *)
Inductive py_time : Type := Aware (us : Z) | Naive (us : Z).

Record CloudEvent : Type := mkEvent {
  ce_specversion : string; ce_type : string; ce_source : string; ce_id : string; ce_time : py_time;
  ce_datacontenttype : string; ce_data : fields; ce_extensions : fields
}.

Definition _KNOWN_CE_FIELDS : list string :=
  ["specversion"; "type"; "source"; "id"; "time"; "datacontenttype"; "data"]%string.

(** The validator that runs before the fields are read: it writes the other
    members of the dictionary it is given into its ["extensions"] entry. *)
Definition _extract_extensions (values : json) : res exc json :=
  match values with
  | JObj ms =>
      let ext := filter (λ kv, mem_str kv.1 _KNOWN_CE_FIELDS = false) ms in
      Ok (JObj (fput "extensions" (JObj ext) ms))
  | _ => Err AttributeError
  end.

Record Action : Type := mkAct {
  a_name : option string; a_type : option string; a_condition : option string;
  a_subject : option string; a_event_type : option string; a_type_field : option string; a_source : option string;
  a_payload : option json;
  a_url : option string; a_body_template : option string;
  a_collection : option string; a_text_template : option string
}.

Record KapeConfig : Type := mkKapeConfig {
  k_handler_name : string; k_handler_namespace : string; k_cluster_name : string; k_dry_run : bool;
  k_max_iterations : Z; k_schema_name : string; k_max_event_age_seconds : Z; k_actions : list Action
}.

Record Msg : Type := mkMsg { m_subject : string; m_data : string }.

(** [x or y] on strings that may be missing. *)
Definition or_str (x y : option string) : option string :=
  match x with Some s => if String.eqb s "" then y else x | None => y end.

Definition str_or (x : option string) (d : string) : string := default d x.

(** The truth value of a decoded document; [0] and [0.0] are the zero numbers a
    document can hold, and [zero_literal] says which other literals are zero. *)
Definition truthy (zero_literal : string → bool) (j : json) : bool :=
  match j with
  | JNull => false
  | JBool b => b
  | JInt z => negb (z =? 0)
  | JNum l => negb (zero_literal l)
  | JStr s => negb (String.eqb s "")
  | JArr l => match l with [] => false | _ => true end
  | JObj l => match l with [] => false | _ => true end
  end.

(** ** The libraries the runtime calls *)

Class Libraries : Type := {
  loads : string → res exc json;
  validate : json → res exc CloudEvent;
  decode_replace : string → string;
  exc_str : exc → string;
  format_exc : exc → string;
  render : string → json → res exc string;
  jsonpath_find : string → json → res exc (list json);
  zero_literal : string → bool;
  repr : string → string
}.

(** How a request to the task service goes: not sent, served without the answer
    arriving, or answered; what the service did before it and between its
    statements; the troubles its statements meet. *)
Inductive link : Type := Answered | Unsent | Unanswered.

Record call : Type := mkCall {
  c_link : link; c_before : DB → DB; c_trouble : update_trouble; c_w1 : DB → DB; c_w2 : DB → DB
}.

Definition is_success (code : Z) : bool := (200 <=? code) && (code <? 300).

Section Client.
Context `{Postgres}.

(** A request, [raise_for_status] and the body. *)
Definition request (c : call) (serve : DB → DB * response) : py body :=
  λ s, let db := c_before c (rt_db s) in
       match c_link c with
       | Unsent => (mkRt db (rt_log s), Err TransportError)
       | Unanswered => (mkRt (serve db).1 (rt_log s), Err TransportError)
       | Answered =>
           match serve db with
           | (db', Resp code b) =>
               (mkRt db' (rt_log s), if is_success code then Ok b else Err (HTTPStatusError code))
           end
       end.

(** The created task's id, from the body. *)
Definition client_create (c : call) (p : CreateParams) : py string :=
  b <-- request c (λ db, let '(db', r, _) := CreateTask (ut_write (c_trouble c)) (Some p) db in (db', r)) ;;
  match b with
  | BTask t => py_ret (g_Id t)
  | _ => raise (KeyError "id")
  end.

(** The body as the service decodes it: the duration is an [int32] and the output
    an object. *)
Definition decode_update (r : UpdateStatusRequest) : option UpdateStatusRequest :=
  let fits := match ur_DurationMs r with
              | Some d => (-2147483648 <=? d) && (d <? 2147483648)
              | None => true
              end in
  let object := match ur_SchemaOutput r with Some (JObj _) | None => true | Some _ => false end in
  if fits && object then Some r else None.

Definition client_update_status (c : call) (id : string) (body : UpdateStatusRequest) : py unit :=
  request c (λ db, let '(db', r, _) := UpdateTaskStatus (c_trouble c) (c_w1 c) (c_w2 c) id (decode_update body) db
                   in (db', r)) ;;;
  py_ret ().

Definition client_delete (c : call) (id : string) : py unit :=
  request c (λ db, DeleteTask (ut_write (c_trouble c)) id db) ;;; py_ret ().

End Client.

(** ** Actions *)

Section Actions.
Context `{Libraries}.

Definition _condition_matches (condition : option string) (schema_output : json) : bool :=
  match or_str condition None with
  | None => true
  | Some c =>
      match jsonpath_find c schema_output with
      | Ok matches => existsb (truthy zero_literal) matches
      | Err _ => false
      end
  end.

Definition _PROMPT_MARKER : string := "$prompt".

(** The first exception of a list of computations, or all the results. *)
Fixpoint all_ok {A B} (f : A → res exc B) (l : list A) : res exc (list B) :=
  match l with
  | [] => Ok []
  | x :: l' =>
      match f x with
      | Err e => Err e
      | Ok y => match all_ok f l' with Ok ys => Ok (y :: ys) | Err e => Err e end
      end
  end.

Fixpoint _render (value : json) (ctx : json) : res exc json :=
  match value with
  | JStr s =>
      if String.eqb s _PROMPT_MARKER then Ok (JStr _PROMPT_MARKER)
      else match render s ctx with Ok t => Ok (JStr t) | Err e => Err e end
  | JObj ms =>
      match all_ok (λ kv, match _render kv.2 ctx with Ok v => Ok (kv.1, v) | Err e => Err e end) ms with
      | Ok ms' => Ok (JObj ms')
      | Err e => Err e
      end
  | JArr l => match all_ok (λ v, _render v ctx) l with Ok l' => Ok (JArr l') | Err e => Err e end
  | v => Ok v
  end.

(** The outcome of the last, external, step of an action: its exception, if any,
    and the fresh identifier and instant the action uses. *)
Record step_answer : Type := mkStep { sa_fails : option exc; sa_uuid : string; sa_time : string }.

Definition perform (fails : option exc) (e : effect) : py unit :=
  match fails with Some x => raise x | None => emit e end.

(** [nats] says whether the client is there. *)
Definition emit_event (nats : bool) (ans : step_answer) (action : Action) (schema_output : json)
    (parent_task_id : json) : py unit :=
  match a_subject action with
  | None => raise (KeyError "subject")
  | Some subject =>
      let event_type := str_or (or_str (a_event_type action) (or_str (a_type_field action) (Some subject))) "" in
      let source := str_or (a_source action) "kape-runtime" in
      rendered <-- from_res (_render (default (JObj []) (a_payload action)) schema_output) ;;
      let payload := match rendered with JObj ms => ms | v => [("value"%string, v)] end in
      let payload := fput "parent_task_id" parent_task_id payload in
      let envelope := JObj [("specversion", JStr "1.0"); ("id", JStr (sa_uuid ans)); ("type", JStr event_type);
                            ("source", JStr source); ("time", JStr (sa_time ans));
                            ("datacontenttype", JStr "application/json"); ("data", JObj payload)]%string in
      if nats then perform (sa_fails ans) (Published subject envelope) else raise AttributeError
  end.

Definition post_webhook (ans : step_answer) (action : Action) (schema_output : json) : py unit :=
  match a_url action with
  | None => raise (KeyError "url")
  | Some url =>
      rendered <-- from_res (render (str_or (a_body_template action) "{}") schema_output) ;;
      (* the request goes out before its status is looked at *)
      match sa_fails ans with
      | Some (HTTPStatusError c) => emit (Posted url rendered) ;;; raise (HTTPStatusError c)
      | fails => perform fails (Posted url rendered)
      end
  end.

Definition save_memory (qdrant : bool) (ans : step_answer) (action : Action) (schema_output : json)
    (handler_name task_id : string) : py unit :=
  let collection := str_or (a_collection action) "kape_memory" in
  rendered <-- from_res (render (str_or (a_text_template action) "") schema_output) ;;
  if qdrant then perform (sa_fails ans) (Upserted collection rendered handler_name task_id)
  else raise AttributeError.

Record clients : Type := mkClients { cl_nats : bool; cl_qdrant : bool }.

(** One action: what is run for its type, or [None] for an unknown type. *)
Definition dispatch (cl : clients) (ans : step_answer) (action : Action) (schema_output : json)
    (handler_name task_id : string) (parent_task_id : json) : option (py unit) :=
  let action_type := str_or (a_type action) "" in
  if String.eqb action_type "event-publish" then
    Some (emit_event (cl_nats cl) ans action schema_output parent_task_id)
  else if String.eqb action_type "webhook" then Some (post_webhook ans action schema_output)
  else if String.eqb action_type "save_memory" then
    Some (save_memory (cl_qdrant cl) ans action schema_output handler_name task_id)
  else None.

Definition unknown_type (t : string) : string := ("unknown action type: " ++ repr t)%string.

Definition run_action (cl : clients) (ans : step_answer) (action : Action) (schema_output : json)
    (handler_name task_id : string) (parent_task_id : json) : py ActionResult :=
  let name := str_or (a_name action) "<unnamed>" in
  let action_type := str_or (a_type action) "" in
  let finish status error :=
    emit (ActionCounted name action_type status) ;;; py_ret (mkAction name action_type status false error) in
  if negb (_condition_matches (a_condition action) schema_output) then finish "skipped"%string None
  else match dispatch cl ans action schema_output handler_name task_id parent_task_id with
       | None => finish "error"%string (Some (unknown_type action_type))
       | Some m =>
           try_except (m ;;; finish "success"%string None) (λ e, finish "error"%string (Some (exc_str e)))
       end.

Fixpoint run_actions (cl : clients) (answers : nat → step_answer) (actions : list Action) (schema_output : json)
    (handler_name task_id : string) (parent_task_id : json) : py (list ActionResult) :=
  match actions with
  | [] => py_ret []
  | a :: rest =>
      r <-- run_action cl (answers O) a schema_output handler_name task_id parent_task_id ;;
      rs <-- run_actions cl (λ n, answers (S n)) rest schema_output handler_name task_id parent_task_id ;;
      py_ret (r :: rs)
  end.

End Actions.

(** ** Durations

    Python's [total_seconds] and the arithmetic on it are on 64-bit floats. *)

Definition float_of (z : Z) : spec_float := binary_normalize 53 1024 z 0 false.

Definition total_seconds (us : Z) : spec_float := SFdiv 53 1024 (float_of us) (float_of 1000000).

(** [int(x)], for a finite [x]. *)
Definition float_trunc (x : spec_float) : Z :=
  match x with
  | S754_finite s m e =>
      let a := if 0 <=? e then Z.pos m * 2 ^ e else Z.pos m / 2 ^ (- e) in
      if s then - a else a
  | _ => 0
  end.

Definition duration_ms (us : Z) : Z := float_trunc (SFmul 53 1024 (total_seconds us) (float_of 1000)).

Definition is_stale (age_us max_age : Z) : bool := SFltb (float_of max_age) (total_seconds age_us).

(** ** The agent

    The graph ends in its respond node, or raises; [respond] turns what the model
    answered into the state that is left. *)

Record AgentState : Type := mkState {
  st_schema_output : option json; st_parse_error : option string; st_task_status : TaskStatus
}.

Section Consumer.
Context `{Postgres} `{Libraries}.

Definition respond (answer : res exc (option json)) : AgentState :=
  match answer with
  | Ok result => mkState result None StatusCompleted
  | Err e => mkState None (Some (exc_str e)) StatusSchemaValidationFailed
  end.

(** What one message meets: the calls to the task service, the clock's readings
    (microseconds), the agent's answer, and what the actions and the dead-letter
    publication meet. *)
Record world : Type := mkWorld {
  w_id : string; w_clock : nat → Z; w_ack : option exc;
  w_create : call; w_delete : call; w_update : call; w_actions_update : call; w_fail : call;
  w_graph : res exc (res exc (option json));
  w_steps : nat → step_answer; w_dlq : option exc
}.

Definition parse_event (raw : string) : res exc (json * CloudEvent) :=
  match loads raw with
  | Err e => Err e
  | Ok d =>
      match _extract_extensions d with
      | Err e => Err e
      | Ok d' => match validate d' with Ok ev => Ok (d', ev) | Err e => Err e end
      end
  end.

Definition create_payload (cfg : KapeConfig) (w : world) (event_id source type : string) (raw : json) :
    CreateParams :=
  mkParams (w_id w) (k_cluster_name cfg) (k_handler_name cfg) (k_handler_namespace cfg)
    event_id source type raw (k_dry_run cfg) None None (1000 * w_clock w 0).

Definition malformed_update (raw : string) : UpdateStatusRequest :=
  mkUpdateReq StatusUnprocessableEvent None None None
    (mkTaskError "MalformedEvent" "Could not parse CloudEvents envelope" None (Some (decode_replace raw)) None) None.

Definition outcome_update (cfg : KapeConfig) (w : world) (st : AgentState) : UpdateStatusRequest :=
  mkUpdateReq (st_task_status st) (Some (1000 * w_clock w 4)) (st_schema_output st) None
    (match or_str (st_parse_error st) None with
     | Some e => mkTaskError "SchemaValidationFailed" e (Some (k_schema_name cfg)) None None
     | None => no_error
     end) (Some (duration_ms (w_clock w 3 - w_clock w 2))).

Definition failed_update (w : world) (e : exc) : UpdateStatusRequest :=
  mkUpdateReq StatusFailed (Some (1000 * w_clock w 6)) None None
    (mkTaskError "UnhandledError" (exc_str e) None None (Some (format_exc e)))
    (Some (duration_ms (w_clock w 5 - w_clock w 2))).

Definition publish_dlq (fails : option exc) (handler_name task_id raw : string) (e : exc) : py unit :=
  match fails with
  | Some _ => py_ret ()
  | None => emit (DeadLettered ("kape.events.dlq." ++ handler_name) task_id raw e)
  end.

(** The parent's id: the extension, when it is there. *)
Definition parent_of (ev : CloudEvent) : json := default (JStr "") (fget "parent_task_id" (ce_extensions ev)).

(** The body of the [try]. *)
Definition run_agent (cl : clients) (cfg : KapeConfig) (w : world) (id : string) (ev : CloudEvent) : py unit :=
  answer <-- from_res (w_graph w) ;;
  let st := respond answer in
  client_update_status (w_update w) id (outcome_update cfg w st) ;;;
  match st_schema_output st, k_actions cfg with
  | Some out, _ :: _ =>
      results <-- run_actions cl (w_steps w) (k_actions cfg) out (k_handler_name cfg) id (parent_of ev) ;;
      client_update_status (w_actions_update w) id
        (mkUpdateReq (st_task_status st) None None (Some results) no_error None)
  | _, _ => py_ret ()
  end ;;;
  emit (Counted (if String.eqb (st_task_status st) StatusFailed then "failed" else "processed")%string).

Definition on_failure (cl : clients) (cfg : KapeConfig) (w : world) (id raw : string) (e : exc) : py unit :=
  (if cl_nats cl then publish_dlq (w_dlq w) (k_handler_name cfg) id raw e else py_ret ()) ;;;
  client_update_status (w_fail w) id (failed_update w e) ;;;
  emit (Counted "failed").

Definition process_message (cl : clients) (cfg : KapeConfig) (w : world) (msg : Msg) : py unit :=
  perform (w_ack w) Acked ;;;
  match parse_event (m_data msg) with
  | Err _ =>
      id <-- client_create (w_create w) (create_payload cfg w "unknown" "unknown" (m_subject msg) (JObj [])) ;;
      client_update_status (w_update w) id (malformed_update (m_data msg)) ;;;
      emit (Counted "failed")
  | Ok (raw, ev) =>
      id <-- client_create (w_create w) (create_payload cfg w (ce_id ev) (ce_source ev) (ce_type ev) raw) ;;
      match ce_time ev with
      | Naive _ => raise TypeError
      | Aware t =>
          if is_stale (w_clock w 1 - t) (k_max_event_age_seconds cfg) then client_delete (w_delete w) id
          else try_except (run_agent cl cfg w id ev) (on_failure cl cfg w id (m_data msg))
      end
  end.

(** The loop: a fetch gives at most one message, or raises; a time-out of the
    bus is caught, anything else that is raised ends it. *)
Inductive fetch : Type := Fetched (w : world) (msg : Msg) | FetchRaises (e : exc).

Definition is_timeout (e : exc) : bool := match e with NatsTimeoutError => true | _ => false end.

Fixpoint ConsumerLoop_run (cl : clients) (cfg : KapeConfig) (fetches : list fetch) : py unit :=
  match fetches with
  | [] => py_ret ()
  | f :: rest =>
      try_except (match f with Fetched w msg => process_message cl cfg w msg | FetchRaises e => raise e end)
        (λ e, if is_timeout e then py_ret () else raise e) ;;;
      ConsumerLoop_run cl cfg rest
  end.

End Consumer.

(** ** Lemmas *)

(** Between its own requests a task is left alone. *)
Definition keeps (id : string) (f : DB → DB) : Prop :=
  ∀ db, filter (λ r, has_id id r = true) (db_rows (f db)) = filter (λ r, has_id id r = true) (db_rows db).

Definition rows_of (id : string) (s : rt) : list taskRow := filter (λ r, has_id id r = true) (db_rows (rt_db s)).

Section Facts.
Context `{Postgres} `{Libraries}.

Definition smooth (id : string) (c : call) : Prop :=
  c_link c = Answered ∧ c_trouble c = calm ∧ keeps id (c_before c) ∧ keeps id (c_w1 c) ∧ keeps id (c_w2 c).

Lemma filter_replace id status f db r :
  filter (λ r, has_id id r = true) (db_rows db) = [r] →
  filter (λ r, has_id id r = true) (db_rows (replace_rows (has_id id) (set_columns status f) db)) =
    [set_columns status f r].
Proof.
  intros Hf. unfold replace_rows. cbn [db_rows]. by rewrite (filter_update (has_id id)), Hf by done.
Qed.

Lemma update_alone id status f w1 w2 db r :
  keeps id w1 → keeps id w2 → filter (λ r, has_id id r = true) (db_rows db) = [r] →
  if String.eqb (r_Status r) StatusProcessing && IsTerminal status then
    ∃ db' t, UpdateStatus_Execute calm w1 w2 id status f db = (db', Ok t, [t]) ∧
      filter (λ r, has_id id r = true) (db_rows db') = [set_columns status f r]
  else UpdateStatus_Execute calm w1 w2 id status f db = (db, Err (ErrInvalidTransition (r_Status r) status), []).
Proof.
  intros K1 K2 Hf. change (String.eqb (r_Status r) StatusProcessing && IsTerminal status)
    with (validTransitions (r_Status r) status).
  unfold UpdateStatus_Execute, Repository_FindByID. cbn [ut_read ut_write ut_reread calm read].
  rewrite (select_one_spec _ _ _ Hf). cbn [fromRow t_Status].
  destruct (validTransitions _ _) eqn:E; [|done].
  destruct (proj1 (validTransitions_spec _ _) E) as [E1 E2]. cbn [negb].
  assert (filter (λ r, has_id id r = true) (db_rows (w1 db)) = [r]) as Hf1 by (by rewrite K1).
  pose proof (filter_replace id status f _ _ Hf1) as Hr. rewrite <-K2 in Hr.
  unfold Repository_UpdateStatus, run, update_stmt. rewrite (terminal_is_status _ E2). cbn [negb].
  rewrite (no_terminal_selected id (w1 db) r Hf1), Hf1 by (by rewrite E1). cbn [fmap list_fmap].
  fold (replace_rows (has_id id) (set_columns status f) (w1 db)).
  rewrite (select_one_spec _ _ _ Hr). eauto.
Qed.

Definition fits (r : UpdateStatusRequest) : Prop := decode_update r = Some r.

(** A status update of a processing task, nothing in the way. *)
Lemma client_update_ok c id r req s :
  smooth id c → fits req → rows_of id s = [r] → r_Status r = StatusProcessing → IsTerminal (ur_Status req) = true →
  ∃ db', client_update_status c id req s = (mkRt db' (rt_log s), Ok ()) ∧
    filter (λ r, has_id id r = true) (db_rows db') = [set_columns (ur_Status req) (update_fields req) r].
Proof.
  intros (Hl & Ht & Kb & K1 & K2) Hfit Hr Hs Hterm. unfold client_update_status, py_bind, request, UpdateTaskStatus.
  rewrite Hl, Ht, Hfit. unfold rows_of in Hr. rewrite <-Kb in Hr.
  pose proof (update_alone id (ur_Status req) (update_fields req) _ _ _ _ K1 K2 Hr) as Hu.
  rewrite Hs, Hterm in Hu. destruct Hu as (db' & t & -> & Hf). by exists db'.
Qed.

(** A status update of a task that is settled already. *)
Lemma client_update_refused c id r req s :
  smooth id c → fits req → rows_of id s = [r] → r_Status r ≠ StatusProcessing →
  client_update_status c id req s = (mkRt (c_before c (rt_db s)) (rt_log s), Err (HTTPStatusError 409)) ∧
  filter (λ r, has_id id r = true) (db_rows (c_before c (rt_db s))) = [r].
Proof.
  intros (Hl & Ht & Kb & K1 & K2) Hfit Hr Hs. unfold client_update_status, py_bind, request, UpdateTaskStatus.
  rewrite Hl, Ht, Hfit. unfold rows_of in Hr. rewrite <-Kb in Hr. split; [|done].
  pose proof (update_alone id (ur_Status req) (update_fields req) _ _ _ _ K1 K2 Hr) as Hu.
  apply String.eqb_neq in Hs. rewrite Hs in Hu. cbn [andb] in Hu. by rewrite Hu.
Qed.

Lemma client_create_ok c p s :
  smooth (cp_ID p) c → rows_of (cp_ID p) s = [] →
  existsb (holds_instant (stored_time (cp_ReceivedAt p))) (db_parts (c_before c (rt_db s))) = true →
  ∃ db', client_create c p s = (mkRt db' (rt_log s), Ok (cp_ID p)) ∧
    filter (λ r, has_id (cp_ID p) r = true) (db_rows db') = [store_row (toRow (NewTask p))].
Proof.
  intros (Hl & Ht & Kb & _) Hr Hp. unfold rows_of in Hr. rewrite <-Kb in Hr.
  destruct (create_fresh p (c_before c (rt_db s))) as (db' & Hc & Hs); [|done|].
  { apply not_true_iff_false. rewrite existsb_exists. intros (x & Hx%list_elem_of_In & E).
    assert (x ∈ filter (λ r, has_id (cp_ID p) r = true) (db_rows (c_before c (rt_db s)))) as Hin
      by (by apply list_elem_of_filter). rewrite Hr in Hin. by apply elem_of_nil in Hin. }
  exists db'. unfold client_create, py_bind, request, CreateTask. rewrite Hl, Ht. cbn [ut_write calm].
  rewrite Hc. split; [done|]. revert Hs. unfold select_one.
  destruct (filter _ (db_rows db')) as [|? [|]]; [done| |done]. by intros [= ->].
Qed.

Lemma client_delete_ok c id r s :
  smooth id c → rows_of id s = [r] →
  ∃ db', client_delete c id s = (mkRt db' (rt_log s), Ok ()) ∧ filter (λ r, has_id id r = true) (db_rows db') = [].
Proof.
  intros (Hl & Ht & Kb & _) Hr. unfold rows_of in Hr. rewrite <-Kb in Hr.
  unfold client_delete, py_bind, request, DeleteTask, DeleteTask_Execute, Repository_Delete. rewrite Hl, Ht.
  cbn [ut_write calm run]. unfold delete_stmt. rewrite Hr. cbn [length]. eexists. split; [done|]. cbn [db_rows].
  rewrite list_filter_filter. apply filter_none. apply Forall_forall. intros x _ [E1 E2]. congruence.
Qed.

End Facts.

(** ** Computations that leave the task service alone *)

(** [m] adds [effs] to the log and ends in [o], whatever the state. *)
Definition outside {A} (m : py A) (effs : list effect) (o : res exc A) : Prop :=
  ∀ s, m s = (mkRt (rt_db s) (rt_log s ++ effs), o).

Lemma outside_res {A} (r : res exc A) : outside (from_res r) [] r.
Proof. intros [db l]. unfold from_res. cbn [rt_db rt_log]. by rewrite app_nil_r. Qed.

Lemma outside_bind {A B} (m : py A) (k : A → py B) e1 a e2 o :
  outside m e1 (Ok a) → outside (k a) e2 o → outside (py_bind m k) (e1 ++ e2) o.
Proof. intros Hm Hk s. unfold py_bind. rewrite Hm, Hk. cbn [rt_db rt_log]. by rewrite app_assoc. Qed.

Lemma outside_raise_bind {A B} (m : py A) (k : A → py B) e1 e :
  outside m e1 (Err e) → outside (py_bind m k) e1 (Err e).
Proof. intros Hm s. unfold py_bind. by rewrite Hm. Qed.

Lemma outside_try {A} (m : py A) (h : exc → py A) e1 e e2 o :
  outside m e1 (Err e) → outside (h e) e2 o → outside (try_except m h) (e1 ++ e2) o.
Proof. intros Hm Hh s. unfold try_except. rewrite Hm, Hh. cbn [rt_db rt_log]. by rewrite app_assoc. Qed.

Lemma outside_try_ok {A} (m : py A) (h : exc → py A) e1 a :
  outside m e1 (Ok a) → outside (try_except m h) e1 (Ok a).
Proof. intros Hm s. unfold try_except. by rewrite Hm. Qed.

(** The computation has such a description. *)
Definition external {A} (m : py A) : Prop := ∃ effs o, outside m effs o.

Lemma external_res {A} (r : res exc A) : external (from_res r).
Proof. eexists _, _. apply outside_res. Qed.

Lemma external_raise {A} (e : exc) : external (@raise A e).
Proof. apply (external_res (Err e)). Qed.

Lemma external_emit e : external (emit e).
Proof. by exists [e], (Ok ()). Qed.

Lemma external_bind {A B} (m : py A) (k : A → py B) :
  external m → (∀ a, external (k a)) → external (py_bind m k).
Proof.
  intros (e1 & [a|e] & Hm) Hk; [|eexists _, _; by apply outside_raise_bind].
  destruct (Hk a) as (e2 & o & Hk'). eexists _, _. by eapply outside_bind.
Qed.

Lemma external_perform f e : external (perform f e).
Proof. destruct f; [apply external_raise|apply external_emit]. Qed.

Create HintDb runtime.
#[export] Hint Resolve external_res external_raise external_emit external_bind external_perform : runtime.

Section ActionFacts.
Context `{Libraries}.

Lemma dispatch_external cl ans a out h t p m : dispatch cl ans a out h t p = Some m → external m.
Proof.
  unfold dispatch. repeat case_match; intros; simplify_eq.
  - unfold emit_event. case_match; [|auto with runtime]. apply external_bind; [auto with runtime|].
    intros. case_match; auto with runtime.
  - unfold post_webhook. case_match; [|auto with runtime]. apply external_bind; [auto with runtime|].
    intros. repeat case_match; auto with runtime.
  - unfold save_memory. apply external_bind; [auto with runtime|]. intros. case_match; auto with runtime.
Qed.

(** What an action's entry in the report says of it. *)
Definition reports (out : json) (a : Action) (r : ActionResult) : Prop :=
  ac_Name r = str_or (a_name a) "<unnamed>" ∧ ac_Type r = str_or (a_type a) "" ∧
  (ac_Status r = "skipped"%string ↔ _condition_matches (a_condition a) out = false) ∧
  (ac_Status r = "success" ∨ ac_Status r = "skipped" ∨ ac_Status r = "error")%string.

Lemma run_action_reports cl ans a out h t p :
  ∃ effs r, outside (run_action cl ans a out h t p) effs (Ok r) ∧ reports out a r.
Proof.
  unfold run_action, reports.
  set (finish := λ status error, (emit (ActionCounted (str_or (a_name a) "<unnamed>") (str_or (a_type a) "") status) ;;;
                 py_ret (mkAction (str_or (a_name a) "<unnamed>") (str_or (a_type a) "") status false error))).
  assert (∀ st er, outside (finish st er) [ActionCounted (str_or (a_name a) "<unnamed>") (str_or (a_type a) "") st]
            (Ok (mkAction (str_or (a_name a) "<unnamed>") (str_or (a_type a) "") st false er))) as Hfin by done.
  destruct (_condition_matches _ _) eqn:Ec; cbn [negb]; [|eexists _, _; split; [apply Hfin|]; cbn; naive_solver].
  destruct (dispatch _ _ _ _ _ _ _) as [m|] eqn:Ed; [|eexists _, _; split; [apply Hfin|]; cbn; naive_solver].
  destruct (dispatch_external _ _ _ _ _ _ _ _ Ed) as (e1 & [[]|e] & Hm).
  - eexists _, _; split; [eapply outside_try_ok, outside_bind; [apply Hm|apply Hfin]|]. cbn; naive_solver.
  - eexists _, _; split; [eapply outside_try; [by apply outside_raise_bind|apply Hfin]|]. cbn; naive_solver.
Qed.

Lemma run_actions_all cl answers actions out h t p :
  ∃ effs rs, outside (run_actions cl answers actions out h t p) effs (Ok rs) ∧ Forall2 (reports out) actions rs.
Proof.
  revert answers. induction actions as [|a actions IH]; intros answers; [by exists [], []; split; [apply (outside_res (Ok []))|]|].
  cbn [run_actions]. destruct (run_action_reports cl (answers O) a out h t p) as (e1 & r & Hr & ?).
  destruct (IH (λ n, answers (S n))) as (e2 & rs & Hrs & ?).
  eexists _, (r :: rs). split; [|by constructor].
  eapply outside_bind; [done|]. eapply outside_bind; [done|]. apply (outside_res (Ok (r :: rs))).
Qed.

(** Running the configured actions never raises and never touches the task
    service: whatever the actions meet, the report has one entry per action, in
    order, with its name and type; an entry is [skipped] exactly when the action's
    condition does not match, and says success or error otherwise. *)
Theorem run_actions_reports_all cl answers actions out h t p s :
  ∃ effs rs, run_actions cl answers actions out h t p s = (mkRt (rt_db s) (rt_log s ++ effs), Ok rs) ∧
    Forall2 (reports out) actions rs.
Proof. destruct (run_actions_all cl answers actions out h t p) as (effs & rs & Ho & Hr). exists effs, rs. by rewrite Ho. Qed.

End ActionFacts.

(** ** One message *)

Section Messages.
Context `{Postgres} `{Libraries}.
Context (cl : clients) (cfg : KapeConfig) (w : world) (msg : Msg).

Definition int32 (z : Z) : Prop := -2147483648 ≤ z < 2147483648.

(** Nothing in the way: the message is acknowledged, the task service answers,
    the task's id is new, and the month of its arrival has a partition. *)
Record quiet (s : rt) : Prop := {
  q_ack : w_ack w = None;
  q_calls : Forall (smooth (w_id w)) [w_create w; w_delete w; w_update w; w_actions_update w; w_fail w];
  q_new : rows_of (w_id w) s = [];
  q_partition : existsb (holds_instant (stored_time (1000 * w_clock w 0)))
                  (db_parts (c_before (w_create w) (rt_db s))) = true;
  q_short : int32 (duration_ms (w_clock w 3 - w_clock w 2)) ∧ int32 (duration_ms (w_clock w 5 - w_clock w 2));
  q_object : ∀ j, w_graph w = Ok (Ok (Some j)) → ∃ ms, j = JObj ms
}.

(** The row of a task created from [p] and settled by [req]. *)
Definition settled (p : CreateParams) (req : UpdateStatusRequest) : taskRow :=
  set_columns (ur_Status req) (update_fields req) (store_row (toRow (NewTask p))).

Definition event_payload (raw : json) (ev : CloudEvent) : CreateParams :=
  create_payload cfg w (ce_id ev) (ce_source ev) (ce_type ev) raw.

Definition dead_letter (e : exc) : effect :=
  DeadLettered ("kape.events.dlq." ++ k_handler_name cfg) (w_id w) (m_data msg) e.

Lemma fits_outcome s a : quiet s → w_graph w = Ok a → fits (outcome_update cfg w (respond a)).
Proof.
  intros Q Hg. unfold fits, decode_update, outcome_update. cbn [ur_DurationMs ur_SchemaOutput].
  destruct (q_short s Q) as [[Hl Hh] _]. apply Z.leb_le in Hl. apply Z.ltb_lt in Hh. rewrite Hl, Hh.
  destruct a as [[j|]|e]; [|done..]. by destruct (q_object s Q j Hg) as [ms ->].
Qed.

Lemma fits_failed s e : quiet s → fits (failed_update w e).
Proof.
  intros Q. unfold fits, decode_update, failed_update. cbn [ur_DurationMs ur_SchemaOutput].
  destruct (q_short s Q) as [_ [Hl Hh]]. apply Z.leb_le in Hl. apply Z.ltb_lt in Hh. by rewrite Hl, Hh.
Qed.

Lemma respond_terminal a : IsTerminal (st_task_status (respond a)) = true.
Proof. by destruct a. Qed.

Lemma quiet_smooth s c :
  quiet s → c ∈ [w_create w; w_delete w; w_update w; w_actions_update w; w_fail w] → smooth (w_id w) c.
Proof. intros Q Hc. by apply (proj1 (Forall_forall _ _) (q_calls s Q)). Qed.

(** The acknowledgement and the create, in front of whatever follows. *)
Lemma opens {A} (k : string → py A) s p :
  quiet s → cp_ID p = w_id w → cp_ReceivedAt p = 1000 * w_clock w 0 →
  ∃ db', filter (λ r, has_id (w_id w) r = true) (db_rows db') = [store_row (toRow (NewTask p))] ∧
    (perform (w_ack w) Acked ;;; (id <-- client_create (w_create w) p ;; k id)) s =
      k (w_id w) (mkRt db' (rt_log s ++ [Acked])).
Proof.
  intros Q Hid Ht. unfold py_bind at 1. rewrite (q_ack s Q). cbn [perform emit].
  destruct (client_create_ok (w_create w) p (mkRt (rt_db s) (rt_log s ++ [Acked]))) as (db' & Hc & Hf).
  - rewrite Hid. apply (quiet_smooth s); [done|set_solver].
  - rewrite Hid. apply (q_new s Q).
  - rewrite Ht. apply (q_partition s Q).
  - exists db'. rewrite Hid in Hf, Hc. split; [done|]. unfold py_bind. by rewrite Hc.
Qed.

(** The update that settles the new task. *)
Lemma settles_new s c p req db log :
  quiet s → c ∈ [w_create w; w_delete w; w_update w; w_actions_update w; w_fail w] → fits req →
  IsTerminal (ur_Status req) = true →
  filter (λ r, has_id (w_id w) r = true) (db_rows db) = [store_row (toRow (NewTask p))] →
  ∃ db', client_update_status c (w_id w) req (mkRt db log) = (mkRt db' log, Ok ()) ∧
    filter (λ r, has_id (w_id w) r = true) (db_rows db') = [settled p req].
Proof. intros Q Hc Hfit Ht Hf. by eapply client_update_ok; [eapply quiet_smooth|..]. Qed.

(** What becomes of the message: the task's row, if it has one, and the effects. *)
Definition settlement (raw : json) (ev : CloudEvent) (stale : bool) : option taskRow * list effect :=
  if stale then (None, [Acked])
  else match w_graph w with
       | Ok a => (Some (settled (event_payload raw ev) (outcome_update cfg w (respond a))), [Acked; Counted "processed"])
       | Err e => (Some (settled (event_payload raw ev) (failed_update w e)), [Acked; dead_letter e; Counted "failed"])
       end.

(** No action is due: none is configured, or the agent gave no output. *)
Definition no_action_due : Prop := k_actions cfg = [] ∨ ∀ j, w_graph w ≠ Ok (Ok (Some j)).

Lemma event_settles s raw ev t :
  quiet s → cl_nats cl = true → w_dlq w = None → no_action_due →
  parse_event (m_data msg) = Ok (raw, ev) → ce_time ev = Aware t →
  let '(row, effs) := settlement raw ev (is_stale (w_clock w 1 - t) (k_max_event_age_seconds cfg)) in
  ∃ s', process_message cl cfg w msg s = (s', Ok ()) ∧
    rows_of (w_id w) s' = option_list row ∧ rt_log s' = rt_log s ++ effs.
Proof.
  intros Q Hn Hd Ha Hp Ht. unfold process_message. rewrite Hp, Ht.
  destruct (opens (λ id, if is_stale (w_clock w 1 - t) (k_max_event_age_seconds cfg) then client_delete (w_delete w) id
          else try_except (run_agent cl cfg w id ev) (on_failure cl cfg w id (m_data msg))) s
          (event_payload raw ev) Q eq_refl eq_refl) as (db & Hf & Ho).
  unfold event_payload in Ho. rewrite Ho. unfold settlement. destruct (is_stale _ _).
  { destruct (client_delete_ok (w_delete w) (w_id w) _ (mkRt db (rt_log s ++ [Acked]))
      (quiet_smooth s (w_delete w) Q ltac:(set_solver)) Hf) as (db' & -> & Hf'). by eexists. }
  unfold try_except, run_agent, on_failure, from_res, publish_dlq. unfold py_bind at 1. rewrite Hn, Hd.
  destruct (w_graph w) as [a|e] eqn:Hg.
  - destruct (settles_new s (w_update w) _ _ _ (rt_log s ++ [Acked]) Q ltac:(set_solver) (fits_outcome s a Q Hg)
      (respond_terminal a) Hf) as (db' & Hu & Hf'). unfold py_bind. rewrite Hu.
    assert (st_schema_output (respond a) = None ∨ k_actions cfg = []) as Hno.
    { destruct Ha as [|Ha]; [by right|left]. destruct a as [[j|]|e]; [|done..]. by destruct (Ha j). }
    destruct Hno as [-> | ->]; [|destruct (st_schema_output _)]; destruct a as [?|?]; cbn;
      by eexists; split_and!; [done|done|cbn; by rewrite <-app_assoc].
  - cbn [emit]. unfold py_bind. cbn [emit rt_db rt_log].
    destruct (settles_new s (w_fail w) _ _ _ ((rt_log s ++ [Acked]) ++ [dead_letter e]) Q ltac:(set_solver)
      (fits_failed s e Q) eq_refl Hf) as (db' & Hu & Hf'). unfold dead_letter in Hu. rewrite Hu.
    eexists. split_and!; [done|done|]. cbn. by rewrite <-!app_assoc.
Qed.

(** What the processing of the message returns, the task's row it leaves, and its
    effects. *)
Definition message_outcome : res exc unit * option taskRow * list effect :=
  match parse_event (m_data msg) with
  | Err _ => (Ok (), Some (settled (create_payload cfg w "unknown" "unknown" (m_subject msg) (JObj []))
                             (malformed_update (m_data msg))), [Acked; Counted "failed"])
  | Ok (raw, ev) =>
      match ce_time ev with
      | Aware t =>
          let v := settlement raw ev (is_stale (w_clock w 1 - t) (k_max_event_age_seconds cfg)) in (Ok (), v.1, v.2)
      | Naive _ => (Err TypeError, Some (store_row (toRow (NewTask (event_payload raw ev)))), [Acked])
      end
  end.

(** C23. A message with nothing in the way ([quiet]: it is acknowledged, the task service
    answers each request, the task's id is new, its month has a partition, the agent
    took less than 25 days and its output is an object) and no action due is settled by
    exactly one task, whatever other requests the task service serves meanwhile: an
    unreadable event leaves an [UnprocessableEvent] task holding the bytes, a stale
    one leaves no task, an answered one a task with the agent's verdict, and an
    agent that raised a [Failed] task and one dead letter with the event.  The
    processing ends normally and every task it leaves is terminal, with one
    exception: an event whose time has no zone raises and leaves its task
    processing. *)
Theorem message_settles s :
  quiet s → cl_nats cl = true → w_dlq w = None → no_action_due →
  let '(result, row, effs) := message_outcome in
  ∃ s', process_message cl cfg w msg s = (s', result) ∧
    rows_of (w_id w) s' = option_list row ∧ rt_log s' = rt_log s ++ effs ∧
    (is_ok result = true → Forall (λ r, IsTerminal (r_Status r) = true) (rows_of (w_id w) s')).
Proof.
  intros Q Hn Hd Ha. unfold message_outcome. destruct (parse_event (m_data msg)) as [[raw ev]|e] eqn:Hp;
    [destruct (ce_time ev) as [t|t] eqn:Ht|].
  all: cycle 1.
  - unfold process_message. rewrite Hp, Ht.
    destruct (opens (λ id, @raise unit TypeError) s (event_payload raw ev) Q eq_refl eq_refl) as (db & Hf & Ho).
    unfold event_payload in Ho. rewrite Ho. by eexists.
  - unfold process_message. rewrite Hp.
    destruct (opens (λ id, client_update_status (w_update w) id (malformed_update (m_data msg)) ;;;
      emit (Counted "failed")) s (create_payload cfg w "unknown" "unknown" (m_subject msg) (JObj []))
      Q eq_refl eq_refl) as (db & Hf & ->).
    destruct (settles_new s (w_update w) _ (malformed_update (m_data msg)) db (rt_log s ++ [Acked]) Q
      ltac:(set_solver) eq_refl eq_refl Hf) as (db' & Hu & Hf'). unfold py_bind. rewrite Hu.
    eexists. split; [done|]. unfold rows_of. cbn [rt_db rt_log emit]. rewrite Hf'.
    split; [done|]. split; [by rewrite <-app_assoc|]. by repeat constructor.
  - pose proof (event_settles s raw ev t Q Hn Hd Ha Hp Ht) as He.
    destruct (settlement _ _ _) as [row effs] eqn:Es. cbn [fst snd].
    destruct He as (s' & Hr & Hrow & Hl). exists s'. split_and!; [done..|]. intros _. rewrite Hrow.
    unfold settlement in Es. repeat case_match; simplify_eq; repeat constructor. apply respond_terminal.
Qed.

(** C38. An event whose agent gives an output while actions are configured runs the
    actions, dry run or not, and then stops the consumer although nothing is in the
    way: the task is settled before the actions run, so the task service refuses to
    record their results and, after the event went to the dead-letter subject,
    refuses to record the failure too.  The task stays [Completed] without its
    action results, and no later message is fetched. *)
Theorem actions_stop_consumer s raw ev t out rest :
  quiet s → cl_nats cl = true → w_dlq w = None → k_actions cfg ≠ [] →
  parse_event (m_data msg) = Ok (raw, ev) → ce_time ev = Aware t →
  is_stale (w_clock w 1 - t) (k_max_event_age_seconds cfg) = false → w_graph w = Ok (Ok (Some out)) →
  ∃ s' effs rs, outside (run_actions cl (w_steps w) (k_actions cfg) out (k_handler_name cfg) (w_id w) (parent_of ev))
                  effs (Ok rs) ∧
    ConsumerLoop_run cl cfg (Fetched w msg :: rest) s = (s', Err (HTTPStatusError 409)) ∧
    rt_log s' = rt_log s ++ [Acked] ++ effs ++ [dead_letter (HTTPStatusError 409)] ∧
    rows_of (w_id w) s' = [settled (event_payload raw ev) (outcome_update cfg w (respond (Ok (Some out))))] ∧
    Forall (λ r, r_Status r = StatusCompleted ∧ r_Actions r = None) (rows_of (w_id w) s').
Proof.
  intros Q Hn Hd Ha Hp Ht Hst Hg. cbn [ConsumerLoop_run]. unfold py_bind at 1, try_except at 1, process_message.
  rewrite Hp, Ht, Hst.
  destruct (opens (λ id, try_except (run_agent cl cfg w id ev) (on_failure cl cfg w id (m_data msg))) s
          (event_payload raw ev) Q eq_refl eq_refl) as (db & Hf & Ho).
  unfold event_payload in Ho. rewrite Ho. clear Ho. unfold try_except, run_agent, on_failure, from_res, publish_dlq.
  destruct (run_actions_all cl (w_steps w) (k_actions cfg) out (k_handler_name cfg) (w_id w) (parent_of ev))
    as (effs & rs & Hrun & _).
  unfold py_bind at 1. rewrite Hg, Hn, Hd.
  destruct (settles_new s (w_update w) _ _ _ (rt_log s ++ [Acked]) Q ltac:(set_solver) (fits_outcome s _ Q Hg)
    (respond_terminal (Ok (Some out))) Hf) as (db' & Hu & Hf'). unfold py_bind. rewrite Hu.
  cbn [respond st_schema_output st_task_status]. destruct (k_actions cfg) as [|a l] eqn:Hk; [done|].
  rewrite Hrun. cbn [rt_db rt_log].
  destruct (client_update_refused (w_actions_update w) (w_id w) _
    (mkUpdateReq StatusCompleted None None (Some rs) no_error None) (mkRt db' ((rt_log s ++ [Acked]) ++ effs))
    (quiet_smooth s (w_actions_update w) Q ltac:(set_solver)) eq_refl Hf' ltac:(done)) as [-> Hf2].
  cbn [emit rt_db rt_log].
  destruct (client_update_refused (w_fail w) (w_id w) _ (failed_update w (HTTPStatusError 409))
    (mkRt (c_before (w_actions_update w) db')
          (((rt_log s ++ [Acked]) ++ effs) ++ [dead_letter (HTTPStatusError 409)]))
    (quiet_smooth s (w_fail w) Q ltac:(set_solver)) (fits_failed s _ Q) Hf2 ltac:(done)) as [Hw Hf3].
  unfold dead_letter in Hw. rewrite Hw. eexists _, effs, rs. split; [done|]. split; [done|].
  unfold rows_of. cbn [rt_db rt_log] in *. rewrite Hf3. split; [by rewrite <-!app_assoc|]. split; [done|].
  by repeat constructor.
Qed.

(** An event whose time has no zone stops the consumer and leaves its task
    processing: the subtraction raises outside the [try]. *)
Theorem naive_time_stops_consumer s raw ev t rest :
  quiet s → parse_event (m_data msg) = Ok (raw, ev) → ce_time ev = Naive t →
  ∃ s', ConsumerLoop_run cl cfg (Fetched w msg :: rest) s = (s', Err TypeError) ∧
    rows_of (w_id w) s' = [store_row (toRow (NewTask (event_payload raw ev)))] ∧
    rt_log s' = rt_log s ++ [Acked].
Proof.
  intros Q Hp Ht. cbn [ConsumerLoop_run]. unfold py_bind at 1, try_except at 1, process_message. rewrite Hp, Ht.
  destruct (opens (λ id, @raise unit TypeError) s (event_payload raw ev) Q eq_refl eq_refl) as (db & Hf & Ho).
  unfold event_payload in Ho. rewrite Ho. by eexists.
Qed.

End Messages.

(** ** Events between handlers *)

Section Emission.
Context `{Libraries}.

(** An event that an action publishes carries the parent's id in its data, where
    the receiving handler does not look: its extensions are empty, so a task
    started by it sees no parent, whatever the emitting one passed on. *)
Theorem emitted_event_has_no_parent nats ans a out parent s s' subject env ev ev_json :
  (∀ d e, validate d = Ok e → ∃ ms ext, d = JObj ms ∧ fget "extensions" ms = Some (JObj ext) ∧ ce_extensions e = ext) →
  emit_event nats ans a out parent s = (s', Ok ()) → rt_log s' = rt_log s ++ [Published subject env] →
  _extract_extensions env = Ok ev_json → validate ev_json = Ok ev →
  parent_of ev = JStr "".
Proof.
  intros Hv He Hl Hx Hval. unfold emit_event in He. destruct (a_subject a) as [subj|]; [|done].
  unfold py_bind, from_res in He. destruct (_render _ _) as [rd|]; [|done]. destruct nats; [|done].
  unfold perform in He. destruct (sa_fails ans); [done|]. injection He as <-. cbn [rt_log] in Hl.
  apply app_inv_head in Hl. injection Hl as <- <-. injection Hx as <-.
  destruct (Hv _ _ Hval) as (ms & ext & [= <-] & Hget & Hext). unfold parent_of. rewrite Hext.
  cbn in Hget. injection Hget as <-. done.
Qed.

(** The action types the handler resource admits, [event-emitter], [save-memory]
    and [webhook]: the first two are no type of the runtime, so such an action has
    no effect and is reported as an error. *)
Theorem admitted_types_unknown cl ans a out h t p s :
  a_type a = Some "event-emitter"%string ∨ a_type a = Some "save-memory"%string →
  _condition_matches (a_condition a) out = true →
  ∃ r, run_action cl ans a out h t p s =
    (mkRt (rt_db s) (rt_log s ++ [ActionCounted (str_or (a_name a) "<unnamed>") (str_or (a_type a) "") "error"]), Ok r) ∧
    ac_Status r = "error"%string.
Proof. intros Ht Hc. unfold run_action, dispatch. rewrite Hc. destruct Ht as [-> | ->]; cbn; eauto. Qed.

End Emission.

(** ** Witnesses *)

Module Samples.

Definition alert : json :=
  JObj [("specversion", JStr "1.0"); ("type", JStr "kape.alert"); ("source", JStr "prometheus"); ("id", JStr "e1");
        ("time", JStr "2026-05-01T00:00:00Z"); ("data", JObj [])]%string.

Definition noon : Z := may 1 0 / 1000.

Definition read_event (d : json) : res exc CloudEvent :=
  match d with
  | JObj ms =>
      match fget "extensions" ms with
      | Some (JObj ext) =>
          Ok (mkEvent "1.0" "kape.alert" "prometheus" "e1"
                (if bool_decide (fget "time" ms = Some (JStr "2026-05-01T00:00:00")) then Naive noon else Aware noon)
                "application/json" [] ext)
      | _ => Err (Raised "no extensions")
      end
  | _ => Err (Raised "no object")
  end.

Definition libs : Libraries :=
  {| loads := λ raw, if String.eqb raw "{" then Err (Raised "eof")
                     else if String.eqb raw "naive" then Ok (JObj [("time", JStr "2026-05-01T00:00:00")]%string)
                     else Ok alert;
     validate := read_event; decode_replace := λ s, s; exc_str := λ _, "error"%string;
     format_exc := λ _, "traceback"%string; render := λ s _, Ok s; jsonpath_find := λ _ j, Ok [j];
     zero_literal := λ _, false; repr := λ s, s |}.

Definition plain_call : call := mkCall Answered (λ d, d) calm (λ d, d) (λ d, d).

Definition ack_world (g : res exc (res exc (option json))) : world :=
  mkWorld "t1" (λ n, noon + 1000 * Z.of_nat n) None plain_call plain_call plain_call plain_call plain_call g
    (λ _, mkStep None "u1" "2026-05-01T00:00:01Z") None.

Definition hook : Action :=
  mkAct (Some "notify"%string) (Some "webhook"%string) None None None None None None
    (Some "https://hooks.example/x"%string) None None None.

Definition conf (actions : list Action) : KapeConfig := mkKapeConfig "triage" "kape" "dev" true 10 "verdict" 300 actions.

Definition on : clients := mkClients true false.
Definition start : rt := mkRt migrated [].

Lemma sample_quiet g : (∀ j, g = Ok (Ok (Some j)) → ∃ ms, j = JObj ms) → @quiet MemPg (ack_world g) start.
Proof.
  intros Hg. split; [done| |done|vm_compute; reflexivity|vm_compute; split; split; congruence|done].
  assert (@smooth "t1" plain_call) as Hc by (by repeat split). by repeat constructor.
Qed.

Definition judged : world := ack_world (Ok (Ok (Some (JObj [])))).

Lemma judged_quiet : @quiet MemPg judged start.
Proof. apply sample_quiet. intros j [= <-]. by exists []. Qed.

Lemma message_settles_witness :
  ∃ s', @process_message MemPg libs on (conf []) judged (mkMsg "kape.alert" "{}") start =
    (s', Ok ()).
Proof.
  destruct (@message_settles MemPg libs on (conf []) judged (mkMsg "kape.alert" "{}")
    start judged_quiet eq_refl eq_refl (or_introl eq_refl)) as (s' & Hs & _). exists s'. exact Hs.
Defined.

Lemma actions_stop_consumer_witness :
  ∃ s', @ConsumerLoop_run MemPg libs on (conf [hook])
    [Fetched judged (mkMsg "kape.alert" "{}")] start = (s', Err (HTTPStatusError 409)).
Proof.
  destruct (@actions_stop_consumer MemPg libs on (conf [hook]) judged
    (mkMsg "kape.alert" "{}") start _ _ noon (JObj []) [] judged_quiet eq_refl eq_refl
    ltac:(done) eq_refl eq_refl ltac:(vm_compute; reflexivity) eq_refl) as (s' & effs & rs & _ & Hs & _).
  by exists s'.
Defined.

Lemma naive_time_stops_consumer_witness :
  ∃ s', @ConsumerLoop_run MemPg libs on (conf [])
    [Fetched (ack_world (Err TypeError)) (mkMsg "kape.alert" "naive")] start = (s', Err TypeError).
Proof.
  destruct (@naive_time_stops_consumer MemPg libs on (conf []) (ack_world (Err TypeError)) (mkMsg "kape.alert" "naive")
    start _ _ noon [] (sample_quiet (Err TypeError) ltac:(done)) eq_refl ltac:(vm_compute; reflexivity)) as (s' & Hs & _).
  by exists s'.
Defined.

End Samples.
