(* ===== verification/HandlerRender.v ===== *)
(** * The operator: what a handler is rendered to
      (src/operator: controller/reconcile/system_prompt.go, domain/config,
      infra/toml, infra/k8s: configmap.go, skill_configmap.go, kapeproxy_config.go,
      serviceaccount.go, deployment.go, scaledobject.go, kapeconfig.go) and what
      the pod makes of it (src/runtime: config.py, skills.py)

    The objects of a handler's namespace are maps by name; a pass of the
    reconciler of [Handlers] is the list of works it does, and [exec] does one.
    The texts of the settings and of the proxy's configuration are written and read
    by libraries, whose printers are arguments. *)

From Stdlib Require Import Ascii String ZArith.
From S2P Require Import Prelude Json GoStrings Proxy OperatorReconcile Runtime Handlers.
From stdpp Require Import base list strings numbers gmap sorting pretty.
Local Open Scope Z_scope.

(** ** The platform's configuration *)

Record PlatformConfig : Type := mkPlatform {
  pc_ClusterName : string; pc_HandlerImage : string; pc_HandlerImageVersion : string;
  pc_KapetoolImage : string; pc_KapetoolImageVersion : string;
  pc_KapeproxyImage : string; pc_KapeproxyImageVersion : string;
  pc_NATSMonitoringEndpoint : string; pc_NATSStreamName : string;
  pc_QdrantVersion : string; pc_QdrantStorageClass : string; pc_DefaultMaxIterations : Z
}.

Definition or_default (s d : string) : string := if String.eqb s "" then d else s.

Definition WithDefaults (c : PlatformConfig) : PlatformConfig :=
  mkPlatform (or_default (pc_ClusterName c) "default")
    (or_default (pc_HandlerImage c) "kape/handler") (or_default (pc_HandlerImageVersion c) "latest")
    (or_default (pc_KapetoolImage c) "kape/kapetool") (or_default (pc_KapetoolImageVersion c) "latest")
    (or_default (pc_KapeproxyImage c) "kape/kapeproxy") (or_default (pc_KapeproxyImageVersion c) "latest")
    (or_default (pc_NATSMonitoringEndpoint c) "http://nats.kape-system:8222")
    (or_default (pc_NATSStreamName c) "kape-events")
    (or_default (pc_QdrantVersion c) "v1.14.0") (or_default (pc_QdrantStorageClass c) "standard")
    (if pc_DefaultMaxIterations c =? 0 then 50 else pc_DefaultMaxIterations c).

Definition HandlerImageRef (c : PlatformConfig) : string :=
  or_default (pc_HandlerImage c) "kape/handler" +:+ ":" +:+ or_default (pc_HandlerImageVersion c) "latest".

Definition KapeproxyImageRef (c : PlatformConfig) : string :=
  or_default (pc_KapeproxyImage c) "kape/kapeproxy" +:+ ":" +:+ or_default (pc_KapeproxyImageVersion c) "latest".

(** [strconv.ParseInt(s, 10, 32)]. *)
Definition parse_int32 (s : string) : option Z :=
  match Atoi s with
  | Some n => if (-2147483648 <=? n) && (n <? 2147483648) then Some n else None
  | None => None
  end.

(** [None] is a configuration that could not be read, for whatever reason. *)
Definition Load (data : option (gmap string string)) : res string PlatformConfig :=
  match data with
  | None => Ok (WithDefaults (mkPlatform "" "" "" "" "" "" "" "" "" "" "" 0))
  | Some m =>
      let at_ k := default ""%string (m !! k) in
      let cfg := mkPlatform (at_ "cluster.name") (at_ "kapehandler.image") (at_ "kapehandler.version")
        (at_ "kapetool.image") (at_ "kapetool.version") (at_ "kapeproxy.image") (at_ "kapeproxy.version")
        (at_ "nats.monitoringEndpoint") (at_ "nats.streamName") (at_ "qdrant.version") (at_ "qdrant.storageClass") in
      let raw := at_ "handler.maxIterations" in
      if String.eqb raw "" then Ok (WithDefaults (cfg 0))
      else match parse_int32 raw with
           | Some n => Ok (WithDefaults (cfg n))
           | None => Err ("parsing handler.maxIterations " +:+ raw)
           end
  end%string.

(** ** The rest of a handler's specification *)

Record ActionSpec : Type := mkActionSpec {
  as_Name : string; as_Condition : string; as_Type : string; as_Data : list (string * json)
}.

(** A value, a key of a secret, or another reference, as written. *)
Inductive env_value : Type :=
| EnvValue (v : string)
| EnvSecret (secret key : string)
| EnvRef (source : json).

(** Requests and limits: processor and memory. *)
Record ResourceRequirements : Type := mkResources {
  rq_CPU : string; rq_Memory : string; lm_CPU : string; lm_Memory : string
}.

Record HandlerSpec : Type := mkHandlerSpec {
  hs_UID : string; hs_Provider : string; hs_Model : string; hs_SystemPrompt : string; hs_MaxIterations : Z;
  hs_ReplayOnStartup : option bool; hs_MaxEventAgeSeconds : Z; hs_DryRun : bool;
  hs_Actions : list ActionSpec; hs_Envs : list (string * env_value); hs_Resources : option ResourceRequirements
}.

(** ** The system prompt *)

Definition nl : string := String "010" EmptyString.

Definition skillSeparator : string := nl +:+ nl +:+ "---" +:+ nl +:+ nl.

Definition buildLazyPreamble (lazySkills : list KapeSkill) : string :=
  "Available skills (call load_skill with the skill name to retrieve full instructions):" +:+ nl +:+
  String.concat "" ((λ s, "- " +:+ sk_Name s +:+ ": " +:+ sk_Description s +:+ nl) <$> lazySkills) +:+
  nl +:+ "When you determine a skill is relevant, call load_skill with its name before proceeding.".

Definition AssembleSystemPrompt (prompt : string) (eagerSkills lazySkills : list KapeSkill) : string :=
  let b := prompt in
  let b := match eagerSkills with
           | [] => b
           | _ => b +:+ skillSeparator +:+ String.concat skillSeparator (sk_Instruction <$> eagerSkills)
           end in
  match lazySkills with
  | [] => b
  | _ => b +:+ (match eagerSkills with [] => nl +:+ nl | _ => skillSeparator end) +:+ buildLazyPreamble lazySkills
  end.

(** ** The proxy's configuration *)

Record redactionEntry : Type := mkRedEntry { re_Input : list string; re_Output : list string }.

Record upstreamEntry : Type := mkUpEntry {
  ue_URL : string; ue_Transport : string; ue_AllowedTools : list string; ue_Redaction : option redactionEntry;
  ue_Audit : bool
}.

Definition upstream_entry (mcp : MCPSpec) : upstreamEntry :=
  mkUpEntry (mcp_URL mcp) (mcp_Transport mcp) (mcp_AllowedTools mcp)
    (match mcp_Redaction mcp with
     | Some (inp, out) => match inp, out with [], [] => None | _, _ => Some (mkRedEntry inp out) end
     | None => None
     end)
    (default true (mcp_Audit mcp)).

(** The upstreams of the document, in its order. *)
Definition RenderKapeproxyConfig (tools : list KapeTool) : list (string * upstreamEntry) :=
  omap (λ t, match ts_MCP (kt_Spec t) with Some mcp => Some (kt_Name t, upstream_entry mcp) | None => None end)
    (merge_sort name_before tools).

(** An upstream as the proxy decodes it. *)
Definition decode_entry (e : upstreamEntry) : UpstreamConfig :=
  mkUpstreamConfig (ue_URL e) (ue_Transport e) (ue_AllowedTools e)
    (match ue_Redaction e with
     | Some r => Some (mkRedaction (mkPathRule <$> re_Input r) (mkPathRule <$> re_Output r))
     | None => None
     end)
    (Some (ue_Audit e)).

(** [LoadConfig] on the rendered document. *)
Definition proxy_config (tools : list KapeTool) : list (string * UpstreamConfig) :=
  (λ e, (e.1, load_defaults (decode_entry e.2))) <$> RenderKapeproxyConfig tools.

(** ** The settings *)

Section Settings.
Context (unmarshal : json → option json).

Fixpoint convertActionData (data : list (string * json)) : res string (list (string * json)) :=
  match data with
  | [] => Ok []
  | (k, v) :: rest =>
      match unmarshal v with
      | None => Err ("field " +:+ k)
      | Some x => match convertActionData rest with Ok l => Ok ((k, x) :: l) | Err e => Err e end
      end
  end.

Definition omit_empty (k v : string) : list (string * json) := if String.eqb v "" then [] else [(k, JStr v)].

Fixpoint buildActions (actions : list ActionSpec) : res string (list json) :=
  match actions with
  | [] => Ok []
  | a :: rest =>
      match convertActionData (as_Data a) with
      | Err e => Err ("action " +:+ as_Name a +:+ ": " +:+ e)
      | Ok data =>
          match buildActions rest with
          | Err e => Err e
          | Ok l => Ok (JObj ([("name", JStr (as_Name a)); ("condition", JStr (as_Condition a)); ("type", JStr (as_Type a))]%string
                              ++ match data with [] => [] | _ => [("data"%string, JObj data)] end) :: l)
          end
      end
  end.

(** One section per reference of the handler to a resolved tool; the ports count
    the [mcp] ones.  The section's result, or [None] when an [mcp] tool has no
    [mcp] part. *)
Fixpoint tool_sections (tools : gmap string KapeTool) (refs : list string) (port : Z) (acc : gmap string json) :
    option (gmap string json) :=
  match refs with
  | [] => Some acc
  | ref :: rest =>
      match tools !! ref with
      | None => tool_sections tools rest port acc
      | Some t =>
          let spec := kt_Spec t in
          if String.eqb (ts_Type spec) "mcp" then
            match ts_MCP spec with
            | None => None
            | Some mcp =>
                tool_sections tools rest (port + 1)
                  (<[ref := JObj ([("type", JStr "mcp"); ("sidecar_port", JInt port)]%string
                                  ++ omit_empty "transport" (mcp_Transport mcp))]> acc)
            end
          else if String.eqb (ts_Type spec) "memory" then
            tool_sections tools rest port
              (<[ref := JObj ([("type"%string, JStr "memory")] ++ omit_empty "qdrant_endpoint" (kt_QdrantEndpoint t))]> acc)
          else tool_sections tools rest port acc
      end
  end.

Definition tool_map (tools : list KapeTool) : gmap string KapeTool :=
  foldl (λ m t, <[kt_Name t := t]> m) ∅ tools.

Definition buildToolSections (h : KapeHandler) (tools : list KapeTool) : option (gmap string json) :=
  tool_sections (tool_map tools) (kh_Tools h) 8080 ∅.

(** The document.  A tool without its part is a nil dereference, the last error. *)
Definition Render (h : KapeHandler) (hs : HandlerSpec) (schema : KapeSchema) (tools : list KapeTool)
    (eager lazy : list KapeSkill) (cfg : PlatformConfig) : res string fields :=
  let cfg := WithDefaults cfg in
  let maxIterations := if hs_MaxIterations hs =? 0 then pc_DefaultMaxIterations cfg else hs_MaxIterations hs in
  match buildActions (hs_Actions hs) with
  | Err e => Err ("building actions: " +:+ e)
  | Ok actions =>
      match buildToolSections h tools with
      | None => Err "panic"
      | Some sections =>
          Ok ([ ("kape", JObj [("handler_name", JStr (kh_Name h)); ("handler_namespace", JStr (kh_Namespace h));
                               ("cluster_name", JStr (pc_ClusterName cfg)); ("dry_run", JBool (hs_DryRun hs));
                               ("max_iterations", JInt maxIterations); ("schema_name", JStr (kh_SchemaRef h));
                               ("replay_on_startup", JBool (default true (hs_ReplayOnStartup hs)));
                               ("max_event_age_seconds", JInt (hs_MaxEventAgeSeconds hs))]);
                ("llm", JObj [("provider", JStr (hs_Provider hs)); ("model", JStr (hs_Model hs));
                              ("system_prompt", JStr (AssembleSystemPrompt (hs_SystemPrompt hs) eager lazy))]);
                ("nats", JObj [("subject", JStr (kh_TriggerType h)); ("consumer", JStr (dots_to_dashes (kh_TriggerType h)));
                               ("stream", JStr "kape-events")]);
                ("task_service", JObj [("endpoint", JStr ("http://kape-task-service." +:+ kh_Namespace h +:+ ":8080"))]);
                ("otel", JObj [("endpoint", JStr "http://otel-collector.kape-system:4318");
                               ("service_name", JStr "kape-handler")]) ]%string
              ++ (match map_to_list sections with [] => [] | l => [("tools"%string, JObj l)] end)
              ++ [("schema"%string, JObj [("json"%string, JStr (sc_Text schema))])]
              ++ (match actions with [] => [] | l => [("actions"%string, JArr l)] end))
      end
  end.

End Settings.

(** ** The runtime's reading of the settings *)

Record RuntimeConfig : Type := mkRuntimeConfig {
  cf_kape_handler_name : json; cf_kape_handler_namespace : json; cf_kape_cluster_name : json;
  cf_kape_dry_run : json; cf_kape_max_iterations : json; cf_kape_schema_name : json;
  cf_kape_max_event_age_seconds : json; cf_kape_actions : list json; cf_llm_provider : json;
  cf_llm_model : json; cf_llm_system_prompt : json; cf_nats_url : json; cf_nats_subject : json;
  cf_nats_consumer : json; cf_nats_stream : json; cf_task_service_endpoint : json; cf_otel_endpoint : json;
  cf_otel_service_name : json; cf_proxy_endpoint : json; cf_proxy_transport : json; cf_schema_name : json;
  cf_schema_json_schema : json
}.

(** [raw] answers attribute paths of two names; a missing attribute raises. *)
Section LoadConfig.
Context (raw : string → string → option json).

Definition attr (a b : string) : res exc json := match raw a b with Some v => Ok v | None => Err AttributeError end.

Definition load_config : res exc RuntimeConfig :=
  (let actions := match raw "kape" "actions" with Some (JArr l) => l | _ => [] end in
  let? kape_handler_name := attr "kape" "handler_name" in
  let? kape_handler_namespace := attr "kape" "handler_namespace" in
  let? kape_cluster_name := attr "kape" "cluster_name" in
  let? kape_dry_run := attr "kape" "dry_run" in
  let? kape_max_iterations := attr "kape" "max_iterations" in
  let? kape_schema_name := attr "kape" "schema_name" in
  let? kape_max_event_age_seconds := attr "kape" "max_event_age_seconds" in
  let? llm_provider := attr "llm" "provider" in
  let? llm_model := attr "llm" "model" in
  let? llm_system_prompt := attr "llm" "system_prompt" in
  let? nats_url := attr "nats" "url" in
  let? nats_subject := attr "nats" "subject" in
  let? nats_consumer := attr "nats" "consumer" in
  let? nats_stream := attr "nats" "stream" in
  let? task_service_endpoint := attr "task_service" "endpoint" in
  let? otel_endpoint := attr "otel" "endpoint" in
  let? otel_service_name := attr "otel" "service_name" in
  let? proxy_endpoint := attr "proxy" "endpoint" in
  let? proxy_transport := attr "proxy" "transport" in
  let? schema_name := attr "schema" "name" in
  let? schema_json_schema := attr "schema" "json_schema" in
  Ok (mkRuntimeConfig
    kape_handler_name kape_handler_namespace kape_cluster_name kape_dry_run kape_max_iterations
    kape_schema_name kape_max_event_age_seconds actions llm_provider llm_model llm_system_prompt nats_url
    nats_subject nats_consumer nats_stream task_service_endpoint otel_endpoint otel_service_name proxy_endpoint
    proxy_transport schema_name schema_json_schema))%go.

End LoadConfig.

(** A document's entry under two names. *)
Definition entry (doc : fields) (a b : string) : option json :=
  match fget a doc with Some (JObj ms) => fget b ms | _ => None end.

(** ** The objects of a namespace *)

(** The owner's name and UID. *)
Record ConfigMap : Type := mkCM { cm_Labels : gmap string string; cm_Data : gmap string string; cm_Owner : string * string }.

Inductive volume_source : Type :=
| VolConfigMap (name : string)
| VolSecret (name : string).

Record Container : Type := mkContainer {
  ct_Name : string; ct_Image : string; ct_Ports : list Z; ct_Env : list (string * env_value);
  ct_Resources : ResourceRequirements; ct_Mounts : list (string * string)
}.

(** [dp_Filled] are the fields the rendering leaves unset, by their paths, as the API
    server fills them in. *)
Record DeploymentSpec : Type := mkDepSpec {
  dp_Replicas : Z; dp_Selector : gmap string string; dp_PodLabels : gmap string string;
  dp_PodAnnotations : gmap string string; dp_ServiceAccount : string; dp_Automount : bool;
  dp_Containers : list Container; dp_Volumes : list (string * volume_source); dp_Filled : gmap string string
}.

Record Deployment : Type := mkDep {
  dp_Labels : gmap string string; dp_Annotations : gmap string string; dp_Spec : DeploymentSpec; dp_Owner : string * string
}.

Record ScaledObjectSpec : Type := mkSOSpec {
  so_Target : string; so_Min : Z; so_Max : Z; so_Cooldown : Z;
  so_Endpoint : string; so_Stream : string; so_Consumer : string; so_Lag : string
}.

Record ScaledObject : Type := mkSO { so_Spec : ScaledObjectSpec; so_Owner : string * string }.

(** The objects of the namespace, as the last write left them; what the platform adds to
    them afterwards is a change of the cluster between two passes. *)
Record Cluster : Type := mkCluster {
  cs_ConfigMaps : gmap string ConfigMap; cs_ServiceAccounts : gmap string (string * string);
  cs_Deployments : gmap string Deployment; cs_ScaledObjects : gmap string ScaledObject
}.

Definition with_cms (f : gmap string ConfigMap → gmap string ConfigMap) (c : Cluster) : Cluster :=
  mkCluster (f (cs_ConfigMaps c)) (cs_ServiceAccounts c) (cs_Deployments c) (cs_ScaledObjects c).

Definition configMapName (h : string) : string := "kape-handler-" +:+ h.
Definition kapeproxyConfigMapName (h : string) : string := "kapeproxy-config-" +:+ h.
Definition SkillConfigMapName (h : string) : string := "kape-skills-" +:+ h.
Definition serviceAccountName (h : string) : string := "kape-handler-" +:+ h.
Definition deploymentName (h : string) : string := "kape-handler-" +:+ h.

Section Objects.
Context (h : KapeHandler) (hs : HandlerSpec).

Definition owner : string * string := (kh_Name h, hs_UID hs).

Definition managed : gmap string string :=
  <["kape.io/handler" := kh_Name h]> {["app.kubernetes.io/managed-by" := "kape-operator"]}%string.

(** [Ensure] of the two configuration maps with one file: created, or its data
    replaced when the file differs. *)
Definition ensure_file (name file content : string) (cms : gmap string ConfigMap) : gmap string ConfigMap :=
  match cms !! name with
  | None => <[name := mkCM managed {[file := content]} owner]> cms
  | Some cm =>
      if String.eqb (default ""%string (cm_Data cm !! file)) content then cms
      else <[name := mkCM (cm_Labels cm) {[file := content]} (cm_Owner cm)]> cms
  end.

Definition skill_data (lazySkills : list KapeSkill) : gmap string string :=
  foldl (λ m s, <[sk_Name s +:+ ".txt" := sk_Instruction s]> m) ∅ lazySkills.

Definition ensure_skills (lazySkills : list KapeSkill) (cms : gmap string ConfigMap) : gmap string ConfigMap :=
  let name := SkillConfigMapName (kh_Name h) in
  <[name := mkCM (<["app.kubernetes.io/name"%string := name]> managed) (skill_data lazySkills) owner]> cms.

Definition ensure_account (c : Cluster) : Cluster :=
  let name := serviceAccountName (kh_Name h) in
  match cs_ServiceAccounts c !! name with
  | Some _ => c
  | None => mkCluster (cs_ConfigMaps c) (<[name := owner]> (cs_ServiceAccounts c)) (cs_Deployments c) (cs_ScaledObjects c)
  end.

Definition resolveHandlerResources (override : option ResourceRequirements) : ResourceRequirements :=
  match override with Some r => r | None => mkResources "100m" "128Mi" "500m" "512Mi" end.

Definition buildKapeproxySidecar (cfg : PlatformConfig) : Container :=
  mkContainer "kapeproxy" (KapeproxyImageRef cfg) [8080] [] (mkResources "100m" "128Mi" "500m" "256Mi")
    [("kapeproxy-config", "/etc/kapeproxy")]%string.

Definition externalAPIKeySecretKey : string := "apiKey".

Definition secrets_volume (t : KapeTool) : string := "kape-tool-" +:+ kt_Name t +:+ "-secrets".

Definition memory_env (t : KapeTool) : list (string * env_value) :=
  [("KAPE_TOOL_NAME"%string, EnvValue (kt_Name t))]
  ++ (if String.eqb (kt_QdrantEndpoint t) "" then [] else [("QDRANT_URL"%string, EnvValue (kt_QdrantEndpoint t))])
  ++ (match ts_Memory (kt_Spec t) with
      | Some m => match me_External m with
                  | Some (_, Some secret) => [("QDRANT_API_KEY"%string, EnvSecret secret externalAPIKeySecretKey)]
                  | _ => []
                  end
      | None => []
      end).

Definition memory_tools (tools : list KapeTool) : list KapeTool :=
  merge_sort name_before (filter (λ t, ts_Type (kt_Spec t) = "memory"%string) tools).

Definition has_mcp (tools : list KapeTool) : bool := existsb (λ t, String.eqb (ts_Type (kt_Spec t)) "mcp") tools.

Definition buildDeployment (cfg : PlatformConfig) (rolloutHash : string) (tools : list KapeTool)
    (lazySkillsPresent : bool) : Deployment :=
  let cfg := WithDefaults cfg in
  let name := deploymentName (kh_Name h) in
  let replicas := match kh_Scaling h with Some s => if 0 <? sg_MinReplicas s then sg_MinReplicas s else 1 | None => 1 end in
  let memory := memory_tools tools in
  let env := [("KAPE_HANDLER_NAME", EnvValue (kh_Name h)); ("KAPE_NAMESPACE", EnvValue (kh_Namespace h));
              ("NATS_TLS_CERT", EnvValue "/etc/kape/nats-certs/tls.crt");
              ("NATS_TLS_KEY", EnvValue "/etc/kape/nats-certs/tls.key");
              ("NATS_TLS_CA", EnvValue "/etc/kape/nats-certs/ca.crt")]%string
             ++ hs_Envs hs ++ match memory with [] => [] | primary :: _ => memory_env primary end in
  let mounts := [("settings", "/etc/kape"); ("nats-certs", "/etc/kape/nats-certs")]%string
                ++ (if lazySkillsPresent then [("kape-skills", "/etc/kape/skills")]%string else [])
                ++ ((λ t, (secrets_volume t, "/etc/kape/secrets/" +:+ kt_Name t)) <$> memory) in
  let volumes := [("settings", VolConfigMap (configMapName (kh_Name h))); ("nats-certs", VolSecret "kape-handler-cert")]%string
                 ++ (if lazySkillsPresent then [("kape-skills"%string, VolConfigMap (SkillConfigMapName (kh_Name h)))] else [])
                 ++ ((λ t, (secrets_volume t, VolSecret ("kape-tool-" +:+ kt_Name t +:+ "-conn"))) <$> memory)
                 ++ (if has_mcp tools then [("kapeproxy-config"%string, VolConfigMap (kapeproxyConfigMapName (kh_Name h)))] else []) in
  let handler := mkContainer "handler" (HandlerImageRef cfg) [] env (resolveHandlerResources (hs_Resources hs)) mounts in
  let labels : gmap string string := <["kape.io/handler" := kh_Name h]> {["app.kubernetes.io/name" := name]}%string in
  let hash : gmap string string := {["kape.io/rollout-hash" := rolloutHash]}%string in
  mkDep (<["app.kubernetes.io/name"%string := name]> managed) hash
    (mkDepSpec replicas {["kape.io/handler"%string := kh_Name h]} labels hash (serviceAccountName (kh_Name h)) false
       (handler :: if has_mcp tools then [buildKapeproxySidecar cfg] else []) volumes ∅)
    owner.

(** [Ensure] of the Deployment: created, or its specification, annotations and
    labels replaced. *)
Definition ensure_deployment (desired : Deployment) (c : Cluster) : Cluster :=
  let name := deploymentName (kh_Name h) in
  let d := match cs_Deployments c !! name with
           | None => desired
           | Some existing => mkDep (dp_Labels desired) (dp_Annotations desired) (dp_Spec desired) (dp_Owner existing)
           end in
  mkCluster (cs_ConfigMaps c) (cs_ServiceAccounts c) (<[name := d]> (cs_Deployments c)) (cs_ScaledObjects c).

Definition resolveScaling (s : option ScalingSpec) : ScalingSpec :=
  match s with
  | None => mkScaling 1 10 false 5 60
  | Some s =>
      let or_z a d := if a =? 0 then d else a in
      mkScaling (if negb (sg_ScaleToZero s) && (sg_MinReplicas s =? 0) then 1 else sg_MinReplicas s)
        (or_z (sg_MaxReplicas s) 10) (sg_ScaleToZero s) (or_z (sg_NatsLagThreshold s) 5) (or_z (sg_Stabilization s) 60)
  end.

Definition buildScaledObject (consumerName natsEndpoint streamName : string) : ScaledObject :=
  let scaling := resolveScaling (kh_Scaling h) in
  mkSO (mkSOSpec ("kape-handler-" +:+ kh_Name h) (if sg_ScaleToZero scaling then 0 else sg_MinReplicas scaling)
          (sg_MaxReplicas scaling) (sg_Stabilization scaling) natsEndpoint streamName consumerName
          (pretty (sg_NatsLagThreshold scaling))) owner.

Definition ensure_scaled (cfg : PlatformConfig) (consumer : string) (c : Cluster) : Cluster :=
  let cfg := WithDefaults cfg in
  let desired := buildScaledObject consumer (pc_NATSMonitoringEndpoint cfg) (pc_NATSStreamName cfg) in
  let name := "kape-handler-" +:+ kh_Name h in
  let o := match cs_ScaledObjects c !! name with
           | None => desired
           | Some existing => mkSO (so_Spec desired) (so_Owner existing)
           end in
  mkCluster (cs_ConfigMaps c) (cs_ServiceAccounts c) (cs_Deployments c) (<[name := o]> (cs_ScaledObjects c)).

Definition scaled_consumer (c : Cluster) : option string :=
  so_Consumer ∘ so_Spec <$> cs_ScaledObjects c !! ("kape-handler-" +:+ kh_Name h).

(** One work of a pass, done.  [toml] and [yaml] print the two documents; a
    document that is not rendered leaves its map. *)
Definition exec (unmarshal : json → option json) (toml : fields → string) (yaml : list (string * upstreamEntry) → string)
    (cfg : PlatformConfig) (c : Cluster) (w : work) : Cluster :=
  match w with
  | WSettings d =>
      match Render unmarshal h hs (rd_Schema d) (rd_Tools d) (EagerSkills d) (LazySkills d) cfg with
      | Ok doc => with_cms (ensure_file (configMapName (kh_Name h)) "settings.toml" (toml doc)) c
      | Err _ => c
      end
  | WProxyConfig tools =>
      with_cms (ensure_file (kapeproxyConfigMapName (kh_Name h)) "config.yaml" (yaml (RenderKapeproxyConfig tools))) c
  | WSkills lazy => with_cms (ensure_skills lazy) c
  | WNoSkills => with_cms (delete (SkillConfigMapName (kh_Name h))) c
  | WServiceAccount => ensure_account c
  | WDeployment hash tools lazySkillsPresent => ensure_deployment (buildDeployment cfg hash tools lazySkillsPresent) c
  | WScaledDelete =>
      mkCluster (cs_ConfigMaps c) (cs_ServiceAccounts c) (cs_Deployments c)
        (delete ("kape-handler-" +:+ kh_Name h) (cs_ScaledObjects c))
  | WScaledObject consumer => ensure_scaled cfg consumer c
  end.

End Objects.

(** ** Loading a skill in the pod *)

Definition _not_found (skill_name : string) : string :=
  "Skill '" +:+ skill_name +:+ "' not found. Available skills are listed in your instructions.".

(** [dir] is the directory of skills, if it exists; a name without a slash reaches
    the file [name.txt] of it. *)
Definition load_skill (render : string → res exc string) (dir : option (gmap string string)) (skill_name : string) :
    res exc string :=
  match dir with
  | None => Ok (_not_found skill_name)
  | Some files =>
      match files !! (skill_name +:+ ".txt") with
      | None => Ok (_not_found skill_name)
      | Some raw => render raw
      end
  end.

(** ** What a pass leaves behind *)

Definition file_of (c : Cluster) (name file : string) : option string :=
  cs_ConfigMaps c !! name ≫= λ cm, cm_Data cm !! file.

Section Passes.
Context (h : KapeHandler) (hs : HandlerSpec) (unmarshal : json → option json) (toml : fields → string)
  (yaml : list (string * upstreamEntry) → string) (cfg : PlatformConfig).
Context (toml_some : ∀ doc, toml doc ≠ ""%string) (yaml_some : ∀ doc, yaml doc ≠ ""%string).

Local Notation step := (exec h hs unmarshal toml yaml cfg).

Definition doc_of (d : resolvedDependencies) : res string fields :=
  Render unmarshal h hs (rd_Schema d) (rd_Tools d) (EagerSkills d) (LazySkills d) cfg.

(** The state of the objects after a work. *)
Definition placed (c : Cluster) (w : work) : Prop :=
  match w with
  | WSettings d => ∃ doc, doc_of d = Ok doc ∧ file_of c (configMapName (kh_Name h)) "settings.toml" = Some (toml doc)
  | WProxyConfig tools =>
      file_of c (kapeproxyConfigMapName (kh_Name h)) "config.yaml" = Some (yaml (RenderKapeproxyConfig tools))
  | WSkills lazy =>
      cs_ConfigMaps c !! SkillConfigMapName (kh_Name h) =
        Some (mkCM (<["app.kubernetes.io/name"%string := SkillConfigMapName (kh_Name h)]> (managed h)) (skill_data lazy)
                (owner h hs))
  | WNoSkills => cs_ConfigMaps c !! SkillConfigMapName (kh_Name h) = None
  | WServiceAccount => is_Some (cs_ServiceAccounts c !! serviceAccountName (kh_Name h))
  | WDeployment hash tools lazy =>
      let d := buildDeployment h hs cfg hash tools lazy in
      ∃ o, cs_Deployments c !! deploymentName (kh_Name h) = Some (mkDep (dp_Labels d) (dp_Annotations d) (dp_Spec d) o)
  | WScaledDelete => True
  | WScaledObject consumer =>
      let cfg := WithDefaults cfg in
      ∃ o, cs_ScaledObjects c !! ("kape-handler-" +:+ kh_Name h) =
        Some (mkSO (so_Spec (buildScaledObject h hs consumer (pc_NATSMonitoringEndpoint cfg) (pc_NATSStreamName cfg))) o)
  end.

(** The object a work is about. *)
Definition slot (w : work) : nat :=
  match w with
  | WSettings _ => 0 | WProxyConfig _ => 1 | WSkills _ | WNoSkills => 2 | WServiceAccount => 3
  | WDeployment _ _ _ => 4 | WScaledDelete | WScaledObject _ => 5
  end.

Definition renders (w : work) : Prop := match w with WSettings d => is_ok (doc_of d) = true | _ => True end.

Lemma ensure_file_placed name file content cms :
  content ≠ ""%string →
  (ensure_file h hs name file content cms !! name ≫= λ cm, cm_Data cm !! file) = Some content.
Proof.
  intros Hc. unfold ensure_file. destruct (cms !! name) as [cm|] eqn:E.
  - destruct (String.eqb_spec (default ""%string (cm_Data cm !! file)) content) as [Hd|].
    + rewrite E. cbn. destruct (cm_Data cm !! file); cbn in *; congruence.
    + rewrite lookup_insert_eq. cbn. by rewrite lookup_singleton_eq.
  - rewrite lookup_insert_eq. cbn. by rewrite lookup_singleton_eq.
Qed.

Lemma ensure_file_other name file content cms name' :
  name ≠ name' → ensure_file h hs name file content cms !! name' = cms !! name'.
Proof.
  intros Hn. unfold ensure_file. destruct (cms !! name) as [cm|]; [destruct (String.eqb _ _); [done|]|];
    by rewrite lookup_insert_ne.
Qed.

Lemma ensure_file_idle name file content cms :
  (cms !! name ≫= λ cm, cm_Data cm !! file) = Some content → ensure_file h hs name file content cms = cms.
Proof.
  unfold ensure_file. destruct (cms !! name) as [cm|]; [|done]. cbn. intros ->. cbn. by rewrite String.eqb_refl.
Qed.

Lemma exec_placed c w : renders w → placed (step c w) w.
Proof.
  destruct w as [d|tools|lazy| | |hash tools lazy| |consumer]; cbn [renders placed exec]; intros Hr; try done.
  - unfold doc_of in *. destruct (Render _ _ _ _ _ _ _ _) as [doc|]; [|done]. exists doc. split; [done|].
    unfold file_of. by apply ensure_file_placed.
  - unfold file_of. by apply ensure_file_placed.
  - unfold with_cms, ensure_skills. cbn. apply lookup_insert_eq.
  - cbn. apply lookup_delete_eq.
  - unfold ensure_account. destruct (cs_ServiceAccounts c !! _) eqn:E; [by rewrite E|].
    cbn. rewrite lookup_insert_eq. by eexists.
  - unfold ensure_deployment. cbn [cs_Deployments]. rewrite lookup_insert_eq.
    destruct (buildDeployment _ _ _ _ _ _), (cs_Deployments c !! _); by eexists.
  - unfold ensure_scaled. cbn [cs_ScaledObjects]. rewrite lookup_insert_eq.
    destruct (buildScaledObject _ _ _ _ _), (cs_ScaledObjects c !! _); by eexists.
Qed.

Lemma names_apart n :
  configMapName n ≠ kapeproxyConfigMapName n ∧ configMapName n ≠ SkillConfigMapName n ∧
  kapeproxyConfigMapName n ≠ SkillConfigMapName n.
Proof. unfold configMapName, kapeproxyConfigMapName, SkillConfigMapName. by repeat split. Qed.

(** The maps of the other slots are left alone. *)
Lemma exec_cms_other c w name :
  (name = configMapName (kh_Name h) ∧ slot w ≠ 0%nat) ∨ (name = kapeproxyConfigMapName (kh_Name h) ∧ slot w ≠ 1%nat) ∨
  (name = SkillConfigMapName (kh_Name h) ∧ slot w ≠ 2%nat) →
  cs_ConfigMaps (step c w) !! name = cs_ConfigMaps c !! name.
Proof.
  intros Hn. pose proof (names_apart (kh_Name h)) as (N1 & N2 & N3).
  destruct w; cbn [exec slot] in *; try done.
  - destruct (Render _ _ _ _ _ _ _ _); [|done]. apply ensure_file_other. naive_solver.
  - apply ensure_file_other. naive_solver.
  - unfold with_cms, ensure_skills. cbn [cs_ConfigMaps]. rewrite lookup_insert_ne; [done|]. naive_solver.
  - unfold with_cms. cbn [cs_ConfigMaps]. rewrite lookup_delete_ne; [done|]. naive_solver.
  - unfold ensure_account. by case_match.
Qed.

Lemma exec_keeps c w w' : placed c w → slot w ≠ slot w' → placed (step c w') w.
Proof.
  intros Hp Hs. destruct w as [d|tools|lazy| | |hash tools lazy| |consumer]; cbn [placed slot] in *; unfold file_of in *.
  - rewrite exec_cms_other by auto. done.
  - rewrite exec_cms_other by auto. done.
  - rewrite exec_cms_other by auto. done.
  - rewrite exec_cms_other by auto. done.
  - destruct w'; cbn [exec slot] in *; try done. by case_match.
  - destruct w'; cbn [exec slot] in *; try done; [by case_match|]. unfold ensure_account. by case_match.
  - done.
  - destruct w'; cbn [exec slot] in *; try done; [by case_match|]. unfold ensure_account. by case_match.
Qed.

Lemma with_cms_id f c : f (cs_ConfigMaps c) = cs_ConfigMaps c → with_cms f c = c.
Proof. destruct c. unfold with_cms. cbn. by intros ->. Qed.

Lemma exec_idle c w : placed c w → w ≠ WScaledDelete → step c w = c.
Proof.
  destruct w as [d|tools|lazy| | |hash tools lazy| |consumer]; cbn [placed exec]; unfold file_of; intros Hp Hw; try done.
  - destruct Hp as (doc & Hd & Hf). unfold doc_of in Hd. rewrite Hd. by apply with_cms_id, ensure_file_idle.
  - by apply with_cms_id, ensure_file_idle.
  - by apply with_cms_id, insert_id.
  - by apply with_cms_id, delete_id.
  - unfold ensure_account. by destruct Hp as [x ->].
  - destruct Hp as [o Ho]. unfold ensure_deployment. rewrite Ho. cbn [dp_Owner]. rewrite insert_id by done. by destruct c.
  - destruct Hp as [o Ho]. unfold ensure_scaled. rewrite Ho. cbn [so_Owner]. rewrite insert_id by done. by destruct c.
Qed.

Definition apart (w w' : work) : Prop := w = WScaledDelete ∨ slot w ≠ slot w'.

Lemma foldl_keeps ws c w : placed c w → Forall (apart w) ws → placed (foldl step c ws) w.
Proof.
  revert c. induction ws as [|w' ws IH]; [done|]. cbn [foldl]. intros c Hp [[-> |Hs] Hr]%Forall_cons; [done|].
  apply IH; [by apply exec_keeps|done].
Qed.

Lemma foldl_places ws c : Forall renders ws → StronglySorted apart ws → Forall (placed (foldl step c ws)) ws.
Proof.
  intros Hr Hs. revert c Hr. induction Hs as [|w ws Hs IH Hw]; intros c Hr; [constructor|].
  apply Forall_cons in Hr as [Hw1 Hr]. constructor; [|by apply IH].
  cbn [foldl]. apply foldl_keeps; [by apply exec_placed|done].
Qed.

Lemma run_works_all fails ws done : run_works fails ws = (done, None) → done = ws.
Proof.
  revert done. induction ws as [|w ws IH]; cbn [run_works]; intros done; [by intros [= <-]|].
  destruct (fails w); [done|]. destruct (run_works fails ws) as [l e]. intros [= <- ->]. by rewrite (IH l).
Qed.

Definition rendering (d : resolvedDependencies) (hash : string) : list work :=
  [ WSettings d; WProxyConfig (filter (λ t, ts_Type (kt_Spec t) = "mcp"%string) (rd_Tools d));
    match LazySkills d with [] => WNoSkills | _ => WSkills (LazySkills d) end; WServiceAccount;
    WDeployment hash (rd_Tools d) (negb (Nat.eqb (length (LazySkills d)) 0)) ].

Definition stale_work (existing : option string) : list work :=
  if match existing with Some c => negb (String.eqb c (dots_to_dashes (kh_TriggerType h))) | None => false end
  then [WScaledDelete] else [].

Lemma pass_works api d hash ws :
  reconcileWorkload api h d hash = (ws, None) →
  ∃ existing, ha_consumer api = Ok existing ∧
    ws = rendering d hash ++ stale_work existing ++ [WScaledObject (dots_to_dashes (kh_TriggerType h))].
Proof.
  unfold reconcileWorkload. fold (rendering d hash). destruct (run_works _ _) as [l [msg|]] eqn:E; [done|].
  apply run_works_all in E as ->. unfold reconcileScaledObject.
  destruct (ha_consumer api) as [existing|]; [|done]. destruct (run_works _ _) as [l [msg|]] eqn:E; [done|].
  apply run_works_all in E as ->. intros [= <-]. by exists existing.
Qed.

Lemma pass_apart d hash l :
  l = [] ∨ l = [WScaledDelete] →
  StronglySorted apart (rendering d hash ++ l ++ [WScaledObject (dots_to_dashes (kh_TriggerType h))]).
Proof.
  intros Hl. unfold rendering.
  destruct (LazySkills d); destruct Hl as [-> | ->]; cbn [app];
    repeat first [apply SSorted_nil|apply SSorted_cons|apply Forall_nil_2|apply Forall_cons_2|by left|by right].
Qed.

Lemma pass_placed api d hash ws c :
  reconcileWorkload api h d hash = (ws, None) → is_ok (doc_of d) = true →
  Forall (placed (foldl step c ws)) (rendering d hash ++ [WScaledObject (dots_to_dashes (kh_TriggerType h))]).
Proof.
  intros (existing & _ & ->)%pass_works Hd.
  assert (stale_work existing = [] ∨ stale_work existing = [WScaledDelete]) as Hl by (unfold stale_work; case_match; auto).
  revert Hl. generalize (stale_work existing) as l. intros l Hl.
  assert (Forall renders (rendering d hash ++ l ++ [WScaledObject (dots_to_dashes (kh_TriggerType h))])) as Hr.
  { unfold rendering. destruct (LazySkills d); destruct Hl as [-> | ->]; by repeat constructor. }
  pose proof (foldl_places _ c Hr (pass_apart d hash l Hl)) as Hp.
  rewrite !Forall_app in *. tauto.
Qed.

(** What the platform may have done between two passes: it has changed the labels, the
    annotations and the specification of the handler's Deployment in any way. *)
Definition deployment_touched (c1 c2 : Cluster) : Prop :=
  ∃ d1 d2, cs_Deployments c1 !! deploymentName (kh_Name h) = Some d1 ∧ dp_Owner d2 = dp_Owner d1 ∧
    c2 = mkCluster (cs_ConfigMaps c1) (cs_ServiceAccounts c1) (<[deploymentName (kh_Name h) := d2]> (cs_Deployments c1))
           (cs_ScaledObjects c1).

Lemma placed_cms c c' w :
  cs_ConfigMaps c' = cs_ConfigMaps c → cs_ServiceAccounts c' = cs_ServiceAccounts c →
  match w with WDeployment _ _ _ | WScaledObject _ => False | _ => True end → placed c w → placed c' w.
Proof. intros H1 H2 Hw. destruct w; cbn [placed] in *; unfold file_of; rewrite ?H1, ?H2; done. Qed.

Lemma foldl_idle c ws : Forall (placed c) ws → Forall (λ w, w ≠ WScaledDelete) ws → foldl step c ws = c.
Proof.
  induction ws as [|w ws IH]; [done|]. intros [? ?]%Forall_cons [? ?]%Forall_cons. cbn [foldl].
  rewrite exec_idle by done. by apply IH.
Qed.

Lemma deployment_restored c1 c2 hash tools lazy :
  placed c1 (WDeployment hash tools lazy) → deployment_touched c1 c2 → step c2 (WDeployment hash tools lazy) = c1.
Proof.
  intros [o Ho] (d1 & d2 & H1 & Hown & ->). rewrite Ho in H1. injection H1 as <-. cbn [dp_Owner] in Hown.
  cbn [exec]. unfold ensure_deployment. cbn [cs_Deployments cs_ConfigMaps cs_ServiceAccounts cs_ScaledObjects].
  rewrite lookup_insert_eq, insert_insert_eq, Hown, insert_id by done. by destruct c1.
Qed.

(** C25. A pass of the handler's reconciler restores what an earlier one left.  Whatever
    the namespace held before, after a pass without errors, and after the platform has
    changed the labels, the annotations and the specification of the handler's
    Deployment in any way, a second pass over the same dependencies brings back
    exactly the objects the first one left: it leaves the configuration maps, the
    account and the scaled object as they are, and undoes everything that was done to
    the Deployment.  So it changes nothing when the platform did not; but the
    defaults and annotations that the platform puts on every Deployment are taken off
    again by every pass. *)
Theorem pass_restores api api' d hash ws ws' c c2 :
  reconcileWorkload api h d hash = (ws, None) → is_ok (doc_of d) = true →
  deployment_touched (foldl step c ws) c2 →
  reconcileWorkload api' h d hash = (ws', None) → ha_consumer api' = Ok (scaled_consumer h c2) →
  foldl step c2 ws' = foldl step c ws.
Proof.
  intros Hws Hd Ht (existing & Hc & ->)%pass_works Hc'. pose proof (pass_placed _ _ _ _ c Hws Hd) as Hp.
  set (c1 := foldl step c ws) in *. rewrite Hc' in Hc. injection Hc as <-.
  assert (scaled_consumer h c2 = scaled_consumer h c1) as -> by (by destruct Ht as (d1 & d2 & _ & _ & ->)).
  assert (stale_work (scaled_consumer h c1) = []) as ->.
  { pose proof Hp as [_ [[o Ho] _]%Forall_cons]%Forall_app. unfold scaled_consumer, stale_work. rewrite Ho.
    cbn. by rewrite String.eqb_refl. }
  clearbody c1. clear Hws Hc'. cbn [app]. rewrite foldl_app. apply Forall_app in Hp as [Hp Hso].
  assert (foldl step c2 (rendering d hash) = c1) as ->; [|by apply foldl_idle; [|repeat constructor]].
  unfold rendering in *. rewrite !Forall_cons in Hp. destruct Hp as (P1 & P2 & P3 & P4 & P5 & _).
  change [?a; ?b; ?x; ?y; ?z] with ([a; b; x; y] ++ [z]). rewrite foldl_app.
  assert (Hsame : cs_ConfigMaps c2 = cs_ConfigMaps c1 ∧ cs_ServiceAccounts c2 = cs_ServiceAccounts c1)
    by (by destruct Ht as (d1 & d2 & _ & _ & ->)).
  destruct Hsame as [S1 S2]. rewrite (foldl_idle c2).
  - by apply deployment_restored.
  - repeat apply Forall_cons_2; try (eapply (placed_cms c1); [done|done| |done]; by destruct (LazySkills d)). constructor.
  - destruct (LazySkills d); by repeat constructor.
Qed.

(** The pod's specification is well formed: its volumes have different names, and
    every mount of a container is of one of them. *)
Definition pod_ok (s : DeploymentSpec) : Prop :=
  NoDup (dp_Volumes s).*1 ∧ ∀ ct m, ct ∈ dp_Containers s → m ∈ ct_Mounts ct → m.1 ∈ (dp_Volumes s).*1.

Lemma suffix_inj a b t : a +:+ t = b +:+ t → a = b.
Proof.
  intros E%(f_equal chars). rewrite !chars_app in E. apply app_inv_tail in E. unfold chars in E.
  by rewrite <-(string_of_list_ascii_of_string a), E, string_of_list_ascii_of_string.
Qed.

#[local] Instance secrets_name_inj : Inj (=) (=) (λ n, "kape-tool-" +:+ n +:+ "-secrets").
Proof. intros a b E. by apply (inj (String.append "kape-tool-")), suffix_inj in E. Qed.

Lemma secrets_volumes_apart tools : NoDup (kt_Name <$> tools) → NoDup (secrets_volume <$> tools).
Proof.
  intros Hn. change (secrets_volume <$> tools) with ((λ n, "kape-tool-" +:+ n +:+ "-secrets") ∘ kt_Name <$> tools).
  rewrite list_fmap_compose. by apply NoDup_fmap_2; [apply _|].
Qed.

Lemma memory_names tools : NoDup (kt_Name <$> tools) → NoDup (kt_Name <$> memory_tools tools).
Proof.
  intros Hn. unfold memory_tools. rewrite merge_sort_Permutation.
  eapply sublist_NoDup; [apply Hn|]. apply fmap_sublist, sublist_filter.
Qed.

Lemma built_pod_ok hash tools lazy :
  NoDup (kt_Name <$> tools) → pod_ok (dp_Spec (buildDeployment h hs cfg hash tools lazy)).
Proof.
  intros Hn%memory_names%secrets_volumes_apart. unfold pod_ok, buildDeployment. cbn [dp_Spec dp_Volumes dp_Containers].
  rewrite !fmap_app, <-!list_fmap_compose. unfold compose. cbn [fst].
  change (λ x : KapeTool, secrets_volume x) with secrets_volume. split.
  - rewrite (Permutation_app_comm (secrets_volume <$> _)), !app_assoc. apply NoDup_app. split; [|split; [|done]].
    + destruct lazy, (has_mcp tools); by apply (bool_decide_unpack _).
    + intros x Hx (t & -> & _)%list_elem_of_fmap. revert Hx.
      destruct lazy, (has_mcp tools); cbn; rewrite ?elem_of_cons, ?elem_of_nil; naive_solver.
  - intros ct m [-> |Hct]%elem_of_cons; cbn [ct_Mounts].
    + rewrite !elem_of_app. intros [Hm|[Hm|Hm]].
      * left. set_solver.
      * right; left. destruct lazy; set_solver.
      * right; right; left. apply list_elem_of_fmap in Hm as (t & -> & Ht). apply list_elem_of_fmap. eauto.
    + destruct (has_mcp tools); [|by apply elem_of_nil in Hct]. apply list_elem_of_singleton in Hct as ->.
      cbn [buildKapeproxySidecar ct_Mounts]. intros ->%list_elem_of_singleton. rewrite !elem_of_app. right; right; right. set_solver.
Qed.

(** Skills of one name are the same skill. *)
Definition agree (skills : list KapeSkill) : Prop :=
  ∀ s s', s ∈ skills → s' ∈ skills → sk_Name s = sk_Name s' → sk_Instruction s = sk_Instruction s'.

Lemma skill_data_lookup skills s : agree skills → s ∈ skills → skill_data skills !! (sk_Name s +:+ ".txt") = Some (sk_Instruction s).
Proof.
  unfold skill_data. induction skills as [|x l IH] using rev_ind; [by intros _ ?%elem_of_nil|].
  intros Ha Hs. rewrite foldl_app. cbn [foldl].
  destruct (decide (sk_Name x = sk_Name s)) as [E|E].
  - rewrite E, lookup_insert_eq. f_equal. apply Ha; [set_solver|done|done].
  - rewrite lookup_insert_ne by (by intros ?%suffix_inj). apply IH; [|set_solver]. intros a b Ha' Hb'. apply Ha; set_solver.
Qed.

(** The directory of a mounted map. *)
Definition mounted (c : Cluster) (spec : DeploymentSpec) (volume : string) : option (gmap string string) :=
  match (list_to_map (dp_Volumes spec) : gmap string volume_source) !! volume with
  | Some (VolConfigMap name) => cm_Data <$> cs_ConfigMaps c !! name
  | _ => None
  end.

Lemma mounted_at c spec volume name :
  pod_ok spec → (volume, VolConfigMap name) ∈ dp_Volumes spec → mounted c spec volume = cm_Data <$> cs_ConfigMaps c !! name.
Proof. intros [Hn _] Hv. unfold mounted. by rewrite (proj1 (elem_of_list_to_map _ _ _ Hn) Hv). Qed.

(** The maps among the volumes. *)
Lemma built_maps hash tools lazy v name :
  (v, VolConfigMap name) ∈ dp_Volumes (dp_Spec (buildDeployment h hs cfg hash tools lazy)) ↔
    (v = "settings"%string ∧ name = configMapName (kh_Name h)) ∨
    (lazy = true ∧ v = "kape-skills"%string ∧ name = SkillConfigMapName (kh_Name h)) ∨
    (has_mcp tools = true ∧ v = "kapeproxy-config"%string ∧ name = kapeproxyConfigMapName (kh_Name h)).
Proof.
  unfold buildDeployment. cbn [dp_Spec dp_Volumes]. rewrite !elem_of_app, list_elem_of_fmap.
  destruct lazy, (has_mcp tools); rewrite ?elem_of_cons, ?elem_of_nil; naive_solver.
Qed.

Lemma no_skills_volume hash tools c :
  mounted c (dp_Spec (buildDeployment h hs cfg hash tools false)) "kape-skills" = None.
Proof.
  unfold mounted. rewrite (proj1 (not_elem_of_list_to_map _ _)); [done|].
  intros ([v src] & [= <-] & Hin)%list_elem_of_fmap. revert Hin. unfold buildDeployment. cbn [dp_Spec dp_Volumes].
  rewrite !elem_of_app, list_elem_of_fmap. destruct (has_mcp tools); rewrite ?elem_of_cons, ?elem_of_nil; naive_solver.
Qed.

Lemma file_of_data c name file content :
  file_of c name file = Some content → ((cm_Data <$> cs_ConfigMaps c !! name) ≫= lookup file) = Some content.
Proof. unfold file_of. by destruct (cs_ConfigMaps c !! name). Qed.

(** C24. After a pass that meets no error, the handler's Deployment is one the pods
    of which find what they mount: volumes have different names, every mount has
    its volume, every map that is a volume exists; the settings are the rendered
    ones, the proxy's configuration is there when a tool needs the proxy, and each
    lazily loaded skill, and only such, is what the runtime loads under its name. *)
Theorem pod_gets_its_files api d hash ws c doc (render : string → res exc string) :
  reconcileWorkload api h d hash = (ws, None) → doc_of d = Ok doc → NoDup (kt_Name <$> rd_Tools d) →
  agree (LazySkills d) →
  let c' := foldl step c ws in
  ∃ dep, cs_Deployments c' !! deploymentName (kh_Name h) = Some dep ∧ pod_ok (dp_Spec dep) ∧
    is_Some (cs_ServiceAccounts c' !! dp_ServiceAccount (dp_Spec dep)) ∧
    (∀ v name, (v, VolConfigMap name) ∈ dp_Volumes (dp_Spec dep) → is_Some (cs_ConfigMaps c' !! name)) ∧
    (mounted c' (dp_Spec dep) "settings" ≫= lookup "settings.toml"%string) = Some (toml doc) ∧
    (has_mcp (rd_Tools d) = true →
     (mounted c' (dp_Spec dep) "kapeproxy-config" ≫= lookup "config.yaml"%string) =
       Some (yaml (RenderKapeproxyConfig (filter (λ t, ts_Type (kt_Spec t) = "mcp"%string) (rd_Tools d))))) ∧
    (∀ s, s ∈ LazySkills d →
     load_skill render (mounted c' (dp_Spec dep) "kape-skills") (sk_Name s) = render (sk_Instruction s)) ∧
    (LazySkills d = [] → mounted c' (dp_Spec dep) "kape-skills" = None).
Proof.
  intros Hws Hd Hn Ha c'. pose proof (pass_placed _ _ _ _ c Hws ltac:(by rewrite Hd)) as Hp. fold c' in Hp. clearbody c'.
  unfold rendering in Hp. rewrite !Forall_app, !Forall_cons in Hp. destruct Hp as [(Hset & Hprx & Hsk & Hsa & [o Hdep] & _) _].
  destruct Hset as (doc' & Hd' & Hset). rewrite Hd in Hd'. injection Hd' as <-.
  eexists. split; [exact Hdep|]. cbn [dp_Spec]. 
  pose proof (built_pod_ok hash (rd_Tools d) (negb (Nat.eqb (length (LazySkills d)) 0)) Hn) as Hok.
  split; [done|]. split; [exact Hsa|]. split; [|split; [|split; [|split]]].
  - intros v name [[_ ->]|[(E & _ & ->)|(_ & _ & ->)]]%built_maps.
    + unfold file_of in Hset. destruct (cs_ConfigMaps c' !! _); [done|discriminate].
    + destruct (LazySkills d); [discriminate|]. cbn [placed] in Hsk. rewrite Hsk. done.
    + cbn [placed] in Hprx. unfold file_of in Hprx. destruct (cs_ConfigMaps c' !! _); [done|discriminate].
  - rewrite (mounted_at _ _ _ (configMapName (kh_Name h)) Hok) by (apply built_maps; auto). by apply file_of_data.
  - intros Hm. rewrite (mounted_at _ _ _ (kapeproxyConfigMapName (kh_Name h)) Hok) by (apply built_maps; auto 10).
    by apply file_of_data.
  - intros sk Hs. rewrite (mounted_at _ _ _ (SkillConfigMapName (kh_Name h)) Hok); cycle 1.
    { apply built_maps. right; left. split_and!; [|done..]. by destruct (LazySkills d); [apply elem_of_nil in Hs|]. }
    assert (placed c' (WSkills (LazySkills d))) as Hsk' by (destruct (LazySkills d); [by apply elem_of_nil in Hs|done]).
    cbn [placed] in Hsk'. rewrite Hsk'. cbn. by rewrite skill_data_lookup.
  - intros ->. apply no_skills_volume.
Qed.

End Passes.

(** ** The proxy of a handler *)

Lemma rendered_upstream tools u c :
  (u, c) ∈ proxy_config tools →
  ∃ t mcp, t ∈ tools ∧ ts_MCP (kt_Spec t) = Some mcp ∧ u = kt_Name t ∧ c = load_defaults (decode_entry (upstream_entry mcp)).
Proof.
  unfold proxy_config, RenderKapeproxyConfig. intros ([u' e] & [= -> ->] & He)%list_elem_of_fmap.
  apply list_elem_of_omap in He as (t & Ht & E). rewrite merge_sort_Permutation in Ht.
  destruct (ts_MCP (kt_Spec t)) as [mcp|] eqn:Em; [|done]. injection E as <- <-. by exists t, mcp.
Qed.

(** The paths to redact in the arguments of a tool's calls. *)
Definition input_paths (mcp : MCPSpec) : list string := (default ([], []) (mcp_Redaction mcp)).1.

Lemma rendered_input mcp (get : string → goval → bool) args :
  match uc_Redaction (load_defaults (decode_entry (upstream_entry mcp))) with
  | Some r => match rc_Input r with [] => Ok args | rules => Apply get args rules end
  | None => Ok args
  end = Apply get args (mkPathRule <$> input_paths mcp).
Proof.
  unfold input_paths. cbn. destruct (mcp_Redaction mcp) as [[[|p inp] [|q out]]|]; done.
Qed.

(** C28. The proxy that runs on a handler's rendered configuration, whatever order it
    reads the upstreams in, makes a call only for a tool resource of the handler:
    under that resource's name, to a tool its allow list admits, and with the
    arguments as the resource's input redaction leaves them. *)
Theorem tools_confine_proxy (get : string → goval → bool) tools upstreams ups n taskID args call r calls audits u tool a :
  upstreams ≡ₚ proxy_config tools →
  handleToolsCall get (Route upstreams ups n) n taskID args call = (r, calls, audits) → (u, tool, a) ∈ calls →
  ∃ t mcp, t ∈ tools ∧ ts_MCP (kt_Spec t) = Some mcp ∧ n = Namespace (kt_Name t) tool ∧
    matchesAny (mcp_AllowedTools mcp) tool = true ∧ Apply get args (mkPathRule <$> input_paths mcp) = Ok a.
Proof.
  intros Hp Hc Hin. unfold handleToolsCall in Hc. destruct (Route upstreams ups n) as [e|] eqn:Er; cycle 1.
  { injection Hc as _ <- _. by apply elem_of_nil in Hin. }
  apply Route_sound in Er as (up & c & Hup & Hn & _ & (_ & _ & _ & Hm) & Hre & _).
  rewrite Hp in Hup. apply rendered_upstream in Hup as (t & mcp & Ht & Hmcp & -> & ->).
  rewrite Hre, rendered_input in Hc. exists t, mcp.
  assert (tool = en_OriginalName e ∧ Apply get args (mkPathRule <$> input_paths mcp) = Ok a) as [-> Ha]; [|done].
  destruct (negb _); [injection Hc as _ <- _; by apply elem_of_nil in Hin|].
  destruct (Apply get args _) as [a'|]; [|injection Hc as _ <- _; by apply elem_of_nil in Hin].
  assert (calls = [(up_Name (en_Upstream e), en_OriginalName e, a')]) as ->.
  { repeat case_match; simplify_eq; done. }
  apply list_elem_of_singleton in Hin. injection Hin as _ -> ->. done.
Qed.

Definition set_denied (denied : list string) (t : KapeTool) : KapeTool :=
  let s := kt_Spec t in
  mkTool (kt_Name t)
    (mkToolSpec (ts_Type s)
       (match ts_MCP s with
        | Some m => Some (mkMCP (mcp_URL m) (mcp_Transport m) (mcp_AllowedTools m) denied (mcp_Redaction m) (mcp_Audit m) (mcp_SkipProbe m))
        | None => None
        end) (ts_Memory s) (ts_EventPublish s))
    (kt_Deleting t) (kt_Finalizer t) (kt_Conditions t) (kt_QdrantEndpoint t).

(** The deny list of a tool has no effect on the proxy. *)
Theorem denied_tools_not_rendered denied t :
  RenderKapeproxyConfig [set_denied denied t] = RenderKapeproxyConfig [t].
Proof. destruct t as [n [ty [m|] me ev] dl fin cs q]; reflexivity. Qed.

(** ** The settings the runtime reads *)

(** What the pod's environment adds to the file. *)
Definition overlay (env : string → string → option json) (doc : fields) (a b : string) : option json :=
  match env a b with Some v => Some v | None => entry doc a b end.

Section SettingsFacts.
Context (unmarshal : json → option json) (h : KapeHandler) (hs : HandlerSpec) (cfg : PlatformConfig).

(** The entries of a rendered document that the runtime asks for. *)
Lemma rendered_entries schema tools eager lazy doc :
  Render unmarshal h hs schema tools eager lazy cfg = Ok doc →
  (∀ k, k ∈ ["handler_name"; "handler_namespace"; "cluster_name"; "dry_run"; "max_iterations"; "schema_name";
             "max_event_age_seconds"]%string → is_Some (entry doc "kape" k)) ∧
  (∀ k, k ∈ ["provider"; "model"; "system_prompt"]%string → is_Some (entry doc "llm" k)) ∧
  entry doc "nats" "url" = None ∧ entry doc "kape" "actions" = None ∧
  entry doc "nats" "consumer" = Some (JStr (dots_to_dashes (kh_TriggerType h))) ∧
  entry doc "nats" "stream" = Some (JStr "kape-events") ∧ entry doc "nats" "subject" = Some (JStr (kh_TriggerType h)).
Proof.
  unfold Render. destruct (buildActions _ _) as [acts|]; [|done]. destruct (buildToolSections _ _) as [secs|]; [|done].
  intros [= <-]. split_and!; try done; apply Forall_forall; repeat constructor; by eexists.
Qed.

(** The rendered settings are not enough for the runtime: whatever the handler
    says, loading them raises unless the environment supplies the address of the
    bus.  And whatever the environment supplies short of the actions themselves, a
    configuration that loads has no action, although the handler's are rendered. *)
Theorem rendered_settings_read schema tools eager lazy doc env raw :
  (∀ a b, raw a b = overlay env doc a b) →
  Render unmarshal h hs schema tools eager lazy cfg = Ok doc →
  (env "kape" "actions" = None)%string →
  ((∀ a b, env a b = None) → load_config raw = Err AttributeError) ∧
  ∀ conf, load_config raw = Ok conf → cf_kape_actions conf = [].
Proof.
  intros Hraw Hdoc Hact. destruct (rendered_entries _ _ _ _ _ Hdoc) as (Hk & Hl & Hurl & Hno & _). split.
  - intros Henv. assert (∀ a b, raw a b = entry doc a b) as He by (intros a b; rewrite Hraw; unfold overlay; by rewrite Henv).
    assert (∀ a b, is_Some (entry doc a b) → ∃ v, attr raw a b = Ok v) as Hat.
    { intros a b [v Hv]. exists v. unfold attr. by rewrite He, Hv. }
    assert (attr raw "nats" "url" = Err AttributeError) as Hu by (unfold attr; by rewrite He, Hurl).
    unfold load_config. cbv zeta.
    repeat match goal with
           | |- match attr raw ?a ?b with Ok _ => _ | Err _ => _ end = _ =>
               destruct (Hat a b) as [? ->]; [first [apply Hk|apply Hl]; set_solver|]
           end.
    by rewrite Hu.
  - intros conf. unfold load_config. rewrite (Hraw "kape" "actions")%string. unfold overlay. rewrite Hact, Hno.
    repeat case_match; intros; by simplify_eq.
Qed.

(** The autoscaler watches the consumer the runtime pulls from; it watches the same
    stream only when the platform's stream is the default one, since the settings
    name that one always. *)
Theorem scaler_watches_consumer schema tools eager lazy doc :
  Render unmarshal h hs schema tools eager lazy cfg = Ok doc →
  let platform := WithDefaults cfg in
  let so := so_Spec (buildScaledObject h hs (dots_to_dashes (kh_TriggerType h))
                       (pc_NATSMonitoringEndpoint platform) (pc_NATSStreamName platform)) in
  entry doc "nats" "consumer" = Some (JStr (so_Consumer so)) ∧
  (entry doc "nats" "stream" = Some (JStr (so_Stream so)) ↔
   pc_NATSStreamName cfg = ""%string ∨ pc_NATSStreamName cfg = "kape-events"%string).
Proof.
  intros Hdoc. destruct (rendered_entries _ _ _ _ _ Hdoc) as (_ & _ & _ & _ & Hc & Hs & _).
  cbn [so_Consumer so_Stream so_Spec buildScaledObject WithDefaults pc_NATSStreamName pc_NATSMonitoringEndpoint].
  rewrite Hc, Hs. split; [done|]. unfold or_default. destruct (String.eqb_spec (pc_NATSStreamName cfg) "") as [E|E]; [split; by auto|].
  split; [intros [= <-]; by right|intros [?| ->]; done].
Qed.

End SettingsFacts.

(** A handler that asks to be scaled to zero gets an autoscaler with that floor, and
    a Deployment that every pass sets back to at least one replica. *)
Theorem scale_to_zero_undone h hs cfg hash tools lazy c spec :
  kh_Scaling h = Some spec → sg_ScaleToZero spec = true →
  so_Min (so_Spec (buildScaledObject h hs "" "" "")) = 0 ∧
  ∀ dep, cs_Deployments (ensure_deployment h (buildDeployment h hs cfg hash tools lazy) c) !! deploymentName (kh_Name h) =
    Some dep → 1 ≤ dp_Replicas (dp_Spec dep).
Proof.
  intros Hs Hz. unfold buildScaledObject, resolveScaling. rewrite Hs. cbn. rewrite Hz. split; [done|].
  intros dep. rewrite lookup_insert_eq. intros [= <-].
  destruct (cs_Deployments c !! _); cbn; rewrite Hs; destruct (Z.ltb_spec 0 (sg_MinReplicas spec)); lia.
Qed.

(** ** A handler with a tool of each kind *)

Module Rendered.

Definition pods_tool : KapeTool :=
  mkTool "pods" (mkToolSpec "mcp" (Some (mkMCP "http://pods:9000" "sse" ["get_*"%string] ["get_secrets"%string]
    (Some (["$.auth.token"%string], [])) None true)) None None) false true ready_conds "".

Definition deps : resolvedDependencies := mkDeps alert_schema [notes_tool; pods_tool] [runbook].

Definition page : ActionSpec := mkActionSpec "page" "$.urgent" "webhook" [("url"%string, JStr "https://pager")].

Definition spec : HandlerSpec := mkHandlerSpec "u-1" "openai" "m" "You triage alerts." 0 None 300 false [page] [] None.

Definition platform : PlatformConfig := mkPlatform "" "" "" "" "" "" "" "" "" "" "" 0.

Definition settings_text (_ : fields) : string := "[kape]".
Definition proxy_text (_ : list (string * upstreamEntry)) : string := "upstreams:".

Definition api_seeing (consumer : option string) : HandlerApi :=
  mkHandlerApi triage_lookups (Ok (mkKapeConfig "kape/kapeproxy" "1")) (λ _, None) (Ok consumer) true [] (Ok (Some 1)) true.

Definition passed (c : Cluster) (consumer : option string) : Cluster :=
  foldl (exec triage spec Some settings_text proxy_text platform) c (reconcileWorkload (api_seeing consumer) triage deps "h").1.

Definition empty_namespace : Cluster := mkCluster ∅ ∅ ∅ ∅.

(** The Deployment controller numbers the revision, and a default is filled in. *)
Definition revised (d : Deployment) : Deployment :=
  let s := dp_Spec d in
  mkDep (dp_Labels d) (<["deployment.kubernetes.io/revision" := "1"]>%string (dp_Annotations d))
    (mkDepSpec (dp_Replicas s) (dp_Selector s) (dp_PodLabels s) (dp_PodAnnotations s) (dp_ServiceAccount s) (dp_Automount s)
       (dp_Containers s) (dp_Volumes s) {["revisionHistoryLimit" := "10"]}%string) (dp_Owner d).

Definition touched (c : Cluster) : Cluster :=
  mkCluster (cs_ConfigMaps c) (cs_ServiceAccounts c)
    (match cs_Deployments c !! "kape-handler-triage"%string with
     | Some d => <["kape-handler-triage"%string := revised d]> (cs_Deployments c)
     | None => cs_Deployments c
     end) (cs_ScaledObjects c).

Lemma pass_restores_witness :
  let c1 := passed empty_namespace (Some "old"%string) in
  passed (touched c1) (scaled_consumer triage (touched c1)) = c1 ∧
  (dp_Filled ∘ dp_Spec <$> cs_Deployments (touched c1) !! "kape-handler-triage"%string) = Some {["revisionHistoryLimit" := "10"]}%string.
Proof.
  intros c1. split; [|vm_compute; reflexivity].
  apply (pass_restores triage spec Some settings_text proxy_text platform ltac:(done) ltac:(done)
    (api_seeing (Some "old"%string)) (api_seeing (scaled_consumer triage (touched c1)))
    deps "h" _ _ empty_namespace); [reflexivity|reflexivity| |reflexivity|reflexivity].
  change (deployment_touched triage c1 (touched c1)). unfold deployment_touched, touched.
  destruct (cs_Deployments c1 !! "kape-handler-triage"%string) as [d|] eqn:E; [|vm_compute in E; discriminate].
  exists d, (revised d). split; [exact E|]. split; reflexivity.
Defined.

Lemma pod_gets_its_files_witness :
  ∃ dep, cs_Deployments (passed empty_namespace None) !! "kape-handler-triage"%string = Some dep ∧
    (∀ s, s ∈ LazySkills deps →
      load_skill Ok (mounted (passed empty_namespace None) (dp_Spec dep) "kape-skills") (sk_Name s) = Ok (sk_Instruction s)).
Proof.
  destruct (pod_gets_its_files triage spec Some settings_text proxy_text platform ltac:(done) ltac:(done)
    (api_seeing None) deps "h" _ empty_namespace _ Ok eq_refl eq_refl) as (dep & Hdep & _ & _ & _ & _ & _ & Hsk & _).
  - by apply (bool_decide_unpack _).
  - intros s s' ->%list_elem_of_singleton ->%list_elem_of_singleton. done.
  - exists dep. split; [exact Hdep|exact Hsk].
Defined.

Definition pods_upstream : gmap string Upstream := {["pods"%string := mkUpstream "pods" true ["get_pods"; "delete_pod"]%string]}.

Lemma tools_confine_proxy_witness :
  ∃ t mcp, t ∈ rd_Tools deps ∧ ts_MCP (kt_Spec t) = Some mcp ∧ "pods__get_pods"%string = Namespace (kt_Name t) "get_pods" ∧
    matchesAny (mcp_AllowedTools mcp) "get_pods" = true ∧ Apply ex_get VNil (mkPathRule <$> input_paths mcp) = Ok VNil.
Proof.
  eapply (tools_confine_proxy ex_get (rd_Tools deps) (proxy_config (rd_Tools deps)) pods_upstream "pods__get_pods" "t1" VNil
    (λ _ _, Ok VNil)); [done|vm_compute; reflexivity|left].
Defined.

Lemma rendered_settings_read_witness :
  ∃ doc, Render Some triage spec alert_schema (rd_Tools deps) [] [runbook] platform = Ok doc ∧
    load_config (entry doc) = Err AttributeError.
Proof.
  destruct (Render Some triage spec alert_schema (rd_Tools deps) [] [runbook] platform) as [doc|] eqn:E; [|discriminate].
  exists doc. split; [done|].
  exact (proj1 (rendered_settings_read Some triage spec platform alert_schema (rd_Tools deps) [] [runbook] doc
    (λ _ _, None) (entry doc) (λ _ _, eq_refl) E eq_refl) (λ _ _, eq_refl)).
Defined.

End Rendered.
