(* ===== verification/Watches.v ===== *)
(** * The operator: what a change re-enqueues
      (src/operator/controller/watches.go, handler.go, tool.go, skill.go, schema.go,
      agentserver.go, kapeproxy.go)

    The map functions from a changed object to reconcile requests, the event sources
    each controller is registered with, and whether a change that matters to a
    resource reaches its reconciler. *)

From Stdlib Require Import Ascii String ZArith.
From S2P Require Import Prelude Json GoTime GoStrings Bolt EventStore EventHub Fsm Monitor Config.
From S2P Require Import Agent Manager Policy ServerConfig OperatorRender OperatorWriter OperatorReconcile Handlers.
From stdpp Require Import base list strings numbers gmap.
Local Open Scope Z_scope.

Record request : Type := mkReq { rq_Name : string; rq_Namespace : string }.

#[global] Instance request_eq_dec : EqDecision request.
Proof. solve_decision. Defined.

(** ** Map functions *)

(** [None] is a failed list. *)
Definition handler_requests (found : list KapeHandler) : list request :=
  (λ h, mkReq (kh_Name h) (kh_Namespace h)) <$> found.

Definition MapToolToHandlers (listed : option (list KapeHandler)) (tool : string) : list request :=
  match listed with Some hs => handler_requests (ListHandlersByToolRef hs tool) | None => [] end.

Definition MapSchemaToHandlers (listed : option (list KapeHandler)) (schema : string) : list request :=
  match listed with Some hs => handler_requests (ListHandlersBySchemaRef hs schema) | None => [] end.

Definition MapSkillToHandlers (listed : option (list KapeHandler)) (skill : string) : list request :=
  match listed with Some hs => handler_requests (ListHandlersBySkillRef hs skill) | None => [] end.

Definition CredentialSecretPredicate (s : Secret) : bool :=
  bool_decide (se_Labels s !! CredentialLabel = Some CredentialLabelValue).

Definition referencesSecret (server : KapeAgentServer) (secretName : string) : bool :=
  existsb (λ c, String.eqb (cs_SecretName c) secretName) (ks_Credentials server).

(** [listed] answers for one namespace. *)
Definition MapSecretToAgentServers (listed : string → option (list KapeAgentServer)) (ns name : string) (s : Secret) : list request :=
  if negb (CredentialSecretPredicate s) then []
  else match listed ns with
       | None => []
       | Some servers =>
           (λ sv, mkReq (ks_Name sv) (ks_Namespace sv)) <$> filter (λ sv, referencesSecret sv name = true) servers
       end.

Definition mapHandlerPods (labels : gmap string string) (name ns : string) : list request :=
  match labels !! "kape.io/handler"%string with None => [] | Some _ => [mkReq name ns] end.

(** ** Event sources *)

Inductive controller : Type := CHandler | CTool | CSkill | CSchema | CAgentServer | CProxy.

(** The kinds of objects a controller owns. *)
Inductive owned_kind : Type := KDeployment | KConfigMap | KServiceAccount | KService | KRoleBinding | KIngress.

#[global] Instance controller_eq_dec : EqDecision controller.
Proof. solve_decision. Defined.

Inductive k8s_event : Type :=
| EvHandler (h : request)
| EvTool (name ns : string)
| EvSkill (name ns : string)
| EvSchema (name ns : string)
| EvServer (s : request)
| EvSecret (ns name : string) (old new : option Secret)
| EvPod (labels : gmap string string) (name ns : string)
| EvOwned (kind : owned_kind) (owner : controller) (resource : request).

(** An update passes the predicate when its new object does, and both objects are
    mapped; a deletion passes with its last object. *)
Definition secret_event (listed : string → option (list KapeAgentServer)) (ns name : string) (old new : option Secret) : list request :=
  match old, new with
  | None, Some n => if CredentialSecretPredicate n then MapSecretToAgentServers listed ns name n else []
  | Some o, Some n =>
      if CredentialSecretPredicate n
      then MapSecretToAgentServers listed ns name o ++ MapSecretToAgentServers listed ns name n else []
  | Some o, None => if CredentialSecretPredicate o then MapSecretToAgentServers listed ns name o else []
  | None, None => []
  end.

Definition owns (c : controller) (k : owned_kind) : bool :=
  match c, k with
  | CHandler, (KDeployment | KConfigMap | KServiceAccount) => true
  | CAgentServer, (KDeployment | KService | KServiceAccount | KRoleBinding | KIngress) => true
  | _, _ => false
  end.

(** What an event enqueues for a controller: its own resource, the watches it is
    built with, and the objects it owns. *)
Definition enqueued (handlers : option (list KapeHandler)) (listed : string → option (list KapeAgentServer))
    (c : controller) (ev : k8s_event) : list request :=
  match c, ev with
  | CHandler, EvHandler h => [h]
  | CHandler, EvTool name _ => MapToolToHandlers handlers name
  | CHandler, EvSchema name _ => MapSchemaToHandlers handlers name
  | CHandler, EvSkill name _ => MapSkillToHandlers handlers name
  | CTool, EvTool name ns => [mkReq name ns]
  | CSkill, EvSkill name ns => [mkReq name ns]
  | CSchema, EvSchema name ns => [mkReq name ns]
  | CAgentServer, EvServer s => [s]
  | CAgentServer, EvSecret ns name old new => secret_event listed ns name old new
  | CProxy, EvPod labels name ns => mapHandlerPods labels name ns
  | _, EvOwned k owner resource => if bool_decide (owner = c) && owns c k then [resource] else []
  | _, _ => []
  end.

(** ** Handlers *)

Section Passes.
Context (sha256 : string → string) (tool_text : KapeToolSpec → string) (skill_text : KapeSkill → string).

(** What a handler depends on wakes it.  After a pass of the handler that reached
    its end, every change of a tool it names, itself or through one of its skills,
    of a skill it names and of its schema enqueues the handler again. *)
Theorem references_requeue now api h0 hs listed :
  (∀ n t, get_tool (ha_lookups api) n = Ok (Some t) → kt_Name t = n) →
  let p := handler_reconcile sha256 tool_text skill_text now api h0 in
  hp_result p = Ok 60 → ha_labels_stored api = true → hp_stored p ∈ hs →
  let me := mkReq (kh_Name (hp_stored p)) (kh_Namespace (hp_stored p)) in
  ∃ d, validateDependencies (ha_lookups api) h0 = Ok d ∧
  (∀ n ns, n ∈ referenced h0 (rd_Skills d) → me ∈ enqueued (Some hs) listed CHandler (EvTool n ns)) ∧
  (∀ n ns, n ∈ kh_Skills h0 → me ∈ enqueued (Some hs) listed CHandler (EvSkill n ns)) ∧
  (∀ ns, me ∈ enqueued (Some hs) listed CHandler (EvSchema (kh_SchemaRef h0) ns)).
Proof.
  intros Hnamed p Hr Hls Hin me. destruct (pass_labels sha256 tool_text skill_text now api h0 Hr Hls) as (d & Hd & Hl). fold p in Hl.
  exists d. split; [done|]. destruct (ref_labels_spec h0 d) as (Lt & Ls & Lc).
  assert (Hme : ∀ P `{∀ h, Decision (P h)}, P (hp_stored p) → me ∈ handler_requests (filter P hs)).
  { intros P HP Hp. apply list_elem_of_fmap. exists (hp_stored p). split; [done|]. by apply list_elem_of_filter. }
  split_and!; intros; cbn [enqueued MapToolToHandlers MapSkillToHandlers MapSchemaToHandlers]; apply Hme; rewrite Hl; apply lookup_union_Some_l.
  - destruct (validateDependencies_spec _ Hnamed h0 d Hd) as (_ & _ & _ & _ & m & Et & Hf & Hdm).
    assert (n ∈ dom m) as [t' Ht']%elem_of_dom by (rewrite Hdm; by apply elem_of_list_to_set).
    pose proof (Hnamed _ _ (Hf _ _ Ht')) as En. rewrite <-En. apply Lt. rewrite Et. apply (sortedTools_in _ Hnamed); [done|]. by rewrite En.
  - by apply Ls.
  - exact Lc.
Qed.

(** ** Deletions that wait *)

(** A blocked deletion is not taken up again.  While a memory tool is being deleted
    and a handler carries its label, the pass over it asks for no further pass; and
    of all changes only those of the tool itself enqueue it, so the end of the last
    reference does not. *)
Theorem blocked_deletion_waits now api t hs listed :
  ts_Type (kt_Spec t) = "memory"%string → kt_Deleting t = true → kt_Finalizer t = true →
  ta_handlers api = Ok hs → ListHandlersByToolRef hs (kt_Name t) ≠ [] →
  (∃ t', tool_reconcile now api t = TDone (mkToolPassed (Some t') (Ok 0)) ∧ kt_Deleting t' = true) ∧
  (∀ hs' ev r, r ∈ enqueued hs' listed CTool ev → ev = EvTool (rq_Name r) (rq_Namespace r)).
Proof.
  intros Hty Hd Hf Hh Hl. split.
  - unfold tool_reconcile. rewrite Hty. cbn [String.eqb Ascii.eqb Bool.eqb]. unfold reconcileMemory. rewrite Hf.
    cbn [kt_Deleting tool_with]. rewrite Hd. unfold handleMemoryDeletion. rewrite Hh. cbn [kt_Name tool_with].
    destruct (ListHandlersByToolRef hs (kt_Name t)) as [|h l]; [done|].
    eexists. split; [done|]. by destruct (ta_status_fails api).
  - intros hs' ev r Hr. destruct ev; cbn in Hr; try by apply elem_of_nil in Hr.
    + apply list_elem_of_singleton in Hr as ->. done.
    + rewrite andb_false_r in Hr. by apply elem_of_nil in Hr.
Qed.
End Passes.

(** ** Secrets *)

Definition values_of (r : res reason (gmap string string)) : option (gmap string string) :=
  match r with Ok v => Some v | Err _ => None end.

Definition answer_of_secret (s : option Secret) : k8s_get Secret := match s with Some s => KFound s | None => KNotFound end.

Lemma Resolve_values_ext get get' ns refs :
  (∀ ref, ref ∈ refs → values_of (resolveOne get ns (snd ref)) = values_of (resolveOne get' ns (snd ref))) →
  fst (Resolve get ns refs) = fst (Resolve get' ns refs).
Proof.
  unfold Resolve. assert (Hgen : ∀ st st' : ResolvedSecrets * gmap string reason, fst st = fst st' →
    (∀ ref, ref ∈ refs → values_of (resolveOne get ns (snd ref)) = values_of (resolveOne get' ns (snd ref))) →
    fst (foldl (resolve_step get ns) st refs) = fst (foldl (resolve_step get' ns) st' refs)).
  { induction refs as [|ref refs IH]; intros st st' Hst Hr; [done|]. cbn [foldl]. apply IH.
    - unfold resolve_step. specialize (Hr ref ltac:(left)).
      destruct (resolveOne get ns (snd ref)), (resolveOne get' ns (snd ref)); simplify_eq/=; congruence.
    - intros ref' Hin. apply Hr. by right. }
  by apply Hgen.
Qed.

(** The references that are read name secrets of the credentials. *)
Lemma refs_named creds : ∀ st ref, ref ∈ fst (foldl ref_step st creds) →
  ref ∈ fst st ∨ ∃ c, c ∈ creds ∧ snd ref = cs_SecretName c.
Proof.
  induction creds as [|c creds IH]; intros st ref Hin; [by left|]. cbn [foldl] in Hin.
  apply IH in Hin as [Hin|(c' & Hc & ?)]; [|right; exists c'; by split; [right|]].
  unfold ref_step in Hin. destruct (negb _); cbn [fst] in Hin; [by left|].
  apply elem_of_app in Hin as [Hin|Hin]; [by left|]. apply list_elem_of_singleton in Hin as ->. right. exists c. by split; [left|].
Qed.

Lemma unreferenced_irrelevant get get' ns name sv :
  (∀ n, (ks_Namespace sv, n) ≠ (ns, name) → get' (ks_Namespace sv) n = get (ks_Namespace sv) n) →
  (ks_Namespace sv = ns → referencesSecret sv name = true →
     values_of (resolveOne get' ns name) = values_of (resolveOne get ns name)) →
  fst (resolveCredentials get' sv) = fst (resolveCredentials get sv).
Proof.
  intros Hget Hval. unfold resolveCredentials. destruct (foldl ref_step ([], ∅) (ks_Credentials sv)) as [refs failures] eqn:E.
  pose proof (Resolve_values_ext get' get (ks_Namespace sv) refs) as Hr.
  destruct (Resolve get' _ refs), (Resolve get _ refs). cbn [fst] in *. apply Hr. intros ref Hin.
  destruct (decide ((ks_Namespace sv, snd ref) = (ns, name))) as [[= En Es]|Hne].
  - rewrite Es, En. apply Hval; [done|]. pose proof (refs_named (ks_Credentials sv) ([], ∅) ref) as Hn. rewrite E in Hn.
    destruct (Hn Hin) as [Hx|(c & Hc & Hs)]; [by apply elem_of_nil in Hx|].
    apply existsb_exists. exists c. split; [by apply list_elem_of_In|]. apply String.eqb_eq. congruence.
  - unfold resolveOne. by rewrite Hget.
Qed.

(** Rotation reaches the agent servers.  Whenever a change of one secret changes the
    values that the operator resolves for an agent server, the server is enqueued,
    unless the change takes the credential label off the secret. *)
Theorem secret_change_requeues get get' listed handlers ns name old new sv servers :
  (∀ ns' n, (ns', n) ≠ (ns, name) → get' ns' n = get ns' n) →
  get ns name = answer_of_secret old → get' ns name = answer_of_secret new →
  listed ns = Some servers → (ks_Namespace sv = ns → sv ∈ servers) →
  ¬ (∃ o n, old = Some o ∧ new = Some n ∧ CredentialSecretPredicate o = true ∧ CredentialSecretPredicate n = false) →
  fst (resolveCredentials get' sv) ≠ fst (resolveCredentials get sv) →
  mkReq (ks_Name sv) (ks_Namespace sv) ∈ enqueued handlers listed CAgentServer (EvSecret ns name old new).
Proof.
  intros Hget Ho Hn Hl Hsv Hlab Hne. apply dec_stable. intros Hnot. apply Hne.
  apply (unreferenced_irrelevant get get' ns name sv); [intros n Hd; by apply Hget|]. intros Ens Href.
  assert (Hmap : ∀ s, CredentialSecretPredicate s = true →
    mkReq (ks_Name sv) (ks_Namespace sv) ∈ MapSecretToAgentServers listed ns name s).
  { intros s Hs. unfold MapSecretToAgentServers. rewrite Hs, Hl. cbn [negb].
    apply list_elem_of_fmap. exists sv. split; [done|]. apply list_elem_of_filter. split; [done|]. by apply Hsv. }
  assert (Hno : ∀ g o, g ns name = answer_of_secret o → (∀ s, o = Some s → CredentialSecretPredicate s = false) →
    values_of (resolveOne g ns name) = None).
  { intros g o Hg Hp. unfold resolveOne. destruct (String.eqb name ""); [done|]. rewrite Hg. destruct o as [s|]; [|done].
    cbn [answer_of_secret]. specialize (Hp s eq_refl). unfold CredentialSecretPredicate in Hp. by rewrite Hp. }
  cbn [enqueued] in Hnot. unfold secret_event in Hnot.
  rewrite (Hno get' new), (Hno get old); [done|exact Ho| |exact Hn|].
  - intros o ->. destruct (CredentialSecretPredicate o) eqn:Eo; [|done]. exfalso. destruct new as [n|].
    + destruct (CredentialSecretPredicate n) eqn:En; [|apply Hlab; eauto 10]. apply Hnot, elem_of_app. left. by apply Hmap.
    + by apply Hnot, Hmap.
  - intros n ->. destruct (CredentialSecretPredicate n) eqn:En; [|done]. exfalso. destruct old as [o|].
    + apply Hnot, elem_of_app. right. by apply Hmap.
    + by apply Hnot, Hmap.
Qed.

(** Taking the label off is not seen: it withdraws the values from the next
    resolution and enqueues nothing. *)
Theorem unlabelling_unseen listed handlers ns name o n c :
  CredentialSecretPredicate n = false →
  enqueued handlers listed c (EvSecret ns name (Some o) (Some n)) = [].
Proof. intros Hn. destruct c; try done. cbn [enqueued secret_event]. by rewrite Hn. Qed.

(** ** Examples *)

Module Samples.

Definition no_servers (_ : string) : option (list KapeAgentServer) := Some [].

Lemma references_requeue_witness :
  mkReq "triage" "team-a" ∈ enqueued (Some [hp_stored triage_pass]) no_servers CHandler (EvTool "notes" "team-a").
Proof.
  destruct (references_requeue (λ s, s) (λ _, ""%string) (λ _, ""%string) 7 triage_api triage [hp_stored triage_pass] no_servers triage_named)
    as (d & Hd & Ht & _).
  - vm_compute. reflexivity.
  - reflexivity.
  - left.
  - apply Ht. vm_compute in Hd. injection Hd as <-. left.
Defined.

Lemma blocked_deletion_waits_witness :
  ∃ t', tool_reconcile 9 (tool_api [hp_stored triage_pass]) notes_tool = TDone (mkToolPassed (Some t') (Ok 0)) ∧ kt_Deleting t' = true.
Proof.
  apply (blocked_deletion_waits 9 (tool_api [hp_stored triage_pass]) notes_tool [hp_stored triage_pass] no_servers);
    [reflexivity|reflexivity|reflexivity|reflexivity|vm_compute; discriminate].
Defined.

(** A rotated key. *)
Definition server : KapeAgentServer :=
  mkServer "team-a" "prod" 1 false "" "" "" "" (mkResources "" "") "" [mkCred "anthropic" "key" "" "anthropic" []] None.

Definition secret (v : string) : Secret := mkSecret {[ CredentialLabel := CredentialLabelValue ]} {[ "api_key"%string := v ]}.

Definition secrets (v : string) (ns n : string) : k8s_get Secret :=
  if decide ((ns, n) = ("team-a", "key")%string) then KFound (secret v) else KNotFound.

Lemma secret_change_requeues_witness :
  mkReq "prod" "team-a" ∈ enqueued None (λ _, Some [server]) CAgentServer (EvSecret "team-a" "key" (Some (secret "old")) (Some (secret "new"))).
Proof.
  apply (secret_change_requeues (secrets "old") (secrets "new") (λ _, Some [server]) None "team-a" "key" (Some (secret "old")) (Some (secret "new")) server [server]).
  - intros ns n Hne. unfold secrets. by rewrite !decide_False.
  - reflexivity.
  - reflexivity.
  - reflexivity.
  - left.
  - intros (o & n & [= <-] & [= <-] & _ & Hp). vm_compute in Hp. discriminate.
  - intros H. apply (f_equal (λ m : ResolvedSecrets, m !! "anthropic"%string ≫= lookup "api_key"%string)) in H.
    vm_compute in H. discriminate H.
Defined.

End Samples.
