(* ===== verification/Repositories.v ===== *)
(** * The operator's repositories (src/operator/infra/k8s: tool_repo.go, skill_repo.go,
      schema_repo.go, handler_repo.go, agentserver_repo.go)

    Reads come from a cache and may be old; writes go to the API server, which other
    clients write to as well.  The server is an interface: a store of objects with
    versions, status updates that are refused on an old version, and merge patches, with
    the laws its documentation gives.  Retrying on a conflict is the client library's and
    an interface too.  The repositories are the same functions at different kinds.  Both
    interfaces are met, by a store in memory and a loop of five steps. *)

From Stdlib Require Import Ascii String ZArith.
From S2P Require Import Prelude.
From stdpp Require Import base list strings numbers gmap.

(** ** Objects *)

Record key : Type := mkKey { k_Namespace : string; k_Name : string }.

#[global] Instance key_eq_dec : EqDecision key.
Proof. solve_decision. Defined.
#[global] Instance key_countable : Countable key.
Proof. refine (inj_countable' (λ k, (k_Namespace k, k_Name k)) (λ p, mkKey p.1 p.2) _). by intros []. Defined.

(** An object of one kind: metadata, specification and status. *)
Record obj {Sp St : Type} : Type := mkObject {
  o_key : key; o_version : N; o_finalizers : list string; o_labels : gmap string string; o_deleting : bool;
  o_spec : Sp; o_status : St
}.
Arguments obj : clear implicits.
Arguments mkObject {Sp St}.

Section Objects.
Context {Sp St : Type}.
Implicit Types o : obj Sp St.

Definition with_status o (s : St) : obj Sp St :=
  mkObject (o_key o) (o_version o) (o_finalizers o) (o_labels o) (o_deleting o) (o_spec o) s.
Definition with_finalizers o (fs : list string) : obj Sp St :=
  mkObject (o_key o) (o_version o) fs (o_labels o) (o_deleting o) (o_spec o) (o_status o).
Definition with_labels o (ls : gmap string string) : obj Sp St :=
  mkObject (o_key o) (o_version o) (o_finalizers o) ls (o_deleting o) (o_spec o) (o_status o).
Definition with_version o (v : N) : obj Sp St :=
  mkObject (o_key o) v (o_finalizers o) (o_labels o) (o_deleting o) (o_spec o) (o_status o).

(** A JSON merge patch between two states of an object, applied to a third: a list that
    differs is replaced as a whole, labels one by one. *)
Definition merge_labels (original modified cur : gmap string string) : gmap string string :=
  merge (λ om c, match om with
                 | Some (a, b) => if decide (a = b) then c else b
                 | None => c
                 end)
    (merge (λ a b, Some (a, b)) original modified) cur.

Definition merge_patch (original modified cur : obj Sp St) : obj Sp St :=
  with_labels
    (with_finalizers cur (if decide (o_finalizers original = o_finalizers modified) then o_finalizers cur else o_finalizers modified))
    (merge_labels (o_labels original) (o_labels modified) (o_labels cur)).

(** An object that is being deleted goes when its last finalizer does. *)
Definition settled o : option (obj Sp St) :=
  if o_deleting o && bool_decide (o_finalizers o = []) then None else Some o.
End Objects.

(** ** The API server and its client *)

Inductive api_err : Type := Conflict | NotFound | OtherErr (msg : string).

#[global] Instance api_err_eq_dec : EqDecision api_err.
Proof. solve_decision. Defined.

(** Two states of an object between which only its metadata changed. *)
Definition metadata_only {Sp St} (o o' : obj Sp St) : Prop :=
  o_key o' = o_key o ∧ o_version o' = o_version o ∧ o_deleting o' = o_deleting o ∧ o_spec o' = o_spec o ∧ o_status o' = o_status o.

(** The status subresource takes a status at the version that is stored and refuses any
    other; a merge patch without a version in it is applied to what is stored, and is
    answered with the result.  Nothing is promised of the store after another error. *)
Class KubeAPI (A Sp St : Type) : Type := {
  ka_object : A → key → option (obj Sp St);
  ka_update_status : obj Sp St → A → A * option api_err;
  ka_patch : obj Sp St → obj Sp St → A → A * res api_err (obj Sp St);
  ka_update_ok o a a' : ka_update_status o a = (a', None) →
    ∃ cur v, ka_object a (o_key o) = Some cur ∧ o_version cur = o_version o ∧
      ka_object a' (o_key o) = Some (with_version (with_status cur (o_status o)) v);
  ka_update_stale o a cur : ka_object a (o_key o) = Some cur → o_version cur ≠ o_version o →
    ka_update_status o a = (a, Some Conflict);
  ka_update_fresh o a cur : ka_object a (o_key o) = Some cur → o_version cur = o_version o →
    (ka_update_status o a).2 ≠ Some Conflict ∧ (ka_update_status o a).2 ≠ Some NotFound;
  ka_update_gone o a : ka_object a (o_key o) = None → ka_update_status o a = (a, Some NotFound);
  ka_patch_ok original modified a a' new : metadata_only original modified →
    ka_patch original modified a = (a', Ok new) →
    ∃ cur v, ka_object a (o_key modified) = Some cur ∧ new = with_version (merge_patch original modified cur) v ∧
      ka_object a' (o_key modified) = settled new;
  ka_patch_gone original modified a : ka_object a (o_key modified) = None →
    ka_patch original modified a = (a, Err NotFound);
  ka_patch_found original modified a cur : ka_object a (o_key modified) = Some cur →
    (ka_patch original modified a).2 ≠ Err NotFound
}.

(** Attempts, numbered from [i], of which all but the last met a conflict. *)
Inductive retried {A : Type} (f : nat → A → A * option api_err) : nat → nat → A → A → option api_err → Prop :=
| retried_last i a a' r : f i a = (a', r) → retried f i 1 a a' r
| retried_again i n a b a' r : f i a = (b, Some Conflict) → retried f (S i) n b a' r → retried f i (S n) a a' r.

(** [retry.RetryOnConflict] with [retry.DefaultRetry]: a function is called until it
    returns something else than a conflict, a bounded number of times; the last result
    is returned. *)
Class ClientRetry : Type := {
  retry_steps : nat;
  RetryOnConflict {A : Type} : (nat → A → A * option api_err) → A → A * option api_err;
  retry_law {A : Type} (f : nat → A → A * option api_err) a a' r : RetryOnConflict f a = (a', r) →
    ∃ n, retried f 0 n a a' r ∧ (n ≤ retry_steps)%nat ∧ (r = Some Conflict → n = retry_steps)
}.

(** ** The repositories *)

(** An error of a repository: its text, and the error it wraps. *)
Record repo_err : Type := mkRepoErr { re_text : string; re_cause : api_err }.

Definition object_text {Sp St} (kind : string) (o : obj Sp St) : string :=
  (kind +:+ " " +:+ k_Namespace (o_key o) +:+ "/" +:+ k_Name (o_key o))%string.

Section Repository.
Context {A Sp St : Type} `{KubeAPI A Sp St} `{ClientRetry}.
Implicit Types o : obj Sp St.

(** [client.IgnoreNotFound]. *)
Definition IgnoreNotFound (e : api_err) : option api_err := match e with NotFound => None | _ => Some e end.

(** The client's answer; no object and no error when there is none. *)
Definition Get (answer : res api_err (obj Sp St)) : option (obj Sp St) * option api_err :=
  match answer with Ok o => (Some o, None) | Err e => (None, IgnoreNotFound e) end.

(** One attempt: [reads i k] is what the cache answers for [k] at attempt [i], [others i] what
    other clients do between that read and the write. *)
Definition status_attempt (k : key) (desired : St) (reads : nat → key → A → res api_err (obj Sp St)) (others : nat → A → A)
    (i : nat) (a : A) : A * option api_err :=
  match reads i k a with
  | Err e => (others i a, IgnoreNotFound e)
  | Ok latest => ka_update_status (with_status latest desired) (others i a)
  end.

Definition UpdateStatus (kind : string) (o : obj Sp St) (reads : nat → key → A → res api_err (obj Sp St)) (others : nat → A → A)
    (a : A) : A * option repo_err :=
  let '(a', r) := RetryOnConflict (status_attempt (o_key o) (o_status o) reads others) a in
  (a', match r with
       | Some NotFound | None => None
       | Some e => Some (mkRepoErr ("updating " +:+ object_text kind o +:+ " status") e)
       end).

(** The caller's object is changed in place before the patch is sent, and is overwritten
    by the server's answer. *)
Definition patched (text : string) (o o' : obj Sp St) (a : A) : obj Sp St * A * option repo_err :=
  match ka_patch o o' a with
  | (a', Ok new) => (new, a', None)
  | (a', Err e) => (o', a', Some (mkRepoErr text e))
  end.

Definition AddFinalizer (kind : string) (o : obj Sp St) (f : string) (a : A) : obj Sp St * A * option repo_err :=
  if decide (f ∈ o_finalizers o) then (o, a, None)
  else patched ("adding finalizer to " +:+ object_text kind o) o (with_finalizers o (o_finalizers o ++ [f])) a.

Definition RemoveFinalizer (kind : string) (o : obj Sp St) (f : string) (a : A) : obj Sp St * A * option repo_err :=
  if decide (f ∈ o_finalizers o)
  then patched ("removing finalizer from " +:+ object_text kind o) o (with_finalizers o (filter (λ g, g ≠ f) (o_finalizers o))) a
  else (o, a, None).

Definition sync_labels (o : obj Sp St) (labels : gmap string string) (a : A) : obj Sp St * A * option repo_err :=
  match patched ("syncing labels on " +:+ object_text "KapeHandler" o) o (with_labels o (labels ∪ o_labels o)) a with
  | (o', a', Some (mkRepoErr _ NotFound)) => (o', a', None)
  | r => r
  end.

(** What a repository offers. *)
Record repository : Type := mkRepository {
  rp_Get : res api_err (obj Sp St) → option (obj Sp St) * option api_err;
  rp_UpdateStatus : obj Sp St → (nat → key → A → res api_err (obj Sp St)) → (nat → A → A) → A → A * option repo_err
}.
Record finalizing : Type := mkFinalizing {
  fr_repository : repository;
  fr_AddFinalizer : obj Sp St → string → A → obj Sp St * A * option repo_err;
  fr_RemoveFinalizer : obj Sp St → string → A → obj Sp St * A * option repo_err
}.

Definition ToolRepository : finalizing :=
  mkFinalizing (mkRepository Get (UpdateStatus "KapeTool")) (AddFinalizer "KapeTool") (RemoveFinalizer "KapeTool").
Definition SkillRepository : finalizing :=
  mkFinalizing (mkRepository Get (UpdateStatus "KapeSkill")) (AddFinalizer "KapeSkill") (RemoveFinalizer "KapeSkill").
Definition SchemaRepository : finalizing :=
  mkFinalizing (mkRepository Get (UpdateStatus "KapeSchema")) (AddFinalizer "KapeSchema") (RemoveFinalizer "KapeSchema").
Definition HandlerRepository : repository := mkRepository Get (UpdateStatus "KapeHandler").
Definition AgentServerRepository : repository := mkRepository Get (UpdateStatus "KapeAgentServer").
End Repository.

(** ** What is shown *)

Section Shown.
Context {A Sp St : Type} `{KubeAPI A Sp St} `{ClientRetry}.
Implicit Types o cur new : obj Sp St.

(** What a status update leaves alone. *)
Definition same_but_status cur new : Prop :=
  o_key new = o_key cur ∧ o_finalizers new = o_finalizers cur ∧ o_labels new = o_labels cur ∧
  o_deleting new = o_deleting cur ∧ o_spec new = o_spec cur.

(** The cache answers with objects that have the key asked for. *)
Definition keyed (reads : nat → key → A → res api_err (obj Sp St)) : Prop :=
  ∀ i k a r, reads i k a = Ok r → o_key r = k.

Lemma retried_end {B} (f : nat → B → B * option api_err) i n a a' r :
  retried f i n a a' r → ∃ j b, (i ≤ j < i + n)%nat ∧ f j b = (a', r).
Proof.
  induction 1 as [i a a' r E|i n a b a' r _ _ (j & c & Hj & E)]; [exists i, a|exists j, c]; (split; [lia|done]).
Qed.

Lemma retried_conflict {B} (f : nat → B → B * option api_err) i n a a' :
  retried f i n a a' (Some Conflict) → ∀ j, (i ≤ j < i + n)%nat → ∃ b b', f j b = (b', Some Conflict).
Proof.
  intros Hr. remember (Some Conflict) as r eqn:Er. induction Hr as [i a a' r E|i n a b a' r E _ IH]; intros j Hj; subst r.
  - replace j with i by lia. eauto.
  - destruct (decide (j = i)) as [->|]; [eauto|]. apply IH; [done|lia].
Qed.

(** An update that reports success either found no object, in the cache or on the
    server, or stored the whole status it was given over the one the server held at that
    moment, whatever that was, and changed nothing else of the object. *)
Theorem status_is_replaced kind o reads others a a' :
  keyed reads → UpdateStatus kind o reads others a = (a', None) →
  ∃ j b, (j < retry_steps)%nat ∧
    (reads j (o_key o) b = Err NotFound ∧ a' = others j b ∨
     ka_object (others j b) (o_key o) = None ∧ a' = others j b ∨
     ∃ cur new, ka_object (others j b) (o_key o) = Some cur ∧ ka_object a' (o_key o) = Some new ∧
       o_status new = o_status o ∧ same_but_status cur new).
Proof.
  intros Hk. unfold UpdateStatus. destruct (RetryOnConflict _ _) as [a1 r] eqn:E.
  apply retry_law in E as (n & (j & b & Hj & E)%retried_end & Hn & _). intros [= -> Hr]. exists j, b. split; [lia|].
  unfold status_attempt in E. destruct (reads j (o_key o) b) as [latest|e] eqn:Er.
  - right. pose proof (Hk _ _ _ _ Er) as Hkey. set (w := with_status latest (o_status o)) in E.
    assert (o_key w = o_key o) as Hw by done. destruct r as [[]|]; try done.
    + left. destruct (ka_object (others j b) (o_key o)) as [cur|] eqn:Ec.
      * exfalso. rewrite <-Hw in Ec. destruct (decide (o_version cur = o_version w)) as [Hv|Hv].
        -- destruct (ka_update_fresh _ _ _ Ec Hv) as [_ Hne]. by rewrite E in Hne.
        -- by rewrite (ka_update_stale _ _ _ Ec Hv) in E.
      * rewrite <-Hw in Ec. rewrite (ka_update_gone _ _ Ec) in E. by simplify_eq.
    + right. apply ka_update_ok in E as (cur & v & Hc & _ & Hnew). rewrite Hw in Hc, Hnew.
      by exists cur, (with_version (with_status cur (o_status o)) v).
  - left. by destruct e; simplify_eq/=.
Qed.

(** The cache is up to date at attempt [j], and no one writes before the update. *)
Definition fresh_at (reads : nat → key → A → res api_err (obj Sp St)) (others : nat → A → A) (k : key) (j : nat) : Prop :=
  ∀ b, reads j k b = match ka_object (others j b) k with Some cur => Ok cur | None => Err NotFound end.

(** One attempt with an up-to-date read is enough: the update does not end in a
    conflict. *)
Theorem fresh_read_settles kind o reads others a j :
  keyed reads → (j < retry_steps)%nat → fresh_at reads others (o_key o) j →
  ∀ text, (UpdateStatus kind o reads others a).2 ≠ Some (mkRepoErr text Conflict).
Proof.
  intros Hk Hj Hf text. unfold UpdateStatus. destruct (RetryOnConflict _ _) as [a1 r] eqn:E.
  apply retry_law in E as (n & Hr & _ & Hn). cbn. intros HC.
  assert (r = Some Conflict) as -> by (destruct r as [[]|]; congruence). specialize (Hn eq_refl). subst n.
  destruct (retried_conflict _ _ _ _ _ Hr j ltac:(lia)) as (b & b' & E). unfold status_attempt in E.
  rewrite (Hf b) in E. destruct (ka_object (others j b) (o_key o)) as [cur|] eqn:Ec; [|by simplify_eq/=].
  assert (o_key cur = o_key o) as Hkey by (apply (Hk j _ b); by rewrite (Hf b), Ec).
  destruct (ka_update_fresh (with_status cur (o_status o)) (others j b) cur) as [Hne _]; [cbn; by rewrite Hkey|done|].
  by rewrite E in Hne.
Qed.

(** A cache that stays behind for all attempts: the update is given up with a conflict
    and the server is as it was. *)
Theorem stale_cache_gives_up kind o old cur reads a :
  (∀ i b, reads i (o_key o) b = Ok old) → o_key old = o_key o → ka_object a (o_key o) = Some cur →
  o_version cur ≠ o_version old →
  UpdateStatus kind o reads (λ _ b, b) a = (a, Some (mkRepoErr ("updating " +:+ object_text kind o +:+ " status") Conflict)).
Proof.
  intros Hread Hkey Hc Hv. unfold UpdateStatus. destruct (RetryOnConflict _ _) as [a1 r] eqn:E.
  apply retry_law in E as (n & Hr & _).
  assert (∀ i, status_attempt (o_key o) (o_status o) reads (λ _ b, b) i a = (a, Some Conflict)) as Hat.
  { intros i. unfold status_attempt. rewrite Hread. eapply ka_update_stale; [cbn; by rewrite Hkey|done]. }
  assert (a1 = a ∧ r = Some Conflict) as [-> ->]; [|done].
  induction Hr as [i a a' r E|i n a b a' r E _ IH]; rewrite Hat in E; simplify_eq; [done|by apply IH].
Qed.

Lemma patched_ok text o o' a new a' cur :
  patched text o o' a = (new, a', None) → ka_object a (o_key o) = Some cur → metadata_only o o' →
  ∃ v, new = with_version (merge_patch o o' cur) v ∧ ka_object a' (o_key o) = settled new.
Proof.
  unfold patched. intros E Hc Hm. destruct (ka_patch o o' a) as [a1 [n|e]] eqn:Ep; simplify_eq.
  pose proof Hm as [Hk _]. apply ka_patch_ok in Ep as (c & v & Hc' & -> & Hs); [|done].
  rewrite Hk in Hc', Hs. simplify_eq. eauto.
Qed.

(** Adding a finalizer stores the list the caller had read with the new one at its end:
    a finalizer that someone else added since the read is dropped. *)
Theorem added_finalizer_replaces kind o f a new a' cur :
  f ∉ o_finalizers o → ka_object a (o_key o) = Some cur →
  AddFinalizer kind o f a = (new, a', None) →
  ka_object a' (o_key o) = Some new ∧ o_finalizers new = o_finalizers o ++ [f] ∧
  o_spec new = o_spec cur ∧ o_status new = o_status cur ∧ o_deleting new = o_deleting cur.
Proof.
  unfold AddFinalizer. intros Hf Hc. rewrite decide_False by done. intros E.
  destruct (patched_ok _ _ _ _ _ _ _ E Hc) as (v & -> & Hs); [by repeat split|].
  assert (o_finalizers (with_version (merge_patch o (with_finalizers o (o_finalizers o ++ [f])) cur) v) = o_finalizers o ++ [f]) as Hfs.
  { cbn. case_decide as Hd; [|done]. apply (f_equal length) in Hd. rewrite length_app in Hd. cbn in Hd. lia. }
  split_and!; try done. rewrite Hs. unfold settled. rewrite Hfs.
  rewrite bool_decide_eq_false_2, andb_false_r; [done|]. by destruct (o_finalizers o).
Qed.

(** A finalizer added and removed again leaves the list as it was read. *)
Theorem finalizer_roundtrip kind o f a o1 a1 o2 a2 cur :
  f ∉ o_finalizers o → ka_object a (o_key o) = Some cur → o_deleting cur = false → o_key cur = o_key o →
  AddFinalizer kind o f a = (o1, a1, None) → RemoveFinalizer kind o1 f a1 = (o2, a2, None) →
  ka_object a2 (o_key o) = Some o2 ∧ o_finalizers o2 = o_finalizers o.
Proof.
  intros Hf Hc Hd Hkey Ha Hr.
  assert (o_key o1 = o_key o ∧ o_deleting o1 = false ∧ o_finalizers o1 = o_finalizers o ++ [f] ∧ ka_object a1 (o_key o) = Some o1)
    as (Hk1 & Hd1 & Hf1 & Hs1).
  { unfold AddFinalizer in Ha. rewrite decide_False in Ha by done.
    destruct (patched_ok _ _ _ _ _ _ _ Ha Hc) as (v & -> & Hs); [by repeat split|]. cbn in *.
    case_decide as Hl; [apply (f_equal length) in Hl; rewrite length_app in Hl; cbn in Hl; lia|].
    split_and!; try done. rewrite Hs. unfold settled. cbn. by rewrite Hd. }
  unfold RemoveFinalizer in Hr. rewrite decide_True in Hr by (rewrite Hf1; set_solver).
  assert (filter (λ g, g ≠ f) (o_finalizers o1) = o_finalizers o) as Hfl.
  { rewrite Hf1, filter_app, filter_cons_False, filter_nil, app_nil_r by naive_solver.
    apply filter_id, Forall_forall. by intros g Hg ->. }
  rewrite Hfl in Hr. rewrite <-Hk1 in Hs1.
  destruct (patched_ok _ _ _ _ _ _ _ Hr Hs1) as (v & -> & Hs); [by repeat split|]. rewrite Hk1 in Hs.
  split; [rewrite Hs; unfold settled; cbn; by rewrite Hd1|]. cbn. case_decide as Hl; [|done]. cbn in Hl. congruence.
Qed.

Lemma merge_labels_at (l m c : gmap string string) k :
  merge_labels l m c !! k = if decide (l !! k = m !! k) then c !! k else m !! k.
Proof.
  unfold merge_labels. rewrite !lookup_merge. destruct (l !! k), (m !! k), (c !! k); cbn; repeat case_decide; naive_solver.
Qed.

(** Synchronising labels sets the labels the caller did not have with that value, and
    leaves the labels it was not asked about as the server has them. *)
Theorem labels_synced o labels a new a' cur :
  ka_object a (o_key o) = Some cur → sync_labels o labels a = (new, a', None) → ka_object a' (o_key o) = Some new →
  (∀ k v, labels !! k = Some v → o_labels o !! k ≠ Some v → o_labels new !! k = Some v) ∧
  (∀ k, labels !! k = None → o_labels new !! k = o_labels cur !! k).
Proof.
  intros Hc E Hn. unfold sync_labels in E.
  destruct (patched _ o (with_labels o (labels ∪ o_labels o)) a) as [[n b] [[t e]|]] eqn:Ep.
  { exfalso. destruct e; simplify_eq. unfold patched in Ep.
    destruct (ka_patch _ _ _) as [a1 [|e]] eqn:Epp; simplify_eq.
    apply (ka_patch_found o (with_labels o (labels ∪ o_labels o)) a cur); [done|]. by rewrite Epp. }
  simplify_eq. destruct (patched_ok _ _ _ _ _ _ _ Ep Hc) as (v & -> & _); [by repeat split|].
  split; intros k; cbn; rewrite merge_labels_at; cbn.
  - intros w Hw Hne. rewrite (lookup_union_Some_l _ _ _ _ Hw), decide_False by congruence. done.
  - intros Hw. rewrite lookup_union_r by done. by rewrite decide_True.
Qed.
End Shown.

(** ** A server in memory *)

Module Memory_server.
Section Server.
Context {Sp St : Type}.
#[local] Notation server := (gmap key (obj Sp St)).

Definition put_status (o : obj Sp St) (a : server) : server * option api_err :=
  match a !! o_key o with
  | None => (a, Some NotFound)
  | Some cur =>
      if decide (o_version cur = o_version o)
      then (<[o_key o := with_version (with_status cur (o_status o)) (N.succ (o_version cur))]> a, None)
      else (a, Some Conflict)
  end.

Definition put_patch (original modified : obj Sp St) (a : server) : server * res api_err (obj Sp St) :=
  match a !! o_key modified with
  | None => (a, Err NotFound)
  | Some cur =>
      let new := with_version (merge_patch original modified cur) (N.succ (o_version cur)) in
      (match settled new with Some n => <[o_key modified := n]> a | None => delete (o_key modified) a end, Ok new)
  end.

#[global, program] Instance memory_api : KubeAPI server Sp St := {|
  ka_object a k := a !! k; ka_update_status := put_status; ka_patch := put_patch
|}.
Next Obligation.
  unfold put_status. intros o a a'. destruct (a !! o_key o) as [cur|]; [|done]. case_decide; [|done]. intros [= <-].
  exists cur, (N.succ (o_version cur)). by rewrite lookup_insert_eq.
Qed.
Next Obligation. unfold put_status. intros o a cur -> Hv. by rewrite decide_False. Qed.
Next Obligation. unfold put_status. intros o a cur -> Hv. by rewrite decide_True. Qed.
Next Obligation. unfold put_status. by intros o a ->. Qed.
Next Obligation.
  unfold put_patch. intros original modified a a' new _. destruct (a !! o_key modified) as [cur|]; [|done]. intros [= <- <-].
  exists cur, (N.succ (o_version cur)). split_and!; [done..|].
  destruct (settled _); [by rewrite lookup_insert_eq|by rewrite lookup_delete_eq].
Qed.
Next Obligation. unfold put_patch. by intros original modified a ->. Qed.
Next Obligation. unfold put_patch. by intros original modified a cur ->. Qed.
End Server.

(** Five steps, as [retry.DefaultRetry] has. *)
Fixpoint retry_loop {A} (further i : nat) (f : nat → A → A * option api_err) (a : A) : A * option api_err :=
  let '(a', r) := f i a in
  match further with
  | S rest => if decide (r = Some Conflict) then retry_loop rest (S i) f a' else (a', r)
  | O => (a', r)
  end.

Lemma retry_loop_law {A} (f : nat → A → A * option api_err) further : ∀ i a a' r, retry_loop further i f a = (a', r) →
  ∃ n, retried f i n a a' r ∧ (n ≤ S further)%nat ∧ (r = Some Conflict → n = S further).
Proof.
  induction further as [|further IH]; intros i a a' r; cbn; destruct (f i a) as [b s] eqn:E.
  - intros [= <- <-]. exists 1%nat. split_and!; [by constructor|lia|done].
  - case_decide as Hs.
    + subst s. intros (n & Hn & Hle & Hc)%IH. exists (S n). split_and!; [by eapply retried_again|lia|]. intros ->. by rewrite Hc.
    + intros [= <- <-]. exists 1%nat. split_and!; [by constructor|lia|done].
Qed.

#[global] Instance five_steps : ClientRetry := {|
  retry_steps := 5; RetryOnConflict A f a := retry_loop 4 0 f a; retry_law A f a a' r := retry_loop_law f 4 0 a a' r
|}.
End Memory_server.

Module Samples.
Import Memory_server.

Definition k0 : key := mkKey "default" "orders".
Definition seen : obj unit (list string) := mkObject k0 1 [] ∅ false () []%string.
(** Since the read, another controller has stored a condition and a finalizer. *)
Definition now_stored : obj unit (list string) := mkObject k0 2 ["other.io/guard"]%string ∅ false () ["KapeProxyReady"]%string.
Definition cluster : gmap key (obj unit (list string)) := {[ k0 := now_stored ]}.
Definition from_server (i : nat) (k : key) (a : gmap key (obj unit (list string))) : res api_err (obj unit (list string)) :=
  match a !! k with Some o => if decide (o_key o = k) then Ok o else Err NotFound | None => Err NotFound end.

Lemma from_server_keyed : keyed from_server.
Proof. intros i k a r. unfold from_server. destruct (a !! k); [case_decide|]; naive_solver. Qed.

Definition mine : obj unit (list string) := with_status seen ["Ready"]%string.

Definition updated : gmap key (obj unit (list string)) * option repo_err :=
  UpdateStatus "KapeHandler" mine from_server (λ _ a, a) cluster.

(** The other controller's condition is gone after this one's update. *)
Lemma status_is_replaced_witness :
  updated.2 = None ∧ o_status <$> (updated.1 !! k0) = Some ["Ready"]%string ∧
  ∃ j b, (j < 5)%nat ∧
    (from_server j k0 b = Err NotFound ∧ updated.1 = b ∨ b !! k0 = None ∧ updated.1 = b ∨
     ∃ cur new, b !! k0 = Some cur ∧ updated.1 !! k0 = Some new ∧ o_status new = ["Ready"]%string ∧ same_but_status cur new).
Proof.
  assert (updated.2 = None) as E by (vm_compute; reflexivity).
  split; [exact E|]. split; [vm_compute; reflexivity|].
  assert (updated = (updated.1, None)) as Eu by (rewrite <-E; apply surjective_pairing).
  exact (status_is_replaced "KapeHandler" mine from_server (λ _ a, a) cluster updated.1 from_server_keyed Eu).
Defined.

Definition added : obj unit (list string) * gmap key (obj unit (list string)) * option repo_err :=
  AddFinalizer "KapeTool" seen "kape.io/tool" cluster.

(** The other controller's finalizer is gone as well. *)
Lemma added_finalizer_replaces_witness :
  added.2 = None ∧ o_finalizers now_stored = ["other.io/guard"]%string ∧
  added.1.2 !! k0 = Some added.1.1 ∧ o_finalizers added.1.1 = ["kape.io/tool"]%string.
Proof.
  assert (added.2 = None) as E by (vm_compute; reflexivity).
  split; [exact E|]. split; [reflexivity|].
  destruct (added_finalizer_replaces "KapeTool" seen "kape.io/tool" cluster added.1.1 added.1.2 now_stored) as (Hs & Hf & _).
  - apply not_elem_of_nil.
  - apply lookup_singleton_eq.
  - rewrite <-E, <-!surjective_pairing. reflexivity.
  - split; [exact Hs|exact Hf].
Defined.
End Samples.
