(* ===== verification/DeepCopy.v ===== *)
(** * Copies of the resources
      (src/operator/infra/api/v1alpha1: the types and zz_generated.deepcopy.go)

    The controllers' cache hands out shared objects, and what is changed must be a copy.
    The types of the resources are shapes, the generated [DeepCopyInto] functions are
    programs over a heap of pointers, slices and maps: a plain assignment shares what a
    field refers to, the guarded blocks allocate.  A program covers a shape when it
    allocates for every reference in it; what covers copies deeply, and the programs of
    the file cover the types.  Types of the Kubernetes libraries are parameters with
    their own copy functions. *)

From Stdlib Require Import Ascii String.
From S2P Require Import Prelude.
From stdpp Require Import base list strings numbers gmap fin_maps infinite.

(** ** Memory *)

Notation loc := positive (only parsing).

(** A reference is nil or a location. *)
Inductive val : Type :=
| VScalar (s : string)
| VStruct (fs : list (string * val))
| VRef (l : option loc).

(** A cell holds what a pointer, a slice or a map refers to: its entries by key, with
    empty keys for the elements of a slice and the target of a pointer. *)
Notation heap := (gmap loc (list (string * val))).

Definition alloc (cell : list (string * val)) (h : heap) : heap * val :=
  let l := fresh (dom h) in (<[l := cell]> h, VRef (Some l)).

(** ** Shapes and contents *)

(** Types by where they hold references; [TLib] is a type of a library. *)
Inductive ty : Type :=
| TScalar
| TStruct (fs : list (string * ty))
| TPtr (t : ty)
| TSlice (t : ty)
| TMap (t : ty)
| TLib (name : string).

(** A value with everything it refers to. *)
Inductive tree : Type :=
| TrScalar (s : string)
| TrStruct (fs : list (string * tree))
| TrNil
| TrRef (es : list (string * tree)).

(** ** Programs *)

(** The statements of the generated functions, on one field or value.  [CAssign] is
    [*out = *in]; [CStruct] assigns the whole struct and then runs the statements of the
    fields it names, in the order of the type; [CNew], [CMake] and [CMakeMap] are the
    blocks guarded by [!= nil]; [CCall] is the copy function of a library type. *)
Inductive copy : Type :=
| CAssign
| CStruct (steps : list (string * copy))
| CNew (c : copy)
| CMake (c : copy)
| CMakeMap (c : copy)
| CCall (name : string).

Section Run.
(** The copy functions of the libraries. *)
Context (lib : string → heap → val → heap * val).

(** Entries are copied one after the other, each by the program of its key. *)
Section Entries.
Context (f : string → heap → val → heap * val).

Fixpoint copy_entries (h : heap) (es : list (string * val)) : heap * list (string * val) :=
  match es with
  | [] => (h, [])
  | (k, v) :: rest =>
      let '(h1, v1) := f k h v in
      let '(h2, rest2) := copy_entries h1 rest in
      (h2, (k, v1) :: rest2)
  end.
End Entries.

(** A nil reference stays nil; the elements are copied, then a cell of their own holds
    them. *)
Definition copy_ref (f : heap → val → heap * val) (h : heap) (v : val) : heap * val :=
  match v with
  | VRef (Some l) =>
      match h !! l with
      | Some cell => let '(h1, cell1) := copy_entries (λ _, f) h cell in alloc cell1 h1
      | None => (h, v)
      end
  | _ => (h, v)
  end.

Fixpoint run_copy (c : copy) (h : heap) (v : val) {struct c} : heap * val :=
  match c with
  | CAssign => (h, v)
  | CStruct steps =>
      match v with
      | VStruct fs =>
          let '(h', fs') :=
            copy_entries (λ n h w,
              (fix find (steps : list (string * copy)) : heap * val :=
                 match steps with
                 | [] => (h, w)
                 | (m, c') :: more => if String.eqb m n then run_copy c' h w else find more
                 end) steps) h fs in
          (h', VStruct fs')
      | _ => (h, v)
      end
  | CNew c' | CMake c' | CMakeMap c' => copy_ref (run_copy c') h v
  | CCall name => lib name h v
  end.
End Run.

(** ** The types *)

Definition scalars (names : list string) : list (string * ty) := (λ n, (n, TScalar)) <$> names.

Definition ty_TypeMeta : ty := TStruct (scalars ["Kind"; "APIVersion"]%string).
Definition ty_Conditions : ty := TSlice (TLib "metav1.Condition").
Definition ty_Strings : ty := TSlice TScalar.

Definition ty_SandboxResources : ty := TStruct (scalars ["CPU"; "Memory"]%string).
Definition ty_AgentServerControllerSpec : ty :=
  TStruct [("Image", TScalar); ("Resources", TPtr (TLib "v1.ResourceRequirements"))]%string.
Definition ty_AgentServerSandboxSpec : ty :=
  TStruct [("Image", TScalar); ("Model", TScalar); ("Resources", ty_SandboxResources)]%string.
Definition ty_AgentServerModelGatewaySpec : ty := TStruct (scalars ["URL"]%string).
Definition ty_AgentServerSecretRef : ty := TStruct (scalars ["Name"; "Namespace"]%string).
Definition ty_AgentServerCredentialSpec : ty :=
  TStruct [("Name", TScalar); ("SecretRef", ty_AgentServerSecretRef); ("ProviderType", TScalar); ("HostPatterns", ty_Strings)]%string.
Definition ty_AgentServerIngressSpec : ty := TStruct (scalars ["Host"; "TLSSecretName"]%string).
Definition ty_AgentServerNetworkSpec : ty :=
  TStruct [("Ingress", TPtr ty_AgentServerIngressSpec); ("EgressPolicyRefs", ty_Strings)]%string.
Definition ty_KapeAgentServerSpec : ty :=
  TStruct [("Description", TScalar); ("Controller", ty_AgentServerControllerSpec); ("Sandbox", ty_AgentServerSandboxSpec);
    ("ModelGateway", ty_AgentServerModelGatewaySpec); ("Credentials", TSlice ty_AgentServerCredentialSpec);
    ("Network", TPtr ty_AgentServerNetworkSpec)]%string.
Definition ty_AgentServerCredentialStatus : ty := TStruct [("Name", TScalar); ("Conditions", ty_Conditions)]%string.
Definition ty_KapeAgentServerStatus : ty :=
  TStruct [("ObservedGeneration", TScalar); ("Conditions", ty_Conditions);
    ("Credentials", TSlice ty_AgentServerCredentialStatus)]%string.

(** A resource and a list of them. *)
Definition ty_resource (spec status : ty) : ty :=
  TStruct [("TypeMeta", ty_TypeMeta); ("ObjectMeta", TLib "metav1.ObjectMeta"); ("Spec", spec); ("Status", status)]%string.
Definition ty_list (item : ty) : ty :=
  TStruct [("TypeMeta", ty_TypeMeta); ("ListMeta", TLib "metav1.ListMeta"); ("Items", TSlice item)]%string.

Definition ty_KapeAgentServer : ty := ty_resource ty_KapeAgentServerSpec ty_KapeAgentServerStatus.

Definition ty_EventFilter : ty := TStruct (scalars ["Jsonpath"; "Matches"]%string).
Definition ty_DedupSpec : ty := TStruct (scalars ["WindowSeconds"; "Key"]%string).
Definition ty_TriggerSpec : ty :=
  TStruct [("Source", TScalar); ("Type", TScalar); ("Filter", TPtr ty_EventFilter); ("Dedup", TPtr ty_DedupSpec);
    ("ReplayOnStartup", TPtr TScalar); ("MaxEventAgeSeconds", TScalar)]%string.
Definition ty_LLMSpec : ty :=
  TStruct (scalars ["Provider"; "Model"; "SystemPrompt"; "MaxIterations"; "ConfidenceThreshold"]%string).
Definition ty_ToolRef : ty := TStruct (scalars ["Ref"]%string).
Definition ty_SkillRef : ty := TStruct (scalars ["Ref"]%string).
Definition ty_ActionSpec : ty :=
  TStruct [("Name", TScalar); ("Condition", TScalar); ("Type", TScalar); ("Data", TMap (TLib "apiextensionsv1.JSON"))]%string.
Definition ty_ScalingSpec : ty :=
  TStruct (scalars ["MinReplicas"; "MaxReplicas"; "ScaleToZero"; "NatsLagThreshold"; "ScaleDownStabilizationSeconds"]%string).
Definition ty_KapeHandlerSpec : ty :=
  TStruct [("Trigger", ty_TriggerSpec); ("LLM", ty_LLMSpec); ("Tools", TSlice ty_ToolRef); ("Skills", TSlice ty_SkillRef);
    ("SchemaRef", TScalar); ("Actions", TSlice ty_ActionSpec); ("Envs", TSlice (TLib "v1.EnvVar")); ("DryRun", TScalar);
    ("Scaling", TPtr ty_ScalingSpec); ("Resources", TPtr (TLib "v1.ResourceRequirements"))]%string.
Definition ty_KapeHandlerStatus : ty :=
  TStruct [("Conditions", ty_Conditions); ("Replicas", TScalar); ("EventsProcessed", TScalar);
    ("LastProcessed", TPtr (TLib "metav1.Time")); ("LlmLatencyP99Ms", TScalar); ("LastError", TScalar)]%string.
Definition ty_KapeHandler : ty := ty_resource ty_KapeHandlerSpec ty_KapeHandlerStatus.

Definition ty_JSONSchemaObject : ty :=
  TStruct [("Type", TScalar); ("Required", ty_Strings); ("Properties", TMap (TLib "apiextensionsv1.JSON"));
    ("AdditionalProperties", TPtr TScalar)]%string.
Definition ty_KapeSchemaSpec : ty := TStruct [("Version", TScalar); ("JSONSchema", ty_JSONSchemaObject)]%string.
Definition ty_KapeSchemaStatus : ty := TStruct [("Conditions", ty_Conditions); ("SchemaHash", TScalar)]%string.
Definition ty_KapeSchema : ty := ty_resource ty_KapeSchemaSpec ty_KapeSchemaStatus.

Definition ty_SkillToolRef : ty := TStruct (scalars ["Ref"]%string).
Definition ty_KapeSkillSpec : ty :=
  TStruct [("Description", TScalar); ("Instruction", TScalar); ("Tools", TSlice ty_SkillToolRef); ("LazyLoad", TScalar)]%string.
Definition ty_KapeSkillStatus : ty := TStruct [("Conditions", ty_Conditions)]%string.
Definition ty_KapeSkill : ty := ty_resource ty_KapeSkillSpec ty_KapeSkillStatus.

Definition ty_MCPUpstreamSpec : ty := TStruct (scalars ["Transport"; "URL"]%string).
Definition ty_JSONPathRule : ty := TStruct (scalars ["JSONPath"]%string).
Definition ty_RedactionSpec : ty := TStruct [("Input", TSlice ty_JSONPathRule); ("Output", TSlice ty_JSONPathRule)]%string.
Definition ty_AuditSpec : ty := TStruct [("Enabled", TPtr TScalar)]%string.
Definition ty_MCPSpec : ty :=
  TStruct [("Upstream", ty_MCPUpstreamSpec); ("AllowedTools", ty_Strings); ("DeniedTools", ty_Strings);
    ("Redaction", TPtr ty_RedactionSpec); ("Audit", TPtr ty_AuditSpec); ("SkipProbe", TScalar)]%string.
Definition ty_ExternalMemorySpec : ty :=
  TStruct [("URL", TScalar); ("SecretRef", TPtr (TStruct (scalars ["Name"])))]%string.
Definition ty_MemorySpec : ty :=
  TStruct [("Backend", TScalar); ("DistanceMetric", TScalar); ("External", TPtr ty_ExternalMemorySpec)]%string.
Definition ty_EventPublishSpec : ty := TStruct (scalars ["Type"; "Source"]%string).
Definition ty_KapeToolSpec : ty :=
  TStruct [("Description", TScalar); ("Type", TScalar); ("MCP", TPtr ty_MCPSpec); ("Memory", TPtr ty_MemorySpec);
    ("EventPublish", TPtr ty_EventPublishSpec)]%string.
Definition ty_KapeToolStatus : ty := TStruct [("Conditions", ty_Conditions); ("QdrantEndpoint", TScalar)]%string.
Definition ty_KapeTool : ty := ty_resource ty_KapeToolSpec ty_KapeToolStatus.

(** ** The generated functions *)

(** The methods generated for a type: the program of [DeepCopyInto], which [DeepCopy]
    runs on a new object, and whether there is a [DeepCopyObject]. *)
Record methods : Type := mkMethods { into : copy; is_object : bool }.
Coercion into : methods >-> copy.

Definition plain (c : copy) : methods := mkMethods c false.
Definition object (c : copy) : methods := mkMethods c true.

(** [DeepCopy]: nil for nil, else a new object that [DeepCopyInto] fills. *)
Definition DeepCopy (lib : string → heap → val → heap * val) (m : methods) (h : heap) (in_ : val) : heap * val :=
  copy_ref (run_copy lib m) h in_.

(** [DeepCopyObject] returns the copy as an interface, nil for nil; [None] is a type
    without the method. *)
Definition DeepCopyObject (lib : string → heap → val → heap * val) (m : methods) (h : heap) (in_ : val) :
    option (heap * option val) :=
  if is_object m then
    let '(h', out) := DeepCopy lib m h in_ in Some (h', match out with VRef None => None | _ => Some out end)
  else None.

Definition dc_Conditions : copy := CMake (CCall "metav1.Condition").
Definition dc_Strings : copy := CMake CAssign.

Definition dc_ActionSpec : methods := plain (CStruct [("Data", CMakeMap (CCall "apiextensionsv1.JSON"))]%string).
Definition dc_AgentServerControllerSpec : methods := plain (CStruct [("Resources", CNew (CCall "v1.ResourceRequirements"))]%string).
Definition dc_AgentServerCredentialSpec : methods := plain (CStruct [("SecretRef", CAssign); ("HostPatterns", dc_Strings)]%string).
Definition dc_AgentServerCredentialStatus : methods := plain (CStruct [("Conditions", dc_Conditions)]%string).
Definition dc_AgentServerIngressSpec : methods := plain CAssign.
Definition dc_AgentServerModelGatewaySpec : methods := plain CAssign.
Definition dc_AgentServerNetworkSpec : methods := plain (CStruct [("Ingress", CNew CAssign); ("EgressPolicyRefs", dc_Strings)]%string).
Definition dc_AgentServerSandboxSpec : methods := plain (CStruct [("Resources", CAssign)]%string).
Definition dc_AgentServerSecretRef : methods := plain CAssign.
Definition dc_AuditSpec : methods := plain (CStruct [("Enabled", CNew CAssign)]%string).
Definition dc_DedupSpec : methods := plain CAssign.
Definition dc_EventFilter : methods := plain CAssign.
Definition dc_EventPublishSpec : methods := plain CAssign.
Definition dc_ExternalMemorySpec : methods := plain (CStruct [("SecretRef", CNew CAssign)]%string).
Definition dc_JSONPathRule : methods := plain CAssign.
Definition dc_JSONSchemaObject : methods := plain
  (CStruct [("Required", dc_Strings); ("Properties", CMakeMap (CCall "apiextensionsv1.JSON"));
    ("AdditionalProperties", CNew CAssign)]%string).

Definition dc_resource (spec status : copy) : copy :=
  CStruct [("TypeMeta", CAssign); ("ObjectMeta", CCall "metav1.ObjectMeta"); ("Spec", spec); ("Status", status)]%string.
Definition dc_list (item : copy) : copy :=
  CStruct [("TypeMeta", CAssign); ("ListMeta", CCall "metav1.ListMeta"); ("Items", CMake item)]%string.

Definition dc_KapeAgentServerSpec : methods := plain
  (CStruct [("Controller", into dc_AgentServerControllerSpec); ("Sandbox", CAssign); ("ModelGateway", CAssign);
    ("Credentials", CMake dc_AgentServerCredentialSpec); ("Network", CNew dc_AgentServerNetworkSpec)]%string).
Definition dc_KapeAgentServerStatus : methods := plain
  (CStruct [("Conditions", dc_Conditions); ("Credentials", CMake dc_AgentServerCredentialStatus)]%string).
Definition dc_KapeAgentServer : methods := object (dc_resource dc_KapeAgentServerSpec dc_KapeAgentServerStatus).
Definition dc_KapeAgentServerList : methods := object (dc_list dc_KapeAgentServer).

Definition dc_TriggerSpec : methods := plain
  (CStruct [("Filter", CNew CAssign); ("Dedup", CNew CAssign); ("ReplayOnStartup", CNew CAssign)]%string).
Definition dc_KapeHandlerSpec : methods := plain
  (CStruct [("Trigger", into dc_TriggerSpec); ("LLM", CAssign); ("Tools", CMake CAssign); ("Skills", CMake CAssign);
    ("Actions", CMake dc_ActionSpec); ("Envs", CMake (CCall "v1.EnvVar")); ("Scaling", CNew CAssign);
    ("Resources", CNew (CCall "v1.ResourceRequirements"))]%string).
Definition dc_KapeHandlerStatus : methods := plain
  (CStruct [("Conditions", dc_Conditions); ("LastProcessed", CNew (CCall "metav1.Time"))]%string).
Definition dc_KapeHandler : methods := object (dc_resource dc_KapeHandlerSpec dc_KapeHandlerStatus).
Definition dc_KapeHandlerList : methods := object (dc_list dc_KapeHandler).

Definition dc_KapeSchemaSpec : methods := plain (CStruct [("JSONSchema", into dc_JSONSchemaObject)]%string).
Definition dc_KapeSchemaStatus : methods := plain (CStruct [("Conditions", dc_Conditions)]%string).
Definition dc_KapeSchema : methods := object (dc_resource dc_KapeSchemaSpec dc_KapeSchemaStatus).
Definition dc_KapeSchemaList : methods := object (dc_list dc_KapeSchema).

Definition dc_KapeSkillSpec : methods := plain (CStruct [("Tools", CMake CAssign)]%string).
Definition dc_KapeSkillStatus : methods := plain (CStruct [("Conditions", dc_Conditions)]%string).
Definition dc_KapeSkill : methods := object (dc_resource dc_KapeSkillSpec dc_KapeSkillStatus).
Definition dc_KapeSkillList : methods := object (dc_list dc_KapeSkill).

Definition dc_RedactionSpec : methods := plain (CStruct [("Input", CMake CAssign); ("Output", CMake CAssign)]%string).
Definition dc_MCPSpec : methods := plain
  (CStruct [("Upstream", CAssign); ("AllowedTools", dc_Strings); ("DeniedTools", dc_Strings);
    ("Redaction", CNew dc_RedactionSpec); ("Audit", CNew dc_AuditSpec)]%string).
Definition dc_MemorySpec : methods := plain (CStruct [("External", CNew dc_ExternalMemorySpec)]%string).
Definition dc_KapeToolSpec : methods := plain
  (CStruct [("MCP", CNew dc_MCPSpec); ("Memory", CNew dc_MemorySpec); ("EventPublish", CNew CAssign)]%string).
Definition dc_KapeToolStatus : methods := plain (CStruct [("Conditions", dc_Conditions)]%string).
Definition dc_KapeTool : methods := object (dc_resource dc_KapeToolSpec dc_KapeToolStatus).
Definition dc_KapeToolList : methods := object (dc_list dc_KapeTool).

Definition dc_LLMSpec : methods := plain CAssign.
Definition dc_MCPUpstreamSpec : methods := plain CAssign.
Definition dc_SandboxResources : methods := plain CAssign.
Definition dc_ScalingSpec : methods := plain CAssign.
Definition dc_SkillRef : methods := plain CAssign.
Definition dc_SkillToolRef : methods := plain CAssign.
Definition dc_ToolRef : methods := plain CAssign.

(** ** Covering *)

Fixpoint no_refs (t : ty) : bool :=
  match t with
  | TScalar => true
  | TStruct fs => forallb (λ f, no_refs f.2) fs
  | _ => false
  end.

Fixpoint step_of (n : string) (steps : list (string * copy)) : option copy :=
  match steps with [] => None | (m, c) :: more => if String.eqb m n then Some c else step_of n more end.

Fixpoint covers (c : copy) (t : ty) {struct c} : bool :=
  match c, t with
  | CAssign, _ => no_refs t
  | CStruct steps, TStruct fs =>
      forallb (λ f,
        (fix find (steps : list (string * copy)) : bool :=
           match steps with
           | [] => no_refs f.2
           | (m, c') :: more => if String.eqb m f.1 then covers c' f.2 else find more
           end) steps) fs
  | CNew c', TPtr t' | CMake c', TSlice t' | CMakeMap c', TMap t' => covers c' t'
  | CCall n, TLib m => String.eqb n m
  | _, _ => false
  end.

(** The functions with their types, in the order of the file. *)
Definition generated : list (string * methods * ty) :=
  [ ("ActionSpec", dc_ActionSpec, ty_ActionSpec);
    ("AgentServerControllerSpec", dc_AgentServerControllerSpec, ty_AgentServerControllerSpec);
    ("AgentServerCredentialSpec", dc_AgentServerCredentialSpec, ty_AgentServerCredentialSpec);
    ("AgentServerCredentialStatus", dc_AgentServerCredentialStatus, ty_AgentServerCredentialStatus);
    ("AgentServerIngressSpec", dc_AgentServerIngressSpec, ty_AgentServerIngressSpec);
    ("AgentServerModelGatewaySpec", dc_AgentServerModelGatewaySpec, ty_AgentServerModelGatewaySpec);
    ("AgentServerNetworkSpec", dc_AgentServerNetworkSpec, ty_AgentServerNetworkSpec);
    ("AgentServerSandboxSpec", dc_AgentServerSandboxSpec, ty_AgentServerSandboxSpec);
    ("AgentServerSecretRef", dc_AgentServerSecretRef, ty_AgentServerSecretRef);
    ("AuditSpec", dc_AuditSpec, ty_AuditSpec); ("DedupSpec", dc_DedupSpec, ty_DedupSpec);
    ("EventFilter", dc_EventFilter, ty_EventFilter); ("EventPublishSpec", dc_EventPublishSpec, ty_EventPublishSpec);
    ("ExternalMemorySpec", dc_ExternalMemorySpec, ty_ExternalMemorySpec);
    ("JSONPathRule", dc_JSONPathRule, ty_JSONPathRule); ("JSONSchemaObject", dc_JSONSchemaObject, ty_JSONSchemaObject);
    ("KapeAgentServer", dc_KapeAgentServer, ty_KapeAgentServer);
    ("KapeAgentServerList", dc_KapeAgentServerList, (ty_list ty_KapeAgentServer));
    ("KapeAgentServerSpec", dc_KapeAgentServerSpec, ty_KapeAgentServerSpec);
    ("KapeAgentServerStatus", dc_KapeAgentServerStatus, ty_KapeAgentServerStatus);
    ("KapeHandler", dc_KapeHandler, ty_KapeHandler); ("KapeHandlerList", dc_KapeHandlerList, (ty_list ty_KapeHandler));
    ("KapeHandlerSpec", dc_KapeHandlerSpec, ty_KapeHandlerSpec);
    ("KapeHandlerStatus", dc_KapeHandlerStatus, ty_KapeHandlerStatus); ("KapeSchema", dc_KapeSchema, ty_KapeSchema);
    ("KapeSchemaList", dc_KapeSchemaList, (ty_list ty_KapeSchema));
    ("KapeSchemaSpec", dc_KapeSchemaSpec, ty_KapeSchemaSpec);
    ("KapeSchemaStatus", dc_KapeSchemaStatus, ty_KapeSchemaStatus); ("KapeSkill", dc_KapeSkill, ty_KapeSkill);
    ("KapeSkillList", dc_KapeSkillList, (ty_list ty_KapeSkill)); ("KapeSkillSpec", dc_KapeSkillSpec, ty_KapeSkillSpec);
    ("KapeSkillStatus", dc_KapeSkillStatus, ty_KapeSkillStatus); ("KapeTool", dc_KapeTool, ty_KapeTool);
    ("KapeToolList", dc_KapeToolList, (ty_list ty_KapeTool)); ("KapeToolSpec", dc_KapeToolSpec, ty_KapeToolSpec);
    ("KapeToolStatus", dc_KapeToolStatus, ty_KapeToolStatus); ("LLMSpec", dc_LLMSpec, ty_LLMSpec);
    ("MCPSpec", dc_MCPSpec, ty_MCPSpec); ("MCPUpstreamSpec", dc_MCPUpstreamSpec, ty_MCPUpstreamSpec);
    ("MemorySpec", dc_MemorySpec, ty_MemorySpec); ("RedactionSpec", dc_RedactionSpec, ty_RedactionSpec);
    ("SandboxResources", dc_SandboxResources, ty_SandboxResources); ("ScalingSpec", dc_ScalingSpec, ty_ScalingSpec);
    ("SkillRef", dc_SkillRef, ty_SkillRef); ("SkillToolRef", dc_SkillToolRef, ty_SkillToolRef);
    ("ToolRef", dc_ToolRef, ty_ToolRef); ("TriggerSpec", dc_TriggerSpec, ty_TriggerSpec) ]%string.

Lemma generated_cover name (c : methods) t : (name, c, t) ∈ generated → covers c t = true.
Proof.
  assert (H : forallb (λ g, covers (into g.1.2) g.2) generated = true) by (vm_compute; reflexivity).
  rewrite forallb_forall in H. intros Hin%list_elem_of_In. by apply (H (name, c, t)).
Qed.

(** ** Contents of a value *)

(** In [h] the value [v] stands for a tree, all of its references being in [P]. *)
Inductive denotes (h : heap) (P : loc → Prop) : val → tree → Prop :=
| den_scalar s : denotes h P (VScalar s) (TrScalar s)
| den_struct fs ts : denotes_all h P fs ts → denotes h P (VStruct fs) (TrStruct ts)
| den_nil : denotes h P (VRef None) TrNil
| den_ref l cell ts : P l → h !! l = Some cell → denotes_all h P cell ts → denotes h P (VRef (Some l)) (TrRef ts)
with denotes_all (h : heap) (P : loc → Prop) : list (string * val) → list (string * tree) → Prop :=
| den_done : denotes_all h P [] []
| den_more k v t vs ts : denotes h P v t → denotes_all h P vs ts → denotes_all h P ((k, v) :: vs) ((k, t) :: ts).

Scheme denotes_mind := Induction for denotes Sort Prop with denotes_all_mind := Induction for denotes_all Sort Prop.
Combined Scheme denotes_both from denotes_mind, denotes_all_mind.

Lemma denotes_mono h h' (P P' : loc → Prop) : h ⊆ h' → (∀ l, P l → P' l) →
  (∀ v t, denotes h P v t → denotes h' P' v t) ∧ (∀ vs ts, denotes_all h P vs ts → denotes_all h' P' vs ts).
Proof.
  intros Hh HP. apply denotes_both; intros; try by constructor.
  eapply den_ref; [by apply HP|by eapply lookup_weaken|done].
Qed.

Lemma denotes_weaken h h' (P P' : loc → Prop) v t : denotes h P v t → h ⊆ h' → (∀ l, P l → P' l) → denotes h' P' v t.
Proof. intros Hd Hh HP. by apply (denotes_mono h h' P P' Hh HP). Qed.

Section Typed.
(** The contents a library type can have. *)
Context (lib_trees : string → tree → Prop).

Inductive typed : ty → tree → Prop :=
| ty_scalar s : typed TScalar (TrScalar s)
| ty_struct fs ts : typed_fields fs ts → typed (TStruct fs) (TrStruct ts)
| ty_ptr_nil t : typed (TPtr t) TrNil
| ty_ptr t x : typed t x → typed (TPtr t) (TrRef [(""%string, x)])
| ty_slice_nil t : typed (TSlice t) TrNil
| ty_slice t ts : typed_entries t ts → typed (TSlice t) (TrRef ts)
| ty_map_nil t : typed (TMap t) TrNil
| ty_map t ts : typed_entries t ts → typed (TMap t) (TrRef ts)
| ty_lib n x : lib_trees n x → typed (TLib n) x
with typed_fields : list (string * ty) → list (string * tree) → Prop :=
| tf_done : typed_fields [] []
| tf_more n t x fs ts : typed t x → typed_fields fs ts → typed_fields ((n, t) :: fs) ((n, x) :: ts)
with typed_entries : ty → list (string * tree) → Prop :=
| te_done t : typed_entries t []
| te_more t k x ts : typed t x → typed_entries t ts → typed_entries t ((k, x) :: ts).

Scheme typed_mind := Induction for typed Sort Prop with typed_fields_mind := Induction for typed_fields Sort Prop
  with typed_entries_mind := Induction for typed_entries Sort Prop.
Combined Scheme typed_all from typed_mind, typed_fields_mind, typed_entries_mind.

(** Without references the heap does not matter. *)
Lemma no_refs_anywhere :
  (∀ t x, typed t x → no_refs t = true → ∀ h P h' P' v, denotes h P v x → denotes h' P' v x) ∧
  (∀ fs ts, typed_fields fs ts → forallb (λ f, no_refs f.2) fs = true →
     ∀ h P h' P' vs, denotes_all h P vs ts → denotes_all h' P' vs ts) ∧
  (∀ t ts, typed_entries t ts → True).
Proof.
  apply typed_all; try done.
  - intros s _ h P h' P' v Hd. inversion Hd; subst. constructor.
  - intros fs ts _ IH Hn h P h' P' v Hd. inversion Hd; subst. constructor. by eapply IH.
  - intros _ h P h' P' vs Hd. inversion Hd; subst. constructor.
  - intros n t x fs ts _ IH1 _ IH2 [H1 H2]%andb_true_iff h P h' P' vs Hd. inversion Hd; subst.
    constructor; [by eapply IH1|by eapply IH2].
Qed.

(** ** Deep copies *)

(** What a copy promises on one kind of content: the same content, in an extension of
    the heap, with references of its own only. *)
Definition copies (f : heap → val → heap * val) (x : tree) : Prop :=
  ∀ h P v, denotes h P v x →
    let '(h', v') := f h v in h ⊆ h' ∧ denotes h' (λ l, l ∉ dom h) v' x.

Lemma not_in_dom_mono (h h' : heap) l : h ⊆ h' → l ∉ dom h' → l ∉ dom h.
Proof. intros Hs Hn Hin. apply Hn. by apply (subseteq_dom h h' Hs). Qed.

Lemma entries_copied (f : string → heap → val → heap * val) ts : (∀ k x, (k, x) ∈ ts → copies (f k) x) →
  ∀ h P es, denotes_all h P es ts →
  let '(h', es') := copy_entries f h es in h ⊆ h' ∧ denotes_all h' (λ l, l ∉ dom h) es' ts.
Proof.
  induction ts as [|[k x] ts IH]; intros Hf h P es Hd; inversion Hd; subst; cbn; [split; [done|constructor]|].
  assert (Hx : copies (f k) x) by (apply Hf; left).
  match goal with H : denotes h P ?v x |- _ => pose proof (Hx h P v H) as H1; destruct (f k h v) as [h1 v1] end.
  destruct H1 as [Hs1 Hd1].
  match goal with H : denotes_all h P ?vs ts |- _ =>
    specialize (IH ltac:(intros; eapply Hf; by right) h1 P vs ltac:(by eapply (denotes_mono h h1 P P)));
    destruct (copy_entries f h1 vs) as [h2 vs2] end.
  destruct IH as [Hs2 Hd2]. split; [by etrans|]. constructor; [by eapply denotes_weaken|].
  eapply (denotes_mono h2 h2); [done| |done]. intros l. cbn. by apply not_in_dom_mono.
Qed.

(** A reference: nil, or a cell whose entries are copied. *)
Lemma ref_copied f ts : (∀ k x, (k, x) ∈ ts → copies f x) → copies (copy_ref f) (TrRef ts).
Proof.
  intros Hf h P v Hd. inversion Hd as [| | |l cell ? HP Hl Ha]; subst. cbn. rewrite Hl.
  pose proof (entries_copied (λ _, f) ts Hf h P cell Ha) as He. destruct (copy_entries (λ _, f) h cell) as [h1 cell1].
  destruct He as [Hs He]. unfold alloc. set (l' := fresh (dom h1)).
  assert (Hl' : l' ∉ dom h1) by apply is_fresh.
  assert (Hs' : h1 ⊆ <[l' := cell1]> h1) by (apply insert_subseteq; by apply not_elem_of_dom).
  split; [by etrans|]. eapply den_ref; [by eapply not_in_dom_mono|by apply lookup_insert_eq|].
  eapply (denotes_mono h1 _ _ _ Hs'); [|exact He]. done.
Qed.

Lemma nil_copied f : copies (copy_ref f) TrNil.
Proof. intros h P v Hd. inversion Hd; subst. split; [done|constructor]. Qed.

(** Induction on programs. *)
Lemma copy_induction (Q : copy → Prop) :
  Q CAssign → (∀ steps, (∀ n c, step_of n steps = Some c → Q c) → Q (CStruct steps)) →
  (∀ c, Q c → Q (CNew c)) → (∀ c, Q c → Q (CMake c)) → (∀ c, Q c → Q (CMakeMap c)) → (∀ n, Q (CCall n)) → ∀ c, Q c.
Proof.
  intros H1 H2 H3 H4 H5 H6. fix IH 1. intros [|steps|c|c|c|n]; [done| |by apply H3|by apply H4|by apply H5|done].
  apply H2. assert (Hall : Forall (λ s, Q s.2) steps).
  { induction steps as [|[m c] steps IHs]; constructor; [apply IH|apply IHs]. }
  intros n c. clear IH. induction Hall as [|[m c'] steps Hc _ IHs]; cbn; [done|].
  destruct (String.eqb m n); [by intros [= <-]|apply IHs].
Qed.

Lemma fields_elem fs ts n x : typed_fields fs ts → (n, x) ∈ ts → ∃ t, (n, t) ∈ fs ∧ typed t x.
Proof.
  induction 1 as [|m t y fs ts Hy _ IH]; [by intros ?%elem_of_nil|].
  intros [[= -> ->]|Hin]%elem_of_cons; [exists t; split; [left|done]|].
  destruct (IH Hin) as (t' & ? & ?). exists t'. split; [by right|done].
Qed.

Lemma entries_elem t ts k x : typed_entries t ts → (k, x) ∈ ts → typed t x.
Proof.
  induction 1 as [|t k' y ts Hy _ IH]; [by intros ?%elem_of_nil|]. by intros [[= -> ->]|Hin]%elem_of_cons; [|apply IH].
Qed.

Section Main.
Context (lib : string → heap → val → heap * val).
(** The copy functions of the libraries are deep. *)
Hypothesis lib_copies : ∀ n x, lib_trees n x → copies (lib n) x.

Lemma find_step steps n h v :
  (fix find (steps : list (string * copy)) : heap * val :=
     match steps with
     | [] => (h, v)
     | (m, c') :: more => if String.eqb m n then run_copy lib c' h v else find more
     end) steps = match step_of n steps with Some c => run_copy lib c h v | None => (h, v) end.
Proof. induction steps as [|[m c] steps IH]; [done|]. cbn. by destruct (String.eqb m n). Qed.

Lemma covers_field steps fs n t : covers (CStruct steps) (TStruct fs) = true → (n, t) ∈ fs →
  match step_of n steps with Some c => covers c t | None => no_refs t end = true.
Proof.
  cbn [covers]. rewrite forallb_forall. intros H Hin%list_elem_of_In. specialize (H _ Hin). cbn [fst snd] in H.
  rewrite <- H. clear H. induction steps as [|[m c] steps IH]; [done|]. cbn. by destruct (String.eqb m n).
Qed.

(** A program that covers a type copies its values deeply. *)
Lemma covering_copies c : ∀ t x, covers c t = true → typed t x → copies (run_copy lib c) x.
Proof.
  induction c as [|steps IH|c IH|c IH|c IH|n] using copy_induction; intros t x Hc Ht.
  - intros h P v Hd. cbn. split; [done|]. by eapply no_refs_anywhere.
  - destruct t as [|fs| | | |]; try done. inversion Ht as [|? ts Hf| | | | | | |]; subst.
    intros h P v Hd. inversion Hd as [|vs ? Hv| |]; subst. cbn [run_copy].
    match goal with |- context [copy_entries ?f h vs] =>
      assert (He : ∀ n x, (n, x) ∈ ts → copies (f n) x);
        [|pose proof (entries_copied f ts He h P vs Hv) as H; destruct (copy_entries f h vs) as [h' vs']] end.
    + intros n x Hin. destruct (fields_elem _ _ _ _ Hf Hin) as (t & Hn & Hx). pose proof (covers_field _ _ _ _ Hc Hn) as Hs.
      intros h0 P0 v0 Hd0. rewrite find_step. destruct (step_of n steps) as [c|] eqn:E; [by eapply (IH n c E t)|].
      split; [done|]. by eapply no_refs_anywhere.
    + destruct H. split; [done|by constructor].
  - destruct t as [| |t| | |]; try done. inversion Ht; subst; [apply nil_copied|].
    apply ref_copied. intros k y Hin. apply list_elem_of_singleton in Hin as [= -> ->]. by eapply IH.
  - destruct t as [| | |t| |]; try done. inversion Ht; subst; [apply nil_copied|].
    apply ref_copied. intros k y Hin. eapply IH; [done|]. by eapply entries_elem.
  - destruct t as [| | | |t|]; try done. inversion Ht; subst; [apply nil_copied|].
    apply ref_copied. intros k y Hin. eapply IH; [done|]. by eapply entries_elem.
  - destruct t as [| | | | |m]; try done. cbn in Hc. apply String.eqb_eq in Hc as ->. inversion Ht; subst. by apply lib_copies.
Qed.

(** ** What is shown *)

(** C31. [DeepCopy] of every type of the file: the object that comes back has the content of
    the original and no cell in common with it, and whatever is then written to a cell of
    the copy, the original keeps its content. *)
Theorem deep_copy_shares_nothing name (c : methods) t x h P l h' v' :
  (name, c, t) ∈ generated → typed t x → denotes h P (VRef (Some l)) (TrRef [(""%string, x)]) →
  DeepCopy lib c h (VRef (Some l)) = (h', v') →
  denotes h' (λ l, l ∉ dom h) v' (TrRef [(""%string, x)]) ∧
  ∀ k cell, k ∉ dom h → denotes (<[k := cell]> h') P (VRef (Some l)) (TrRef [(""%string, x)]).
Proof.
  intros Hg Ht Hd E. pose proof (generated_cover _ _ _ Hg) as Hc.
  assert (Hcp : copies (DeepCopy lib c) (TrRef [(""%string, x)])).
  { apply ref_copied. intros k y Hin. apply list_elem_of_singleton in Hin as [= -> ->]. by eapply covering_copies. }
  specialize (Hcp h P _ Hd). rewrite E in Hcp. destruct Hcp as [Hs Hn]. split; [done|].
  intros k cell Hk. eapply denotes_weaken; [done| |done]. apply insert_subseteq_r; [by apply not_elem_of_dom|done].
Qed.

(** A nil object has a nil copy, and as an object no copy at all. *)
Theorem nil_has_no_copy c h :
  DeepCopy lib c h (VRef None) = (h, VRef None) ∧ (is_object c = true → DeepCopyObject lib c h (VRef None) = Some (h, None)).
Proof. split; [done|]. unfold DeepCopyObject. by intros ->. Qed.
End Main.
End Typed.

(** ** The scheme *)

(** What the [init] functions register. *)
Definition registered : list string :=
  ["KapeAgentServer"; "KapeAgentServerList"; "KapeHandler"; "KapeHandlerList"; "KapeSchema"; "KapeSchemaList"; "KapeSkill";
   "KapeSkillList"; "KapeTool"; "KapeToolList"]%string.

(** The registered kinds are the types that can be handled as objects. *)
Theorem registered_are_objects name :
  name ∈ registered ↔ ∃ c t, (name, c, t) ∈ generated ∧ is_object c = true.
Proof.
  assert (E : registered = (λ g, g.1.1) <$> filter (λ g, is_object g.1.2 = true) generated) by (vm_compute; reflexivity).
  rewrite E, list_elem_of_fmap. split.
  - intros ([[n c] t] & -> & [H1 H2]%list_elem_of_filter). by exists c, t.
  - intros (c & t & H1 & H2). exists (name, c, t). split; [done|]. by apply list_elem_of_filter.
Qed.

(** ** Samples *)

Module Samples.
(** Library types as one slice of bytes each. *)
Definition raw : ty := TStruct [("Raw", TSlice TScalar)]%string.
Definition lib (_ : string) : heap → val → heap * val := run_copy (λ _ h v, (h, v)) (CStruct [("Raw", CMake CAssign)]%string).
Definition raw_trees (_ : string) (x : tree) : Prop := typed (λ _ _, False) raw x.

Lemma lib_deep n x : raw_trees n x → copies (lib n) x.
Proof. intros Hx. by eapply (covering_copies (λ _ _, False) (λ _ h v, (h, v)) ltac:(done) _ raw). Qed.

(** An action whose data has one entry. *)
Definition data : tree := TrRef [("k"%string, TrStruct [("Raw"%string, TrRef [(""%string, TrScalar "1")])])].
Definition action : tree :=
  TrStruct [("Name", TrScalar "n"); ("Condition", TrScalar "c"); ("Type", TrScalar "t"); ("Data", data)]%string.
Definition memory : heap :=
  {[ 1%positive := [(""%string, VStruct [("Name", VScalar "n"); ("Condition", VScalar "c"); ("Type", VScalar "t");
                                         ("Data", VRef (Some 2%positive))]%string)];
     2%positive := [("k"%string, VStruct [("Raw"%string, VRef (Some 3%positive))])];
     3%positive := [(""%string, VScalar "1")] ]}.

Lemma deep_copy_shares_nothing_witness :
  ∃ h' v', DeepCopy lib dc_ActionSpec memory (VRef (Some 1%positive)) = (h', v') ∧
    denotes h' (λ l, l ∉ dom memory) v' (TrRef [(""%string, action)]).
Proof.
  destruct (DeepCopy lib dc_ActionSpec memory (VRef (Some 1%positive))) as [h' v'] eqn:E. exists h', v'. split; [done|].
  refine (proj1 (deep_copy_shares_nothing raw_trees lib lib_deep "ActionSpec" dc_ActionSpec ty_ActionSpec action memory
    (λ _, True) 1%positive h' v' _ _ _ E)).
  - left.
  - repeat constructor.
  - repeat (eapply den_ref; [done|reflexivity|] || constructor).
Defined.
End Samples.
