(* ===== verification/Memory.v ===== *)
(** * The operator: vector databases for memory tools
      (src/operator/infra/qdrant, src/operator/infra/k8s/statefulset.go)

    The QdrantCluster objects the operator asks for, the reading of their status, the
    collection calls, and the pass over a memory tool that runs on them. *)

From Stdlib Require Import Ascii String ZArith.
From S2P Require Import Prelude Json GoTime GoStrings Bolt EventStore EventHub Fsm Monitor Config.
From S2P Require Import Agent Manager Policy ServerConfig OperatorRender OperatorWriter OperatorReconcile Handlers HandlerRender.
From stdpp Require Import base list strings numbers gmap.
Local Open Scope Z_scope.

(** ** Clusters *)

(** Objects without a Go type, as maps; the store by namespace and name. *)
Notation Clusters := (gmap (string * string) fields).

Definition clusterName (toolName : string) : string := "kape-memory-" +:+ toolName.

Definition desired_spec : json := JObj [("replicas"%string, JInt 1)].

Definition buildQdrantCluster (ns uid : string) (t : KapeTool) : fields :=
  [("apiVersion", JStr "qdrant.io/v1alpha1"); ("kind", JStr "QdrantCluster");
   ("metadata", JObj [("name", JStr (clusterName (kt_Name t))); ("namespace", JStr ns);
      ("ownerReferences", JArr [JObj [("apiVersion", JStr "kape.io/v1alpha1"); ("blockOwnerDeletion", JBool true); ("controller", JBool true);
                                      ("kind", JStr "KapeTool"); ("name", JStr (kt_Name t)); ("uid", JStr uid)]])]);
   ("spec", desired_spec)]%string.

(** The groups of the API server, with their versions. *)
Definition IsCRDInstalled (groups : res string (list (string * list string))) : res string bool :=
  match groups with
  | Err msg => Err msg
  | Ok gs =>
      Ok (existsb (λ g, String.eqb (fst g) "qdrant.io" && existsb (String.eqb "qdrant.io/v1alpha1") (snd g)) gs)
  end.

(** [get_err] is a get that fails otherwise than by not finding, [write_err] a
    refused create or patch. *)
Definition EnsureQdrantCluster (get_err write_err : option string) (clusters : Clusters) (ns uid : string) (t : KapeTool) :
    option string * Clusters :=
  let key := (ns, clusterName (kt_Name t)) in
  match get_err with
  | Some msg => (Some msg, clusters)
  | None =>
      match write_err with
      | Some msg => (Some msg, clusters)
      | None =>
          match clusters !! key with
          | None => (None, <[key := buildQdrantCluster ns uid t]> clusters)
          | Some existing => (None, <[key := fput "spec" desired_spec existing]> clusters)
          end
      end
  end.

(** [NestedSlice] and [NestedString]; an error reads as nothing. *)
Fixpoint nested (path : list string) (j : json) : option json :=
  match path with
  | [] => Some j
  | k :: rest => match j with JObj ms => match fget k ms with Some v => nested rest v | None => None end | _ => None end
  end.

Definition nested_string (path : list string) (j : json) : string :=
  match nested path j with Some (JStr s) => s | _ => "" end.

(** [None] is not found. *)
Definition GetQdrantClusterStatus (get_err : option string) (clusters : Clusters) (ns name : string) :
    res string (option (bool * string)) :=
  match get_err with
  | Some msg => Err msg
  | None =>
      match clusters !! (ns, name) with
      | None => Ok None
      | Some obj =>
          let conditions := match nested ["status"; "conditions"]%string (JObj obj) with Some (JArr l) => l | _ => [] end in
          if existsb (λ raw, match raw with
                             | JObj _ => String.eqb (nested_string ["type"%string] raw) "Ready" &&
                                         String.eqb (nested_string ["status"%string] raw) "True"
                             | _ => false
                             end) conditions
          then
            let url := nested_string ["status"; "url"]%string (JObj obj) in
            Ok (Some (true, if String.eqb url "" then "http://" +:+ name +:+ "." +:+ ns +:+ ":6333" else url))
          else Ok (Some (false, ""%string))
      end
  end.

(** ** Collections *)

Record http_call : Type := mkCall { hc_method : string; hc_url : string; hc_body : option json }.

(** The status of an answer; [None] is no answer. *)
Notation http := (http_call → option Z).

(** [strings.TrimRight(s, "/")]. *)
Fixpoint drop_slashes (cs : list ascii) : list ascii :=
  match cs with c :: r => if Ascii.eqb c "/" then drop_slashes r else cs | [] => [] end.

Definition TrimRight_slash (s : string) : string := string_of_list_ascii (reverse (drop_slashes (reverse (chars s)))).

Definition normaliseDistance (metric : string) : string :=
  let m := ToLower metric in
  if String.eqb m "dot" then "Dot" else if String.eqb m "euclidean" then "Euclid" else "Cosine".

Definition collection_url (endpoint name : string) : string := TrimRight_slash endpoint +:+ "/collections/" +:+ name.

Definition EnsureCollection (h : http) (endpoint name distanceMetric : string) : option string :=
  let body := JObj [("vectors", JObj [("size", JInt 1536); ("distance", JStr (normaliseDistance distanceMetric))])]%string in
  match h (mkCall "PUT" (collection_url endpoint name) (Some body)) with
  | None => Some "calling Qdrant"%string
  | Some code => if (code =? 200) || (code =? 409) then None else Some "Qdrant returned an error"%string
  end.

Definition DeleteCollection (h : http) (endpoint name : string) : option string :=
  match h (mkCall "DELETE" (collection_url endpoint name) None) with
  | None => Some "calling Qdrant"%string
  | Some code => if (code =? 200) || (code =? 404) then None else Some "Qdrant returned an error"%string
  end.

(** ** The pass over a memory tool *)

(** What the outside answers during a pass: the API server about groups, clusters
    and writes, and the databases. *)
Record qdrant_env : Type := mkQdrantEnv {
  qe_groups : res string (list (string * list string));
  qe_get_err : option string;
  qe_write_err : option string;
  qe_status_err : option string;
  qe_http : http
}.

Definition distance_of (t : KapeTool) : string :=
  match ts_Memory (kt_Spec t) with Some m => me_DistanceMetric m | None => "cosine" end.

(** The answers the pass of [Handlers] runs on, with the adapter and the client
    behind them, and the clusters afterwards. *)
Definition memory_api (env : qdrant_env) (clusters : Clusters) (ns uid : string) (base : ToolApi) (t : KapeTool) : ToolApi * Clusters :=
  let '(ensured, after) := EnsureQdrantCluster (qe_get_err env) (qe_write_err env) clusters ns uid t in
  let status := GetQdrantClusterStatus (qe_status_err env) after ns (clusterName (kt_Name t)) in
  (mkToolApi (ta_handlers base) (ta_scheme base) (IsCRDInstalled (qe_groups env)) ensured status
     (match status with
      | Ok (Some (_, url)) => EnsureCollection (qe_http env) url (kt_Name t) (distance_of t)
      | _ => None
      end)
     (DeleteCollection (qe_http env) (kt_QdrantEndpoint t) (kt_Name t))
     (ta_probe base) (ta_finalizer_fails base) (ta_status_fails base), after).

Definition external (t : KapeTool) : option string :=
  match ts_Memory (kt_Spec t) with Some m => fst <$> me_External m | None => None end.

(** The pass, with the clusters it leaves: they are touched only on the way to a
    provisioned database. *)
Definition memory_reconcile (now : Z) (env : qdrant_env) (clusters : Clusters) (ns uid : string) (base : ToolApi) (t : KapeTool) :
    ToolPassed * Clusters :=
  let '(api, after) := memory_api env clusters ns uid base t in
  let finalized := match (if kt_Finalizer t then None else ta_finalizer_fails base) with None => true | Some _ => false end in
  let provisions := finalized && negb (kt_Deleting t) && match external t with None => true | Some _ => false end in
  (reconcileMemory now api t,
   if provisions && match IsCRDInstalled (qe_groups env) with Ok b => b | Err _ => false end then after else clusters).

(** ** Stateful sets *)

Record owner_ref : Type := mkOwner { ow_Kind : string; ow_Name : string; ow_UID : string; ow_Controller : bool }.

(** One container with its ports and mounts, as the template has it. *)
Record qdrant_template : Type := mkTemplate {
  qt_Labels : gmap string string; qt_Image : string; qt_Ports : list (string * Z); qt_Mounts : list (string * string)
}.

Record StatefulSet : Type := mkStateful {
  sts_Labels : gmap string string; sts_Owners : list owner_ref; sts_ServiceName : string; sts_Replicas : Z;
  sts_Selector : gmap string string; sts_Template : qdrant_template;
  sts_Claims : list (string * string * string);   (* name, storage class, size *)
  sts_ReadyReplicas : Z
}.

Record HeadlessService : Type := mkHeadless {
  hs_Labels : gmap string string; hs_Owners : list owner_ref; hs_ClusterIP : string;
  hs_Selector : gmap string string; hs_Ports : list (string * Z)
}.

Definition qdrantName (toolName : string) : string := "kape-memory-" +:+ toolName.

Definition toolOwnerRef (uid : string) (t : KapeTool) : list owner_ref := [mkOwner "KapeTool" (kt_Name t) uid true].

Definition qdrant_labels (t : KapeTool) : gmap string string := {[ "kape.io/qdrant"%string := kt_Name t ]}.

Definition qdrant_ports : list (string * Z) := [("http", 6333); ("grpc", 6334)]%string.

Definition buildQdrantStatefulSet (uid : string) (t : KapeTool) (cfg : PlatformConfig) : StatefulSet :=
  mkStateful (qdrant_labels t) (toolOwnerRef uid t) (qdrantName (kt_Name t)) 1 (qdrant_labels t)
    (mkTemplate (qdrant_labels t) ("qdrant/qdrant:" +:+ pc_QdrantVersion cfg) qdrant_ports [("storage", "/qdrant/storage")]%string)
    [("storage"%string, pc_QdrantStorageClass cfg, "10Gi"%string)] 0.

Definition buildQdrantService (uid : string) (t : KapeTool) : HeadlessService :=
  mkHeadless (qdrant_labels t) (toolOwnerRef uid t) "None" (qdrant_labels t) qdrant_ports.

Record qdrant_objects : Type := mkObjects { qo_sets : gmap (string * string) StatefulSet; qo_services : gmap (string * string) HeadlessService }.

(** The answers to the get and the write of each of the two objects. *)
Record object_env : Type := mkObjectEnv { oe_get_err : option string; oe_write_err : option string }.

Definition ensureStatefulSet (e : object_env) (ns uid : string) (t : KapeTool) (cfg : PlatformConfig) (o : qdrant_objects) :
    option string * qdrant_objects :=
  let key := (ns, qdrantName (kt_Name t)) in
  let desired := buildQdrantStatefulSet uid t cfg in
  match oe_get_err e with
  | Some msg => (Some msg, o)
  | None =>
      match oe_write_err e with
      | Some msg => (Some msg, o)
      | None =>
          let stored :=
            match qo_sets o !! key with
            | None => desired
            | Some x => mkStateful (sts_Labels x) (sts_Owners x) (sts_ServiceName x) (sts_Replicas x) (sts_Selector x)
                          (sts_Template desired) (sts_Claims x) (sts_ReadyReplicas x)
            end in
          (None, mkObjects (<[key := stored]> (qo_sets o)) (qo_services o))
      end
  end.

Definition ensureService (e : object_env) (ns uid : string) (t : KapeTool) (o : qdrant_objects) : option string * qdrant_objects :=
  let key := (ns, qdrantName (kt_Name t)) in
  match oe_get_err e with
  | Some msg => (Some msg, o)
  | None =>
      match qo_services o !! key with
      | Some _ => (None, o)
      | None =>
          match oe_write_err e with
          | Some msg => (Some msg, o)
          | None => (None, mkObjects (qo_sets o) (<[key := buildQdrantService uid t]> (qo_services o)))
          end
      end
  end.

Definition EnsureQdrant (e1 e2 : object_env) (ns uid : string) (t : KapeTool) (cfg : PlatformConfig) (o : qdrant_objects) :
    option string * qdrant_objects :=
  match ensureStatefulSet e1 ns uid t (WithDefaults cfg) o with
  | (Some msg, o') => (Some msg, o')
  | (None, o') => ensureService e2 ns uid t o'
  end.

Definition GetQdrantReadyReplicas (get_err : option string) (o : qdrant_objects) (key : string * string) : res string (option Z) :=
  match get_err with Some msg => Err msg | None => Ok (sts_ReadyReplicas <$> qo_sets o !! key) end.

(** ** Clusters *)

Lemma fput_idem k v m : fput k v (fput k v m) = fput k v m.
Proof.
  assert (Hc : String.compare k k = Eq).
  { pose proof (String.compare_antisym k k) as A. by destruct (String.compare k k). }
  induction m as [|[k' v'] m IH]; cbn [fput]; [by rewrite Hc|].
  destruct (String.compare k k') eqn:Ec; cbn [fput]; rewrite ?Hc; [done|done|]. by rewrite Ec, IH.
Qed.

(** Asking for a cluster leaves every other one alone, keeps what an existing one
    says besides its specification, and asking again changes nothing. *)
Lemma EnsureQdrantCluster_spec get_err write_err clusters ns uid t after :
  EnsureQdrantCluster get_err write_err clusters ns uid t = (None, after) →
  let key := (ns, clusterName (kt_Name t)) in
  (∀ k, k ≠ key → after !! k = clusters !! k) ∧
  (∃ obj, after !! key = Some obj ∧ fget "spec" obj = Some desired_spec ∧
     ∀ k, k ≠ "spec"%string → fget k obj = fget k (default (buildQdrantCluster ns uid t) (clusters !! key))) ∧
  EnsureQdrantCluster None None after ns uid t = (None, after).
Proof.
  unfold EnsureQdrantCluster. destruct get_err; [done|]. destruct write_err; [done|].
  set (key := (ns, clusterName (kt_Name t))). cbv zeta. destruct (clusters !! key) as [obj|] eqn:E; intros [= <-].
  - split; [intros k Hk; by rewrite lookup_insert_ne|]. split.
    + eexists. rewrite lookup_insert_eq. split; [done|]. split; [apply fget_fput_eq|]. intros k Hk. by apply fget_fput_ne.
    + rewrite lookup_insert_eq, fput_idem. by rewrite insert_insert_eq.
  - split; [intros k Hk; by rewrite lookup_insert_ne|]. split.
    + eexists. rewrite lookup_insert_eq. by split.
    + rewrite lookup_insert_eq. by rewrite insert_insert_eq.
Qed.

Lemma ready_set now conds why : IsStatusConditionTrue (setCondition now conds (cond ConditionReady true why)) ConditionReady = true.
Proof.
  unfold IsStatusConditionTrue. destruct (setCondition_finds now conds (cond ConditionReady true why)) as [t Ht].
  change (c_Type (cond ConditionReady true why)) with ConditionReady in Ht. by rewrite Ht.
Qed.

(** A memory tool is given an address only when a database answers there.  A pass
    over a tool without an external database that leaves an address in the status
    found the cluster kind installed, asked for the cluster of the tool, read from it
    that it is ready at that address, and had the database there take the collection
    of the tool; the tool is then Ready. *)
Theorem address_means_ready now env clusters ns uid base t t' :
  kt_Deleting t = false → external t = None → kt_QdrantEndpoint t' ≠ ""%string → kt_QdrantEndpoint t = ""%string →
  let r := memory_reconcile now env clusters ns uid base t in
  tp_stored r.1 = Some t' →
  IsCRDInstalled (qe_groups env) = Ok true ∧ is_Some (r.2 !! (ns, clusterName (kt_Name t))) ∧
  GetQdrantClusterStatus None r.2 ns (clusterName (kt_Name t)) = Ok (Some (true, kt_QdrantEndpoint t')) ∧
  EnsureCollection (qe_http env) (kt_QdrantEndpoint t') (kt_Name t) (distance_of t) = None ∧
  IsStatusConditionTrue (kt_Conditions t') ConditionReady = true.
Proof.
  intros Hd Hx He Het. unfold memory_reconcile, memory_api.
  destruct (EnsureQdrantCluster _ _ clusters ns uid t) as [ens after] eqn:Een.
  set (api := mkToolApi _ _ _ _ _ _ _ _ _ _). rewrite Hd, Hx. cbn [negb fst snd].
  assert (Hm : reconcileMemory now api t = match (if kt_Finalizer t then None else ta_finalizer_fails base) with
    | Some msg => mkToolPassed (Some t) (Err msg)
    | None => reconcileProvisionedMemory now api (tool_with t true (kt_Conditions t) (kt_QdrantEndpoint t)) end).
  { unfold reconcileMemory. cbn [ta_finalizer_fails api kt_Deleting tool_with kt_Spec]. rewrite Hd.
    destruct (if kt_Finalizer t then None else _); [done|]. unfold external in Hx. cbn [kt_Spec tool_with].
    destruct (ts_Memory (kt_Spec t)) as [m|]; [|done]. by destruct (me_External m). }
  rewrite Hm. destruct (if kt_Finalizer t then None else _) as [msg|]; [intros [= <-]; done|].
  unfold reconcileProvisionedMemory, tool_status. cbn [ta_installed api ta_ensured ta_cluster ta_collection ta_status_fails].
  destruct (IsCRDInstalled (qe_groups env)) as [[]|msg]; [|by destruct (ta_status_fails base); intros [= <-]|by intros [= <-]].
  destruct ens as [msg|]; [by intros [= <-]|]. cbn [andb].
  destruct (EnsureQdrantCluster_spec _ _ _ _ _ _ _ Een) as (_ & (obj & Hobj & _) & _).
  destruct (GetQdrantClusterStatus (qe_status_err env) after ns _) as [[[[] url]|]|msg] eqn:Es;
    [|by destruct (ta_status_fails base); intros [= <-]|by destruct (ta_status_fails base); intros [= <-]|by intros [= <-]].
  destruct (EnsureCollection (qe_http env) url _ _) eqn:Ec; [by intros [= <-]|].
  destruct (ta_status_fails base); intros [= <-]; [done|]. cbn [kt_QdrantEndpoint tool_with kt_Conditions].
  split_and!; [done|by eexists| |done|apply ready_set].
  unfold GetQdrantClusterStatus in *. by destruct (qe_status_err env).
Qed.

(** ** Deleting *)

(** A provisioned tool and its database go together: while the database is in
    reach its collection is deleted before the finalizer is removed. *)
Lemma deletion_pass now env clusters ns uid base t :
  kt_Deleting t = true → kt_Finalizer t = true → ta_handlers base = Ok [] → ta_finalizer_fails base = None →
  let r := memory_reconcile now env clusters ns uid base t in
  r.2 = clusters ∧
  (tp_stored r.1 = None ↔
     kt_QdrantEndpoint t = ""%string ∨ DeleteCollection (qe_http env) (kt_QdrantEndpoint t) (kt_Name t) = None).
Proof.
  intros Hd Hf Hh Hff. unfold memory_reconcile, memory_api. destruct (EnsureQdrantCluster _ _ clusters ns uid t) as [ens after].
  set (api := mkToolApi _ _ _ _ _ _ _ _ _ _). rewrite Hd, Hf. cbn [negb andb fst snd]. split; [done|].
  unfold reconcileMemory. rewrite Hf. cbn [kt_Deleting tool_with]. rewrite Hd. unfold handleMemoryDeletion.
  cbn [ta_handlers api ta_delete_collection ta_finalizer_fails kt_QdrantEndpoint tool_with kt_Name]. rewrite Hh, Hff.
  cbn [ListHandlersByToolRef filter list_filter].
  destruct (String.eqb_spec (kt_QdrantEndpoint t) "") as [E|E]; [by split; [left|]|].
  destruct (DeleteCollection _ _ _); [|by split; [right|]]. cbn [tp_stored]. split; [done|]. by intros [?|?].
Qed.

(** The operator deletes from databases it does not manage.  A tool with an
    external database is made Ready without a call to it, so that no collection is
    created; deleting the tool deletes the collection of that name there, and does
    not finish before the database says that it is gone. *)
Theorem external_collection_deleted now now' env env' clusters ns uid base base' t t' url :
  external t = Some url → url ≠ ""%string → kt_Deleting t = false → kt_Finalizer t = true →
  ta_scheme base = Some "https"%string → ta_status_fails base = None →
  let r := memory_reconcile now env clusters ns uid base t in
  tp_stored r.1 = Some t' →
  IsStatusConditionTrue (kt_Conditions t') ConditionReady = true ∧ r.2 = clusters ∧
  (ta_handlers base' = Ok [] → ta_finalizer_fails base' = None →
   let gone := memory_reconcile now' env' clusters ns uid base' (mkTool (kt_Name t') (kt_Spec t') true true (kt_Conditions t') (kt_QdrantEndpoint t')) in
   tp_stored gone.1 = None ↔
     ∃ code, qe_http env' (mkCall "DELETE" (collection_url url (kt_Name t)) None) = Some code ∧ (code = 200 ∨ code = 404)).
Proof.
  intros Hx Hu Hd Hf Hsch Hst. unfold memory_reconcile at 1, memory_api. destruct (EnsureQdrantCluster _ _ clusters ns uid t) as [ens after].
  set (api := mkToolApi _ _ _ _ _ _ _ _ _ _). rewrite Hd, Hf, Hx. cbn [negb andb fst snd].
  assert (∃ key, ts_Memory (kt_Spec t) = Some (mkMemory (distance_of t) (Some (url, key)))) as [key Hm].
  { unfold external in Hx. unfold distance_of. destruct (ts_Memory (kt_Spec t)) as [[dist [[u k]|]]|]; try done. injection Hx as <-. by eexists. }
  unfold reconcileMemory. rewrite Hf. cbn [kt_Deleting tool_with kt_Spec]. rewrite Hd, Hm. cbn [me_External].
  unfold reconcileExternalMemory, tool_status. cbn [ta_scheme ta_status_fails api]. rewrite Hsch, Hst. cbn [String.eqb Ascii.eqb Bool.eqb orb].
  intros [= <-]. split; [apply ready_set|]. split; [done|]. intros Hh Hff. cbn [kt_Name kt_Spec kt_Conditions kt_QdrantEndpoint tool_with].
  destruct (deletion_pass now' env' clusters ns uid base' (mkTool (kt_Name t) (kt_Spec t) true true
    (setCondition now (kt_Conditions t) (cond ConditionReady true "ExternalDatabase")) url) eq_refl eq_refl Hh Hff) as [_ ->].
  cbn [kt_QdrantEndpoint kt_Name]. unfold DeleteCollection.
  destruct (qe_http env' _) as [code|]; [|naive_solver].
  destruct (Z.eqb_spec code 200), (Z.eqb_spec code 404); cbn [orb]; naive_solver.
Qed.

(** ** Stateful sets *)

(** The service finds the pods.  After the two objects have been ensured, from any
    earlier state, they exist; the pods run the configured version with storage that
    is claimed; ensuring them again changes nothing; and when neither was there
    before, the service selects the pods of the set and names ports they have. *)
Theorem qdrant_objects_converge e1 e2 ns uid t cfg o o' :
  EnsureQdrant e1 e2 ns uid t cfg o = (None, o') →
  let key := (ns, qdrantName (kt_Name t)) in
  ∃ s svc, qo_sets o' !! key = Some s ∧ qo_services o' !! key = Some svc ∧
    qt_Image (sts_Template s) = "qdrant/qdrant:" +:+ pc_QdrantVersion (WithDefaults cfg) ∧
    EnsureQdrant (mkObjectEnv None None) (mkObjectEnv None None) ns uid t cfg o' = (None, o') ∧
    (qo_sets o !! key = None → qo_services o !! key = None →
       hs_Selector svc ⊆ qt_Labels (sts_Template s) ∧ sts_Selector s = qt_Labels (sts_Template s) ∧
       sts_ServiceName s = qdrantName (kt_Name t) ∧ hs_Ports svc = qt_Ports (sts_Template s) ∧
       (∀ m, m ∈ qt_Mounts (sts_Template s) → ∃ c, c ∈ sts_Claims s ∧ c.1.1 = m.1)).
Proof.
  unfold EnsureQdrant, ensureStatefulSet, ensureService. set (key := (ns, qdrantName (kt_Name t))).
  destruct (oe_get_err e1); [done|]. destruct (oe_write_err e1); [done|]. cbn [qo_sets qo_services].
  set (stored := match qo_sets o !! key with Some _ => _ | None => _ end). destruct (oe_get_err e2); [done|].
  intros Hsvc. assert (∃ svc, qo_services o' !! key = Some svc ∧ qo_sets o' = <[key := stored]> (qo_sets o) ∧
    (qo_services o !! key = None → svc = buildQdrantService uid t)) as (svc & Hs1 & Hs2 & Hs3).
  { destruct (qo_services o !! key) as [svc|] eqn:E; [injection Hsvc as <-; by exists svc|].
    destruct (oe_write_err e2); [done|]. injection Hsvc as <-. cbn [qo_services qo_sets]. rewrite lookup_insert_eq. by eexists. }
  assert (Ht : sts_Template stored = sts_Template (buildQdrantStatefulSet uid t (WithDefaults cfg))) by (unfold stored; by destruct (qo_sets o !! key)).
  exists stored, svc. cbv zeta. rewrite Hs2, lookup_insert_eq. split_and!; [done|done|by rewrite Ht| |].
  - destruct o' as [sets svcs]. cbn [qo_sets qo_services oe_get_err oe_write_err] in *. subst sets. rewrite Hs1.
    do 2 f_equal. rewrite insert_insert_eq, <-Ht. by destruct stored.
  - intros En Hsn. rewrite (Hs3 Hsn). unfold stored. rewrite En. split_and!; try done.
    intros m Hm. apply list_elem_of_singleton in Hm as ->. eexists. split; [left|done].
Qed.

(** ** Examples *)

Module Samples.

Definition notes (ext : option (string * option string)) : KapeTool :=
  mkTool "notes" (mkToolSpec "memory" None (Some (mkMemory "dot" ext)) None) false true [] "".

(** A cluster its operator has brought up. *)
Definition up : fields :=
  fput "status" (JObj [("conditions", JArr [JObj [("status", JStr "True"); ("type", JStr "Ready")]])]%string) (buildQdrantCluster "ns" "u" (notes None)).

Definition env : qdrant_env := mkQdrantEnv (Ok [("qdrant.io", ["qdrant.io/v1alpha1"])]%string) None None None (λ _, Some 200).

Definition base : ToolApi := mkToolApi (Ok []) (Some "https"%string) (Ok true) None (Ok None) None None (λ _, Ok 200) None None.

Lemma address_means_ready_witness :
  let r := memory_reconcile 5 env {[ ("ns", "kape-memory-notes")%string := up ]} "ns" "u" base (notes None) in
  ∃ t', tp_stored r.1 = Some t' ∧ kt_QdrantEndpoint t' = "http://kape-memory-notes.ns:6333"%string ∧
    IsStatusConditionTrue (kt_Conditions t') ConditionReady = true.
Proof.
  intros r. destruct (tp_stored r.1) as [t'|] eqn:E.
  - assert (option_map kt_QdrantEndpoint (tp_stored r.1) = Some "http://kape-memory-notes.ns:6333"%string) as He by (vm_compute; reflexivity).
    rewrite E in He. injection He as He. exists t'. split; [done|]. split; [done|].
    refine (proj2 (proj2 (proj2 (proj2 (address_means_ready 5 env {[ ("ns", "kape-memory-notes")%string := up ]} "ns" "u" base (notes None) t'
      eq_refl eq_refl _ eq_refl E))))). by rewrite He.
  - assert (match tp_stored r.1 with Some _ => true | None => false end = true) as Hs by (vm_compute; reflexivity). by rewrite E in Hs.
Defined.

Definition theirs : KapeTool := notes (Some ("https://db.example"%string, None)).

(** A database that refuses the deletion. *)
Definition guarded : qdrant_env := mkQdrantEnv (Ok []) None None None (λ c, if String.eqb (hc_method c) "DELETE" then Some 403 else Some 200).

Lemma external_collection_deleted_witness :
  let r := memory_reconcile 5 env ∅ "ns" "u" base theirs in
  ∃ t', tp_stored r.1 = Some t' ∧
  tp_stored (memory_reconcile 6 guarded ∅ "ns" "u" base (mkTool (kt_Name t') (kt_Spec t') true true (kt_Conditions t') (kt_QdrantEndpoint t'))).1 ≠ None.
Proof.
  intros r. destruct (tp_stored r.1) as [t'|] eqn:E.
  - exists t'. split; [done|].
    destruct (external_collection_deleted 5 6 env guarded ∅ "ns" "u" base base theirs t' "https://db.example" eq_refl ltac:(discriminate)
      eq_refl eq_refl eq_refl eq_refl E) as (_ & _ & Hg). intros Hn.
    apply (Hg eq_refl eq_refl) in Hn as (code & Hc & Hcode). vm_compute in Hc. injection Hc as <-. by destruct Hcode.
  - assert (match tp_stored r.1 with Some _ => true | None => false end = true) as Hs by (vm_compute; reflexivity). by rewrite E in Hs.
Defined.

Lemma distances : normaliseDistance "DOT" = "Dot"%string ∧ collection_url "http://q:6333//" "notes" = "http://q:6333/collections/notes"%string.
Proof. by vm_compute. Qed.

End Samples.
