(* ===== verification/Graph.v ===== *)
(** * The agent graph (src/runtime/src/kape_runtime/graph, memory.py, config.py,
      main.py, and the retries of consumer.py)

    The graph alternates between the model and its tools until the model asks for no
    more, then has the model answer in the schema.  The model, the tool node and the
    template engine are arguments.  LangGraph, which runs the graph that [build_graph]
    declares, is the class [LangGraph] with the laws the runtime relies on. *)

From Stdlib Require Import Ascii String ZArith.
From S2P Require Import Prelude Json GoTime GoStrings Tasks TaskHttp Runtime Proxy.
From S2P Require Import Bolt EventStore EventHub Fsm Monitor Config.
From S2P Require Import Agent Manager Policy ServerConfig OperatorRender OperatorWriter OperatorReconcile Handlers HandlerRender.
From stdpp Require Import base list strings numbers gmap.
Local Open Scope Z_scope.

(** ** Messages and nodes *)

Record tool_call : Type := mkToolCall { tc_id : string; tc_name : string; tc_args : json }.

Inductive message : Type :=
| SystemMessage (content : string)
| HumanMessage (content : string)
| AIMessage (content : string) (tool_calls : list tool_call)
| ToolMessage (tool_call_id content : string).

(** The outside of one run: the model's answer to its [n]th call, the messages the
    tool node answers a conversation with after that call, the answer of the model
    bound to the schema, the rendered system prompt and the event as JSON text. *)
Record agent_env : Type := mkAgentEnv {
  ge_llm : nat → list message → res exc (string * list tool_call);
  ge_tools : nat → list message → res exc (list message);
  ge_structured : list message → res exc (option json);
  ge_prompt : res exc string;
  ge_event_json : res exc string
}.

(** The messages and what the respond node got; beside the state of the code, the
    number of calls of the model and what it was sent. *)
Record graph_state : Type := mkGraphState {
  gs_messages : list message; gs_output : option (res exc (option json));
  gs_turn : nat; gs_sent : list (list message)
}.

Definition entry_router (_ : graph_state) : string := "reason".

Definition should_call_tools (st : graph_state) : string :=
  match last (gs_messages st) with
  | Some (AIMessage _ (_ :: _)) => "call_tools"
  | _ => "respond"
  end.

Definition seed (prompt event_json : string) : list message :=
  [SystemMessage prompt; HumanMessage ("<context>" +:+ event_json +:+ "</context>")].

Definition reason (env : agent_env) (st : graph_state) : res exc graph_state :=
  let sent := match gs_messages st with
              | [] => match ge_prompt env, ge_event_json env with
                      | Ok p, Ok e => Ok (seed p e)
                      | Err x, _ | _, Err x => Err x
                      end
              | ms => Ok ms
              end in
  match sent with
  | Err x => Err x
  | Ok sent =>
      match ge_llm env (gs_turn st) sent with
      | Err x => Err x
      | Ok (content, calls) =>
          Ok (mkGraphState (sent ++ [AIMessage content calls]) (gs_output st) (S (gs_turn st)) (gs_sent st ++ [sent]))
      end
  end.

(** [ToolNode] appends its answers. *)
Definition call_tools (env : agent_env) (st : graph_state) : res exc graph_state :=
  match ge_tools env (gs_turn st) (gs_messages st) with
  | Err x => Err x
  | Ok ms => Ok (mkGraphState (gs_messages st ++ ms) (gs_output st) (gs_turn st) (gs_sent st))
  end.

(** An exception of the schema-bound model is an output too. *)
Definition respond_node (env : agent_env) (st : graph_state) : res exc graph_state :=
  Ok (mkGraphState (gs_messages st) (Some (ge_structured env (gs_messages st))) (gs_turn st) (gs_sent st)).

(** ** The graph *)

(** What [StateGraph] is told: the nodes, each with the state it leaves, the edges,
    and the conditional edges with their router and its table. *)
Record StateGraph : Type := mkStateGraph {
  sg_nodes : list (string * (graph_state → res exc graph_state));
  sg_edges : list (string * string);
  sg_branches : list (string * ((graph_state → string) * list (string * string)))
}.

Definition START : string := "__start__".

Definition END : string := "__end__".

Definition build_graph (env : agent_env) : StateGraph :=
  mkStateGraph
    [("entry_router_node", Ok); ("reason", reason env); ("call_tools", call_tools env); ("respond", respond_node env)]%string
    [(START, "entry_router_node"); ("call_tools", "reason"); ("respond", END)]%string
    [("entry_router_node", (entry_router, [("reason", "reason")]));
     ("reason", (should_call_tools, [("call_tools", "call_tools"); ("respond", "respond")]))]%string.

Definition named {A} (n : string) (l : list (string * A)) : option A :=
  snd <$> List.find (λ kv, String.eqb (fst kv) n) l.

(** Where the graph goes from a node, with the state the node leaves. *)
Definition next_node (g : StateGraph) (n : string) (st : graph_state) : option string :=
  match named n (sg_branches g) with
  | Some (router, table) => named (router st) table
  | None => named n (sg_edges g)
  end.

(** [walk g st0 k n st]: from [st0], the graph comes to [n] with [st] after [k] nodes. *)
Inductive walk (g : StateGraph) (st0 : graph_state) : nat → string → graph_state → Prop :=
| walk_start n : next_node g START st0 = Some n → walk g st0 0 n st0
| walk_node k n st f st' n' :
    walk g st0 k n st → named n (sg_nodes g) = Some f → f st = Ok st' → next_node g n st' = Some n' →
    walk g st0 (S k) n' st'.

(** ** LangGraph *)

Definition GraphRecursionError : exc := Raised "Recursion limit reached without hitting a stop condition.".

(** What is relied on of a compiled graph's [ainvoke], called with no configuration:
    a run that comes to the end in fewer steps than the default recursion limit
    returns the state it ended with; an exception of a node in such a step is the
    run's; a run that has taken as many steps as the limit and is not at the end
    raises.  Whether a run may end with the very last step is left open.  The end is
    a reserved name, which [add_node] refuses. *)
Class LangGraph : Type := {
  lg_limit : nat;
  lg_invoke : StateGraph → graph_state → res exc graph_state;
  lg_positive : (0 < lg_limit)%nat;
  lg_ends g st0 k st : named END (sg_nodes g) = None → walk g st0 k END st → (k < lg_limit)%nat → lg_invoke g st0 = Ok st;
  lg_raises g st0 k n st f e :
    named END (sg_nodes g) = None → walk g st0 k n st → named n (sg_nodes g) = Some f → f st = Err e → (S k < lg_limit)%nat →
    lg_invoke g st0 = Err e;
  lg_exhausted g st0 n st :
    named END (sg_nodes g) = None → walk g st0 lg_limit n st → n ≠ END → lg_invoke g st0 = Err GraphRecursionError
}.

(** The state the consumer starts from. *)
Definition fresh_state : graph_state := mkGraphState [] None 0 [].

Definition ainvoke `{LangGraph} (env : agent_env) : res exc graph_state := lg_invoke (build_graph env) fresh_state.

(** ** Retries *)

(** [rate_limited] recognises the OpenAI client's own error. *)
Definition _is_transient_llm_error (rate_limited : exc → bool) (e : exc) : bool :=
  match e with
  | HTTPStatusError code => (code =? 429) || (code =? 503) || rate_limited e
  | _ => rate_limited e
  end.

(** The pause after the [i]th attempt, in seconds. *)
Definition wait_exponential (i : nat) : Z := Z.max 1 (Z.min 30 (2 * 2 ^ Z.of_nat i)).

(** [further] attempts are allowed after the [i]th. *)
Fixpoint retry_from {A} (rate_limited : exc → bool) (further i : nat) (attempt : nat → res exc A) : res exc A * list Z :=
  match attempt i, further with
  | Err e, S further' =>
      if _is_transient_llm_error rate_limited e
      then let '(r, waits) := retry_from rate_limited further' (S i) attempt in (r, wait_exponential i :: waits)
      else (Err e, [])
  | r, _ => (r, [])
  end.

(** Five attempts. *)
Definition _llm_retry {A} (rate_limited : exc → bool) (attempt : nat → res exc A) : res exc A * list Z :=
  retry_from rate_limited 4 0 attempt.

(** What the consumer gets: every attempt starts the graph anew. *)
Definition retried_ainvoke `{LangGraph} (rate_limited : exc → bool) (envs : nat → agent_env) : res exc (res exc (option json)) :=
  match (_llm_retry rate_limited (λ i, ainvoke (envs i))).1 with
  | Ok st => Ok (default (Ok None) (gs_output st))
  | Err e => Err e
  end.

(** ** The tools *)

(** [_read_secret]: a mounted file first, then the environment. *)
Definition read_secret (environ file : string → option string) (filename env_fallback : string) : option string :=
  let dir := default "/etc/kape/secrets"%string (environ "KAPE_SECRETS_DIR"%string) in
  match environ "KAPE_TOOL_NAME"%string with
  | Some tool =>
      if String.eqb tool "" then environ env_fallback
      else match file (dir +:+ "/" +:+ tool +:+ "/" +:+ filename) with
           | Some text => Some (TrimSpace text)
           | None => environ env_fallback
           end
  | None => environ env_fallback
  end.

(** The address and the collection of the memory tool, if there is one. *)
Definition build_memory_tool (environ file : string → option string) : option (string * string) :=
  match read_secret environ file "qdrant_url" "QDRANT_URL", read_secret environ file "qdrant_collection" "QDRANT_COLLECTION" with
  | Some url, Some collection => if String.eqb url "" || String.eqb collection "" then None else Some (url, collection)
  | _, _ => None
  end.

(** The names of the tools that [build_graph] binds. *)
Definition graph_tools (mcp_tools : list string) (memory : option (string * string)) : list string :=
  mcp_tools ++ (match memory with Some _ => ["search_memory"%string] | None => [] end) ++ ["load_skill"%string].

Inductive llm : Type := ChatAnthropic (model : string) | ChatOpenAI (model : string).

Definition build_llm (provider model : string) : res exc llm :=
  if String.eqb provider "anthropic" then Ok (ChatAnthropic model)
  else if String.eqb provider "openai" then Ok (ChatOpenAI model)
  else Err (Raised "Unsupported LLM provider").

(** Three names, set and not empty, or no TLS. *)
Definition _build_nats_tls_context (environ : string → option string) : option (string * string * string) :=
  match environ "NATS_TLS_CERT"%string, environ "NATS_TLS_KEY"%string, environ "NATS_TLS_CA"%string with
  | Some cert, Some key, Some ca =>
      if String.eqb cert "" || String.eqb key "" || String.eqb ca "" then None else Some (cert, key, ca)
  | _, _, _ => None
  end.

(** ** Conversations *)

(** The messages with which the [n]th call of the model is made, after [n] rounds of
    tools. *)
Inductive talks (env : agent_env) : nat → list message → Prop :=
| talks_seed p e : ge_prompt env = Ok p → ge_event_json env = Ok e → talks env 0 (seed p e)
| talks_round n ms content c calls results :
    talks env n ms → ge_llm env n ms = Ok (content, c :: calls) →
    ge_tools env (S n) (ms ++ [AIMessage content (c :: calls)]) = Ok results →
    talks env (S n) (ms ++ AIMessage content (c :: calls) :: results).

Lemma talks_ne env n ms : talks env n ms → ms ≠ [].
Proof. induction 1; [done|]. intros E. by apply app_eq_nil in E as [? _]. Qed.

(** The state before the [n]th call. *)
Definition before (n : nat) (ms : list message) (st : graph_state) : Prop :=
  gs_turn st = n ∧ length (gs_sent st) = n ∧ (gs_messages st = ms ∨ (n = 0%nat ∧ gs_messages st = [])).

Lemma reason_at env n ms st : talks env n ms → before n ms st →
  reason env st = match ge_llm env n ms with
                  | Ok (content, calls) => Ok (mkGraphState (ms ++ [AIMessage content calls]) (gs_output st) (S n) (gs_sent st ++ [ms]))
                  | Err x => Err x
                  end.
Proof.
  intros Ht (Hn & _ & Hm). unfold reason. rewrite Hn. destruct Hm as [Hm|[-> Hm]]; rewrite Hm.
  - pose proof (talks_ne _ _ _ Ht). by destruct ms.
  - inversion Ht as [p e Hp He|]; subst. by rewrite Hp, He.
Qed.

Notation run env := (walk (build_graph env) fresh_state).

Lemma next_after_reason env st : next_node (build_graph env) "reason" st = Some (should_call_tools st).
Proof.
  assert (Hs : should_call_tools st = "call_tools"%string ∨ should_call_tools st = "respond"%string).
  { unfold should_call_tools. destruct (last (gs_messages st)) as [[| |? []|]|]; auto. }
  change (named (should_call_tools st) [("call_tools", "call_tools"); ("respond", "respond")]%string = Some (should_call_tools st)).
  by destruct Hs as [-> | ->].
Qed.

(** The node that calls the model, and the one that calls the tools. *)
Lemma reason_walk env k n ms st content calls :
  run env k "reason" st → talks env n ms → before n ms st → ge_llm env n ms = Ok (content, calls) →
  run env (S k) (if calls is [] then "respond" else "call_tools")%string
    (mkGraphState (ms ++ [AIMessage content calls]) (gs_output st) (S n) (gs_sent st ++ [ms])).
Proof.
  intros Hw Ht Hb Hl. eapply walk_node; [exact Hw|reflexivity| |].
  - change (reason env st = Ok (mkGraphState (ms ++ [AIMessage content calls]) (gs_output st) (S n) (gs_sent st ++ [ms]))).
    by rewrite (reason_at _ _ _ _ Ht Hb), Hl.
  - rewrite next_after_reason. unfold should_call_tools. cbn [gs_messages]. rewrite last_snoc. by destruct calls.
Qed.

(** After [n] rounds the graph is before its next call of the model, with
    [2 n + 1] nodes behind it, and what the model was sent so far is the
    conversation as it grew. *)
Lemma rounds_walk env n ms : talks env n ms →
  ∃ st, before n ms st ∧ run env (2 * n + 1) "reason" st ∧
    (∀ i m, gs_sent st !! i = Some m → talks env i m ∧ m `prefix_of` ms).
Proof.
  induction 1 as [p e Hp He|n ms content c calls results Ht IH Hl Ha].
  - exists fresh_state. split; [split_and!; [done|done|by right]|]. split; [|by intros i m].
    eapply walk_node; [by apply walk_start|reflexivity|reflexivity|reflexivity].
  - destruct IH as (st & Hb & Hrun & Hsent). pose proof (reason_walk _ _ _ _ _ _ _ Hrun Ht Hb Hl) as Hw. cbn in Hw.
    exists (mkGraphState (ms ++ AIMessage content (c :: calls) :: results) (gs_output st) (S n) (gs_sent st ++ [ms])).
    destruct Hb as (Hn & Hlen & Hm). split; [split_and!; [done|cbn [gs_sent]; rewrite length_app; simpl; lia|by left]|]. split.
    + replace (2 * S n + 1)%nat with (S (S (2 * n + 1))) by lia.
      eapply (walk_node _ _ _ _ _ (call_tools env)); [exact Hw|reflexivity| |reflexivity]. unfold call_tools. cbn [gs_messages gs_turn gs_output gs_sent].
      by rewrite Ha, <-app_assoc.
    + intros i m Hi. cbn [gs_sent] in Hi. apply lookup_app_Some in Hi as [Hi|[Hge Hi]].
      * apply Hsent in Hi as [Hi Hp]. split; [done|]. by apply prefix_app_r.
      * apply list_lookup_singleton_Some in Hi as [Hz <-]. replace i with n by lia. split; [done|]. by apply prefix_app_r.
Qed.

(** On the way the graph is at nodes of its own. *)
Lemma walk_earlier g st0 k n st j : walk g st0 k n st → (j < k)%nat →
  ∃ n' st', walk g st0 j n' st' ∧ is_Some (named n' (sg_nodes g)).
Proof.
  induction 1 as [|k n st f st' n' Hw IH Hf Hst Hn]; intros Hj; [lia|].
  destruct (decide (j = k)) as [->|Hne]; [|apply IH; lia]. exists n, st. split; [done|by eexists].
Qed.

Section Run.
Context `{LangGraph}.

Lemma runs_out env k n st : run env k n st → n ≠ END → (lg_limit ≤ k)%nat → ainvoke env = Err GraphRecursionError.
Proof.
  intros Hw Hn Hk. destruct (decide (lg_limit = k)) as [<-|Hne]; [by apply (lg_exhausted (build_graph env) _ n st)|].
  destruct (walk_earlier _ _ _ _ _ lg_limit Hw ltac:(lia)) as (n' & st' & Hw' & Hs).
  apply (lg_exhausted (build_graph env) _ n' st'); [done|exact Hw'|]. intros ->. by destruct Hs.
Qed.

(** C35. The loop of the agent.  When the model asks for tools [k] times and then stops,
    and the tools answer, the graph that is built comes to its end after [2 k + 3]
    nodes.  Under a LangGraph that keeps its documented promises, a run with fewer
    nodes than the default recursion limit ends with the answer of the schema-bound
    model to the whole conversation, every call of the model having been made with
    the whole conversation up to it; a run with more raises. *)
Theorem react_loop env k ms content :
  talks env k ms → ge_llm env k ms = Ok (content, []) →
  ∃ st, run env (2 * k + 3) END st ∧
    gs_messages st = ms ++ [AIMessage content []] ∧
    gs_output st = Some (ge_structured env (ms ++ [AIMessage content []])) ∧
    length (gs_sent st) = S k ∧ (∀ i m, gs_sent st !! i = Some m → talks env i m ∧ m `prefix_of` ms) ∧
    ((2 * k + 3 < lg_limit)%nat → ainvoke env = Ok st) ∧
    ((lg_limit < 2 * k + 3)%nat → ainvoke env = Err GraphRecursionError).
Proof.
  intros Ht Hl. destruct (rounds_walk env k ms Ht) as (st & Hb & Hrun & Hsent).
  pose proof (reason_walk _ _ _ _ _ _ _ Hrun Ht Hb Hl) as Hw. cbn [gs_messages] in Hw.
  assert (He : run env (2 * k + 3) END (mkGraphState (ms ++ [AIMessage content []])
    (Some (ge_structured env (ms ++ [AIMessage content []]))) (S k) (gs_sent st ++ [ms]))).
  { replace (2 * k + 3)%nat with (S (S (2 * k + 1))) by lia. by eapply walk_node; [exact Hw|..]. }
  eexists. split; [exact He|]. cbn [gs_messages gs_output gs_sent]. split_and!; [done|done| | | |].
  - rewrite length_app. destruct Hb as (_ & -> & _). simpl. lia.
  - intros i m Hi. apply lookup_app_Some in Hi as [Hi|[Hge Hi]]; [by apply Hsent|]. destruct Hb as (_ & Hlen & _).
    apply list_lookup_singleton_Some in Hi as [Hz <-]. by replace i with k by lia.
  - intros Hk. by apply (lg_ends (build_graph env) _ (2 * k + 3)).
  - intros Hk. eapply runs_out; [exact Hw|done|lia].
Qed.

(** An exception of the model or of a tool in a run within the limit is the run's. *)
Theorem react_raises env k ms e :
  talks env k ms → (2 * k + 3 < lg_limit)%nat →
  ge_llm env k ms = Err e ∨
  (∃ content c calls, ge_llm env k ms = Ok (content, c :: calls) ∧
     ge_tools env (S k) (ms ++ [AIMessage content (c :: calls)]) = Err e) →
  ainvoke env = Err e.
Proof.
  intros Ht Hlim He. destruct (rounds_walk env k ms Ht) as (st & Hb & Hrun & _).
  destruct He as [He|(content & c & calls & Hl & He)].
  - eapply lg_raises; [done|exact Hrun|reflexivity| |lia].
    change (reason env st = Err e). by rewrite (reason_at _ _ _ _ Ht Hb), He.
  - eapply (lg_raises _ _ _ _ _ (call_tools env)); [done|exact (reason_walk _ _ _ _ _ _ _ Hrun Ht Hb Hl)|reflexivity| |lia].
    unfold call_tools. cbn [gs_messages gs_turn]. by rewrite He.
Qed.

End Run.

(** ** Retries *)

(** The outcome of the retries is that of one attempt, at most the fifth; the
    attempts before it failed with a transient error, each followed by a pause that
    doubles from two seconds; and only the fifth may be left with a transient error. *)
Theorem retry_outcome {A} rate_limited (attempt : nat → res exc A) :
  let '(r, waits) := _llm_retry rate_limited attempt in
  (length waits ≤ 4)%nat ∧ r = attempt (length waits) ∧ waits `prefix_of` [2; 4; 8; 16] ∧
  (∀ i, (i < length waits)%nat → ∃ e, attempt i = Err e ∧ _is_transient_llm_error rate_limited e = true) ∧
  (∀ e, r = Err e → _is_transient_llm_error rate_limited e = true → length waits = 4%nat).
Proof.
  unfold _llm_retry. assert (Hgen : ∀ further i, let '(r, waits) := retry_from rate_limited further i attempt in
    (length waits ≤ further)%nat ∧ r = attempt (i + length waits)%nat ∧
    waits `prefix_of` (wait_exponential <$> seq i further) ∧
    (∀ j, (j < length waits)%nat → ∃ e, attempt (i + j)%nat = Err e ∧ _is_transient_llm_error rate_limited e = true) ∧
    (∀ e, r = Err e → _is_transient_llm_error rate_limited e = true → length waits = further)).
  { induction further as [|further IH]; intros i; cbn [retry_from].
    - destruct (attempt i) as [a|e] eqn:Ea; cbn [length]; rewrite Nat.add_0_r; (split_and!; [lia|done|done|lia|done]).
    - destruct (attempt i) as [a|e] eqn:Ea.
      { cbn [length]. rewrite Nat.add_0_r. split_and!; [lia|done|apply prefix_nil|lia|done]. }
      destruct (_is_transient_llm_error rate_limited e) eqn:Et.
      + specialize (IH (S i)). destruct (retry_from rate_limited further (S i) attempt) as [r waits].
        destruct IH as (H1 & H2 & H3 & H4 & H5). cbn [length seq fmap list_fmap]. split_and!.
        * lia.
        * rewrite H2. f_equal. lia.
        * by apply prefix_cons.
        * intros [|j] Hj; [rewrite Nat.add_0_r; eauto|]. replace (i + S j)%nat with (S i + j)%nat by lia. apply H4. lia.
        * intros e' He' Ht'. by rewrite (H5 e' He' Ht').
      + cbn [length]. rewrite Nat.add_0_r. split_and!; [lia|done|apply prefix_nil|lia|]. intros e' [= <-]. congruence. }
  specialize (Hgen 4%nat 0%nat). destruct (retry_from rate_limited 4 0 attempt) as [r waits]. exact Hgen.
Qed.

(** ** The consumer on top *)

Section Consumed.
Context `{Postgres} `{Libraries} `{LangGraph}.
Context (cl : clients) (cfg : Runtime.KapeConfig) (w : world) (msg : Msg) (rate_limited : exc → bool) (envs : nat → agent_env).

(** The number of rounds is LangGraph's.  Whatever maximum of iterations a handler
    configures, an event over which the model's tools take the graph to the default
    recursion limit is not retried and not answered: its task fails and the event
    goes to the dead-letter subject. *)
Theorem iterations_fixed s raw ev t k ms :
  quiet w s → cl_nats cl = true → w_dlq w = None → w_graph w = retried_ainvoke rate_limited envs →
  rate_limited GraphRecursionError = false → talks (envs 0%nat) k ms → (lg_limit ≤ 2 * k + 1)%nat →
  parse_event (m_data msg) = Ok (raw, ev) → ce_time ev = Aware t →
  is_stale (w_clock w 1 - t) (k_max_event_age_seconds cfg) = false →
  ∃ s', process_message cl cfg w msg s = (s', Ok ()) ∧
    rows_of (w_id w) s' = [settled (event_payload cfg w raw ev) (failed_update w GraphRecursionError)] ∧
    rt_log s' = rt_log s ++ [Acked; dead_letter cfg w msg GraphRecursionError; Counted "failed"].
Proof.
  intros Q Hn Hd Hg Hrl Ht Hk Hp Hct Hst. destruct (rounds_walk _ _ _ Ht) as (st & _ & Hw0 & _).
  assert (Hw : w_graph w = Err GraphRecursionError).
  { rewrite Hg. unfold retried_ainvoke, _llm_retry. cbn [retry_from].
    rewrite (runs_out _ _ _ _ Hw0) by done.
    assert (_is_transient_llm_error rate_limited GraphRecursionError = false) as ->; [exact Hrl|done]. }
  assert (Ha : no_action_due cfg w) by (right; by rewrite Hw).
  pose proof (event_settles cl cfg w msg s raw ev t Q Hn Hd Ha Hp Hct) as He.
  unfold settlement in He. rewrite Hst, Hw in He. exact He.
Qed.
End Consumed.

(** ** Tools *)

(** The environment of the handler's container. *)
Definition lookup_env (env : list (string * env_value)) (k : string) : option string :=
  match List.find (λ kv, String.eqb (fst kv) k) env with Some (_, EnvValue v) => Some v | _ => None end.

(** The operator's variables name no collection: without a mounted file that does,
    a handler with a memory tool has no memory. *)
Theorem memory_needs_a_file t file :
  kt_Name t ≠ ""%string → file ("/etc/kape/secrets/" +:+ kt_Name t +:+ "/qdrant_collection") = None →
  build_memory_tool (lookup_env (memory_env t)) file = None.
Proof.
  intros Hn Hf. unfold build_memory_tool.
  assert (Hc : read_secret (lookup_env (memory_env t)) file "qdrant_collection" "QDRANT_COLLECTION" = None).
  { assert (Hl : lookup_env (memory_env t) "QDRANT_COLLECTION" = None ∧ lookup_env (memory_env t) "KAPE_SECRETS_DIR" = None ∧
      lookup_env (memory_env t) "KAPE_TOOL_NAME" = Some (kt_Name t)).
    { unfold memory_env. destruct (String.eqb (kt_QdrantEndpoint t) ""); destruct (ts_Memory (kt_Spec t)) as [[dist [[u [k|]]|]]|]; done. }
    destruct Hl as (H1 & H2 & H3). unfold read_secret. rewrite H1, H2, H3. cbn [default from_option id].
    rewrite (proj2 (String.eqb_neq _ _) Hn).
    change ("/etc/kape/secrets" +:+ "/" +:+ kt_Name t +:+ "/" +:+ "qdrant_collection")
      with ("/etc/kape/secrets" +:+ ("/" +:+ (kt_Name t +:+ "/qdrant_collection"))).
    rewrite <-str_app_assoc. change ("/etc/kape/secrets" +:+ "/") with "/etc/kape/secrets/"%string. by rewrite Hf. }
  rewrite Hc. by case_match.
Qed.

Lemma Contains_app a p b : Contains (a +:+ p +:+ b) p = true.
Proof.
  induction a as [|c a IH].
  - change ("" +:+ p +:+ b) with (p +:+ b). assert (HasPrefix (p +:+ b) p = true) as Hp by (apply HasPrefix_app; eauto).
    destruct (p +:+ b) eqn:E; cbn [Contains]; by rewrite Hp.
  - rewrite str_app_cons. cbn [Contains]. rewrite IH. by rewrite orb_true_r.
Qed.

(** The names that come from the proxy carry its separator and never shadow the
    runtime's own tools, so each bound name is one tool. *)
Theorem tool_names_distinct (exposed : list (string * string)) memory :
  NoDup (uncurry Namespace <$> exposed) → NoDup (graph_tools (uncurry Namespace <$> exposed) memory).
Proof.
  intros Hnd. unfold graph_tools. assert (Hno : ∀ n, Contains n "__" = false → n ∉ uncurry Namespace <$> exposed).
  { intros n Hc Hin. apply list_elem_of_fmap in Hin as ([up t] & -> & _). unfold Namespace, uncurry in Hc.
    change NamespaceSeparator with "__"%string in Hc. by rewrite Contains_app in Hc. }
  apply NoDup_app. split; [done|]. split.
  - intros n Hin Hin'. apply (Hno n); [|done]. destruct memory; cbn in Hin'; rewrite ?elem_of_cons, elem_of_nil in Hin'; naive_solver.
  - destruct memory; cbn; [|apply NoDup_singleton]. apply NoDup_cons. split; [|apply NoDup_singleton]. by rewrite list_elem_of_singleton.
Qed.

(** ** Examples *)

Module Samples.

(** One node after the other; [limit] nodes are too many. *)
Fixpoint step_loop (limit : nat) (g : StateGraph) (n : string) (st : graph_state) : res exc graph_state :=
  if String.eqb n END then Ok st
  else match limit with
       | O => Err GraphRecursionError
       | S limit =>
           match named n (sg_nodes g) with
           | None => Err GraphRecursionError
           | Some f =>
               match f st with
               | Err e => Err e
               | Ok st' =>
                   match next_node g n st' with
                   | None => Err GraphRecursionError
                   | Some n' => step_loop limit g n' st'
                   end
               end
           end
       end.

Definition step_invoke (limit : nat) (g : StateGraph) (st : graph_state) : res exc graph_state :=
  match next_node g START st with Some n => step_loop limit g n st | None => Err GraphRecursionError end.

Lemma step_walk limit g st0 k n st :
  named END (sg_nodes g) = None → walk g st0 k n st → (k ≤ limit)%nat →
  step_invoke limit g st0 = step_loop (limit - k) g n st.
Proof.
  intros Hend Hw. induction Hw as [n Hn|k n st f st' n' Hw IH Hf Hst Hn]; intros Hk.
  - unfold step_invoke. by rewrite Hn, Nat.sub_0_r.
  - rewrite IH by lia. replace (limit - k)%nat with (S (limit - S k)) by lia. cbn [step_loop].
    destruct (String.eqb_spec n END) as [->|Hne]; [congruence|]. by rewrite Hf, Hst, Hn.
Qed.

(** A LangGraph with a limit of 25 steps. *)
#[local] Instance StepLoop : LangGraph.
Proof.
  refine {| lg_limit := 25; lg_invoke := step_invoke 25 |}.
  - lia.
  - intros g st0 k st Hend Hw Hk. rewrite (step_walk _ _ _ _ _ _ Hend Hw) by lia. by destruct (25 - k)%nat.
  - intros g st0 k n st f e Hend Hw Hf He Hk. rewrite (step_walk _ _ _ _ _ _ Hend Hw) by lia.
    replace (25 - k)%nat with (S (24 - k)) by lia. cbn [step_loop].
    destruct (String.eqb_spec n END) as [->|Hne]; [congruence|]. by rewrite Hf, He.
  - intros g st0 n st Hend Hw Hn. rewrite (step_walk _ _ _ _ _ _ Hend Hw) by lia.
    cbn [step_loop Nat.sub]. by rewrite (proj2 (String.eqb_neq n END) Hn).
Defined.

(** A model that asks for a tool [k] times. *)
Definition asks (k : nat) : agent_env :=
  mkAgentEnv (λ n _, Ok (""%string, if (n <? k)%nat then [mkToolCall "c" "kube__get" JNull] else []))
    (λ _ _, Ok [ToolMessage "c" "result"]) (λ _, Ok (Some (JObj []))) (Ok "prompt"%string) (Ok "{}"%string).

Lemma asks_talks k n : (n ≤ k)%nat → ∃ ms, talks (asks k) n ms.
Proof.
  induction n as [|n IH]; intros Hn; [eexists; by apply (talks_seed _ "prompt" "{}")|].
  destruct IH as [ms Hms]; [lia|]. eexists. eapply (talks_round _ _ ms "" (mkToolCall "c" "kube__get" JNull) []); [done| |done].
  cbn [ge_llm asks]. rewrite (proj2 (Nat.ltb_lt n k)) by lia. done.
Qed.

Lemma react_loop_witness :
  (∃ st, ainvoke (asks 10) = Ok st ∧ gs_output st = Some (Ok (Some (JObj []))) ∧ length (gs_sent st) = 11%nat) ∧
  ainvoke (asks 12) = Err GraphRecursionError.
Proof.
  destruct (asks_talks 10 10 ltac:(lia)) as [ms Hms]. destruct (asks_talks 12 12 ltac:(lia)) as [ms' Hms']. split.
  - destruct (react_loop (asks 10) 10 ms "" Hms eq_refl) as (st & _ & _ & Ho & Hl & _ & Hr & _). exists st.
    split; [apply Hr; vm_compute; lia|]. split; [exact Ho|exact Hl].
  - destruct (react_loop (asks 12) 12 ms' "" Hms' eq_refl) as (st & _ & _ & _ & _ & _ & _ & Hr). apply Hr. vm_compute. lia.
Defined.

Definition capped : world := Runtime.Samples.ack_world (retried_ainvoke (λ _, false) (λ _, asks 12)).

Lemma iterations_fixed_witness :
  ∃ s', @process_message MemPg Runtime.Samples.libs Runtime.Samples.on (Runtime.Samples.conf []) capped (mkMsg "kape.alert" "{}") Runtime.Samples.start = (s', Ok ()) ∧
    length (rows_of "t1" s') = 1%nat.
Proof.
  destruct (asks_talks 12 12 ltac:(lia)) as [ms Hms].
  assert (Hq : @quiet MemPg capped Runtime.Samples.start) by (apply Runtime.Samples.sample_quiet; intros j Hj; vm_compute in Hj; discriminate).
  destruct (@parse_event Runtime.Samples.libs "{}") as [[raw ev]|] eqn:Hp; [|vm_compute in Hp; discriminate].
  assert (ce_time ev = Aware Runtime.Samples.noon) as Hct by (vm_compute in Hp; injection Hp as <- <-; reflexivity).
  destruct (@iterations_fixed MemPg Runtime.Samples.libs StepLoop Runtime.Samples.on (Runtime.Samples.conf []) capped (mkMsg "kape.alert" "{}")
    (λ _, false) (λ _, asks 12) Runtime.Samples.start raw ev Runtime.Samples.noon 12 ms Hq eq_refl eq_refl eq_refl eq_refl Hms (le_n 25) Hp Hct)
    as (s' & Hs & Hrow & _); [vm_compute; reflexivity|].
  exists s'. split; [exact Hs|]. exact (f_equal length Hrow).
Defined.

Lemma retry_waits :
  (_llm_retry (λ _, false) (λ i, if (i <? 2)%nat then Err (HTTPStatusError 429) else Ok i)) = (Ok 2%nat, [2; 4]).
Proof. reflexivity. Qed.

End Samples.
