(* ===== verification/ControllerHttp.v ===== *)
(** * The controller's two transports (src/controller/http.go, mcpapi.go)

    The handlers decode a request, call the manager or an agent's hub and map the
    outcome to a response.  A request comes here with its body decoded; what the
    outside answers while the manager works is an argument, as in [Manager].  The
    event stream is modelled down to its bytes, with the client that reads it. *)

From Stdlib Require Import Ascii String ZArith.
From S2P Require Import Prelude Json GoTime GoStrings Bolt EventStore EventHub Fsm Monitor Config.
From S2P Require Import Agent Manager Registry Revive Wait.
From stdpp Require Import base list strings numbers gmap pretty.
Local Open Scope Z_scope.

(** ** Queries *)

(** [url.Values]. *)
Notation Values := (gmap string (list string)).

Definition Values_Get (q : Values) (k : string) : string :=
  match q !! k with Some (v :: _) => v | _ => "" end.

Definition has (q : Values) (k : string) : bool := bool_decide (is_Some (q !! k)).

(** [strings.Split(s, ",")]. *)
Definition Split (s : string) : list string := string_of_list_ascii <$> split_at ","%char (chars s) [].

Definition defaultReadLimit : Z := 1000.

Record readParams : Type := mkReadParams { rp_after : N; rp_limit : Z; rp_last : Z; rp_types : list string }.

(** [Err ""] for a query without any of the parameters. *)
Definition parseReadParams (q : Values) : res string readParams :=
  let hasAfter := has q "after" in
  let hasLimit := has q "limit" in
  let hasLast := has q "last" in
  let hasTypes := has q "types" in
  if negb (hasAfter || hasLimit || hasLast || hasTypes) then Err ""%string
  else if hasAfter && hasLast then Err "after and last are mutually exclusive"%string
  else if hasLast && hasLimit then Err "last and limit are mutually exclusive"%string
  else
    match (if hasAfter then ParseUint (Values_Get q "after") else Some 0%N) with
    | None => Err "after must be a non-negative integer"%string
    | Some after =>
        match (if hasLimit then match Atoi (Values_Get q "limit") with
                                | Some n => if n <=? 0 then None else Some n
                                | None => None
                                end else Some defaultReadLimit) with
        | None => Err "limit must be a positive integer"%string
        | Some limit =>
            match (if hasLast then match Atoi (Values_Get q "last") with
                                   | Some n => if n <? 0 then None else Some n
                                   | None => None
                                   end else Some 0) with
            | None => Err "last must be a non-negative integer"%string
            | Some last =>
                Ok (mkReadParams after limit last
                      (if hasTypes then filter (λ t, t ≠ ""%string) (TrimSpace <$> Split (Values_Get q "types")) else []))
            end
        end
    end.

Definition isPullRequest (q : Values) : bool := existsb (has q) ["after"; "limit"; "last"; "types"]%string.

Definition isStreamRequest (accept : string) : bool := Contains accept "text/event-stream".

Definition sseCursor (lid after : string) : res string N :=
  if negb (String.eqb lid "") && negb (String.eqb after "") then Err "Last-Event-ID and after are mutually exclusive"%string
  else
    let v := if String.eqb lid "" then after else lid in
    if String.eqb v "" then Ok 0%N
    else match ParseUint v with Some n => Ok n | None => Err "cursor must be a non-negative integer"%string end.

(** ** Responses *)

Inductive reply : Type :=
| RpStatus (code : Z)
| RpError (code : Z) (msg : string)
| RpFault (code : Z) (e : AgentErr)
| RpStore (e : StoreErr)
| RpField (field : string)
| RpView (code : Z) (v : AgentView)
| RpViews (l : list AgentView)
| RpProviders (l : list string)
| RpEvents (agent : string) (l : list Event)
| RpStream (replay : list Event) (id : nat)
| RpWait (r : WaitResult).

Definition code_of (r : reply) : Z :=
  match r with
  | RpStatus c | RpError c _ | RpFault c _ | RpView c _ => c
  | RpField _ => 400
  | RpStore _ => 500
  | RpViews _ | RpProviders _ | RpEvents _ _ | RpStream _ _ | RpWait _ => 200
  end.

Definition statusForErr (e : AgentErr) : Z :=
  match e with
  | ErrValidation _ => 400
  | ErrUnknownAgent _ => 404
  | ErrTurnInFlight | ErrNotReady _ | ErrSpawnDepthExceeded | ErrSpawnChildrenExceeded => 409
  | _ => 500
  end.

Definition fault (e : AgentErr) : reply := RpFault (statusForErr e) e.

(** What a tool returns: a value, or an error with its text or its cause. *)
Inductive tool_err : Type := TErr (e : AgentErr) | TMsg (msg : string) | TStore (e : StoreErr).

Section Surface.
Context {S : Type} `{EventStore S}.

(** ** The manager's commands *)

Definition Manager_Prompt (w : World S) (id message : string) (env : cmd_env) : option AgentErr * list call * World S :=
  match Get w id with
  | None => (Some (ErrUnknownAgent id), [], w)
  | Some a => let '(e, calls, s, mo, a') := sendPrompt (w_store w) (w_mon w) a message env in (e, calls, put_obj w s mo a')
  end.

Definition Manager_Steer (w : World S) (id message : string) (env : cmd_env) : option AgentErr * list call * World S :=
  match Get w id with
  | None => (Some (ErrUnknownAgent id), [], w)
  | Some a => let '(e, calls, s, mo, a') := sendSteer (w_store w) (w_mon w) a message env in (e, calls, put_obj w s mo a')
  end.

Definition Manager_Abort (w : World S) (id : string) (env : cmd_env) : option AgentErr * list call * World S :=
  match Get w id with
  | None => (Some (ErrUnknownAgent id), [], w)
  | Some a => let '(e, calls, s, mo, a') := sendAbort (w_store w) (w_mon w) a env in (e, calls, put_obj w s mo a')
  end.

(** ** REST *)

(** The status of an accepted command or its error. *)
Definition accepted (e : option AgentErr) : reply := match e with None => RpStatus 202 | Some e => fault e end.

Definition bad_message : reply := RpError 400 "body must be {message: string}".

(** [None] is a body that does not decode; the missing body is the empty profile. *)
Definition rest_create (cfg : Config) (w : World S) (body : option CreateProfile) (env : create_env) :
    reply * list call * World S :=
  match body with
  | None => (RpField "body", [], w)
  | Some p =>
      match Create cfg w p env with
      | (None, calls, w') =>
          (match w_objs w' !! ce_id env with Some a => RpView 201 (agentView w' a) | None => RpStatus 500 end, calls, w')
      | (Some (ErrValidation f), calls, w') => (RpField f, calls, w')
      | (Some e, calls, w') => (fault e, calls, w')
      end
  end.

(** [order] is the sort of the views. *)
Definition rest_list (order : list AgentView → list AgentView) (w : World S) (listed : option (list SandboxInfo)) : reply :=
  match listed with
  | None => RpFault 500 EGateway
  | Some infos => RpViews (order (list_views w infos))
  end.

Definition rest_providers (answer : option (list string)) : reply :=
  match answer with None => RpFault 500 EGateway | Some names => RpProviders names end.

Definition rest_get (w : World S) (id : string) (listed : option (list SandboxInfo)) : reply :=
  match GetView w id listed with Ok v => RpView 200 v | Err e => fault e end.

Definition rest_prompt (w : World S) (id : string) (body : option string) (env : cmd_env) : reply * list call * World S :=
  match Get w id with
  | None => (fault (ErrUnknownAgent id), [], w)
  | Some _ =>
      match body with
      | None | Some ""%string => (bad_message, [], w)
      | Some message => let '(e, calls, w') := Manager_Prompt w id message env in (accepted e, calls, w')
      end
  end.

Definition rest_steer (w : World S) (id : string) (body : option string) (env : cmd_env) : reply * list call * World S :=
  match Get w id with
  | None => (fault (ErrUnknownAgent id), [], w)
  | Some _ =>
      match body with
      | None | Some ""%string => (bad_message, [], w)
      | Some message => let '(e, calls, w') := Manager_Steer w id message env in (accepted e, calls, w')
      end
  end.

Definition rest_abort (w : World S) (id : string) (env : cmd_env) : reply * list call * World S :=
  match Get w id with
  | None => (fault (ErrUnknownAgent id), [], w)
  | Some _ => let '(e, calls, w') := Manager_Abort w id env in (accepted e, calls, w')
  end.

Definition rest_resume (w : World S) (id : string) (now : Z) : reply * World S * list spawn :=
  match Get w id with
  | None => (fault (ErrUnknownAgent id), w, [])
  | Some _ => let '(e, w', sp) := Resume w id now in (accepted e, w', sp)
  end.

Definition rest_delete (listed : string → option (list SandboxInfo)) (delete_ok : string → bool) (w : World S) (id : string) :
    option (reply * list call * World S) :=
  match Manager.Delete listed delete_ok w id with
  | None => None
  | Some k => Some (match k_err k with None => RpStatus 204 | Some e => fault e end, k_calls k, k_world k)
  end.

Definition readEvents (w : World S) (a : Agent) (q : Values) : reply :=
  match parseReadParams q with
  | Err msg => RpError 400 msg
  | Ok p =>
      let r := if has q "last" then ReadLast (w_store w) (a_hub a) (rp_last p) (rp_types p)
               else Read (w_store w) (a_hub a) (rp_after p) (rp_limit p) (rp_types p) in
      match r with Ok evs => RpEvents (a_ID a) evs | Err e => RpStore e end
  end.

(** The head of the stream: the replay and the key of the live channel.
    [flusher] says whether the writer can flush. *)
Definition sse_open (flusher : bool) (s : S) (h : EventHub) (lid after : string) :
    res reply (list Event * nat * EventHub) :=
  match sseCursor lid after with
  | Err msg => Err (RpError 400 msg)
  | Ok cursor =>
      if negb flusher then Err (RpError 500 "streaming unsupported")
      else match Subscribe s h cursor with
           | (Err e, _) => Err (RpStore e)
           | (Ok (replay, k), h') => Ok (replay, k, h')
           end
  end.

Definition serveSSE (flusher : bool) (w : World S) (a : Agent) (lid after : string) : reply * World S :=
  match sse_open flusher (w_store w) (a_hub a) lid after with
  | Err r => (r, w)
  | Ok (replay, k, h) => (RpStream replay k, put_obj w (w_store w) (w_mon w) (set_hub h a))
  end.

Definition rest_events (flusher : bool) (w : World S) (id : string) (q : Values) (accept lid : string) : reply * World S :=
  match Get w id with
  | None => (fault (ErrUnknownAgent id), w)
  | Some a =>
      if isPullRequest q && negb (isStreamRequest accept) then (readEvents w a q, w)
      else serveSSE flusher w a lid (Values_Get q "after")
  end.

(** ** Tools *)

Definition handleCreateAgent (cfg : Config) (w : World S) (p : CreateProfile) (env : create_env) :
    res tool_err AgentView * list call * World S :=
  match Create cfg w p env with
  | (Some e, calls, w') => (Err (TErr e), calls, w')
  | (None, calls, w') =>
      (match w_objs w' !! ce_id env with Some a => Ok (agentView w' a) | None => Err (TMsg "nil") end, calls, w')
  end.

Definition handleGetAgent (w : World S) (id : string) (listed : option (list SandboxInfo)) : res tool_err AgentView :=
  match GetView w id listed with Ok v => Ok v | Err e => Err (TErr e) end.

Definition handleListAgents (order : list AgentView → list AgentView) (w : World S) (listed : option (list SandboxInfo)) :
    res tool_err (list AgentView) :=
  match listed with None => Err (TErr EGateway) | Some infos => Ok (order (list_views w infos)) end.

Definition handleListProviders (answer : option (list string)) : res tool_err (list string) :=
  match answer with None => Err (TErr EGateway) | Some names => Ok names end.

Definition done (e : option AgentErr) (status : string) : res tool_err string :=
  match e with None => Ok status | Some e => Err (TErr e) end.

Definition handlePromptAgent (w : World S) (id message : string) (env : cmd_env) : res tool_err string * list call * World S :=
  if String.eqb message "" then (Err (TMsg "message must be a non-empty string"), [], w)
  else match Get w id with
       | None => (Err (TErr (ErrUnknownAgent id)), [], w)
       | Some _ => let '(e, calls, w') := Manager_Prompt w id message env in (done e "accepted", calls, w')
       end.

Definition handleSteerAgent (w : World S) (id message : string) (env : cmd_env) : res tool_err string * list call * World S :=
  if String.eqb message "" then (Err (TMsg "message must be a non-empty string"), [], w)
  else match Get w id with
       | None => (Err (TErr (ErrUnknownAgent id)), [], w)
       | Some _ => let '(e, calls, w') := Manager_Steer w id message env in (done e "accepted", calls, w')
       end.

Definition handleAbort (w : World S) (id : string) (env : cmd_env) : res tool_err string * list call * World S :=
  match Get w id with
  | None => (Err (TErr (ErrUnknownAgent id)), [], w)
  | Some _ => let '(e, calls, w') := Manager_Abort w id env in (done e "accepted", calls, w')
  end.

Definition handleResume (w : World S) (id : string) (now : Z) : res tool_err string * World S * list spawn :=
  match Get w id with
  | None => (Err (TErr (ErrUnknownAgent id)), w, [])
  | Some _ => let '(e, w', sp) := Resume w id now in (done e "accepted", w', sp)
  end.

Definition handleDeleteAgent (listed : string → option (list SandboxInfo)) (delete_ok : string → bool) (w : World S) (id : string) :
    option (res tool_err string * list call * World S) :=
  match Manager.Delete listed delete_ok w id with
  | None => None
  | Some k => Some (done (k_err k) "terminated", k_calls k, k_world k)
  end.

(** [env] is what happens around the wait, for the timeout that was asked for. *)
Definition handleWait (id timeout : string) (env : Z → wait_env (S := S)) : option reply :=
  match parseWaitTimeout timeout with
  | None => Some (RpError 400 "timeout must be a positive integer number of seconds")
  | Some t =>
      match Wait id (env t) with
      | None => None
      | Some (WDone r) => Some (RpWait r)
      | Some (WErr e) => Some (fault e)
      | Some WCancelled => Some (RpError 500 "context canceled")
      end
  end.

Definition handleWaitAgent (id timeout : string) (env : Z → wait_env (S := S)) : option (res tool_err WaitResult) :=
  match parseWaitTimeout timeout with
  | None => Some (Err (TMsg "timeout must be a positive integer number of seconds"))
  | Some t =>
      match Wait id (env t) with
      | None => None
      | Some (WDone r) => Some (Ok r)
      | Some (WErr e) => Some (Err (TErr e))
      | Some WCancelled => Some (Err (TMsg "context canceled"))
      end
  end.

(** The channel is registered and withdrawn again; only the replay is returned. *)
Definition handleStreamEvents (w : World S) (id : string) (after : N) : res tool_err (list Event) * World S :=
  match Get w id with
  | None => (Err (TErr (ErrUnknownAgent id)), w)
  | Some a =>
      match Subscribe (w_store w) (a_hub a) after with
      | (Err e, _) => (Err (TStore e), w)
      | (Ok (replay, k), h) => (Ok replay, put_obj w (w_store w) (w_mon w) (set_hub (unsubscribe h k) a))
      end
  end.

Definition textDeltaEventType : string := "text_delta".

Definition handleReadEvents (w : World S) (id : string) (after : N) (limit : Z) (types : list string) (include_deltas : bool) :
    res tool_err (list Event) :=
  match Get w id with
  | None => Err (TErr (ErrUnknownAgent id))
  | Some a =>
      let limit := if limit =? 0 then defaultReadLimit else limit in
      if limit <? 0 then Err (TMsg "limit must be a positive integer")
      else match ReadFiltered (w_store w) (a_hub a) after limit types
                   (if include_deltas then [] else [textDeltaEventType]) with
           | Ok evs => Ok evs
           | Err e => Err (TStore e)
           end
  end.

End Surface.

(** ** The event stream *)

Definition LF : ascii := "010"%char.

(** [text] is the compact encoding of a document, [encoding/json]'s. *)
Definition raw_text (text : json → string) (r : RawMessage) : string :=
  match r with RNil => "" | RJson j => text j | RBad t => t end.

Definition writeSSEEvent (text : json → string) (ev : Event) : list ascii :=
  chars "id: " ++ chars (pretty (Seq ev)) ++ [LF] ++ chars "data: " ++ chars (raw_text text (Data ev)) ++ [LF; LF].

Definition sse_body (text : json → string) (evs : list Event) : list ascii := mjoin (writeSSEEvent text <$> evs).

(** *** The client *)

(** An event source as the HTML standard describes it: the line and the data
    being read, the id read last, the id of the last event, the events. *)
Record client : Type := mkClient {
  cl_line : list ascii;
  cl_data : list (list ascii);
  cl_id : list ascii;
  cl_last : list ascii;
  cl_got : list (list ascii * list ascii)
}.

Fixpoint cut_colon (cs name : list ascii) : list ascii * list ascii :=
  match cs with
  | [] => (name, [])
  | c :: r => if Ascii.eqb c ":" then (name, match r with " "%char :: v => v | _ => r end) else cut_colon r (name ++ [c])
  end.

Fixpoint join_lines (l : list (list ascii)) : list ascii :=
  match l with [] => [] | [x] => x | x :: r => x ++ LF :: join_lines r end.

Definition end_line (c : client) : client :=
  match cl_line c with
  | [] =>
      mkClient [] [] (cl_id c) (cl_id c)
        (cl_got c ++ match cl_data c with [] => [] | d => [(cl_id c, join_lines d)] end)
  | line =>
      let '(name, value) := cut_colon line [] in
      if bool_decide (name = chars "data") then mkClient [] (cl_data c ++ [value]) (cl_id c) (cl_last c) (cl_got c)
      else if bool_decide (name = chars "id") then mkClient [] (cl_data c) value (cl_last c) (cl_got c)
      else mkClient [] (cl_data c) (cl_id c) (cl_last c) (cl_got c)
  end.

Definition client_step (c : client) (x : ascii) : client :=
  if Ascii.eqb x LF then end_line c
  else mkClient (cl_line c ++ [x]) (cl_data c) (cl_id c) (cl_last c) (cl_got c).

Definition client_read (c : client) (bytes : list ascii) : client := fold_left client_step bytes c.

(** A client that has seen the id [lid] and opens a connection. *)
Definition client_open (lid : list ascii) : client := mkClient [] [] [] lid [].

(** *** Reading what was written *)

Lemma client_read_app c l1 l2 : client_read c (l1 ++ l2) = client_read (client_read c l1) l2.
Proof. apply fold_left_app. Qed.

Lemma client_read_line c l : LF ∉ l →
  client_read c l = mkClient (cl_line c ++ l) (cl_data c) (cl_id c) (cl_last c) (cl_got c).
Proof.
  revert c. induction l as [|x l IH]; intros c Hl; [destruct c; simpl; by rewrite app_nil_r|].
  apply not_elem_of_cons in Hl as [Hx Hl]. cbn [client_read fold_left]. fold (client_read (client_step c x) l).
  rewrite IH by done. unfold client_step. destruct (Ascii.eqb_spec x LF); [congruence|]. simpl.
  by rewrite <-app_assoc.
Qed.

Lemma client_read_LF c : client_read c [LF] = end_line c.
Proof. done. Qed.

Lemma end_line_quiet c : cl_line c ≠ [] → cl_last (end_line c) = cl_last c ∧ cl_got (end_line c) = cl_got c.
Proof.
  unfold end_line. destruct (cl_line c); [done|]. intros _. destruct (cut_colon _ _). by repeat case_bool_decide.
Qed.

Lemma end_line_line c : cl_line (end_line c) = [].
Proof. unfold end_line. destruct (cl_line c); [done|]. destruct (cut_colon _ _). by repeat case_bool_decide. Qed.

(** Before its last line ends an event changes nothing the client can see. *)
Lemma client_read_cut c a b n : cl_line c = [] → LF ∉ a → LF ∉ b → a ≠ [] → b ≠ [] →
  let c' := client_read c (take n (a ++ [LF] ++ b ++ [LF])) in cl_last c' = cl_last c ∧ cl_got c' = cl_got c.
Proof.
  intros Hc Ha Hb Ha0 Hb0. cbv zeta.
  assert (Hq : ∀ c0 l m, cl_line c0 = [] → LF ∉ l → l ≠ [] →
    let c' := client_read c0 (take m (l ++ [LF])) in cl_last c' = cl_last c0 ∧ cl_got c' = cl_got c0).
  { intros c0 l m H0 Hl Hne. cbv zeta. rewrite take_app, client_read_app.
    assert (Hl' : LF ∉ take m l) by (intros Hin; apply Hl; by apply elem_of_take in Hin as (? & ? & _); eapply list_elem_of_lookup_2).
    rewrite (client_read_line _ _ Hl').
    destruct (m - length l)%nat eqn:E; [done|]. simpl take. rewrite take_nil. rewrite client_read_LF.
    rewrite take_ge by lia. refine (end_line_quiet (mkClient _ _ _ _ _) _). simpl. by rewrite H0. }
  rewrite app_assoc, take_app, client_read_app.
  destruct (decide (n ≤ length (a ++ [LF]))%nat) as [Hn|Hn].
  { replace (n - length (a ++ [LF]))%nat with 0%nat by lia. simpl. by apply Hq. }
  pose proof (Hq c a n Hc Ha Ha0) as [HL HG]. rewrite take_ge in * by lia.
  set (c1 := client_read c (a ++ [LF])) in *.
  assert (cl_line c1 = []) as H1.
  { subst c1. by rewrite client_read_app, client_read_LF, end_line_line. }
  destruct (Hq c1 b (n - length (a ++ [LF]))%nat H1 Hb Hb0) as [-> ->]. done.
Qed.

(** *** Sequence numbers as text *)

Lemma decimal_no_LF acc cs n : decimal acc cs = Some n → LF ∉ cs.
Proof.
  revert acc. induction cs as [|c cs IH]; intros acc; [intros _; apply not_elem_of_nil|]. cbn [decimal].
  destruct (digit_val c) eqn:E; [|done]. intros Hd%IH. apply not_elem_of_cons. split; [|done]. by intros <-.
Qed.

Lemma pretty_no_LF (n : N) : LF ∉ chars (pretty n).
Proof.
  unfold pretty, pretty_N. case_decide; [apply (decimal_no_LF 0 _ 0); reflexivity|].
  eapply decimal_no_LF. by rewrite decimal_pretty_go.
Qed.

(** The cursor a client sends: nothing before its first event, then its last id. *)
Definition lid_of (c : N) : list ascii := if decide (c = 0)%N then [] else chars (pretty c).

Lemma sseCursor_lid c : (c < u64_bound)%N → sseCursor (string_of_list_ascii (lid_of c)) "" = Ok c.
Proof.
  intros Hc. unfold lid_of, sseCursor. case_decide as H0; [by subst|].
  unfold chars. rewrite string_of_list_ascii_of_string, andb_false_r.
  destruct (String.eqb_spec (pretty c) "") as [E|_]; [exfalso; apply (pretty_ne c); by rewrite E|].
  destruct (String.eqb_spec (pretty c) "") as [E|_]; [exfalso; apply (pretty_ne c); by rewrite E|].
  by rewrite ParseUint_pretty.
Qed.

(** *** Cutting the stream *)

Section Stream.
Context (text : json → string).
(** [json.Marshal] writes a document on one line. *)
Hypothesis text_line : ∀ j, LF ∉ chars (text j).

Definition json_data (ev : Event) : Prop := ∃ j, Data ev = RJson j.

Definition seen (ev : Event) : list ascii * list ascii := (chars (pretty (Seq ev)), chars (raw_text text (Data ev))).

Lemma text_no_LF ev : json_data ev → LF ∉ chars (raw_text text (Data ev)).
Proof. intros [j ->]. apply text_line. Qed.

Lemma client_read_event ev c : json_data ev → cl_line c = [] → cl_data c = [] →
  client_read c (writeSSEEvent text ev) =
    mkClient [] [] (chars (pretty (Seq ev))) (chars (pretty (Seq ev))) (cl_got c ++ [seen ev]).
Proof.
  intros Hj Hl Hd. unfold writeSSEEvent.
  rewrite app_assoc, client_read_app, (client_read_line c), Hl, Hd, app_nil_l.
  2:{ rewrite elem_of_app. intros [Hin|Hin]; [by vm_compute in Hin; set_solver|by eapply pretty_no_LF]. }
  rewrite client_read_app, client_read_LF.
  change (end_line _) with (mkClient [] [] (chars (pretty (Seq ev))) (cl_last c) (cl_got c)).
  rewrite app_assoc, client_read_app, (client_read_line (mkClient [] [] _ _ _)).
  2:{ rewrite elem_of_app. intros [Hin|Hin]; [by vm_compute in Hin; set_solver|by eapply text_no_LF]. }
  done.
Qed.

(** A prefix of the stream shows the client a prefix of the events, and its last
    id is that of the last event it saw. *)
Lemma client_read_body evs c n : Forall json_data evs → cl_line c = [] → cl_data c = [] →
  ∃ m, let c' := client_read c (take n (sse_body text evs)) in
    cl_got c' = cl_got c ++ (seen <$> take m evs) ∧
    cl_last c' = match last (take m evs) with None => cl_last c | Some ev => chars (pretty (Seq ev)) end.
Proof.
  revert c n. induction evs as [|ev evs IH]; intros c n Hf Hl Hd; cbv zeta.
  { exists 0%nat. unfold sse_body. simpl. rewrite take_nil. simpl. by rewrite app_nil_r. }
  inversion Hf as [|? ? Hj Hf']; subst.
  change (sse_body text (ev :: evs)) with (writeSSEEvent text ev ++ sse_body text evs).
  rewrite take_app, client_read_app.
  destruct (decide (length (writeSSEEvent text ev) ≤ n)%nat) as [Hn|Hn].
  - rewrite (take_ge (writeSSEEvent text ev)) by lia. rewrite (client_read_event ev c Hj Hl Hd).
    set (c1 := mkClient _ _ _ _ _).
    destruct (IH c1 (n - length (writeSSEEvent text ev))%nat Hf' eq_refl eq_refl) as (m & Hg & Hla).
    exists (S m). cbv zeta in Hg, Hla. rewrite Hg, Hla. cbn [take fmap list_fmap cl_got c1].
    split; [by rewrite <-app_assoc|]. rewrite last_cons. by destruct (last (take m evs)).
  - exists 0%nat. replace (n - length (writeSSEEvent text ev))%nat with 0%nat by lia. simpl. rewrite app_nil_r.
    set (a := chars "id: " ++ chars (pretty (Seq ev))). set (b := chars "data: " ++ chars (raw_text text (Data ev))).
    assert (writeSSEEvent text ev = (a ++ [LF] ++ b ++ [LF]) ++ [LF]) as E.
    { unfold writeSSEEvent, a, b. by rewrite <-!app_assoc. }
    rewrite E in Hn |- *. rewrite length_app in Hn. change (length [LF]) with 1%nat in Hn.
    rewrite (take_app_le (a ++ [LF] ++ b ++ [LF])) by lia.
    destruct (client_read_cut c a b n Hl) as [-> ->]; [..|done].
    + unfold a. rewrite elem_of_app. intros [Hin|Hin]; [by vm_compute in Hin; set_solver|by eapply pretty_no_LF].
    + unfold b. rewrite elem_of_app. intros [Hin|Hin]; [by vm_compute in Hin; set_solver|by eapply text_no_LF].
    + done.
    + done.
Qed.
End Stream.

(** *** Reconnecting *)

(** A connection: what happens on the hub while it is open, how many bytes reach
    the client, and what happens until the next one. *)
Record connection : Type := mkConnection { cn_ops : list hub_op; cn_cut : nat; cn_gap : list hub_op }.

Definition json_op (op : hub_op) : Prop :=
  match op with OpPublish raw | OpPulled raw _ => ∃ j, raw = RJson j | _ => True end.

#[global] Instance keeps_channel_dec k op : Decision (keeps_channel k op).
Proof. destruct op; simpl; apply _. Defined.

Section Reattach.
Context {S : Type} `{EventStoreLaws S} (text : json → string).

Record attached : Type := mkAttached {
  at_kept : bool;
  at_got : list (list ascii * list ascii);
  at_lid : list ascii;
  at_state : S * EventHub
}.

(** One connection: the handler's head, the stream until it breaks, and the
    withdrawal of the channel.  [at_kept] says that the channel never filled. *)
Definition connect (st : S * EventHub) (lid : list ascii) (c : connection) : attached :=
  match sse_open true st.1 st.2 (string_of_list_ascii lid) "" with
  | Err _ => mkAttached true [] lid (hub_run st (cn_gap c))
  | Ok (replay, k, h) =>
      let '(recv, free, (s1, h1)) := observe k (st.1, h) (cn_ops c) in
      let cl := client_read (client_open lid) (take (cn_cut c) (sse_body text (replay ++ recv))) in
      mkAttached (free && bool_decide (Forall (keeps_channel k) (cn_ops c))) (cl_got cl) (cl_last cl)
        (hub_run (s1, unsubscribe h1 k) (cn_gap c))
  end.

Fixpoint reconnect (st : S * EventHub) (lid : list ascii) (cs : list connection) : attached :=
  match cs with
  | [] => mkAttached true [] lid st
  | c :: rest =>
      let a := connect st lid c in
      let b := reconnect (at_state a) (at_lid a) rest in
      mkAttached (at_kept a && at_kept b) (at_got a ++ at_got b) (at_lid b) (at_state b)
  end.

Definition conn_ops (c : connection) : list hub_op := cn_ops c ++ cn_gap c.

Definition between (a c : N) (l : list Event) : list Event := filter (λ ev, (a < Seq ev)%N ∧ (Seq ev ≤ c)%N) l.

Definition json_chan (k : nat) (h : EventHub) : Prop :=
  ∀ ch, h_subscribers h !! k = Some ch → Forall json_data ch.

Lemma json_chan_fanout k h ev next o : json_data ev → json_chan k h → json_chan k (fanout ev (EventHub.set_seq h next o)).
Proof.
  intros Hev Hk ch. simpl. rewrite lookup_fmap. destruct (h_subscribers h !! k) as [ch0|] eqn:E; [|done].
  simpl. intros [= <-]. unfold send. case_match; [|by apply Hk]. apply Forall_app. split; [by apply Hk|by repeat constructor].
Qed.

Lemma hub_step_json k s h op : json_op op → json_chan k h → json_chan k (hub_step (s, h) op).2.
Proof.
  intros Hj Hk. destruct op as [raw|raw id|t fs|after|id|id| |]; simpl in *.
  - unfold Publish. destruct (h_closed h); [done|]. destruct (Append _ _ _) as [[e|] s1]; [done|].
    apply json_chan_fanout; [|done]. done.
  - unfold PublishPulled. destruct (h_closed h); [done|]. destruct (id <=? h_origin h)%N; [done|].
    destruct (AppendWithOrigin _ _ _ _) as [[e|] s1]; [done|]. by apply json_chan_fanout.
  - unfold PublishLifecycle. destruct (h_closed h); [done|]. destruct (Append _ _ _) as [[e|] s1]; [done|].
    apply json_chan_fanout; [by eexists|done].
  - unfold Subscribe. destruct (Replay _ _ _); [|done]. intros ch. simpl. rewrite lookup_insert_Some.
    intros [[_ <-]|[_ Hch]]; [constructor|by apply Hk].
  - intros ch. simpl. rewrite lookup_delete_Some. intros [_ Hch]. by apply Hk.
  - unfold receive. destruct (h_subscribers h !! id) as [[|ev ch0]|] eqn:E; try done. intros ch. simpl.
    rewrite lookup_insert_Some. intros [[-> <-]|[_ Hch]]; [|by apply Hk]. apply Hk in E. by inversion E.
  - done.
  - destruct (NewEventHub s (h_agentID h)) as [h1|] eqn:E; [|done]. unfold NewEventHub in E.
    destruct (NextSeq _ _); [|done]. destruct (OriginWatermark _ _); [|done]. injection E as <-. intros ch. simpl.
    by rewrite lookup_empty.
Qed.

Lemma observe_json k ops s h recv free st :
  Forall json_op ops → json_chan k h → observe k (s, h) ops = (recv, free, st) → Forall json_data recv.
Proof.
  revert s h recv free st. induction ops as [|op ops IH]; intros s h recv free st Hops Hk; cbn [observe].
  { by intros [= <- _ _]. }
  inversion Hops as [|? ? Hop Hops']; subst. pose proof (hub_step_json k s h op Hop Hk) as Hk1.
  destruct (hub_step (s, h) op) as [s1 h1]. destruct (observe k (s1, h1) ops) as [[r1 f1] st1] eqn:E.
  intros [= <- _ _]. apply Forall_app. split; [|exact (IH s1 h1 r1 f1 _ Hops' Hk1 E)].
  destruct op; try constructor. case_decide; [subst|constructor]. cbn [snd]. unfold receive.
  destruct (h_subscribers h !! k) as [[|ev ch]|] eqn:Ec; [constructor| |constructor].
  apply Hk in Ec. inversion Ec; subst. by repeat constructor.
Qed.

Lemma stored_json evs : Forall json_data evs → omap stored evs = evs.
Proof.
  induction 1 as [|ev evs [j Hj] _ IH]; [done|].
  assert (stored ev = Some ev) as E by (unfold stored; rewrite Hj; destruct ev; simpl in *; by subst).
  change (omap stored (ev :: evs)) with (match stored ev with Some y => y :: omap stored evs | None => omap stored evs end).
  by rewrite E, IH.
Qed.
Lemma subscribe_channel s h after replay k h1 :
  hub_sync s h → Subscribe s h after = (Ok (replay, k), h1) →
  hub_sync s h1 ∧ channel h1 k [] ∧ log_of s h1 = log_of s h ∧ replay = filter (λ ev, (after < Seq ev)%N) (log_of s h).
Proof.
  intros Hs. unfold Subscribe. destruct (Replay s (h_agentID h) after) as [l|] eqn:E; [|done].
  intros [= <- <- <-]. apply es_replay in E; [|apply Hs..]. split_and!; [done| |done|done].
  split; simpl; [by rewrite lookup_insert_eq|lia].
Qed.

Lemma observe_run k ops st : (observe k st ops).2 = hub_run st ops.
Proof.
  revert st. induction ops as [|op ops IH]; intros st; [done|]. cbn [observe].
  change (hub_run st (op :: ops)) with (hub_run (hub_step st op) ops). rewrite <-IH.
  by destruct (observe k (hub_step st op) ops) as [[??] ?].
Qed.

Lemma observe_log k ops s h recv free s' h' :
  hub_sync s h → Forall op_ok ops → (log_len (log_of s h) + N.of_nat (length ops) < u64_bound)%N →
  observe k (s, h) ops = (recv, free, (s', h')) →
  hub_sync s' h' ∧ ∃ ext, log_of s' h' = log_of s h ++ ext ∧ (length ext ≤ length ops)%nat.
Proof.
  intros Hs Hok Hroom E. pose proof (hub_run_log _ _ _ Hs Hok Hroom) as Hr.
  rewrite <-(observe_run k), E in Hr. by destruct Hr as (? & _ & ?).
Qed.

(** What a client may still not know of a growing log does not move. *)
Lemma between_grows a c l ext : gap_free (l ++ ext) → (c ≤ log_len l)%N → between a c (l ++ ext) = between a c l.
Proof.
  intros Hg Hc. unfold between. rewrite filter_app, (filter_none _ ext), app_nil_r; [done|].
  rewrite Forall_forall. intros ev Hev ?. pose proof (gap_free_suffix _ _ _ Hg Hev). lia.
Qed.

Lemma between_split a c c' l : gap_free l → (a ≤ c)%N → (c ≤ c')%N → between a c' l = between a c l ++ between c c' l.
Proof.
  intros Hg Ha Hc. pose proof (filter_split_cursor l (λ _, True) a c c' Hg (conj Ha Hc)) as E. unfold between.
  rewrite (list_filter_iff _ (λ ev, (a < Seq ev)%N ∧ (Seq ev ≤ c')%N)) in E by naive_solver.
  rewrite (list_filter_iff (λ ev, (a < Seq ev)%N ∧ (Seq ev ≤ c)%N ∧ True) (λ ev, (a < Seq ev)%N ∧ (Seq ev ≤ c)%N)) in E by naive_solver.
  rewrite (list_filter_iff (λ ev, (c < Seq ev)%N ∧ (Seq ev ≤ c')%N ∧ True) (λ ev, (c < Seq ev)%N ∧ (Seq ev ≤ c')%N)) in E by naive_solver.
  done.
Qed.

(** The first [m] of the events beyond [c] are those up to the last of them. *)
Lemma prefix_between l c b rest : gap_free l → filter (λ ev, (c < Seq ev)%N) l = b ++ rest →
  b = between c (next_cursor c b) l ∧ (c ≤ next_cursor c b)%N ∧ (next_cursor c b = c ∨ next_cursor c b ≤ log_len l)%N.
Proof.
  intros Hg Hf. destruct (batch_between l c (λ _, True) b rest Hg) as (Hb & Hle & Hor).
  { rewrite <-Hf. apply list_filter_iff. naive_solver. }
  split_and!; [|done..]. unfold between. etrans; [exact Hb|]. apply list_filter_iff. naive_solver.
Qed.

Lemma log_gap_free s h : hub_sync s h → gap_free (log_of s h) ∧ (log_len (log_of s h) < u64_bound)%N ∧
  Forall json_data (log_of s h).
Proof. intros (Hinv & Hv & _). by destruct (es_log_wf _ _ Hinv Hv) as (? & ? & ?). Qed.

Hypothesis text_line : ∀ j, LF ∉ chars (text j).

(** One open stream: the client has the events from its old cursor to its new one. *)
Lemma stream_between s h c replay k h1 ops recv s1 h2 n :
  hub_sync s h → (c ≤ log_len (log_of s h))%N → Subscribe s h c = (Ok (replay, k), h1) →
  Forall op_ok ops → Forall json_op ops → Forall (keeps_channel k) ops →
  (log_len (log_of s h) + N.of_nat (length ops) < u64_bound)%N →
  observe k (s, h1) ops = (recv, true, (s1, h2)) →
  hub_sync s1 h2 ∧ (∃ ext, log_of s1 h2 = log_of s h ++ ext ∧ (length ext ≤ length ops)%nat) ∧
  ∃ c', let cl := client_read (client_open (lid_of c)) (take n (sse_body text (replay ++ recv))) in
    cl_last cl = lid_of c' ∧ (c ≤ c')%N ∧ (c' ≤ log_len (log_of s1 h2))%N ∧
    cl_got cl = seen text <$> between c c' (log_of s1 h2).
Proof.
  intros Hs Hc Hsub Hok Hjson Hkeep Hroom Hobs.
  destruct (subscribe_no_gap _ _ _ _ _ _ _ _ _ _ Hs Hc Hsub Hok Hkeep Hroom Hobs) as (pend & _ & Hall).
  destruct (subscribe_channel _ _ _ _ _ _ Hs Hsub) as (Hs1 & Hch & Hlog & Hrep).
  rewrite <-Hlog in Hroom.
  destruct (observe_log _ _ _ _ _ _ _ _ Hs1 Hok Hroom Hobs) as (Hs2 & Hext). rewrite Hlog in Hext.
  destruct (log_gap_free _ _ Hs2) as (Hg & _ & _).
  assert (Hjr : Forall json_data recv).
  { eapply observe_json; [done| |done]. intros ch Hk. destruct Hch as [Hch _]. rewrite Hch in Hk. by injection Hk as <-. }
  rewrite omap_app, (stored_json recv Hjr), app_assoc in Hall.
  assert (Hj : Forall json_data (replay ++ recv)).
  { apply Forall_app. split; [|done]. rewrite Hrep. apply Forall_forall. intros ev [_ Hev]%list_elem_of_filter.
    destruct (log_gap_free _ _ Hs) as (_ & _ & Hf). rewrite Forall_forall in Hf. by apply Hf. }
  split; [done|]. split; [done|].
  destruct (client_read_body text text_line _ (client_open (lid_of c)) n Hj eq_refl eq_refl) as (m & Hgot & Hlast).
  cbv zeta in *. set (b := take m (replay ++ recv)) in *.
  destruct (prefix_between _ c b (drop m (replay ++ recv) ++ omap stored pend) Hg) as (Hb & Hle & Hor).
  { rewrite app_assoc. unfold b. by rewrite take_drop. }
  assert (Hlen : (log_len (log_of s h) ≤ log_len (log_of s1 h2))%N).
  { destruct Hext as (ext & -> & _). unfold log_len. rewrite length_app. lia. }
  exists (next_cursor c b). rewrite Hgot, Hlast, <-Hb. split_and!; [|done|lia|done].
  unfold next_cursor. destruct (last b) as [ev|] eqn:El; [|done].
  unfold lid_of. rewrite decide_False; [done|].
  apply last_Some_elem_of in El. rewrite Hb in El. unfold between in El. apply list_elem_of_filter in El. lia.
Qed.

Definition conn_ok (c : connection) : Prop := Forall op_ok (conn_ops c) ∧ Forall json_op (cn_ops c).

Lemma hub_run_between s h ops : hub_sync s h → Forall op_ok ops →
  (log_len (log_of s h) + N.of_nat (length ops) < u64_bound)%N →
  let st := hub_run (s, h) ops in
  hub_sync st.1 st.2 ∧ ∃ ext, log_of st.1 st.2 = log_of s h ++ ext ∧ (length ext ≤ length ops)%nat.
Proof.
  intros Hs Hok Hroom. pose proof (hub_run_log _ _ _ Hs Hok Hroom) as Hr. cbv zeta.
  destruct (hub_run (s, h) ops) as [s' h']. by destruct Hr as (? & _ & ?).
Qed.

Lemma connect_between s h c cn : hub_sync s h → (c ≤ log_len (log_of s h))%N → conn_ok cn →
  (log_len (log_of s h) + N.of_nat (length (conn_ops cn)) < u64_bound)%N →
  let a := connect (s, h) (lid_of c) cn in let st := at_state a in at_kept a = true →
  hub_sync st.1 st.2 ∧ (∃ ext, log_of st.1 st.2 = log_of s h ++ ext ∧ (length ext ≤ length (conn_ops cn))%nat) ∧
  ∃ c', at_lid a = lid_of c' ∧ (c ≤ c')%N ∧ (c' ≤ log_len (log_of st.1 st.2))%N ∧
    at_got a = seen text <$> between c c' (log_of st.1 st.2).
Proof.
  intros Hs Hc [Hok Hjson] Hroom. cbv zeta. unfold conn_ops in *. apply Forall_app in Hok as [Hok1 Hok2].
  rewrite length_app in Hroom. destruct (log_gap_free _ _ Hs) as (Hg & Hb & _).
  unfold connect, sse_open. cbn [fst snd]. rewrite sseCursor_lid by lia. cbn [negb].
  destruct (Subscribe s h c) as [[[replay k]|e] h1] eqn:Esub; cbn [at_kept at_state at_lid at_got]; cycle 1.
  { intros _. destruct (hub_run_between s h (cn_gap cn) Hs Hok2 ltac:(lia)) as (Hs' & ext & Hl & Hlen).
    split; [done|]. split; [exists ext; rewrite length_app; split; [done|lia]|]. exists c. split_and!; [done..| |].
    - rewrite Hl. unfold log_len in *. rewrite length_app. lia.
    - symmetry. unfold between. rewrite filter_none; [done|]. rewrite Forall_forall. lia. }
  destruct (observe k (s, h1) (cn_ops cn)) as [[recv free] [s1 h2]] eqn:Eobs. cbn [at_kept at_state at_lid at_got].
  intros [-> Hkeep%bool_decide_eq_true]%andb_true_iff.
  destruct (stream_between _ _ _ _ _ _ _ _ _ _ (cn_cut cn) Hs Hc Esub Hok1 Hjson Hkeep ltac:(lia) Eobs)
    as (Hs1 & (ext & Hl & Hlen) & c' & Hlid & Hle & Hc' & Hgot). cbv zeta in Hlid, Hgot.
  assert (Hsu : hub_sync s1 (unsubscribe h2 k)) by done. assert (Hlu : log_of s1 (unsubscribe h2 k) = log_of s1 h2) by done.
  destruct (hub_run_between s1 (unsubscribe h2 k) (cn_gap cn) Hsu Hok2) as (Hs' & ext' & Hl' & Hlen').
  { rewrite Hlu, Hl. unfold log_len in *. rewrite length_app. lia. }
  rewrite Hlu in Hl'. destruct (log_gap_free _ _ Hs') as (Hg' & _ & _). rewrite Hl' in Hg'.
  split; [done|]. split.
  { exists (ext ++ ext'). rewrite Hl', Hl, app_assoc, !length_app. split; [done|lia]. }
  exists c'. split_and!; [done..| |].
  - rewrite Hl'. unfold log_len in *. rewrite length_app. lia.
  - by rewrite Hl', between_grows.
Qed.

Lemma reconnect_between cs s h c : hub_sync s h → (c ≤ log_len (log_of s h))%N → Forall conn_ok cs →
  (log_len (log_of s h) + N.of_nat (length (cs ≫= conn_ops)) < u64_bound)%N →
  let a := reconnect (s, h) (lid_of c) cs in let st := at_state a in at_kept a = true →
  hub_sync st.1 st.2 ∧ (∃ ext, log_of st.1 st.2 = log_of s h ++ ext) ∧
  ∃ c', at_lid a = lid_of c' ∧ (c ≤ c')%N ∧ (c' ≤ log_len (log_of st.1 st.2))%N ∧
    at_got a = seen text <$> between c c' (log_of st.1 st.2).
Proof.
  revert s h c. induction cs as [|cn cs IH]; intros s h c Hs Hc Hcs Hroom; cbv zeta.
  { intros _. split; [done|]. split; [exists []; by rewrite app_nil_r|]. exists c. split_and!; [done..|].
    symmetry. simpl. unfold between. rewrite filter_none; [done|]. rewrite Forall_forall. lia. }
  inversion Hcs as [|? ? Hcn Hcs']; subst. cbn [mbind list_bind] in Hroom. rewrite length_app in Hroom.
  cbn [reconnect at_kept at_state at_lid at_got]. intros [Hk1 Hk2]%andb_true_iff.
  destruct (connect_between s h c cn Hs Hc Hcn ltac:(lia) Hk1) as (Hs1 & (ext & Hl & Hlen) & c1 & Hlid & Hle & Hc1 & Hgot).
  destruct (at_state (connect (s, h) (lid_of c) cn)) as [s1 h1]. cbn [fst snd] in *. rewrite Hlid in Hk2 |- *.
  destruct (IH s1 h1 c1 Hs1 Hc1 Hcs') as (Hs2 & (ext2 & Hl2) & c2 & Hlid2 & Hle2 & Hc2 & Hgot2); [|done|].
  { rewrite Hl. unfold log_len in *. rewrite length_app. change (mbind conn_ops cs) with (cs ≫= conn_ops) in Hroom. lia. }
  split; [done|]. split; [exists (ext ++ ext2); by rewrite Hl2, Hl, app_assoc|].
  exists c2. split_and!; [done|lia|done|]. rewrite Hgot, Hgot2, <-fmap_app. f_equal.
  destruct (log_gap_free _ _ Hs2) as (Hg2 & _). rewrite (between_split c c1 c2) by done. f_equal.
  rewrite Hl2 in Hg2 |- *. by rewrite between_grows.
Qed.

Lemma client_read_all evs c : Forall json_data evs → cl_line c = [] → cl_data c = [] →
  cl_got (client_read c (sse_body text evs)) = cl_got c ++ (seen text <$> evs).
Proof.
  revert c. induction evs as [|ev evs IH]; intros c Hf Hl Hd; [by rewrite app_nil_r|].
  inversion Hf; subst. change (sse_body text (ev :: evs)) with (writeSSEEvent text ev ++ sse_body text evs).
  rewrite client_read_app, client_read_event by done. rewrite IH by done. simpl. by rewrite <-app_assoc.
Qed.

(** C8. A stream can be cut anywhere and taken up again.  A client starts with a
    cursor and reconnects any number of times with the id of the last event it
    saw; each connection is cut after some number of bytes, in the middle of an
    event too, and between connections anything may happen to the hub, the
    controller's restart included.  As long as no channel of its filled, the
    events it has, followed by what one more connection replays, are exactly the
    log beyond the first cursor, each event once and in order; and that
    connection is served whenever the store can be read. *)
Theorem sse_reattach_exact s h c cs : hub_sync s h → (c ≤ log_len (log_of s h))%N → Forall conn_ok cs →
  (log_len (log_of s h) + N.of_nat (length (cs ≫= conn_ops)) < u64_bound)%N →
  let a := reconnect (s, h) (lid_of c) cs in
  let '(s', h') := at_state a in
  let again := sse_open true s' h' (string_of_list_ascii (at_lid a)) "" in
  at_kept a = true →
  (∀ replay k h2, again = Ok (replay, k, h2) →
     at_got a ++ cl_got (client_read (client_open (at_lid a)) (sse_body text replay)) =
       seen text <$> filter (λ ev, (c < Seq ev)%N) (log_of s' h')) ∧
  (es_up s' → is_ok again).
Proof.
  intros Hs Hc Hcs Hroom. cbv zeta. pose proof (reconnect_between cs s h c Hs Hc Hcs Hroom) as Hr. cbv zeta in Hr.
  destruct (reconnect (s, h) (lid_of c) cs) as [kept got lid [s' h']]. cbn [at_kept at_got at_lid at_state fst snd] in *.
  intros Hk. destruct (Hr Hk) as (Hs' & _ & c' & -> & Hle & Hc' & ->).
  destruct (log_gap_free _ _ Hs') as (Hg & Hb & Hj). unfold sse_open. rewrite sseCursor_lid by lia. cbn [negb].
  split.
  - intros replay k h2. destruct (Subscribe s' h' c') as [[[r k0]|e] h0] eqn:E; [|done]. intros [= -> -> ->].
    destruct (subscribe_channel _ _ _ _ _ _ Hs' E) as (_ & _ & _ & ->).
    rewrite client_read_all; [|apply Forall_forall|done..].
    2:{ intros ev [_ Hev]%list_elem_of_filter. rewrite Forall_forall in Hj. by apply Hj. }
    simpl. rewrite <-fmap_app. f_equal.
    assert (Hall : ∀ a, filter (λ ev, (a < Seq ev)%N) (log_of s' h') = between a (log_len (log_of s' h')) (log_of s' h')).
    { intros a. unfold between. rewrite <-list_filter_filter, (filter_id (λ ev, (Seq ev ≤ _)%N)); [done|].
      apply Forall_forall. intros ev Hev. by apply (gap_free_elem _ _ Hg Hev). }
    rewrite !Hall. symmetry. by apply between_split.
  - intros Hup. destruct Hs' as (Hinv & Hv & _). destruct (es_reads_up s' (h_agentID h') c' Hup Hinv Hv) as (_ & _ & Hok & _).
    unfold Subscribe. by destruct (Replay s' (h_agentID h') c').
Qed.
End Reattach.

(** ** The two transports *)

Section Twins.
Context {S : Type} `{EventStore S}.

Definition succeeds (r : reply) : bool := (200 <=? code_of r) && (code_of r <? 300).

(** A tool's answer against the REST reply to the same request. *)
Definition twins {A} (r : reply) (t : res tool_err A) : Prop :=
  match t with
  | Ok _ => succeeds r = true
  | Err (TErr e) => code_of r = statusForErr e
  | Err (TStore _) => code_of r = 500
  | Err (TMsg _) => succeeds r = false
  end.

Lemma statusForErr_range e : 400 ≤ statusForErr e ≤ 500.
Proof. destruct e; simpl; lia. Qed.

Lemma twins_succeed {A} r (t : res tool_err A) : twins r t → succeeds r = true ↔ is_ok t.
Proof.
  unfold succeeds. destruct t as [x|[e|m|e]]; simpl; intros Ht; [split; [by eexists|done]| | |].
  - rewrite Ht. pose proof (statusForErr_range e). split; [|done]. rewrite andb_true_iff, Z.leb_le, Z.ltb_lt. lia.
  - unfold succeeds in Ht. rewrite Ht. by split.
  - rewrite Ht. by split.
Qed.

Lemma accepted_twins e status : twins (accepted e) (done e status).
Proof. by destruct e as [[]|]. Qed.

(** A command means the same on both transports.  Whatever the world and the
    answers from outside, a REST request and the tool call with the same
    arguments make the same calls and leave the same world, one succeeds exactly
    when the other does, and a tool error that names a cause has the status REST
    gives to that cause. *)
Theorem commands_are_twins (w : World S) id message env now listed delete_ok :
  (let '(r, calls, w1) := rest_prompt w id (Some message) env in
   let '(t, calls', w2) := handlePromptAgent w id message env in calls = calls' ∧ w1 = w2 ∧ twins r t) ∧
  (let '(r, calls, w1) := rest_steer w id (Some message) env in
   let '(t, calls', w2) := handleSteerAgent w id message env in calls = calls' ∧ w1 = w2 ∧ twins r t) ∧
  (let '(r, calls, w1) := rest_abort w id env in
   let '(t, calls', w2) := handleAbort w id env in calls = calls' ∧ w1 = w2 ∧ twins r t) ∧
  (let '(r, w1, sp) := rest_resume w id now in
   let '(t, w2, sp') := handleResume w id now in sp = sp' ∧ w1 = w2 ∧ twins r t) ∧
  match rest_delete listed delete_ok w id, handleDeleteAgent listed delete_ok w id with
  | Some (r, calls, w1), Some (t, calls', w2) => calls = calls' ∧ w1 = w2 ∧ twins r t
  | None, None => True
  | _, _ => False
  end.
Proof.
  split_and!.
  - unfold rest_prompt, handlePromptAgent. destruct message as [|x m]; simpl; destruct (Get w id); try done.
    destruct (Manager_Prompt _ _ _ _) as [[e calls] w']. split_and!; [done..|apply accepted_twins].
  - unfold rest_steer, handleSteerAgent. destruct message as [|x m]; simpl; destruct (Get w id); try done.
    destruct (Manager_Steer _ _ _ _) as [[e calls] w']. split_and!; [done..|apply accepted_twins].
  - unfold rest_abort, handleAbort. destruct (Get w id); [|done].
    destruct (Manager_Abort _ _ _) as [[e calls] w']. split_and!; [done..|apply accepted_twins].
  - unfold rest_resume, handleResume. destruct (Get w id); [|done].
    destruct (Resume _ _ _) as [[e w'] sp]. split_and!; [done..|apply accepted_twins].
  - unfold rest_delete, handleDeleteAgent. destruct (Manager.Delete _ _ _ _) as [k|]; [|done].
    split_and!; [done..|]. by destruct (k_err k) as [[]|].
Qed.

(** On the pull path an accepted prompt is 202 and one the turn policy refuses is
    409, with nothing sent; 500 is left to the daemon's own failures. *)
Theorem prompt_status (w : World S) id a message env : Get w id = Some a → message ≠ ""%string →
  a_pullTransport a = true →
  let '(r, calls, w') := rest_prompt w id (Some message) env in
  match prompt_gate a with
  | Some e => r = RpFault 409 e ∧ calls = []
  | None => code_of r = if decide (is_Some (daemonFor a (env_resolve env)).1) then if env_accept env then 202 else 500 else 500
  end.
Proof.
  intros Hg Hm Hp. unfold rest_prompt. rewrite Hg. destruct message as [|x m]; [done|].
  unfold Manager_Prompt, sendPrompt. rewrite Hg, Hp.
  destruct (prompt_gate a) as [e|] eqn:Eg.
  - split; [|done]. unfold prompt_gate in Eg. by repeat case_match; simplify_eq.
  - destruct (daemonFor a (env_resolve env)) as [[base|] a1]; simpl; [|done].
    destruct (env_accept env); [|done]. by destruct (turn_started _ _ _ _ _) as [[s' mo'] a3].
Qed.

Lemma parseReadParams_limit q p : parseReadParams q = Ok p → 0 < rp_limit p.
Proof.
  unfold parseReadParams, defaultReadLimit. repeat (case_match; try done); intros [= <-]; simpl; simplify_eq; lia.
Qed.

(** A pull by cursor is the tool's read with the deltas included: both answer with
    the same events or with the same failure of the store. *)
Theorem reads_are_twins (w : World S) id a q p :
  Get w id = Some a → parseReadParams q = Ok p → has q "last" = false →
  match handleReadEvents w id (rp_after p) (rp_limit p) (rp_types p) true with
  | Ok evs => readEvents w a q = RpEvents (a_ID a) evs
  | Err (TStore e) => readEvents w a q = RpStore e
  | Err _ => False
  end.
Proof.
  intros Hg Hp Hlast. pose proof (parseReadParams_limit _ _ Hp).
  unfold handleReadEvents, readEvents. rewrite Hg, Hp, Hlast.
  destruct (Z.eqb_spec (rp_limit p) 0); [lia|]. destruct (Z.ltb_spec (rp_limit p) 0); [lia|].
  unfold Read. by destruct (ReadFiltered _ _ _ _ _ _).
Qed.
End Twins.

(** ** Concrete streams *)

Module Samples.

(** A printer good enough for the samples. *)
Definition print (j : json) : string := match j with JObj _ => "{}" | _ => "null" end.

Lemma print_line j : LF ∉ chars (print j).
Proof. by destruct j; apply (bool_decide_unpack _); vm_compute. Qed.

(** Three events; the first connection breaks inside the second of them, the
    controller restarts, one more event arrives. *)
Definition broken : connection :=
  mkConnection [OpPulled (ex_record "a") 1; OpRecv 0; OpPulled (ex_record "b") 2; OpRecv 0] 25
    [OpRestart; OpPulled (ex_record "c") 3].

Lemma sse_reattach_exact_witness :
  let a := reconnect print (mem_empty, ex_hub) [] [broken] in
  at_kept a = true ∧ length (at_got a) = 1%nat ∧
  ∀ replay k h2, sse_open true (at_state a).1 (at_state a).2 (string_of_list_ascii (at_lid a)) "" = Ok (replay, k, h2) →
    at_got a ++ cl_got (client_read (client_open (at_lid a)) (sse_body print replay)) =
      seen print <$> filter (λ ev, (0 < Seq ev)%N) (log_of (at_state a).1 (at_state a).2).
Proof.
  split; [vm_compute; reflexivity|]. split; [vm_compute; reflexivity|].
  pose proof (sse_reattach_exact print print_line mem_empty ex_hub 0 [broken] (ex_hub_sync _ _)) as Ht.
  change (lid_of 0) with (@nil ascii) in Ht. cbv zeta in Ht.
  destruct (at_state (reconnect print (mem_empty, ex_hub) [] [broken])) as [s' h'] eqn:E. cbn [fst snd].
  assert (Hc : (0 ≤ log_len (log_of mem_empty ex_hub))%N) by (vm_compute; discriminate).
  assert (Hok : Forall conn_ok [broken]) by (repeat constructor; by eexists).
  specialize (Ht Hc Hok ltac:(vm_compute; reflexivity) ltac:(vm_compute; reflexivity)). exact (proj1 Ht).
Defined.

(** 257 events reach the channel of a client that is not reading, which holds
    256; then it reads on. *)
Definition slow : connection :=
  mkConnection
    (replicate 257 (OpPublish (ex_record "a")) ++ replicate 256 (OpRecv 0) ++ [OpPublish (ex_record "a"); OpRecv 0])
    (Z.to_nat 10000) [].

(** A slow reader loses an event for good: the one dropped for it is behind the
    last id it saw, so that no reconnection brings it back. *)
Theorem slow_reader_loses_event :
  let a := reconnect print (mem_empty, ex_hub) [] [slow] in
  length (log_of (at_state a).1 (at_state a).2) = 258%nat ∧ length (at_got a) = 257%nat ∧
  at_lid a = chars "258" ∧
  match sse_open true (at_state a).1 (at_state a).2 (string_of_list_ascii (at_lid a)) "" with
  | Ok (replay, _, _) => replay = []
  | Err _ => False
  end.
Proof. vm_compute. by split_and!. Qed.

(** An event source that was opened with a cursor in its address reconnects with
    that address and its last id, and is refused. *)
Theorem address_cursor_refused (c n : N) :
  sseCursor (pretty n) (pretty c) = Err "Last-Event-ID and after are mutually exclusive"%string.
Proof.
  unfold sseCursor.
  destruct (String.eqb_spec (pretty n) "") as [E|_]; [exfalso; apply (pretty_ne n); by rewrite E|].
  destruct (String.eqb_spec (pretty c) "") as [E|_]; [exfalso; apply (pretty_ne c); by rewrite E|]. done.
Qed.
End Samples.
