(* ===== verification/McpServer.v ===== *)
(** * The MCP server of the controller (src/controller/mcpapi.go)

    The table of tools: each name with the handler of [ControllerHttp] it runs and the
    shape of its input.  The library that serves the table decodes the input to that
    shape; what the outside answers during a call is one record.  Calls by name are
    compared with the list of verbs and with the REST requests. *)

From Stdlib Require Import Ascii String ZArith.
From S2P Require Import Prelude Bolt EventStore EventHub Fsm Monitor Config Agent Manager Registry Revive Wait ControllerHttp.
From stdpp Require Import base list strings numbers gmap.
Local Open Scope Z_scope.

Definition RestVerbs : list string :=
  ["create_agent"; "get_agent"; "prompt_agent"; "steer_agent"; "abort"; "resume_session"; "stream_events"; "wait_agent";
   "read_events"; "delete_agent"; "list_agents"; "list_providers"]%string.

(** The input types: [CreateProfile], [agentIDInput], [promptInput] (and [steerInput]),
    [waitInput], [streamEventsInput], [readEventsInput] and the empty struct. *)
Inductive tool_input : Type :=
| InCreate (p : CreateProfile)
| InAgent (id : string)
| InMessage (id message : string)
| InWait (id timeout : string)
| InStream (id : string) (after : N)
| InRead (id : string) (after : N) (limit : Z) (types : list string) (include_deltas : bool)
| InNothing.

Inductive tool_output : Type :=
| OutView (v : AgentView)
| OutAgents (vs : list AgentView)
| OutProviders (names : list string)
| OutStatus (status : string)
| OutWaited (r : WaitResult)
| OutEvents (evs : list Event).

Section Server.
Context {S : Type} `{EventStore S}.

(** What the outside answers while a tool runs. *)
Record tool_env : Type := mkToolEnv {
  te_create : create_env;
  te_cmd : cmd_env;
  te_now : Z;
  te_listed : option (list SandboxInfo);
  te_order : list AgentView → list AgentView;
  te_providers : option (list string);
  te_lineage : string → option (list SandboxInfo);
  te_delete_ok : string → bool;
  te_wait : Z → wait_env (S := S)
}.

(** The answer of a call, the calls to the gateway, the world and what was spawned. *)
Record ran : Type := mkRan { rn_answer : res tool_err tool_output; rn_calls : list call; rn_world : World S; rn_spawned : list spawn }.

Definition answered {A} (out : A → tool_output) (r : res tool_err A) : res tool_err tool_output :=
  match r with Ok a => Ok (out a) | Err e => Err e end.

(** [None]: the input has not the shape of the tool.  [Some None]: the call does not
    end. *)
Definition tool_handler : Type := tool_env → World S → tool_input → option (option ran).

Definition commanded (r : res tool_err string * list call * World S) : option (option ran) :=
  Some (Some (mkRan (answered OutStatus r.1.1) r.1.2 r.2 [])).
Definition looked {A} (out : A → tool_output) (w : World S) (r : res tool_err A) : option (option ran) :=
  Some (Some (mkRan (answered out r) [] w [])).

Definition NewMCPServer (cfg : Config) : list (string * tool_handler) :=
  [ ("create_agent", λ env w i, match i with
      | InCreate p => let '(r, calls, w') := handleCreateAgent cfg w p (te_create env) in Some (Some (mkRan (answered OutView r) calls w' []))
      | _ => None end);
    ("get_agent", λ env w i, match i with InAgent id => looked OutView w (handleGetAgent w id (te_listed env)) | _ => None end);
    ("prompt_agent", λ env w i, match i with InMessage id m => commanded (handlePromptAgent w id m (te_cmd env)) | _ => None end);
    ("steer_agent", λ env w i, match i with InMessage id m => commanded (handleSteerAgent w id m (te_cmd env)) | _ => None end);
    ("abort", λ env w i, match i with InAgent id => commanded (handleAbort w id (te_cmd env)) | _ => None end);
    ("resume_session", λ env w i, match i with
      | InAgent id => let '(r, w', sp) := handleResume w id (te_now env) in Some (Some (mkRan (answered OutStatus r) [] w' sp))
      | _ => None end);
    ("wait_agent", λ env w i, match i with
      | InWait id timeout => Some (r ← handleWaitAgent id timeout (te_wait env); Some (mkRan (answered OutWaited r) [] w []))
      | _ => None end);
    ("stream_events", λ env w i, match i with
      | InStream id after => let '(r, w') := handleStreamEvents w id after in Some (Some (mkRan (answered OutEvents r) [] w' []))
      | _ => None end);
    ("read_events", λ env w i, match i with
      | InRead id after limit types deltas => looked OutEvents w (handleReadEvents w id after limit types deltas)
      | _ => None end);
    ("delete_agent", λ env w i, match i with
      | InAgent id => Some (r ← handleDeleteAgent (te_lineage env) (te_delete_ok env) w id;
          Some (mkRan (answered OutStatus r.1.1) r.1.2 r.2 []))
      | _ => None end);
    ("list_agents", λ env w i, match i with InNothing => looked OutAgents w (handleListAgents (te_order env) w (te_listed env)) | _ => None end);
    ("list_providers", λ env w i, match i with InNothing => looked OutProviders w (handleListProviders (te_providers env)) | _ => None end)
  ]%string.

(** A call by name: the first tool of that name. *)
Fixpoint call_tool (tools : list (string * tool_handler)) (name : string) (env : tool_env) (w : World S) (i : tool_input) :
    option (option ran) :=
  match tools with
  | [] => None
  | (n, f) :: rest => if String.eqb n name then f env w i else call_tool rest name env w i
  end.

(** The tools are the verbs, each registered once. *)
Theorem tools_are_verbs cfg :
  fst <$> NewMCPServer cfg ≡ₚ RestVerbs ∧ NoDup (fst <$> NewMCPServer cfg) ∧ length (NewMCPServer cfg) = 12%nat.
Proof.
  assert (NoDup (fst <$> NewMCPServer cfg)) as Hn by (apply (bool_decide_unpack _); vm_compute; exact I).
  split; [|done]. apply NoDup_Permutation; [done|apply (bool_decide_unpack _); vm_compute; exact I|].
  intros x. cbn. set_solver.
Qed.

(** The REST request of a command: the reply and its effects. *)
Definition rest_command (verb : string) (env : tool_env) (w : World S) (i : tool_input) :
    option (option (reply * list call * World S * list spawn)) :=
  match i with
  | InMessage id m =>
      if String.eqb verb "prompt_agent" then Some (Some (rest_prompt w id (Some m) (te_cmd env), []))
      else if String.eqb verb "steer_agent" then Some (Some (rest_steer w id (Some m) (te_cmd env), []))
      else None
  | InAgent id =>
      if String.eqb verb "abort" then Some (Some (rest_abort w id (te_cmd env), []))
      else if String.eqb verb "resume_session" then
        let '(r, w', sp) := rest_resume w id (te_now env) in Some (Some (r, [], w', sp))
      else if String.eqb verb "delete_agent" then
        Some (r ← rest_delete (te_lineage env) (te_delete_ok env) w id; Some (r, []))
      else None
  | _ => None
  end.

Lemma answered_twins {A} (out : A → tool_output) r t : twins r t → twins r (answered out t).
Proof. by destruct t. Qed.

(** A command called by the name of its tool and the REST request for it make the same
    calls, leave the same world, spawn the same and agree on success; where one does not
    end, neither does the other. *)
Theorem tool_calls_are_rest_calls cfg verb env w i rest :
  rest_command verb env w i = Some rest →
  ∃ tool, call_tool (NewMCPServer cfg) verb env w i = Some tool ∧
    match rest, tool with
    | Some (r, calls, w', sp), Some t => rn_calls t = calls ∧ rn_world t = w' ∧ rn_spawned t = sp ∧ twins r (rn_answer t)
    | None, None => True
    | _, _ => False
    end.
Proof.
  pose proof (λ id m, commands_are_twins w id m (te_cmd env) (te_now env) (te_lineage env) (te_delete_ok env)) as Htw.
  unfold rest_command. destruct i as [|id|id m| | | |]; try done.
  - destruct (Htw id ""%string) as (_ & _ & Ha & Hr & Hd). destruct (String.eqb_spec verb "abort") as [->|].
    { intros [= <-]. eexists. split; [reflexivity|]. destruct (rest_abort _ _ _) as [[r c] w1], (handleAbort _ _ _) as [[t c'] w2].
      destruct Ha as (-> & -> & ?). split_and!; [done..|by apply answered_twins]. }
    destruct (String.eqb_spec verb "resume_session") as [->|].
    { destruct (rest_resume _ _ _) as [[r w1] sp]. intros [= <-]. cbn. destruct (handleResume _ _ _) as [[t w2] sp'].
      destruct Hr as (-> & -> & ?). eexists. split; [done|]. split_and!; [done..|by apply answered_twins]. }
    destruct (String.eqb_spec verb "delete_agent") as [->|]; [|done]. intros [= <-]. eexists. split; [reflexivity|].
    destruct (rest_delete _ _ _ _) as [[[r c] w1]|], (handleDeleteAgent _ _ _ _) as [[[t c'] w2]|]; try done.
    destruct Hd as (-> & -> & ?). split_and!; [done..|by apply answered_twins].
  - destruct (Htw id m) as (Hp & Hs & _). destruct (String.eqb_spec verb "prompt_agent") as [->|].
    { intros [= <-]. eexists. split; [reflexivity|].
      destruct (rest_prompt _ _ _ _) as [[r c] w1], (handlePromptAgent _ _ _ _) as [[t c'] w2].
      destruct Hp as (-> & -> & ?). split_and!; [done..|by apply answered_twins]. }
    destruct (String.eqb_spec verb "steer_agent") as [->|]; [|done]. intros [= <-]. eexists. split; [reflexivity|].
    destruct (rest_steer _ _ _ _) as [[r c] w1], (handleSteerAgent _ _ _ _) as [[t c'] w2].
    destruct Hs as (-> & -> & ?). split_and!; [done..|by apply answered_twins].
Qed.

Lemma call_tool_named tools name env w i r : call_tool tools name env w i = Some r → name ∈ fst <$> tools.
Proof.
  induction tools as [|[n f] tools IH]; cbn; [done|]. destruct (String.eqb_spec n name) as [->|]; [left|].
  intros ?%IH. by right.
Qed.

(** Only verbs can be called, and the tools that read leave the world as it is. *)
Theorem reading_tools_change_nothing cfg verb env w i t :
  call_tool (NewMCPServer cfg) verb env w i = Some (Some t) →
  verb ∈ RestVerbs ∧
  (verb ∈ ["get_agent"; "list_agents"; "list_providers"; "read_events"; "wait_agent"]%string →
   rn_world t = w ∧ rn_calls t = [] ∧ rn_spawned t = []).
Proof.
  intros E. split.
  - apply call_tool_named in E. destruct (tools_are_verbs cfg) as [Hp _]. by rewrite <-Hp.
  - rewrite !elem_of_cons, elem_of_nil. intros [->|[->|[->|[->|[->|[]]]]]]; cbn in E; destruct i; try done.
    all: unfold looked in E; simplify_eq/=; try done.
    destruct (handleWaitAgent _ _ _); by simplify_eq/=.
Qed.
End Server.
