(* ===== verification/Adapters.v ===== *)
(** * The event adapters (src/adapters)

    Two webhook receivers turn what they are sent into CloudEvents on the broker:
    [Alertmanager] alerts, [Audit] the API server's audit events.  The broker is
    the class [JetStream], with what its documentation says about message ids;
    the network decides how each attempt to publish goes. *)

From Stdlib Require Import Ascii String ZArith.
From S2P Require Import Prelude Json GoTime GoStrings.
From stdpp Require Import base list strings numbers sorting gmap pretty.
Local Open Scope Z_scope.

(** ** Events *)

(** A [time.Time]: its instant and its text in its own zone. *)
Record time : Type := mkTime { tm_instant : Z; tm_text : string }.

(** An event of the CloudEvents library, as far as the adapters set it. *)
Record ce_event : Type := mkCe {
  ev_specversion : string; ev_id : string; ev_type : string; ev_source : string; ev_time : time;
  ev_datacontenttype : string; ev_data : json
}.

(** A [map[string]string], nil or with its keys in order. *)
Definition strings_json (m : option (gmap string string)) : json :=
  match m with
  | None => JNull
  | Some m => JObj ((λ k, (k, JStr (default "" (m !! k)))) <$> merge_sort string_le (elements (dom m)))
  end.

(** ** The broker *)

(** A message of the stream: when it was stored, its id, its subject, its body. *)
Record message : Type := mkMessage { ms_time : Z; ms_id : string; ms_subject : string; ms_body : json }.

Class JetStream (St : Type) : Type := {
  js_store : St → Z → string → string → json → St;
  js_messages : St → list message;
  js_window : Z
}.

(** The stream has a message with this id that is younger than the window. *)
Definition remembers `{JetStream St} (s : St) (t : Z) (id : string) : Prop :=
  ∃ m, m ∈ js_messages s ∧ ms_id m = id ∧ t - ms_time m < js_window.

(** Publisher deduplication: a message whose id the stream remembers is
    acknowledged and dropped; any other is appended. *)
Class JetStreamLaws (St : Type) `{JetStream St} : Prop := {
  js_duplicate s t id subject body : remembers s t id → js_messages (js_store s t id subject body) = js_messages s;
  js_append s t id subject body : ¬ remembers s t id →
    js_messages (js_store s t id subject body) = js_messages s ++ [mkMessage t id subject body]
}.

(** One attempt: not arrived, arrived with its acknowledgement lost, acknowledged. *)
Inductive attempt_out : Type := Unreached | AckLost | Acked.

Record attempt : Type := mkAttempt { at_time : Z; at_out : attempt_out }.

(** The encoding of an event, the CloudEvents library's. *)
Class Encoding : Type := { marshal_ce : ce_event → option json }.

Section Publishing.
Context {St : Type} `{JetStream St} `{Encoding}.

(** [backoff.Retry]: the attempts that are made before the context ends; the
    call fails when none of them was acknowledged. *)
Fixpoint Retry (deadline : Z) (attempts : list attempt) (s : St) (id subject : string) (body : json) : bool * St :=
  match attempts with
  | [] => (false, s)
  | a :: rest =>
      if deadline <=? at_time a then (false, s)
      else
        match at_out a with
        | Unreached => Retry deadline rest s id subject body
        | AckLost => Retry deadline rest (js_store s (at_time a) id subject body) id subject body
        | Acked => (true, js_store s (at_time a) id subject body)
        end
  end.

Definition Publish (deadline : Z) (attempts : list attempt) (s : St) (subject : string) (event : ce_event) : bool * St :=
  match marshal_ce event with
  | None => (false, s)
  | Some data => Retry deadline attempts s (ev_id event) subject data
  end.
End Publishing.

Definition streamName : string := "KAPE_EVENTS".

(** [found] is the broker's answer to the look-up of the stream. *)
Definition NewPublisher (jetstream_ok : bool) (found : string → bool) : res string () :=
  if negb jetstream_ok then Err "creating jetstream context"%string
  else if found streamName then Ok () else Err "stream not found"%string.

(** [load] reads a key pair, [pool] a certificate file: unreadable, without a
    certificate, or a pool. *)
Definition buildTLSConfig (load : string → string → bool) (pool : string → option bool) (certFile keyFile caFile : string) :
    res string () :=
  if negb (load certFile keyFile) then Err "loading client key pair"%string
  else match pool caFile with
       | None => Err "reading CA cert"%string
       | Some false => Err "parsing CA cert"%string
       | Some true => Ok ()
       end.

(** Whether the connection is made with mutual TLS. *)
Definition Connect (load : string → string → bool) (pool : string → option bool) (certFile keyFile caFile : string) :
    res string bool :=
  if negb (String.eqb certFile "") && negb (String.eqb keyFile "") && negb (String.eqb caFile "") then
    match buildTLSConfig load pool certFile keyFile caFile with Ok _ => Ok true | Err e => Err e end
  else Ok false.

(** ** Counters *)

Notation registry := (gmap string Z).

Definition mustOrExisting (reg : registry) (name : string) : registry :=
  match reg !! name with Some _ => reg | None => <[name := 0]> reg end.

Definition Inc (name : string) (reg : registry) : registry := <[name := default 0 (reg !! name) + 1]> reg.

Definition count (reg : registry) (name : string) : Z := default 0 (reg !! name).

(** ** Environment *)

Definition envOr (env : string → string) (key fallback : string) : string :=
  if String.eqb (env key) "" then fallback else env key.

Definition envDuration (env : string → string) (key : string) (defaultSeconds : Z) : Z :=
  if String.eqb (env key) "" then i64_wrap (defaultSeconds * second)
  else match Atoi (env key) with
       | Some n => i64_wrap (n * second)
       | None => i64_wrap (defaultSeconds * second)
       end.

(** What the outside does with one item of a request: the identifier drawn for
    it, the moment its publication starts and the attempts. *)
Record delivery : Type := mkDelivery { dl_uuid : string; dl_start : Z; dl_attempts : list attempt }.

Definition numbered {A} (ds : nat → delivery) (l : list A) : list (A * delivery) := imap (λ i x, (x, ds i)) l.

Module Alertmanager.

Record Alert : Type := mkAlert {
  Status : string; Labels : option (gmap string string); Annotations : option (gmap string string);
  StartsAt : time; EndsAt : time; GeneratorURL : string; Fingerprint : string
}.

Record WebhookPayload : Type := mkPayload { Receiver : string; PStatus : string; Alerts : list Alert }.

Record AlertInput : Type := mkInput {
  in_Subject : string; in_Job : string; in_Alertname : string; in_Labels : option (gmap string string);
  in_Annotations : option (gmap string string); in_StartsAt : time; in_GeneratorURL : string
}.

Definition label (a : Alert) (k : string) : string := default "" (Labels a ≫= lookup k).

Definition Build (uuid : string) (i : AlertInput) : option ce_event :=
  if String.eqb (in_Subject i) "" then None
  else
    Some (mkCe "1.0" uuid (in_Subject i) ("alertmanager/" +:+ in_Job i) (in_StartsAt i) "application/json"
            (JObj [("alertname", JStr (in_Alertname i)); ("annotations", strings_json (in_Annotations i));
                   ("generatorURL", JStr (in_GeneratorURL i)); ("labels", strings_json (in_Labels i));
                   ("startsAt", JStr (tm_text (in_StartsAt i)))]%string)).

Definition input_of (a : Alert) : AlertInput :=
  mkInput (label a "kape_subject") (label a "job") (label a "alertname") (Labels a) (Annotations a) (StartsAt a)
    (GeneratorURL a).

Definition received : string := "kape_alertmanager_events_received_total".
Definition published : string := "kape_alertmanager_events_published_total".
Definition errors : string := "kape_alertmanager_publish_errors_total".

Definition NewHandler (reg : registry) : registry :=
  mustOrExisting (mustOrExisting (mustOrExisting reg received) published) errors.

Section Handler.
Context {St : Type} `{JetStream St} `{Encoding}.

Definition serve_alert (publishTTL : Z) (st : registry * St) (item : Alert * delivery) : registry * St :=
  let '(reg, s) := st in
  let '(a, d) := item in
  let reg := Inc received reg in
  match Build (dl_uuid d) (input_of a) with
  | None => (reg, s)
  | Some event =>
      let '(ok, s') := Publish (dl_start d + publishTTL) (dl_attempts d) s (ev_type event) event in
      (Inc (if ok then published else errors) reg, s')
  end.

(** [ds i] goes with the alert [i]; [None] is a body that does not decode. *)
Definition ServeHTTP (publishTTL : Z) (reg : registry) (s : St) (body : option WebhookPayload) (ds : nat → delivery) :
    Z * registry * St :=
  match body with
  | None => (400, reg, s)
  | Some p =>
      let '(reg', s') := fold_left (serve_alert publishTTL) (numbered ds (Alerts p)) (reg, s) in (200, reg', s')
  end.
End Handler.

(** The sample of [-playground]. *)
Definition playground_payload (now : time) : WebhookPayload :=
  mkPayload "kape-webhook" "firing"
    [mkAlert "firing"
       (Some (list_to_map [("alertname", "MockApiHighErrorRate"); ("namespace", "kape-examples"); ("severity", "critical")]%string))
       (Some (list_to_map [("summary", "Mock API error rate above 10%");
                     ("description", "Error rate is 42% over the last 5 minutes.")]%string))
       now (mkTime 0 "0001-01-01T00:00:00Z") "http://playground/alerts" "playground-001"].

(** Whether the program reports that it published the sample. *)
Definition runPlayground {St} `{JetStream St} `{Encoding} (ttl : Z) (reg : registry) (s : St) (now : time) (d : delivery) : bool * St :=
  let '(code, _, s') := ServeHTTP ttl (NewHandler reg) s (Some (playground_payload now)) (λ _, d) in (code =? 200, s').

End Alertmanager.

Module Audit.

Record UserInfo : Type := mkUser { Username : string; UID : string; Groups : list string }.

Record ObjectRef : Type := mkRef {
  Resource : string; Namespace : string; Name : string; APIVersion : string; APIGroup : string;
  ResourceVersion : string; Subresource : string
}.

Record StatusInfo : Type := mkStatus { Code : Z; SStatus : string }.

Record Event : Type := mkEvent {
  AuditID : string; Stage : string; RequestURI : string; Verb : string; User : UserInfo; SourceIPs : list string;
  UserAgent : string; Ref : option ObjectRef; ResponseStatus : option StatusInfo;
  RequestObject : option RawMessage; ResponseObject : option RawMessage;
  RequestReceivedTimestamp : time; StageTimestamp : time
}.

Definition subject : string := "kape.events.security.audit".

Definition omitempty (k v : string) : fields := if String.eqb v "" then [] else [(k, JStr v)].
Definition omitnil (k : string) (l : list string) : fields := match l with [] => [] | _ => [(k, JArr (JStr <$> l))] end.

Definition user_json (u : UserInfo) : json :=
  JObj (("username"%string, JStr (Username u)) :: omitempty "uid" (UID u) ++ omitnil "groups" (Groups u)).

(** An absent object is the document [null]. *)
Definition object_json (o : option RawMessage) : option json :=
  match o with None => Some JNull | Some r => marshal_raw r end.

Definition BuildAudit (ev : Event) (clusterName : string) : option ce_event :=
  let field (f : ObjectRef → string) := match Ref ev with Some r => f r | None => "" end in
  let responseCode := match ResponseStatus ev with Some st => Code st | None => 0 end in
  match object_json (RequestObject ev), object_json (ResponseObject ev) with
  | Some reqObj, Some respObj =>
      Some (mkCe "1.0" (AuditID ev) subject ("k8s-apiserver/" +:+ clusterName) (RequestReceivedTimestamp ev)
              "application/json"
              (JObj ([("verb", JStr (Verb ev)); ("resource", JStr (field Resource))]%string
                 ++ omitempty "subresource" (field Subresource)
                 ++ [("namespace", JStr (field Namespace)); ("name", JStr (field Name)); ("user", user_json (User ev))]%string
                 ++ omitempty "userAgent" (UserAgent ev)
                 ++ [("responseCode", JInt responseCode); ("requestObject", reqObj); ("responseObject", respObj);
                     ("stage", JStr (Stage ev))]%string
                 ++ omitnil "sourceIPs" (SourceIPs ev))))
  | _, _ => None
  end.

Definition received : string := "kape_audit_events_received_total".
Definition published : string := "kape_audit_events_published_total".
Definition errors : string := "kape_audit_publish_errors_total".

Definition NewHandler (reg : registry) : registry :=
  mustOrExisting (mustOrExisting (mustOrExisting reg received) published) errors.

Section Handler.
Context {St : Type} `{JetStream St} `{Encoding}.

Definition serve_event (publishTTL : Z) (clusterName : string) (st : registry * St) (item : Event * delivery) : registry * St :=
  let '(reg, s) := st in
  let '(ev, d) := item in
  let reg := Inc received reg in
  match BuildAudit ev clusterName with
  | None => (reg, s)
  | Some event =>
      let '(ok, s') := Publish (dl_start d + publishTTL) (dl_attempts d) s subject event in
      (Inc (if ok then published else errors) reg, s')
  end.

Definition ServeHTTP (publishTTL : Z) (clusterName : string) (reg : registry) (s : St) (body : option (list Event))
    (ds : nat → delivery) : Z * registry * St :=
  match body with
  | None => (400, reg, s)
  | Some items =>
      let '(reg', s') := fold_left (serve_event publishTTL clusterName) (numbered ds items) (reg, s) in (200, reg', s')
  end.
End Handler.

End Audit.

(** ** One publication *)

Section Once.
Context {St : Type} `{JetStreamLaws St} `{Encoding}.

(** No message of the stream has this id. *)
Definition unused (s : St) (id : string) : Prop := ∀ m, m ∈ js_messages s → ms_id m ≠ id.

(** The attempts begin with the publication, and the time it has does not exceed
    the window. *)
Definition timely (ttl : Z) (d : delivery) : Prop :=
  ttl ≤ js_window ∧ Forall (λ a, dl_start d ≤ at_time a) (dl_attempts d).

Lemma unused_forgets s id t : unused s id → ¬ remembers s t id.
Proof. intros Hu (m & Hm & Hid & _). by apply (Hu m). Qed.

(** Once a message is there, the later attempts add nothing. *)
Lemma Retry_remembered deadline attempts s id subject body ok s' :
  (∀ a, a ∈ attempts → at_time a < deadline → remembers s (at_time a) id) →
  Retry deadline attempts s id subject body = (ok, s') → js_messages s' = js_messages s.
Proof.
  revert s. induction attempts as [|a rest IH]; intros s Hr; cbn [Retry]; [by intros [= _ <-]|].
  destruct (Z.leb_spec deadline (at_time a)) as [Hd|Hd]; [by intros [= _ <-]|].
  assert (Ha : remembers s (at_time a) id) by (apply Hr; [set_solver|done]).
  pose proof (js_duplicate _ _ _ subject body Ha) as Hdup.
  destruct (at_out a).
  - apply IH. intros b Hb. apply Hr. set_solver.
  - intros Hs'. apply IH in Hs'; [by rewrite Hs', Hdup|].
    intros b Hb Hbd. destruct (Hr b ltac:(set_solver) Hbd) as (m & Hm & ?). exists m. by rewrite Hdup.
  - by intros [= _ <-].
Qed.

Lemma Retry_fresh deadline start attempts s id subject body ok s' :
  deadline ≤ start + js_window → Forall (λ a, start ≤ at_time a) attempts → unused s id →
  Retry deadline attempts s id subject body = (ok, s') →
  (js_messages s' = js_messages s ∧ ok = false) ∨
  ∃ t, start ≤ t ∧ t < deadline ∧ js_messages s' = js_messages s ++ [mkMessage t id subject body].
Proof.
  intros Hw Hf Hu. revert Hf. induction attempts as [|a rest IH]; intros Hf; cbn [Retry]; [intros [= <- <-]; auto|].
  inversion Hf as [|? ? Ha Hf']; subst.
  destruct (Z.leb_spec deadline (at_time a)) as [Hd|Hd]; [intros [= <- <-]; auto|].
  pose proof (js_append _ (at_time a) _ subject body (unused_forgets _ _ (at_time a) Hu)) as Happ.
  destruct (at_out a).
  - by apply IH.
  - intros Hs'. right. exists (at_time a). apply Retry_remembered in Hs'; [by rewrite Hs', Happ|].
    intros b Hb Hbd. rewrite Forall_forall in Hf'. specialize (Hf' b Hb).
    eexists. rewrite Happ. split; [apply elem_of_app; right; by apply list_elem_of_singleton|]. simpl. split; [done|lia].
  - intros [= <- <-]. right. by exists (at_time a).
Qed.

Lemma js_store_cases s t id subject body :
  js_messages (js_store s t id subject body) = js_messages s ∧ (∃ m, m ∈ js_messages s ∧ ms_id m = id) ∨
  js_messages (js_store s t id subject body) = js_messages s ++ [mkMessage t id subject body].
Proof.
  destruct (decide (Exists (λ m, ms_id m = id ∧ t - ms_time m < js_window) (js_messages s))) as [He|He];
    rewrite Exists_exists in He.
  - left. split; [by apply js_duplicate|]. destruct He as (m & Hm & Hid & _). by exists m.
  - right. by apply js_append.
Qed.

(** Whatever the times: the attempts add copies of the message, and a message that
    was acknowledged is there. *)
Lemma Retry_adds deadline attempts s id subject body ok s' :
  Retry deadline attempts s id subject body = (ok, s') →
  ∃ g, js_messages s' = js_messages s ++ g ∧
    Forall (λ m, ms_id m = id ∧ ms_subject m = subject ∧ ms_body m = body) g ∧
    (ok = true → ∃ m, m ∈ js_messages s' ∧ ms_id m = id).
Proof.
  revert s. induction attempts as [|a rest IH]; intros s; cbn [Retry].
  { intros [= <- <-]. exists []. by rewrite app_nil_r. }
  destruct (deadline <=? at_time a); [intros [= <- <-]; exists []; by rewrite app_nil_r|].
  pose proof (js_store_cases s (at_time a) id subject body) as Hc. destruct (at_out a).
  - apply IH.
  - intros (g & Hm & Hg & Hok)%IH. destruct Hc as [[Hc _]|Hc]; rewrite Hc in Hm; [eauto|].
    eexists (_ :: g). split; [by rewrite Hm, <-app_assoc|]. split; [by constructor|done].
  - intros [= <- <-]. destruct Hc as [[Hc Hold]|Hc]; rewrite Hc; [exists []; by rewrite app_nil_r|].
    eexists [_]. split; [done|]. split; [by repeat constructor|]. intros _.
    eexists. split; [apply elem_of_app; right; by apply list_elem_of_singleton|done].
Qed.
End Once.

(** ** A request *)

Section Batch.
Context {St : Type} `{JetStreamLaws St} `{Encoding}.
Context (ttl : Z) (clusterName : string).

Notation serve := (fold_left (Audit.serve_event ttl clusterName)).

Lemma numbered_cons {A} (ds : nat → delivery) (x : A) l : numbered ds (x :: l) = (x, ds 0%nat) :: numbered (ds ∘ S) l.
Proof. done. Qed.

Lemma count_Inc reg k k' : count (Inc k reg) k' = count reg k' + (if decide (k = k') then 1 else 0).
Proof.
  unfold count, Inc. case_decide as Hk; [subst; by rewrite lookup_insert_eq|]. rewrite lookup_insert_ne by done. lia.
Qed.

Ltac counters := rewrite ?count_Inc; repeat first [rewrite decide_True by done | rewrite decide_False by done].

(** The message stands for the event. *)
Definition carries (m : message) (ev : Audit.Event) : Prop :=
  ∃ ce, Audit.BuildAudit ev clusterName = Some ce ∧ marshal_ce ce = Some (ms_body m) ∧
    ms_id m = Audit.AuditID ev ∧ ms_subject m = Audit.subject.

Lemma BuildAudit_id ev ce : Audit.BuildAudit ev clusterName = Some ce → ev_id ce = Audit.AuditID ev.
Proof.
  unfold Audit.BuildAudit. destruct (Audit.object_json (Audit.RequestObject ev)); [|done].
  destruct (Audit.object_json (Audit.ResponseObject ev)); [|done]. by intros [= <-].
Qed.

Lemma app_eq_self_nil {A} (l g : list A) : l ++ g = l → g = [].
Proof. intros E. apply (f_equal length) in E. rewrite length_app in E. destruct g; simpl in E; [done|lia]. Qed.

(** One event: what the stream and the counters gain. *)
Lemma serve_event_spec reg s ev d reg' s' :
  unused s (Audit.AuditID ev) → Audit.serve_event ttl clusterName (reg, s) (ev, d) = (reg', s') →
  count reg' Audit.received = count reg Audit.received + 1 ∧
  ∃ g, js_messages s' = js_messages s ++ g ∧ Forall (λ m, carries m ev) g ∧ (timely ttl d → (length g ≤ 1)%nat) ∧
    ((count reg' Audit.published = count reg Audit.published + 1 ∧ g ≠ [] ∧ count reg' Audit.errors = count reg Audit.errors) ∨
     (count reg' Audit.published = count reg Audit.published ∧ count reg Audit.errors ≤ count reg' Audit.errors ≤ count reg Audit.errors + 1)).
Proof.
  intros Hu. unfold Audit.serve_event. destruct (Audit.BuildAudit ev clusterName) as [ce|] eqn:Eb.
  2:{ intros [= <- <-]. counters. split; [lia|]. exists []. rewrite app_nil_r. split_and!; [done..|simpl; lia|right; lia]. }
  pose proof (BuildAudit_id _ _ Eb) as Hid. unfold Publish.
  destruct (marshal_ce ce) as [body|] eqn:Em.
  2:{ intros [= <- <-]. counters. split; [lia|]. exists []. rewrite app_nil_r. split_and!; [done..|simpl; lia|right; lia]. }
  destruct (Retry _ _ _ _ _ _) as [ok s1] eqn:Er. intros [= <- <-]. rewrite Hid in Er.
  split; [destruct ok; counters; lia|]. destruct (Retry_adds _ _ _ _ _ _ _ _ Er) as (g & Hm & Hg & Hok).
  exists g. split; [done|]. split_and!.
  - eapply Forall_impl; [exact Hg|]. intros m (Hmi & Hms & Hmb). exists ce. by rewrite Hmb.
  - intros [Hw Hf]. apply (Retry_fresh _ (dl_start d)) in Er as [[Hm' _]|(t & _ & _ & Hm')]; [|.. |lia|done|done].
    + rewrite Hm in Hm'. apply app_eq_self_nil in Hm' as ->. simpl. lia.
    + rewrite Hm in Hm'. apply app_inv_head in Hm' as ->. simpl. lia.
  - destruct ok; counters; [left|right; lia]. split_and!; [lia| |lia]. intros ->. rewrite app_nil_r in Hm.
    destruct (Hok eq_refl) as (m & Hin & Hidm). rewrite Hm in Hin. by apply (Hu m Hin).
Qed.

(** The events for which the counter of the published ones is raised. *)
Fixpoint counted (st : registry * St) (l : list (Audit.Event * delivery)) : list Audit.Event :=
  match l with
  | [] => []
  | (ev, d) :: rest =>
      let st' := Audit.serve_event ttl clusterName st (ev, d) in
      (if decide (count st'.1 Audit.published = count st.1 Audit.published) then [] else [ev]) ++ counted st' rest
  end.

Lemma counted_items st (ds : nat → delivery) items ev : ev ∈ counted st (numbered ds items) → ev ∈ items.
Proof.
  revert ds st. induction items as [|x items IH]; intros ds st; [done|]. rewrite numbered_cons. cbn [counted].
  intros [Hin|Hin]%elem_of_app; [|right; by eapply IH].
  case_decide; [by apply elem_of_nil in Hin|]. apply list_elem_of_singleton in Hin as ->. left.
Qed.

Lemma Forall2_impl_r {A B} (P Q : A → B → Prop) l k :
  Forall2 P l k → (∀ x y, y ∈ k → P x y → Q x y) → Forall2 Q l k.
Proof.
  induction 1 as [|x y l k Hxy _ IH]; intros Hi; constructor; [apply Hi; [left|done]|].
  apply IH. intros x' y' Hy. apply Hi. by right.
Qed.

(** C40. What the API server posts arrives.  A batch of events with new ids of their
    own is answered 200, and however the network loses messages and
    acknowledgements the stream keeps what it had and gains, event by event in
    their order, messages that carry the event.  An event that is counted as
    published, which is as many as the counter is raised by, has gained at least
    one.  An event gains at most one if the time its publication may take does not
    exceed the broker's duplicate window, and its attempts are not before its
    start. *)
Theorem audit_batch_stored items ds reg s code reg' s' :
  NoDup (Audit.AuditID <$> items) → (∀ ev, ev ∈ items → unused s (Audit.AuditID ev)) →
  Audit.ServeHTTP ttl clusterName reg s (Some items) ds = (code, reg', s') →
  let cs := counted (reg, s) (numbered ds items) in
  code = 200 ∧ count reg' Audit.received = count reg Audit.received + Z.of_nat (length items) ∧
  count reg' Audit.published = count reg Audit.published + Z.of_nat (length cs) ∧
  count reg' Audit.errors - count reg Audit.errors ≤ Z.of_nat (length items) - Z.of_nat (length cs) ∧
  ∃ gains, js_messages s' = js_messages s ++ concat gains ∧
    Forall2 (λ g ev, Forall (λ m, carries m ev) g ∧ (ev ∈ cs → g ≠ [])) gains items ∧
    (∀ i g, gains !! i = Some g → timely ttl (ds i) → (length g ≤ 1)%nat).
Proof.
  unfold Audit.ServeHTTP. intros Hnd Hu.
  destruct (serve (numbered ds items) (reg, s)) as [reg1 s1] eqn:E. intros [= <- <- <-]. split; [done|].
  revert ds reg s Hnd Hu E. induction items as [|ev items IH]; intros ds reg s Hnd Hu E.
  { injection E as <- <-. split_and!; simpl; try lia. exists []. rewrite app_nil_r. split_and!; [done|constructor|by intros []]. }
  rewrite numbered_cons in E |- *. cbn [fold_left counted] in E |- *.
  destruct (Audit.serve_event ttl clusterName (reg, s) (ev, ds 0%nat)) as [reg2 s2] eqn:Ee.
  destruct (serve_event_spec _ _ _ _ _ _ (Hu ev ltac:(set_solver)) Ee) as (Hrc & g & Hm & Hg & Hone & Hc).
  rewrite fmap_cons in Hnd. apply NoDup_cons in Hnd as [Hnin Hnd].
  destruct (IH (ds ∘ S) reg2 s2 Hnd) as (Hrc2 & Hp2 & He2 & gains & Hm2 & Hf & Hone2); [|done|].
  { intros ev' Hev' m. rewrite Hm. intros [Hin|Hin]%elem_of_app; [by apply (Hu ev'); [set_solver|]|].
    rewrite Forall_forall in Hg. destruct (Hg m Hin) as (ce & _ & _ & Hid & _). rewrite Hid. intros Heq.
    apply Hnin. rewrite Heq. by apply list_elem_of_fmap_2. }
  cbn [fst]. set (cs := counted (reg2, s2) _) in *. rewrite length_app.
  split; [rewrite Hrc2, Hrc; simpl length; lia|].
  split; [case_decide; simpl length; lia|]. split; [case_decide; simpl length; lia|].
  exists (g :: gains). split; [cbn [concat]; by rewrite Hm2, Hm, app_assoc|]. split.
  - constructor; [split; [done|]|].
    + intros Hin. destruct Hc as [(_ & Hne & _)|[Hsame _]]; [done|]. rewrite decide_True in Hin by done.
      exfalso. apply Hnin, list_elem_of_fmap_2. by eapply counted_items.
    + eapply Forall2_impl_r; [exact Hf|]. intros g' ev' Hev' [Hca Hco]. split; [done|].
      intros [Hin|Hin]%elem_of_app; [|by apply Hco]. exfalso. apply Hnin.
      case_decide; [by apply elem_of_nil in Hin|]. apply list_elem_of_singleton in Hin as <-. by apply list_elem_of_fmap_2.
  - intros [|i] g' Hi; [by injection Hi as <-|]. by apply (Hone2 i).
Qed.

(** Posting the same events again, while the broker remembers them, is answered
    200 and adds nothing to the stream. *)
Theorem audit_repost_adds_nothing items ds reg s code reg' s' :
  (∀ i ev a, items !! i = Some ev → a ∈ dl_attempts (ds i) → remembers s (at_time a) (Audit.AuditID ev)) →
  Audit.ServeHTTP ttl clusterName reg s (Some items) ds = (code, reg', s') →
  code = 200 ∧ js_messages s' = js_messages s.
Proof.
  unfold Audit.ServeHTTP. intros Hr. destruct (serve (numbered ds items) (reg, s)) as [reg1 s1] eqn:E.
  intros [= <- <- <-]. split; [done|].
  revert ds reg s Hr E. induction items as [|ev items IH]; intros ds reg s Hr E; [by injection E as _ <-|].
  rewrite numbered_cons in E. cbn [fold_left] in E.
  destruct (Audit.serve_event ttl clusterName (reg, s) (ev, ds 0%nat)) as [reg2 s2] eqn:Ee.
  assert (Hm : js_messages s2 = js_messages s).
  { unfold Audit.serve_event in Ee. destruct (Audit.BuildAudit ev clusterName) as [ce|] eqn:Eb; [|by injection Ee as _ <-].
    unfold Publish in Ee. destruct (marshal_ce ce); [|by injection Ee as _ <-].
    destruct (Retry _ _ _ _ _ _) as [ok s3] eqn:Er. injection Ee as _ <-. rewrite (BuildAudit_id _ _ Eb) in Er.
    eapply Retry_remembered; [|exact Er]. intros a Ha _. by apply (Hr 0%nat ev a). }
  rewrite <-Hm. eapply IH; [|exact E]. intros i ev' a Hi Ha.
  destruct (Hr (S i) ev' a Hi Ha) as (m & ? & ?). exists m. by rewrite Hm.
Qed.
End Batch.

(** ** Alerts *)

Section Alerts.
Context {St : Type} `{JetStreamLaws St} `{Encoding}.

(** The sample of the playground names no subject: the program reports that it
    published it, and nothing was. *)
Theorem playground_publishes_nothing ttl reg (s : St) now d :
  Alertmanager.runPlayground ttl reg s now d = (true, s).
Proof. reflexivity. Qed.

(** An alert that names no subject is skipped: the caller is told 200 and the
    stream is as before. *)
Theorem alert_without_subject_skipped ttl reg (s : St) p ds :
  Forall (λ a, Alertmanager.label a "kape_subject" = ""%string) (Alertmanager.Alerts p) →
  ∃ reg', Alertmanager.ServeHTTP ttl reg s (Some p) ds = (200, reg', s).
Proof.
  unfold Alertmanager.ServeHTTP. generalize (Alertmanager.Alerts p). intros l Hf.
  assert (Hs : ∃ reg', fold_left (Alertmanager.serve_alert ttl) (numbered ds l) (reg, s) = (reg', s)).
  { revert ds reg. induction Hf as [|a l Ha _ IH]; intros ds reg; [by exists reg|].
    rewrite numbered_cons. cbn [fold_left]. unfold Alertmanager.serve_alert at 2, Alertmanager.Build.
    cbn [Alertmanager.input_of Alertmanager.in_Subject]. rewrite Ha. apply IH. }
  destruct Hs as [reg' Hs]. exists reg'. by rewrite Hs.
Qed.
End Alerts.

(** ** A broker *)

Module Samples.

Record list_stream : Type := mkStream { ls_messages : list message }.

Definition ls_window : Z := 60 * second.

Definition ls_store (s : list_stream) (t : Z) (id subject : string) (body : json) : list_stream :=
  if bool_decide (Exists (λ m, ms_id m = id ∧ t - ms_time m < ls_window) (ls_messages s)) then s
  else mkStream (ls_messages s ++ [mkMessage t id subject body]).

#[export] Instance ls_jetstream : JetStream list_stream :=
  {| js_store := ls_store; js_messages := ls_messages; js_window := ls_window |}.

#[export] Instance ls_laws : JetStreamLaws list_stream.
Proof.
  assert (He : ∀ s t id, remembers s t id ↔ Exists (λ m, ms_id m = id ∧ t - ms_time m < ls_window) (ls_messages s)).
  { intros s t id. by rewrite Exists_exists. }
  split; intros s t id subject body; rewrite He; simpl; unfold ls_store; intros Hr.
  - by rewrite bool_decide_true.
  - by rewrite bool_decide_false.
Qed.

#[export] Instance plain : Encoding := {| marshal_ce := λ e, Some (ev_data e) |}.

Definition noon : time := mkTime 0 "1970-01-01T00:00:00Z".

Definition read_secret (stage id : string) : Audit.Event :=
  Audit.mkEvent id stage "" "get" (Audit.mkUser "admin" "" []) [] ""
    (Some (Audit.mkRef "secrets" "prod" "db-credentials" "" "" "" "")) None None None noon noon.

(** The first attempt is lost with its acknowledgement, the second is acknowledged. *)
Definition bumpy (i : nat) : delivery :=
  mkDelivery "" (Z.of_nat i * second) [mkAttempt (Z.of_nat i * second) AckLost; mkAttempt (Z.of_nat i * second + 5) Acked].

Lemma bumpy_timely i : timely (60 * second) (bumpy i).
Proof. split; [done|]. repeat constructor; simpl; lia. Qed.

Lemma triple_eta {A B C} (x : A * B * C) : x = (x.1.1, x.1.2, x.2).
Proof. by destruct x as [[??]?]. Qed.

Lemma audit_batch_stored_witness :
  let items := [read_secret "ResponseComplete" "a"; read_secret "ResponseComplete" "b"] in
  let out := Audit.ServeHTTP (60 * second) "prod" ∅ (mkStream []) (Some items) bumpy in
  out.1.1 = 200 ∧ count out.1.2 Audit.published = 2 ∧
  ∃ gains, js_messages out.2 = [] ++ concat gains ∧ length gains = 2%nat ∧ Forall (λ g, length g ≤ 1)%nat gains.
Proof.
  intros items out. assert (Hp : count out.1.2 Audit.published = 2) by (vm_compute; reflexivity).
  destruct (audit_batch_stored (60 * second) "prod" items bumpy ∅ (mkStream []) out.1.1 out.1.2 out.2)
    as (Hc & _ & _ & _ & gains & Hm & Hf & Hone).
  - apply (bool_decide_unpack _). vm_compute. exact I.
  - intros ev _ m Hm. by apply elem_of_nil in Hm.
  - exact (triple_eta out).
  - split; [exact Hc|]. split; [exact Hp|]. exists gains. split; [exact Hm|].
    split; [exact (Forall2_length _ _ _ Hf)|]. apply Forall_lookup. intros i g Hi. exact (Hone i g Hi (bumpy_timely i)).
Defined.

Lemma audit_repost_adds_nothing_witness :
  let s := mkStream [mkMessage 0 "a" Audit.subject JNull] in
  let out := Audit.ServeHTTP (60 * second) "prod" ∅ s (Some [read_secret "ResponseComplete" "a"]) bumpy in
  out.1.1 = 200 ∧ js_messages out.2 = js_messages s.
Proof.
  intros s out.
  apply (audit_repost_adds_nothing (60 * second) "prod" [read_secret "ResponseComplete" "a"] bumpy ∅ s
    out.1.1 out.1.2 out.2); [|exact (triple_eta out)].
  intros [|i] ev a [= <-] Ha. exists (mkMessage 0 "a" Audit.subject JNull). split; [by apply list_elem_of_singleton|].
  split; [reflexivity|]. cbn [bumpy dl_attempts] in Ha. apply elem_of_cons in Ha as [->|Ha]; [reflexivity|].
  apply list_elem_of_singleton in Ha as ->. reflexivity.
Defined.

Lemma alert_without_subject_skipped_witness :
  ∃ reg', Alertmanager.ServeHTTP (60 * second) ∅ (mkStream []) (Some (Alertmanager.playground_payload noon)) bumpy =
    (200, reg', mkStream []).
Proof.
  apply (alert_without_subject_skipped (60 * second) ∅ (mkStream []) (Alertmanager.playground_payload noon) bumpy).
  by repeat constructor.
Defined.

(** The API server reports a request when it arrives and when it is answered,
    under one audit id: both events are counted as published, and the broker
    keeps only the first, which has no response. *)
Theorem stages_collapse :
  let '(code, reg, s) := Audit.ServeHTTP (60 * second) "prod" (Audit.NewHandler ∅) (mkStream [])
      (Some [read_secret "RequestReceived" "a"; read_secret "ResponseComplete" "a"]) bumpy in
  code = 200 ∧ count reg Audit.published = 2 ∧ count reg Audit.errors = 0 ∧
  ∃ m, js_messages s = [m] ∧ carries "prod" m (read_secret "RequestReceived" "a").
Proof.
  split; [vm_compute; reflexivity|]. split; [vm_compute; reflexivity|]. split; [vm_compute; reflexivity|].
  eexists. split; [vm_compute; reflexivity|]. eexists. by split_and!.
Qed.

Definition fire : Alertmanager.Alert :=
  Alertmanager.mkAlert "firing" (Some (list_to_map [("kape_subject", "kape.events.cost.karpenter")]%string)) None noon noon "" "".

(** An alert that is sent twice is on the stream twice: its id is drawn anew. *)
Theorem alert_repost_duplicates :
  let '(_, _, s) := Alertmanager.ServeHTTP (60 * second) ∅ (mkStream [])
      (Some (Alertmanager.mkPayload "" "" [fire; fire]))
      (λ i, mkDelivery (pretty i) 0 [mkAttempt 1 Acked]) in
  length (js_messages s) = 2%nat ∧ ∃ body, ms_body <$> js_messages s = [body; body].
Proof. vm_compute. split; [reflexivity|]. by eexists. Qed.

(** A time-out given in seconds that does not fit is negative, and every
    publication ends before its first attempt. *)
Theorem timeout_overflows :
  envDuration (λ _, "9300000000"%string) "PUBLISH_TIMEOUT_SECONDS" 60 < 0.
Proof. vm_compute. reflexivity. Qed.
End Samples.
