(* ===== verification/Dashboard.v ===== *)
(** * The dashboard (src/dashboard/app) over the task service

    The task page keeps a map of the tasks it knows, filled by the page the
    server rendered, by older pages and by the live stream, and shows its values
    ordered by arrival.  [feed] is the state of the component [TasksIndex]
    (routes/tasks._index.tsx): its refs and its [useState] values.  The hook
    [useEventSource] holds the last text of each stream; [arrive] replaces it and
    [commit] runs the effects of a render, so that a text replaced before a render
    is seen by no effect.  The requests the pages send (lib/api.server.ts) are
    written as [URLSearchParams] writes them and read as the handlers of
    [TaskHttp] read them.  [JSON.parse] and the printer of the stream are
    arguments.  The loader of the task page names [listTasks] without importing it;
    [loader_params] is what it means to ask. *)

From Stdlib Require Import Ascii String ZArith.
From S2P Require Import Prelude Json GoTime GoStrings Tasks TaskHttp.
From stdpp Require Import base list strings numbers sorting gmap pretty.
Local Open Scope Z_scope.

(** ** Query strings *)

Definition hex_digit (n : nat) : ascii := ascii_of_nat (if (n <? 10)%nat then 48 + n else 55 + n).

Definition hex_value (c : ascii) : option nat :=
  let n := nat_of_ascii c in
  if ((48 <=? n) && (n <=? 57))%nat then Some (n - 48)%nat
  else if ((65 <=? n) && (n <=? 70))%nat then Some (n - 55)%nat
  else if ((97 <=? n) && (n <=? 102))%nat then Some (n - 87)%nat
  else None.

Definition unreserved (c : ascii) : bool :=
  in_range "a" "z" c || in_range "A" "Z" c || in_range "0" "9" c || existsb (Ascii.eqb c) (chars "*-._").

(** One byte in the application/x-www-form-urlencoded serializer. *)
Definition form_byte (c : ascii) : list ascii :=
  if Ascii.eqb c " " then ["+"%char]
  else if unreserved c then [c]
  else let n := nat_of_ascii c in ["%"%char; hex_digit (n / 16); hex_digit (n mod 16)].

Definition form_text (s : string) : list ascii := flat_map form_byte (chars s).

Definition form_pair (p : string * string) : list ascii := form_text p.1 ++ "="%char :: form_text p.2.

(** [URLSearchParams.toString]. *)
Fixpoint form_pairs (l : list (string * string)) : list ascii :=
  match l with
  | [] => []
  | [p] => form_pair p
  | p :: l' => form_pair p ++ "&"%char :: form_pairs l'
  end.

(** [url.QueryUnescape]. *)
Fixpoint QueryUnescape (cs : list ascii) : option (list ascii) :=
  match cs with
  | [] => Some []
  | c :: r =>
      if Ascii.eqb c "%" then
        match r with
        | a :: b :: r' =>
            h ← hex_value a; l ← hex_value b; t ← QueryUnescape r';
            Some (ascii_of_nat (16 * h + l) :: t)
        | _ => None
        end
      else t ← QueryUnescape r; Some ((if Ascii.eqb c "+" then " "%char else c) :: t)
  end.

(** [strings.Cut] at one character. *)
Fixpoint cut (c : ascii) (cs : list ascii) : list ascii * list ascii :=
  match cs with
  | [] => ([], [])
  | x :: r => if Ascii.eqb x c then ([], r) else let '(a, b) := cut c r in (x :: a, b)
  end.

(** One piece of [url.parseQuery]: a piece with a semicolon or a bad escape is
    left out. *)
Definition parse_piece (cs : list ascii) : option (string * string) :=
  if existsb (Ascii.eqb ";") cs then None
  else match cs with
       | [] => None
       | _ => let '(k, v) := cut "=" cs in
              k ← QueryUnescape k; v ← QueryUnescape v;
              Some (string_of_list_ascii k, string_of_list_ascii v)
       end.

Definition parseQuery (cs : list ascii) : list (string * string) := omap parse_piece (split_at "&" cs []).

(** [Values.Get]. *)
Fixpoint Values_Get (k : string) (l : list (string * string)) : string :=
  match l with
  | [] => ""
  | (k', v) :: l' => if String.eqb k k' then v else Values_Get k l'
  end.

(** ** lib/api.server.ts *)

Record ListTasksParams : Type := mkListParams {
  lp_handler : option string; lp_status : option string; lp_since : option string;
  lp_sort : option string; lp_limit : option N; lp_cursor : option string
}.

(** A parameter that is absent or empty is not set. *)
Definition set_param (k : string) (v : option string) : list (string * string) :=
  match v with
  | Some v => if String.eqb v "" then [] else [(k, v)]
  | None => []
  end.

Definition list_params (p : ListTasksParams) : list (string * string) :=
  set_param "handler" (lp_handler p) ++ set_param "status" (lp_status p) ++ set_param "since" (lp_since p)
  ++ set_param "sort" (lp_sort p)
  ++ (match lp_limit p with
      | Some n => if (n =? 0)%N then [] else [("limit", pretty n)]
      | None => []
      end)
  ++ set_param "cursor" (lp_cursor p).

(** The path of the request. *)
Definition listTasks (p : ListTasksParams) : list ascii :=
  match form_pairs (list_params p) with
  | [] => chars "/tasks"
  | qs => chars "/tasks?" ++ qs
  end.

(** The parameters the loader of the task page asks with; [q] is the query of the
    page's own address. *)
Definition loader_params (q : string → option string) : ListTasksParams :=
  mkListParams (q "handler") (q "status") (q "since") (Some "received_at:desc") (Some 50%N) (q "cursor").

(** What the handler of the list reads from a request target; [rfc] is
    [time.Parse] with the layout RFC 3339. *)
Definition read_since (rfc : string → option Z) (v : string) : query_time :=
  if String.eqb v "" then QAbsent else match rfc v with Some t => QTime t | None => QBad end.

Definition read_query (rfc : string → option Z) (target : list ascii) : list_query :=
  let q := parseQuery (snd (cut "?" target)) in
  mkQuery (Values_Get "handler" q) (Values_Get "status" q) (read_since rfc (Values_Get "since" q))
    (Values_Get "sort" q) (Values_Get "limit" q) (Values_Get "cursor" q).

(** ** The filters and the actions offered (lib/utils.ts, components/FilterBar.tsx) *)

Definition TIME_RANGES : list string := ["15m"; "1h"; "6h"; "24h"].

Definition STATUS_OPTIONS : list string :=
  [ "Processing"; "Completed"; "Failed"; "SchemaValidationFailed"; "ActionError";
    "UnprocessableEvent"; "Timeout"; "Retried"; "PendingApproval" ].

Definition canTimeout (status : string) : bool := String.eqb status "Processing".

Definition canRetry (status : string) : bool :=
  String.eqb status "ActionError" || String.eqb status "Failed"
  || String.eqb status "SchemaValidationFailed" || String.eqb status "Timeout".

(** The requests behind the two time-out buttons. *)
Definition timeout_body : UpdateStatusRequest := mkUpdateReq "Timeout" None None None no_error None.

Definition executeTimeout `{Postgres} (tr : update_trouble) (w1 w2 : DB → DB) (id : string) (db : DB) :
    DB * response * list Task :=
  UpdateTaskStatus tr w1 w2 id (Some timeout_body) db.

Definition executeBulkTimeout `{Postgres} (tr : option trouble) (now : Z) (selected : list string) (db : DB) :
    DB * response * list Task :=
  BulkUpdateStatus tr now (Some (selected, "Timeout"%string)) db.

(** A set of selected ids, in the order of insertion. *)
Definition toggleSelect (id : string) (selected : list string) : list string :=
  if decide (id ∈ selected) then filter (λ x, x ≠ id) selected else selected ++ [id].

(** ** The stream as the browser reads it *)

Section Stream.
Variable marshal : genTask → list ascii.

(** What the stream handler of the service writes for a task. *)
Definition write_frame (t : genTask) : list ascii := chars "data: " ++ marshal t ++ ["010"; "010"]%char.

(** The buffers of an event stream: the type and the data lines. *)
Record es_state : Type := mkES { es_type : list ascii; es_data : list (list ascii) }.

Definition strip_space (v : list ascii) : list ascii :=
  match v with c :: r => if Ascii.eqb c " " then r else v | [] => [] end.

Definition es_field (line : list ascii) (s : es_state) : es_state :=
  let '(k, v) := cut ":" line in
  let v := strip_space v in
  if String.eqb (string_of_list_ascii k) "event" then mkES v (es_data s)
  else if String.eqb (string_of_list_ascii k) "data" then mkES (es_type s) (es_data s ++ [v])
  else s.

Fixpoint join_lines (l : list (list ascii)) : list ascii :=
  match l with [] => [] | [a] => a | a :: l' => a ++ "010"%char :: join_lines l' end.

(** An empty line dispatches the data, under the type of the event or under
    [message]. *)
Fixpoint es_lines (lines : list (list ascii)) (s : es_state) : list (string * list ascii) :=
  match lines with
  | [] => []
  | [] :: r =>
      match es_data s with
      | [] => es_lines r (mkES [] [])
      | d => (match es_type s with [] => "message" | ty => string_of_list_ascii ty end, join_lines d)
             :: es_lines r (mkES [] [])
      end
  | line :: r => es_lines r (es_field line s)
  end.

(** The events of a text: its complete lines. *)
Definition EventSource (text : list ascii) : list (string * list ascii) :=
  es_lines (removelast (split_at "010" text [])) (mkES [] []).

(** The texts a listener for [event] gets ([useEventSource]). *)
Definition heard (event : string) (text : list ascii) : list (list ascii) :=
  snd <$> filter (λ e, e.1 = event) (EventSource text).
End Stream.

(** ** The task page *)

(** A JavaScript [Map]: setting a key that is there keeps its place. *)
Fixpoint map_set (t : genTask) (m : list genTask) : list genTask :=
  match m with
  | [] => [t]
  | u :: m' => if String.eqb (g_Id u) (g_Id t) then t :: m' else u :: map_set t m'
  end.

Definition map_of (l : list genTask) : list genTask := foldl (λ m t, map_set t m) [] l.

Definition map_has (id : string) (m : list genTask) : bool := existsb (λ u, String.eqb (g_Id u) id) m.

(** [new Date(received_at).getTime()]. *)
Definition getTime (t : genTask) : Z := g_ReceivedAt t / 1000000.

Definition newest_first (a b : genTask) : Prop := getTime b ≤ getTime a.

#[global] Instance newest_first_dec a b : Decision (newest_first a b).
Proof. unfold newest_first. apply _. Defined.

Definition sortTasksDesc (m : list genTask) : list genTask := merge_sort newest_first m.

Inductive stream : Type := created | updated.

#[global] Instance stream_eq_dec : EqDecision stream.
Proof. solve_decision. Defined.

(** What a stream hook holds and what its effect saw last. *)
Record hook : Type := mkHook { hk_last : option string; hk_prev : option string }.

Record feed : Type := mkFeed {
  taskMap : list genTask; tasks : list genTask; nextCursor : option string; loadingOlder : bool;
  isPaused : bool; bufferedEvents : list (stream * genTask);
  hk_created : hook; hk_updated : hook
}.

Definition mount (page : list genTask) (next : option string) : feed :=
  mkFeed (map_of page) page next false false [] (mkHook None None) (mkHook None None).

Definition with_map (m : list genTask) (f : feed) : feed :=
  mkFeed m (sortTasksDesc m) (nextCursor f) (loadingOlder f) (isPaused f) (bufferedEvents f) (hk_created f) (hk_updated f).

Definition hook_of (k : stream) (f : feed) : hook :=
  match k with created => hk_created f | updated => hk_updated f end.

Definition with_hook (k : stream) (h : hook) (f : feed) : feed :=
  let '(c, u) := match k with created => (h, hk_updated f) | updated => (hk_created f, h) end in
  mkFeed (taskMap f) (tasks f) (nextCursor f) (loadingOlder f) (isPaused f) (bufferedEvents f) c u.

Definition buffer (k : stream) (t : genTask) (f : feed) : feed :=
  mkFeed (taskMap f) (tasks f) (nextCursor f) (loadingOlder f) (isPaused f) (bufferedEvents f ++ [(k, t)])
    (hk_created f) (hk_updated f).

(** New loader data: the effect refills the map; the rows shown are state of
    their own. *)
Definition loader_data (page : list genTask) (f : feed) : feed :=
  mkFeed (map_of page) (tasks f) (nextCursor f) (loadingOlder f) (isPaused f) (bufferedEvents f)
    (hk_created f) (hk_updated f).

Definition handleTogglePause (f : feed) : feed :=
  mkFeed (taskMap f) (tasks f) (nextCursor f) (loadingOlder f) true (bufferedEvents f) (hk_created f) (hk_updated f).

Definition handleResume (f : feed) : feed :=
  let m := foldl (λ m e, map_set e.2 m) (taskMap f) (bufferedEvents f) in
  mkFeed m (sortTasksDesc m) (nextCursor f) (loadingOlder f) false [] (hk_created f) (hk_updated f).

(** [loadMore] up to its request, which carries the cursor. *)
Definition loadMore (f : feed) : option (string * feed) :=
  match nextCursor f with
  | None => None
  | Some c =>
      if String.eqb c "" || loadingOlder f then None
      else Some (c, mkFeed (taskMap f) (tasks f) (nextCursor f) true (isPaused f) (bufferedEvents f)
                      (hk_created f) (hk_updated f))
  end.

(** The answer, [None] when the request or the parsing fails. *)
Definition loaded (answer : option (list genTask * option string)) (f : feed) : feed :=
  match answer with
  | None => mkFeed (taskMap f) (tasks f) (nextCursor f) false (isPaused f) (bufferedEvents f) (hk_created f) (hk_updated f)
  | Some (page, next) =>
      let m := foldl (λ m t, if map_has (g_Id t) m then m else map_set t m) (taskMap f) page in
      mkFeed m (sortTasksDesc m) next false (isPaused f) (bufferedEvents f) (hk_created f) (hk_updated f)
  end.

Section Page.
Variable parse : string → option genTask.

Definition processSseEvent (s : string) (f : feed) : feed :=
  match parse s with
  | Some t => with_map (map_set t (taskMap f)) f
  | None => f
  end.

Definition arrive (k : stream) (s : string) (f : feed) : feed :=
  with_hook k (mkHook (Some s) (hk_prev (hook_of k f))) f.

(** The effect of one stream; [None] is the error of a parse outside the [try],
    which takes the page down. *)
Definition stream_effect (k : stream) (f : feed) : option feed :=
  match hk_last (hook_of k f) with
  | None => Some f
  | Some s =>
      if decide (hk_prev (hook_of k f) = Some s) then Some f
      else let f := with_hook k (mkHook (Some s) (Some s)) f in
           if isPaused f then t ← parse s; Some (buffer k t f)
           else Some (processSseEvent s f)
  end.

Definition commit (f : feed) : option feed := f ← stream_effect created f; stream_effect updated f.

(** A text that is rendered before the next one arrives. *)
Definition deliver (f : feed) (m : stream * string) : option feed := commit (arrive m.1 m.2 f).

Fixpoint deliver_all (ms : list (stream * string)) (f : feed) : option feed :=
  match ms with
  | [] => Some f
  | m :: ms' => f ← deliver f m; deliver_all ms' f
  end.
End Page.

(** ** Query strings are read back *)

Lemma form_byte_plain c x : x ∈ form_byte c → x ≠ "&"%char ∧ x ≠ "="%char ∧ x ≠ ";"%char ∧ x ≠ "?"%char.
Proof.
  revert c x. assert (H : ∀ c, forallb (λ x, negb (existsb (Ascii.eqb x) (chars "&=;?"))) (form_byte c) = true).
  { intros [[] [] [] [] [] [] [] []]; vm_compute; done. }
  intros c x Hx. specialize (H c). rewrite forallb_forall in H.
  specialize (H x (proj1 (list_elem_of_In _ _) Hx)).
  split_and!; intros ->; by vm_compute in H.
Qed.

Lemma form_text_plain s x : x ∈ form_text s → x ≠ "&"%char ∧ x ≠ "="%char ∧ x ≠ ";"%char ∧ x ≠ "?"%char.
Proof.
  unfold form_text. rewrite list_elem_of_In, in_flat_map. intros (c & _ & Hx).
  by apply (form_byte_plain c), list_elem_of_In.
Qed.

Lemma unescape_byte c r : QueryUnescape (form_byte c ++ r) = t ← QueryUnescape r; Some (c :: t).
Proof. destruct c as [[] [] [] [] [] [] [] []]; reflexivity. Qed.

Lemma unescape_text s : QueryUnescape (form_text s) = Some (chars s).
Proof.
  unfold form_text. induction (chars s) as [|c r IH]; [done|].
  cbn [flat_map]. by rewrite unescape_byte, IH.
Qed.

Lemma cut_first c a b : c ∉ a → cut c (a ++ c :: b) = (a, b).
Proof.
  induction a as [|x a IH]; intros Hc; cbn [cut app]; [by rewrite Ascii.eqb_refl|].
  rewrite not_elem_of_cons in Hc. destruct Hc as [Hx Ha].
  destruct (Ascii.eqb_spec x c); [by subst|]. by rewrite IH.
Qed.

Lemma form_pair_plain p x : x ∈ form_pair p → x ≠ "&"%char ∧ x ≠ ";"%char ∧ x ≠ "?"%char.
Proof.
  unfold form_pair. rewrite elem_of_app, elem_of_cons.
  intros [H|[->|H]]; [apply form_text_plain in H; naive_solver|done|apply form_text_plain in H; naive_solver].
Qed.

Lemma parse_form_pair p : parse_piece (form_pair p) = Some p.
Proof.
  unfold parse_piece.
  replace (existsb (Ascii.eqb ";") (form_pair p)) with false.
  - assert (form_pair p ≠ []) as Hne by (unfold form_pair; by destruct (form_text p.1)).
    destruct (form_pair p) eqn:E; [done|]. rewrite <- E. unfold form_pair.
    rewrite cut_first by (intros H; by apply form_text_plain in H as (_ & ? & _)).
    rewrite !unescape_text. cbn. rewrite !string_of_chars. by destruct p.
  - symmetry. apply not_true_iff_false. rewrite existsb_exists.
    intros (x & Hx & E%Ascii.eqb_eq). apply list_elem_of_In, form_pair_plain in Hx. naive_solver.
Qed.

Lemma parse_form_pairs l : parseQuery (form_pairs l) = l.
Proof.
  assert (Hp : ∀ p, "&"%char ∉ form_pair p) by (intros p H; apply form_pair_plain in H; naive_solver).
  unfold parseQuery. induction l as [|p [|q l] IH]; [done| |].
  - cbn [form_pairs]. rewrite split_at_none by done. cbn. by rewrite parse_form_pair.
  - change (form_pairs (p :: q :: l)) with (form_pair p ++ "&"%char :: form_pairs (q :: l)).
    rewrite split_at_first by done. cbn [omap list_omap app]. by rewrite parse_form_pair, IH.
Qed.

Lemma Values_Get_app k a b :
  Values_Get k (a ++ b) = if decide (k ∈ a.*1) then Values_Get k a else Values_Get k b.
Proof.
  induction a as [|[k' v] a IH]; [done|]. cbn [app Values_Get fmap list_fmap fst].
  destruct (String.eqb_spec k k') as [->|Hk].
  - rewrite decide_True by set_solver. done.
  - rewrite IH. repeat case_decide; set_solver.
Qed.

Definition given (v : option string) : string := default "" v.

Lemma get_set_param k v b :
  Values_Get k b = "" → Values_Get k (set_param k v ++ b) = given v.
Proof.
  intros Hb. unfold set_param, given. destruct v as [v|]; [|done].
  destruct (String.eqb_spec v "") as [->|]; [done|]. cbn. by rewrite String.eqb_refl.
Qed.

Lemma get_other_param k k' v b : k ≠ k' → Values_Get k (set_param k' v ++ b) = Values_Get k b.
Proof.
  intros Hk. unfold set_param. destruct v as [v|]; [|done].
  destruct (String.eqb v ""); [done|]. cbn. by rewrite (proj2 (String.eqb_neq k k') Hk).
Qed.

Definition limit_text (n : option N) : string :=
  match n with Some n => if (n =? 0)%N then "" else pretty n | None => "" end.

Lemma get_limit k (n : option N) b :
  Values_Get k ((match n with Some n => if (n =? 0)%N then [] else [("limit"%string, pretty n)] | None => [] end) ++ b) =
  if String.eqb k "limit" && negb (String.eqb (limit_text n) "") then limit_text n else Values_Get k b.
Proof.
  destruct n as [n|]; cbn [limit_text]; [|by rewrite andb_false_r].
  destruct (n =? 0)%N; [by rewrite andb_false_r|].
  cbn. destruct (String.eqb k "limit"); [|done]. cbn.
  destruct (String.eqb_spec (pretty n) "") as [E|]; [|done].
  destruct (pretty_ne n). by rewrite E.
Qed.

(** Reads one parameter behind the ones set before it. *)
Ltac read_params :=
  repeat (rewrite get_other_param by done); rewrite ?get_limit;
  cbn [String.eqb Ascii.eqb Bool.eqb andb];
  try (apply get_set_param; repeat (rewrite get_other_param by done); rewrite ?get_limit;
       cbn [String.eqb Ascii.eqb Bool.eqb andb]; repeat (rewrite get_other_param by done); done).

(** The request line of [listTasks] and the reading of the list handler agree:
    whatever bytes the filters hold, the handler sees each of them as given, and
    the empty text for the ones that are absent. *)
Theorem list_request_read_back rfc p :
  read_query rfc (listTasks p) =
  mkQuery (given (lp_handler p)) (given (lp_status p)) (read_since rfc (given (lp_since p)))
    (given (lp_sort p)) (limit_text (lp_limit p)) (given (lp_cursor p)).
Proof.
  assert (Hq : parseQuery (snd (cut "?" (listTasks p))) = list_params p).
  { unfold listTasks. destruct (form_pairs (list_params p)) eqn:E.
    - rewrite <- (parse_form_pairs (list_params p)), E. done.
    - rewrite <- E. change (chars "/tasks?" ++ ?x) with (chars "/tasks" ++ "?"%char :: x).
      rewrite cut_first by (vm_compute; set_solver). apply parse_form_pairs. }
  unfold read_query. rewrite Hq. unfold list_params.
  rewrite <- (app_nil_r (set_param "cursor" (lp_cursor p))).
  f_equal; [read_params|read_params|f_equal; read_params|read_params|read_params|read_params].
  destruct (String.eqb_spec (limit_text (lp_limit p)) "") as [E|]; cbn [negb]; [|done].
  rewrite get_other_param by done. by rewrite E.
Qed.

(** No range of the filter bar limits the list: each is a text that is not an
    RFC 3339 time, and the answer is the one without a range. *)
Theorem offered_ranges_ignored `{Postgres} rfc p r tr1 tr2 db1 db2 :
  (∀ s t, rfc s = Some t → take_digits 4 0 s ≠ None) →
  r ∈ TIME_RANGES →
  let asks since := read_query rfc (listTasks (mkListParams (lp_handler p) (lp_status p) since (lp_sort p) (lp_limit p) (lp_cursor p))) in
  ListTasks tr1 tr2 (asks (Some r)) db1 db2 = ListTasks tr1 tr2 (asks None) db1 db2.
Proof.
  intros Hrfc Hr asks. unfold asks. rewrite !list_request_read_back. cbn -[read_since limit_text ListTasks].
  assert (rfc r = None ∧ r ≠ ""%string) as [E Hne].
  { destruct (rfc r) as [t|] eqn:E.
    - destruct (Hrfc r t E). unfold TIME_RANGES in Hr. rewrite !elem_of_cons in Hr.
      by destruct Hr as [->|[->|[->|[->|?%not_elem_of_nil]]]].
    - split; [done|]. intros ->. unfold TIME_RANGES in Hr. set_solver. }
  rewrite bad_since_lists_all; [done|]. cbn. unfold read_since.
  by rewrite (proj2 (String.eqb_neq r "") Hne), E.
Qed.

(** The filter bar offers exactly the statuses of the table, so no offered status
    is refused by the database. *)
Theorem offered_statuses_accepted : STATUS_OPTIONS ≡ₚ task_status.
Proof.
  apply NoDup_Permutation; [vm_compute; repeat constructor; set_solver| |].
  - vm_compute; repeat constructor; set_solver.
  - intros x. unfold STATUS_OPTIONS, task_status. set_solver.
Qed.

(** A time-out is offered exactly where the transition is allowed, and the button
    of a row that is still as shown answers 200 and moves it to Timeout, keeping
    its other columns; on any other row the answer is 409 and nothing changes. *)
Theorem offered_timeout_accepted `{Postgres} id db r :
  filter (λ r, has_id id r = true) (db_rows db) = [r] →
  canTimeout (r_Status r) = validTransitions (r_Status r) StatusTimeout ∧
  executeTimeout calm (λ d, d) (λ d, d) id db =
  if canTimeout (r_Status r) then
    let t := fromRow (set_columns StatusTimeout (mkFields None None None None None) r) in
    (replace_rows (has_id id) (set_columns StatusTimeout (mkFields None None None None None)) db,
     Resp 200 (BTask (domainToGenTask t)), [t])
  else (db, Resp 409 (BErr (ErrInvalidTransition (r_Status r) StatusTimeout)), []).
Proof.
  intros Hr. split; [unfold canTimeout, validTransitions; by rewrite andb_true_r|].
  unfold executeTimeout, UpdateTaskStatus. rewrite update_status_branches, Hr.
  change (IsTerminal _) with true. rewrite andb_true_r. unfold canTimeout.
  change "Processing"%string with StatusProcessing. by destruct (String.eqb (r_Status r) StatusProcessing).
Qed.

(** ** The live stream is not heard *)

Lemma split_at_ne c l cur : split_at c l cur ≠ [].
Proof. revert cur. induction l as [|x l IH]; intros cur; cbn; [done|]. by case_match. Qed.

Lemma es_frame js r :
  "010"%char ∉ js →
  EventSource ((chars "data: " ++ js ++ ["010"; "010"]%char) ++ r) = ("message"%string, js) :: EventSource r.
Proof.
  intros Hjs. unfold EventSource. rewrite <- (app_assoc (chars "data: ")), <- (app_assoc js).
  rewrite (app_assoc (chars "data: ")). cbn [app]. rewrite split_at_first.
  2:{ rewrite not_elem_of_app. split; [vm_compute; set_solver|done]. }
  cbn [split_at app]. rewrite Ascii.eqb_refl.
  pose proof (split_at_ne "010" r []). destruct (split_at "010" r []) as [|l0 ls]; [done|]. reflexivity.
Qed.

Lemma frames_unnamed (marshal : genTask → list ascii) ts :
  (∀ t, "010"%char ∉ marshal t) →
  EventSource (flat_map (write_frame marshal) ts) = (λ t, ("message"%string, marshal t)) <$> ts.
Proof.
  intros Hm. induction ts as [|t ts IH]; [done|]. cbn [flat_map fmap list_fmap].
  unfold write_frame at 1. by rewrite es_frame, IH.
Qed.

(** The stream handler names no event, so the browser dispatches every task it
    sends as a plain message, and the two listeners of the task page hear none of
    them, while a listener for plain messages would hear all, in order. *)
Theorem live_stream_unheard (marshal : genTask → list ascii) ts :
  (∀ t, "010"%char ∉ marshal t) →
  let text := flat_map (write_frame marshal) ts in
  heard "task.created" text = [] ∧ heard "task.updated" text = [] ∧ heard "message" text = marshal <$> ts.
Proof.
  intros Hm text. unfold heard, text. rewrite frames_unnamed by done.
  split_and!; [rewrite filter_none; [done|]|rewrite filter_none; [done|]|].
  1-2: by apply Forall_fmap, Forall_true.
  rewrite filter_id by (by apply Forall_fmap, Forall_true). by rewrite <- list_fmap_compose.
Qed.

(** ** The map of the page *)

Lemma map_set_ids t m :
  (g_Id <$> map_set t m) = if decide (g_Id t ∈ g_Id <$> m) then g_Id <$> m else (g_Id <$> m) ++ [g_Id t].
Proof.
  induction m as [|u m IH]; [done|]. cbn [map_set fmap list_fmap].
  destruct (String.eqb_spec (g_Id u) (g_Id t)) as [E|Hn].
  - rewrite decide_True by (rewrite E; set_solver). cbn. by rewrite E.
  - cbn. rewrite IH. repeat case_decide; set_solver.
Qed.

Lemma map_set_nodup t m : NoDup (g_Id <$> m) → NoDup (g_Id <$> map_set t m).
Proof.
  intros Hm. rewrite map_set_ids. case_decide; [done|].
  apply NoDup_app. split_and!; [done|set_solver|apply NoDup_singleton].
Qed.

Lemma elem_of_map_set t m x :
  NoDup (g_Id <$> m) → x ∈ map_set t m ↔ x = t ∨ (x ∈ m ∧ g_Id x ≠ g_Id t).
Proof.
  induction m as [|u m IH]; intros Hm; [cbn; set_solver|].
  rewrite fmap_cons, NoDup_cons in Hm. destruct Hm as [Hu Hm]. cbn [map_set].
  destruct (String.eqb_spec (g_Id u) (g_Id t)) as [E|Hn].
  - rewrite !elem_of_cons. split; [|naive_solver].
    intros [->|Hx]; [by left|]. right. split; [by right|].
    intros E'. apply Hu. rewrite E, <- E'. by apply list_elem_of_fmap_2.
  - rewrite !elem_of_cons, IH by done. split; [|naive_solver].
    intros [->|[->|[? ?]]]; naive_solver.
Qed.

(** The version of [id] that came last. *)
Definition latest (id : string) (l : list genTask) : option genTask := last (filter (λ t, g_Id t = id) l).

Lemma latest_snoc id l t : latest id (l ++ [t]) = if decide (g_Id t = id) then Some t else latest id l.
Proof.
  unfold latest. rewrite filter_app, filter_cons, filter_nil. case_decide; [apply last_snoc|by rewrite app_nil_r].
Qed.

Lemma map_of_spec l :
  NoDup (g_Id <$> map_of l) ∧ ∀ x, x ∈ map_of l ↔ latest (g_Id x) l = Some x.
Proof.
  induction l as [|t l [Hd Hx]] using rev_ind.
  { split; [constructor|]. intros x. cbn. set_solver. }
  unfold map_of in *. rewrite foldl_app. cbn. split; [by apply map_set_nodup|].
  intros x. rewrite elem_of_map_set, Hx, latest_snoc by done.
  case_decide as E; split; naive_solver.
Qed.

#[global] Instance newest_first_total : Total newest_first.
Proof. intros a b. unfold newest_first. lia. Qed.

#[global] Instance newest_first_trans : Transitive newest_first.
Proof. intros a b c. unfold newest_first. lia. Qed.

Lemma sortTasksDesc_perm m : sortTasksDesc m ≡ₚ m.
Proof. apply merge_sort_Permutation. Qed.

Lemma sortTasksDesc_sorted m : StronglySorted newest_first (sortTasksDesc m).
Proof. apply (StronglySorted_merge_sort _). Qed.

(** ** The feed *)

Section Feed.
Variable parse : string → option genTask.

(** No text waits for an effect. *)
Definition seen (h : hook) : Prop := hk_last h = None ∨ hk_last h = hk_prev h.

Definition settled (f : feed) : Prop := seen (hk_created f) ∧ seen (hk_updated f).

(** What a text does to the hooks of a settled feed. *)
Definition noted (k : stream) (s : string) (f : feed) : feed := with_hook k (mkHook (Some s) (Some s)) f.

Lemma effect_seen k f : seen (hook_of k f) → stream_effect parse k f = Some f.
Proof.
  unfold stream_effect. destruct (hk_last (hook_of k f)) as [s|] eqn:E; [|done].
  intros [H|H]; [congruence|]. by rewrite decide_True by congruence.
Qed.

(** The effect of a text that just arrived. *)
Definition received_text (k : stream) (s : string) (f : feed) : option feed :=
  if decide (hk_prev (hook_of k f) = Some s) then Some (noted k s f)
  else if isPaused f then t ← parse s; Some (buffer k t (noted k s f))
  else Some (processSseEvent parse s (noted k s f)).

Lemma effect_arrive k s f : stream_effect parse k (arrive k s f) = received_text k s f.
Proof.
  unfold stream_effect, received_text, noted, arrive.
  destruct k; cbn; (case_decide as E; [by rewrite E|]); by destruct (isPaused f).
Qed.

Lemma received_other k s f g k' : k' ≠ k → received_text k s f = Some g → hook_of k' g = hook_of k' f.
Proof.
  unfold received_text, processSseEvent. intros Hk H.
  destruct k, k'; try done; repeat case_match; simplify_option_eq; done.
Qed.

Lemma deliver_spec f k s : settled f → deliver parse f (k, s) = received_text k s f.
Proof.
  intros [Hc Hu]. unfold deliver, commit. cbn [fst snd]. destruct k.
  - rewrite effect_arrive. destruct (received_text created s f) as [g|] eqn:E; [|done].
    cbn [mbind option_bind]. apply effect_seen. by rewrite (received_other created s f g updated ltac:(done) E).
  - rewrite (effect_seen created) by done. cbn [mbind option_bind]. apply effect_arrive.
Qed.

Lemma settled_after f k s g : settled f → deliver parse f (k, s) = Some g → settled g.
Proof.
  intros Hs. rewrite deliver_spec by done. destruct Hs as [Hc Hu]. unfold received_text, processSseEvent.
  intros Hg. destruct k; repeat case_match; simplify_option_eq; split; cbn; first [done|by right].
Qed.

(** The paused page and the page that was not paused, after the same texts. *)
Definition catching_up (p l : feed) : Prop :=
  isPaused p = true ∧ isPaused l = false ∧ settled p ∧ handleResume p = l.

Lemma resume_buffer k t f :
  handleResume (buffer k t f) = with_map (map_set t (taskMap (handleResume f))) (handleResume f).
Proof. unfold handleResume, buffer, with_map. cbn. by rewrite foldl_app. Qed.

Lemma resume_noted k s f : handleResume (noted k s f) = noted k s (handleResume f).
Proof. by destruct k. Qed.

Lemma catching_up_step p l k s :
  is_Some (parse s) → catching_up p l →
  ∃ p' l', deliver parse p (k, s) = Some p' ∧ deliver parse l (k, s) = Some l' ∧ catching_up p' l'.
Proof.
  intros [t Ht] (Hp & Hl & Hs & <-).
  assert (Hsl : settled (handleResume p)) by done.
  destruct (deliver parse p (k, s)) as [p'|] eqn:Ep.
  2:{ rewrite deliver_spec in Ep by done. unfold received_text in Ep. rewrite Hp, Ht in Ep. by case_decide. }
  destruct (deliver parse (handleResume p) (k, s)) as [l'|] eqn:El.
  2:{ rewrite deliver_spec in El by done. unfold received_text in El. by case_decide. }
  exists p', l'. split_and!; [done..|].
  assert (settled p') by (by apply (settled_after p k s)).
  rewrite deliver_spec in Ep, El by done. unfold received_text in Ep, El. rewrite Hp, Ht in Ep. rewrite Hl in El.
  change (hk_prev (hook_of k (handleResume p))) with (hk_prev (hook_of k p)) in El.
  case_decide; cbn in Ep; simplify_eq.
  - unfold catching_up. rewrite resume_noted. by destruct k.
  - unfold catching_up, processSseEvent. rewrite Ht, resume_buffer, resume_noted. by destruct k.
Qed.

(** Pausing loses nothing: whatever texts come while the page is paused, resuming
    gives exactly the page that was never paused, rows, map and hooks. *)
Theorem pause_transparent f ms :
  settled f → isPaused f = false → bufferedEvents f = [] → tasks f = sortTasksDesc (taskMap f) →
  Forall (λ m, is_Some (parse m.2)) ms →
  ∃ g, deliver_all parse ms f = Some g ∧
       handleResume <$> deliver_all parse ms (handleTogglePause f) = Some g.
Proof.
  intros Hs Hl Hb Ht Hms.
  assert (Hc : catching_up (handleTogglePause f) f).
  { split_and!; [done..|]. destruct f. unfold handleResume. cbn in *. by subst. }
  revert Hc. generalize (handleTogglePause f). clear Hs Hl Hb Ht. revert f.
  induction Hms as [|[k s] ms Hm _ IH]; intros l p Hc; cbn [deliver_all].
  - exists l. split; [done|]. destruct Hc as (_ & _ & _ & Hc). cbn. by rewrite Hc.
  - destruct (catching_up_step p l k s Hm Hc) as (p' & l' & -> & -> & Hc'). by apply IH.
Qed.

(** A paused page that gets a text it cannot parse goes down, where the same page
    live ignores it. *)
Theorem pause_is_brittle f k s :
  settled f → isPaused f = false → parse s = None → hk_prev (hook_of k f) ≠ Some s →
  deliver parse (handleTogglePause f) (k, s) = None ∧ deliver parse f (k, s) = Some (noted k s f).
Proof.
  intros Hs Hl Hp Hn. rewrite !deliver_spec by done. unfold received_text.
  change (hk_prev (hook_of k (handleTogglePause f))) with (hk_prev (hook_of k f)).
  rewrite !decide_False by done. unfold processSseEvent. rewrite Hp, Hl. by destruct k.
Qed.

(** The last text of a stream. *)
Definition last_text (k : stream) (ms : list (stream * string)) : option string :=
  last (filter (λ m, m.1 = k) ms).*2.

(** The tasks of the texts that the page takes: a text that repeats the one before
    it on its stream is not looked at, a text that is no JSON is ignored. *)
Fixpoint taken (earlier ms : list (stream * string)) : list genTask :=
  match ms with
  | [] => []
  | (k, s) :: ms' =>
      (if decide (last_text k earlier = Some s) then [] else option_list (parse s)) ++ taken (earlier ++ [(k, s)]) ms'
  end.

Lemma last_text_snoc k earlier k' s :
  last_text k (earlier ++ [(k', s)]) = if decide (k' = k) then Some s else last_text k earlier.
Proof.
  unfold last_text. rewrite filter_app, filter_cons, filter_nil. cbn [fst]. case_decide.
  - rewrite fmap_app. cbn. apply last_snoc.
  - by rewrite app_nil_r.
Qed.

Lemma live_run earlier ms f :
  settled f → isPaused f = false → (∀ k, hk_prev (hook_of k f) = last_text k earlier) →
  ∃ g, deliver_all parse ms f = Some g ∧ taskMap g = foldl (λ m t, map_set t m) (taskMap f) (taken earlier ms) ∧
       tasks g = match taken earlier ms with [] => tasks f | _ => sortTasksDesc (taskMap g) end.
Proof.
  revert earlier f. induction ms as [|[k s] ms IH]; intros earlier f Hs Hl Hu; [by exists f|].
  pose proof (settled_after f k s) as Ha. cbn [deliver_all taken].
  rewrite deliver_spec in Ha |- * by done. unfold received_text in Ha |- *. rewrite Hu in Ha |- *.
  assert (Hnoted : ∀ f' k', hook_of k' f' = hook_of k' (noted k s f) →
    hk_prev (hook_of k' f') = last_text k' (earlier ++ [(k, s)])).
  { intros f' k' ->. rewrite last_text_snoc, <-Hu. by destruct k, k'. }
  case_decide.
  - cbn [app mbind option_bind]. destruct (IH (earlier ++ [(k, s)]) (noted k s f)) as (g & Hg & Hm & Hts);
      [by apply Ha|by destruct k|by intros; apply Hnoted|]. exists g. split; [done|]. by destruct k.
  - rewrite Hl in Ha |- *. unfold processSseEvent in *. destruct (parse s) as [t|]; cbn [mbind option_bind option_list app].
    + destruct (IH (earlier ++ [(k, s)]) (with_map (map_set t (taskMap (noted k s f))) (noted k s f)))
        as (g & Hg & Hm & Hts); [by apply Ha|by destruct k|by intros; apply Hnoted|].
      exists g. split; [done|]. rewrite Hm, Hts. split; [by destruct k|].
      destruct (taken _ ms); [|by rewrite Hm]. by destruct k.
    + destruct (IH (earlier ++ [(k, s)]) (noted k s f)) as (g & Hg & Hm & Hts);
        [by apply Ha|by destruct k|by intros; apply Hnoted|]. exists g. split; [done|]. by destruct k.
Qed.

(** C36. What the live page shows after any texts of the two streams, each rendered
    before the next.  A text that repeats the one before it on its own stream is
    dropped, even when another version of the task came on the other stream in
    between, and so is one that does not parse.  Once a text is taken, every task
    is shown once, in the version that came last with the page or in a text that
    was taken, in descending order of arrival; until then the page is shown as it
    was loaded. *)
Theorem feed_shows_latest page next ms :
  ∃ g, deliver_all parse ms (mount page next) = Some g ∧
    match taken [] ms with
    | [] => tasks g = page
    | ts => StronglySorted newest_first (tasks g) ∧ NoDup (g_Id <$> tasks g) ∧
            ∀ t, t ∈ tasks g ↔ latest (g_Id t) (page ++ ts) = Some t
    end.
Proof.
  destruct (live_run [] ms (mount page next)) as (g & Hg & Hm & Ht); [split; by left|done|by intros []|].
  exists g. split; [done|]. destruct (taken [] ms) as [|t0 ts] eqn:E; [done|]. rewrite <-E in *.
  assert (Hmap : taskMap g = map_of (page ++ taken [] ms)) by (rewrite Hm; unfold map_of; by rewrite foldl_app).
  rewrite Ht, Hmap. destruct (map_of_spec (page ++ taken [] ms)) as [Hnd Hin].
  split_and!; [apply sortTasksDesc_sorted| |].
  - by rewrite sortTasksDesc_perm.
  - intros t. by rewrite sortTasksDesc_perm.
Qed.

(** Two texts of one stream between two renders: the first is never shown. *)
Theorem coalesced_text_lost f k s1 s2 :
  commit parse (arrive k s2 (arrive k s1 f)) = deliver parse f (k, s2).
Proof. by destruct k. Qed.

End Feed.

(** ** Older pages and new loader data *)

Lemma map_has_spec id m : map_has id m = true ↔ id ∈ g_Id <$> m.
Proof.
  unfold map_has. rewrite existsb_exists, list_elem_of_fmap. setoid_rewrite String.eqb_eq.
  setoid_rewrite <- list_elem_of_In. naive_solver.
Qed.

Lemma merge_older_spec page m :
  NoDup (g_Id <$> m) →
  let m' := foldl (λ m t, if map_has (g_Id t) m then m else map_set t m) m page in
  NoDup (g_Id <$> m') ∧ (∀ t, t ∈ m → t ∈ m') ∧
  (∀ t, t ∈ m' → t ∈ m ∨ (t ∈ page ∧ g_Id t ∉ g_Id <$> m)) ∧ (∀ t, t ∈ page → g_Id t ∈ g_Id <$> m').
Proof.
  revert m. induction page as [|u page IH]; intros m Hd m'; [unfold m'; cbn; set_solver|].
  cbn in m'. destruct (map_has (g_Id u) m) eqn:E.
  - destruct (IH m Hd) as (H1 & H2 & H3 & H4). apply map_has_spec in E. split_and!; [done..| |].
    + intros t Ht. destruct (H3 t Ht); set_solver.
    + intros t [->|Ht]%elem_of_cons; [|by apply H4].
      apply list_elem_of_fmap in E as (x & -> & Hx). by apply list_elem_of_fmap_2, H2.
  - assert (Hu : g_Id u ∉ g_Id <$> m) by (intros H%map_has_spec; congruence).
    destruct (IH (map_set u m)) as (H1 & H2 & H3 & H4); [by apply map_set_nodup|].
    assert (Hids : ∀ t, t ∈ m → g_Id t ≠ g_Id u) by (intros t Ht Ei; apply Hu; rewrite <- Ei; by apply list_elem_of_fmap_2).
    split_and!; [done| | |].
    + intros t Ht. apply H2, elem_of_map_set; auto.
    + intros t [Ht|[Ht Hn]]%H3.
      * apply elem_of_map_set in Ht as [->|[? _]]; set_solver.
      * right. split; [set_solver|]. intros Hx. apply Hn. rewrite map_set_ids, decide_False by done. set_solver.
    + intros t [->|Ht]%elem_of_cons; [|by apply H4]. by apply list_elem_of_fmap_2, H2, elem_of_map_set; auto.
Qed.

(** An older page adds the tasks that were not known and overwrites none: a
    version the stream brought stays; each id is shown once, in order, and the
    cursor moves on. *)
Theorem older_page_merged f page next :
  NoDup (g_Id <$> taskMap f) →
  let g := loaded (Some (page, next)) f in
  nextCursor g = next ∧ loadingOlder g = false ∧
  StronglySorted newest_first (tasks g) ∧ NoDup (g_Id <$> tasks g) ∧
  (∀ t, t ∈ taskMap f → t ∈ tasks g) ∧
  (∀ t, t ∈ tasks g → t ∈ taskMap f ∨ (t ∈ page ∧ g_Id t ∉ g_Id <$> taskMap f)) ∧
  (∀ t, t ∈ page → g_Id t ∈ g_Id <$> tasks g).
Proof.
  intros Hd g. destruct (merge_older_spec page (taskMap f) Hd) as (H1 & H2 & H3 & H4).
  unfold g. cbn [loaded tasks nextCursor loadingOlder]. split_and!; [done|done|apply sortTasksDesc_sorted| |..].
  - by rewrite sortTasksDesc_perm.
  - intros t Ht. rewrite sortTasksDesc_perm. by apply H2.
  - intros t. rewrite sortTasksDesc_perm. apply H3.
  - intros t Ht. rewrite sortTasksDesc_perm. by apply H4.
Qed.

(** New loader data, from another filter or from the reload after an action, is
    not shown: the rows stay, until the next text of the stream drops every row
    that is not in the new page. *)
Theorem reload_shown_late parse f page k s t :
  settled f → isPaused f = false → parse s = Some t → hk_prev (hook_of k f) ≠ Some s →
  tasks (loader_data page f) = tasks f ∧
  ∃ g, deliver parse (loader_data page f) (k, s) = Some g ∧ tasks g = sortTasksDesc (map_set t (map_of page)).
Proof.
  intros Hs Hl Hp Hn. split; [done|]. rewrite deliver_spec by done. unfold received_text.
  change (hk_prev (hook_of k (loader_data page f))) with (hk_prev (hook_of k f)).
  rewrite decide_False by done. cbn [isPaused loader_data]. rewrite Hl. unfold processSseEvent. rewrite Hp.
  eexists. split; [done|]. by destruct k.
Qed.

(** ** Samples *)

Module Samples.

Definition task (id status : string) (at_ : Z) : genTask :=
  mkGenTask id "c" "h" "ns" "e" "src" "ty" JNull status false None None no_error None None (at_ * second) None None.

(** A parser of three texts. *)
Definition texts (s : string) : option genTask :=
  if String.eqb s "a-done" then Some (task "a" "Completed" 10)
  else if String.eqb s "b-new" then Some (task "b" "Processing" 20)
  else if String.eqb s "a-late" then Some (task "a" "Failed" 10)
  else None.

Definition page : list genTask := [task "a" "Processing" 10; task "z" "Completed" 5].

Definition incoming : list (stream * string) := [(updated, "a-done"); (created, "b-new"); (updated, "a-late")]%string.

(** A text that is no JSON, and one that repeats the last of its stream after
    another version came on the other stream. *)
Definition repeated : list (stream * string) :=
  [(created, "a-late"); (updated, "?"); (updated, "a-done"); (created, "a-late")]%string.

Lemma feed_shows_latest_witness :
  ∃ g, deliver_all texts (incoming ++ repeated) (mount page None) = Some g ∧
       tasks g = [task "b" "Processing" 20; task "a" "Completed" 10; task "z" "Completed" 5] ∧ NoDup (g_Id <$> tasks g).
Proof.
  destruct (feed_shows_latest texts page None (incoming ++ repeated)) as (g & Hg & Ht).
  exists g. split; [exact Hg|]. split; [vm_compute in Hg; injection Hg as <-; reflexivity|].
  assert (E : taken texts [] (incoming ++ repeated) = [task "a" "Completed" 10; task "b" "Processing" 20;
    task "a" "Failed" 10; task "a" "Failed" 10; task "a" "Completed" 10]) by (vm_compute; reflexivity).
  rewrite E in Ht. apply Ht.
Defined.

Lemma pause_transparent_witness :
  ∃ g, deliver_all texts incoming (mount [] None) = Some g ∧
       handleResume <$> deliver_all texts incoming (handleTogglePause (mount [] None)) = Some g.
Proof.
  apply (pause_transparent texts (mount [] None) incoming); [split; by left|done..|].
  repeat constructor; by eexists.
Defined.

(** A printer that writes the id. *)
Definition print_id (t : genTask) : list ascii := filter (λ c, c ≠ "010"%char) (chars (g_Id t)).

Lemma live_stream_unheard_witness :
  heard "task.updated" (flat_map (write_frame print_id) page) = [] ∧
  heard "message" (flat_map (write_frame print_id) page) = [chars "a"; chars "z"].
Proof.
  destruct (live_stream_unheard print_id page) as (_ & H1 & H2); [|by split].
  intros t. unfold print_id. rewrite list_elem_of_filter. naive_solver.
Defined.

Lemma offered_ranges_ignored_witness `{Postgres} db :
  ListTasks None None (read_query Parse (listTasks (loader_params (λ k, if String.eqb k "since" then Some "1h" else None)%string))) db db =
  ListTasks None None (read_query Parse (listTasks (loader_params (λ _, None)))) db db.
Proof.
  apply (offered_ranges_ignored Parse (loader_params (λ _, None)) "1h" None None db db); [|set_solver].
  intros s t Hs E. unfold Parse in Hs. by rewrite E in Hs.
Qed.

Lemma older_page_merged_witness :
  (g_Id <$> tasks (loaded (Some ([task "a" "Completed" 10; task "y" "Completed" 4], None)) (mount page (Some "z"%string)))) = ["a"; "z"; "y"]%string ∧
  task "a" "Processing" 10 ∈ tasks (loaded (Some ([task "a" "Completed" 10; task "y" "Completed" 4], None)) (mount page (Some "z"%string))).
Proof.
  split; [by vm_compute|].
  apply (older_page_merged (mount page (Some "z"%string)) [task "a" "Completed" 10; task "y" "Completed" 4] None).
  - apply map_of_spec.
  - vm_compute. left.
Defined.

End Samples.
